(* ===== verification/_CoqProject ===== *)
-Q . S2P
Prelude.v
CFloat.v
TpccSupport.v
TpccSequence.v
TpccRthist.v
TpccSql.v
TpccMemDb.v
TpccTx.v
TpccInvariant.v
TpccSample.v
TpccNeword.v
TpccPayment.v
TpccOrdstat.v
TpccDelivery.v
TpccSlev.v
TpccDriver.v
TpccBenchmark.v
TpccArgs.v
TpccMain.v
TpccLoad.v
TpccLoadOrders.v
TpccLoadAll.v
FioBits.v
FioAxmapLevels.v
FioAxmap.v
FioRandomMap.v
FioCrc.v
FioRbtree.v
FioRbtreeShape.v
FioRbtreeInsert.v
FioRbtreeErase.v
FioRbtreeSpec.v
FioFlist.v
FioIolog.v
FioIologInv.v
FioIologCorrect.v
FioVerifyHistory.v
FioIologErrors.v
FioStat.v
FioBuckets.v
FioPercentiles.v
FioStatCorrect.v
FioStatTypes.v
Dbt2Queue.v
Dbt2Client.v
Dbt2Ledger.v
Dbt2Invariant.v
Dbt2Correct.v
Dbt2Socket.v
SysbenchTimer.v
SysbenchPercentile.v
FioFlistSort.v
FioFlistSortSpec.v
FioHash.v
FioHashCorrect.v
FioHashDetect.v
FioRand.v
FioVerify.v
FioVerifyRun.v
FioVerifyDigest.v
FioVerifyRound.v
FioVerifyTypes.v
FioVerifyCorrect.v
FioVerifyDamage.v
FioVerifyChecks.v
Dbt2Input.v
Dbt2Driver.v
Dbt2Terminals.v
