(* ===== verification/Prelude.v ===== *)
(** * Verification of the mysql-benchmark tool set

    The repository bundles four benchmark programs.  This development models
    the TPC-C benchmark tpcc-mysql (src/tpcc-mysql/src), whose C code holds the
    transactions, the loader and the measuring driver; of the I/O tester fio
    (src/fio-2.1.12) the map of random blocks, its bitmap, the checksums that
    verify what was read back, the hashes, the random and patterned buffers, writing
    and checking the headers of blocks, the history of writes to verify with its
    red-black tree and linked lists, the sort of these lists, and the run statistics
    with their percentiles; of the TPC-C kit dbt2 (src/dbt2-0.40/src) the
    threads of its client with their queue, the transfer of requests, and the driver
    with its terminals and the inputs they generate; of
    sysbench (src/sysbench/sysbench) the timers and percentiles.

    ** The program and the files that model it

    - support.c, the random data both programs use: TpccSupport.  The state is
      the record [support] (the static variables [nums] and [perm_count], the flag
      of [NURand], the number of [rand()] calls made).  [rand()] itself is the
      parameter [RandSource], any sequence of values in [0, RAND_MAX].
    - sequence.c, the shuffled sequence of transaction types the threads share:
      TpccSequence.  The mutex makes [seq_get] one step.
    - rthist.c, the response time histograms: TpccRthist, with double arithmetic
      from CFloat (the IEEE operations of the Standard Library's SpecFloat).
    - The prepared statements of main.c and load.c, the tables of
      create_table.sql, and the MySQL client calls: TpccSql.  The server is not
      under src/: it is the class [MySQL] of calls with the class [MySQLLaws] of
      what the code relies on (isolation, all or nothing commit, rollback, result
      sets); conversions between DECIMAL and float and string comparison are the
      class [SqlServer].  TpccMemDb is a concrete server with a schedule of
      faults; it satisfies the laws and runs the witnesses, on the database of
      TpccSample.
    - The statement protocol all transactions share ([goto sqlerr] after a
      failed call, fetch loops, rollback at the labels): TpccTx, with the Hoare
      rules the transactions are proved with.
    - neword.c, payment.c, ordstat.c, delivery.c, slev.c: TpccNeword, TpccPayment,
      TpccOrdstat, TpccDelivery, TpccSlev.  Each is one definition per section of
      the C function, composed in the order of the code, with the labels around.
    - driver.c: TpccDriver.  The inputs of the transactions, the retries, the
      counters [success], [late], [retry], [failure] (per type and per thread) and
      the loop of a thread; the transactions are the interface [TxOps], which
      [mysql_ops] implements with the definitions above.  TpccBenchmark runs the
      driver on those transactions.
    - main.c and parse_port.h: TpccArgs, the options of tpcc_start and the
      arguments of tpcc_load ([strtol], [atoi], [parse_host], [parse_port]);
      TpccMain, the counters, [alarm_handler] with the line it prints for each
      interval, the totals, the constraint checks and the final figure, and the
      relation [bench_step] of what threads and the timer do to the counters.
    - load.c: TpccLoad; TpccLoadOrders for what it loads into the order tables and
      TpccLoadAll for the whole loader, from empty tables.
    - TpccInvariant: the consistency conditions ([consistent]) that the loader
      establishes and the transactions keep.
    - fio's lib/axmap.c: FioAxmap, a bitmap with summary levels, over FioBits
      (lib/ffz.h, words and masks) and FioAxmapLevels (what every level says of
      the level below); the record [axmap] has the levels as lists of words.
    - fio's io_u.c, the part that draws random blocks from the map: FioRandomMap.
    - fio's crc/: FioCrc, the table driven checksums crc7, crc16, crc32, crc32c and
      crc64, with the tables of the source.
    - fio's crc/md5.c, sha1.c, sha256.c, sha512.c and xxhash.c: FioHash, the transforms,
      the contexts and their updates; FioHashCorrect says what updates in pieces give
      and checks published values, FioHashDetect which changes of a message a checksum
      shows.
    - fio's lib/rand.c and rand.h: FioRand, the generator and the filling of buffers;
      memory is a list of bytes, an access outside it is undefined.
    - fio's verify.c, the contents of blocks: FioVerify, from [populate_verify_io_u] and
      [verify_io_u] down to every type of header, on the memory that starts at the
      unit's buffer, with the options as the record [verify_opts]; the bytes of arrays
      that are not initialised are the class [Junk].  FioVerifyRun says what each
      function does to a piece of the buffer, FioVerifyDigest what the checksums in the
      headers are, FioVerifyRound has the class [VerifyType] of what a type of
      verification promises and what follows for a whole buffer, FioVerifyTypes its
      instances, FioVerifyCorrect the setup of a unit and its round trip,
      FioVerifyDamage which damage is reported and which is missed, FioVerifyChecks
      patterns, trimmed blocks and bad headers.
    - fio's lib/rbtree.c and lib/rbtree.h: FioRbtree, the operations on a heap of
      nodes with parent pointers that carry the colour; FioRbtreeShape has the tree
      that a heap represents, seen from a node with its path to the root,
      FioRbtreeInsert and FioRbtreeErase the repair loops, FioRbtreeSpec what
      users see, a sequence of nodes.
    - fio's flist.h: FioFlist, rings of entries in a heap.
    - fio's history of writes (iolog.c, verify.c, trim.c, trim.h): FioIolog, over the
      two structures above; the record [hist] has the part of the thread's data
      that is the history.  FioIologInv says what holds of it, FioIologCorrect what
      each operation does, FioVerifyHistory what verification reads after any
      writes, FioIologErrors has pruning, trimming and failed writes.
    - fio's lib/flist_sort.c: FioFlistSort, the merge sort of a list whose entries
      become chains sorted by level; FioFlistSortSpec relates the chains in the heap
      to lists and to stdpp's [list_merge].
    - fio's statistics (stat.c, stat.h, the marks of io_u.c): FioStat, with the record
      [thread_stat], counters kept at 32 and 64 bits and [double] from CFloat; [pow]
      is the class [Pow].  FioBuckets is about the buckets of latencies,
      FioPercentiles about the percentiles found from them, FioStatCorrect about
      marks, resets and merging, FioStatTypes about sizes and widths.
    - dbt2's transaction_queue.c and the node pool of listener.c: Dbt2Queue, linked
      lists in a heap with their semaphores and counters.  listener.c and the loop
      of db_threadpool.c: Dbt2Client, the acceptor, the listeners and the workers
      as points in their functions and a relation [step] in which any thread goes
      on; what comes from outside is the input of a step.  Dbt2Ledger says where
      the nodes are, Dbt2Invariant what holds between steps, Dbt2Correct has the
      theorems.
    - dbt2's _socket.c and client_interface.c: Dbt2Socket, the loops that send and
      receive a structure in pieces.
    - dbt2's common.c and input_data_generator.c: Dbt2Input, over the number of [rand()]
      calls as the state.  driver.c: Dbt2Driver, the mix and starting the terminals, with
      the array of thread ids as memory and the thread functions as the class
      [Pthreads]; Dbt2Terminals, the terminals as points in [terminal_worker] and a
      relation [step] in which any of them takes a [terminal_turn].
    - sysbench's sb_timer.c: SysbenchTimer, with the clock as an argument; and
      sb_percentile.c: SysbenchPercentile, with [log] and [exp] as the class [Libm].

    ** How the C code is modelled

    A function is a value of [prog F S A]: it maps a state to a value or an exit
    of type [F] and a new state.  [fault] is the exit of ordinary code: [abort],
    [exit], undefined behaviour of a kind [ub], or the fuel of a loop that the
    code does not bound.  Undefined behaviour is an outcome, so that its absence
    is part of every theorem that says a function returns: signed overflow,
    accesses outside arrays, reads of uninitialised locals and conversions of
    floating values that do not fit.  A goto to a label is an exit of [tx_exit]
    that [at_label] catches.  [int] is a [Z] checked against its range, [unsigned]
    is reduced modulo 2^32, a C string is the list of its characters, and arrays
    are lists read and written at C indices.

    Fuel occurs where the code loops on random draws ([other_ware], the marking
    of original items), on result sets (order-status and stock-level; the
    theorems assume at least the number of rows) and on restarts of the loader;
    theorems that a function returns are stated for enough fuel, or say what
    bounds it.  In fio, the number of levels of a map is bounded by 8 (each has
    64 times fewer bits, of at most 2^32), the shrinking of an overlapping mask by
    the 64 bits of a word, and the loop of [axmap_set_nr] by the blocks it is
    asked for.  Filling and checking a buffer take at most a turn per byte of it, and a
    hash a turn per block; only [fill_random_buf_percentage] may not end, and a theorem
    says when.  The loops of a red-black tree are bounded by the number of nodes
    in its heap, those of the list sort by the number of entries, and the search of
    [log_io_piece] restarts at most once.  The loops of the statistics run over
    arrays and need no fuel; [qsort] is a sort by its comparison.  In dbt2
    the loops that send and receive need at most one turn per
    byte and one more; its threads are a step relation and need no fuel, and
    the loops over warehouses need a turn per warehouse and one more.

    ** What the theorems show

    - Random data: ranges and coverage of [RandomNumber] and [NURand], the strings,
      the fixed point free permutation, distinct last names.
    - The mix: every pass over the sequence serves the configured counts.
    - The histogram: recording, checkpoint and report.
    - Transactions: each refines an operation on the tables ([new_order], [paid],
      [deliver]); whatever fails, a transaction commits all of its effect or
      nothing (delivery: per district), and consistency is kept; order-status and
      stock-level read what they promise and write nothing.
    - Driver: inputs are valid for the transactions, every transaction is counted
      once, retries are counted exactly; a thread keeps the database consistent
      however often the server fails.
    - Start program: options and arguments are read as documented, host and port
      round trip; the lines of the intervals add up to the totals, per thread
      and per type sums agree.
    - Loader: from an empty database it commits the populated and consistent
      database from which a benchmark thread starts.
    - axmap: the bitmap with levels refines a set of numbers, and its search for a
      free bit finds one when there is one; a random map gives every block of the
      file exactly once.
    - crc: every table driven checksum is the division by its polynomial, and shows
      every burst of its own size; xxhash shows every change of one byte.
    - Hashes: updating in pieces of any sizes is the fold of the transform over the
      blocks of the whole message, and for xxhash the single call.
    - Verification: what is written verifies, for every type, interval, offset and
      pattern that fit; damage is reported if the thread stops at errors or if it is in
      the last interval, and a part of the data is not covered by the longer hashes; a
      pattern is accepted exactly if every byte is right.
    - Red-black trees: any insertions and erasures keep a red-black tree whose nodes
      in order are the sequence they describe; walking it visits the nodes in order.
    - The history: after any writes verification reads each block once, as it was
      written last, in order of files and offsets (or, unsorted, each write in
      turn), frees every piece and leaves the counts at zero; trims come in the
      order they were drawn.  [malloc] is the class [Malloc] with [MallocOk]: memory
      of its own, aligned.
    - List sort: any list of entries, of any length, becomes a well-formed ring with
      the same entries, ordered, and stable.
    - Statistics: a bucket stands for a latency within 1/128, buckets are ordered and
      convert to their value and back, every reported percentile is that close to
      a latency of its rank, a group's report covers what all its threads
      measured, and arrays and counters keep their sizes and widths.
    - dbt2's client, for every interleaving: no thread uses memory it does not own,
      the queue is first in first out, the counters are exact, every terminal gets
      the results of its own requests in turn, and without new requests the
      threads come to rest with every request answered.  A structure sent in one
      piece is received whole.
    - dbt2's driver: inputs are valid whatever is drawn, one terminal is started and joined for
      every warehouse and district, the terminals run without undefined behaviour in any
      interleaving, their counters are exact and their log is in order.
    - sysbench: merged timers summarise the events of all threads; a percentile is
      the first bucket, from 1 on, that reaches the rank.
    - Defects: uninitialised constants of [NURand], the overrun of [iname] for a
      fifteenth line, the overflow in the checkpoint, the customer data that a
      payment never writes, the order that order-status looks up by name, the
      read past the last word by [axmap_isset], [axmap_set_nr] across words,
      pruning a history that is a list, pieces freed while their write is in flight
      or while they are on the trim list, latency classes and minima that a reset of the
      statistics leaves, the mean of a unified report, hashes that are
      stored without being completed, failed intervals that later ones hide, patterns
      that do not divide the interval, the pattern 0, the compression level, the
      counters indexed by dbt2's integrity request, the result of a send in pieces, dbt2's
      remote warehouses, its array of threads with a spread and its altered mode.

    ** Not modelled

    Output and progress messages; connecting and preparing statements; the
    interleaving of threads inside a transaction (each connection's transaction
    is isolated by the server; the counters of driver.c are shared without a
    lock and modelled for one thread at a time).  Of fio, the engines and the code
    around them, options, servers and clients and the formatted files and reports
    are system calls, networking and text; the other offset generators are not the
    default ones.  Of dbt2, the options and the seeding of the
    driver, the data generator and the statements of the database back ends are left out, of sysbench the tests, which are the load itself, the options
    and the database drivers; the shell scripts are not C.  In fio's
    history the tree node and the list entry of a piece, which share memory, are
    separate; the writes of a theorem complete in turn, and support for trims is
    compiled in.  In dbt2's client and driver a
    critical section is one step, since its variables are only used under its
    mutex, and the draws of a terminal for a transaction are one step. *)
From Stdlib Require Import ZArith Lia Ascii String.
From stdpp Require Import base gmap list strings sorting numbers.

#[global] Open Scope Z_scope.

(** ** Outcomes of a C computation

    A C function either completes with a value or leaves through an exit of a
    type [F] chosen per component: [fault] for the support code, the goto
    labels for the transactions.  The state is kept on every path. *)

Inductive ub : Type :=
| DivByZero        (* division or remainder by zero *)
| SignedOverflow   (* a signed result outside its type *)
| OutOfBounds      (* an access outside the array *)
| UninitRead       (* an indeterminate object is read *)
| BadConversion    (* a value that the result type cannot hold *)
| BadArgument      (* a library function called with an argument of another type *)
| BadPointer.      (* a null pointer or one to freed memory is dereferenced *)

Inductive fault : Type :=
| Abort
| ExitCode (code : Z)
| Undefined (u : ub)
| OutOfFuel.

Inductive outcome (F A : Type) : Type :=
| Done (a : A)
| Leave (f : F).
Arguments Done {F A} _.
Arguments Leave {F A} _.

#[export] Instance ub_eq_dec : EqDecision ub.
Proof. solve_decision. Defined.
#[export] Instance fault_eq_dec : EqDecision fault.
Proof. solve_decision. Defined.
#[export] Instance outcome_eq_dec {F A} `{EqDecision F, EqDecision A} :
  EqDecision (outcome F A).
Proof. solve_decision. Defined.

(** The computations: state passing with early exits. *)
Definition prog (F S A : Type) : Type := S → outcome F A * S.

#[export] Instance prog_ret {F S} : MRet (prog F S) := λ A a s, (Done a, s).
#[export] Instance prog_bind {F S} : MBind (prog F S) := λ A B k m s,
  match m s with
  | (Done a, s') => k a s'
  | (Leave f, s') => (Leave f, s')
  end.

Definition leave {F S A} (f : F) : prog F S A := λ s, (Leave f, s).
Definition getS {F S} : prog F S S := λ s, (Done s, s).
Definition putS {F S} (s : S) : prog F S unit := λ _, (Done tt, s).
Definition modS {F S} (f : S → S) : prog F S unit := λ s, (Done tt, f s).
Definition readS {F S A} (f : S → A) : prog F S A := λ s, (Done (f s), s).

(** The labels at the end of a C function: run [m], and on an exit the code
    at the label. *)
Definition at_label {F G S A} (m : prog F S A) (h : F → prog G S A) : prog G S A :=
  λ s, match m s with
       | (Done a, s') => (Done a, s')
       | (Leave f, s') => h f s'
       end.

(** [for (i = lo; i < lo + n; i++) acc = body(i, acc)]. *)
Fixpoint for_n {F S A} (n : nat) (lo : Z) (body : Z → A → prog F S A) (acc : A)
  : prog F S A :=
  match n with
  | O => mret acc
  | Datatypes.S k => acc' ← body lo acc; for_n k (lo + 1) body acc'
  end.

(** [for (i = lo; i < hi; i++)]. *)
Definition for_lt {F S A} (lo hi : Z) (body : Z → A → prog F S A) (acc : A)
  : prog F S A :=
  for_n (Z.to_nat (hi - lo)) lo body acc.

(** ** Machine integers *)

Definition INT_MIN : Z := -2147483648.
Definition INT_MAX : Z := 2147483647.
Definition is_int (z : Z) : bool := (INT_MIN <=? z) && (z <=? INT_MAX).

(** Unsigned arithmetic wraps; a conversion of an out of range value to [int]
    keeps the low 32 bits. *)
Definition u32 (z : Z) : Z := z mod 2 ^ 32.
Definition u64 (z : Z) : Z := z mod 2 ^ 64.
Definition s32 (z : Z) : Z := (z + 2 ^ 31) mod 2 ^ 32 - 2 ^ 31.

(** The exit types in which undefined behaviour has a place. *)
Class HasUB (F : Type) := undefined : ub → F.
#[export] Instance fault_has_ub : HasUB fault := Undefined.

Definition int_of {F S} `{HasUB F} (z : Z) : prog F S Z :=
  if is_int z then mret z else leave (undefined SignedOverflow).
Definition int_add {F S} `{HasUB F} (a b : Z) : prog F S Z := int_of (a + b).
Definition int_sub {F S} `{HasUB F} (a b : Z) : prog F S Z := int_of (a - b).
Definition int_mul {F S} `{HasUB F} (a b : Z) : prog F S Z := int_of (a * b).

(** C's [/] and [%] truncate towards zero. *)
Definition int_div {F S} `{HasUB F} (a b : Z) : prog F S Z :=
  if b =? 0 then leave (undefined DivByZero) else int_of (Z.quot a b).
Definition int_rem {F S} `{HasUB F} (a b : Z) : prog F S Z :=
  if b =? 0 then leave (undefined DivByZero)
  else if is_int (Z.quot a b) then int_of (Z.rem a b)
  else leave (undefined SignedOverflow).

(** ** Arrays: a list read and written at a C index *)

Definition arr_get {F S A} `{HasUB F} (l : list A) (i : Z) : prog F S A :=
  if i <? 0 then leave (undefined OutOfBounds)
  else match l !! Z.to_nat i with
       | Some x => mret x
       | None => leave (undefined OutOfBounds)
       end.

Definition arr_set {F S A} `{HasUB F} (l : list A) (i : Z) (x : A)
  : prog F S (list A) :=
  if (0 <=? i) && (i <? Z.of_nat (length l))
  then mret (<[Z.to_nat i := x]> l)
  else leave (undefined OutOfBounds).

(** An array of automatic storage: a cell holds no value until it is written. *)
Definition slot_get {F S A} `{HasUB F} (l : list (option A)) (i : Z) : prog F S A :=
  x ← arr_get l i;
  match x with Some x => mret x | None => leave (undefined UninitRead) end.

(** Consecutive bytes written into a buffer. *)
Fixpoint write_bytes {F S A} `{HasUB F} (buf : list (option A)) (at_ : Z) (l : list A)
  : prog F S (list (option A)) :=
  match l with
  | [] => mret buf
  | x :: l => buf ← arr_set buf at_ (Some x); write_bytes buf (at_ + 1) l
  end.

(** C strings as the characters before the terminator. *)
Abbreviation cstr := (list ascii).
Definition lit (s : string) : cstr := list_ascii_of_string s.

(** ** A Hoare logic for [prog]

    [triple P m Q E]: from a state in [P], [m] ends in [Q] with its value or
    leaves in [E]. *)

Definition triple {F S A} (P : S → Prop) (m : prog F S A)
  (Q : A → S → Prop) (E : F → S → Prop) : Prop :=
  ∀ s, P s → match m s with
             | (Done a, s') => Q a s'
             | (Leave f, s') => E f s'
             end.

Section triple_rules.
Context {F S : Type}.

Lemma triple_ret {A} (a : A) (Q : A → S → Prop) (E : F → S → Prop) :
  triple (Q a) (mret a) Q E.
Proof. intros s HP. exact HP. Qed.

Lemma triple_bind {A B} (P : S → Prop) (m : prog F S A) (R : A → S → Prop)
    (k : A → prog F S B) (Q : B → S → Prop) (E : F → S → Prop) :
  triple P m R E → (∀ a, triple (R a) (k a) Q E) → triple P (m ≫= k) Q E.
Proof.
  intros Hm Hk s HP. specialize (Hm s HP). unfold mbind, prog_bind.
  destruct (m s) as [[a|f] s']; [exact (Hk a s' Hm) | exact Hm].
Qed.

Lemma triple_conseq {A} (P P' : S → Prop) (m : prog F S A)
    (Q Q' : A → S → Prop) (E E' : F → S → Prop) :
  (∀ s, P s → P' s) → triple P' m Q' E' →
  (∀ a s, Q' a s → Q a s) → (∀ f s, E' f s → E f s) → triple P m Q E.
Proof.
  intros HP Hm HQ HE s Hs. specialize (Hm s (HP s Hs)).
  destruct (m s) as [[a|f] s']; auto.
Qed.

Lemma triple_weaken {A} (P P' : S → Prop) (m : prog F S A)
    (Q : A → S → Prop) (E : F → S → Prop) :
  triple P' m Q E → (∀ s, P s → P' s) → triple P m Q E.
Proof. intros Hm HP s Hs. exact (Hm s (HP s Hs)). Qed.

Lemma triple_post {A} (P : S → Prop) (m : prog F S A)
    (Q Q' : A → S → Prop) (E : F → S → Prop) :
  triple P m Q' E → (∀ a s, Q' a s → Q a s) → triple P m Q E.
Proof. intros Hm HQ. eapply triple_conseq; eauto. Qed.

Lemma triple_ends {A} (P : S → Prop) (m : prog F S A)
    (Q Q' : A → S → Prop) (E E' : F → S → Prop) :
  triple P m Q' E' → (∀ a s, Q' a s → Q a s) → (∀ f s, E' f s → E f s) →
  triple P m Q E.
Proof. intros Hm HQ HE. eapply triple_conseq; eauto. Qed.

Lemma triple_leave {A} (P : S → Prop) (f : F) (Q : A → S → Prop) (E : F → S → Prop) :
  (∀ s, P s → E f s) → triple P (leave f) Q E.
Proof. intros H s Hs. exact (H s Hs). Qed.

Lemma triple_pure {A} (φ : Prop) (P : S → Prop) (m : prog F S A)
    (Q : A → S → Prop) (E : F → S → Prop) :
  (φ → triple P m Q E) → triple (λ s, φ ∧ P s) m Q E.
Proof. intros H s [Hφ HP]. exact (H Hφ s HP). Qed.

Lemma triple_exists {A B} (P : B → S → Prop) (m : prog F S A)
    (Q : A → S → Prop) (E : F → S → Prop) :
  (∀ b, triple (P b) m Q E) → triple (λ s, ∃ b, P b s) m Q E.
Proof. intros H s [b HP]. exact (H b s HP). Qed.

(** Steps that do not touch the state. *)
Lemma triple_bind_ret {A B} (a : A) (k : A → prog F S B) (P : S → Prop)
    (Q : B → S → Prop) (E : F → S → Prop) :
  triple P (k a) Q E → triple P (mret a ≫= k) Q E.
Proof. intros H. exact H. Qed.

Lemma triple_step {A B} (m : prog F S A) (a : A) (k : A → prog F S B) (P : S → Prop)
    (Q : B → S → Prop) (E : F → S → Prop) :
  (∀ s, m s = (Done a, s)) → triple P (k a) Q E → triple P (m ≫= k) Q E.
Proof.
  intros Hm Hk s HP. unfold mbind, prog_bind. rewrite Hm. exact (Hk s HP).
Qed.

Lemma triple_step_ex {A B} (m : prog F S A) (k : A → prog F S B) (P : S → Prop)
    (Q : B → S → Prop) (E : F → S → Prop) :
  (∀ s, P s → ∃ a, m s = (Done a, s) ∧ triple P (k a) Q E) → triple P (m ≫= k) Q E.
Proof.
  intros H s HP. destruct (H s HP) as (a & Hm & Hk). unfold mbind, prog_bind.
  rewrite Hm. exact (Hk s HP).
Qed.

Lemma triple_assoc {A B C} (m : prog F S A) (f : A → prog F S B) (g : B → prog F S C)
    (P : S → Prop) (Q : C → S → Prop) (E : F → S → Prop) :
  triple P (m ≫= λ x, f x ≫= g) Q E → triple P ((m ≫= f) ≫= g) Q E.
Proof.
  intros H s HP. specialize (H s HP). unfold mbind, prog_bind in *.
  by destruct (m s) as [[a|e] s'].
Qed.

(** A counted loop keeps an invariant indexed by the loop variable. *)
Lemma triple_for_n {A} (I : Z → A → S → Prop) (E : F → S → Prop)
    (body : Z → A → prog F S A) (n : nat) (lo : Z) (acc : A) :
  (∀ i a, lo ≤ i < lo + Z.of_nat n → triple (I i a) (body i a) (I (i + 1)) E) →
  triple (I lo acc) (for_n n lo body acc) (I (lo + Z.of_nat n)) E.
Proof.
  revert lo acc; induction n as [|n IH]; intros lo acc Hbody; simpl.
  - rewrite Z.add_0_r. apply (triple_ret acc (I lo)).
  - eapply triple_bind; [apply Hbody; lia|]. intros a.
    replace (lo + Z.of_nat (Datatypes.S n)) with (lo + 1 + Z.of_nat n) by lia.
    apply IH. intros i a' Hi. apply Hbody. lia.
Qed.

Lemma triple_for_lt {A} (I : Z → A → S → Prop) (E : F → S → Prop)
    (body : Z → A → prog F S A) (lo hi : Z) (acc : A) :
  lo ≤ hi →
  (∀ i a, lo ≤ i < hi → triple (I i a) (body i a) (I (i + 1)) E) →
  triple (I lo acc) (for_lt lo hi body acc) (I hi) E.
Proof.
  intros Hle Hbody. unfold for_lt.
  assert (lo + Z.of_nat (Z.to_nat (hi - lo)) = hi) as Heq by lia.
  rewrite <- Heq at 2.
  apply triple_for_n. intros i a Hi. apply Hbody. lia.
Qed.
End triple_rules.

(** *** Preserved predicates

    [m] keeps [P] on every path. *)
Definition keeps {F S A} (P : S → Prop) (m : prog F S A) : Prop :=
  triple P m (λ _, P) (λ _, P).

Section keeps.
Context {F S : Type} (P : S → Prop).

Lemma keeps_ret {A} (a : A) : keeps (F:=F) P (mret a).
Proof. by intros s H. Qed.
Lemma keeps_leave {A} (e : F) : keeps P (leave (A:=A) e).
Proof. by intros s H. Qed.
Lemma keeps_bind {A B} (m : prog F S A) (k : A → prog F S B) :
  keeps P m → (∀ a, keeps P (k a)) → keeps P (m ≫= k).
Proof. intros Hm Hk. eapply triple_bind; [exact Hm|exact Hk]. Qed.
Lemma keeps_for {A} (lo hi : Z) (body : Z → A → prog F S A) (a : A) :
  (∀ i a, keeps P (body i a)) → keeps P (for_lt lo hi body a).
Proof.
  intros Hb. unfold for_lt. generalize (Z.to_nat (hi - lo)). intros n. revert lo a.
  induction n as [|n IH]; intros lo a; [apply keeps_ret|]. simpl.
  apply keeps_bind; [apply Hb|]. intros a'. apply IH.
Qed.
Lemma keeps_label {G A} (m : prog F S A) (h : F → prog G S A) :
  keeps P m → (∀ e, keeps P (h e)) → keeps P (at_label m h).
Proof.
  intros Hm Hh s Hs. unfold at_label. specialize (Hm s Hs).
  destruct (m s) as [[a|e] s']; [done|]. by apply Hh.
Qed.

Section ub.
Context `{HasUB F}.
Lemma keeps_int_of (z : Z) : keeps P (int_of z).
Proof. unfold int_of. case_match; [apply keeps_ret|apply keeps_leave]. Qed.
Lemma keeps_int_add (a b : Z) : keeps P (int_add a b).
Proof. apply keeps_int_of. Qed.
Lemma keeps_int_sub (a b : Z) : keeps P (int_sub a b).
Proof. apply keeps_int_of. Qed.
Lemma keeps_int_mul (a b : Z) : keeps P (int_mul a b).
Proof. apply keeps_int_of. Qed.
Lemma keeps_int_div (a b : Z) : keeps P (int_div a b).
Proof. unfold int_div. case_match; [apply keeps_leave|apply keeps_int_of]. Qed.
Lemma keeps_int_rem (a b : Z) : keeps P (int_rem a b).
Proof.
  unfold int_rem. case_match; [apply keeps_leave|].
  case_match; [apply keeps_int_of|apply keeps_leave].
Qed.
Lemma keeps_arr_get {A} (l : list A) (i : Z) : keeps P (arr_get l i).
Proof.
  unfold arr_get. case_match; [apply keeps_leave|].
  case_match; [apply keeps_ret|apply keeps_leave].
Qed.
Lemma keeps_arr_set {A} (l : list A) (i : Z) (x : A) : keeps P (arr_set l i x).
Proof. unfold arr_set. case_match; [apply keeps_ret|apply keeps_leave]. Qed.
Lemma keeps_slot_get {A} (l : list (option A)) (i : Z) : keeps P (slot_get l i).
Proof.
  apply keeps_bind; [apply keeps_arr_get|]. intros [x|]; [apply keeps_ret|apply keeps_leave].
Qed.
Lemma keeps_write_bytes {A} (l : list A) (buf : list (option A)) (i : Z) :
  keeps P (write_bytes buf i l).
Proof.
  revert buf i; induction l as [|x l IH]; intros buf i; [apply keeps_ret|].
  simpl. apply keeps_bind; [apply keeps_arr_set|]. intros buf'. apply IH.
Qed.
End ub.
End keeps.

(** *** Steps that only yield a value

    [m] leaves the state alone, and its value, if it has one, satisfies [φ]. *)
Definition yields {F S A} (φ : A → Prop) (m : prog F S A) : Prop :=
  ∀ s, (m s).2 = s ∧ ∀ a, (m s).1 = Done a → φ a.

Section yields.
Context {F S : Type}.

Lemma triple_yields {A B} (φ : A → Prop) (m : prog F S A) (k : A → prog F S B)
    (P : S → Prop) Q E :
  yields φ m → (∀ e s, P s → E e s) → (∀ a, φ a → triple P (k a) Q E) → triple P (m ≫= k) Q E.
Proof.
  intros Hm HE Hk s HP. destruct (Hm s) as [Hs Ha]. unfold mbind, prog_bind.
  destruct (m s) as [[a|e] s']; simpl in *; subst s'; [|by apply HE]. by apply Hk; [apply Ha|].
Qed.

(** Reading the state. *)
Lemma triple_get {A} (k : S → prog F S A) (P : S → Prop) Q E :
  (∀ s, P s → triple (λ s', s' = s) (k s) Q E) → triple P (getS ≫= k) Q E.
Proof. intros Hk s HP. by apply (Hk s HP s). Qed.

Lemma triple_put (s : S) (P : S → Prop) (Q : unit → S → Prop) (E : F → S → Prop) :
  Q tt s → triple P (putS s) Q E.
Proof. by intros HQ s' _. Qed.

Lemma yields_ret {A} (a : A) : yields (F:=F) (S:=S) (λ x, x = a) (mret a).
Proof. intros s. split; [done|]. by intros x [= ->]. Qed.
Lemma yields_bind {A B} (φ : A → Prop) (ψ : B → Prop) (m : prog F S A) (k : A → prog F S B) :
  yields φ m → (∀ a, φ a → yields ψ (k a)) → yields ψ (m ≫= k).
Proof.
  intros Hm Hk s. destruct (Hm s) as [Hs Ha]. unfold mbind, prog_bind.
  destruct (m s) as [[a|e] s']; simpl in *; subst s'; [|done]. by apply Hk, Ha.
Qed.

Context `{HasUB F}.
Lemma yields_int_of (z : Z) : yields (F:=F) (S:=S) (λ x, x = z) (int_of z).
Proof. intros s. unfold int_of. case_match; [|done]. split; [done|]. by intros x [= ->]. Qed.
Lemma yields_int_range (z : Z) :
  yields (F:=F) (S:=S) (λ x, x = z ∧ INT_MIN ≤ z ≤ INT_MAX) (int_of z).
Proof.
  intros s. unfold int_of. destruct (is_int z) eqn:E; [|done]. split; [done|]. intros x [= ->].
  split; [done|]. unfold is_int in E. by apply andb_true_iff in E as [?%Z.leb_le ?%Z.leb_le].
Qed.
Lemma yields_int_add (a b : Z) : yields (F:=F) (S:=S) (λ x, x = a + b) (int_add a b).
Proof. apply yields_int_of. Qed.
Lemma yields_int_sub (a b : Z) : yields (F:=F) (S:=S) (λ x, x = a - b) (int_sub a b).
Proof. apply yields_int_of. Qed.
Lemma yields_int_mul (a b : Z) : yields (F:=F) (S:=S) (λ x, x = a * b) (int_mul a b).
Proof. apply yields_int_of. Qed.
Lemma yields_arr_get {A} (l : list A) (i : Z) :
  yields (F:=F) (S:=S) (λ x, 0 ≤ i ∧ l !! Z.to_nat i = Some x) (arr_get l i).
Proof.
  intros s. unfold arr_get. destruct (Z.ltb_spec i 0); [done|].
  destruct (l !! Z.to_nat i) eqn:E; [|done]. split; [done|]. by intros x [= ->].
Qed.
Lemma yields_arr_set {A} (l : list A) (i : Z) (v : A) :
  yields (F:=F) (S:=S)
    (λ l', (0 ≤ i < Z.of_nat (length l)) ∧ l' = <[Z.to_nat i := v]> l) (arr_set l i v).
Proof.
  intros s. unfold arr_set. destruct (_ && _) eqn:E; [|done]. split; [done|].
  apply andb_true_iff in E as [?%Z.leb_le ?%Z.ltb_lt]. by intros x [= ->].
Qed.
End yields.

Create HintDb yielddb.
#[export] Hint Resolve yields_ret yields_int_of yields_int_add yields_int_sub yields_int_mul
  yields_arr_get yields_arr_set : yielddb.

(** Take the next step of a triple when it only yields a value. *)
Ltac yield_step H := eapply triple_yields; [eauto with yielddb|done|intros ? H; simpl in H].

(** ** Running a computation on a part of the state *)

Definition zoom {F S T A} (get : T → S) (set : S → T → T) (m : prog F S A)
  : prog F T A :=
  λ t, let '(r, s) := m (get t) in (r, set s t).

Lemma zoom_run {F S T A} (get : T → S) (set : S → T → T) (m : prog F S A) (t : T) r s :
  m (get t) = (r, s) → zoom get set m t = (r, set s t).
Proof. intros E. unfold zoom. by rewrite E. Qed.

(** ** The C library as an environment

    [rand()] draws the next value of an arbitrary sequence, reduced to the
    range [0, RAND_MAX] the C library promises (glibc: [RAND_MAX = 2^31-1]). *)

Definition RAND_MAX : Z := 2147483647.

Class RandSource := rand_at : Z → Z.

Definition rand_value `{RandSource} (n : Z) : Z := rand_at n mod (RAND_MAX + 1).

Lemma rand_value_range `{RandSource} (n : Z) : 0 ≤ rand_value n ≤ RAND_MAX.
Proof.
  unfold rand_value. pose proof (Z.mod_pos_bound (rand_at n) (RAND_MAX + 1)).
  unfold RAND_MAX in *. lia.
Qed.

(** ** Shared lemmas: integers and arrays *)

Lemma is_int_spec (z : Z) : is_int z = true ↔ INT_MIN ≤ z ≤ INT_MAX.
Proof. unfold is_int. rewrite andb_true_iff, !Z.leb_le. tauto. Qed.

Lemma int_of_ok {F S} `{HasUB F} (z : Z) :
  INT_MIN ≤ z ≤ INT_MAX → int_of (F:=F) (S:=S) z = mret z.
Proof. intros Hz%is_int_spec. unfold int_of. by rewrite Hz. Qed.

Lemma int_rem_pos {F S} `{HasUB F} (a b : Z) :
  0 ≤ a ≤ INT_MAX → 0 < b ≤ INT_MAX →
  int_rem (F:=F) (S:=S) a b = mret (a mod b).
Proof.
  intros Ha Hb. unfold int_rem. rewrite (proj2 (Z.eqb_neq b 0)) by lia.
  rewrite Z.quot_div_nonneg, Z.rem_mod_nonneg by lia.
  assert (0 ≤ a / b ≤ a) as Hq.
  { split; [apply Z.div_pos; lia|]. apply Z.div_le_upper_bound; nia. }
  rewrite (proj2 (is_int_spec (a / b))) by (unfold INT_MIN, INT_MAX in *; lia).
  apply int_of_ok. pose proof (Z.mod_pos_bound a b).
  unfold INT_MIN, INT_MAX in *. lia.
Qed.

Lemma int_div_pos {F S} `{HasUB F} (a b : Z) :
  0 ≤ a ≤ INT_MAX → 0 < b →
  int_div (F:=F) (S:=S) a b = mret (a / b).
Proof.
  intros Ha Hb. unfold int_div. rewrite (proj2 (Z.eqb_neq b 0)) by lia.
  rewrite Z.quot_div_nonneg by lia.
  assert (0 ≤ a / b ≤ a) as Hq.
  { split; [apply Z.div_pos; lia|]. apply Z.div_le_upper_bound; nia. }
  apply int_of_ok. unfold INT_MIN, INT_MAX in *. lia.
Qed.

Lemma s32_id (z : Z) : INT_MIN ≤ z ≤ INT_MAX → s32 z = z.
Proof.
  intros Hz. unfold s32, INT_MIN, INT_MAX in *. rewrite Z.mod_small; lia.
Qed.

Lemma u32_id (z : Z) : 0 ≤ z < 2 ^ 32 → u32 z = z.
Proof. intros Hz. unfold u32. by rewrite Z.mod_small. Qed.

Lemma arr_get_ok {F S A} `{HasUB F} (l : list A) (i : Z) (x : A) :
  0 ≤ i → l !! Z.to_nat i = Some x → arr_get (F:=F) (S:=S) l i = mret x.
Proof.
  intros Hi Hx. unfold arr_get. rewrite (proj2 (Z.ltb_ge i 0)) by lia. by rewrite Hx.
Qed.

Lemma arr_get_lookup {F S A} `{HasUB F} (l : list A) (i : Z) :
  0 ≤ i < Z.of_nat (length l) →
  ∃ x, l !! Z.to_nat i = Some x ∧ arr_get (F:=F) (S:=S) l i = mret x.
Proof.
  intros Hi. destruct (lookup_lt_is_Some_2 l (Z.to_nat i)) as [x Hx]; [lia|].
  exists x; split; [done|]. apply arr_get_ok; [lia|done].
Qed.

Lemma slot_get_ok {F S A} `{HasUB F} (l : list (option A)) (i : Z) (x : A) :
  0 ≤ i → l !! Z.to_nat i = Some (Some x) → slot_get (F:=F) (S:=S) l i = mret x.
Proof. intros Hi Hx. unfold slot_get. by rewrite (arr_get_ok l i _ Hi Hx). Qed.

Lemma arr_set_ok {F S A} `{HasUB F} (l : list A) (i : Z) (x : A) :
  0 ≤ i < Z.of_nat (length l) →
  arr_set (F:=F) (S:=S) l i x = mret (<[Z.to_nat i := x]> l).
Proof.
  intros Hi. unfold arr_set.
  rewrite (proj2 (Z.leb_le 0 i)), (proj2 (Z.ltb_lt i _)) by lia. done.
Qed.

Lemma write_bytes_ok {F S A} `{HasUB F} (l : list A) (buf : list (option A)) (i : Z) :
  0 ≤ i → i + Z.of_nat (length l) ≤ Z.of_nat (length buf) →
  ∃ buf', (∀ s : S, write_bytes (F:=F) buf i l s = (Done buf', s)) ∧ length buf' = length buf.
Proof.
  revert buf i; induction l as [|x l IH]; intros buf i Hi Hl; simpl in *; [eauto|].
  destruct (IH (<[Z.to_nat i := Some x]> buf) (i + 1)) as (buf' & Hbuf & Hlen);
    [lia|rewrite length_insert; lia|].
  exists buf'. split; [|by rewrite Hlen, length_insert].
  intros s. rewrite arr_set_ok by lia. apply Hbuf.
Qed.

(** Swapping two cells permutes a list. *)
Lemma list_swap_Permutation {A} (l : list A) (i j : nat) (x y : A) :
  l !! i = Some x → l !! j = Some y → <[j := x]> (<[i := y]> l) ≡ₚ l.
Proof.
  intros Hi Hj. destruct (decide (i = j)) as [->|Hij].
  { simplify_eq. rewrite list_insert_insert_eq, list_insert_id by done. done. }
  apply Permutation_inj. split; [by rewrite !length_insert|].
  exists (λ k, if decide (k = i) then j else if decide (k = j) then i else k).
  split.
  - intros a b. repeat case_decide; simplify_eq; try done; congruence.
  - intros k. pose proof (lookup_lt_Some _ _ _ Hi). pose proof (lookup_lt_Some _ _ _ Hj).
    repeat case_decide; subst.
    + rewrite list_lookup_insert_ne by done. rewrite list_lookup_insert_eq by done. done.
    + rewrite list_lookup_insert_eq by (rewrite length_insert; done). done.
    + rewrite !list_lookup_insert_ne by done. done.
Qed.

Lemma list_alter_as_insert {A} (f : A → A) (l : list A) (i : nat) (x : A) :
  l !! i = Some x → alter f i l = <[i := f x]> l.
Proof.
  intros Hx. apply list_eq. intros j. rewrite list_lookup_alter. case_decide as E; subst.
  - rewrite Hx, list_lookup_insert_eq; [done|]. by eapply lookup_lt_Some.
  - by rewrite list_lookup_insert_ne.
Qed.

(** Sums. *)
Definition zsum (l : list Z) : Z := foldr Z.add 0 l.

Lemma zsum_app (l k : list Z) : zsum (l ++ k) = zsum l + zsum k.
Proof. unfold zsum. induction l as [|x l IH]; simpl; lia. Qed.

Lemma zsum_take_S (l : list Z) (i : nat) (x : Z) :
  l !! i = Some x → zsum (take (S i) l) = zsum (take i l) + x.
Proof. intros Hx. rewrite (take_S_r _ _ x Hx), zsum_app. unfold zsum. simpl. lia. Qed.

Lemma zsum_nonneg (l : list Z) : Forall (λ x, 0 ≤ x) l → 0 ≤ zsum l.
Proof. unfold zsum. induction 1; simpl; lia. Qed.

Lemma zsum_take_le (l : list Z) (i j : nat) :
  Forall (λ x, 0 ≤ x) l → (i ≤ j)%nat → zsum (take i l) ≤ zsum (take j l).
Proof.
  intros Hl Hij. replace j with (i + (j - i))%nat by lia.
  rewrite <- take_take_drop, zsum_app.
  assert (0 ≤ zsum (take (j - i) (drop i l))); [|lia].
  by apply zsum_nonneg, Forall_take, Forall_drop.
Qed.

Lemma zsum_insert (l : list Z) (i : nat) (v w : Z) :
  l !! i = Some v → zsum (<[i := w]> l) = zsum l - v + w.
Proof.
  intros Hv. rewrite <- (take_drop_middle l i v Hv) at 2.
  rewrite insert_take_drop by (by eapply lookup_lt_Some).
  rewrite !zsum_app. unfold zsum. simpl. lia.
Qed.

Lemma zsum_bound (l : list Z) (i : nat) (v : Z) :
  Forall (λ x, 0 ≤ x) l → l !! i = Some v → v ≤ zsum l.
Proof.
  intros Hl Hv. rewrite <- (take_drop_middle l i v Hv), zsum_app.
  pose proof (zsum_nonneg _ (Forall_take _ i _ Hl)).
  pose proof (zsum_nonneg _ (Forall_drop _ (S i) _ Hl)). unfold zsum in *. simpl. lia.
Qed.

Lemma zsum_replicate_0 (n : nat) : zsum (replicate n 0) = 0.
Proof. unfold zsum. induction n; simpl; lia. Qed.

(** Sortedness, by positions. *)
Lemma StronglySorted_by_lookup {A} (R : relation A) (l : list A) :
  (∀ i j x y, l !! i = Some x → l !! j = Some y → (i < j)%nat → R x y) → StronglySorted R l.
Proof.
  induction l as [|x l IH]; intros H; constructor.
  - apply IH. intros i j a b Ha Hb Hij. apply (H (S i) (S j)); [done|done|lia].
  - apply Forall_lookup_2. intros j y Hy. apply (H 0%nat (S j)); [done|done|lia].
Qed.

(** ** Stepping through computations *)

Lemma bind_done {F S A B} (m : prog F S A) (k : A → prog F S B) (s s' : S) (a : A) :
  m s = (Done a, s') → (m ≫= k) s = k a s'.
Proof. intros E. unfold mbind, prog_bind. by rewrite E. Qed.

Lemma bind_leave {F S A B} (m : prog F S A) (k : A → prog F S B) (s s' : S) (f : F) :
  m s = (Leave f, s') → (m ≫= k) s = (Leave f, s').
Proof. intros E. unfold mbind, prog_bind. by rewrite E. Qed.

Lemma bind_ret {F S A B} (a : A) (k : A → prog F S B) (s : S) :
  (mret a ≫= k) s = k a s.
Proof. done. Qed.

Lemma bind_inv {F S A B} (m : prog F S A) (k : A → prog F S B) (s s'' : S) (b : B) :
  (m ≫= k) s = (Done b, s'') → ∃ a s', m s = (Done a, s') ∧ k a s' = (Done b, s'').
Proof. unfold mbind, prog_bind. destruct (m s) as [[a|f] s']; naive_solver. Qed.

Lemma write_bytes_app {F S A} `{HasUB F} (new : list A) (pre old post : list (option A))
    (s : S) :
  length old = length new →
  write_bytes (F:=F) (pre ++ old ++ post) (Z.of_nat (length pre)) new s =
  (Done (pre ++ (Some <$> new) ++ post), s).
Proof.
  revert pre old; induction new as [|x new IH]; intros pre [|y old] Hl; simplify_eq/=;
    [done|].
  rewrite arr_set_ok by (rewrite length_app; simpl; lia). rewrite bind_ret, Nat2Z.id.
  rewrite insert_app_r_alt, Nat.sub_diag by lia. simpl.
  replace (Z.of_nat (length pre) + 1) with (Z.of_nat (length (pre ++ [Some x])))
    by (rewrite length_app; simpl; lia).
  rewrite (cons_middle (Some x) pre (old ++ post)), (app_assoc pre).
  rewrite IH by done. by rewrite <- app_assoc.
Qed.

Lemma write_bytes_overrun {F S A} `{HasUB F} (l : list A) (buf : list (option A)) (i : Z)
    (s : S) :
  0 ≤ i → Z.of_nat (length buf) < i + Z.of_nat (length l) → l ≠ [] →
  write_bytes (F:=F) buf i l s = (Leave (undefined OutOfBounds), s).
Proof.
  revert buf i; induction l as [|x l IH]; intros buf i Hi Hl Hne; simpl in *; [done|].
  destruct (decide (i < Z.of_nat (length buf))) as [Hin|Hout].
  - rewrite arr_set_ok by lia. rewrite bind_ret. apply IH; rewrite ?length_insert; [lia|lia|].
    intros ->. simpl in Hl. lia.
  - apply bind_leave. unfold arr_set.
    rewrite (proj2 (Z.ltb_ge i _)) by lia. by rewrite andb_false_r.
Qed.

(** A counted loop whose body always completes completes. *)
Lemma for_n_run {F S A} (I : Z → A → S → Prop) (body : Z → A → prog F S A)
    (n : nat) (lo : Z) (acc : A) (s : S) :
  I lo acc s →
  (∀ i a s, lo ≤ i < lo + Z.of_nat n → I i a s →
     ∃ a' s', body i a s = (Done a', s') ∧ I (i + 1) a' s') →
  ∃ a' s', for_n n lo body acc s = (Done a', s') ∧ I (lo + Z.of_nat n) a' s'.
Proof.
  revert lo acc s; induction n as [|n IH]; intros lo acc s HI Hbody.
  - exists acc, s. rewrite Z.add_0_r. done.
  - destruct (Hbody lo acc s) as (a1 & s1 & E1 & HI1); [lia|done|].
    destruct (IH (lo + 1) a1 s1 HI1) as (a2 & s2 & E2 & HI2).
    { intros i a s' Hi. apply Hbody. lia. }
    exists a2, s2. cbn [for_n]. rewrite (bind_done _ _ _ _ _ E1), E2.
    split; [done|]. by replace (lo + Z.of_nat (Datatypes.S n)) with (lo + 1 + Z.of_nat n) by lia.
Qed.

Lemma for_lt_run {F S A} (I : Z → A → S → Prop) (body : Z → A → prog F S A)
    (lo hi : Z) (acc : A) (s : S) :
  lo ≤ hi → I lo acc s →
  (∀ i a s, lo ≤ i < hi → I i a s →
     ∃ a' s', body i a s = (Done a', s') ∧ I (i + 1) a' s') →
  ∃ a' s', for_lt lo hi body acc s = (Done a', s') ∧ I hi a' s'.
Proof.
  intros Hle HI Hbody. unfold for_lt.
  assert (lo + Z.of_nat (Z.to_nat (hi - lo)) = hi) as Heq by lia.
  pose proof (for_n_run I body (Z.to_nat (hi - lo)) lo acc s HI) as Hrun.
  rewrite Heq in Hrun. by apply Hrun.
Qed.

Lemma for_n_S {F S A} (n : nat) (lo : Z) (body : Z → A → prog F S A) (acc : A) :
  for_n (Datatypes.S n) lo body acc = (acc' ← body lo acc; for_n n (lo + 1) body acc').
Proof. done. Qed.

Create HintDb cdb.
Create Rewrite HintDb cprog.
#[export] Hint Rewrite @bind_ret @int_of_ok @arr_set_ok @int_rem_pos @int_div_pos
  using lia : cprog.

(** The computations that keep a predicate, and the tactic that walks through a
    function with them. *)
Create HintDb keepdb.
#[export] Hint Resolve keeps_ret keeps_leave keeps_int_of keeps_int_add keeps_int_sub
  keeps_int_mul keeps_int_div keeps_int_rem keeps_arr_get keeps_arr_set keeps_slot_get
  keeps_write_bytes : keepdb.

Ltac solve_keeps :=
  cbv beta zeta;
  lazymatch goal with
  | |- keeps _ (_ ≫= _) => apply keeps_bind; [solve_keeps|intros ?; solve_keeps]
  | |- keeps _ (for_lt _ _ _ _) => apply keeps_for; intros ? ?; solve_keeps
  | |- keeps _ (at_label _ _) => apply keeps_label; [solve_keeps|intros ?; solve_keeps]
  | |- keeps _ (if ?b then _ else _) => destruct b; solve_keeps
  | |- keeps _ (match ?x with _ => _ end) => destruct x; solve_keeps
  | |- keeps _ _ => eauto with keepdb
  | |- _ => idtac
  end.

(** Leaving out what the rest of a function does not depend on. *)
Lemma triple_keep {F S A B} (P : S → Prop) (m : prog F S A) (k : A → prog F S B) Q E :
  keeps P m → (∀ e s, P s → E e s) → (∀ a, triple P (k a) Q E) → triple P (m ≫= k) Q E.
Proof.
  intros Hm HE Hk. eapply triple_bind; [|exact Hk]. by eapply triple_ends.
Qed.

Lemma triple_conj {F S A} (P P' : S → Prop) (m : prog F S A) Q Q' E E' :
  triple P m Q E → triple P' m Q' E' →
  triple (λ s, P s ∧ P' s) m (λ a s, Q a s ∧ Q' a s) (λ e s, E e s ∧ E' e s).
Proof.
  intros H H' s [HP HP']. specialize (H s HP). specialize (H' s HP').
  destruct (m s) as [[a|e] s']; by split.
Qed.

Lemma write_bytes_done {F S A} `{HasUB F} (l : list A) (buf buf' : list (option A)) (i : Z)
    (s s' : S) :
  write_bytes (F:=F) buf i l s = (Done buf', s') →
  length buf' = length buf ∧ (l ≠ [] → 0 ≤ i ∧ i + Z.of_nat (length l) ≤ Z.of_nat (length buf)).
Proof.
  revert buf i s; induction l as [|x l IH]; intros buf i s; simpl.
  { intros [= -> _]. done. }
  unfold arr_set. destruct ((0 <=? i) && (i <? Z.of_nat (length buf))) eqn:Eb; [|done].
  apply andb_true_iff in Eb as [H1%Z.leb_le H2%Z.ltb_lt]. rewrite bind_ret. intros E.
  apply IH in E as [Hl Hb]. rewrite length_insert in Hl, Hb. split; [done|]. intros _.
  destruct l as [|y l]; simpl in *; [lia|]. specialize (Hb ltac:(done)). lia.
Qed.
