(* ===== verification/CFloat.v ===== *)
(** * IEEE 754 arithmetic of the C code and printf conversions

    [float] and [double] are the binary32 and binary64 formats of the Standard
    Library's executable specification [SpecFloat]; every operation rounds to
    nearest, ties to even. *)

From Stdlib Require Import ZArith Lia SpecFloat String Ascii.
From stdpp Require Import base list strings numbers pretty.
From S2P Require Import Prelude.

Abbreviation float32 := spec_float.
Abbreviation float64 := spec_float.

#[export] Instance spec_float_eq_dec : EqDecision spec_float.
Proof. solve_decision. Defined.

Definition f32_of_Z (z : Z) : float32 := binary_normalize 24 128 z 0 false.
Definition f32_add (a b : float32) : float32 := SFadd 24 128 a b.
Definition f32_sub (a b : float32) : float32 := SFsub 24 128 a b.
Definition f32_mul (a b : float32) : float32 := SFmul 24 128 a b.
Definition f32_div (a b : float32) : float32 := SFdiv 24 128 a b.

Definition f64_of_Z (z : Z) : float64 := binary_normalize 53 1024 z 0 false.
Definition f64_add (a b : float64) : float64 := SFadd 53 1024 a b.
Definition f64_sub (a b : float64) : float64 := SFsub 53 1024 a b.
Definition f64_mul (a b : float64) : float64 := SFmul 53 1024 a b.
Definition f64_div (a b : float64) : float64 := SFdiv 53 1024 a b.

(** Conversions between the formats. *)
Definition renormalize (prec emax : Z) (x : spec_float) : spec_float :=
  match x with
  | S754_finite s m e => binary_normalize prec emax (cond_Zopp s (Zpos m)) e s
  | _ => x
  end.
Definition f64_of_f32 (x : float32) : float64 := renormalize 53 1024 x.
Definition f32_of_f64 (x : float64) : float32 := renormalize 24 128 x.

(** [x < y], [x >= y]; false when an operand is a NaN. *)
Definition f_lt (x y : spec_float) : bool := SFltb x y.
Definition f_ge (x y : spec_float) : bool := SFleb y x.

(** The integral part, truncated towards zero. *)
Definition f_trunc (x : spec_float) : option Z :=
  match x with
  | S754_zero _ => Some 0
  | S754_finite s m e =>
      Some (cond_Zopp s (if 0 <=? e then Zpos m * 2 ^ e else Zpos m / 2 ^ (- e)))
  | _ => None
  end.

(** Conversion to [int]: undefined when the integral part does not fit. *)
Definition f_to_int {F S} `{HasUB F} (x : spec_float) : prog F S Z :=
  match f_trunc x with
  | Some z => if is_int z then mret z else leave (undefined BadConversion)
  | None => leave (undefined BadConversion)
  end.

(** The sign bit is clear and the value is not a NaN. *)
Definition f_nonneg (x : spec_float) : bool :=
  match x with
  | S754_zero s => negb s
  | S754_infinity s => negb s
  | S754_nan => false
  | S754_finite s _ _ => negb s
  end.

(** ** printf conversions *)

Definition pad_left (w : nat) (s : cstr) : cstr :=
  (replicate (w - length s) " "%char ++ s)%list.

(** [%wd] *)
Definition fmt_d (w : nat) (z : Z) : cstr := pad_left w (lit (pretty z)).

(** Hundredths of the absolute value, rounded half to even. *)
Definition hundredths (m : positive) (e : Z) : Z :=
  if 0 <=? e then Zpos m * 2 ^ e * 100
  else
    let d := 2 ^ (- e) in
    let n := Zpos m * 100 in
    let q := n / d in
    let r := n mod d in
    if (2 * r <? d) then q
    else if (d <? 2 * r) then q + 1
    else if Z.even q then q else q + 1.

(** [%w.2f] *)
Definition fmt_f2 (w : nat) (x : spec_float) : cstr :=
  let body h :=
    (lit (pretty (h / 100)) ++ lit "." ++ lit (pretty ((h mod 100) / 10)) ++
     lit (pretty (h mod 10)))%list in
  let sign (s : bool) := if s then lit "-" else [] in
  pad_left w
    match x with
    | S754_zero s => (sign s ++ body 0)%list
    | S754_infinity s => (sign s ++ lit "inf")%list
    | S754_nan => lit "nan"
    | S754_finite s m e => (sign s ++ body (hundredths m e))%list
    end.

(** ** Lemmas *)

Lemma f_trunc_nonneg (x : spec_float) (z : Z) :
  f_nonneg x = true → f_trunc x = Some z → 0 ≤ z.
Proof.
  destruct x as [s|s| |s m e]; simpl; [naive_solver lia|done|done|].
  destruct s; [done|]. intros _ [= <-]. simpl.
  destruct (Z.leb_spec 0 e) as [He|He].
  - pose proof (Z.pow_nonneg 2 e). nia.
  - apply Z.div_pos; [lia|]. apply Z.pow_pos_nonneg; lia.
Qed.
