(* ===== verification/TpccSupport.v ===== *)
(** * tpcc-mysql: support.c

    The random data generators shared by the loader and the transaction
    driver: uniform and non uniform random numbers, random strings, the
    permutation of customer ids and the syllable last names. *)

From Stdlib Require Import ZArith Lia Ascii String.
From stdpp Require Import base gmap list strings sorting numbers.
From S2P Require Import Prelude.

(** tpc.h *)
Definition MAXITEMS : Z := 100000.
Definition CUST_PER_DIST : Z := 3000.
Definition DIST_PER_WARE : Z := 10.
Definition ORD_PER_DIST : Z := 3000.
Definition MAX_NUM_ITEMS : Z := 15.
Definition MAX_ITEM_LEN : Z := 24.

(** The static storage of support.c, and the position in the sequence of
    [rand()] results.  [nurand_calls] numbers the calls of [NURand], whose
    locals are not initialised after the first one. *)
Record support : Type := Support {
  rand_calls : Z;
  nums : list Z;
  perm_count : Z;
  nurand_first : bool;
  nurand_calls : Z;
}.

Definition support_init : support :=
  Support 0 (replicate (Z.to_nat CUST_PER_DIST) 0) 0 true 0.

Definition set_rand_calls (n : Z) (s : support) : support :=
  Support n (nums s) (perm_count s) (nurand_first s) (nurand_calls s).
Definition set_nums (l : list Z) (s : support) : support :=
  Support (rand_calls s) l (perm_count s) (nurand_first s) (nurand_calls s).
Definition set_perm_count (n : Z) (s : support) : support :=
  Support (rand_calls s) (nums s) n (nurand_first s) (nurand_calls s).
Definition set_nurand (first : bool) (calls : Z) (s : support) : support :=
  Support (rand_calls s) (nums s) (perm_count s) first calls.

(** What the stack slots of [C_255], [C_1023] and [C_8191] hold on entry of the
    n-th call of [NURand]. *)
Class StackSlots := stack_slots : Z → Z * Z * Z.

(** The functions of support.c. *)
Abbreviation cprog := (prog fault support).

Section support.
Context {Rs : RandSource} {St : StackSlots}.


Definition rand_ : cprog Z := λ s,
  (Done (rand_value (rand_calls s)), set_rand_calls (rand_calls s + 1) s).

Definition RandomNumber (min max : Z) : cprog Z :=
  d ← int_sub max min;
  d1 ← int_add d 1;
  r ← rand_;
  q ← int_rem r d1;
  int_add min q.

Definition NURand (A x y : Z) : cprog Z :=
  s ← getS;
  let '(g255, g1023, g8191) := stack_slots (nurand_calls s) in
  '(c255, c1023, c8191) ←
    (if nurand_first s
     then a ← RandomNumber 0 255;
          b ← RandomNumber 0 1023;
          c ← RandomNumber 0 8191;
          mret (a, b, c)
     else mret (u32 g255, u32 g1023, u32 g8191));
  modS (λ s, set_nurand false (nurand_calls s + 1) s);;
  C ← (if A =? 255 then mret (u32 c255)
       else if A =? 1023 then mret (u32 c1023)
       else if A =? 8191 then mret (u32 c8191)
       else leave Abort);
  r1 ← RandomNumber 0 (s32 A);
  r2 ← RandomNumber (s32 x) (s32 y);
  let m := u32 (y - x + 1) in
  if m =? 0 then leave (Undefined DivByZero)
  else mret (s32 (u32 (s32 (u32 (u32 (Z.lor r1 r2) + C) mod m) + x))).

Definition alphanum : list ascii :=
  lit "0123456789ABCDEFGHIJKLMNOPQRSTUVWXYZabcdefghijklmnopqrstuvwxyz".
Definition numeric : list ascii := lit "0123456789".

(** The loop both string makers share:
    [for (i = 0; i < len; i++) str[i] = tbl[RandomNumber(0, arrmax)];] *)
Definition fill_random (tbl : list ascii) (arrmax len : Z) (str : list ascii)
  : cprog (list ascii) :=
  for_lt 0 len (λ i str,
    k ← RandomNumber 0 arrmax;
    c ← arr_get tbl k;
    arr_set str i c) str.

Definition MakeAlphaString (x y : Z) (str : list ascii) : cprog (Z * list ascii) :=
  len ← RandomNumber x y;
  str' ← fill_random alphanum 61 len str;
  mret (len, str').

Definition MakeNumberString (x y : Z) (str : list ascii) : cprog (Z * list ascii) :=
  len ← RandomNumber x y;
  str' ← fill_random numeric 9 len str;
  mret (len, str').

Definition InitPermutation : cprog unit :=
  modS (set_perm_count 0);;
  for_lt 0 ORD_PER_DIST (λ i _,
    l ← readS nums;
    l' ← arr_set l i (i + 1);
    modS (set_nums l')) tt;;
  for_lt 0 (ORD_PER_DIST - 1) (λ i _,
    j ← RandomNumber (i + 1) (ORD_PER_DIST - 1);
    l ← readS nums;
    tmp ← arr_get l i;
    b ← arr_get l j;
    l1 ← arr_set l i b;
    l2 ← arr_set l1 j tmp;
    modS (set_nums l2)) tt.

Definition GetPermutation : cprog Z :=
  p ← readS perm_count;
  if ORD_PER_DIST <=? p then leave Abort
  else l ← readS nums;
       v ← arr_get l p;
       modS (set_perm_count (p + 1));;
       mret v.

Definition syllables : list cstr :=
  [lit "BAR"; lit "OUGHT"; lit "ABLE"; lit "PRI"; lit "PRES";
   lit "ESE"; lit "ANTI"; lit "CALLY"; lit "ATION"; lit "EING"].

Definition Lastname (num : Z) : cprog cstr :=
  a ← int_div num 100;
  s1 ← arr_get syllables a;
  b ← int_div num 10;
  b' ← int_rem b 10;
  s2 ← arr_get syllables b';
  c ← int_rem num 10;
  s3 ← arr_get syllables c;
  mret (s1 ++ s2 ++ s3)%list.

(** ** Uniform random numbers *)

Lemma RandomNumber_run (lo hi : Z) (s : support) :
  INT_MIN ≤ lo → lo ≤ hi ≤ INT_MAX → hi - lo < INT_MAX →
  RandomNumber lo hi s =
    (Done (lo + rand_value (rand_calls s) mod (hi - lo + 1)),
     set_rand_calls (rand_calls s + 1) s).
Proof.
  intros Hlo Hhi Hd. unfold RandomNumber, int_sub, int_add.
  pose proof (rand_value_range (rand_calls s)) as Hr.
  pose proof (Z.mod_pos_bound (rand_value (rand_calls s)) (hi - lo + 1)) as Hm.
  rewrite int_of_ok, bind_ret, int_of_ok, bind_ret
    by (unfold INT_MIN, INT_MAX in *; lia).
  erewrite bind_done by reflexivity.
  rewrite int_rem_pos, bind_ret, int_of_ok
    by (unfold INT_MIN, INT_MAX, RAND_MAX in *; lia).
  done.
Qed.

(** The form the callers use: a value in range, the support statics kept. *)
Lemma RandomNumber_range_run (lo hi : Z) (s : support) :
  INT_MIN ≤ lo → lo ≤ hi ≤ INT_MAX → hi - lo < INT_MAX →
  ∃ v, lo ≤ v ≤ hi ∧
    RandomNumber lo hi s = (Done v, set_rand_calls (rand_calls s + 1) s).
Proof.
  intros Hlo Hhi Hd. rewrite RandomNumber_run by done.
  eexists; split; [|reflexivity].
  pose proof (Z.mod_pos_bound (rand_value (rand_calls s)) (hi - lo + 1)). lia.
Qed.
End support.

Ltac intbounds := unfold INT_MIN, INT_MAX, RAND_MAX, MAXITEMS, CUST_PER_DIST,
  DIST_PER_WARE, ORD_PER_DIST in *; lia.

(** Run the next [RandomNumber] of a computation, naming its value. *)
Ltac step_random v Hv :=
  match goal with
  | |- context [(RandomNumber ?lo ?hi ≫= ?k) ?s] =>
      let E := fresh "Erand" in
      destruct (RandomNumber_range_run lo hi s) as (v & Hv & E);
      [intbounds | intbounds | intbounds | rewrite (bind_done _ k _ _ _ E); clear E]
  end.

Section support_lemmas.
Context {Rs : RandSource} {St : StackSlots}.

Lemma nurand_value_range (m C x y a : Z) :
  0 ≤ x ≤ y → y < INT_MAX → m = u32 (y - x + 1) →
  m ≠ 0 ∧
  x ≤ s32 (u32 (s32 (u32 (u32 a + C) mod m) + x)) ≤ y.
Proof.
  intros Hx Hy ->. rewrite (u32_id (y - x + 1)) by (unfold INT_MAX in *; lia).
  split; [lia|].
  pose proof (Z.mod_pos_bound (u32 (u32 a + C)) (y - x + 1)) as Hm.
  set (q := u32 (u32 a + C) mod (y - x + 1)) in *.
  rewrite (s32_id q), (u32_id (q + x)), (s32_id (q + x))
    by (unfold INT_MIN, INT_MAX in *; lia). lia.
Qed.

(** The constants are drawn on the first call only, and kept in locals. *)
Lemma nurand_tail_run (A x y C : Z) (s : support) :
  0 ≤ A < INT_MAX → 0 ≤ x ≤ y → y < INT_MAX →
  ∃ v s',
    (r1 ← RandomNumber 0 (s32 A);
     r2 ← RandomNumber (s32 x) (s32 y);
     let m := u32 (y - x + 1) in
     if m =? 0 then leave (Undefined DivByZero)
     else mret (s32 (u32 (s32 (u32 (u32 (Z.lor r1 r2) + C) mod m) + x)))) s
    = (Done v, s') ∧
    x ≤ v ≤ y ∧ nurand_first s' = nurand_first s ∧
    nums s' = nums s ∧ perm_count s' = perm_count s.
Proof.
  intros HA Hx Hy. rewrite !s32_id by intbounds.
  step_random a Ha. step_random b Hb. cbv zeta.
  destruct (nurand_value_range _ C x y (Z.lor a b) Hx Hy eq_refl) as [Hm Hv].
  rewrite (proj2 (Z.eqb_neq _ 0) Hm).
  eexists _, _. split; [reflexivity|]. split; [exact Hv|]. repeat split.
Qed.

Lemma NURand_run (A x y : Z) (s : support) :
  (A = 255 ∨ A = 1023 ∨ A = 8191) → 0 ≤ x ≤ y → y < INT_MAX →
  ∃ v s', NURand A x y s = (Done v, s') ∧ x ≤ v ≤ y ∧ nurand_first s' = false ∧
    nums s' = nums s ∧ perm_count s' = perm_count s.
Proof.
  intros HA Hx Hy. unfold NURand. erewrite bind_done by reflexivity.
  destruct (stack_slots (nurand_calls s)) as [[g255 g1023] g8191].
  assert (∃ c1 c2 c3 s1,
    (if nurand_first s
     then a ← RandomNumber 0 255; b ← RandomNumber 0 1023;
          c ← RandomNumber 0 8191; mret (a, b, c)
     else mret (u32 g255, u32 g1023, u32 g8191)) s = (Done (c1, c2, c3), s1) ∧
    nums s1 = nums s ∧ perm_count s1 = perm_count s) as (c1 & c2 & c3 & s1 & E & E1 & E2).
  { destruct (nurand_first s).
    - step_random a Ha. step_random b Hb. step_random c Hc. do 4 eexists. repeat split.
    - do 4 eexists. repeat split. }
  rewrite (bind_done _ _ _ _ _ E). erewrite bind_done by reflexivity.
  destruct HA as [-> | [-> | ->]]; cbn [Z.eqb Pos.eqb];
    rewrite bind_ret;
    edestruct (nurand_tail_run) as (v & s' & E' & Hv & H1 & H2 & H3);
    [| | | rewrite E'; eexists _, _; split; [reflexivity|];
           rewrite H1, H2, H3; simpl; auto
     | | | | rewrite E'; eexists _, _; split; [reflexivity|];
           rewrite H1, H2, H3; simpl; auto
     | | | | rewrite E'; eexists _, _; split; [reflexivity|];
           rewrite H1, H2, H3; simpl; auto]; intbounds.
Qed.

(** ** The permutation of customer ids *)

(** [nums] is a static array of [CUST_PER_DIST] elements. *)
Definition support_ok (s : support) : Prop :=
  Z.of_nat (length (nums s)) = CUST_PER_DIST.

(** The shuffle at step [i]: a permutation of the ids; behind [i] no cell holds
    its own id; from [i] on a cell holds its own id or one already displaced. *)
Definition shuffle_inv (i : Z) (l : list Z) : Prop :=
  l ≡ₚ seqZ 1 ORD_PER_DIST ∧
  (∀ p v, l !! p = Some v → Z.of_nat p < i → v ≠ Z.of_nat p + 1) ∧
  (∀ p v, l !! p = Some v → i ≤ Z.of_nat p → v ≤ i ∨ v = Z.of_nat p + 1) ∧
  (i = ORD_PER_DIST - 1 → ∀ p v, l !! p = Some v → v ≠ Z.of_nat p + 1).

Lemma shuffle_inv_start (l : list Z) : l = seqZ 1 ORD_PER_DIST → shuffle_inv 0 l.
Proof.
  intros ->. split; [done|]. split_and!.
  - intros p v _ Hp. lia.
  - intros p v [-> Hp]%lookup_seqZ _. lia.
  - unfold ORD_PER_DIST. lia.
Qed.

Lemma shuffle_inv_length (i : Z) (l : list Z) :
  shuffle_inv i l → Z.of_nat (length l) = ORD_PER_DIST.
Proof.
  intros [Hp _]. apply Permutation_length in Hp. rewrite Hp, length_seqZ.
  unfold ORD_PER_DIST. lia.
Qed.

Lemma shuffle_inv_step (i j : Z) (l : list Z) (x y : Z) :
  0 ≤ i < ORD_PER_DIST - 1 → i + 1 ≤ j ≤ ORD_PER_DIST - 1 →
  l !! Z.to_nat i = Some x → l !! Z.to_nat j = Some y →
  shuffle_inv i l →
  shuffle_inv (i + 1) (<[Z.to_nat j := x]> (<[Z.to_nat i := y]> l)).
Proof.
  intros Hi Hj Hx Hy Hinv. pose proof (shuffle_inv_length _ _ Hinv) as Hlen.
  destruct Hinv as (Hperm & Hbehind & Hahead & Hlast).
  pose proof (Hahead _ _ Hx ltac:(lia)) as Hxv.
  pose proof (Hahead _ _ Hy ltac:(lia)) as Hyv.
  assert (∀ p v, <[Z.to_nat j := x]> (<[Z.to_nat i := y]> l) !! p = Some v →
    (p = Z.to_nat j ∧ v = x) ∨ (p = Z.to_nat i ∧ v = y) ∨
    (p ≠ Z.to_nat j ∧ p ≠ Z.to_nat i ∧ l !! p = Some v)) as Hcase.
  { intros p v Hv. destruct (decide (p = Z.to_nat j)) as [->|].
    { rewrite list_lookup_insert_eq in Hv by (rewrite length_insert; lia).
      injection Hv as <-. auto. }
    rewrite list_lookup_insert_ne in Hv by done.
    destruct (decide (p = Z.to_nat i)) as [->|].
    { rewrite list_lookup_insert_eq in Hv by lia. injection Hv as <-. auto. }
    rewrite list_lookup_insert_ne in Hv by done. auto. }
  split; [by rewrite list_swap_Permutation|]. split_and!.
  - intros p v [[-> ->] | [[-> ->] | (? & ? & Hv)]]%Hcase Hp; [lia..|].
    apply (Hbehind p v Hv). lia.
  - intros p v [[-> ->] | [[-> ->] | (? & ? & Hv)]]%Hcase Hp; [lia..|].
    pose proof (Hahead p v Hv ltac:(lia)). lia.
  - intros Hend p v [[-> ->] | [[-> ->] | (? & ? & Hv)]]%Hcase; [lia..|].
    apply lookup_lt_Some in Hv as Hp. apply (Hbehind p v Hv). lia.
Qed.

Lemma init_numbers_run (s : support) :
  support_ok s →
  ∃ s', for_lt 0 ORD_PER_DIST (λ i (_ : unit),
    l ← readS nums; l' ← arr_set l i (i + 1); modS (set_nums l')) tt s
    = (Done tt, s') ∧ nums s' = seqZ 1 ORD_PER_DIST ∧ perm_count s' = perm_count s.
Proof.
  intros Hok.
  destruct (for_lt_run (F:=fault)
    (λ i (_ : unit) s', support_ok s' ∧ perm_count s' = perm_count s ∧
       ∀ p, Z.of_nat p < i → nums s' !! p = Some (Z.of_nat p + 1))
    (λ i (_ : unit), l ← readS nums; l' ← arr_set l i (i + 1); modS (set_nums l'))
    0 ORD_PER_DIST tt s) as ([] & s' & E & Hok' & Hpc & Hall).
  - unfold ORD_PER_DIST. lia.
  - split; [done|]. split; [done|]. intros p Hp. lia.
  - intros i [] s1 Hi (Hok1 & Hpc & Hpre). erewrite bind_done by reflexivity.
    unfold support_ok in *.
    rewrite arr_set_ok, bind_ret by intbounds.
    eexists _, _; split; [reflexivity|]. simpl. rewrite length_insert.
    split; [done|]. split; [done|]. intros p Hp.
    destruct (decide (p = Z.to_nat i)) as [->|Hne].
    + rewrite list_lookup_insert_eq by intbounds. f_equal. lia.
    + rewrite list_lookup_insert_ne by done. apply Hpre. lia.
  - exists s'. split; [done|]. split; [|done].
    apply list_eq. intros p. destruct (decide (Z.of_nat p < ORD_PER_DIST)) as [Hp|Hp].
    + rewrite Hall by done. rewrite lookup_seqZ_lt by lia. f_equal. lia.
    + rewrite !(proj2 (lookup_ge_None _ _)); [done| |].
      * rewrite length_seqZ. lia.
      * unfold support_ok in Hok'. intbounds.
Qed.

Lemma InitPermutation_run (s : support) :
  support_ok s →
  ∃ s', InitPermutation s = (Done tt, s') ∧ perm_count s' = 0 ∧
    shuffle_inv (ORD_PER_DIST - 1) (nums s').
Proof.
  intros Hok. unfold InitPermutation. erewrite bind_done by reflexivity.
  destruct (init_numbers_run (set_perm_count 0 s)) as (s1 & E1 & Hn1 & Hp1); [done|].
  rewrite (bind_done _ _ _ _ _ E1).
  destruct (for_lt_run (F:=fault)
    (λ i (_ : unit) s', perm_count s' = 0 ∧ shuffle_inv i (nums s'))
    (λ i (_ : unit),
      j ← RandomNumber (i + 1) (ORD_PER_DIST - 1);
      l ← readS nums; tmp ← arr_get l i; b ← arr_get l j;
      l1 ← arr_set l i b; l2 ← arr_set l1 j tmp; modS (set_nums l2))
    0 (ORD_PER_DIST - 1) tt s1) as ([] & s' & E & Hpc & Hinv).
  - unfold ORD_PER_DIST. lia.
  - split; [by rewrite Hp1|]. by apply shuffle_inv_start.
  - intros i [] s2 Hi (Hpc & Hinv). pose proof (shuffle_inv_length _ _ Hinv) as Hlen.
    step_random j Hj. erewrite bind_done by reflexivity. simpl.
    destruct (arr_get_lookup (F:=fault) (S:=support) (nums s2) i) as (x & Hx & ->); [intbounds|].
    rewrite bind_ret.
    destruct (arr_get_lookup (F:=fault) (S:=support) (nums s2) j) as (y & Hy & ->); [intbounds|].
    rewrite bind_ret, arr_set_ok, bind_ret by intbounds.
    rewrite arr_set_ok, bind_ret by (rewrite length_insert; intbounds).
    eexists _, _; split; [reflexivity|]. split; [done|].
    by apply shuffle_inv_step.
  - exists s'. done.
Qed.

(** Drawing [n] customer ids in a row, as the order loader does. *)
Fixpoint draw_permutation (n : nat) : cprog (list Z) :=
  match n with
  | O => mret []
  | S k => v ← GetPermutation; l ← draw_permutation k; mret (v :: l)
  end.

Lemma GetPermutation_run (s : support) (v : Z) :
  0 ≤ perm_count s < ORD_PER_DIST → nums s !! Z.to_nat (perm_count s) = Some v →
  GetPermutation s = (Done v, set_perm_count (perm_count s + 1) s).
Proof.
  intros Hp Hv. unfold GetPermutation. erewrite bind_done by reflexivity.
  rewrite (proj2 (Z.leb_gt ORD_PER_DIST (perm_count s))) by lia.
  erewrite bind_done by reflexivity.
  rewrite (arr_get_ok _ _ v) by (done || lia). done.
Qed.

Lemma draw_permutation_run (n : nat) (s : support) :
  0 ≤ perm_count s → Z.of_nat (length (nums s)) = ORD_PER_DIST →
  perm_count s + Z.of_nat n ≤ ORD_PER_DIST →
  draw_permutation n s =
    (Done (take n (drop (Z.to_nat (perm_count s)) (nums s))),
     set_perm_count (perm_count s + Z.of_nat n) s).
Proof.
  revert s; induction n as [|n IH]; intros s H0 Hlen Hn; simpl.
  - rewrite Z.add_0_r. by destruct s.
  - destruct (lookup_lt_is_Some_2 (nums s) (Z.to_nat (perm_count s))) as [v Hv]; [lia|].
    assert (0 ≤ perm_count s < ORD_PER_DIST) as Hp by lia.
    rewrite (bind_done _ _ _ _ _ (GetPermutation_run s v Hp Hv)).
    pose proof (IH (set_perm_count (perm_count s + 1) s)) as IH1. simpl in IH1.
    rewrite (bind_done _ _ _ _ _ (IH1 ltac:(lia) Hlen ltac:(lia))).
    simpl. rewrite (drop_S _ _ _ Hv).
    replace (Z.to_nat (perm_count s + 1)) with (S (Z.to_nat (perm_count s))) by lia.
    simpl. unfold mret, prog_ret, set_perm_count. simpl. do 2 f_equal. lia.
Qed.

(** ** Random strings *)

Lemma fill_random_run (tbl : list ascii) (arrmax len : Z) (str : list ascii) (s : support) :
  0 ≤ arrmax < INT_MAX → Z.of_nat (length tbl) = arrmax + 1 →
  0 ≤ len ≤ Z.of_nat (length str) →
  ∃ str' s', fill_random tbl arrmax len str s = (Done str', s') ∧
    length str' = length str ∧
    Forall (λ c, c ∈ tbl) (take (Z.to_nat len) str') ∧
    drop (Z.to_nat len) str' = drop (Z.to_nat len) str ∧
    nums s' = nums s ∧ perm_count s' = perm_count s ∧ nurand_first s' = nurand_first s.
Proof.
  intros Hmax Htbl Hlen. unfold fill_random.
  destruct (for_lt_run (F:=fault)
    (λ i str' s', length str' = length str ∧
      Forall (λ c, c ∈ tbl) (take (Z.to_nat i) str') ∧
      drop (Z.to_nat i) str' = drop (Z.to_nat i) str ∧
      nums s' = nums s ∧ perm_count s' = perm_count s ∧ nurand_first s' = nurand_first s)
    (λ i str, k ← RandomNumber 0 arrmax; c ← arr_get tbl k; arr_set str i c)
    0 len str s) as (str' & s' & E & Hend).
  - lia.
  - repeat split; constructor.
  - intros i str1 s1 Hi (Hl & Hin & Hdrop & Hs).
    step_random k Hk.
    destruct (arr_get_lookup (F:=fault) (S:=support) tbl k) as (c & Hc & ->); [lia|].
    rewrite bind_ret, arr_set_ok by lia.
    eexists _, _; split; [reflexivity|]. rewrite length_insert. split; [done|].
    replace (Z.to_nat (i + 1)) with (S (Z.to_nat i)) by lia. split_and!.
    + rewrite (take_S_r _ _ c) by (apply list_lookup_insert_eq; lia).
      rewrite take_insert_ge by lia. apply Forall_app; split; [done|].
      apply Forall_singleton. apply list_elem_of_lookup. eauto.
    + rewrite drop_insert_lt by lia.
      rewrite <- (Nat.add_1_r (Z.to_nat i)), <- !drop_drop, Hdrop. done.
    + by destruct Hs as (? & ? & ?).
    + by destruct Hs as (? & ? & ?).
    + by destruct Hs as (? & ? & ?).
  - exists str', s'. destruct Hend as (?&?&?&?&?&?). done.
Qed.
End support_lemmas.

(** ** Properties *)

Section support_properties.
Context {Rs : RandSource} {St : StackSlots}.

(** [RandomNumber(min, max)] returns a value between min and max inclusive,
    advances only the position in the [rand()] sequence, and every value of the
    range is the result for some behaviour of [rand()]; with [max = min - 1] it
    divides by zero. *)
Theorem RandomNumber_inclusive (lo hi : Z) (s : support) :
  INT_MIN ≤ lo → lo ≤ hi ≤ INT_MAX → hi - lo < INT_MAX →
  (∃ v, lo ≤ v ≤ hi ∧
    RandomNumber lo hi s = (Done v, set_rand_calls (rand_calls s + 1) s)) ∧
  (∀ v, lo ≤ v ≤ hi → ∃ R : RandSource, fst (RandomNumber (Rs:=R) lo hi s) = Done v) ∧
  (INT_MIN < lo → fst (RandomNumber lo (lo - 1) s) = Leave (Undefined DivByZero)).
Proof.
  intros Hlo Hhi Hd. split; [by apply RandomNumber_range_run|]. split.
  - intros v Hv. exists (λ _, v - lo). rewrite RandomNumber_run by done. simpl.
    unfold rand_value, rand_at, RAND_MAX.
    rewrite (Z.mod_small (v - lo)) by intbounds.
    rewrite Z.mod_small by lia. f_equal. lia.
  - intros Hlo'. unfold RandomNumber, int_sub, int_add.
    rewrite int_of_ok, bind_ret, int_of_ok, bind_ret by intbounds.
    erewrite bind_done by reflexivity. unfold int_rem.
    replace (lo - 1 - lo + 1 =? 0) with true by (symmetry; apply Z.eqb_eq; lia). done.
Qed.

(** [NURand] called with one of the three TPC-C constants and [x <= y]
    completes with a value in [x, y], whatever the uninitialised locals hold on
    the calls after the first one, and aborts for every other constant. *)
Theorem NURand_range (A x y : Z) (s : support) :
  0 ≤ x ≤ y → y < INT_MAX →
  (A = 255 ∨ A = 1023 ∨ A = 8191 →
     ∃ v s', NURand A x y s = (Done v, s') ∧ x ≤ v ≤ y ∧ nurand_first s' = false) ∧
  (A ≠ 255 → A ≠ 1023 → A ≠ 8191 → fst (NURand A x y s) = Leave Abort).
Proof.
  intros Hx Hy. split.
  - intros HA. destruct (NURand_run A x y s HA Hx Hy) as (v & s' & E & Hv & Hf & _).
    eauto.
  - intros H1 H2 H3. unfold NURand. erewrite bind_done by reflexivity.
    destruct (stack_slots (nurand_calls s)) as [[g1 g2] g3].
    rewrite (proj2 (Z.eqb_neq A 255)), (proj2 (Z.eqb_neq A 1023)),
      (proj2 (Z.eqb_neq A 8191)) by done.
    destruct (nurand_first s); [|done].
    match goal with |- context [(?m ≫= ?k) s] =>
      assert (∃ t s1, m s = (Done t, s1)) as (t & s1 & E);
      [step_random a Ha; step_random b Hb; step_random c Hc; by do 2 eexists
      |rewrite (bind_done _ k _ _ _ E)] end.
    by destruct t as [[? ?] ?].
Qed.

(** [InitPermutation] always completes and leaves in [nums] a permutation of
    the customer ids 1..3000 in which no position holds its own id, for every
    behaviour of [rand()]; the next 3000 calls of [GetPermutation] return exactly
    that list in order and the call after them aborts. *)
Theorem InitPermutation_deranges (s : support) :
  support_ok s →
  ∃ s', InitPermutation s = (Done tt, s') ∧
    nums s' ≡ₚ seqZ 1 ORD_PER_DIST ∧
    (∀ p v, nums s' !! p = Some v → v ≠ Z.of_nat p + 1) ∧
    ∃ s'', draw_permutation (Z.to_nat ORD_PER_DIST) s' = (Done (nums s'), s'') ∧
      GetPermutation s'' = (Leave Abort, s'').
Proof.
  intros Hok. destruct (InitPermutation_run s Hok) as (s' & E & Hpc & Hinv).
  pose proof (shuffle_inv_length _ _ Hinv) as Hlen.
  destruct Hinv as (Hperm & _ & _ & Hfix).
  exists s'. split; [done|]. split; [done|]. split; [by apply Hfix|].
  eexists; split.
  - rewrite draw_permutation_run by intbounds. rewrite Hpc, drop_0, take_ge by intbounds.
    reflexivity.
  - reflexivity.
Qed.

(** [MakeAlphaString(x, y, str)] writes between x and y alphanumeric
    characters at the start of the buffer, returns their number, leaves the rest
    of the buffer untouched and never writes outside a buffer of more than y
    characters. *)
Theorem MakeAlphaString_fills (x y : Z) (str : list ascii) (s : support) :
  0 ≤ x ≤ y → y < Z.of_nat (length str) → y < INT_MAX →
  ∃ len str' s', MakeAlphaString x y str s = (Done (len, str'), s') ∧
    x ≤ len ≤ y ∧ length str' = length str ∧
    Forall (λ c, c ∈ alphanum) (take (Z.to_nat len) str') ∧
    drop (Z.to_nat len) str' = drop (Z.to_nat len) str.
Proof.
  intros Hx Hy Hmax. unfold MakeAlphaString. step_random len Hl.
  edestruct (fill_random_run alphanum 61 len str) as (str' & s' & E & ? & ? & ? & _);
    [intbounds|done|lia|].
  rewrite (bind_done _ _ _ _ _ E). do 3 eexists. done.
Qed.
End support_properties.


(** ** Witnesses and concrete runs *)

Module SupportRun.
Definition lcg : RandSource := λ n, (n * 1103515245 + 12345) / 65536.
Definition zero_slots : StackSlots := λ _, (0, 0, 0).
Definition busy_slots : StackSlots := λ _, (7, 7, 7).

(** A state after the first call of [NURand]. *)
Definition after_first : support := set_nurand false 1 support_init.
End SupportRun.
Import SupportRun.

(** The constant C of the non uniform random numbers is not kept from one
    call to the next, although all calls with the same A must use the same
    value: on the calls after the first the result depends on the indeterminate
    stack slots, with the same arguments and the same [rand()] results. *)
Theorem NURand_constant_not_kept :
  ∃ (g1 g2 : StackSlots) (s : support), nurand_first s = false ∧
    fst (NURand (Rs:=lcg) (St:=g1) 255 0 999 s) ≠ fst (NURand (Rs:=lcg) (St:=g2) 255 0 999 s).
Proof.
  exists zero_slots, busy_slots, after_first. split; [done|]. vm_compute. discriminate.
Qed.

Definition lastname_of (num : Z) : outcome fault cstr := fst (Lastname num support_init).

Definition lastname_fits (num : Z) : bool :=
  match lastname_of num with
  | Done name => (length name <=? 15)%nat
  | Leave _ => false
  end.

Lemma Lastname_state (num : Z) (s : support) : Lastname num s = (lastname_of num, s).
Proof.
  unfold lastname_of, Lastname, int_div, int_rem, arr_get, int_of, mbind, prog_bind, mret,
    prog_ret, leave.
  repeat (simpl; case_match; simplify_eq; try done).
Qed.

Lemma seqZ_complete (P : Z → bool) (m n : Z) :
  forallb P (seqZ m n) = true → ∀ k, m ≤ k < m + n → P k = true.
Proof.
  intros Hall k Hk. rewrite forallb_forall in Hall. apply Hall.
  apply list_elem_of_In, elem_of_seqZ. lia.
Qed.

Lemma Lastname_run (n : Z) (s : support) :
  0 ≤ n ≤ 999 → ∃ name, Lastname n s = (Done name, s) ∧ (length name ≤ 15)%nat.
Proof.
  intros Hn. rewrite Lastname_state. assert (lastname_fits n = true) as Hfit.
  { apply (seqZ_complete _ 0 1000); [by vm_compute|lia]. }
  unfold lastname_fits in Hfit. destruct (lastname_of n) as [name|]; [|done].
  exists name. split; [done|]. by apply Nat.leb_le.
Qed.

(** For every number 0..999 [Lastname] stays inside its table, leaves the
    state unchanged and builds a name of at most 15 characters, so that it fits
    with its terminator in the 16 byte buffers of the callers; different numbers
    have different names; a number outside the range reads outside the table. *)
Theorem Lastname_injective (m n : Z) (s : support) :
  0 ≤ m ≤ 999 → 0 ≤ n ≤ 999 →
  (∃ name, Lastname n s = (Done name, s) ∧ (length name ≤ 15)%nat) ∧
  (Lastname m s = Lastname n s → m = n) ∧
  fst (Lastname 1000 s) = Leave (Undefined OutOfBounds).
Proof.
  intros Hm Hn. split; [by apply Lastname_run|]. rewrite !Lastname_state. split; [|done].
  - intros [= E]. assert (NoDup (lastname_of <$> seqZ 0 1000)) as Hnd.
    { apply (bool_decide_unpack _). by vm_compute. }
    eapply (NoDup_lookup _ (Z.to_nat m) (Z.to_nat n) (lastname_of m)) in Hnd; [lia| |].
    + rewrite list_lookup_fmap, lookup_seqZ_lt by lia. simpl. do 2 f_equal. lia.
    + rewrite list_lookup_fmap, lookup_seqZ_lt by lia. simpl. rewrite E. do 2 f_equal. lia.
Qed.

Lemma RandomNumber_inclusive_witness :
  (∃ v, 1 ≤ v ≤ 10 ∧ RandomNumber (Rs:=lcg) 1 10 support_init =
    (Done v, set_rand_calls 1 support_init)) ∧
  (∀ v, 1 ≤ v ≤ 10 → ∃ R : RandSource,
    fst (RandomNumber (Rs:=R) 1 10 support_init) = Done v) ∧
  (INT_MIN < 1 → fst (RandomNumber (Rs:=lcg) 1 0 support_init) =
    Leave (Undefined DivByZero)).
Proof.
  apply (RandomNumber_inclusive (Rs:=lcg) 1 10 support_init);
    unfold INT_MIN, INT_MAX; lia.
Defined.

Lemma NURand_range_witness :
  (8191 = 255 ∨ 8191 = 1023 ∨ 8191 = 8191 →
     ∃ v s', NURand (Rs:=lcg) (St:=busy_slots) 8191 1 MAXITEMS after_first = (Done v, s') ∧
       1 ≤ v ≤ MAXITEMS ∧ nurand_first s' = false) ∧
  (8191 ≠ 255 → 8191 ≠ 1023 → 8191 ≠ 8191 →
     fst (NURand (Rs:=lcg) (St:=busy_slots) 8191 1 MAXITEMS after_first) = Leave Abort).
Proof.
  apply (NURand_range (Rs:=lcg) (St:=busy_slots) 8191 1 MAXITEMS after_first);
    unfold MAXITEMS, INT_MAX; lia.
Defined.

Lemma InitPermutation_deranges_witness :
  ∃ s', InitPermutation (Rs:=lcg) support_init = (Done tt, s') ∧
    nums s' ≡ₚ seqZ 1 ORD_PER_DIST ∧
    (∀ p v, nums s' !! p = Some v → v ≠ Z.of_nat p + 1) ∧
    ∃ s'', draw_permutation (Z.to_nat ORD_PER_DIST) s' = (Done (nums s'), s'') ∧
      GetPermutation s'' = (Leave Abort, s'').
Proof. apply (InitPermutation_deranges (Rs:=lcg) support_init). reflexivity. Defined.

Lemma MakeAlphaString_fills_witness :
  ∃ len str' s', MakeAlphaString (Rs:=lcg) 14 24 (replicate 25 zero) support_init
      = (Done (len, str'), s') ∧
    14 ≤ len ≤ 24 ∧ length str' = length (replicate 25 zero) ∧
    Forall (λ c, c ∈ alphanum) (take (Z.to_nat len) str') ∧
    drop (Z.to_nat len) str' = drop (Z.to_nat len) (replicate 25 zero).
Proof.
  apply (MakeAlphaString_fills (Rs:=lcg) 14 24 (replicate 25 zero) support_init);
    [lia | reflexivity | unfold INT_MAX; lia].
Defined.

Lemma Lastname_injective_witness :
  (∃ name, Lastname 999 support_init = (Done name, support_init) ∧ (length name ≤ 15)%nat) ∧
  (Lastname 371 support_init = Lastname 999 support_init → 371 = 999) ∧
  fst (Lastname 1000 support_init) = Leave (Undefined OutOfBounds).
Proof. apply (Lastname_injective 371 999 support_init); lia. Defined.
