(* ===== verification/TpccSequence.v ===== *)
(** * tpcc-mysql: sequence.c

    The shuffled sequence of transaction types the driver threads share.  The
    mutex of the C code makes each [seq_get] atomic, so a run of the threads is
    a sequence of calls. *)

From Stdlib Require Import ZArith Lia.
From stdpp Require Import base gmap list sorting numbers.
From S2P Require Import Prelude TpccSupport.

(** The static storage of sequence.c. *)
Record sequence : Type := Sequence {
  sq_no : Z; sq_py : Z; sq_os : Z; sq_dl : Z; sq_sl : Z;
  sq_total : Z;
  sq_seq : list Z;
  sq_next_num : Z;
}.

Definition sequence_zero : sequence := Sequence 0 0 0 0 0 0 [] 0.

(** sequence.c draws from the [rand()] sequence that support.c also uses. *)
Abbreviation seqprog := (prog fault (support * sequence)).

Definition in_support {A} (m : cprog A) : seqprog A :=
  zoom fst (λ sp st, (sp, snd st)) m.
Definition mod_sequence (f : sequence → sequence) : seqprog unit :=
  modS (λ st, (fst st, f (snd st))).

Definition set_seq (l : list Z) (q : sequence) : sequence :=
  Sequence (sq_no q) (sq_py q) (sq_os q) (sq_dl q) (sq_sl q) (sq_total q) l (sq_next_num q).
Definition set_next_num (n : Z) (q : sequence) : sequence :=
  Sequence (sq_no q) (sq_py q) (sq_os q) (sq_dl q) (sq_sl q) (sq_total q) (sq_seq q) n.

Section sequence.
Context {Rs : RandSource}.

(** [for (i = 0; i < n; i++, j++) seq[j] = v;] *)
Definition fill_type (v n : Z) (jl : Z * list Z) : seqprog (Z * list Z) :=
  for_lt 0 n (λ _ '(j, l), l' ← arr_set l j v; mret (j + 1, l')) jl.

(** One turn of the last loop, where [j = total - 1 - i]. *)
Definition shuffle_turn (total i : Z) (l : list Z) : seqprog (list Z) :=
  let j := total - 1 - i in
  r ← in_support rand_;
  rnd ← int_rem r (j + 1);
  tmp ← arr_get l (rnd + i);
  x ← arr_get l i;
  l1 ← arr_set l (rnd + i) x;
  arr_set l1 i tmp.

Definition shuffle : seqprog unit :=
  q ← readS snd;
  jl ← fill_type 0 (sq_no q) (0, sq_seq q);
  jl ← fill_type 1 (sq_py q) jl;
  jl ← fill_type 2 (sq_os q) jl;
  jl ← fill_type 3 (sq_dl q) jl;
  jl ← fill_type 4 (sq_sl q) jl;
  l ← for_lt 0 (sq_total q - 1) (shuffle_turn (sq_total q)) (snd jl);
  mod_sequence (set_seq l).

(** [malloc] leaves the array uninitialised: its content is [junk]. *)
Definition seq_init (junk : Z) (n p o d s : Z) : seqprog unit :=
  t1 ← int_add n p;
  t2 ← int_add t1 o;
  t3 ← int_add t2 d;
  total ← int_add t3 s;
  mod_sequence (λ q, Sequence n p o d s total (replicate (Z.to_nat total) junk) (sq_next_num q));;
  shuffle;;
  mod_sequence (set_next_num 0).

(** [retval = seq[next_num]; ++next_num; return(retval);] *)
Definition seq_serve : seqprog Z :=
  q ← readS snd;
  retval ← arr_get (sq_seq q) (sq_next_num q);
  mod_sequence (λ q, set_next_num (sq_next_num q + 1) q);;
  mret retval.

Definition seq_get : seqprog Z :=
  q ← readS snd;
  (if sq_total q <=? sq_next_num q
   then shuffle;; mod_sequence (set_next_num 0)
   else mret tt);;
  seq_serve.

(** The multiset of types one pass over the sequence serves. *)
Definition mix (q : sequence) : list Z :=
  replicate (Z.to_nat (sq_no q)) 0 ++ replicate (Z.to_nat (sq_py q)) 1 ++
  replicate (Z.to_nat (sq_os q)) 2 ++ replicate (Z.to_nat (sq_dl q)) 3 ++
  replicate (Z.to_nat (sq_sl q)) 4.

(** What [seq_init] establishes and every call keeps. *)
Definition seq_ok (q : sequence) : Prop :=
  0 ≤ sq_no q ∧ 0 ≤ sq_py q ∧ 0 ≤ sq_os q ∧ 0 ≤ sq_dl q ∧ 0 ≤ sq_sl q ∧
  sq_total q = sq_no q + sq_py q + sq_os q + sq_dl q + sq_sl q ∧
  sq_total q ≤ INT_MAX ∧
  Z.of_nat (length (sq_seq q)) = sq_total q.

Definition same_mix (q q' : sequence) : Prop :=
  sq_no q' = sq_no q ∧ sq_py q' = sq_py q ∧ sq_os q' = sq_os q ∧
  sq_dl q' = sq_dl q ∧ sq_sl q' = sq_sl q ∧ sq_total q' = sq_total q.

(** ** The fills *)

Lemma fill_type_run (v n j : Z) (l : list Z) (st : support * sequence) :
  0 ≤ n → 0 ≤ j → j + n ≤ Z.of_nat (length l) →
  fill_type v n (j, l) st =
    (Done (j + n, take (Z.to_nat j) l ++ replicate (Z.to_nat n) v ++
                  drop (Z.to_nat (j + n)) l), st).
Proof.
  intros Hn Hj Hlen. unfold fill_type.
  destruct (for_lt_run (F:=fault)
    (λ i jl st', jl = (j + i, take (Z.to_nat j) l ++ replicate (Z.to_nat i) v ++
                  drop (Z.to_nat (j + i)) l) ∧ st' = st)
    (λ _ '(j, l), l' ← arr_set l j v; mret (j + 1, l')) 0 n (j, l) st)
    as (a & s' & -> & -> & ->); [lia| | |done].
  - rewrite Z.add_0_r. change (Z.to_nat 0) with 0%nat. simpl.
    by rewrite take_drop.
  - intros i a s Hi [-> ->].
    rewrite arr_set_ok, bind_ret.
    2: { rewrite !length_app, length_take, length_replicate, length_drop. lia. }
    eexists _, _; split; [reflexivity|]. split; [|done].
    replace (j + (i + 1)) with (j + i + 1) by lia. f_equal.
    rewrite insert_app_r_alt by (rewrite length_take; lia).
    rewrite length_take, insert_app_r_alt by (rewrite length_replicate; lia).
    f_equal. rewrite length_replicate.
    replace (Z.to_nat (j + i) - Nat.min (Z.to_nat j) (length l) - Z.to_nat i)%nat
      with 0%nat by lia.
    replace (Z.to_nat (i + 1)) with (S (Z.to_nat i)) by lia.
    rewrite replicate_S_end, <- app_assoc. f_equal.
    destruct (drop (Z.to_nat (j + i)) l) as [|x l'] eqn:E.
    { apply (f_equal length) in E. rewrite length_drop in E. simpl in E. lia. }
    simpl. f_equal. replace (Z.to_nat (j + i + 1)) with (Z.to_nat (j + i) + 1)%nat by lia.
    by rewrite <- drop_drop, E.
Qed.

Lemma fill_type_next (v n : Z) (pre rest : list Z) (st : support * sequence) :
  0 ≤ n ≤ Z.of_nat (length rest) →
  fill_type v n (Z.of_nat (length pre), pre ++ rest) st =
    (Done (Z.of_nat (length (pre ++ replicate (Z.to_nat n) v)),
           (pre ++ replicate (Z.to_nat n) v) ++ drop (Z.to_nat n) rest), st).
Proof.
  intros Hn. rewrite fill_type_run by (rewrite ?length_app; lia).
  rewrite Nat2Z.id, take_app_length, length_app, length_replicate.
  replace (Z.to_nat (Z.of_nat (length pre) + n)) with (length pre + Z.to_nat n)%nat by lia.
  rewrite drop_app_add', <- app_assoc by done. do 3 f_equal. lia.
Qed.

Lemma in_support_run {A} (m : cprog A) (a : A) (s s' : support) (q : sequence) :
  m s = (Done a, s') → in_support m (s, q) = (Done a, (s', q)).
Proof. intros E. unfold in_support, zoom. simpl. by rewrite E. Qed.

Lemma shuffle_turn_run (total i : Z) (l : list Z) (s : support) (q : sequence) :
  0 ≤ i < total - 1 → total ≤ INT_MAX → Z.of_nat (length l) = total →
  ∃ l' s', shuffle_turn total i l (s, q) = (Done l', (s', q)) ∧ l' ≡ₚ l.
Proof.
  intros Hi Ht Hl. unfold shuffle_turn.
  rewrite (bind_done _ _ _ _ _ (in_support_run rand_ _ s _ q eq_refl)).
  pose proof (rand_value_range (rand_calls s)) as Hr.
  rewrite int_rem_pos, bind_ret by (unfold RAND_MAX, INT_MAX in *; lia).
  set (rnd := rand_value (rand_calls s) mod (total - 1 - i + 1)).
  assert (0 ≤ rnd < total - i) as Hrnd.
  { pose proof (Z.mod_pos_bound (rand_value (rand_calls s)) (total - 1 - i + 1)). lia. }
  destruct (arr_get_lookup (F:=fault) (S:=support * sequence) l (rnd + i))
    as (y & Hy & ->); [lia|]. rewrite bind_ret.
  destruct (arr_get_lookup (F:=fault) (S:=support * sequence) l i)
    as (x & Hx & ->); [lia|]. rewrite bind_ret.
  rewrite arr_set_ok, bind_ret by lia.
  rewrite arr_set_ok by (rewrite length_insert; lia).
  eexists _, _; split; [reflexivity|]. by apply list_swap_Permutation.
Qed.

(** Filling an array of the right size gives the mix, whatever it held. *)
Lemma fills_run {B} (q : sequence) (k : Z * list Z → seqprog B) (st : support * sequence) :
  seq_ok q →
  (jl ← fill_type 0 (sq_no q) (0, sq_seq q);
   jl ← fill_type 1 (sq_py q) jl;
   jl ← fill_type 2 (sq_os q) jl;
   jl ← fill_type 3 (sq_dl q) jl;
   jl ← fill_type 4 (sq_sl q) jl; k jl) st = k (sq_total q, mix q) st.
Proof.
  intros (H0 & H1 & H2 & H3 & H4 & Ht & Hm & Hl).
  assert (∀ v n pre rest (k' : Z * list Z → seqprog B),
    0 ≤ n ≤ Z.of_nat (length rest) →
    (fill_type v n (Z.of_nat (length pre), pre ++ rest) ≫= k') st =
    k' (Z.of_nat (length (pre ++ replicate (Z.to_nat n) v)),
           (pre ++ replicate (Z.to_nat n) v) ++ drop (Z.to_nat n) rest) st) as Hstep.
  { intros. erewrite bind_done; [reflexivity|]. by apply fill_type_next. }
  change (0, sq_seq q) with (Z.of_nat (length (@nil Z)), [] ++ sq_seq q).
  rewrite !Hstep by (rewrite ?length_drop; lia).
  rewrite (nil_length_inv (drop (Z.to_nat (sq_sl q)) _)) by (rewrite !length_drop; lia).
  rewrite app_nil_r. simpl. unfold mix. rewrite <- !app_assoc.
  f_equal. f_equal. rewrite !length_app, !length_replicate. lia.
Qed.

Lemma shuffle_run (s : support) (q : sequence) :
  seq_ok q →
  ∃ s' l, shuffle (s, q) = (Done tt, (s', set_seq l q)) ∧ l ≡ₚ mix q.
Proof.
  intros Hok. unfold shuffle. erewrite bind_done by reflexivity. simpl.
  rewrite (fills_run q _ _ Hok). cbn [snd].
  destruct Hok as (H0 & H1 & H2 & H3 & H4 & Ht & Hm & Hl).
  assert (Z.of_nat (length (mix q)) = sq_total q) as Hmix.
  { unfold mix. rewrite !length_app, !length_replicate. lia. }
  destruct (decide (sq_total q ≤ 0)) as [Hz|Hz].
  { unfold for_lt. replace (Z.to_nat (sq_total q - 1 - 0)) with 0%nat by lia. cbn [for_n].
    rewrite bind_ret. eexists s, (mix q). done. }
  destruct (for_lt_run (F:=fault)
    (λ i l st, snd st = q ∧ l ≡ₚ mix q) (shuffle_turn (sq_total q))
    0 (sq_total q - 1) (mix q) (s, q)) as (l & [s' q'] & E & Hq & Hp).
  - lia.
  - done.
  - intros i l [s1 q1] Hi [Hq Hp]. simpl in Hq; subst q1.
    assert (Z.of_nat (length l) = sq_total q) as Hll by (rewrite Hp; done).
    destruct (shuffle_turn_run (sq_total q) i l s1 q Hi Hm Hll) as (l' & s' & E & Hp').
    exists l', (s', q). split; [done|]. split; [done|]. by rewrite Hp'.
  - rewrite (bind_done _ _ _ _ _ E). simpl in Hq. subst q'. exists s', l. done.
Qed.

(** ** Serving the sequence *)

Fixpoint draw_types (n : nat) : seqprog (list Z) :=
  match n with
  | O => mret []
  | S k => v ← seq_get; l ← draw_types k; mret (v :: l)
  end.

Lemma draw_types_app (m n : nat) (st : support * sequence) :
  draw_types (m + n) st = (l1 ← draw_types m; l2 ← draw_types n; mret (l1 ++ l2)) st.
Proof.
  revert st; induction m as [|m IH]; intros st; simpl.
  - unfold mbind, prog_bind, mret, prog_ret. by destruct (draw_types n st) as [[l|f] st'].
  - unfold mbind, prog_bind, mret, prog_ret in *.
    destruct (seq_get st) as [[v|f] st1]; [|done]. rewrite IH.
    destruct (draw_types m st1) as [[l1|f] st2]; [|done].
    by destruct (draw_types n st2) as [[l2|f] st3].
Qed.

Lemma seq_get_inside (s : support) (q : sequence) (v : Z) :
  0 ≤ sq_next_num q < sq_total q → sq_seq q !! Z.to_nat (sq_next_num q) = Some v →
  seq_get (s, q) = (Done v, (s, set_next_num (sq_next_num q + 1) q)).
Proof.
  intros Hn Hv. unfold seq_get. erewrite bind_done by reflexivity. cbn [snd].
  rewrite (proj2 (Z.leb_gt _ _)) by lia. rewrite bind_ret.
  unfold seq_serve. erewrite bind_done by reflexivity. cbn [snd].
  rewrite (arr_get_ok _ _ v) by (done || lia). done.
Qed.

Lemma draw_inside (n : nat) (s : support) (q : sequence) :
  Z.of_nat (length (sq_seq q)) = sq_total q → 0 ≤ sq_next_num q →
  sq_next_num q + Z.of_nat n ≤ sq_total q →
  draw_types n (s, q) =
    (Done (take n (drop (Z.to_nat (sq_next_num q)) (sq_seq q))),
     (s, set_next_num (sq_next_num q + Z.of_nat n) q)).
Proof.
  revert q; induction n as [|n IH]; intros q Hl H0 Hn; simpl.
  - rewrite Z.add_0_r. by destruct q.
  - destruct (lookup_lt_is_Some_2 (sq_seq q) (Z.to_nat (sq_next_num q))) as [v Hv]; [lia|].
    assert (0 ≤ sq_next_num q < sq_total q) as Hin by lia.
    rewrite (bind_done _ _ _ _ _ (seq_get_inside s q v Hin Hv)).
    pose proof (IH (set_next_num (sq_next_num q + 1) q)) as IH1. simpl in IH1.
    rewrite (bind_done _ _ _ _ _ (IH1 Hl ltac:(lia) ltac:(lia))).
    rewrite (drop_S _ _ _ Hv). simpl.
    replace (Z.to_nat (sq_next_num q + 1)) with (S (Z.to_nat (sq_next_num q))) by lia.
    unfold mret, prog_ret, set_next_num. simpl. do 3 f_equal. lia.
Qed.

(** Between two passes: the array is fresh, or the pass is used up. *)
Definition at_boundary (q : sequence) : Prop :=
  seq_ok q ∧ 0 < sq_total q ∧
  (sq_next_num q = 0 ∧ sq_seq q ≡ₚ mix q ∨ sq_next_num q = sq_total q).

Lemma seq_ok_set_seq (q : sequence) (l : list Z) (n : Z) :
  seq_ok q → l ≡ₚ mix q → seq_ok (set_next_num n (set_seq l q)).
Proof.
  intros (H0 & H1 & H2 & H3 & H4 & Ht & Hm & Hl) Hp. unfold seq_ok; simpl.
  repeat split; [done..|]. rewrite Hp. unfold mix.
  rewrite !length_app, !length_replicate. lia.
Qed.

(** The first call of a pass serves a fresh array. *)
Lemma pass_refresh (n : nat) (s : support) (q : sequence) :
  seq_ok q → sq_next_num q = sq_total q → 0 < sq_total q →
  ∃ s' l, l ≡ₚ mix q ∧
    draw_types (S n) (s, q) = draw_types (S n) (s', set_next_num 0 (set_seq l q)).
Proof.
  intros Hok Hn Ht. destruct (shuffle_run s q Hok) as (s' & l & E & Hp).
  exists s', l. split; [done|].
  assert (seq_get (s, q) = seq_serve (s', set_next_num 0 (set_seq l q))) as E1.
  { unfold seq_get. erewrite bind_done by reflexivity. cbn [snd].
    rewrite (proj2 (Z.leb_le _ _)) by lia.
    erewrite bind_done; [reflexivity|]. by rewrite (bind_done _ _ _ _ _ E). }
  assert (seq_get (s', set_next_num 0 (set_seq l q)) =
          seq_serve (s', set_next_num 0 (set_seq l q))) as E2.
  { unfold seq_get. erewrite bind_done by reflexivity. cbn [snd].
    by rewrite (proj2 (Z.leb_gt _ _)) by (simpl; lia). }
  cbn [draw_types]. unfold mbind, prog_bind. by rewrite E1, E2.
Qed.

Lemma pass_run (s : support) (q : sequence) :
  at_boundary q →
  ∃ l s' q', draw_types (Z.to_nat (sq_total q)) (s, q) = (Done l, (s', q')) ∧
    l ≡ₚ mix q ∧ same_mix q q' ∧ at_boundary q'.
Proof.
  assert (∀ s q, seq_ok q → 0 < sq_total q → sq_next_num q = 0 → sq_seq q ≡ₚ mix q →
    ∃ l s' q', draw_types (Z.to_nat (sq_total q)) (s, q) = (Done l, (s', q')) ∧
    l ≡ₚ mix q ∧ same_mix q q' ∧ at_boundary q') as Hfresh.
  { intros s1 q1 Hok Ht Hn Hp. pose proof Hok as (_ & _ & _ & _ & _ & _ & _ & Hl).
    rewrite draw_inside by lia. rewrite Hn. do 3 eexists; split; [reflexivity|].
    rewrite drop_0, take_ge by lia. split; [done|]. split; [done|].
    split; [done|]. split; [done|]. right. simpl. lia. }
  intros (Hok & Ht & [[Hn Hp]|Hn]); [by apply Hfresh|].
  destruct (Z.to_nat (sq_total q)) as [|k] eqn:Ek; [lia|].
  destruct (pass_refresh k s q Hok Hn Ht) as (s1 & l & Hp & ->). rewrite <- Ek.
  apply (Hfresh s1 (set_next_num 0 (set_seq l q))); [|done..].
  by apply seq_ok_set_seq.
Qed.

Lemma same_mix_mix (q q' : sequence) : same_mix q q' → mix q' = mix q.
Proof. intros (H0 & H1 & H2 & H3 & H4 & _). unfold mix. congruence. Qed.

Lemma seq_init_run (junk n p o d sl : Z) (s : support) (q : sequence) :
  0 ≤ n → 0 ≤ p → 0 ≤ o → 0 ≤ d → 0 ≤ sl → 0 < n + p + o + d + sl ≤ INT_MAX →
  ∃ s' q', seq_init junk n p o d sl (s, q) = (Done tt, (s', q')) ∧ at_boundary q' ∧
    sq_no q' = n ∧ sq_py q' = p ∧ sq_os q' = o ∧ sq_dl q' = d ∧ sq_sl q' = sl ∧
    sq_total q' = n + p + o + d + sl.
Proof.
  intros Hn Hp Ho Hd Hs Ht. unfold seq_init, int_add.
  rewrite int_of_ok, bind_ret, int_of_ok, bind_ret, int_of_ok, bind_ret, int_of_ok, bind_ret
    by (unfold INT_MIN, INT_MAX in *; lia).
  erewrite bind_done by reflexivity. cbn [fst snd].
  set (q1 := Sequence n p o d sl _ _ _).
  assert (seq_ok q1) as Hok.
  { unfold seq_ok, q1; simpl. rewrite length_replicate. lia. }
  destruct (shuffle_run s q1 Hok) as (s' & l & E & Hperm).
  rewrite (bind_done _ _ _ _ _ E).
  eexists s', _; split; [reflexivity|]. split; [|done].
  split; [by apply seq_ok_set_seq|]. split; [simpl; lia|]. by left.
Qed.
End sequence.

(** ** Properties *)

Section sequence_properties.
Context {Rs : RandSource}.

(** C30: after [seq_init(n, p, o, d, s)] every [n+p+o+d+s] consecutive calls of
    [seq_get] serve exactly n new-orders, p payments, o order-statuses, d
    deliveries and s stock-levels, in every pass and for every behaviour of
    [rand()]; no call reads outside the array. *)
Theorem seq_get_serves_mix (junk n p o d sl : Z) (k : nat) (s : support) (q : sequence) :
  0 ≤ n → 0 ≤ p → 0 ≤ o → 0 ≤ d → 0 ≤ sl → 0 < n + p + o + d + sl ≤ INT_MAX →
  ∃ l st', (seq_init junk n p o d sl;; draw_types (k * Z.to_nat (n + p + o + d + sl))) (s, q)
      = (Done l, st') ∧
    ∃ passes, l = concat passes ∧ length passes = k ∧
      Forall (λ pass, pass ≡ₚ
        replicate (Z.to_nat n) 0 ++ replicate (Z.to_nat p) 1 ++ replicate (Z.to_nat o) 2 ++
        replicate (Z.to_nat d) 3 ++ replicate (Z.to_nat sl) 4) passes.
Proof.
  intros Hn Hp Ho Hd Hs Ht.
  destruct (seq_init_run junk n p o d sl s q Hn Hp Ho Hd Hs Ht)
    as (s1 & q1 & E & Hb & H0 & H1 & H2 & H3 & H4 & H5).
  rewrite (bind_done _ _ _ _ _ E). clear E. rewrite <- H5.
  assert (mix q1 = replicate (Z.to_nat n) 0 ++ replicate (Z.to_nat p) 1 ++
    replicate (Z.to_nat o) 2 ++ replicate (Z.to_nat d) 3 ++ replicate (Z.to_nat sl) 4) as <-.
  { unfold mix. congruence. }
  clear -Hb. revert s1 q1 Hb. induction k as [|k IH]; intros s1 q1 Hb.
  - do 2 eexists; split; [reflexivity|]. exists []. done.
  - destruct (pass_run s1 q1 Hb) as (l1 & s2 & q2 & E1 & Hl1 & Hmix & Hb2).
    destruct (IH s2 q2 Hb2) as (l2 & st' & E2 & passes & -> & Hlen & Hall).
    pose proof Hmix as (_ & _ & _ & _ & _ & Htot).
    rewrite Htot in E2. rewrite (same_mix_mix _ _ Hmix) in Hall.
    cbn [Nat.mul]. rewrite draw_types_app, (bind_done _ _ _ _ _ E1), (bind_done _ _ _ _ _ E2).
    do 2 eexists; split; [reflexivity|]. exists (l1 :: passes). simpl.
    split; [done|]. split; [congruence|]. by constructor.
Qed.

End sequence_properties.

Lemma seq_get_serves_mix_witness :
  ∃ l st', (seq_init (Rs:=SupportRun.lcg) 0 10 10 1 1 1;; draw_types (Rs:=SupportRun.lcg)
      (2 * Z.to_nat (10 + 10 + 1 + 1 + 1))) (support_init, sequence_zero) = (Done l, st') ∧
    ∃ passes, l = concat passes ∧ length passes = 2%nat ∧
      Forall (λ pass, pass ≡ₚ
        replicate (Z.to_nat 10) 0 ++ replicate (Z.to_nat 10) 1 ++ replicate (Z.to_nat 1) 2 ++
        replicate (Z.to_nat 1) 3 ++ replicate (Z.to_nat 1) 4) passes.
Proof.
  apply (seq_get_serves_mix (Rs:=SupportRun.lcg) 0 10 10 1 1 1 2 support_init sequence_zero);
    unfold INT_MAX; lia.
Defined.
