(* ===== verification/TpccRthist.v ===== *)
(** * tpcc-mysql: rthist.c

    The response time histograms of the five transaction types: one counter per
    bucket for the running interval and one for the whole run. *)

From Stdlib Require Import ZArith Lia SpecFloat.
From stdpp Require Import base gmap list sorting numbers.
From S2P Require Import Prelude CFloat.

Definition MAXREC : Z := 20.
Definition REC_PER_SEC : Z := 1000.
Definition BUCKETS : Z := MAXREC * REC_PER_SEC.

(** The arrays of rthist.c and the maxima of main.c it updates. *)
Record hist : Type := Hist {
  total_hist : list (list Z);
  cur_hist : list (list Z);
  max_rt : list float64;
  cur_max_rt : list float64;
}.

Abbreviation histprog := (prog fault hist).

Definition set_total_hist (t : list (list Z)) (h : hist) : hist :=
  Hist t (cur_hist h) (max_rt h) (cur_max_rt h).
Definition set_cur_hist (c : list (list Z)) (h : hist) : hist :=
  Hist (total_hist h) c (max_rt h) (cur_max_rt h).
Definition set_cur_max_rt (m : list float64) (h : hist) : hist :=
  Hist (total_hist h) (cur_hist h) (max_rt h) m.
Definition set_max_rt (m : list float64) (h : hist) : hist :=
  Hist (total_hist h) (cur_hist h) m (cur_max_rt h).

(** [a[t][i]] and [a[t][i] = v] for a two dimensional array. *)
Definition cell_get (a : list (list Z)) (t i : Z) : histprog Z :=
  row ← arr_get a t; arr_get row i.
Definition cell_set (a : list (list Z)) (t i v : Z) : histprog (list (list Z)) :=
  row ← arr_get a t; row' ← arr_set row i v; arr_set a t row'.

Definition hist_init : histprog unit :=
  for_lt 0 5 (λ i _, for_lt 0 BUCKETS (λ j _,
    h ← getS;
    c ← cell_set (cur_hist h) i j 0;
    t ← cell_set (total_hist h) i j 0;
    modS (λ h, set_total_hist t (set_cur_hist c h))) tt) tt.

Definition hist_inc (transaction : Z) (rtclk : float64) : histprog unit :=
  i ← f_to_int (f64_mul rtclk (f64_of_Z REC_PER_SEC));
  let i := if BUCKETS <=? i then BUCKETS - 1 else i in
  h ← getS;
  m ← arr_get (cur_max_rt h) transaction;
  (if f_lt m rtclk
   then m' ← arr_set (cur_max_rt h) transaction rtclk; modS (set_cur_max_rt m')
   else mret tt);;
  x ← cell_get (cur_hist h) transaction i;
  x' ← int_add x 1;
  c ← cell_set (cur_hist h) transaction i x';
  modS (set_cur_hist c).

(** The body of the second loop of [hist_ckp]; the accumulator holds [tmp] and
    [line] with [line_set]. *)
Definition ckp_turn (transaction total i : Z) (acc : Z * (Z * bool))
  : histprog (Z * (Z * bool)) :=
  let '(tmp, (line, line_set)) := acc in
  h ← getS;
  x ← cell_get (cur_hist h) transaction i;
  tmp ← int_add tmp x;
  t ← cell_get (total_hist h) transaction i;
  t' ← int_add t x;
  th ← cell_set (total_hist h) transaction i t';
  ch ← cell_set (cur_hist h) transaction i 0;
  modS (λ h, set_total_hist th (set_cur_hist ch h));;
  p ← int_mul total 99;
  p ← int_div p 100;
  mret (tmp, if (p <=? tmp) && negb line_set then (i, true) else (line, line_set)).

Definition hist_ckp (transaction : Z) : histprog float64 :=
  total ← for_lt 0 BUCKETS (λ i total,
    h ← getS;
    x ← cell_get (cur_hist h) transaction i;
    int_add total x) 0;
  '(_, (line, _)) ← for_lt 0 BUCKETS (ckp_turn transaction total) (0, (BUCKETS, false));
  mret (f64_div (f64_of_Z line) (f64_of_Z REC_PER_SEC)).

(** What [hist_report] prints: a line per bucket, then the 90th percentile and
    the maximum of a transaction type. *)
Inductive report_item : Type :=
| Bucket (t i count : Z)
| Percentile90 (t line : Z) (max : float64).

(** The downward loop that finds [line[j]]; [i = BUCKETS - 1 - k]. *)
Definition report_line (j : Z) : histprog Z :=
  h ← getS;
  total ← for_lt 0 BUCKETS (λ i total,
    x ← cell_get (total_hist h) j i; int_add total x) 0;
  '(_, line) ← for_lt 0 BUCKETS (λ k '(tmp, line),
    let i := BUCKETS - 1 - k in
    x ← cell_get (total_hist h) j i;
    tmp ← int_add tmp x;
    m ← int_mul tmp 10;
    mret (tmp, if m <=? total then i else line)) (0, BUCKETS);
  mret line.

Definition hist_report : histprog (list report_item) :=
  h ← getS;
  lines ← for_lt 0 5 (λ j lines, line ← report_line j; mret (lines ++ [line])) [];
  buckets ← for_lt 0 5 (λ j out,
    line ← arr_get lines j;
    for_lt 0 (Z.min BUCKETS (line * 4 + 1)) (λ i out,
      x ← cell_get (total_hist h) j i; mret (out ++ [Bucket j i x])) out) [];
  for_lt 0 5 (λ j out,
    line ← arr_get lines j;
    m ← arr_get (max_rt h) j;
    mret (out ++ [Percentile90 j line m])) buckets.

(** ** Rows *)

(** A histogram whose arrays have the declared sizes and hold counts. *)
Definition row_ok (row : list Z) : Prop :=
  Z.of_nat (length row) = BUCKETS ∧ Forall (λ x, 0 ≤ x) row.

Definition hist_ok (h : hist) : Prop :=
  length (total_hist h) = 5%nat ∧ length (cur_hist h) = 5%nat ∧
  length (max_rt h) = 5%nat ∧ length (cur_max_rt h) = 5%nat ∧
  Forall row_ok (total_hist h) ∧ Forall row_ok (cur_hist h).

Lemma row_bounds (row : list Z) (n : nat) (x : Z) :
  row_ok row → row !! n = Some x →
  0 ≤ x ≤ zsum row ∧ 0 ≤ zsum (take n row) ∧
  zsum (take n row) + x = zsum (take (n + 1) row) ∧ zsum (take (n + 1) row) ≤ zsum row.
Proof.
  intros [_ Hpos] Hx. pose proof (lookup_lt_Some _ _ _ Hx).
  pose proof (zsum_take_S row _ x Hx) as HS. rewrite Nat.add_1_r.
  pose proof (zsum_take_le row (S n) (length row) Hpos ltac:(lia)) as Hle.
  rewrite firstn_all in Hle.
  pose proof (zsum_nonneg _ (Forall_take _ n _ Hpos)).
  rewrite Forall_lookup in Hpos. specialize (Hpos _ _ Hx). lia.
Qed.

(** The counts of one type. *)
Definition row_of (a : list (list Z)) (t : Z) : list Z := a !!! Z.to_nat t.

Lemma row_of_lookup (a : list (list Z)) (t : Z) :
  0 ≤ t < Z.of_nat (length a) → a !! Z.to_nat t = Some (row_of a t).
Proof.
  intros Ht. unfold row_of.
  destruct (lookup_lt_is_Some_2 a (Z.to_nat t)) as [r Hr]; [lia|].
  by rewrite (list_lookup_total_correct _ _ _ Hr).
Qed.

Lemma row_of_insert (a : list (list Z)) (t u : Z) (r : list Z) :
  0 ≤ t < Z.of_nat (length a) → 0 ≤ u →
  row_of (<[Z.to_nat t := r]> a) u = if decide (u = t) then r else row_of a u.
Proof.
  intros Ht Hu. unfold row_of. case_decide as E; subst.
  - rewrite list_lookup_total_insert_eq; [done|lia].
  - rewrite list_lookup_total_insert_ne; [done|lia].
Qed.

Lemma cell_get_run (a : list (list Z)) (t i x : Z) (h : hist) :
  0 ≤ t < Z.of_nat (length a) → 0 ≤ i → row_of a t !! Z.to_nat i = Some x →
  cell_get a t i h = (Done x, h).
Proof.
  intros Ht Hi Hx. unfold cell_get.
  rewrite (arr_get_ok a t (row_of a t)), bind_ret by (try apply row_of_lookup; lia).
  by rewrite (arr_get_ok _ i x).
Qed.

Lemma cell_set_run (a : list (list Z)) (t i v : Z) (h : hist) :
  0 ≤ t < Z.of_nat (length a) → 0 ≤ i < Z.of_nat (length (row_of a t)) →
  cell_set a t i v h = (Done (<[Z.to_nat t := <[Z.to_nat i := v]> (row_of a t)]> a), h).
Proof.
  intros Ht Hi. unfold cell_set.
  rewrite (arr_get_ok a t (row_of a t)), bind_ret by (try apply row_of_lookup; lia).
  rewrite arr_set_ok, bind_ret, arr_set_ok by lia. done.
Qed.

(** Summing a row from the first bucket on. *)
Lemma sum_loop_run (get : hist → list (list Z)) (t : Z) (h : hist) :
  0 ≤ t < Z.of_nat (length (get h)) → row_ok (row_of (get h) t) →
  zsum (row_of (get h) t) ≤ INT_MAX →
  for_lt 0 BUCKETS (λ i total,
    h ← getS; x ← cell_get (get h) t i; int_add total x) 0 h
  = (Done (zsum (row_of (get h) t)), h).
Proof.
  intros Ht Hrow Hmax. pose proof Hrow as [Hlen _]. set (row := row_of (get h) t) in *.
  destruct (for_lt_run (F:=fault)
    (λ i total h', h' = h ∧ total = zsum (take (Z.to_nat i) row))
    (λ i total, h ← getS; x ← cell_get (get h) t i; int_add total x)
    0 BUCKETS 0 h) as (a & h' & -> & -> & ->).
  - unfold BUCKETS, MAXREC, REC_PER_SEC. lia.
  - done.
  - intros i total h' Hi [-> ->]. erewrite bind_done by reflexivity.
    destruct (lookup_lt_is_Some_2 row (Z.to_nat i)) as [x Hx]; [lia|].
    rewrite (bind_done _ _ _ _ _ (cell_get_run _ t i x h Ht ltac:(lia) Hx)).
    unfold int_add. pose proof (row_bounds row _ x Hrow Hx) as (? & ? & HS & ?).
    rewrite int_of_ok by (unfold INT_MIN, INT_MAX in *; lia).
    eexists _, _; split; [reflexivity|]. split; [done|].
    replace (Z.to_nat (i + 1)) with (Z.to_nat i + 1)%nat by lia. done.
  - rewrite take_ge by lia. done.
Qed.

(** ** The checkpoint *)

(** [line] is the first bucket at which the running sum reaches [p]. *)
Definition first_reaching (p : Z) (row : list Z) (line : Z) : Prop :=
  0 ≤ line < Z.of_nat (length row) ∧
  p ≤ zsum (take (Z.to_nat line + 1) row) ∧
  ∀ k, 0 ≤ k < line → zsum (take (Z.to_nat k + 1) row) < p.

(** The search state after the buckets before [i]. *)
Definition line_state (p : Z) (row : list Z) (i : Z) (ls : Z * bool) : Prop :=
  if ls.2
  then ls.1 < i ∧ first_reaching p row ls.1
  else ls.1 = BUCKETS ∧ ∀ k, 0 ≤ k < i → zsum (take (Z.to_nat k + 1) row) < p.

Lemma line_state_step (p : Z) (row : list Z) (i line : Z) (set : bool) :
  0 ≤ i < Z.of_nat (length row) →
  line_state p row i (line, set) →
  line_state p row (i + 1)
    (if (p <=? zsum (take (Z.to_nat i + 1) row)) && negb set then (i, true) else (line, set)).
Proof.
  intros Hi Hs. unfold line_state in *. destruct set; simpl in *.
  - rewrite andb_false_r. simpl. split; [lia|]. by destruct Hs.
  - destruct Hs as [-> Hs]. rewrite andb_true_r. destruct (Z.leb_spec p
      (zsum (take (Z.to_nat i + 1) row))) as [Hle|Hgt]; simpl.
    + split; [lia|]. split; [lia|]. done.
    + split; [done|]. intros k Hk. destruct (decide (k = i)) as [->|]; [lia|].
      apply Hs. lia.
Qed.

(** The rows while the checkpoint moves the counts of type [t] over. *)
Definition ckp_rows (t i : Z) (crow trow : list Z) (h h' : hist) : Prop :=
  length (cur_hist h') = length (cur_hist h) ∧
  length (total_hist h') = length (total_hist h) ∧
  max_rt h' = max_rt h ∧ cur_max_rt h' = cur_max_rt h ∧
  row_of (cur_hist h') t = replicate (Z.to_nat i) 0 ++ drop (Z.to_nat i) crow ∧
  row_of (total_hist h') t =
    zip_with Z.add (take (Z.to_nat i) trow) (take (Z.to_nat i) crow) ++
    drop (Z.to_nat i) trow ∧
  ∀ u, 0 ≤ u → u ≠ t →
    row_of (cur_hist h') u = row_of (cur_hist h) u ∧
    row_of (total_hist h') u = row_of (total_hist h) u.

Lemma insert_at_prefix {A} (l1 l2 : list A) (n : nat) (x y : A) :
  length l1 = n → drop n l2 !! 0%nat = Some y →
  <[n := x]> (l1 ++ drop n l2) = (l1 ++ [x]) ++ drop (n + 1) l2.
Proof.
  intros Hl Hy. rewrite insert_app_r_alt by lia. rewrite Hl, Nat.sub_diag.
  rewrite <- app_assoc. f_equal. rewrite <- drop_drop.
  by destruct (drop n l2) as [|z l]; [done|].
Qed.

Lemma zip_take_S (l k : list Z) (n : nat) (a b : Z) :
  l !! n = Some a → k !! n = Some b →
  zip_with Z.add (take (n + 1) l) (take (n + 1) k) =
  zip_with Z.add (take n l) (take n k) ++ [a + b].
Proof.
  intros Ha Hb. rewrite !Nat.add_1_r, (take_S_r _ _ a Ha), (take_S_r _ _ b Hb).
  rewrite zip_with_app; [done|].
  rewrite !length_take. apply lookup_lt_Some in Ha, Hb. lia.
Qed.

Lemma ckp_rows_step (t i a b : Z) (crow trow : list Z) (h h' : hist) :
  0 ≤ t → t < Z.of_nat (length (cur_hist h)) → t < Z.of_nat (length (total_hist h)) →
  0 ≤ i → crow !! Z.to_nat i = Some b → trow !! Z.to_nat i = Some a →
  ckp_rows t i crow trow h h' →
  ckp_rows t (i + 1) crow trow h
    (set_total_hist
       (<[Z.to_nat t := <[Z.to_nat i := a + b]> (row_of (total_hist h') t)]> (total_hist h'))
       (set_cur_hist
         (<[Z.to_nat t := <[Z.to_nat i := 0]> (row_of (cur_hist h') t)]> (cur_hist h')) h')).
Proof.
  intros Ht Hc Htt Hi Hb Ha (Hlc & Hlt & Hm & Hcm & Hrc & Hrt & Hother).
  pose proof (lookup_lt_Some _ _ _ Hb). pose proof (lookup_lt_Some _ _ _ Ha).
  unfold ckp_rows; simpl. rewrite !length_insert.
  replace (Z.to_nat (i + 1)) with (Z.to_nat i + 1)%nat by lia.
  split_and!; [done..| | |].
  - rewrite row_of_insert, decide_True by (done || lia). rewrite Hrc.
    rewrite (insert_at_prefix _ _ _ _ b); [|by rewrite length_replicate|].
    + by rewrite <- replicate_S_end, <- (Nat.add_1_r (Z.to_nat i)).
    + by rewrite lookup_drop, Nat.add_0_r.
  - rewrite row_of_insert, decide_True by (done || lia). rewrite Hrt.
    rewrite (insert_at_prefix _ _ _ _ a); [| |].
    + by rewrite (zip_take_S _ _ _ a b).
    + rewrite length_zip_with, !length_take. lia.
    + by rewrite lookup_drop, Nat.add_0_r.
  - intros u Hu Hne. rewrite !row_of_insert, !decide_False by (done || lia).
    by apply Hother.
Qed.

Lemma ckp_turn_run (t i total : Z) (crow trow : list Z) (h h' : hist) (ls : Z * bool) :
  0 ≤ t → t < Z.of_nat (length (cur_hist h)) → t < Z.of_nat (length (total_hist h)) →
  0 ≤ i < BUCKETS → row_ok crow → row_ok trow →
  zsum crow + zsum trow ≤ INT_MAX → total = zsum crow → total * 99 ≤ INT_MAX →
  ckp_rows t i crow trow h h' → line_state (total * 99 / 100) crow i ls →
  ∃ acc' h'', ckp_turn t total i (zsum (take (Z.to_nat i) crow), ls) h' = (Done acc', h'') ∧
    acc'.1 = zsum (take (Z.to_nat (i + 1)) crow) ∧
    line_state (total * 99 / 100) crow (i + 1) acc'.2 ∧
    ckp_rows t (i + 1) crow trow h h''.
Proof.
  intros Ht Hc Htt Hi Hcrow Htrow Hsum Htot H99 Hrows Hls.
  pose proof Hcrow as [Hcl _]. pose proof Htrow as [Htl _].
  pose proof Hrows as (Hlc & Hlt & Hm & Hcm & Hrc & Hrt & Hother).
  destruct (lookup_lt_is_Some_2 crow (Z.to_nat i)) as [b Hb]; [lia|].
  destruct (lookup_lt_is_Some_2 trow (Z.to_nat i)) as [a Ha]; [lia|].
  pose proof (row_bounds crow _ b Hcrow Hb) as (? & ? & HS & ?).
  pose proof (row_bounds trow _ a Htrow Ha) as (? & ? & _ & ?).
  unfold ckp_turn. destruct ls as [line set].
  erewrite bind_done by reflexivity.
  assert (row_of (cur_hist h') t !! Z.to_nat i = Some b) as Gb.
  { rewrite Hrc, lookup_app_r, length_replicate, Nat.sub_diag, lookup_drop, Nat.add_0_r
      by (rewrite length_replicate; lia). done. }
  assert (row_of (total_hist h') t !! Z.to_nat i = Some a) as Ga.
  { rewrite Hrt. assert (length (zip_with Z.add (take (Z.to_nat i) trow)
      (take (Z.to_nat i) crow)) = Z.to_nat i) as L.
    { rewrite length_zip_with, !length_take. lia. }
    rewrite lookup_app_r, L, Nat.sub_diag, lookup_drop, Nat.add_0_r by lia. done. }
  pose proof (lookup_lt_Some _ _ _ Ga). pose proof (lookup_lt_Some _ _ _ Gb).
  rewrite (bind_done _ _ _ _ _ (cell_get_run (cur_hist h') t i b h' ltac:(lia) ltac:(lia) Gb)).
  unfold int_add. rewrite (int_of_ok (_ + b)), bind_ret by (unfold INT_MIN, INT_MAX in *; lia).
  rewrite (bind_done _ _ _ _ _ (cell_get_run (total_hist h') t i a h' ltac:(lia) ltac:(lia) Ga)).
  rewrite (int_of_ok (a + b)), bind_ret by (unfold INT_MIN, INT_MAX in *; lia).
  rewrite (bind_done _ _ _ _ _ (cell_set_run (total_hist h') t i (a + b) h' ltac:(lia) ltac:(lia))).
  rewrite (bind_done _ _ _ _ _ (cell_set_run (cur_hist h') t i 0 h' ltac:(lia) ltac:(lia))).
  erewrite bind_done by reflexivity.
  unfold int_mul. rewrite int_of_ok, bind_ret by (unfold INT_MIN, INT_MAX in *; lia).
  rewrite int_div_pos, bind_ret by (unfold INT_MIN, INT_MAX in *; lia).
  eexists _, _; split; [reflexivity|]. simpl.
  replace (Z.to_nat (i + 1)) with (Z.to_nat i + 1)%nat by lia.
  split; [done|]. rewrite HS. split.
  - refine (line_state_step _ _ _ _ _ _ Hls). lia.
  - apply ckp_rows_step; first [done | lia].
Qed.

(** ** Properties *)

Definition ckp_ready (t : Z) (h : hist) : Prop :=
  hist_ok h ∧ 0 ≤ t < 5 ∧
  zsum (row_of (cur_hist h) t) + zsum (row_of (total_hist h) t) ≤ INT_MAX.

Lemma ckp_ready_rows (t : Z) (h : hist) :
  ckp_ready t h →
  0 ≤ t < Z.of_nat (length (cur_hist h)) ∧ 0 ≤ t < Z.of_nat (length (total_hist h)) ∧
  row_ok (row_of (cur_hist h) t) ∧ row_ok (row_of (total_hist h) t).
Proof.
  intros [(Hlt & Hlc & _ & _ & Ht & Hc) [Hr _]].
  rewrite Hlt, Hlc. split; [lia|]. split; [lia|]. rewrite Forall_lookup in Ht, Hc.
  split; [eapply Hc | eapply Ht]; apply row_of_lookup; lia.
Qed.

Lemma ckp_total_run (t : Z) (h : hist) :
  ckp_ready t h →
  for_lt 0 BUCKETS (λ i total,
    h ← getS; x ← cell_get (cur_hist h) t i; int_add total x) 0 h
  = (Done (zsum (row_of (cur_hist h) t)), h).
Proof.
  intros Hr. destruct (ckp_ready_rows t h Hr) as (Hc & Ht & [Hcl Hcp] & [Htl Htp]).
  destruct Hr as (_ & _ & Hsum). apply (sum_loop_run cur_hist); [done|done|].
  pose proof (zsum_nonneg _ Htp). lia.
Qed.

(** The counts of type [t] have moved from the interval to the totals. *)
Definition ckp_moved (t : Z) (h h' : hist) : Prop :=
  length (cur_hist h') = length (cur_hist h) ∧
  length (total_hist h') = length (total_hist h) ∧
  max_rt h' = max_rt h ∧ cur_max_rt h' = cur_max_rt h ∧
  row_of (cur_hist h') t = replicate (Z.to_nat BUCKETS) 0 ∧
  row_of (total_hist h') t = zip_with Z.add (row_of (total_hist h) t) (row_of (cur_hist h) t) ∧
  ∀ u, 0 ≤ u → u ≠ t →
    row_of (cur_hist h') u = row_of (cur_hist h) u ∧
    row_of (total_hist h') u = row_of (total_hist h) u.

Lemma hist_ckp_run (t : Z) (h : hist) :
  ckp_ready t h → zsum (row_of (cur_hist h) t) * 99 ≤ INT_MAX →
  ∃ line h', hist_ckp t h = (Done (f64_div (f64_of_Z line) (f64_of_Z REC_PER_SEC)), h') ∧
    first_reaching (zsum (row_of (cur_hist h) t) * 99 / 100) (row_of (cur_hist h) t) line ∧
    ckp_moved t h h'.
Proof.
  intros Hr H99. destruct (ckp_ready_rows t h Hr) as (Hc & Ht & Hcrow & Htrow).
  pose proof Hr as (_ & _ & Hsum).
  set (crow := row_of (cur_hist h) t) in *. set (trow := row_of (total_hist h) t) in *.
  unfold hist_ckp. rewrite (bind_done _ _ _ _ _ (ckp_total_run t h Hr)).
  destruct (for_lt_run (F:=fault)
    (λ i acc h', acc.1 = zsum (take (Z.to_nat i) crow) ∧
       line_state (zsum crow * 99 / 100) crow i acc.2 ∧ ckp_rows t i crow trow h h')
    (ckp_turn t (zsum crow)) 0 BUCKETS (0, (BUCKETS, false)) h)
    as ([tmp [line set]] & h' & E & Htmp & Hls & Hrows).
  - unfold BUCKETS, MAXREC, REC_PER_SEC. lia.
  - split; [done|]. split; [split; [done|intros k Hk; lia]|].
    unfold ckp_rows. simpl. done.
  - intros i [tmp ls] h1 Hi (Htmp & Hls & Hrows). simpl in Htmp, Hls. subst tmp.
    apply ckp_turn_run; first [done | lia].
  - rewrite (bind_done _ _ _ _ _ E). destruct Hcrow as [Hcl Hcp], Htrow as [Htl Htp].
    destruct Hrows as (Hl1 & Hl2 & Hm1 & Hm2 & Hrc & Hrt & Hother). exists line, h'.
    rewrite !drop_ge, app_nil_r in Hrc by lia.
    rewrite !take_ge, drop_ge, app_nil_r in Hrt by lia.
    split; [done|]. split; [|done]. unfold line_state in Hls. simpl in Hls.
    destruct set; [by destruct Hls|]. destruct Hls as [_ Hls].
    specialize (Hls (BUCKETS - 1) ltac:(unfold BUCKETS, MAXREC, REC_PER_SEC; lia)).
    rewrite take_ge in Hls by lia. pose proof (zsum_nonneg _ Hcp). exfalso.
    assert (zsum crow * 99 / 100 ≤ zsum crow); [|lia]. apply Z.div_le_upper_bound; lia.
Qed.

(** The checkpoint of a transaction type returns the time of the first
    bucket at which the interval's counts reach 99% of their sum, adds the
    interval's counts to the totals bucket by bucket, clears the interval, and
    touches no other type. *)
Theorem hist_ckp_moves (t : Z) (h : hist) :
  ckp_ready t h → zsum (row_of (cur_hist h) t) * 99 ≤ INT_MAX →
  ∃ line h', hist_ckp t h = (Done (f64_div (f64_of_Z line) (f64_of_Z REC_PER_SEC)), h') ∧
    first_reaching (zsum (row_of (cur_hist h) t) * 99 / 100) (row_of (cur_hist h) t) line ∧
    row_of (cur_hist h') t = replicate (Z.to_nat BUCKETS) 0 ∧
    row_of (total_hist h') t =
      zip_with Z.add (row_of (total_hist h) t) (row_of (cur_hist h) t) ∧
    ∀ u, 0 ≤ u → u ≠ t →
      row_of (cur_hist h') u = row_of (cur_hist h) u ∧
      row_of (total_hist h') u = row_of (total_hist h) u.
Proof.
  intros Hr H99. destruct (hist_ckp_run t h Hr H99) as (line & h' & E & Hf & Hm).
  exists line, h'. split; [exact E|]. split; [exact Hf|]. by destruct Hm as (_ & _ & _ & _ & Hm).
Qed.

(** A checkpoint of an interval with more than [INT_MAX / 99] samples
    overflows the signed product [total*99]. *)
Theorem hist_ckp_overflows (t : Z) (h : hist) :
  ckp_ready t h → INT_MAX < zsum (row_of (cur_hist h) t) * 99 →
  fst (hist_ckp t h) = Leave (Undefined SignedOverflow).
Proof.
  intros Hr H99. destruct (ckp_ready_rows t h Hr) as (Hc & Ht & Hcrow & Htrow).
  pose proof Hr as (_ & _ & Hsum).
  set (crow := row_of (cur_hist h) t) in *. set (trow := row_of (total_hist h) t) in *.
  unfold hist_ckp. rewrite (bind_done _ _ _ _ _ (ckp_total_run t h Hr)).
  destruct (lookup_lt_is_Some_2 crow 0) as [b Hb].
  { destruct Hcrow as [Hl _]. unfold BUCKETS, MAXREC, REC_PER_SEC in Hl. lia. }
  destruct (lookup_lt_is_Some_2 trow 0) as [a Ha].
  { destruct Htrow as [Hl _]. unfold BUCKETS, MAXREC, REC_PER_SEC in Hl. lia. }
  pose proof (row_bounds crow _ b Hcrow Hb) as (? & ? & HS & ?).
  pose proof (row_bounds trow _ a Htrow Ha) as (? & ? & _ & ?).
  assert (∃ h', ckp_turn t (zsum crow) 0 (0, (BUCKETS, false)) h =
    (Leave (Undefined SignedOverflow), h')) as [h' E].
  { unfold ckp_turn. erewrite bind_done by reflexivity.
    rewrite (bind_done _ _ _ _ _ (cell_get_run (cur_hist h) t 0 b h Hc ltac:(lia) Hb)).
    unfold int_add. rewrite (int_of_ok (_ + b)), bind_ret by (unfold INT_MIN, INT_MAX in *; lia).
    rewrite (bind_done _ _ _ _ _ (cell_get_run (total_hist h) t 0 a h Ht ltac:(lia) Ha)).
    rewrite (int_of_ok (a + b)), bind_ret by (unfold INT_MIN, INT_MAX in *; lia).
    pose proof (lookup_lt_Some _ _ _ Ha). pose proof (lookup_lt_Some _ _ _ Hb).
    rewrite (bind_done _ _ _ _ _ (cell_set_run (total_hist h) t 0 (a + b) h Ht ltac:(fold trow; lia))).
    rewrite (bind_done _ _ _ _ _ (cell_set_run (cur_hist h) t 0 0 h Hc ltac:(fold crow; lia))).
    erewrite bind_done by reflexivity. unfold int_mul, int_of.
    replace (is_int (zsum crow * 99)) with false; [by eexists|].
    symmetry. apply not_true_iff_false. rewrite is_int_spec. lia. }
  unfold for_lt. change (Z.to_nat (BUCKETS - 0)) with (S (Z.to_nat (BUCKETS - 1))).
  rewrite for_n_S. fold crow. unfold mbind, prog_bind. by rewrite E.
Qed.

Lemma hist_inc_max_run (t : Z) (rt m : float64) (h : hist) :
  length (cur_max_rt h) = 5%nat → 0 ≤ t < 5 →
  ∃ h', (if f_lt m rt
         then m' ← arr_set (cur_max_rt h) t rt; modS (set_cur_max_rt m')
         else mret tt) h = (Done tt, h') ∧
    cur_hist h' = cur_hist h ∧ total_hist h' = total_hist h ∧
    cur_max_rt h' = if f_lt m rt then <[Z.to_nat t := rt]> (cur_max_rt h) else cur_max_rt h.
Proof.
  intros Hl Ht. destruct (f_lt m rt); [|by eexists].
  rewrite arr_set_ok, bind_ret by (rewrite Hl; lia). by eexists.
Qed.

Lemma hist_inc_run (t i : Z) (rt : float64) (h : hist) :
  hist_ok h → 0 ≤ t < 5 → f_trunc (f64_mul rt (f64_of_Z REC_PER_SEC)) = Some i →
  zsum (row_of (cur_hist h) t) < INT_MAX →
  let b := Z.to_nat (Z.min i (BUCKETS - 1)) in
  (0 ≤ i ≤ INT_MAX →
   ∃ h', hist_inc t rt h = (Done tt, h') ∧
     cur_hist h' = <[Z.to_nat t :=
        alter (Z.add 1) b (row_of (cur_hist h) t)]> (cur_hist h) ∧
     total_hist h' = total_hist h ∧
     cur_max_rt h' = alter (λ m, if f_lt m rt then rt else m) (Z.to_nat t) (cur_max_rt h)) ∧
  (i < 0 → INT_MIN ≤ i → fst (hist_inc t rt h) = Leave (Undefined OutOfBounds)) ∧
  (INT_MAX < i → fst (hist_inc t rt h) = Leave (Undefined BadConversion)).
Proof.
  intros (Hlt & Hlc & _ & Hlm & _ & Hc) Ht Hi Hmax b.
  destruct (lookup_lt_is_Some_2 (cur_max_rt h) (Z.to_nat t)) as [m Hm]; [lia|].
  assert (row_ok (row_of (cur_hist h) t)) as Hrow.
  { rewrite Forall_lookup in Hc. eapply Hc, row_of_lookup. lia. }
  destruct (hist_inc_max_run t rt m h Hlm Ht) as (h1 & E1 & Hch & Hth & Hcm).
  unfold hist_inc, f_to_int. rewrite Hi. split_and!.
  - intros Hr. rewrite (proj2 (is_int_spec i)), bind_ret by (unfold INT_MIN, INT_MAX in *; lia).
    erewrite bind_done by reflexivity.
    rewrite (arr_get_ok _ _ m), bind_ret by (done || lia).
    rewrite (bind_done _ _ _ _ _ E1).
    replace (if BUCKETS <=? i then BUCKETS - 1 else i) with (Z.min i (BUCKETS - 1))
      by (destruct (Z.leb_spec BUCKETS i); lia).
    assert (0 ≤ Z.min i (BUCKETS - 1) < BUCKETS) as Hb
      by (unfold BUCKETS, MAXREC, REC_PER_SEC in *; lia).
    destruct (lookup_lt_is_Some_2 (row_of (cur_hist h) t) b) as [x Hx].
    { destruct Hrow as [Hl _]. unfold b. lia. }
    pose proof (row_bounds _ _ _ Hrow Hx) as (? & _).
    rewrite (bind_done _ _ _ _ _ (cell_get_run (cur_hist h) t (Z.min i (BUCKETS - 1)) x h1
      ltac:(lia) ltac:(lia) Hx)).
    unfold int_add. rewrite int_of_ok, bind_ret by (unfold INT_MIN, INT_MAX in *; lia).
    pose proof Hrow as [Hl _].
    rewrite (bind_done _ _ _ _ _ (cell_set_run (cur_hist h) t (Z.min i (BUCKETS - 1)) (x + 1) h1
      ltac:(lia) ltac:(lia))).
    eexists; split; [reflexivity|]. simpl. split_and!; [|done|].
    + f_equal. rewrite (list_alter_as_insert _ _ _ x Hx). fold b. f_equal. lia.
    + rewrite Hcm, (list_alter_as_insert _ _ _ m Hm).
      destruct (f_lt m rt); [done|]. by rewrite list_insert_id.
  - intros Hneg Hmin. rewrite (proj2 (is_int_spec i)), bind_ret by (unfold INT_MAX in *; lia).
    erewrite bind_done by reflexivity.
    rewrite (arr_get_ok _ _ m), bind_ret by (done || lia).
    rewrite (bind_done _ _ _ _ _ E1), (proj2 (Z.leb_gt BUCKETS i)).
    2: { unfold BUCKETS, MAXREC, REC_PER_SEC. lia. }
    unfold cell_get. rewrite (arr_get_ok _ _ (row_of (cur_hist h) t))
      by (try apply row_of_lookup; lia).
    unfold arr_get. rewrite (proj2 (Z.ltb_lt i 0)) by lia. done.
  - intros Hbig. replace (is_int i) with false; [done|].
    symmetry. apply not_true_iff_false. rewrite is_int_spec. lia.
Qed.

(** Recording a response time that converts to the non negative integer [i]
    adds one to bucket [min(i, 19999)] of the type's interval histogram, raises
    the interval maximum exactly when the time exceeds it, and changes nothing
    else; a time whose product with 1000 does not fit an [int], or is negative,
    is undefined. *)
Theorem hist_inc_counts (t i : Z) (rt : float64) (h : hist) :
  hist_ok h → 0 ≤ t < 5 → f_trunc (f64_mul rt (f64_of_Z REC_PER_SEC)) = Some i →
  zsum (row_of (cur_hist h) t) < INT_MAX →
  let b := Z.to_nat (Z.min i (BUCKETS - 1)) in
  (0 ≤ i ≤ INT_MAX →
   ∃ h', hist_inc t rt h = (Done tt, h') ∧
     cur_hist h' = <[Z.to_nat t :=
        alter (Z.add 1) b (row_of (cur_hist h) t)]> (cur_hist h) ∧
     total_hist h' = total_hist h ∧
     cur_max_rt h' = alter (λ m, if f_lt m rt then rt else m) (Z.to_nat t) (cur_max_rt h)) ∧
  (i < 0 → INT_MIN ≤ i → fst (hist_inc t rt h) = Leave (Undefined OutOfBounds)) ∧
  (INT_MAX < i → fst (hist_inc t rt h) = Leave (Undefined BadConversion)).
Proof. apply hist_inc_run. Qed.

Lemma zsum_drop_S (l : list Z) (i : nat) (x : Z) :
  l !! i = Some x → zsum (drop i l) = x + zsum (drop (S i) l).
Proof. intros Hx. rewrite (drop_S _ _ _ Hx). done. Qed.

Lemma zsum_take_drop (l : list Z) (i : nat) : zsum (take i l) + zsum (drop i l) = zsum l.
Proof. rewrite <- zsum_app, take_drop. done. Qed.

(** The 90th percentile line of the final report is the lowest bucket such
    that at most a tenth of all samples lie in it or above it. *)
Theorem report_line_percentile (j : Z) (h : hist) :
  hist_ok h → 0 ≤ j < 5 → zsum (row_of (total_hist h) j) * 10 ≤ INT_MAX →
  let row := row_of (total_hist h) j in
  ∃ line, report_line j h = (Done line, h) ∧ 0 ≤ line ≤ BUCKETS ∧
    zsum (drop (Z.to_nat line) row) * 10 ≤ zsum row ∧
    (0 < line → zsum row < zsum (drop (Z.to_nat (line - 1)) row) * 10).
Proof.
  intros (Hlt & _ & _ & _ & Ht & _) Hj H10 row. fold row in H10.
  assert (row_ok row) as Hrow.
  { rewrite Forall_lookup in Ht. eapply Ht, row_of_lookup. lia. }
  pose proof Hrow as [Hl Hpos]. pose proof (zsum_nonneg _ Hpos) as H0.
  unfold report_line. erewrite bind_done by reflexivity.
  assert (for_lt 0 BUCKETS (λ i total, x ← cell_get (total_hist h) j i; int_add total x) 0 h =
    (Done (zsum row), h)) as E.
  { apply (sum_loop_run (λ _, total_hist h) j h); [lia|done|fold row; lia]. }
  rewrite (bind_done _ _ _ _ _ E). clear E.
  match goal with |- context [for_lt 0 BUCKETS ?f (0, BUCKETS)] =>
    destruct (for_lt_run (F:=fault)
      (λ k '(tmp, line) h', h' = h ∧ tmp = zsum (drop (Z.to_nat (BUCKETS - k)) row) ∧
         BUCKETS - k ≤ line ≤ BUCKETS ∧ zsum (drop (Z.to_nat line) row) * 10 ≤ zsum row ∧
         (BUCKETS - k < line → zsum row < zsum (drop (Z.to_nat (line - 1)) row) * 10))
      f 0 BUCKETS (0, BUCKETS) h) as ([tmp line] & h' & E & -> & _ & Hline & Hle & Hgt) end.
  - unfold BUCKETS, MAXREC, REC_PER_SEC. lia.
  - rewrite Z.sub_0_r, !drop_ge by lia. simpl. split_and!; [done..|lia|lia|lia|lia].
  - intros k [tmp line] h' Hk (-> & -> & Hline & Hle & Hgt). cbv zeta.
    set (i := BUCKETS - 1 - k) in *.
    destruct (lookup_lt_is_Some_2 row (Z.to_nat i)) as [x Hx]; [lia|].
    rewrite (bind_done _ _ _ _ _ (cell_get_run (total_hist h) j i x h ltac:(lia) ltac:(lia) Hx)).
    pose proof (zsum_drop_S row _ x Hx) as HS.
    replace (S (Z.to_nat i)) with (Z.to_nat (BUCKETS - k)) in HS by lia.
    pose proof (zsum_take_drop row (Z.to_nat i)).
    pose proof (zsum_nonneg _ (Forall_take _ (Z.to_nat i) _ Hpos)).
    pose proof (zsum_nonneg _ (Forall_drop _ (Z.to_nat i) _ Hpos)).
    unfold int_add, int_mul. rewrite int_of_ok, bind_ret, int_of_ok, bind_ret
      by (unfold INT_MIN, INT_MAX in *; lia).
    replace (zsum (drop (Z.to_nat (BUCKETS - k)) row) + x) with
      (zsum (drop (Z.to_nat i) row)) by lia.
    eexists _, _; split; [reflexivity|]. simpl.
    replace (BUCKETS - (k + 1)) with i by lia.
    destruct (Z.leb_spec (zsum (drop (Z.to_nat i) row) * 10) (zsum row)) as [Hc|Hc];
      split_and!; try done; try lia.
    intros _. destruct (decide (line = BUCKETS - k)) as [->|]; [|apply Hgt; lia].
    by replace (BUCKETS - k - 1) with i by lia.
  - rewrite (bind_done _ _ _ _ _ E). exists line. split; [done|].
    split_and!; [lia|lia|done|]. intros Hpos'. apply Hgt. lia.
Qed.

(** ** Witnesses *)

Definition hist_zero : hist :=
  Hist (replicate 5 (replicate (Z.to_nat BUCKETS) 0))
       (replicate 5 (replicate (Z.to_nat BUCKETS) 0))
       (replicate 5 (f64_of_Z 0)) (replicate 5 (f64_of_Z 0)).

(** One busy bucket in the interval of type 0. *)
Definition hist_busy (n : Z) : hist :=
  Hist (replicate 5 (replicate (Z.to_nat BUCKETS) 0))
       ((n :: replicate (Z.to_nat (BUCKETS - 1)) 0) ::
        replicate 4 (replicate (Z.to_nat BUCKETS) 0))
       (replicate 5 (f64_of_Z 0)) (replicate 5 (f64_of_Z 0)).

Lemma row_ok_replicate_0 : row_ok (replicate (Z.to_nat BUCKETS) 0).
Proof. split; [by rewrite length_replicate|]. apply Forall_replicate. lia. Qed.

Lemma hist_busy_ok (n : Z) : 0 ≤ n → hist_ok (hist_busy n).
Proof.
  intros Hn. unfold hist_ok. split_and!; try done.
  - apply Forall_replicate, row_ok_replicate_0.
  - constructor; [|apply Forall_replicate, row_ok_replicate_0]. split.
    + cbn [length]. rewrite length_replicate. unfold BUCKETS, MAXREC, REC_PER_SEC. lia.
    + constructor; [lia|]. apply Forall_replicate. lia.
Qed.

Lemma hist_busy_ready (n : Z) : 0 ≤ n ≤ INT_MAX → ckp_ready 0 (hist_busy n).
Proof.
  intros Hn. split; [apply hist_busy_ok; lia|]. split; [lia|].
  change (row_of (total_hist (hist_busy n)) 0) with (replicate (Z.to_nat BUCKETS) 0).
  change (row_of (cur_hist (hist_busy n)) 0) with (n :: replicate (Z.to_nat (BUCKETS - 1)) 0).
  cbn [zsum foldr]. fold (zsum (replicate (Z.to_nat (BUCKETS - 1)) 0)).
  rewrite !zsum_replicate_0. lia.
Qed.

Lemma hist_busy_sum (n : Z) : zsum (row_of (cur_hist (hist_busy n)) 0) = n.
Proof.
  change (row_of (cur_hist (hist_busy n)) 0) with (n :: replicate (Z.to_nat (BUCKETS - 1)) 0).
  cbn [zsum foldr]. fold (zsum (replicate (Z.to_nat (BUCKETS - 1)) 0)).
  rewrite zsum_replicate_0. lia.
Qed.

Lemma hist_ckp_moves_witness :
  ∃ line h', hist_ckp 0 (hist_busy 100) =
      (Done (f64_div (f64_of_Z line) (f64_of_Z REC_PER_SEC)), h') ∧
    row_of (cur_hist h') 0 = replicate (Z.to_nat BUCKETS) 0.
Proof.
  destruct (hist_ckp_moves 0 (hist_busy 100)) as (line & h' & E & _ & Hc & _).
  - apply hist_busy_ready. unfold INT_MAX. lia.
  - rewrite hist_busy_sum. unfold INT_MAX. lia.
  - exists line, h'. split; [exact E|exact Hc].
Defined.

Lemma hist_ckp_overflows_witness :
  fst (hist_ckp 0 (hist_busy 30000000)) = Leave (Undefined SignedOverflow).
Proof.
  apply (hist_ckp_overflows 0 (hist_busy 30000000)).
  - apply hist_busy_ready. unfold INT_MAX. lia.
  - rewrite hist_busy_sum. unfold INT_MAX. lia.
Defined.

Lemma hist_inc_counts_witness :
  ∃ h', hist_inc 0 (f64_of_Z 3) (hist_busy 5) = (Done tt, h') ∧
    total_hist h' = total_hist (hist_busy 5).
Proof.
  destruct (hist_inc_counts 0 3000 (f64_of_Z 3) (hist_busy 5)) as [H _].
  - apply hist_busy_ok. lia.
  - lia.
  - reflexivity.
  - rewrite hist_busy_sum. unfold INT_MAX. lia.
  - destruct H as (h' & E & _ & Ht & _); [unfold INT_MAX; lia|].
    exists h'. split; [exact E|exact Ht].
Defined.

Lemma report_line_percentile_witness :
  ∃ line, report_line 0 (hist_busy 5) = (Done line, hist_busy 5) ∧ 0 ≤ line ≤ BUCKETS.
Proof.
  destruct (report_line_percentile 0 (hist_busy 5)) as (line & E & Hl & _).
  - apply hist_busy_ok. lia.
  - lia.
  - change (row_of (total_hist (hist_busy 5)) 0) with (replicate (Z.to_nat BUCKETS) 0).
    rewrite zsum_replicate_0. unfold INT_MAX. lia.
  - exists line. split; [exact E|exact Hl].
Defined.
