(* ===== verification/TpccSql.v ===== *)
(** * tpcc-mysql: the database, its statements and the client interface

    The tables of create_table.sql, the prepared statements of main.c (Q0..Q34)
    and load.c (L0..L10), and the MySQL client calls the programs make.  The
    server is not part of the sources: what the code relies on is the class
    [MySQLLaws]; the conversions and comparisons the server chooses are the
    class [SqlServer]. *)

From Stdlib Require Import ZArith Lia SpecFloat Ascii String.
From stdpp Require Import base gmap list strings sorting numbers.
From S2P Require Import Prelude CFloat.

(** ** Tables

    A table is a finite map from its primary key; money and rates are held in
    hundredths ([DECIMAL(_,2)]).  Only [o_carrier_id] and [ol_delivery_d] are
    ever NULL: every INSERT gives the other columns a value. *)

Record warehouse_row : Type := WarehouseRow {
  w_name : cstr; w_street_1 : cstr; w_street_2 : cstr; w_city : cstr;
  w_state : cstr; w_zip : cstr; w_tax : Z; w_ytd : Z }.

Record district_row : Type := DistrictRow {
  d_name : cstr; d_street_1 : cstr; d_street_2 : cstr; d_city : cstr;
  d_state : cstr; d_zip : cstr; d_tax : Z; d_ytd : Z; d_next_o_id : Z }.

Record customer_row : Type := CustomerRow {
  c_first : cstr; c_middle : cstr; c_last : cstr; c_street_1 : cstr;
  c_street_2 : cstr; c_city : cstr; c_state : cstr; c_zip : cstr;
  c_phone : cstr; c_since : cstr; c_credit : cstr; c_credit_lim : Z;
  c_discount : Z; c_balance : Z; c_ytd_payment : Z; c_payment_cnt : Z;
  c_delivery_cnt : Z; c_data : cstr }.

Record history_row : Type := HistoryRow {
  h_c_id : Z; h_c_d_id : Z; h_c_w_id : Z; h_d_id : Z; h_w_id : Z;
  h_date : cstr; h_amount : Z; h_data : cstr }.

Record order_row : Type := OrderRow {
  o_c_id : Z; o_entry_d : cstr; o_carrier_id : option Z; o_ol_cnt : Z;
  o_all_local : Z }.

Record order_line_row : Type := OrderLineRow {
  ol_i_id : Z; ol_supply_w_id : Z; ol_delivery_d : option cstr;
  ol_quantity : Z; ol_amount : Z; ol_dist_info : cstr }.

Record item_row : Type := ItemRow {
  i_im_id : Z; i_name : cstr; i_price : Z; i_data : cstr }.

Record stock_row : Type := StockRow {
  s_quantity : Z; s_dist : list cstr; s_ytd : Z; s_order_cnt : Z;
  s_remote_cnt : Z; s_data : cstr }.

(** Keys: warehouse [w]; district [(w,d)]; customer [(w,d,c)]; orders and
    new_orders [(w,d,o)]; order_line [(w,d,o,number)]; item [i]; stock [(w,i)]. *)
Record db : Type := Db {
  warehouse : gmap Z warehouse_row;
  district : gmap (Z * Z) district_row;
  customer : gmap (Z * Z * Z) customer_row;
  history : list history_row;
  new_orders : gset (Z * Z * Z);
  orders : gmap (Z * Z * Z) order_row;
  order_line : gmap (Z * Z * Z * Z) order_line_row;
  item : gmap Z item_row;
  stock : gmap (Z * Z) stock_row;
}.

Definition db_empty : db := Db ∅ ∅ ∅ [] ∅ ∅ ∅ ∅ ∅.

Definition set_warehouse x (b : db) : db := Db x (district b) (customer b) (history b)
  (new_orders b) (orders b) (order_line b) (item b) (stock b).
Definition set_district x (b : db) : db := Db (warehouse b) x (customer b) (history b)
  (new_orders b) (orders b) (order_line b) (item b) (stock b).
Definition set_customer x (b : db) : db := Db (warehouse b) (district b) x (history b)
  (new_orders b) (orders b) (order_line b) (item b) (stock b).
Definition set_history x (b : db) : db := Db (warehouse b) (district b) (customer b) x
  (new_orders b) (orders b) (order_line b) (item b) (stock b).
Definition set_new_orders x (b : db) : db := Db (warehouse b) (district b) (customer b)
  (history b) x (orders b) (order_line b) (item b) (stock b).
Definition set_orders x (b : db) : db := Db (warehouse b) (district b) (customer b)
  (history b) (new_orders b) x (order_line b) (item b) (stock b).
Definition set_order_line x (b : db) : db := Db (warehouse b) (district b) (customer b)
  (history b) (new_orders b) (orders b) x (item b) (stock b).
Definition set_item x (b : db) : db := Db (warehouse b) (district b) (customer b)
  (history b) (new_orders b) (orders b) (order_line b) x (stock b).
Definition set_stock x (b : db) : db := Db (warehouse b) (district b) (customer b)
  (history b) (new_orders b) (orders b) (order_line b) (item b) x.

Definition set_d_next (n : Z) (r : district_row) : district_row :=
  DistrictRow (d_name r) (d_street_1 r) (d_street_2 r) (d_city r) (d_state r) (d_zip r)
    (d_tax r) (d_ytd r) n.
Definition add_d_ytd (a : Z) (r : district_row) : district_row :=
  DistrictRow (d_name r) (d_street_1 r) (d_street_2 r) (d_city r) (d_state r) (d_zip r)
    (d_tax r) (d_ytd r + a) (d_next_o_id r).
Definition add_w_ytd (a : Z) (r : warehouse_row) : warehouse_row :=
  WarehouseRow (w_name r) (w_street_1 r) (w_street_2 r) (w_city r) (w_state r) (w_zip r)
    (w_tax r) (w_ytd r + a).
Definition set_s_quantity (q : Z) (r : stock_row) : stock_row :=
  StockRow q (s_dist r) (s_ytd r) (s_order_cnt r) (s_remote_cnt r) (s_data r).
Definition set_carrier (k : Z) (r : order_row) : order_row :=
  OrderRow (o_c_id r) (o_entry_d r) (Some k) (o_ol_cnt r) (o_all_local r).
Definition set_delivery_d (t : cstr) (r : order_line_row) : order_line_row :=
  OrderLineRow (ol_i_id r) (ol_supply_w_id r) (Some t) (ol_quantity r) (ol_amount r)
    (ol_dist_info r).
Definition set_customer_account (balance : Z) (data : cstr) (dcnt : Z) (r : customer_row)
  : customer_row :=
  CustomerRow (c_first r) (c_middle r) (c_last r) (c_street_1 r) (c_street_2 r) (c_city r)
    (c_state r) (c_zip r) (c_phone r) (c_since r) (c_credit r) (c_credit_lim r)
    (c_discount r) balance (c_ytd_payment r) (c_payment_cnt r) dcnt data.

(** ** Values and statements *)

Inductive sql_val : Type :=
| VInt (z : Z)
| VFloat (f : float32)
| VStr (s : cstr)
| VNull.

#[export] Instance sql_val_eq_dec : EqDecision sql_val.
Proof. solve_decision. Defined.

Abbreviation row := (list sql_val).

(** The statements, by their index in [stmt[t_num]] of tpcc_start (Q) and in
    [stmt] of tpcc_load (L). *)
Inductive stmt : Type :=
| Q0 | Q1 | Q2 | Q3 | Q4 | Q5 | Q6 | Q7 | Q8 | Q9 | Q10 | Q11 | Q12 | Q13 | Q14 | Q15
| Q16 | Q17 | Q18 | Q19 | Q20 | Q21 | Q22 | Q23 | Q24 | Q25 | Q26 | Q27 | Q28 | Q29
| Q30 | Q31 | Q32 | Q33 | Q34
| L0 | L1 | L2 | L3 | L4 | L5 | L6 | L7 | L8 | L9 | L10.

#[export] Instance stmt_eq_dec : EqDecision stmt.
Proof. solve_decision. Defined.

(** What the server decides: how a DECIMAL becomes a float and a float becomes
    hundredths, and how strings compare under the column collation. *)
Class SqlServer := {
  dec_of_float : float32 → Z;
  float_of_dec : Z → float32;
  str_eq : cstr → cstr → bool;
  str_le : cstr → cstr → bool;
}.

Section sql.
Context {Sv : SqlServer}.

(** *** Queries *)

(** The customers of a district with a last name. *)
Definition customers_named (b : db) (w d : Z) (last : cstr) : list (Z * customer_row) :=
  omap (λ '((w', d', c), r),
    if (w' =? w) && (d' =? d) && str_eq (c_last r) last then Some (c, r) else None)
    (map_to_list (customer b)).

(** The lines of an order. *)
Definition lines_of (b : db) (w d o : Z) : list (Z * order_line_row) :=
  omap (λ '((w', d', o', n), r),
    if (w' =? w) && (d' =? d) && (o' =? o) then Some (n, r) else None)
    (map_to_list (order_line b)).

(** The ids waiting in new_orders for a district. *)
Definition pending_orders (b : db) (w d : Z) : list Z :=
  omap (λ '(w', d', o), if (w' =? w) && (d' =? d) then Some o else None)
    (elements (new_orders b)).

(** The orders of a customer. *)
Definition orders_of (b : db) (w d c : Z) : list (Z * order_row) :=
  omap (λ '((w', d', o), r),
    if (w' =? w) && (d' =? d) && (o_c_id r =? c) then Some (o, r) else None)
    (map_to_list (orders b)).

(** The distinct items of the orders [from - 20 <= o < next] of a district. *)
Definition recent_items (b : db) (w d next from : Z) : list Z :=
  remove_dups (omap (λ '((w', d', o, n), r),
    if (w' =? w) && (d' =? d) && (o <? next) && (from - 20 <=? o)
    then Some (ol_i_id r) else None)
    (map_to_list (order_line b))).

(** [COALESCE(MIN(x),0)] and [MAX(x)]. *)
Definition min_or_0 (l : list Z) : Z :=
  match l with [] => 0 | x :: l => foldr Z.min x l end.
Definition max_of (l : list Z) : option Z :=
  match l with [] => None | x :: l => Some (foldr Z.max x l) end.

Definition dec_sum (l : list Z) : Z := foldr Z.add 0 l.

(** The rows a query returns, in the order the map lists them. *)
Definition sql_select (s : stmt) (ps : row) (b : db) : list row :=
  match s, ps with
  | Q0, [VInt w; VInt d; VInt c] =>
      match warehouse b !! w, customer b !! (w, d, c) with
      | Some wr, Some cr =>
          [[VFloat (float_of_dec (c_discount cr)); VStr (c_last cr); VStr (c_credit cr);
            VFloat (float_of_dec (w_tax wr))]]
      | _, _ => []
      end
  | Q1, [VInt d; VInt w] =>
      match district b !! (w, d) with
      | Some r => [[VInt (d_next_o_id r); VFloat (float_of_dec (d_tax r))]]
      | None => []
      end
  | Q5, [VInt i] =>
      match item b !! i with
      | Some r => [[VFloat (float_of_dec (i_price r)); VStr (i_name r); VStr (i_data r)]]
      | None => []
      end
  | Q6, [VInt i; VInt w] =>
      match stock b !! (w, i) with
      | Some r => [VInt (s_quantity r) :: VStr (s_data r) :: map VStr (s_dist r)]
      | None => []
      end
  | Q10, [VInt w] =>
      match warehouse b !! w with
      | Some r => [[VStr (w_street_1 r); VStr (w_street_2 r); VStr (w_city r);
                    VStr (w_state r); VStr (w_zip r); VStr (w_name r)]]
      | None => []
      end
  | Q12, [VInt w; VInt d] =>
      match district b !! (w, d) with
      | Some r => [[VStr (d_street_1 r); VStr (d_street_2 r); VStr (d_city r);
                    VStr (d_state r); VStr (d_zip r); VStr (d_name r)]]
      | None => []
      end
  | Q13, [VInt w; VInt d; VStr last] | Q20, [VInt w; VInt d; VStr last] =>
      [[VInt (Z.of_nat (length (customers_named b w d last)))]]
  | Q14, [VInt w; VInt d; VStr last] =>
      map (λ '(c, _), [VInt c]) (customers_named b w d last)
  | Q15, [VInt w; VInt d; VInt c] =>
      match customer b !! (w, d, c) with
      | Some r => [[VStr (c_first r); VStr (c_middle r); VStr (c_last r); VStr (c_street_1 r);
                    VStr (c_street_2 r); VStr (c_city r); VStr (c_state r); VStr (c_zip r);
                    VStr (c_phone r); VStr (c_credit r); VInt (c_credit_lim r);
                    VFloat (float_of_dec (c_discount r)); VFloat (float_of_dec (c_balance r));
                    VStr (c_since r)]]
      | None => []
      end
  | Q16, [VInt w; VInt d; VInt c] =>
      match customer b !! (w, d, c) with
      | Some r => [[VStr (c_data r)]]
      | None => []
      end
  | Q21, [VInt w; VInt d; VStr last] =>
      map (λ '(_, r), [VFloat (float_of_dec (c_balance r)); VStr (c_first r);
                       VStr (c_middle r); VStr (c_last r)]) (customers_named b w d last)
  | Q22, [VInt w; VInt d; VInt c] =>
      match customer b !! (w, d, c) with
      | Some r => [[VFloat (float_of_dec (c_balance r)); VStr (c_first r);
                    VStr (c_middle r); VStr (c_last r)]]
      | None => []
      end
  | Q23, [VInt w; VInt d; VInt c; VInt w'; VInt d'; VInt c'] =>
      match max_of (map fst (orders_of b w' d' c')) with
      | Some o =>
          match orders b !! (w, d, o) with
          | Some r =>
              if o_c_id r =? c
              then [[VInt o; VStr (o_entry_d r); VInt (default 0 (o_carrier_id r))]]
              else []
          | None => []
          end
      | None => []
      end
  | Q24, [VInt w; VInt d; VInt o] =>
      map (λ '(_, r), [VInt (ol_i_id r); VInt (ol_supply_w_id r); VInt (ol_quantity r);
                       VFloat (float_of_dec (ol_amount r));
                       match ol_delivery_d r with Some t => VStr t | None => VNull end])
        (lines_of b w d o)
  | Q25, [VInt d; VInt w] => [[VInt (min_or_0 (pending_orders b w d))]]
  | Q27, [VInt o; VInt d; VInt w] =>
      match orders b !! (w, d, o) with
      | Some r => [[VInt (o_c_id r)]]
      | None => []
      end
  | Q30, [VInt o; VInt d; VInt w] =>
      match lines_of b w d o with
      | [] => [[VNull]]
      | l => [[VFloat (float_of_dec (dec_sum (map (λ '(_, r), ol_amount r) l)))]]
      end
  | Q32, [VInt d; VInt w] =>
      match district b !! (w, d) with
      | Some r => [[VInt (d_next_o_id r)]]
      | None => []
      end
  | Q33, [VInt w; VInt d; VInt next; VInt from] =>
      map (λ i, [VInt i]) (recent_items b w d next from)
  | Q34, [VInt w; VInt i; VInt level] =>
      [[VInt (match stock b !! (w, i) with
              | Some r => if s_quantity r <? level then 1 else 0
              | None => 0
              end)]]
  | _, _ => []
  end.

(** The rows the server may return: [ORDER BY c_first] fixes the order up to
    equal names, the other multi-row queries fix none. *)
Definition sql_rows (s : stmt) (ps : row) (b : db) (rows : list row) : Prop :=
  match s, ps with
  | Q14, [VInt w; VInt d; VStr last] =>
      ∃ l, l ≡ₚ customers_named b w d last ∧
        Sorted (λ x y, str_le (c_first x.2) (c_first y.2) = true) l ∧
        rows = map (λ '(c, _), [VInt c]) l
  | Q21, [VInt w; VInt d; VStr last] =>
      ∃ l, l ≡ₚ customers_named b w d last ∧
        Sorted (λ x y, str_le (c_first x.2) (c_first y.2) = true) l ∧
        rows = map (λ '(_, r), [VFloat (float_of_dec (c_balance r)); VStr (c_first r);
                                VStr (c_middle r); VStr (c_last r)]) l
  | Q24, _ | Q33, _ => rows ≡ₚ sql_select s ps b
  | _, _ => rows = sql_select s ps b
  end.

(** *** Updates *)

(** INSERT: an error when the primary key is taken. *)
Definition insert_row {K R} `{Countable K} (k : K) (r : R) (m : gmap K R)
  : option (gmap K R) :=
  match m !! k with Some _ => None | None => Some (<[k := r]> m) end.

(** The new contents, [None] when the server reports an error; a query changes
    nothing. *)
Definition sql_update (s : stmt) (ps : row) (b : db) : option db :=
  match s, ps with
  | Q2, [VInt n; VInt d; VInt w] =>
      Some (set_district (alter (set_d_next (n + 1)) (w, d) (district b)) b)
  | Q3, [VInt o; VInt d; VInt w; VInt c; VStr entry; VInt cnt; VInt all_local] =>
      m ← insert_row (w, d, o) (OrderRow c entry None cnt all_local) (orders b);
      Some (set_orders m b)
  | Q4, [VInt o; VInt d; VInt w] | L7, [VInt o; VInt d; VInt w] =>
      if decide ((w, d, o) ∈ new_orders b) then None
      else Some (set_new_orders ({[(w, d, o)]} ∪ new_orders b) b)
  | Q7, [VInt q; VInt i; VInt w] =>
      Some (set_stock (alter (set_s_quantity q) (w, i) (stock b)) b)
  | Q8, [VInt o; VInt d; VInt w; VInt n; VInt i; VInt sw; VInt q; VFloat amt; VStr info] =>
      m ← insert_row (w, d, o, n) (OrderLineRow i sw None q (dec_of_float amt) info)
            (order_line b);
      Some (set_order_line m b)
  | Q9, [VFloat a; VInt w] =>
      Some (set_warehouse (alter (add_w_ytd (dec_of_float a)) w (warehouse b)) b)
  | Q11, [VFloat a; VInt w; VInt d] =>
      Some (set_district (alter (add_d_ytd (dec_of_float a)) (w, d) (district b)) b)
  | Q17, [VFloat bal; VStr data; VInt w; VInt d; VInt c] =>
      Some (set_customer (alter (λ r,
        set_customer_account (dec_of_float bal) data (c_delivery_cnt r) r)
        (w, d, c) (customer b)) b)
  | Q18, [VFloat bal; VInt w; VInt d; VInt c] =>
      Some (set_customer (alter (λ r,
        set_customer_account (dec_of_float bal) (c_data r) (c_delivery_cnt r) r)
        (w, d, c) (customer b)) b)
  | Q19, [VInt cd; VInt cw; VInt c; VInt d; VInt w; VStr date; VFloat a; VStr data] =>
      Some (set_history (history b ++ [HistoryRow c cd cw d w date (dec_of_float a) data]) b)
  | Q26, [VInt o; VInt d; VInt w] =>
      Some (set_new_orders (new_orders b ∖ {[(w, d, o)]}) b)
  | Q28, [VInt k; VInt o; VInt d; VInt w] =>
      Some (set_orders (alter (set_carrier k) (w, d, o) (orders b)) b)
  | Q29, [VStr t; VInt o; VInt d; VInt w] =>
      Some (set_order_line (map_imap (λ '(w', d', o', n) r,
        Some (if (w' =? w) && (d' =? d) && (o' =? o) then set_delivery_d t r else r))
        (order_line b)) b)
  | Q31, [VFloat a; VInt c; VInt d; VInt w] =>
      Some (set_customer (alter (λ r,
        set_customer_account (c_balance r + dec_of_float a) (c_data r)
          (c_delivery_cnt r + 1) r)
        (w, d, c) (customer b)) b)
  | L0, [VInt i; VInt im; VStr name; VFloat price; VStr data] =>
      m ← insert_row i (ItemRow im name (dec_of_float price) data) (item b);
      Some (set_item m b)
  | L1, [VInt w; VStr name; VStr s1; VStr s2; VStr city; VStr state; VStr zip;
         VFloat tax; VFloat ytd] =>
      m ← insert_row w (WarehouseRow name s1 s2 city state zip (dec_of_float tax)
            (dec_of_float ytd)) (warehouse b);
      Some (set_warehouse m b)
  | L2, [VInt i; VInt w; VInt q; VStr x1; VStr x2; VStr x3; VStr x4; VStr x5; VStr x6;
         VStr x7; VStr x8; VStr x9; VStr x10; VStr data] =>
      m ← insert_row (w, i) (StockRow q [x1; x2; x3; x4; x5; x6; x7; x8; x9; x10] 0 0 0 data)
            (stock b);
      Some (set_stock m b)
  | L3, [VInt d; VInt w; VStr name; VStr s1; VStr s2; VStr city; VStr state; VStr zip;
         VFloat tax; VFloat ytd; VInt next] =>
      m ← insert_row (w, d) (DistrictRow name s1 s2 city state zip (dec_of_float tax)
            (dec_of_float ytd) next) (district b);
      Some (set_district m b)
  | L4, [VInt c; VInt d; VInt w; VStr first; VStr middle; VStr last; VStr s1; VStr s2;
         VStr city; VStr state; VStr zip; VStr phone; VStr since; VStr credit; VInt lim;
         VFloat disc; VFloat bal; VStr data] =>
      m ← insert_row (w, d, c) (CustomerRow first middle last s1 s2 city state zip phone
            since credit lim (dec_of_float disc) (dec_of_float bal) 1000 1 0 data)
            (customer b);
      Some (set_customer m b)
  | L5, [VInt c; VInt cd; VInt cw; VInt d; VInt w; VStr date; VFloat a; VStr data] =>
      Some (set_history (history b ++ [HistoryRow c cd cw d w date (dec_of_float a) data]) b)
  | L6, [VInt o; VInt d; VInt w; VInt c; VStr entry; VInt cnt] =>
      m ← insert_row (w, d, o) (OrderRow c entry None cnt 1) (orders b);
      Some (set_orders m b)
  | L8, [VInt o; VInt d; VInt w; VInt c; VStr entry; VInt k; VInt cnt] =>
      m ← insert_row (w, d, o) (OrderRow c entry (Some k) cnt 1) (orders b);
      Some (set_orders m b)
  | L9, [VInt o; VInt d; VInt w; VInt n; VInt i; VInt sw; VInt q; VFloat amt; VStr info] =>
      m ← insert_row (w, d, o, n) (OrderLineRow i sw None q (dec_of_float amt) info)
            (order_line b);
      Some (set_order_line m b)
  | L10, [VInt o; VInt d; VInt w; VInt n; VInt i; VInt sw; VStr t; VInt q; VFloat amt;
          VStr info] =>
      m ← insert_row (w, d, o, n) (OrderLineRow i sw (Some t) q (dec_of_float amt) info)
            (order_line b);
      Some (set_order_line m b)
  | Q0, _ | Q1, _ | Q5, _ | Q6, _ | Q10, _ | Q12, _ | Q13, _ | Q14, _ | Q15, _ | Q16, _
  | Q20, _ | Q21, _ | Q22, _ | Q23, _ | Q24, _ | Q25, _ | Q27, _ | Q30, _ | Q32, _
  | Q33, _ | Q34, _ => Some b
  | _, _ => None
  end.
End sql.

(** ** The client interface

    The calls of libmysqlclient the programs make on a connection; [true] is the
    non zero return code. *)

Inductive fetch_result : Type :=
| FetchRow (truncated : bool) (r : row)
| FetchNoData
| FetchError.

Class MySQL (conn : Type) := {
  stmt_bind_param : stmt → row → conn → bool * conn;
  stmt_execute : stmt → conn → bool * conn;
  stmt_store_result : stmt → conn → bool * conn;
  stmt_bind_result : stmt → conn → bool * conn;
  stmt_fetch : stmt → conn → fetch_result * conn;
  stmt_free_result : stmt → conn → conn;
  mysql_commit : conn → bool * conn;
  mysql_rollback : conn → bool * conn;
}.

(** What the code relies on, for a connection whose transactions the server
    isolates from the others.  [view] is the database as the open transaction
    sees it, [durable] what is committed, [bound] the parameters of a statement,
    [pending] the rows of its result set not yet fetched, and [trouble] holds
    once a call has failed for a reason of its own (a lost connection, a lock
    time out, data that did not fit a buffer): any call may fail so, and a failed
    execution may have undone part of the transaction, so it says nothing about
    [view].  Without trouble, an execution fails only when the statement does (a
    duplicate key). *)
Class MySQLLaws (conn : Type) {Sv : SqlServer} {Api : MySQL conn} := {
  view : conn → db;
  durable : conn → db;
  bound : conn → stmt → option row;
  pending : conn → stmt → list row;
  trouble : conn → Prop;
  law_bind_param : ∀ s ps c rc c', stmt_bind_param s ps c = (rc, c') →
    view c' = view c ∧ durable c' = durable c ∧ (∀ s', pending c' s' = pending c s') ∧
    (trouble c → trouble c') ∧
    if rc then trouble c' else bound c' s = Some ps;
  law_execute : ∀ s c rc c', stmt_execute s c = (rc, c') →
    durable c' = durable c ∧ (∀ s', s' ≠ s → pending c' s' = pending c s') ∧
    (trouble c → trouble c') ∧
    ∀ ps, bound c s = Some ps →
      if rc then trouble c' ∨ sql_update s ps (view c) = None
      else sql_rows s ps (view c) (pending c' s) ∧
           sql_update s ps (view c) = Some (view c');
  law_store_result : ∀ s c rc c', stmt_store_result s c = (rc, c') →
    view c' = view c ∧ durable c' = durable c ∧ (∀ s', pending c' s' = pending c s') ∧
    (trouble c → trouble c') ∧ (rc = true → trouble c');
  law_bind_result : ∀ s c rc c', stmt_bind_result s c = (rc, c') →
    view c' = view c ∧ durable c' = durable c ∧ (∀ s', pending c' s' = pending c s') ∧
    (trouble c → trouble c') ∧ (rc = true → trouble c');
  law_fetch : ∀ s c r c', stmt_fetch s c = (r, c') →
    view c' = view c ∧ durable c' = durable c ∧
    (∀ s', s' ≠ s → pending c' s' = pending c s') ∧
    (trouble c → trouble c') ∧
    match r with
    | FetchRow truncated x =>
        pending c s = x :: pending c' s ∧ (truncated = true → trouble c')
    | FetchNoData => pending c s = []
    | FetchError => trouble c'
    end;
  law_free_result : ∀ s c,
    view (stmt_free_result s c) = view c ∧ durable (stmt_free_result s c) = durable c ∧
    (∀ s', s' ≠ s → pending (stmt_free_result s c) s' = pending c s') ∧
    (trouble c → trouble (stmt_free_result s c));
  law_commit : ∀ c rc c', mysql_commit c = (rc, c') →
    (trouble c → trouble c') ∧
    if rc then trouble c' ∧ (durable c' = durable c ∨ durable c' = view c)
    else durable c' = view c ∧ view c' = view c;
  law_rollback : ∀ c rc c', mysql_rollback c = (rc, c') →
    durable c' = durable c ∧ (trouble c → trouble c') ∧
    if rc then trouble c' else view c' = durable c;
}.
