(* ===== verification/TpccMemDb.v ===== *)
(** * An in-memory server

    A concrete instance of the client interface: it keeps the database in the
    connection, executes the statements and fails where a schedule of faults
    says so.  It shows that the laws the transactions rely on can hold, and it
    runs the transactions on concrete inputs. *)

From Stdlib Require Import ZArith Lia SpecFloat Ascii String.
From stdpp Require Import base gmap list strings sorting numbers.
From S2P Require Import Prelude CFloat TpccSql.

Fixpoint lex_le (a b : cstr) : bool :=
  match a, b with
  | [], _ => true
  | _, [] => false
  | x :: a', y :: b' =>
      let nx := nat_of_ascii x in let ny := nat_of_ascii y in
      (nx <? ny)%nat || ((nx =? ny)%nat && lex_le a' b')
  end.

Definition mem_dec_of_float (f : float32) : Z :=
  match f with
  | S754_finite s m e => (if s then -1 else 1) * hundredths m e
  | _ => 0
  end.

#[export] Instance mem_server : SqlServer := {
  dec_of_float := mem_dec_of_float;
  float_of_dec z := f32_div (f32_of_Z z) (f32_of_Z 100);
  str_eq a b := bool_decide (a = b);
  str_le := lex_le;
}.

Record mem : Type := Mem {
  m_view : db;
  m_durable : db;
  m_bound : stmt → option row;
  m_pending : stmt → list row;
  m_faults : list bool;
  m_trouble : bool;
}.

Definition mem_open (b : db) (faults : list bool) : mem :=
  Mem b b (λ _, None) (λ _, []) faults false.

(** The next entry of the fault schedule; no entry means success. *)
Definition pop_fault (c : mem) : bool * mem :=
  match m_faults c with
  | [] => (false, c)
  | f :: l => (f, Mem (m_view c) (m_durable c) (m_bound c) (m_pending c) l (f || m_trouble c))
  end.

Definition upd {V} (s : stmt) (v : V) (f : stmt → V) : stmt → V :=
  λ s', if decide (s' = s) then v else f s'.

Definition first_order (x y : Z * customer_row) : Prop :=
  lex_le (c_first x.2) (c_first y.2) = true.

#[export] Instance first_order_dec : RelDecision first_order.
Proof. intros x y. unfold first_order. apply _. Defined.

Definition mem_rows (s : stmt) (ps : row) (b : db) : list row :=
  match s, ps with
  | Q14, [VInt w; VInt d; VStr last] =>
      map (λ '(c, _), [VInt c]) (merge_sort first_order (customers_named b w d last))
  | Q21, [VInt w; VInt d; VStr last] =>
      map (λ '(_, r), [VFloat (float_of_dec (c_balance r)); VStr (c_first r);
                       VStr (c_middle r); VStr (c_last r)])
        (merge_sort first_order (customers_named b w d last))
  | _, _ => sql_select s ps b
  end.

Definition mem_bind_param (s : stmt) (ps : row) (c : mem) : bool * mem :=
  let '(f, c) := pop_fault c in
  if f then (true, c)
  else (false, Mem (m_view c) (m_durable c) (upd s (Some ps) (m_bound c)) (m_pending c)
          (m_faults c) (m_trouble c)).

Definition mem_execute (s : stmt) (c : mem) : bool * mem :=
  let '(f, c) := pop_fault c in
  if f then (true, c)
  else match m_bound c s with
       | None => (true, Mem (m_view c) (m_durable c) (m_bound c) (m_pending c) (m_faults c) true)
       | Some ps =>
           match sql_update s ps (m_view c) with
           | None => (true, c)
           | Some b => (false, Mem b (m_durable c) (m_bound c)
                          (upd s (mem_rows s ps (m_view c)) (m_pending c)) (m_faults c) (m_trouble c))
           end
       end.

Definition mem_fetch (s : stmt) (c : mem) : fetch_result * mem :=
  let '(f, c) := pop_fault c in
  if f then (FetchError, c)
  else match m_pending c s with
       | [] => (FetchNoData, c)
       | r :: rs => (FetchRow false r, Mem (m_view c) (m_durable c) (m_bound c)
                       (upd s rs (m_pending c)) (m_faults c) (m_trouble c))
       end.

#[export] Instance mem_api : MySQL mem := {
  stmt_bind_param := mem_bind_param;
  stmt_execute := mem_execute;
  stmt_store_result := λ _, pop_fault;
  stmt_bind_result := λ _, pop_fault;
  stmt_fetch := mem_fetch;
  stmt_free_result := λ s c, Mem (m_view c) (m_durable c) (m_bound c)
    (upd s [] (m_pending c)) (m_faults c) (m_trouble c);
  mysql_commit := λ c, let '(f, c) := pop_fault c in
    if f then (true, c)
    else (false, Mem (m_view c) (m_view c) (m_bound c) (m_pending c) (m_faults c) (m_trouble c));
  mysql_rollback := λ c, let '(f, c) := pop_fault c in
    (f, Mem (m_durable c) (m_durable c) (m_bound c) (m_pending c) (m_faults c) (m_trouble c));
}.

(** ** The laws hold *)

Lemma lex_le_total (a b : cstr) : lex_le a b = true ∨ lex_le b a = true.
Proof.
  revert b; induction a as [|x a IH]; intros [|y b]; simpl; auto.
  destruct (Nat.ltb_spec (nat_of_ascii x) (nat_of_ascii y)); [auto|].
  destruct (Nat.ltb_spec (nat_of_ascii y) (nat_of_ascii x)); [auto|].
  assert (nat_of_ascii x = nat_of_ascii y) as -> by lia. rewrite Nat.eqb_refl. simpl. apply IH.
Qed.

#[export] Instance first_order_total : Total first_order.
Proof. intros x y. apply lex_le_total. Qed.

Lemma pop_fault_same (c : mem) :
  m_view (pop_fault c).2 = m_view c ∧ m_durable (pop_fault c).2 = m_durable c ∧
  m_bound (pop_fault c).2 = m_bound c ∧ m_pending (pop_fault c).2 = m_pending c ∧
  m_trouble (pop_fault c).2 = (pop_fault c).1 || m_trouble c.
Proof. unfold pop_fault. by destruct (m_faults c). Qed.

Lemma mem_rows_ok (s : stmt) (ps : row) (b : db) : sql_rows s ps b (mem_rows s ps b).
Proof.
  destruct s; simpl; try done;
    repeat (case_match; try done);
    (eexists; split; [apply (merge_sort_Permutation first_order)|];
     split; [apply (Sorted_merge_sort first_order)|reflexivity]).
Qed.

Lemma upd_ne {V} (s s' : stmt) (v : V) (f : stmt → V) : s' ≠ s → upd s v f s' = f s'.
Proof. intros Hne. unfold upd. by rewrite decide_False. Qed.

Lemma upd_eq {V} (s : stmt) (v : V) (f : stmt → V) : upd s v f s = v.
Proof. unfold upd. by rewrite decide_True. Qed.

Ltac mem_law c :=
  intros; simplify_eq/=;
  pose proof (pop_fault_same c) as (Hpv & Hpd & Hpb & Hpp & Hpt);
  unfold mem_bind_param, mem_execute, mem_fetch in *;
  destruct (pop_fault c) as [f c1]; simpl in *;
  rewrite <- ?Hpv, <- ?Hpd, <- ?Hpb, <- ?Hpp; rewrite ?Hpt in *;
  repeat case_match; simplify_eq/=; rewrite ?upd_eq;
  split_and?; intros; simplify_eq/=; auto using upd_ne; try congruence;
  try (rewrite Hpt; apply orb_true_iff; auto).

#[export] Program Instance mem_laws : MySQLLaws mem := {
  view := m_view; durable := m_durable; bound := m_bound; pending := m_pending;
  trouble c := m_trouble c = true }.
Next Obligation. intros s ps c rc c' E. mem_law c. Qed.
Next Obligation. intros s c rc c' E. mem_law c. by split; [apply mem_rows_ok|]. Qed.
Next Obligation. intros s c rc c' E. mem_law c. Qed.
Next Obligation. intros s c rc c' E. mem_law c. Qed.
Next Obligation. intros s c r c' E. mem_law c. Qed.
Next Obligation. intros s c. simpl. split_and!; auto using upd_ne. Qed.
Next Obligation. intros c rc c' E. mem_law c. Qed.
Next Obligation. intros c rc c' E. mem_law c. Qed.

(** A new connection sees what is committed. *)
Lemma mem_open_view (b : db) (faults : list bool) : view (mem_open b faults) = b.
Proof. done. Qed.

Lemma mem_open_durable (b : db) (faults : list bool) : durable (mem_open b faults) = b.
Proof. done. Qed.
