(* ===== verification/TpccTx.v ===== *)
(** * tpcc-mysql: the statement protocol of the transactions

    Every transaction runs its statements the same way: bind the parameters,
    execute, for a query store and bind the result, fetch, free; each call that
    fails leaves through the label [sqlerr].  This file has that protocol, its
    Hoare rules over the laws of the client interface, and the string functions
    the transactions use. *)

From Stdlib Require Import ZArith Lia SpecFloat Ascii String.
From stdpp Require Import base gmap list strings sorting numbers.
From S2P Require Import Prelude CFloat TpccSql.

(** The exits of a transaction function; [proceed] is the step it names in its
    error message. *)
Inductive tx_exit : Type :=
| Sqlerr (proceed : Z)
| Invaliditem
| TxUndefined (u : ub)
| TxOutOfFuel.

#[export] Instance tx_has_ub : HasUB tx_exit := TxUndefined.

Section protocol.
Context {conn : Type} {Api : MySQL conn}.

Abbreviation tx := (prog tx_exit conn).

(** [if( call ) goto sqlerr;] *)
Definition or_sqlerr (p : Z) (call : conn → bool * conn) : tx unit := λ c,
  let '(rc, c') := call c in
  if rc then (Leave (Sqlerr p), c') else (Done tt, c').

(** bind_param and execute. *)
Definition run_stmt (p : Z) (s : stmt) (ps : row) : tx unit :=
  or_sqlerr p (stmt_bind_param s ps);;
  or_sqlerr p (stmt_execute s).

(** ... then store_result and bind_result. *)
Definition open_result (p : Z) (s : stmt) (ps : row) : tx unit :=
  run_stmt p s ps;;
  or_sqlerr p (stmt_store_result s);;
  or_sqlerr p (stmt_bind_result s).

Definition free_result (s : stmt) : tx unit := λ c, (Done tt, stmt_free_result s c).

(** [switch( mysql_stmt_fetch(stmt) )]: a row, or [None] for MYSQL_NO_DATA; a
    truncated row is an error unless the switch has the case. *)
Definition fetch_row (trunc_ok : bool) (p : Z) (s : stmt) : tx (option row) := λ c,
  match stmt_fetch s c with
  | (FetchRow truncated r, c') =>
      if truncated && negb trunc_ok
      then (Leave (Sqlerr p), stmt_free_result s c')
      else (Done (Some r), c')
  | (FetchNoData, c') => (Done None, c')
  | (FetchError, c') => (Leave (Sqlerr p), stmt_free_result s c')
  end.

(** Fetch where no data is an error too: [default: free_result; goto sqlerr]. *)
Definition fetch_some (trunc_ok : bool) (p : Z) (s : stmt) : tx row :=
  r ← fetch_row trunc_ok p s;
  match r with
  | Some r => mret r
  | None => free_result s;; leave (Sqlerr p)
  end.

(** A query of one row. *)
Definition select1 (trunc_ok : bool) (p : Z) (s : stmt) (ps : row) : tx row :=
  open_result p s ps;;
  r ← fetch_some trunc_ok p s;
  free_result s;;
  mret r.

(** The output column [i] of a fetched row; a NULL leaves the buffer as it was. *)
Definition col_int (r : row) (i : nat) : tx Z :=
  match r !! i with Some (VInt z) => mret z | _ => leave (TxUndefined UninitRead) end.
Definition col_float (r : row) (i : nat) : tx float32 :=
  match r !! i with Some (VFloat f) => mret f | _ => leave (TxUndefined UninitRead) end.
Definition col_str (r : row) (i : nat) : tx cstr :=
  match r !! i with Some (VStr s) => mret s | _ => leave (TxUndefined UninitRead) end.

Definition commit_or_sqlerr (p : Z) : tx unit := or_sqlerr p mysql_commit.

(** [mysql_rollback(ctx[t_num]);], its result ignored. *)
Definition rollback {F} : prog F conn unit := λ c, (Done tt, (mysql_rollback c).2).

(** The labels at the end of a transaction: [sqlerr] rolls back and returns 0,
    [invaliditem] rolls back and returns 1. *)
Definition with_labels (m : tx Z) : tx Z :=
  at_label m (λ e,
    match e with
    | Sqlerr _ => rollback;; mret 0
    | Invaliditem => rollback;; mret 1
    | e => leave e
    end).
End protocol.

(** ** C string functions *)

Fixpoint is_prefix (needle hay : cstr) : bool :=
  match needle, hay with
  | [], _ => true
  | x :: n, y :: h => bool_decide (x = y) && is_prefix n h
  | _, [] => false
  end.

(** [strstr(hay, needle) != NULL] *)
Fixpoint strstr (hay needle : cstr) : bool :=
  is_prefix needle hay ||
  match hay with [] => false | _ :: h => strstr h needle end.

(** The C string in a buffer: the characters before the first NUL. *)
Fixpoint cstring_of (buf : list ascii) : cstr :=
  match buf with
  | [] => []
  | c :: l => if bool_decide (c = zero) then [] else c :: cstring_of l
  end.

(** The [n] bytes [strncpy(_, src, n)] writes. *)
Definition strncpy_bytes (n : nat) (src : cstr) : list ascii :=
  take n src ++ replicate (n - length (take n src)) zero.

Lemma strncpy_length (n : nat) (s : cstr) : length (strncpy_bytes n s) = n.
Proof.
  unfold strncpy_bytes. rewrite length_app, length_replicate, length_take. lia.
Qed.

(** Reading a C string out of a buffer. *)
Fixpoint read_cstring {F S} `{HasUB F} (buf : list (option ascii)) : prog F S cstr :=
  match buf with
  | [] => leave (undefined OutOfBounds)
  | None :: _ => leave (undefined UninitRead)
  | Some c :: l =>
      if bool_decide (c = zero) then mret []
      else s ← read_cstring l; mret (c :: s)
  end.

(** [strncpy(buf + at_, src, n)] and [strncat(buf, src, n)]. *)
Definition strncpy_to {F S} `{HasUB F} (buf : list (option ascii)) (at_ : Z) (src : cstr)
  (n : nat) : prog F S (list (option ascii)) :=
  write_bytes buf at_ (strncpy_bytes n src).

Definition strncat_to {F S} `{HasUB F} (buf : list (option ascii)) (src : cstr) (n : nat)
  : prog F S (list (option ascii)) :=
  old ← read_cstring buf;
  write_bytes buf (Z.of_nat (length old)) (take n src ++ [zero]).

Lemma read_cstring_app {F S} `{HasUB F} (t : cstr) (rest : list (option ascii)) (s : S) :
  zero ∉ t → read_cstring (F:=F) ((Some <$> t) ++ Some zero :: rest) s = (Done t, s).
Proof.
  induction t as [|x t IH]; intros Hz; simpl; [done|].
  apply not_elem_of_cons in Hz as [Hx Ht]. rewrite bool_decide_false by done.
  by rewrite (bind_done _ _ _ _ _ (IH Ht)).
Qed.

Lemma keeps_read_cstring {F S} `{HasUB F} (P : S → Prop) (buf : list (option ascii)) :
  keeps (F:=F) P (read_cstring buf).
Proof.
  induction buf as [|[c|] l IH]; simpl; [apply keeps_leave| |apply keeps_leave].
  case_match; [apply keeps_ret|]. apply keeps_bind; [done|intros t; apply keeps_ret].
Qed.
#[export] Hint Resolve keeps_read_cstring : keepdb.

(** ** Hoare rules over the laws of the interface *)

Section rules.
Context {conn : Type} {Sv : SqlServer} {Api : MySQL conn} {Laws : MySQLLaws conn}.
Implicit Types (b k : db) (s : stmt) (ps : row).

Abbreviation tx := (prog tx_exit conn).

(** The open transaction sees [b], [k] is committed, and the cursor [K], when
    there is one, has its rows pending. *)
Definition kept (K : option (stmt * list row)) (c : conn) : Prop :=
  match K with Some (s, l) => pending c s = l | None => True end.

Definition at_db (b k : db) (K : option (stmt * list row)) (c : conn) : Prop :=
  view c = b ∧ durable c = k ∧ kept K c.

(** The exits of step [p]: nothing is committed, and there was trouble or the
    reason [why]. *)
Definition failed (k : db) (p : Z) (why : Prop) (e : tx_exit) (c : conn) : Prop :=
  durable c = k ∧ e = Sqlerr p ∧ (trouble c ∨ why).

Definition not_cursor (K : option (stmt * list row)) (s : stmt) : Prop :=
  match K with Some (s', _) => s' ≠ s | None => True end.

Lemma kept_frame K c c' : (∀ s, pending c' s = pending c s) → kept K c → kept K c'.
Proof. destruct K as [[s l]|]; simpl; [|done]. intros H <-. apply H. Qed.

Lemma kept_frame_ne K s c c' :
  (∀ s', s' ≠ s → pending c' s' = pending c s') → not_cursor K s → kept K c → kept K c'.
Proof. destruct K as [[s' l]|]; simpl; [|done]. intros H Hne <-. by apply H. Qed.

Lemma run_stmt_rule p s ps b k K :
  not_cursor K s →
  triple (at_db b k K) (run_stmt p s ps)
    (λ _ c, durable c = k ∧ kept K c ∧ sql_update s ps b = Some (view c) ∧
       sql_rows s ps b (pending c s))
    (failed k p (sql_update s ps b = None)).
Proof.
  intros HK c (<- & <- & Hk). unfold run_stmt, mbind, prog_bind, or_sqlerr, failed.
  destruct (stmt_bind_param s ps c) as [rc c1] eqn:E1.
  destruct (law_bind_param _ _ _ _ _ E1) as (Hv & Hd & Hp & _ & Hb).
  destruct rc; [auto|].
  destruct (stmt_execute s c1) as [rc c2] eqn:E2.
  destruct (law_execute _ _ _ _ E2) as (Hd2 & Hp2 & _ & Hok).
  specialize (Hok _ Hb). rewrite Hv in *.
  destruct rc; [split_and!; auto; congruence|].
  destruct Hok as (Hrows & Hupd).
  split; [congruence|]. split; [|done].
  eapply kept_frame_ne; [exact Hp2|done|]. by eapply kept_frame.
Qed.

(** A statement that changes data: the new view is the one the server computes. *)
Lemma update_rule p s ps b k K b' :
  not_cursor K s → sql_update s ps b = Some b' →
  triple (at_db b k K) (run_stmt p s ps) (λ _, at_db b' k K) (failed k p False).
Proof.
  intros HK Hupd. eapply triple_ends; [by apply run_stmt_rule| |].
  - intros [] c (Hd & Hk & Hu & _). split; [congruence|]. by split.
  - intros e c (Hd & He & [Ht|Hn]); [|congruence]. split_and!; auto.
Qed.

Lemma open_result_rule p s ps b k K :
  not_cursor K s → sql_update s ps b = Some b →
  triple (at_db b k K) (open_result p s ps)
    (λ _ c, ∃ l, sql_rows s ps b l ∧ (at_db b k K c ∧ pending c s = l))
    (failed k p False).
Proof.
  intros HK Hsel. eapply triple_bind.
  { eapply triple_ends; [by apply run_stmt_rule|done|].
    intros e c (Hd & He & [Ht|Hn]); [|congruence]. split_and!; auto. }
  intros [] c (Hd & Hk & Hupd & Hrows). unfold mbind, prog_bind, or_sqlerr, failed.
  destruct (stmt_store_result s c) as [rc c1] eqn:E1.
  destruct (law_store_result _ _ _ _ E1) as (Hv1 & Hd1 & Hp1 & _ & Ht1).
  destruct rc; [split_and!; auto; congruence|].
  destruct (stmt_bind_result s c1) as [rc c2] eqn:E2.
  destruct (law_bind_result _ _ _ _ E2) as (Hv2 & Hd2 & Hp2 & _ & Ht2).
  destruct rc; [split_and!; auto; congruence|].
  exists (pending c s). split; [done|]. unfold at_db. rewrite Hv2, Hv1, Hd2, Hd1, Hp2, Hp1.
  split_and!; [congruence|done| |done].
  eapply kept_frame; [|exact Hk]. intros s'. by rewrite Hp2, Hp1.
Qed.

(** A fetch either takes the next pending row, or finds none, or fails. *)
Lemma fetch_row_rule t p s b k K l :
  not_cursor K s →
  triple (λ c, at_db b k K c ∧ pending c s = l) (fetch_row t p s)
    (λ r c, at_db b k K c ∧
       match r with Some x => l = x :: pending c s | None => l = [] end)
    (failed k p False).
Proof.
  intros HK c [(<- & <- & Hk) <-]. unfold fetch_row, failed.
  destruct (stmt_fetch s c) as [r c1] eqn:E.
  destruct (law_fetch _ _ _ _ E) as (Hv & Hd & Hp & _ & Hr).
  assert (kept K c1) as Hk1 by (by eapply kept_frame_ne).
  destruct (law_free_result s c1) as (Hfv & Hfd & _ & Hft).
  destruct r as [tr x| |]; simpl.
  - destruct Hr as [Hr Htr].
    destruct tr, t; simpl; try by split. split_and!; auto; congruence.
  - by split.
  - split_and!; auto; congruence.
Qed.

Lemma free_result_rule s b k K (E : tx_exit → conn → Prop) :
  not_cursor K s →
  triple (at_db b k K) (free_result s) (λ _, at_db b k K) E.
Proof.
  intros HK c (<- & <- & Hk). unfold free_result.
  destruct (law_free_result s c) as (Hv & Hd & Hp & _).
  split; [done|]. split; [done|]. by eapply kept_frame_ne.
Qed.

Lemma fetch_some_rule t p s b k K l :
  not_cursor K s →
  triple (λ c, at_db b k K c ∧ pending c s = l) (fetch_some t p s)
    (λ x c, at_db b k K c ∧ l = x :: pending c s) (failed k p (l = [])).
Proof.
  intros HK. eapply triple_bind.
  { eapply triple_ends; [by apply fetch_row_rule|done|].
    intros e c (Hd & He & [Ht|[]]). split_and!; auto. }
  intros [x|] c (Hat & Hl); [by split|].
  unfold mbind, prog_bind, free_result, leave. simpl.
  destruct (law_free_result s c) as (_ & Hd & _ & _). destruct Hat as (_ & <- & _).
  split_and!; auto.
Qed.

(** A query of one row returns the first row the server selects. *)
Lemma select1_any_rule t p s ps b k K :
  not_cursor K s → sql_update s ps b = Some b →
  triple (at_db b k K) (select1 t p s ps)
    (λ x c, (∃ rest, sql_rows s ps b (x :: rest)) ∧ at_db b k K c)
    (failed k p (sql_rows s ps b [])).
Proof.
  intros HK Hsel. eapply triple_bind.
  { eapply triple_ends; [by apply open_result_rule|done|].
    intros e c (Hd & He & [Ht|[]]). split_and!; auto. }
  intros []. apply triple_exists. intros l. apply triple_pure. intros Hrows.
  eapply triple_bind.
  { eapply triple_ends; [by apply fetch_some_rule|done|].
    intros e c (Hd & He & [Ht| ->]); split_and!; auto. }
  intros x. apply (triple_weaken _ (λ c, (∃ rest, sql_rows s ps b (x :: rest)) ∧ at_db b k K c)).
  2: { intros c [Hat ->]. eauto. }
  apply triple_pure. intros Hx. eapply triple_bind; [by apply free_result_rule|].
  by intros [] c Hat.
Qed.

(** ... and when exactly one row is possible, that one, failing only for trouble. *)
Lemma select1_rule t p s ps b k K x :
  not_cursor K s → sql_update s ps b = Some b →
  (∀ l, sql_rows s ps b l → l = [x]) →
  triple (at_db b k K) (select1 t p s ps)
    (λ y c, y = x ∧ at_db b k K c) (failed k p False).
Proof.
  intros HK Hsel Hone. eapply triple_ends; [by apply select1_any_rule| |].
  - intros y c [[rest Hr%Hone] Hat]. by simplify_eq.
  - intros e c (Hd & He & [Ht|Hr%Hone]); [|done]. split_and!; auto.
Qed.

(** Commit makes the view durable; a failed commit may or may not have. *)
Lemma commit_rule p b k K :
  triple (at_db b k K) (commit_or_sqlerr p)
    (λ _ c, view c = b ∧ durable c = b)
    (λ e c, trouble c ∧ (durable c = k ∨ durable c = b) ∧ e = Sqlerr p).
Proof.
  intros c (<- & <- & _). unfold commit_or_sqlerr, or_sqlerr.
  destruct (mysql_commit c) as [rc c1] eqn:E. destruct (law_commit _ _ _ E) as [_ Hl].
  destruct rc; [by destruct Hl|]. by destruct Hl.
Qed.

Lemma rollback_rule {F} (P : db → Prop) (T : Prop) (E : F → conn → Prop) :
  triple (λ c, P (durable c) ∧ (T ∨ trouble c)) rollback
    (λ _ c, P (durable c) ∧ (T ∨ trouble c)) E.
Proof.
  intros c [HP HT]. unfold rollback. destruct (mysql_rollback c) as [rc c1] eqn:Er. simpl.
  destruct (law_rollback _ _ _ Er) as (-> & Ht & _). split; [done|]. tauto.
Qed.

Lemma col_int_rule r i z (P : conn → Prop) (E : tx_exit → conn → Prop) :
  r !! i = Some (VInt z) → triple P (col_int r i) (λ z' c, z' = z ∧ P c) E.
Proof. intros Hr c HP. unfold col_int. rewrite Hr. done. Qed.
Lemma col_float_rule r i f (P : conn → Prop) (E : tx_exit → conn → Prop) :
  r !! i = Some (VFloat f) → triple P (col_float r i) (λ f' c, f' = f ∧ P c) E.
Proof. intros Hr c HP. unfold col_float. rewrite Hr. done. Qed.
Lemma col_str_rule r i x (P : conn → Prop) (E : tx_exit → conn → Prop) :
  r !! i = Some (VStr x) → triple P (col_str r i) (λ x' c, x' = x ∧ P c) E.
Proof. intros Hr c HP. unfold col_str. rewrite Hr. done. Qed.

(** ** The exits of a transaction function *)

(** How a transaction body may leave when it started with [k] committed: no
    undefined behaviour; [sqlerr] after trouble, with [k] or a state in [R]
    committed; [invaliditem] only when [inv] holds. *)
Definition tx_leaves (k : db) (R : db → Prop) (inv : Prop) (e : tx_exit) (c : conn) : Prop :=
  match e with
  | Sqlerr _ => trouble c ∧ (durable c = k ∨ R (durable c))
  | Invaliditem => durable c = k ∧ inv
  | _ => False
  end.

Lemma failed_leaves k R inv p e c : failed k p False e c → tx_leaves k R inv e c.
Proof. intros (Hd & -> & [Ht|[]]). simpl. auto. Qed.

(** The end of a body: 1, its effect is committed, and no transaction is open. *)
Definition committed (R : db → Prop) (ret : Z) (c : conn) : Prop :=
  ret = 1 ∧ R (durable c) ∧ view c = durable c.

(** The result of the function around the body: 1 and the body's effect, 1 and
    nothing for an invalid item, 0 after trouble. *)
Definition tx_result (k : db) (R : db → Prop) (inv : Prop) (ret : Z) (c : conn) : Prop :=
  committed R ret c ∨
  (ret = 1 ∧ durable c = k ∧ inv ∧ (view c = durable c ∨ trouble c)) ∨
  (ret = 0 ∧ trouble c ∧ (durable c = k ∨ R (durable c))).

(** *** Steps of a transaction body *)

Section steps.
Context (k : db) (R : db → Prop) (inv : Prop).

Lemma update_step {A} p s ps b K b' (m : tx A) Q :
  not_cursor K s → sql_update s ps b = Some b' →
  triple (at_db b' k K) m Q (tx_leaves k R inv) →
  triple (at_db b k K) (run_stmt p s ps;; m) Q (tx_leaves k R inv).
Proof.
  intros HK Hu Hm. apply (triple_bind _ _ (λ _, at_db b' k K)); [|done].
  eapply triple_ends; [by eapply update_rule|done|]. eauto using failed_leaves.
Qed.

Lemma select1_step {A} t p s ps b K x (m : row → tx A) Q :
  not_cursor K s → sql_update s ps b = Some b →
  (∀ l, sql_rows s ps b l → l = [x]) →
  triple (at_db b k K) (m x) Q (tx_leaves k R inv) →
  triple (at_db b k K) (r ← select1 t p s ps; m r) Q (tx_leaves k R inv).
Proof.
  intros HK Hu Hx Hm. eapply triple_bind.
  - eapply triple_ends; [by eapply select1_rule|done|]. eauto using failed_leaves.
  - intros y. apply triple_pure. by intros ->.
Qed.

(** A query whose result set is fetched row by row. *)
Lemma open_step {A} p s ps b K (m : tx A) Q :
  not_cursor K s → sql_update s ps b = Some b →
  (∀ l, sql_rows s ps b l →
     triple (λ c, at_db b k K c ∧ pending c s = l) m Q (tx_leaves k R inv)) →
  triple (at_db b k K) (open_result p s ps;; m) Q (tx_leaves k R inv).
Proof.
  intros HK Hu Hm. eapply triple_bind.
  - eapply triple_ends; [by eapply open_result_rule|done|]. eauto using failed_leaves.
  - intros []. apply triple_exists. intros l. apply triple_pure. apply Hm.
Qed.

Lemma fetch_step {A} t p s b K l (m : option row → tx A) Q :
  not_cursor K s →
  (l = [] → triple (at_db b k K) (m None) Q (tx_leaves k R inv)) →
  (∀ x l', l = x :: l' →
     triple (λ c, at_db b k K c ∧ pending c s = l') (m (Some x)) Q (tx_leaves k R inv)) →
  triple (λ c, at_db b k K c ∧ pending c s = l) (r ← fetch_row t p s; m r) Q
    (tx_leaves k R inv).
Proof.
  intros HK Hnone Hsome. eapply triple_bind.
  - eapply triple_ends; [by eapply fetch_row_rule|done|]. eauto using failed_leaves.
  - intros [x|]; simpl.
    + intros c [Hat Hl]. exact (Hsome x _ Hl c (conj Hat eq_refl)).
    + intros c [Hat Hl]. exact (Hnone Hl c Hat).
Qed.

Lemma free_step {A} s b K (P : conn → Prop) (m : tx A) Q :
  not_cursor K s → (∀ c, P c → at_db b k K c) →
  triple (at_db b k K) m Q (tx_leaves k R inv) →
  triple P (free_result s;; m) Q (tx_leaves k R inv).
Proof.
  intros HK HP Hm. eapply triple_weaken; [|exact HP].
  eapply triple_bind; [by apply free_result_rule|]. by intros [].
Qed.

Lemma commit_step p b K (ret : Z) :
  R b → triple (at_db b k K) (commit_or_sqlerr p;; mret ret)
    (λ r c, r = ret ∧ R (durable c) ∧ view c = durable c) (tx_leaves k R inv).
Proof.
  intros HR. eapply triple_bind.
  - eapply triple_ends; [by eapply commit_rule|done|].
    intros e c (Ht & [Hd|Hd] & ->); simpl; rewrite Hd; auto.
  - intros [] c [Hv Hd]. split; [done|]. split; [by rewrite Hd|congruence].
Qed.
End steps.

Lemma with_labels_rule (P : conn → Prop) (m : tx Z) k R inv :
  triple P m (committed R) (tx_leaves k R inv) →
  triple P (with_labels m) (tx_result k R inv) (λ _ _, False).
Proof.
  intros Hm c HP. specialize (Hm c HP). unfold with_labels, at_label.
  destruct (m c) as [[ret|e] c1]; [by left|].
  destruct e as [p| |u|]; simpl in Hm; try done; unfold rollback, mbind, prog_bind;
    destruct (mysql_rollback c1) as [rc c2] eqn:Er; simpl;
    destruct (law_rollback _ _ _ Er) as (Hd & Ht & Hrc); rewrite <- Hd in Hm.
  - right; right. destruct Hm. auto.
  - right; left. destruct Hm. split_and!; try done. destruct rc; [by right|left; congruence].
Qed.
End rules.

(** ** Cursors *)

Section cursor.
Context {conn : Type} {Sv : SqlServer} {Api : MySQL conn} {Laws : MySQLLaws conn}.
Context (k : db) (R : db → Prop) (inv : Prop).

(** [for (n = 0; n < m; n++) fetch]: with [m] rows there the last one is kept. *)
Lemma fetch_loop_step {A B} t p s b K (rows : list row) (m : Z) (f : row → A) (a0 : A)
    (body : row → prog tx_exit conn A) (next : A → prog tx_exit conn B) Q :
  not_cursor K s → 0 ≤ m ≤ Z.of_nat (length rows) →
  (∀ r, r ∈ rows → ∀ c, body r c = (Done (f r), c)) →
  triple (at_db b k K) (next (if decide (m = 0) then a0
    else f (default [] (rows !! Z.to_nat (m - 1))))) Q (tx_leaves k R inv) →
  triple (λ c, at_db b k K c ∧ pending c s = rows)
    (a ← for_lt 0 m (λ _ _, r ← fetch_some t p s; body r) a0; free_result s;; next a) Q
    (tx_leaves k R inv).
Proof.
  intros HK Hm Hbody Hnext.
  set (val := λ i, if decide (i = 0) then a0 else f (default [] (rows !! Z.to_nat (i - 1)))).
  apply (triple_bind _ _ (λ a c, (at_db b k K c ∧ pending c s = drop (Z.to_nat m) rows) ∧
    a = val m)).
  - apply (triple_weaken _ (λ c, (at_db b k K c ∧ pending c s = drop (Z.to_nat 0) rows) ∧
      a0 = val 0)); [|done].
    apply (triple_for_lt (λ i a c, (at_db b k K c ∧
      pending c s = drop (Z.to_nat i) rows) ∧ a = val i)); [lia|].
    intros i a Hi.
    destruct (lookup_lt_is_Some_2 rows (Z.to_nat i)) as [x Hx]; [lia|].
    eapply (triple_weaken _ (λ c, at_db b k K c ∧ pending c s = drop (Z.to_nat i) rows));
      [|by intros c [H _]].
    eapply triple_bind.
    { eapply triple_ends; [by apply fetch_some_rule|done|].
      intros e c (Hd & He & [Ht|Hn]).
      - apply (failed_leaves k R inv p). by repeat split; auto.
      - rewrite (drop_S _ x) in Hn by done. done. }
    intros y c [Hat Hy]. rewrite (drop_S _ x) in Hy by done. simplify_eq.
    rewrite (Hbody y) by by eapply list_elem_of_lookup_2.
    replace (Z.to_nat (i + 1)) with (S (Z.to_nat i)) by lia.
    split; [by split|]. unfold val. rewrite decide_False by lia.
    replace (i + 1 - 1) with i by lia. by rewrite Hx.
  - intros a. eapply (triple_weaken _ (λ c, a = val m ∧ at_db b k K c));
      [|by intros c [[H _] ?]].
    apply triple_pure. intros ->. eapply free_step; [exact HK|done|done].
Qed.
End cursor.

(** ** From triples to runs *)

Lemma triple_run {F S A} (P : S → Prop) (m : prog F S A) (Q : A → S → Prop)
    (E : F → S → Prop) (s : S) :
  triple P m Q E → (∀ f s, E f s → False) → P s →
  ∃ a s', m s = (Done a, s') ∧ Q a s'.
Proof.
  intros Hm HE HP. specialize (Hm s HP).
  destruct (m s) as [[a|f] s']; [eauto|]. destruct (HE _ _ Hm).
Qed.

(** All or nothing: whatever a transaction function returns, the committed
    database is the old one or the one its body promises. *)
Lemma tx_all_or_nothing {conn} {Sv : SqlServer} {Api : MySQL conn} {Laws : MySQLLaws conn}
    (m : prog tx_exit conn Z) (k : db) (R : db → Prop) (inv : Prop) (s s' : conn) r :
  triple (at_db k k None) m (committed R) (tx_leaves k R inv) →
  view s = k → durable s = k → with_labels m s = (r, s') →
  durable s' = k ∨ R (durable s').
Proof.
  intros Hm Hv Hd E. pose proof (with_labels_rule _ _ _ _ _ Hm s (conj Hv (conj Hd I))) as Ht.
  rewrite E in Ht. destruct r as [ret|f]; [|done].
  destruct Ht as [(_ & H & _)|[(_ & H & _)|(_ & _ & [H|H])]]; auto.
Qed.

Lemma tx_runs {conn} {Sv : SqlServer} {Api : MySQL conn} {Laws : MySQLLaws conn}
    (m : prog tx_exit conn Z) (k : db) (R : db → Prop) (inv : Prop) (s : conn) :
  triple (at_db k k None) m (committed R) (tx_leaves k R inv) →
  view s = k → durable s = k →
  ∃ ret s', with_labels m s = (Done ret, s') ∧ tx_result k R inv ret s'.
Proof.
  intros Hm Hv Hd. exact (triple_run _ _ _ _ s (with_labels_rule _ _ _ _ _ Hm)
    (λ _ _ F, F) (conj Hv (conj Hd I))).
Qed.

(** ** Automation: stepping a triple over the statement protocol

    Run the steps that only compute: fetched columns, returned values, nested
    sequences. *)
Ltac tx_ret :=
  cbv beta iota zeta;
  lazymatch goal with
  | |- triple _ ((_ ≫= _) ≫= _) _ _ => apply triple_assoc
  | |- triple _ (mret _ ≫= _) _ _ => apply triple_bind_ret
  | |- triple _ (col_int _ _ ≫= _) _ _ => eapply triple_step; [intros; reflexivity|]
  | |- triple _ (col_float _ _ ≫= _) _ _ => eapply triple_step; [intros; reflexivity|]
  | |- triple _ (col_str _ _ ≫= _) _ _ => eapply triple_step; [intros; reflexivity|]
  end.
Ltac tx_rets := repeat tx_ret.

(** A query known to return one row; an update known to succeed. *)
Ltac tx_select := tx_rets; eapply select1_step; [done|done|simpl; intros ? ->|tx_rets].
Ltac tx_update := tx_rets; eapply update_step; [done| |tx_rets].

(** ** Predicates that no call but commit touches *)

Section inert.
Context {conn : Type} {Sv : SqlServer} {Api : MySQL conn} {Laws : MySQLLaws conn}.

Record inert (P : conn → Prop) : Prop := {
  inert_bind_param : ∀ s ps c, P c → P (stmt_bind_param s ps c).2;
  inert_execute : ∀ s c, P c → P (stmt_execute s c).2;
  inert_store_result : ∀ s c, P c → P (stmt_store_result s c).2;
  inert_bind_result : ∀ s c, P c → P (stmt_bind_result s c).2;
  inert_fetch : ∀ s c, P c → P (stmt_fetch s c).2;
  inert_free_result : ∀ s c, P c → P (stmt_free_result s c);
  inert_rollback : ∀ c, P c → P (mysql_rollback c).2;
}.

(** What is committed, and that there was trouble. *)
Lemma durable_inert (R : db → Prop) : inert (λ c, R (durable c)).
Proof.
  split; intros.
  - destruct (stmt_bind_param s ps c) as [rc c'] eqn:E.
    apply law_bind_param in E as (_ & E & _). simpl. by rewrite E.
  - destruct (stmt_execute s c) as [rc c'] eqn:E.
    apply law_execute in E as (E & _). simpl. by rewrite E.
  - destruct (stmt_store_result s c) as [rc c'] eqn:E.
    apply law_store_result in E as (_ & E & _). simpl. by rewrite E.
  - destruct (stmt_bind_result s c) as [rc c'] eqn:E.
    apply law_bind_result in E as (_ & E & _). simpl. by rewrite E.
  - destruct (stmt_fetch s c) as [rc c'] eqn:E.
    apply law_fetch in E as (_ & E & _). simpl. by rewrite E.
  - destruct (law_free_result s c) as (_ & E & _). by rewrite E.
  - destruct (mysql_rollback c) as [rc c'] eqn:E.
    apply law_rollback in E as (E & _). simpl. by rewrite E.
Qed.

Lemma trouble_inert : inert trouble.
Proof.
  split; intros.
  - destruct (stmt_bind_param s ps c) as [rc c'] eqn:E.
    apply law_bind_param in E as (_ & _ & _ & E & _). auto.
  - destruct (stmt_execute s c) as [rc c'] eqn:E. apply law_execute in E as (_ & _ & E & _). auto.
  - destruct (stmt_store_result s c) as [rc c'] eqn:E.
    apply law_store_result in E as (_ & _ & _ & E & _). auto.
  - destruct (stmt_bind_result s c) as [rc c'] eqn:E.
    apply law_bind_result in E as (_ & _ & _ & E & _). auto.
  - destruct (stmt_fetch s c) as [rc c'] eqn:E. apply law_fetch in E as (_ & _ & _ & E & _). auto.
  - destruct (law_free_result s c) as (_ & _ & _ & E). auto.
  - destruct (mysql_rollback c) as [rc c'] eqn:E. apply law_rollback in E as (_ & E & _). auto.
Qed.

Lemma keeps_call (P : conn → Prop) p (f : conn → bool * conn) :
  (∀ c, P c → P (f c).2) → keeps P (or_sqlerr p f).
Proof.
  intros Hf c HP. unfold or_sqlerr. specialize (Hf c HP). destruct (f c) as [rc c']. by destruct rc.
Qed.

Lemma keeps_commit_trouble p : keeps trouble (commit_or_sqlerr p).
Proof.
  apply keeps_call. intros c Ht. destruct (mysql_commit c) as [rc c'] eqn:E.
  apply law_commit in E as [H _]. auto.
Qed.

Section keeps_tx.
Context (P : conn → Prop) (HP : inert P).

Lemma keeps_run_stmt p s ps : keeps P (run_stmt p s ps).
Proof. apply keeps_bind; [|intros []]; apply keeps_call; intros; by apply HP. Qed.
Lemma keeps_open_result p s ps : keeps P (open_result p s ps).
Proof.
  apply keeps_bind; [apply keeps_run_stmt|intros _].
  apply keeps_bind; [|intros []]; apply keeps_call; intros; by apply HP.
Qed.
Lemma keeps_free_result s : keeps P (free_result s).
Proof. intros c Hc. by apply HP. Qed.
Lemma keeps_rollback {F} : keeps (F:=F) P rollback.
Proof. intros c Hc. by apply HP. Qed.
Lemma keeps_fetch_row t p s : keeps P (fetch_row t p s).
Proof.
  intros c Hc. unfold fetch_row. pose proof (inert_fetch P HP s c Hc) as Hf.
  destruct (stmt_fetch s c) as [[tr r| |] c']; simpl in *; [|done|by apply HP].
  destruct (tr && negb t); [by apply HP|done].
Qed.
Lemma keeps_fetch_some t p s : keeps P (fetch_some t p s).
Proof.
  apply keeps_bind; [apply keeps_fetch_row|]. intros [r|]; [apply keeps_ret|].
  apply keeps_bind; [apply keeps_free_result|intros _; apply keeps_leave].
Qed.
Lemma keeps_select1 t p s ps : keeps P (select1 t p s ps).
Proof.
  apply keeps_bind; [apply keeps_open_result|intros _].
  apply keeps_bind; [apply keeps_fetch_some|intros r].
  apply keeps_bind; [apply keeps_free_result|intros _; apply keeps_ret].
Qed.
Lemma keeps_col_int r i : keeps P (col_int r i).
Proof. unfold col_int. repeat case_match; apply keeps_ret || apply keeps_leave. Qed.
Lemma keeps_col_float r i : keeps P (col_float r i).
Proof. unfold col_float. repeat case_match; apply keeps_ret || apply keeps_leave. Qed.
Lemma keeps_col_str r i : keeps P (col_str r i).
Proof. unfold col_str. repeat case_match; apply keeps_ret || apply keeps_leave. Qed.
Lemma keeps_labels (m : prog tx_exit conn Z) : keeps P m → keeps P (with_labels m).
Proof.
  intros Hm. apply keeps_label; [done|].
  intros [p| |u|]; try apply keeps_leave;
    (apply keeps_bind; [apply keeps_rollback|intros _; apply keeps_ret]).
Qed.
End keeps_tx.
End inert.

#[export] Hint Resolve durable_inert trouble_inert keeps_commit_trouble keeps_run_stmt
  keeps_open_result keeps_free_result keeps_rollback keeps_fetch_row keeps_fetch_some
  keeps_select1 keeps_col_int keeps_col_float keeps_col_str : keepdb.
