(* ===== verification/TpccInvariant.v ===== *)
(** * tpcc-mysql: consistency of the database

    The conditions the loader establishes and the transactions rely on and
    keep: order numbers without gaps, undelivered orders queued in new_orders,
    complete order lines and stock in range. *)

From Stdlib Require Import ZArith Lia Ascii String.
From stdpp Require Import base gmap list strings sorting numbers.
From S2P Require Import Prelude CFloat TpccSql.

Record consistent (b : db) : Prop := {
  (** The orders of a district are numbered from 1 below [d_next_o_id]. *)
  inv_orders : ∀ w d o, is_Some (orders b !! (w, d, o)) ↔
    ∃ dr, district b !! (w, d) = Some dr ∧ 1 ≤ o < d_next_o_id dr;
  (** An order waits in new_orders as long as it has no carrier ... *)
  inv_new_orders : ∀ w d o, (w, d, o) ∈ new_orders b ↔
    ∃ r, orders b !! (w, d, o) = Some r ∧ o_carrier_id r = None;
  (** ... and they are delivered in order. *)
  inv_fifo : ∀ w d o o', (w, d, o) ∈ new_orders b → o ≤ o' →
    is_Some (orders b !! (w, d, o')) → (w, d, o') ∈ new_orders b;
  (** An order has its [o_ol_cnt] lines, numbered from 1 ... *)
  inv_lines : ∀ w d o n, is_Some (order_line b !! (w, d, o, n)) ↔
    ∃ r, orders b !! (w, d, o) = Some r ∧ 1 ≤ n ≤ o_ol_cnt r;
  (** ... each with a delivery date when the order has a carrier. *)
  inv_delivered : ∀ w d o n l r,
    order_line b !! (w, d, o, n) = Some l → orders b !! (w, d, o) = Some r →
    (ol_delivery_d l = None ↔ o_carrier_id r = None);
  (** An order has a customer and a line; a district has a warehouse. *)
  inv_order : ∀ w d o r, orders b !! (w, d, o) = Some r →
    is_Some (customer b !! (w, d, o_c_id r)) ∧ 1 ≤ o_ol_cnt r;
  inv_district : ∀ w d dr, district b !! (w, d) = Some dr →
    1 ≤ d ≤ 10 ∧ 1 ≤ d_next_o_id dr ∧ is_Some (warehouse b !! w);
  (** Every warehouse stocks every item, in range. *)
  inv_stock : ∀ w i, is_Some (warehouse b !! w) → is_Some (item b !! i) →
    is_Some (stock b !! (w, i));
  inv_quantity : ∀ w i s, stock b !! (w, i) = Some s →
    0 ≤ s_quantity s ≤ 100 ∧ length (s_dist s) = 10%nat;
}.

(** Every warehouse stocks every item, in range: the part of consistency that
    concerns the stock. *)
Definition stocked (b : db) : Prop :=
  (∀ w i, is_Some (warehouse b !! w) → is_Some (item b !! i) → is_Some (stock b !! (w, i))) ∧
  (∀ w i s, stock b !! (w, i) = Some s → 0 ≤ s_quantity s ≤ 100 ∧ length (s_dist s) = 10%nat).

Lemma consistent_stocked (b : db) : consistent b → stocked b.
Proof. intros Hb. split; [apply inv_stock|apply inv_quantity]; done. Qed.

(** The next number of a district is free. *)
Lemma fresh_order (k : db) (w d : Z) (dr : district_row) :
  consistent k → district k !! (w, d) = Some dr →
  orders k !! (w, d, d_next_o_id dr) = None ∧ ((w, d, d_next_o_id dr) ∉ new_orders k) ∧
  (∀ n, order_line k !! (w, d, d_next_o_id dr, n) = None).
Proof.
  intros Hk Hdr.
  assert (orders k !! (w, d, d_next_o_id dr) = None) as Ho.
  { apply eq_None_not_Some. intros Hs%(inv_orders k Hk). destruct Hs as (dr' & Hdr' & Hr).
    simplify_eq. lia. }
  split; [done|]. split.
  - intros Hin%(inv_new_orders k Hk). destruct Hin as (r & Hr & _). congruence.
  - intros n. apply eq_None_not_Some. intros Hs%(inv_lines k Hk).
    destruct Hs as (r & Hr & _). congruence.
Qed.

(** A new order [r] of district [(w, d)] with all its lines, entered under the
    next number. *)
Section add_order.
Context (k b : db) (w d : Z) (dr : district_row) (r : order_row).
Let o := d_next_o_id dr.
Hypothesis Hk : consistent k.
Hypothesis Hdr : district k !! (w, d) = Some dr.
Hypothesis Hr : o_carrier_id r = None ∧ 1 ≤ o_ol_cnt r ∧
  is_Some (customer k !! (w, d, o_c_id r)).
Hypothesis Hw : warehouse b = warehouse k.
Hypothesis Hc : customer b = customer k.
Hypothesis Hd : ∀ w' d', district b !! (w', d') =
  if decide ((w', d') = (w, d)) then Some (set_d_next (o + 1) dr) else district k !! (w', d').
Hypothesis Ho : ∀ w' d' o', orders b !! (w', d', o') =
  if decide ((w', d', o') = (w, d, o)) then Some r else orders k !! (w', d', o').
Hypothesis Hn : new_orders b = {[(w, d, o)]} ∪ new_orders k.
Hypothesis Hl : ∀ w' d' o' m, (w', d', o') ≠ (w, d, o) →
  order_line b !! (w', d', o', m) = order_line k !! (w', d', o', m).
Hypothesis Hin : ∀ m, 1 ≤ m ≤ o_ol_cnt r →
  ∃ x, order_line b !! (w, d, o, m) = Some x ∧ ol_delivery_d x = None.
Hypothesis Hout : ∀ m, ¬ (1 ≤ m ≤ o_ol_cnt r) → order_line b !! (w, d, o, m) = None.
Hypothesis Hs : stocked b.

Lemma add_order_orders w' d' o' : is_Some (orders b !! (w', d', o')) ↔
  ∃ dr', district b !! (w', d') = Some dr' ∧ 1 ≤ o' < d_next_o_id dr'.
Proof.
  destruct (inv_district k Hk _ _ _ Hdr) as (_ & Hnext & _).
  pose proof (inv_orders k Hk w' d' o') as Hold. rewrite Ho, Hd. fold o in Hnext.
  repeat case_decide; simplify_eq; simpl.
  - split; [|by eauto]. intros _. eexists; split; [done|]. simpl. lia.
  - rewrite Hold. split.
    + intros (x & Hx & Hlt). simplify_eq. eexists. split; [done|]. simpl. unfold o in *. lia.
    + intros (x & [= <-] & Hlt). simpl in Hlt. exists dr. split; [done|].
      assert (o' ≠ o) by congruence. unfold o in *. lia.
  - done.
Qed.

Lemma add_order_new w' d' o' : (w', d', o') ∈ new_orders b ↔
  ∃ x, orders b !! (w', d', o') = Some x ∧ o_carrier_id x = None.
Proof.
  rewrite Hn, elem_of_union, elem_of_singleton, Ho, (inv_new_orders k Hk).
  case_decide as E; [|by naive_solver]. split; [|by auto]. intros _. destruct Hr; eauto.
Qed.

Lemma add_order_fifo w' d' o1 o2 : (w', d', o1) ∈ new_orders b → o1 ≤ o2 →
  is_Some (orders b !! (w', d', o2)) → (w', d', o2) ∈ new_orders b.
Proof.
  rewrite Hn, !elem_of_union, !elem_of_singleton. intros H1 Hle H2.
  destruct (decide ((w', d', o2) = (w, d, o))) as [|Hne]; [by left|right].
  rewrite Ho, decide_False in H2 by done. destruct H1 as [[= -> -> ->]|H1].
  - apply (inv_orders k Hk) in H2. destruct H2 as (x & Hx & Hlt). simplify_eq.
    assert (o2 ≠ o) by congruence. unfold o in *. lia.
  - by eapply (inv_fifo k Hk).
Qed.

Lemma add_order_lines w' d' o' n : is_Some (order_line b !! (w', d', o', n)) ↔
  ∃ x, orders b !! (w', d', o') = Some x ∧ 1 ≤ n ≤ o_ol_cnt x.
Proof.
  rewrite Ho. case_decide as E; simplify_eq.
  - destruct (decide (1 ≤ n ≤ o_ol_cnt r)) as [H1|H1].
    + split; [by eauto|]. intros _. destruct (Hin n H1) as (x & -> & _). done.
    + rewrite Hout by done. split; [by intros [? ?]|naive_solver].
  - rewrite Hl by done. apply (inv_lines k Hk).
Qed.

Lemma add_order_consistent : consistent b.
Proof.
  destruct Hs as [Hs1 Hs2].
  constructor; auto using add_order_orders, add_order_new, add_order_lines.
  - intros w' d' o1 o2. apply add_order_fifo.
  - intros w' d' o' n l x Hll Hx. rewrite Ho in Hx. case_decide as E; simplify_eq.
    + destruct (decide (1 ≤ n ≤ o_ol_cnt x)) as [H1|H1].
      * destruct (Hin n H1) as (y & Hy & Hyd). destruct Hr. simplify_eq. naive_solver.
      * rewrite Hout in Hll by done. done.
    + rewrite Hl in Hll by done. by eapply (inv_delivered k Hk).
  - intros w' d' o' x Hx. rewrite Ho in Hx. rewrite Hc. case_decide as E; simplify_eq.
    + by destruct Hr as (_ & ? & ?).
    + by eapply (inv_order k Hk).
  - intros w' d' x Hx. rewrite Hd in Hx. rewrite Hw. case_decide as E; simplify_eq.
    + destruct (inv_district k Hk _ _ _ Hdr) as (? & ? & ?). simpl. unfold o. split_and!; auto; lia.
    + by eapply (inv_district k Hk).
Qed.
End add_order.
