(* ===== verification/TpccSample.v ===== *)
(** * A small database

    One warehouse, one district, two customers of the same name, two items: the
    concrete input on which the transaction theorems are applied. *)

From Stdlib Require Import ZArith Lia SpecFloat Ascii String.
From stdpp Require Import base gmap list strings sorting numbers.
From S2P Require Import Prelude CFloat TpccSql TpccInvariant TpccMemDb.

Definition sample_stock (q : Z) : stock_row :=
  StockRow q (map (λ n : nat, lit "dist-info") (seq 0 10)) 0 0 0 (lit "original").

Definition sample_customer (first : string) : customer_row :=
  CustomerRow (lit first) (lit "OE") (lit "BARBARBAR") (lit "s1") (lit "s2") (lit "city")
    (lit "ST") (lit "123456789") (lit "0123456789012345") (lit "2014-01-01") (lit "BC")
    50000 10 (-1000) 1000 1 0 (lit "data").

Definition sample_db : db := Db
  {[1 := WarehouseRow (lit "ware") (lit "s1") (lit "s2") (lit "city") (lit "ST")
           (lit "123456789") 10 30000]}
  {[(1, 1) := DistrictRow (lit "dist") (lit "s1") (lit "s2") (lit "city") (lit "ST")
           (lit "123456789") 5 30000 1]}
  (<[(1, 1, 1) := sample_customer "zoe"]> {[(1, 1, 2) := sample_customer "amy"]})
  [] ∅ ∅ ∅
  (<[1 := ItemRow 7 (lit "first item") 1000 (lit "original")]>
     {[2 := ItemRow 8 (lit "second item") 250 (lit "plain")]})
  (<[(1, 1) := sample_stock 50]> {[(1, 2) := sample_stock 5]}).

Lemma sample_consistent : consistent sample_db.
Proof.
  constructor; simpl.
  - intros w d o. rewrite lookup_empty. split; [by intros [? ?]|].
    intros (dr & Hdr & Hlt). apply lookup_singleton_Some in Hdr as [_ <-]. simpl in Hlt. lia.
  - intros w d o. rewrite lookup_empty. set_solver.
  - set_solver.
  - intros w d o n. rewrite !lookup_empty. split; [by intros [? ?]|naive_solver].
  - done.
  - done.
  - intros w d dr [[= <- <-] <-]%lookup_singleton_Some. simpl. split; [lia|]. split; [lia|done].
  - intros w i [wr Hw] [it Hi]. apply lookup_singleton_Some in Hw as [<- _].
    apply lookup_insert_Some in Hi as [[<- _]|[_ [<- _]%lookup_singleton_Some]]; done.
  - intros w i s [[[= <- <-] <-]|[_ [_ <-]%lookup_singleton_Some]]%lookup_insert_Some;
      simpl; lia.
Qed.
