(* ===== verification/TpccNeword.v ===== *)
(** * tpcc-mysql: neword.c, the new-order transaction

    The statements of the transaction in order, the selection sort that fixes
    the order in which stock rows are locked, and the labels.  The clock reads
    and the trace file are not modelled; [datetime] is the string
    [gettimestamp] wrote. *)

From Stdlib Require Import ZArith Lia SpecFloat Ascii String.
From stdpp Require Import base gmap list strings sorting numbers.
From S2P Require Import Prelude CFloat TpccSupport TpccSql TpccTx TpccInvariant.
From S2P Require Import TpccMemDb TpccSample.

Section neword.
Context {conn : Type} {Sv : SqlServer} {Api : MySQL conn}.

Abbreviation tx := (prog tx_exit conn).

(** ** Sorting the lines: [ol_num_seq] *)

(** [(MAXITEMS + 1) * supware[ol_num_seq[j]] + itemid[ol_num_seq[j]]] *)
Definition ol_key (itemid supware : list Z) (ol_num_seq : list (option Z)) (j : Z) : tx Z :=
  k ← slot_get ol_num_seq j;
  s ← arr_get supware k;
  p ← int_mul (MAXITEMS + 1) s;
  k ← slot_get ol_num_seq j;
  i ← arr_get itemid k;
  int_add p i.

(** The body of the inner loop on [(tmp, min_num)]. *)
Definition sort_scan (itemid supware : list Z) (ol_num_seq : list (option Z))
  (j : Z) (acc : Z * Z) : tx (Z * Z) :=
  let '(tmp, min_num) := acc in
  x ← ol_key itemid supware ol_num_seq j;
  if x <? tmp then
    tmp ← ol_key itemid supware ol_num_seq j;
    mret (tmp, j)
  else mret (tmp, min_num).

Definition sort_turn (itemid supware : list Z) (o_ol_cnt i : Z)
  (ol_num_seq : list (option Z)) : tx (list (option Z)) :=
  tmp ← ol_key itemid supware ol_num_seq i;
  '(_, min_num) ← for_lt (i + 1) o_ol_cnt (sort_scan itemid supware ol_num_seq) (tmp, i);
  if negb (min_num =? i) then
    swp ← slot_get ol_num_seq min_num;
    x ← slot_get ol_num_seq i;
    ol_num_seq ← arr_set ol_num_seq min_num (Some x);
    arr_set ol_num_seq i (Some swp)
  else mret ol_num_seq.

Definition sort_lines (itemid supware : list Z) (o_ol_cnt : Z) : tx (list (option Z)) :=
  ol_num_seq ← for_lt 0 o_ol_cnt (λ i seq, arr_set seq i (Some i))
                 (replicate (Z.to_nat MAX_NUM_ITEMS) None);
  last ← int_sub o_ol_cnt 1;
  for_lt 0 last (sort_turn itemid supware o_ol_cnt) ol_num_seq.

(** ** The order lines *)

(** The locals the lines fill in.  The rows of [iname] are [MAX_ITEM_LEN] bytes,
    one array. *)
Record neword_out : Type := NewordOut {
  no_iname : list (option ascii);
  no_bg : list (option ascii);
  no_amt : list (option float32);
  no_price : list (option float32);
  no_stock : list (option Z);
  no_total : float32;
  no_dist_info : option cstr;
}.

Definition neword_out_init : neword_out :=
  NewordOut (replicate (Z.to_nat (MAX_NUM_ITEMS * MAX_ITEM_LEN)) None)
    (replicate (Z.to_nat MAX_NUM_ITEMS) None) (replicate (Z.to_nat MAX_NUM_ITEMS) None)
    (replicate (Z.to_nat MAX_NUM_ITEMS) None) (replicate (Z.to_nat MAX_NUM_ITEMS) None)
    (S754_zero false) None.

(** [pick_dist_info]: no case for other numbers leaves the buffer alone. *)
Definition pick_dist_info (ol_dist_info : option cstr) (s_dist : list cstr) (d_id : Z)
  : option cstr :=
  if (1 <=? d_id) && (d_id <=? 10)
  then (λ s, cstring_of (strncpy_bytes 25 s)) <$> s_dist !! Z.to_nat (d_id - 1)
  else ol_dist_info.

Definition restock (s_quantity ol_quantity : Z) : tx Z :=
  if ol_quantity <? s_quantity then int_sub s_quantity ol_quantity
  else
    x ← int_sub s_quantity ol_quantity;
    int_add x 91.

(** [ol_quantity * i_price * (1 + w_tax + d_tax) * (1 - c_discount)] *)
Definition line_amount (ol_quantity : Z) (i_price w_tax d_tax c_discount : float32)
  : float32 :=
  f32_mul
    (f32_mul (f32_mul (f32_of_Z ol_quantity) i_price)
       (f32_add (f32_add (f32_of_Z 1) w_tax) d_tax))
    (f32_sub (f32_of_Z 1) c_discount).

(** proceed 6: the item, [invaliditem] when there is none. *)
Definition neword_item (ol_i_id : Z) : tx (float32 * cstr * cstr) :=
  open_result 6 Q5 [VInt ol_i_id];;
  r ← fetch_row true 6 Q5;
  match r with
  | None => free_result Q5;; leave Invaliditem
  | Some r =>
      free_result Q5;;
      i_price ← col_float r 0;
      i_name ← col_str r 1;
      i_data ← col_str r 2;
      mret (i_price, i_name, i_data)
  end.

(** [price[k] = i_price; strncpy(iname[k], i_name, 25);] *)
Definition neword_keep_item (k : Z) (i_price : float32) (i_name : cstr) (out : neword_out)
  : tx neword_out :=
  price ← arr_set (no_price out) k (Some i_price);
  iname ← write_bytes (no_iname out) (k * MAX_ITEM_LEN) (strncpy_bytes 25 i_name);
  mret (NewordOut iname (no_bg out) (no_amt out) price (no_stock out) (no_total out)
          (no_dist_info out)).

(** proceed 7: the stock row. *)
Definition neword_stock (ol_i_id ol_supply_w_id : Z) : tx (Z * cstr * list cstr) :=
  r ← select1 false 7 Q6 [VInt ol_i_id; VInt ol_supply_w_id];
  s_quantity ← col_int r 0;
  s_data ← col_str r 1;
  s_01 ← col_str r 2; s_02 ← col_str r 3; s_03 ← col_str r 4; s_04 ← col_str r 5;
  s_05 ← col_str r 6; s_06 ← col_str r 7; s_07 ← col_str r 8; s_08 ← col_str r 9;
  s_09 ← col_str r 10; s_10 ← col_str r 11;
  mret (s_quantity, s_data, [s_01; s_02; s_03; s_04; s_05; s_06; s_07; s_08; s_09; s_10]).

(** [stock[k] = s_quantity] and the brand mark. *)
Definition neword_keep_stock (k s_quantity : Z) (i_data s_data : cstr) (s_dist : list cstr)
  (d_id : Z) (out : neword_out) : tx neword_out :=
  let dist := pick_dist_info (no_dist_info out) s_dist d_id in
  stock ← arr_set (no_stock out) k (Some s_quantity);
  bg ← arr_set (no_bg out) k
         (Some (if strstr i_data (lit "original") && strstr s_data (lit "original")
                then "B" else "G")%char);
  mret (NewordOut (no_iname out) bg (no_amt out) (no_price out) stock (no_total out) dist).

(** [amt[k] = ol_amount; total += ol_amount;] *)
Definition neword_keep_amount (k : Z) (ol_amount : float32) (out : neword_out)
  : tx neword_out :=
  amt ← arr_set (no_amt out) k (Some ol_amount);
  mret (NewordOut (no_iname out) (no_bg out) amt (no_price out) (no_stock out)
          (f32_add (no_total out) ol_amount) (no_dist_info out)).

(** What the lines use of the earlier steps. *)
Record neword_head : Type := NewordHead {
  nh_w_id : Z; nh_d_id : Z; nh_o_id : Z;
  nh_w_tax : float32; nh_d_tax : float32; nh_c_discount : float32;
}.

(** proceed 9 *)
Definition neword_insert_line (h : neword_head) (ol_number ol_i_id ol_supply_w_id ol_quantity : Z)
  (ol_amount : float32) (ol_dist_info : option cstr) : tx unit :=
  match ol_dist_info with
  | None => leave (TxUndefined UninitRead)
  | Some info =>
      run_stmt 9 Q8 [VInt (nh_o_id h); VInt (nh_d_id h); VInt (nh_w_id h); VInt ol_number;
        VInt ol_i_id; VInt ol_supply_w_id; VInt ol_quantity; VFloat ol_amount; VStr info]
  end.

(** The body of the loop on [ol_number]. *)
Definition neword_line (itemid supware qty : list Z) (ol_num_seq : list (option Z))
  (h : neword_head) (ol_number : Z) (out : neword_out) : tx neword_out :=
  k ← slot_get ol_num_seq (ol_number - 1);
  ol_supply_w_id ← arr_get supware k;
  ol_i_id ← arr_get itemid k;
  ol_quantity ← arr_get qty k;
  '(i_price, i_name, i_data) ← neword_item ol_i_id;
  out ← neword_keep_item k i_price i_name out;
  '(s_quantity, s_data, s_dist) ← neword_stock ol_i_id ol_supply_w_id;
  out ← neword_keep_stock k s_quantity i_data s_data s_dist (nh_d_id h) out;
  s_quantity ← restock s_quantity ol_quantity;
  run_stmt 8 Q7 [VInt s_quantity; VInt ol_i_id; VInt ol_supply_w_id];;
  let ol_amount :=
    line_amount ol_quantity i_price (nh_w_tax h) (nh_d_tax h) (nh_c_discount h) in
  out ← neword_keep_amount k ol_amount out;
  neword_insert_line h ol_number ol_i_id ol_supply_w_id ol_quantity ol_amount
    (no_dist_info out);;
  mret out.

(** ** The transaction *)

(** proceed 1 *)
Definition neword_customer (w_id d_id c_id : Z) : tx (float32 * float32) :=
  r ← select1 true 1 Q0 [VInt w_id; VInt d_id; VInt c_id];
  c_discount ← col_float r 0;
  w_tax ← col_float r 3;
  mret (c_discount, w_tax).

(** proceed 2 *)
Definition neword_district (w_id d_id : Z) : tx (Z * float32) :=
  r ← select1 true 2 Q1 [VInt d_id; VInt w_id];
  d_next_o_id ← col_int r 0;
  d_tax ← col_float r 1;
  mret (d_next_o_id, d_tax).

(** proceed 3, 4 and 5: the next order id and the order itself. *)
Definition neword_order (datetime : cstr) (w_id d_id c_id o_ol_cnt o_all_local d_next_o_id : Z)
  : tx Z :=
  run_stmt 3 Q2 [VInt d_next_o_id; VInt d_id; VInt w_id];;
  let o_id := d_next_o_id in
  run_stmt 4 Q3 [VInt o_id; VInt d_id; VInt w_id; VInt c_id; VStr datetime;
                 VInt o_ol_cnt; VInt o_all_local];;
  run_stmt 5 Q4 [VInt o_id; VInt d_id; VInt w_id];;
  mret o_id.

Definition neword_body (datetime : cstr) (w_id d_id c_id o_ol_cnt o_all_local : Z)
  (itemid supware qty : list Z) : tx Z :=
  '(c_discount, w_tax) ← neword_customer w_id d_id c_id;
  '(d_next_o_id, d_tax) ← neword_district w_id d_id;
  o_id ← neword_order datetime w_id d_id c_id o_ol_cnt o_all_local d_next_o_id;
  ol_num_seq ← sort_lines itemid supware o_ol_cnt;
  for_lt 1 (o_ol_cnt + 1)
    (neword_line itemid supware qty ol_num_seq
       (NewordHead w_id d_id o_id w_tax d_tax c_discount))
    neword_out_init;;
  commit_or_sqlerr 9;;
  mret 1.

Definition neword (datetime : cstr) (w_id d_id c_id o_ol_cnt o_all_local : Z)
  (itemid supware qty : list Z) : tx Z :=
  with_labels (neword_body datetime w_id d_id c_id o_ol_cnt o_all_local itemid supware qty).
End neword.

(** ** The sort is correct *)

(** The value of an array at an index inside it. *)
Definition at_ (l : list Z) (k : Z) : Z := default 0 (l !! Z.to_nat k).

(** The array [ol_num_seq] when its first cells hold [seq]. *)
Definition slots (seq : list Z) : list (option Z) :=
  (Some <$> seq) ++ replicate (Z.to_nat MAX_NUM_ITEMS - length seq) None.

Lemma at_get {F S} `{HasUB F} (l : list Z) (k : Z) (s : S) :
  0 ≤ k < Z.of_nat (length l) → arr_get (F:=F) l k s = (Done (at_ l k), s).
Proof.
  intros Hk. destruct (arr_get_lookup (F:=F) (S:=S) l k Hk) as (x & Hx & ->).
  unfold at_. by rewrite Hx.
Qed.

Lemma at_lookup (l : list Z) (k : Z) :
  0 ≤ k < Z.of_nat (length l) → l !! Z.to_nat k = Some (at_ l k).
Proof.
  intros Hk. destruct (lookup_lt_is_Some_2 l (Z.to_nat k)) as [x Hx]; [lia|].
  unfold at_. by rewrite Hx.
Qed.

Lemma slots_get {conn} (seq : list Z) (j : Z) (c : conn) :
  0 ≤ j < Z.of_nat (length seq) →
  slot_get (F:=tx_exit) (slots seq) j c = (Done (at_ seq j), c).
Proof.
  intros Hj. rewrite (slot_get_ok _ _ (at_ seq j)); [done|lia|].
  unfold slots. rewrite lookup_app_l by (rewrite length_fmap; lia).
  by rewrite list_lookup_fmap, at_lookup.
Qed.

Lemma slots_set {conn} (seq : list Z) (j x : Z) (c : conn) :
  0 ≤ j < Z.of_nat (length seq) →
  arr_set (F:=tx_exit) (slots seq) j (Some x) c = (Done (slots (<[Z.to_nat j := x]> seq)), c).
Proof.
  intros Hj. rewrite arr_set_ok.
  - unfold slots. rewrite insert_app_l by (rewrite length_fmap; lia).
    by rewrite list_fmap_insert, length_insert.
  - unfold slots. rewrite length_app, length_fmap. lia.
Qed.

Lemma perm_range (cnt : Z) (seq : list Z) (j : Z) :
  seq ≡ₚ seqZ 0 cnt → 0 ≤ j < cnt →
  Z.of_nat (length seq) = cnt ∧ 0 ≤ at_ seq j < cnt.
Proof.
  intros Hp Hj. assert (Z.of_nat (length seq) = cnt) as Hl
    by (rewrite Hp, length_seqZ; lia).
  split; [done|]. cut (at_ seq j ∈ seqZ 0 cnt); [rewrite elem_of_seqZ; lia|]. rewrite <- Hp.
  apply (list_elem_of_lookup_2 _ (Z.to_nat j)). apply at_lookup. lia.
Qed.

Lemma at_insert (seq : list Z) (i j x : Z) :
  0 ≤ i < Z.of_nat (length seq) → 0 ≤ j →
  at_ (<[Z.to_nat i := x]> seq) j = if decide (j = i) then x else at_ seq j.
Proof.
  intros Hi Hj. unfold at_. case_decide as E; subst.
  - rewrite list_lookup_insert_eq by lia. done.
  - rewrite list_lookup_insert_ne by lia. done.
Qed.

Section sort_proof.
Context {conn : Type} (itemid supware : list Z) (cnt : Z).
Hypothesis Hcnt : 1 ≤ cnt ≤ 15.
Hypothesis Hitem : cnt ≤ Z.of_nat (length itemid).
Hypothesis Hsup : cnt ≤ Z.of_nat (length supware).
Hypothesis Hkeys : ∀ k, 0 ≤ k < cnt →
  1 ≤ at_ itemid k ≤ MAXITEMS + 1 ∧ 0 ≤ at_ supware k ≤ 21473.

Definition key_of (k : Z) : Z := (MAXITEMS + 1) * at_ supware k + at_ itemid k.

Lemma ol_key_run (seq : list Z) (j : Z) (c : conn) :
  seq ≡ₚ seqZ 0 cnt → 0 ≤ j < cnt →
  ol_key itemid supware (slots seq) j c = (Done (key_of (at_ seq j)), c).
Proof.
  intros Hp Hj. destruct (perm_range cnt seq j Hp Hj) as [Hl Hr].
  destruct (Hkeys _ Hr) as [Hi Hs]. unfold MAXITEMS in *. unfold ol_key.
  rewrite (bind_done _ _ _ _ _ (slots_get seq j c ltac:(lia))).
  rewrite (bind_done _ _ _ _ _ (at_get supware (at_ seq j) c ltac:(lia))).
  unfold int_mul. rewrite int_of_ok by (unfold INT_MIN, INT_MAX, MAXITEMS; lia).
  rewrite bind_ret.
  rewrite (bind_done _ _ _ _ _ (slots_get seq j c ltac:(lia))).
  rewrite (bind_done _ _ _ _ _ (at_get itemid (at_ seq j) c ltac:(lia))).
  unfold int_add. rewrite int_of_ok by (unfold INT_MIN, INT_MAX, MAXITEMS; lia). done.
Qed.

(** The inner loop finds the smallest key from [i] on. *)
Lemma sort_scan_run (seq : list Z) (i : Z) (c : conn) :
  seq ≡ₚ seqZ 0 cnt → 0 ≤ i < cnt →
  ∃ tmp m, for_lt (i + 1) cnt (sort_scan itemid supware (slots seq))
      (key_of (at_ seq i), i) c = (Done (tmp, m), c) ∧
    i ≤ m < cnt ∧ ∀ a, i ≤ a < cnt → key_of (at_ seq m) ≤ key_of (at_ seq a).
Proof.
  intros Hp Hi.
  destruct (for_lt_run (λ j (p : Z * Z) c', c' = c ∧ i ≤ p.2 < cnt ∧
      p.1 = key_of (at_ seq p.2) ∧ ∀ a, i ≤ a < j → p.1 ≤ key_of (at_ seq a))
    (sort_scan itemid supware (slots seq)) (i + 1) cnt (key_of (at_ seq i), i) c)
    as ([tmp m] & c' & E & -> & Hm & Ht & Hmin); [lia| |
    |simpl in *; subst tmp; eauto 6].
  { split_and!; simpl; try done; try lia. intros a Ha. by replace a with i by lia. }
  intros j [tmp m] ? Hj (-> & Hm & Ht & Hmin). simpl in *. unfold sort_scan.
  pose proof (ol_key_run seq j c Hp ltac:(lia)) as Ek.
  rewrite (bind_done _ _ _ _ _ Ek).
  destruct (Z.ltb_spec (key_of (at_ seq j)) tmp) as [Hlt|Hge].
  - rewrite (bind_done _ _ _ _ _ Ek). do 2 eexists; split; [done|].
    split_and!; simpl; try done; try lia. intros a Ha.
    destruct (decide (a = j)) as [->|]; [lia|]. specialize (Hmin a ltac:(lia)). lia.
  - do 2 eexists; split; [done|]. split_and!; simpl; try done; try lia. intros a Ha.
    destruct (decide (a = j)) as [->|]; [lia|]. specialize (Hmin a ltac:(lia)). lia.
Qed.

(** The first [i] places hold the smallest keys, in order. *)
Definition sorted_to (i : Z) (seq : list Z) : Prop :=
  ∀ a b, 0 ≤ a < i → a ≤ b < cnt → key_of (at_ seq a) ≤ key_of (at_ seq b).

Lemma swap_sorted (seq : list Z) (i m : Z) :
  seq ≡ₚ seqZ 0 cnt → 0 ≤ i < cnt → i ≤ m < cnt →
  (∀ a, i ≤ a < cnt → key_of (at_ seq m) ≤ key_of (at_ seq a)) →
  sorted_to i seq →
  sorted_to (i + 1) (<[Z.to_nat i := at_ seq m]> (<[Z.to_nat m := at_ seq i]> seq)).
Proof.
  intros Hp Hi Hm Hmin Hs a b Ha Hb.
  destruct (perm_range cnt seq i Hp Hi) as [Hl _].
  rewrite !at_insert by (rewrite ?length_insert; lia).
  repeat case_decide; subst; try lia;
    try (apply Hmin; lia); try (apply Hs; lia).
Qed.

Lemma sort_turn_run (seq : list Z) (i : Z) (c : conn) :
  seq ≡ₚ seqZ 0 cnt → 0 ≤ i < cnt → sorted_to i seq →
  ∃ seq', sort_turn itemid supware cnt i (slots seq) c = (Done (slots seq'), c) ∧
    seq' ≡ₚ seqZ 0 cnt ∧ sorted_to (i + 1) seq'.
Proof.
  intros Hp Hi Hs. destruct (perm_range cnt seq i Hp Hi) as [Hl _].
  destruct (sort_scan_run seq i c Hp Hi) as (tmp & m & E & Hm & Hmin).
  unfold sort_turn. rewrite (bind_done _ _ _ _ _ (ol_key_run seq i c Hp Hi)).
  rewrite (bind_done _ _ _ _ _ E). simpl.
  pose proof (swap_sorted seq i m Hp Hi Hm Hmin Hs) as Hsw.
  pose proof (list_swap_Permutation seq (Z.to_nat m) (Z.to_nat i) _ _
    (at_lookup seq m ltac:(lia)) (at_lookup seq i ltac:(lia))) as Hpm.
  destruct (Z.eqb_spec m i) as [->|Hne]; simpl.
  - exists seq. split; [done|]. split; [done|].
    rewrite list_insert_insert_eq, list_insert_id in Hsw by (apply at_lookup; lia). done.
  - rewrite (bind_done _ _ _ _ _ (slots_get seq m c ltac:(lia))).
    rewrite (bind_done _ _ _ _ _ (slots_get seq i c ltac:(lia))).
    rewrite (bind_done _ _ _ _ _ (slots_set seq m (at_ seq i) c ltac:(lia))).
    rewrite slots_set by (rewrite length_insert; lia).
    eexists; split; [done|]. split; [by rewrite Hpm|done].
Qed.

Lemma sort_init_run (c : conn) :
  for_lt (F:=tx_exit) 0 cnt (λ i seq, arr_set seq i (Some i))
    (replicate (Z.to_nat MAX_NUM_ITEMS) None) c = (Done (slots (seqZ 0 cnt)), c).
Proof.
  destruct (for_lt_run (λ i l (c' : conn), c' = c ∧ l = slots (seqZ 0 i))
    (λ i seq, arr_set (F:=tx_exit) seq i (Some i)) 0 cnt
    (replicate (Z.to_nat MAX_NUM_ITEMS) None) c) as (l & c' & -> & -> & ->);
    [lia|done| |done].
  intros i l ? Hi [-> ->]. do 2 eexists. split; [|split; [reflexivity|reflexivity]].
  assert (length (slots (seqZ 0 i)) = 15%nat) as Hl.
  { unfold slots. rewrite length_app, length_fmap, length_replicate, length_seqZ.
    unfold MAX_NUM_ITEMS. lia. }
  rewrite arr_set_ok by (rewrite Hl; lia). unfold mret, prog_ret. do 2 f_equal.
  unfold slots. rewrite seqZ_app by lia. rewrite fmap_app, <- app_assoc, length_app.
  rewrite insert_app_r_alt; rewrite length_fmap, !length_seqZ; [|lia].
  f_equal. replace (Z.to_nat i - Z.to_nat (i - 0))%nat with 0%nat by lia.
  unfold MAX_NUM_ITEMS.
  replace (Z.to_nat 15 - Z.to_nat i)%nat with (S (Z.to_nat 15 - (Z.to_nat i + 1))) by lia.
  rewrite Nat.sub_diag. simpl. f_equal; f_equal; lia.
Qed.

Lemma sort_lines_run (c : conn) :
  ∃ seq, sort_lines itemid supware cnt c = (Done (slots seq), c) ∧
    seq ≡ₚ seqZ 0 cnt ∧ sorted_to (cnt - 1) seq.
Proof.
  unfold sort_lines. rewrite (bind_done _ _ _ _ _ (sort_init_run c)).
  unfold int_sub. rewrite int_of_ok by (unfold INT_MIN, INT_MAX; lia). rewrite bind_ret.
  destruct (for_lt_run (λ i l (c' : conn), c' = c ∧ ∃ seq, l = slots seq ∧
      seq ≡ₚ seqZ 0 cnt ∧ sorted_to i seq)
    (sort_turn itemid supware cnt) 0 (cnt - 1) (slots (seqZ 0 cnt)) c)
    as (l & c' & -> & -> & seq & -> & Hp & Hs); [lia| | |eauto].
  { split; [done|]. exists (seqZ 0 cnt). split_and!; try done. intros a b Ha. lia. }
  intros i l ? Hi (-> & seq & -> & Hp & Hs).
  destruct (sort_turn_run seq i c Hp ltac:(lia) Hs) as (seq' & E & Hp' & Hs').
  do 2 eexists. split; [exact E|]. eauto.
Qed.
End sort_proof.

(** ** What the transaction promises *)

Section neword_spec.
Context {Sv : SqlServer}.

(** A line: supplying warehouse, item, quantity. *)
Definition order_request : Type := Z * Z * Z.

Definition requests (itemid supware qty : list Z) (seq : list Z) : list order_request :=
  map (λ k, (at_ supware k, at_ itemid k, at_ qty k)) seq.

Definition restocked (s_quantity ol_quantity : Z) : Z :=
  if ol_quantity <? s_quantity then s_quantity - ol_quantity
  else s_quantity - ol_quantity + 91.

(** One line: the stock goes down and the line is entered. *)
Definition place_line (h : neword_head) (n : Z) (rq : order_request) (b : db) : option db :=
  let '(sw, i, q) := rq in
  it ← item b !! i;
  st ← stock b !! (sw, i);
  Some (set_order_line
    (<[(nh_w_id h, nh_d_id h, nh_o_id h, n) :=
       OrderLineRow i sw None q
         (dec_of_float (line_amount q (float_of_dec (i_price it)) (nh_w_tax h) (nh_d_tax h)
            (nh_c_discount h)))
         (cstring_of (strncpy_bytes 25 (default [] (s_dist st !! Z.to_nat (nh_d_id h - 1)))))]>
       (order_line b))
    (set_stock (<[(sw, i) := set_s_quantity (restocked (s_quantity st) q) st]> (stock b)) b)).

Fixpoint place_lines (h : neword_head) (n : Z) (l : list order_request) (b : db) : option db :=
  match l with
  | [] => Some b
  | rq :: l => b' ← place_line h n rq b; place_lines h (n + 1) l b'
  end.

(** The order is entered under the next number of its district. *)
Definition enter_order (datetime : cstr) (w d c cnt local o : Z) (b : db) : db :=
  set_new_orders ({[(w, d, o)]} ∪ new_orders b)
    (set_orders (<[(w, d, o) := OrderRow c datetime None cnt local]> (orders b))
      (set_district (alter (set_d_next (o + 1)) (w, d) (district b)) b)).

Definition new_order (datetime : cstr) (w d c cnt local : Z) (l : list order_request) (b : db)
  : option db :=
  wr ← warehouse b !! w;
  cr ← customer b !! (w, d, c);
  dr ← district b !! (w, d);
  let o := d_next_o_id dr in
  place_lines
    (NewordHead w d o (float_of_dec (w_tax wr)) (float_of_dec (d_tax dr))
       (float_of_dec (c_discount cr)))
    1 l (enter_order datetime w d c cnt local o b).

Lemma place_lines_snoc (h : neword_head) (n : Z) (l : list order_request) (rq : order_request)
    (b : db) :
  place_lines h n (l ++ [rq]) b =
  (b' ← place_lines h n l b; place_line h (n + Z.of_nat (length l)) rq b').
Proof.
  revert n b; induction l as [|x l IH]; intros n b; simpl.
  - rewrite Z.add_0_r. by destruct (place_line h n rq b).
  - destruct (place_line h n x b) as [b'|]; simpl; [|done]. rewrite IH.
    by replace (n + 1 + Z.of_nat (length l)) with (n + Z.of_nat (S (length l))) by lia.
Qed.

Lemma restocked_range (s q : Z) : 0 ≤ s ≤ 100 → 1 ≤ q ≤ 10 → 1 ≤ restocked s q ≤ 100.
Proof. intros Hs Hq. unfold restocked. destruct (Z.ltb_spec q s); lia. Qed.

(** What a line leaves alone. *)
Lemma place_line_frame (h : neword_head) (n : Z) (rq : order_request) (b b' : db) :
  place_line h n rq b = Some b' →
  warehouse b' = warehouse b ∧ district b' = district b ∧ customer b' = customer b ∧
  new_orders b' = new_orders b ∧ orders b' = orders b ∧ item b' = item b ∧
  (∀ key, key ≠ (nh_w_id h, nh_d_id h, nh_o_id h, n) →
     order_line b' !! key = order_line b !! key) ∧
  ∃ l, order_line b' !! (nh_w_id h, nh_d_id h, nh_o_id h, n) = Some l ∧
    ol_delivery_d l = None.
Proof.
  destruct rq as [[sw i] q]. unfold place_line.
  destruct (item b !! i) as [it|]; simpl; [|done].
  destruct (stock b !! (sw, i)) as [st|]; simpl; [|done]. intros [= <-]. simpl.
  split_and!; try done.
  - intros key Hne. by rewrite lookup_insert_ne.
  - eexists. rewrite lookup_insert_eq. split; [done|]. done.
Qed.

Lemma place_line_stocked (h : neword_head) (n : Z) (rq : order_request) (b b' : db) :
  1 ≤ rq.2 ≤ 10 → place_line h n rq b = Some b' → stocked b → stocked b'.
Proof.
  destruct rq as [[sw i] q]. unfold place_line. simpl. intros Hq.
  destruct (item b !! i) as [it|]; simpl; [|done].
  destruct (stock b !! (sw, i)) as [st|] eqn:Est; simpl; [|done]. intros [= <-] [Ha Hb].
  split; simpl.
  - intros w j Hw Hj. destruct (decide ((sw, i) = (w, j))) as [<-|Hne].
    + by rewrite lookup_insert_eq.
    + rewrite lookup_insert_ne by done. auto.
  - intros w j s. destruct (decide ((sw, i) = (w, j))) as [<-|Hne].
    + rewrite lookup_insert_eq. intros [= <-]. simpl.
      destruct (Hb _ _ _ Est) as [Hs Hd]. split; [|done].
      pose proof (restocked_range (s_quantity st) q Hs Hq). lia.
    + rewrite lookup_insert_ne by done. apply Hb.
Qed.
End neword_spec.

(** ** The transaction implements it *)

Section neword_refines.
Context {conn : Type} {Sv : SqlServer} {Api : MySQL conn} {Laws : MySQLLaws conn}.

(** The local arrays keep their sizes. *)
Definition out_ok (out : neword_out) : Prop :=
  length (no_iname out) = 360%nat ∧ length (no_bg out) = 15%nat ∧
  length (no_amt out) = 15%nat ∧ length (no_price out) = 15%nat ∧
  length (no_stock out) = 15%nat.

Lemma out_init_ok : out_ok neword_out_init.
Proof. by vm_compute. Qed.

Lemma keep_item_run (k : Z) (p : float32) (name : cstr) (out : neword_out) :
  0 ≤ k < 14 → out_ok out →
  ∃ out', (∀ c : conn, neword_keep_item k p name out c = (Done out', c)) ∧ out_ok out' ∧
    no_dist_info out' = no_dist_info out.
Proof.
  intros Hk (H1 & H2 & H3 & H4 & H5).
  destruct (write_bytes_ok (F:=tx_exit) (S:=conn) (strncpy_bytes 25 name) (no_iname out)
    (k * MAX_ITEM_LEN)) as (iname' & E & Hl);
    [unfold MAX_ITEM_LEN; lia|rewrite strncpy_length; unfold MAX_ITEM_LEN; lia|].
  eexists. split; [|split].
  - intros c. unfold neword_keep_item. rewrite arr_set_ok by lia. rewrite bind_ret.
    rewrite (bind_done _ _ _ _ _ (E c)). done.
  - unfold out_ok. simpl. rewrite length_insert. split_and!; congruence.
  - done.
Qed.

Lemma keep_stock_run (k q d : Z) (i_data s_data : cstr) (dist : list cstr)
    (out : neword_out) :
  0 ≤ k < 15 → out_ok out → 1 ≤ d ≤ 10 → length dist = 10%nat →
  ∃ out', (∀ c : conn, neword_keep_stock k q i_data s_data dist d out c = (Done out', c)) ∧
    out_ok out' ∧
    no_dist_info out' = Some (cstring_of (strncpy_bytes 25 (default [] (dist !! Z.to_nat (d - 1))))).
Proof.
  intros Hk (H1 & H2 & H3 & H4 & H5) Hd Hl. eexists. split; [|split].
  - intros c. unfold neword_keep_stock. rewrite !arr_set_ok by lia. done.
  - unfold out_ok. simpl. rewrite !length_insert. done.
  - simpl. unfold pick_dist_info.
    rewrite (proj2 (Z.leb_le 1 d)), (proj2 (Z.leb_le d 10)) by lia. simpl.
    destruct (lookup_lt_is_Some_2 dist (Z.to_nat (d - 1))) as [x ->]; [lia|]. done.
Qed.

Lemma keep_amount_run (k : Z) (a : float32) (out : neword_out) :
  0 ≤ k < 15 → out_ok out →
  ∃ out', (∀ c : conn, neword_keep_amount k a out c = (Done out', c)) ∧ out_ok out' ∧
    no_dist_info out' = no_dist_info out.
Proof.
  intros Hk (H1 & H2 & H3 & H4 & H5). eexists. split; [|split].
  - intros c. unfold neword_keep_amount. rewrite arr_set_ok by lia. done.
  - unfold out_ok. simpl. rewrite !length_insert. done.
  - done.
Qed.

Lemma restock_run (s q : Z) (c : conn) :
  0 ≤ s ≤ 100 → 1 ≤ q ≤ 10 → restock s q c = (Done (restocked s q), c).
Proof.
  intros Hs Hq. unfold restock, restocked, int_sub, int_add.
  destruct (Z.ltb_spec q s).
  - rewrite int_of_ok by (unfold INT_MIN, INT_MAX; lia). done.
  - rewrite int_of_ok by (unfold INT_MIN, INT_MAX; lia). rewrite bind_ret.
    rewrite int_of_ok by (unfold INT_MIN, INT_MAX; lia). done.
Qed.

Section line.
Context (k : db) (R : db → Prop) (inv : Prop) (itemid supware qty : list Z) (cnt : Z).
Context (seq : list Z) (h : neword_head).
Hypothesis Hcnt : 1 ≤ cnt ≤ 14.
Hypothesis Hlen : cnt ≤ Z.of_nat (length itemid) ∧ cnt ≤ Z.of_nat (length supware) ∧
  cnt ≤ Z.of_nat (length qty).
Hypothesis Hqty : ∀ j, 0 ≤ j < cnt → 1 ≤ at_ qty j ≤ 10.
Hypothesis Hseq : seq ≡ₚ seqZ 0 cnt.
Hypothesis Hd : 1 ≤ nh_d_id h ≤ 10.

(** Fetching the item. *)
Lemma item_step {A} (b : db) (i : Z) (m : float32 * cstr * cstr → prog tx_exit conn A) Q :
  (item b !! i = None → inv) → 
  (∀ it, item b !! i = Some it →
     triple (at_db b k None) (m (float_of_dec (i_price it), i_name it, i_data it)) Q
       (tx_leaves k R inv)) →
  triple (at_db b k None) (x ← neword_item i; m x) Q (tx_leaves k R inv).
Proof.
  intros Hinv Hm. apply (triple_bind _ _ (λ x c, at_db b k None c ∧
    ∃ it, item b !! i = Some it ∧ x = (float_of_dec (i_price it), i_name it, i_data it))).
  2: { intros x c (Hat & it & Hit & ->). exact (Hm it Hit c Hat). }
  unfold neword_item. apply open_step; [done..|]. simpl. intros l ->.
  apply fetch_step; [done| |].
  - intros Hnone. apply (free_step k R inv Q5 b None); [done|by intros c Hat|].
    apply triple_leave. intros c (Hv & Hdur & _). simpl. split; [done|].
    apply Hinv. by destruct (item b !! i).
  - intros x l' Hx. apply (free_step k R inv Q5 b None); [done|by intros c [Hat _]|].
    destruct (item b !! i) as [it|] eqn:Hit; [|done]. simplify_eq.
    intros c Hat. simpl. eauto.
Qed.

Lemma stock_step {A} (b : db) (i sw : Z) (st : stock_row)
    (m : Z * cstr * list cstr → prog tx_exit conn A) Q :
  stock b !! (sw, i) = Some st → length (s_dist st) = 10%nat →
  triple (at_db b k None) (m (s_quantity st, s_data st, s_dist st)) Q (tx_leaves k R inv) →
  triple (at_db b k None) (x ← neword_stock i sw; m x) Q (tx_leaves k R inv).
Proof.
  intros Hst Hl Hm. apply (triple_bind _ _ (λ x c,
    x = (s_quantity st, s_data st, s_dist st) ∧ at_db b k None c)).
  2: { intros x. apply triple_pure. by intros ->. }
  unfold neword_stock. eapply select1_step; [done|done| |].
  { simpl. intros l ->. by rewrite Hst. }
  destruct st as [q dist ytd oc rc data]; simpl in *.
  by do 11 (destruct dist as [|? dist]; try done).
Qed.

Lemma line_rule (b : db) (n : Z) (out : neword_out) :
  1 ≤ n ≤ cnt → out_ok out → stocked b →
  order_line b !! (nh_w_id h, nh_d_id h, nh_o_id h, n) = None →
  is_Some (warehouse b !! at_ supware (at_ seq (n - 1))) →
  (item b !! at_ itemid (at_ seq (n - 1)) = None → inv) →
  triple (at_db b k None) (neword_line itemid supware qty (slots seq) h n out)
    (λ out' c, out_ok out' ∧ ∃ b', at_db b' k None c ∧
       place_line h n (at_ supware (at_ seq (n - 1)), at_ itemid (at_ seq (n - 1)),
                       at_ qty (at_ seq (n - 1))) b = Some b')
    (tx_leaves k R inv).
Proof.
  intros Hn Hout [Hstk Hq] Hfresh Hw Hinv.
  destruct (perm_range cnt seq (n - 1) Hseq ltac:(lia)) as [Hl Hr].
  set (j := at_ seq (n - 1)) in *.
  unfold neword_line.
  eapply triple_step; [intros c; apply slots_get; lia|]. fold j.
  eapply triple_step; [intros c; apply at_get; lia|].
  eapply triple_step; [intros c; apply at_get; lia|].
  eapply triple_step; [intros c; apply at_get; lia|].
  apply item_step; [done|]. intros it Hit.
  destruct (Hstk _ _ Hw (mk_is_Some _ _ Hit)) as [st Hst].
  destruct (Hq _ _ _ Hst) as [Hsq Hsd].
  destruct (keep_item_run j (float_of_dec (i_price it)) (i_name it) out ltac:(lia) Hout)
    as (out1 & E1 & Hok1 & _).
  eapply triple_step; [exact E1|].
  eapply stock_step; [done|done|].
  destruct (keep_stock_run j (s_quantity st) (nh_d_id h) (i_data it) (s_data st) (s_dist st)
    out1 ltac:(lia) Hok1 Hd Hsd) as (out2 & E2 & Hok2 & Hdi2).
  eapply triple_step; [exact E2|].
  eapply triple_step; [intros c; apply restock_run; auto|].
  eapply update_step; [done|done|].
  set (a := line_amount _ _ _ _ _).
  destruct (keep_amount_run j a out2 ltac:(lia) Hok2) as (out3 & E3 & Hok3 & Hdi3).
  eapply triple_step; [exact E3|].
  rewrite Hdi3, Hdi2. unfold neword_insert_line.
  eapply update_step; [done| |].
  { simpl. unfold insert_row. rewrite Hfresh. done. }
  intros c Hat. split; [done|]. eexists. split; [exact Hat|].
  unfold place_line. rewrite Hit. simpl. rewrite Hst. simpl. do 2 f_equal.
  unfold set_order_line, set_stock. simpl. f_equal.
  apply map_eq. intros key. destruct (decide (key = (at_ supware j, at_ itemid j))) as [->|Hne].
  - by rewrite lookup_alter_eq, lookup_insert_eq, Hst.
  - by rewrite lookup_alter_ne, lookup_insert_ne.
Qed.

(** The loop enters all the lines. *)
Lemma lines_rule (b0 : db) :
  stocked b0 →
  (∀ n, 1 ≤ n → order_line b0 !! (nh_w_id h, nh_d_id h, nh_o_id h, n) = None) →
  (∀ j, 0 ≤ j < cnt → is_Some (warehouse b0 !! at_ supware j)) →
  (∀ j, 0 ≤ j < cnt → item b0 !! at_ itemid j = None → inv) →
  triple (at_db b0 k None)
    (for_lt 1 (cnt + 1) (neword_line itemid supware qty (slots seq) h) neword_out_init)
    (λ _ c, ∃ b', at_db b' k None c ∧
       place_lines h 1 (requests itemid supware qty seq) b0 = Some b')
    (tx_leaves k R inv).
Proof.
  intros Hst Hfr Hw Hi.
  set (I := λ (n : Z) (out : neword_out) (c : conn), out_ok out ∧ ∃ b', at_db b' k None c ∧
    (place_lines h 1 (requests itemid supware qty (take (Z.to_nat (n - 1)) seq)) b0 = Some b' ∧
     stocked b' ∧ warehouse b' = warehouse b0 ∧ item b' = item b0 ∧
     ∀ m, n ≤ m → order_line b' !! (nh_w_id h, nh_d_id h, nh_o_id h, m) = None)).
  eapply (triple_conseq _ (I 1 neword_out_init) _ _ (I (cnt + 1))); [| | |done].
  - intros c Hat. split; [apply out_init_ok|]. exists b0. by split.
  - apply triple_for_lt; [lia|]. intros n out Hn. unfold I.
    apply triple_pure. intros Hout. apply triple_exists. intros b'.
    destruct (perm_range cnt seq (n - 1) Hseq ltac:(lia)) as [Hl Hr].
    eapply triple_weaken; [apply triple_pure|intros c [H1 H2]; exact (conj H2 H1)].
    intros (Hp & Hst' & Hwh & Hit & Hol).
    eapply triple_ends; [apply line_rule| |done];
      [lia|done|done|apply Hol; lia|rewrite Hwh; auto|rewrite Hit; eauto|].
    intros out' c (Hok & b'' & Hat & Hpl). split; [done|]. exists b''. split; [done|].
    destruct (place_line_frame _ _ _ _ _ Hpl) as (Ew & _ & _ & _ & _ & Ei & Hne & _).
    split_and!; try congruence.
    + replace (Z.to_nat (n + 1 - 1)) with (S (Z.to_nat (n - 1))) by lia.
      rewrite (take_S_r _ _ (at_ seq (n - 1))) by (apply at_lookup; lia).
      unfold requests. rewrite map_app. simpl. rewrite place_lines_snoc.
      unfold requests in Hp. rewrite Hp. simpl.
      rewrite length_map, length_take_le by lia.
      by replace (1 + Z.of_nat (Z.to_nat (n - 1))) with n by lia.
    + eapply place_line_stocked; [|done..]. apply Hqty. lia.
    + intros m Hm. rewrite Hne; [apply Hol; lia|]. intros [=]. lia.
  - intros out c (_ & b' & Hat & Hp & _). exists b'. split; [done|].
    rewrite take_ge in Hp; [done|]. rewrite Hseq, length_seqZ. lia.
Qed.
End line.

(** The arguments the driver passes: existing customer and warehouses, item
    numbers of which an invalid one is [MAXITEMS + 1], quantities of 1 to 10. *)
Record neword_args (k : db) (w d c cnt : Z) (itemid supware qty : list Z) : Prop := {
  na_district : is_Some (district k !! (w, d));
  na_customer : is_Some (customer k !! (w, d, c));
  na_cnt : 1 ≤ cnt ≤ 14;
  na_lengths : cnt ≤ Z.of_nat (length itemid) ∧ cnt ≤ Z.of_nat (length supware) ∧
    cnt ≤ Z.of_nat (length qty);
  na_items : ∀ j, 0 ≤ j < cnt → 1 ≤ at_ itemid j ≤ MAXITEMS + 1;
  na_supware : ∀ j, 0 ≤ j < cnt →
    0 ≤ at_ supware j ≤ 21473 ∧ is_Some (warehouse k !! at_ supware j);
  na_qty : ∀ j, 0 ≤ j < cnt → 1 ≤ at_ qty j ≤ 10;
}.

(** The orders the transaction may enter: the lines in the order of their
    warehouses and items. *)
Definition neword_effect (datetime : cstr) (w d c cnt local : Z)
  (itemid supware qty : list Z) (k b : db) : Prop :=
  ∃ seq, seq ≡ₚ seqZ 0 cnt ∧ sorted_to itemid supware cnt (cnt - 1) seq ∧
    new_order datetime w d c cnt local (requests itemid supware qty seq) k = Some b.

Definition unknown_item (cnt : Z) (itemid : list Z) (k : db) : Prop :=
  ∃ j, 0 ≤ j < cnt ∧ (item k !! at_ itemid j = None).

Lemma neword_body_rule (datetime : cstr) (w d c cnt local : Z) (itemid supware qty : list Z)
    (k : db) :
  consistent k → neword_args k w d c cnt itemid supware qty →
  triple (at_db k k None)
    (neword_body datetime w d c cnt local itemid supware qty)
    (committed (neword_effect datetime w d c cnt local itemid supware qty k))
    (tx_leaves k (neword_effect datetime w d c cnt local itemid supware qty k)
       (unknown_item cnt itemid k)).
Proof.
  intros Hk [[dr Hdr] [cr Hcr] Hcnt Hlen Hitems Hsup Hqty].
  destruct (inv_district k Hk _ _ _ Hdr) as (Hd & Hnext & [wr Hwr]).
  destruct (fresh_order k w d dr Hk Hdr) as (Ho & Hno & Hol).
  unfold neword_body, neword_customer, neword_district, neword_order.
  tx_select. { by rewrite Hwr, Hcr. }
  tx_select. { by rewrite Hdr. }
  tx_update. { reflexivity. }
  tx_update. { simpl. unfold insert_row. simpl. by rewrite Ho. }
  tx_update. { simpl. by rewrite decide_False. }
  apply triple_step_ex. intros s _.
  destruct (sort_lines_run itemid supware cnt ltac:(lia) ltac:(lia) ltac:(lia)
    (λ j Hj, conj (Hitems j Hj) (proj1 (Hsup j Hj))) s) as (seq & Hsort & Hp & Hs).
  exists (slots seq). split; [done|].
  eapply triple_bind.
  { eapply lines_rule; eauto.
    - by apply (consistent_stocked k).
    - intros j Hj. apply Hsup. done.
    - intros j Hj Hi. exists j. done. }
  intros out. apply triple_exists. intros b'.
  eapply triple_weaken; [apply triple_pure|intros s' [H1 H2]; exact (conj H2 H1)].
  intros Hpl. apply commit_step. exists seq. split_and!; try done.
  unfold new_order. rewrite Hwr. simpl. rewrite Hcr. simpl. rewrite Hdr. simpl. exact Hpl.
Qed.

End neword_refines.

(** ** The effect keeps the database consistent *)

Section neword_consistent.
Context {Sv : SqlServer}.

Lemma place_lines_frame (h : neword_head) (l : list order_request) (n : Z) (b b' : db) :
  place_lines h n l b = Some b' →
  warehouse b' = warehouse b ∧ district b' = district b ∧ customer b' = customer b ∧
  new_orders b' = new_orders b ∧ orders b' = orders b ∧ item b' = item b ∧
  (∀ w d o m, (w, d, o) ≠ (nh_w_id h, nh_d_id h, nh_o_id h) ∨ m < n ∨
     n + Z.of_nat (length l) ≤ m → order_line b' !! (w, d, o, m) = order_line b !! (w, d, o, m)) ∧
  (∀ m, n ≤ m < n + Z.of_nat (length l) →
     ∃ r, order_line b' !! (nh_w_id h, nh_d_id h, nh_o_id h, m) = Some r ∧
       ol_delivery_d r = None).
Proof.
  revert n b; induction l as [|rq l IH]; intros n b; simpl.
  { intros [= <-]. split_and!; try done. intros m Hm. lia. }
  destruct (place_line h n rq b) as [b1|] eqn:E1; simpl; [|done]. intros E2.
  destruct (place_line_frame _ _ _ _ _ E1) as (H1 & H2 & H3 & H4 & H5 & H6 & H7 & r & Hr & Hd).
  destruct (IH _ _ E2) as (G1 & G2 & G3 & G4 & G5 & G6 & G7 & G8).
  split_and!; try congruence.
  - intros w d o m Hm. rewrite G7 by (destruct Hm as [|]; [auto|lia]).
    apply H7. intros [= -> -> -> ->]. destruct Hm as [Hne|]; [done|lia].
  - intros m Hm. destruct (decide (m = n)) as [->|Hne].
    + exists r. rewrite G7 by lia. done.
    + apply G8. lia.
Qed.

Lemma place_lines_stocked (h : neword_head) (l : list order_request) (n : Z) (b b' : db) :
  Forall (λ rq, 1 ≤ rq.2 ≤ 10) l →
  place_lines h n l b = Some b' → stocked b → stocked b'.
Proof.
  intros Hl. revert n b; induction Hl as [|rq l Hq Hl IH]; intros n b; simpl.
  { by intros [= <-]. }
  destruct (place_line h n rq b) as [b1|] eqn:E1; simpl; [|done]. intros E2 Hs.
  eapply IH; [done|]. by eapply place_line_stocked.
Qed.

(** Entering an order and its lines keeps every condition. *)
Lemma new_order_consistent (datetime : cstr) (w d c local : Z) (l : list order_request)
    (k b : db) :
  Forall (λ rq, 1 ≤ rq.2 ≤ 10) l → (0 < length l)%nat → consistent k →
  new_order datetime w d c (Z.of_nat (length l)) local l k = Some b → consistent b.
Proof.
  intros Hl Hlen Hk. unfold new_order.
  destruct (warehouse k !! w) as [wr|] eqn:Hwr; simpl; [|done].
  destruct (customer k !! (w, d, c)) as [cr|] eqn:Hcr; simpl; [|done].
  destruct (district k !! (w, d)) as [dr|] eqn:Hdr; simpl; [|done].
  destruct (fresh_order k w d dr Hk Hdr) as (Ho & Hno & Hol).
  destruct (inv_district k Hk _ _ _ Hdr) as (Hd & Hnext & Hw).
  set (o := d_next_o_id dr) in *. intros Hpl.
  destruct (place_lines_frame _ _ _ _ _ Hpl) as (Ew & Ed & Ec & En & Eo & Ei & Hne & Hnew).
  assert (stocked b) as [Hst Hsq].
  { eapply place_lines_stocked; [done|exact Hpl|]. by apply (consistent_stocked k). }
  simpl in *.
  eapply (add_order_consistent k b w d dr
    (OrderRow c datetime None (Z.of_nat (length l)) local)); try done; simpl.
  - split_and!; [done|lia|by rewrite Hcr].
  - intros w' d'. rewrite Ed. case_decide as E; simplify_eq.
    + by rewrite lookup_alter_eq, Hdr.
    + by rewrite lookup_alter_ne.
  - intros w' d' o'. rewrite Eo. case_decide as E; [rewrite E; apply lookup_insert_eq|].
    by rewrite lookup_insert_ne.
  - intros w' d' o' m Hne'. apply Hne. auto.
  - intros m Hm. apply Hnew. lia.
  - intros m Hm. rewrite Hne by lia. apply Hol.
Qed.

Lemma neword_effect_consistent (datetime : cstr) (w d c cnt local : Z)
    (itemid supware qty : list Z) (k b : db) :
  consistent k → neword_args k w d c cnt itemid supware qty →
  neword_effect datetime w d c cnt local itemid supware qty k b → consistent b.
Proof.
  intros Hk Hargs (seq & Hp & _ & Hb).
  destruct Hargs as [_ _ Hcnt _ _ _ Hqty].
  assert (Z.of_nat (length (requests itemid supware qty seq)) = cnt) as Hl.
  { unfold requests. rewrite length_map, Hp, length_seqZ. lia. }
  eapply new_order_consistent; [| |done|rewrite Hl; exact Hb]; [|lia].
  unfold requests. apply Forall_forall. intros rq (j & <- & Hj%list_elem_of_In)%in_map_iff. simpl.
  rewrite Hp in Hj. apply Hqty. apply elem_of_seqZ in Hj. lia.
Qed.
End neword_consistent.

(** ** Properties *)

Section neword_properties.
Context {conn : Type} {Sv : SqlServer} {Api : MySQL conn} {Laws : MySQLLaws conn}.

(** The sort never faults on the driver's arguments and leaves in
    [ol_num_seq] the line numbers 0 .. o_ol_cnt - 1, each once, ordered by
    supplying warehouse and then item: every new order locks its stock rows in
    one global order. *)
Theorem sort_lines_sorts (itemid supware : list Z) (cnt : Z) (c : conn) :
  1 ≤ cnt ≤ MAX_NUM_ITEMS →
  cnt ≤ Z.of_nat (length itemid) → cnt ≤ Z.of_nat (length supware) →
  (∀ k, 0 ≤ k < cnt → 1 ≤ at_ itemid k ≤ MAXITEMS + 1 ∧ 0 ≤ at_ supware k ≤ 21473) →
  ∃ seq, sort_lines itemid supware cnt c = (Done (slots seq), c) ∧
    seq ≡ₚ seqZ 0 cnt ∧
    StronglySorted (λ x y, at_ supware x < at_ supware y ∨
      (at_ supware x = at_ supware y ∧ at_ itemid x ≤ at_ itemid y)) seq.
Proof.
  unfold MAX_NUM_ITEMS. intros Hcnt Hi Hs Hk.
  destruct (sort_lines_run itemid supware cnt Hcnt Hi Hs Hk c) as (seq & E & Hp & Hsrt).
  exists seq. split; [done|]. split; [done|].
  assert (∀ x, x ∈ seq → 0 ≤ x < cnt) as Hr.
  { intros x Hx. rewrite Hp in Hx. apply elem_of_seqZ in Hx. lia. }
  destruct (perm_range cnt seq 0 Hp ltac:(lia)) as [Hl _].
  apply StronglySorted_by_lookup. intros a b x y Hx Hy Hab.
  pose proof (lookup_lt_Some _ _ _ Hy) as Hb.
  specialize (Hsrt (Z.of_nat a) (Z.of_nat b) ltac:(lia) ltac:(lia)).
  unfold key_of, at_ at 2 4 6 8 in Hsrt. rewrite !Nat2Z.id, Hx, Hy in Hsrt. simpl in Hsrt.
  destruct (Hk x (Hr x (list_elem_of_lookup_2 _ _ _ Hx))) as [Hx1 _].
  destruct (Hk y (Hr y (list_elem_of_lookup_2 _ _ _ Hy))) as [Hy1 _].
  unfold MAXITEMS in *. lia.
Qed.


Lemma neword_durable_consistent (datetime : cstr) (w d c cnt local : Z)
    (itemid supware qty : list Z) (s s' : conn) (r : outcome tx_exit Z) :
  consistent (durable s) → neword_args (durable s) w d c cnt itemid supware qty →
  view s = durable s →
  neword datetime w d c cnt local itemid supware qty s = (r, s') → consistent (durable s').
Proof.
  intros Hk Ha Hv E.
  destruct (tx_all_or_nothing _ _ _ _ _ _ _
    (neword_body_rule datetime w d c cnt local itemid supware qty _ Hk Ha) Hv eq_refl E)
    as [->|He]; eauto using neword_effect_consistent.
Qed.

End neword_properties.

(** The copy of an item name into [iname] stays inside the array for the
    lines 0 to 13 and writes one byte past its end for line 14: an order of
    [MAX_NUM_ITEMS] lines overruns the array. *)
Theorem keep_item_overruns {conn : Type} (k : Z) (p : float32) (name : cstr)
    (out : neword_out) (c : conn) :
  out_ok out → 0 ≤ k < MAX_NUM_ITEMS →
  (k < 14 → ∃ out', neword_keep_item k p name out c = (Done out', c)) ∧
  (k = 14 → neword_keep_item k p name out c = (Leave (TxUndefined OutOfBounds), c)).
Proof.
  intros Hok Hk. split.
  - intros Hlt. destruct (keep_item_run (conn:=conn) k p name out ltac:(lia) Hok)
      as (out' & E & _). eauto.
  - intros ->. destruct Hok as (H1 & _ & _ & H4 & _). unfold neword_keep_item.
    rewrite arr_set_ok by lia. rewrite bind_ret. apply bind_leave.
    apply write_bytes_overrun; [done| |].
    + rewrite strncpy_length, H1. unfold MAX_ITEM_LEN. lia.
    + intros E%(f_equal length). by rewrite strncpy_length in E.
Qed.

Lemma keep_item_overruns_witness :
  neword_keep_item 14 (S754_zero false) (lit "item") neword_out_init sample_db =
  (Leave (TxUndefined OutOfBounds), sample_db).
Proof.
  refine (proj2 (keep_item_overruns 14 (S754_zero false) (lit "item") neword_out_init sample_db
    _ _) _); [by vm_compute|by vm_compute|done].
Defined.

Lemma sort_lines_sorts_witness :
  ∃ seq, sort_lines [2; 1; 1] [1; 1; 3] 3 tt = (Done (slots seq), tt) ∧ seq ≡ₚ seqZ 0 3 ∧
    StronglySorted (λ x y, at_ [1; 1; 3] x < at_ [1; 1; 3] y ∨
      (at_ [1; 1; 3] x = at_ [1; 1; 3] y ∧ at_ [2; 1; 1] x ≤ at_ [2; 1; 1] y)) seq.
Proof.
  apply (sort_lines_sorts [2; 1; 1] [1; 1; 3] 3 tt); [by vm_compute|done|done|].
  intros k Hk. assert (k = 0 ∨ k = 1 ∨ k = 2) as [->|[->| ->]] by lia; by vm_compute.
Defined.

Lemma sample_args : neword_args sample_db 1 1 2 2 [2; 1] [1; 1] [3; 7].
Proof.
  constructor; try done; try (by eexists); intros j Hj;
    assert (j = 0 ∨ j = 1) as [->| ->] by lia; split; try (by vm_compute); by eexists.
Qed.


(** One order on the sample database. *)
Definition sample_run : outcome tx_exit Z * mem :=
  neword (lit "2014-01-01") 1 1 2 2 1 [2; 1] [1; 1] [3; 7] (mem_open sample_db []).


(** The database after that order: an input for the other transactions. *)
Definition sample_ordered : db := durable sample_run.2.

(** Conversion unfolds it last. *)
#[global] Strategy 1000 [sample_run sample_ordered].

Lemma sample_ordered_consistent : consistent sample_ordered.
Proof.
  exact (neword_durable_consistent (lit "2014-01-01") 1 1 2 2 1 [2; 1] [1; 1] [3; 7]
    (mem_open sample_db []) sample_run.2 sample_run.1 sample_consistent sample_args eq_refl
    (surjective_pairing sample_run)).
Qed.

(** The in-memory server commits it, the line of item 1 first. *)
Example sample_run_commits :
  sample_run.1 = Done 1 ∧ new_orders sample_ordered = {[(1, 1, 1)]} ∧
  ol_i_id <$> order_line sample_ordered !! (1, 1, 1, 1) = Some 1 ∧
  s_quantity <$> stock sample_ordered !! (1, 1) = Some 43 ∧
  s_quantity <$> stock sample_ordered !! (1, 2) = Some 2.
Proof. split_and!; by vm_compute. Qed.
