(* ===== verification/TpccPayment.v ===== *)
(** * tpcc-mysql: payment.c, the payment transaction

    [datetime] is the string [gettimestamp] wrote; [p_datetime] and [p_c_data]
    are the bytes the conversions [%12c] and [%24c] print for the pointers they
    are given. *)

From Stdlib Require Import ZArith Lia SpecFloat Ascii String.
From stdpp Require Import base gmap list strings sorting numbers pretty.
From S2P Require Import Prelude CFloat TpccSupport TpccSql TpccTx TpccInvariant.
From S2P Require Import TpccMemDb TpccSample.

Section payment.
Context {conn : Type} {Sv : SqlServer} {Api : MySQL conn}.

Abbreviation tx := (prog tx_exit conn).

(** [if (namecnt % 2) namecnt++;] and then [namecnt / 2]. *)
Definition midpoint (namecnt : Z) : tx Z :=
  odd ← int_rem namecnt 2;
  namecnt ← (if odd =? 0 then mret namecnt else int_add namecnt 1);
  int_div namecnt 2.

(** proceed 1 to 4: the year to date totals; the names for [h_data]. *)
Definition payment_ware (w_id : Z) (h_amount : float32) : tx cstr :=
  run_stmt 1 Q9 [VFloat h_amount; VInt w_id];;
  r ← select1 false 2 Q10 [VInt w_id];
  col_str r 5.

Definition payment_dist (w_id d_id : Z) (h_amount : float32) : tx cstr :=
  run_stmt 3 Q11 [VFloat h_amount; VInt w_id; VInt d_id];;
  r ← select1 false 4 Q12 [VInt w_id; VInt d_id];
  col_str r 5.

(** proceed 5: the customer in the middle of those with the name. *)
Definition payment_byname (c_w_id c_d_id c_id : Z) (c_last : cstr) : tx Z :=
  r ← select1 false 5 Q13 [VInt c_w_id; VInt c_d_id; VStr c_last];
  namecnt ← col_int r 0;
  open_result 5 Q14 [VInt c_w_id; VInt c_d_id; VStr c_last];;
  half ← midpoint namecnt;
  c_id ← for_lt 0 half (λ _ _, r ← fetch_some false 5 Q14; col_int r 0) c_id;
  free_result Q14;;
  mret c_id.

(** The text printed into [c_new_data[502]] and the old data appended to it. *)
Definition payment_note (p_datetime p_c_data : ascii) (c_id c_d_id c_w_id d_id w_id : Z)
  (h_amount : float32) : cstr :=
  lit "| " ++ fmt_d 4 c_id ++ lit " " ++ fmt_d 2 c_d_id ++ lit " " ++ fmt_d 4 c_w_id ++
  lit " " ++ fmt_d 2 d_id ++ lit " " ++ fmt_d 4 w_id ++ lit " $" ++ fmt_f2 7 h_amount ++
  lit " " ++ pad_left 12 [p_datetime] ++ lit " " ++ pad_left 24 [p_c_data].

Definition payment_new_data (note c_data : cstr) : tx cstr :=
  if (length note <? 502)%nat then
    let c_new_data := cstring_of note in
    let c_new_data := c_new_data ++ take (500 - length c_new_data) c_data in
    mret (take 500 c_new_data)
  else leave (TxUndefined OutOfBounds).

(** proceed 6 to 9: the balance of the customer, and its data for bad credit. *)
Definition payment_customer (p_datetime p_c_data : ascii) (c_w_id c_d_id c_id d_id w_id : Z)
  (h_amount : float32) : tx unit :=
  r ← select1 true 6 Q15 [VInt c_w_id; VInt c_d_id; VInt c_id];
  c_credit ← col_str r 9;
  c_balance ← col_float r 12;
  let c_balance := f32_add c_balance h_amount in
  if strstr (take 2 c_credit) (lit "BC") then
    r ← select1 false 7 Q16 [VInt c_w_id; VInt c_d_id; VInt c_id];
    c_data ← col_str r 0;
    c_new_data ← payment_new_data
      (payment_note p_datetime p_c_data c_id c_d_id c_w_id d_id w_id h_amount) c_data;
    run_stmt 8 Q17 [VFloat c_balance; VStr c_data; VInt c_w_id; VInt c_d_id; VInt c_id]
  else
    run_stmt 9 Q18 [VFloat c_balance; VInt c_w_id; VInt c_d_id; VInt c_id].

(** [h_data[26]]. *)
Definition payment_h_data (w_name d_name : cstr) : tx cstr :=
  b ← strncpy_to (replicate 26 None) 0 w_name 10;
  b ← arr_set b 10 (Some zero);
  b ← strncat_to b d_name 10;
  b ← arr_set b 20 (Some " "%char);
  b ← arr_set b 21 (Some " "%char);
  b ← arr_set b 22 (Some " "%char);
  b ← arr_set b 23 (Some " "%char);
  b ← arr_set b 24 (Some zero);
  read_cstring b.

Definition payment_body (datetime : cstr) (p_datetime p_c_data : ascii) (w_id d_id : Z)
  (byname : bool) (c_w_id c_d_id c_id_arg : Z) (c_last : cstr) (h_amount : float32) : tx Z :=
  w_name ← payment_ware w_id h_amount;
  d_name ← payment_dist w_id d_id h_amount;
  c_id ← (if byname then payment_byname c_w_id c_d_id c_id_arg c_last else mret c_id_arg);
  payment_customer p_datetime p_c_data c_w_id c_d_id c_id d_id w_id h_amount;;
  h_data ← payment_h_data w_name d_name;
  run_stmt 10 Q19 [VInt c_d_id; VInt c_w_id; VInt c_id; VInt d_id; VInt w_id; VStr datetime;
                   VFloat h_amount; VStr h_data];;
  commit_or_sqlerr 10;;
  mret 1.

Definition payment (datetime : cstr) (p_datetime p_c_data : ascii) (w_id d_id : Z)
  (byname : bool) (c_w_id c_d_id c_id : Z) (c_last : cstr) (h_amount : float32) : tx Z :=
  with_labels (payment_body datetime p_datetime p_c_data w_id d_id byname c_w_id c_d_id c_id
                 c_last h_amount).
End payment.

(** ** What the transaction promises *)

Section payment_spec.
Context {Sv : SqlServer}.

(** The customers a payment may pick: the given one, or the one at position
    [n/2] rounded up of the [n] customers of that name ordered by first name. *)
Definition picks_customer (b : db) (w d : Z) (byname : bool) (c_arg : Z) (last : cstr) (c : Z)
  : Prop :=
  if byname then
    ∃ l, l ≡ₚ customers_named b w d last ∧
      Sorted (λ x y, str_le (c_first x.2) (c_first y.2) = true) l ∧
      c = match l !! ((length l + 1) / 2 - 1)%nat with Some (c, _) => c | None => c_arg end
  else c = c_arg.

Definition h_data_of (w_name d_name : cstr) : cstr :=
  take 10 w_name ++ take 10 d_name ++
  (if decide (length (take 10 w_name ++ take 10 d_name) = 20%nat) then lit "    " else []).

(** The totals, the balance and the history change; the customer's data does
    not. *)
Definition paid (datetime : cstr) (w d cw cd c : Z) (amount : float32) (wr : warehouse_row)
  (dr : district_row) (cr : customer_row) (b : db) : db :=
  set_history (history b ++ [HistoryRow c cd cw d w datetime (dec_of_float amount)
                               (h_data_of (w_name wr) (d_name dr))])
    (set_customer (<[(cw, cd, c) := set_customer_account
        (dec_of_float (f32_add (float_of_dec (c_balance cr)) amount)) (c_data cr)
        (c_delivery_cnt cr) cr]> (customer b))
      (set_district (<[(w, d) := add_d_ytd (dec_of_float amount) dr]> (district b))
        (set_warehouse (<[w := add_w_ytd (dec_of_float amount) wr]> (warehouse b)) b))).

Definition payment_effect (datetime : cstr) (w d : Z) (byname : bool) (cw cd c_arg : Z)
  (last : cstr) (amount : float32) (k b : db) : Prop :=
  ∃ c wr dr cr, picks_customer k cw cd byname c_arg last c ∧
    warehouse k !! w = Some wr ∧ district k !! (w, d) = Some dr ∧
    customer k !! (cw, cd, c) = Some cr ∧
    b = paid datetime w d cw cd c amount wr dr cr k.

(** The arguments: an existing district, an existing customer (or at least one
    of the name), names without a NUL, an amount of reasonable length. *)
Record payment_args (k : db) (w d cw cd c : Z) (last : cstr) (amount : float32) : Prop := {
  pa_warehouse : ∃ wr, warehouse k !! w = Some wr ∧ (zero ∉ w_name wr);
  pa_district : ∃ dr, district k !! (w, d) = Some dr ∧ (zero ∉ d_name dr);
  pa_customer : is_Some (customer k !! (cw, cd, c));
  pa_named : Z.of_nat (length (customers_named k cw cd last)) < INT_MAX;
  pa_ints : Forall (λ z, -10 ^ 10 < z < 10 ^ 10) [w; d; cw; cd];
  pa_ids : ∀ c, is_Some (customer k !! (cw, cd, c)) → -10 ^ 10 < c < 10 ^ 10;
  pa_amount : (length (fmt_f2 7 amount) ≤ 100)%nat;
}.
End payment_spec.

(** ** Local computations *)

Lemma pretty_N_go_length (n : nat) (x : N) (s : string) :
  (Z.of_N x < 10 ^ Z.of_nat n) → (String.length (pretty_N_go x s) ≤ n + String.length s)%nat.
Proof.
  revert x s; induction n as [|n IH]; intros x s Hx.
  - assert (x = 0%N) as -> by lia. rewrite pretty_N_go_0. lia.
  - destruct (decide (x = 0%N)) as [->|Hne]; [rewrite pretty_N_go_0; lia|].
    rewrite pretty_N_go_step by lia. etrans; [apply IH|simpl; lia].
    rewrite N2Z.inj_div. apply Z.div_lt_upper_bound; [lia|].
    rewrite Nat2Z.inj_succ, Z.pow_succ_r in Hx by lia. lia.
Qed.

Lemma lit_length (s : string) : length (lit s) = String.length s.
Proof. induction s; simpl; [done|]. f_equal. exact IHs. Qed.

Lemma fmt_d_length (w : nat) (z : Z) :
  -10 ^ 10 < z < 10 ^ 10 → (length (fmt_d w z) ≤ Nat.max w 11)%nat.
Proof.
  intros Hz. unfold fmt_d, pad_left. rewrite length_app, length_replicate, lit_length.
  assert (∀ x : N, Z.of_N x < 10 ^ 10 → (String.length (pretty x) ≤ 10)%nat) as HN.
  { intros x Hx. unfold pretty, pretty_N. case_decide; [simpl; lia|].
    pose proof (pretty_N_go_length 10 x "" ltac:(lia)) as Hl. simpl in Hl. lia. }
  assert (String.length (pretty z) ≤ 11)%nat; [|lia].
  destruct z as [|p|p].
  - simpl. lia.
  - change (pretty (Zpos p)) with (pretty (N.pos p)). etrans; [apply HN; lia|lia].
  - change (pretty (Zneg p)) with (String "-" (pretty (N.pos p))).
    change (S (String.length (pretty (N.pos p))) ≤ 11)%nat.
    specialize (HN (N.pos p) ltac:(lia)). lia.
Qed.

Lemma pad_left_length (w : nat) (s : cstr) : length (pad_left w s) = Nat.max w (length s).
Proof. unfold pad_left. rewrite length_app, length_replicate. lia. Qed.

Lemma elem_of_take_inv {A} (x : A) (n : nat) (l : list A) : x ∈ take n l → x ∈ l.
Proof. intros (i & Hi & _)%elem_of_take. by eapply list_elem_of_lookup_2. Qed.

Section payment_local.
Context {conn : Type}.

Lemma midpoint_run (n : nat) (c : conn) :
  Z.of_nat n < INT_MAX →
  midpoint (Z.of_nat n) c = (Done (Z.of_nat ((n + 1) / 2)), c).
Proof.
  intros Hn. unfold INT_MAX in Hn. unfold midpoint.
  rewrite int_rem_pos by (unfold INT_MAX; lia). rewrite bind_ret.
  assert (∀ m : nat, Z.of_nat m ≤ INT_MAX →
    int_div (F:=tx_exit) (S:=conn) (Z.of_nat m) 2 = mret (Z.of_nat (m / 2))) as Hdiv.
  { intros m Hm. rewrite int_div_pos by lia. by rewrite Nat2Z.inj_div. }
  replace (Z.of_nat n mod 2) with (Z.of_nat (n mod 2)) by (by rewrite Nat2Z.inj_mod).
  destruct (Z.eqb_spec (Z.of_nat (n mod 2)) 0) as [E|E].
  - rewrite bind_ret, Hdiv by (unfold INT_MAX; lia). pose proof (Nat.div_mod_eq n 2).
    assert (n / 2 = (n + 1) / 2)%nat as ->; [|done].
    apply (Nat.div_unique _ _ _ 1); lia.
  - unfold int_add. rewrite int_of_ok by (unfold INT_MIN, INT_MAX; lia). rewrite bind_ret.
    replace (Z.of_nat n + 1) with (Z.of_nat (n + 1)) by lia.
    by rewrite Hdiv by (unfold INT_MAX; lia).
Qed.

Lemma midpoint_le (n : nat) : ((n + 1) / 2 ≤ n)%nat.
Proof. destruct n as [|n]; [done|]. apply Nat.Div0.div_le_upper_bound. lia. Qed.

Lemma midpoint_pos (n : nat) : (0 < (S n + 1) / 2)%nat.
Proof. apply Nat.div_str_pos. lia. Qed.

Lemma note_length (p q : ascii) (c cd cw d w : Z) (a : float32) :
  Forall (λ z, -10 ^ 10 < z < 10 ^ 10) [w; d; cw; cd; c] → (length (fmt_f2 7 a) ≤ 100)%nat →
  (length (payment_note p q c cd cw d w a) < 502)%nat.
Proof.
  rewrite !Forall_cons. intros (Hw & Hd & Hcw & Hcd & Hc & _) Ha. unfold payment_note.
  repeat rewrite length_app. rewrite !pad_left_length. simpl.
  pose proof (fmt_d_length 4 c Hc). pose proof (fmt_d_length 2 cd Hcd).
  pose proof (fmt_d_length 4 cw Hcw). pose proof (fmt_d_length 2 d Hd).
  pose proof (fmt_d_length 4 w Hw). lia.
Qed.

(** A store behind the end of the string in the buffer does not change it. *)
Lemma set_behind (t : cstr) (post : list (option ascii)) (i : Z) (x : option ascii) (c : conn) :
  Z.of_nat (length t) < i ≤ Z.of_nat (length t + length post) →
  ∃ post', arr_set (F:=tx_exit) ((Some <$> t) ++ Some zero :: post) i x c =
      (Done ((Some <$> t) ++ Some zero :: post'), c) ∧ length post' = length post.
Proof.
  intros Hi. rewrite arr_set_ok by (rewrite length_app, length_fmap; simpl; lia).
  rewrite insert_app_r_alt by (rewrite length_fmap; lia).
  destruct (Z.to_nat i - length (Some <$> t))%nat as [|j] eqn:E;
    [rewrite length_fmap in E; lia|].
  eexists. split; [reflexivity|]. apply length_insert.
Qed.

Lemma set_after (t : cstr) (post : list (option ascii)) (j : nat) (i : Z) (x : option ascii)
    (c : conn) :
  length t = 20%nat → i = 20 + Z.of_nat j → (j < length post)%nat →
  arr_set (F:=tx_exit) ((Some <$> t) ++ post) i x c = (Done ((Some <$> t) ++ <[j := x]> post), c).
Proof.
  intros Ht -> Hj. rewrite arr_set_ok by (rewrite length_app, length_fmap; lia).
  rewrite insert_app_r_alt by (rewrite length_fmap; lia). rewrite length_fmap.
  by replace (Z.to_nat (20 + Z.of_nat j) - length t)%nat with j by lia.
Qed.

(** The buffer after the two names: the text, a NUL, and room to byte 25. *)
Lemma h_data_names (w_name d_name : cstr) (c : conn) :
  zero ∉ w_name →
  ∃ post,
    (b ← strncpy_to (F:=tx_exit) (replicate 26 None) 0 w_name 10;
     b ← arr_set b 10 (Some zero); strncat_to b d_name 10) c =
    (Done ((Some <$> take 10 w_name ++ take 10 d_name) ++ Some zero :: post), c) ∧
    (length (take 10 w_name ++ take 10 d_name) + length post = 25)%nat.
Proof.
  intros Hz. set (m := take 10 w_name). set (n := take 10 d_name).
  assert (length m ≤ 10)%nat as Hm by (unfold m; rewrite length_take; lia).
  assert (length n ≤ 10)%nat as Hn by (unfold n; rewrite length_take; lia).
  assert (zero ∉ m) as Hzm by (intros Hin; apply Hz; by eapply elem_of_take_inv).
  set (tail := replicate (10 - length m) (Some zero) ++ replicate 15 (@None ascii)).
  assert (length tail = 25 - length m)%nat as Ht
    by (unfold tail; rewrite length_app, !length_replicate; lia).
  exists (drop (length n) tail). split; [|rewrite length_app, length_drop; lia].
  unfold strncpy_to. change (replicate 26 (@None ascii)) with
    ([] ++ replicate 10 (@None ascii) ++ replicate 16 None).
  rewrite (bind_done _ _ _ _ _ (write_bytes_app (F:=tx_exit) (strncpy_bytes 10 w_name) []
    (replicate 10 None) (replicate 16 None) c (eq_sym (strncpy_length 10 w_name)))).
  assert (([] ++ (Some <$> strncpy_bytes 10 w_name) ++ replicate 16 None) =
    (Some <$> m) ++ replicate (10 - length m) (Some zero) ++ replicate 16 None) as ->.
  { unfold strncpy_bytes. fold m. rewrite fmap_app, fmap_replicate. by rewrite <- app_assoc. }
  rewrite arr_set_ok by (rewrite !length_app, length_fmap, !length_replicate; lia).
  rewrite bind_ret.
  rewrite insert_app_r_alt by (rewrite length_fmap; lia).
  rewrite insert_app_r_alt by (rewrite length_fmap, length_replicate; lia).
  rewrite length_fmap, length_replicate.
  replace (Z.to_nat 10 - length m - (10 - length m))%nat with 0%nat by lia.
  change (<[0%nat := Some zero]> (replicate 16 (@None ascii)))
    with (Some zero :: replicate 15 (@None ascii)).
  assert (replicate (10 - length m) (Some zero) ++ Some zero :: replicate 15 None =
    Some zero :: tail) as ->.
  { unfold tail. rewrite cons_middle, app_assoc, <- replicate_cons_app. done. }
  unfold strncat_to. fold n. rewrite (bind_done _ _ _ _ _ (read_cstring_app m tail c Hzm)).
  assert ((Some <$> m) ++ Some zero :: tail = (Some <$> m) ++
    (Some zero :: take (length n) tail) ++ drop (length n) tail) as ->.
  { simpl. by rewrite take_drop. }
  rewrite <- (length_fmap (@Some ascii) m).
  rewrite write_bytes_app by (rewrite length_app; simpl; rewrite length_take; lia).
  by rewrite !fmap_app, <- !app_assoc.
Qed.

Lemma payment_h_data_run (w_name d_name : cstr) (c : conn) :
  zero ∉ w_name → zero ∉ d_name →
  payment_h_data w_name d_name c = (Done (h_data_of w_name d_name), c).
Proof.
  intros Hw Hd. destruct (h_data_names w_name d_name c Hw) as (post & E & Hl).
  set (t := take 10 w_name ++ take 10 d_name) in *.
  assert (zero ∉ t) as Ht.
  { unfold t. rewrite elem_of_app. intros [H|H]; [apply Hw|apply Hd];
      by eapply elem_of_take_inv. }
  assert (length t ≤ 20)%nat as Htl
    by (unfold t; rewrite length_app, !length_take; lia).
  assert (payment_h_data w_name d_name c = (b ← (b ← strncpy_to (F:=tx_exit) (replicate 26 None)
      0 w_name 10; b ← arr_set b 10 (Some zero); strncat_to b d_name 10);
    b ← arr_set b 20 (Some " "%char); b ← arr_set b 21 (Some " "%char);
    b ← arr_set b 22 (Some " "%char); b ← arr_set b 23 (Some " "%char);
    b ← arr_set b 24 (Some zero); read_cstring b) c) as ->.
  { unfold payment_h_data, mbind, prog_bind.
    destruct (strncpy_to _ _ _ _ _) as [[b|] c1]; [|done].
    destruct (arr_set _ _ _ _) as [[b1|] c2]; done. }
  rewrite (bind_done _ _ _ _ _ E). unfold h_data_of. rewrite (app_assoc (take 10 _)). fold t.
  destruct (decide (length t = 20%nat)) as [H20|H20].
  - destruct post as [|p1 [|p2 [|p3 [|p4 [|p5 [|]]]]]]; simpl in Hl; try lia.
    erewrite bind_done; [|apply (set_after t _ 0); [done|done|simpl; lia]].
    erewrite bind_done; [|apply (set_after t _ 1); [done|done|simpl; lia]].
    erewrite bind_done; [|apply (set_after t _ 2); [done|done|simpl; lia]].
    erewrite bind_done; [|apply (set_after t _ 3); [done|done|simpl; lia]].
    erewrite bind_done; [|apply (set_after t _ 4); [done|done|simpl; lia]].
    simpl. change [Some " "%char; Some " "%char; Some " "%char; Some " "%char; Some zero; p5]
      with ((Some <$> lit "    ") ++ Some zero :: [p5]).
    rewrite app_assoc, <- fmap_app. apply read_cstring_app.
    rewrite elem_of_app. intros [?|Hin]; [done|].
    by repeat (apply elem_of_cons in Hin as [?|Hin]; [done|]); apply elem_of_nil in Hin.
  - rewrite app_nil_r.
    destruct (set_behind t post 20 (Some " "%char) c) as (q1 & E1 & L1); [lia|].
    rewrite (bind_done _ _ _ _ _ E1).
    destruct (set_behind t q1 21 (Some " "%char) c) as (q2 & E2 & L2); [lia|].
    rewrite (bind_done _ _ _ _ _ E2).
    destruct (set_behind t q2 22 (Some " "%char) c) as (q3 & E3 & L3); [lia|].
    rewrite (bind_done _ _ _ _ _ E3).
    destruct (set_behind t q3 23 (Some " "%char) c) as (q4 & E4 & L4); [lia|].
    rewrite (bind_done _ _ _ _ _ E4).
    destruct (set_behind t q4 24 (Some zero) c) as (q5 & E5 & L5); [lia|].
    rewrite (bind_done _ _ _ _ _ E5). by apply read_cstring_app.
Qed.
End payment_local.

(** ** The transaction implements it *)

Section payment_refines.
Context {conn : Type} {Sv : SqlServer} {Api : MySQL conn} {Laws : MySQLLaws conn}.
Context (k : db) (R : db → Prop).

Lemma insert_as_alter {K V} `{Countable K} (f : V → V) (m : gmap K V) (i : K) (x : V) :
  m !! i = Some x → alter f i m = <[i := f x]> m.
Proof.
  intros Hx. apply map_eq. intros j. destruct (decide (i = j)) as [<-|Hne].
  - by rewrite lookup_alter_eq, lookup_insert_eq, Hx.
  - by rewrite lookup_alter_ne, lookup_insert_ne.
Qed.

Lemma picks_exists (b : db) (w d c_arg c : Z) (last : cstr) :
  picks_customer b w d true c_arg last c →
  is_Some (customer b !! (w, d, c_arg)) → is_Some (customer b !! (w, d, c)).
Proof.
  intros (l & Hp & _ & ->) Harg.
  destruct (l !! _) as [[c' r]|] eqn:Hl; [|done].
  apply list_elem_of_lookup_2 in Hl. rewrite Hp in Hl. unfold customers_named in Hl.
  apply list_elem_of_omap in Hl as ([[[w' d'] c''] r'] & Hin & Hf).
  destruct ((w' =? w) && (d' =? d) && str_eq (c_last r') last) eqn:E; [|done].
  simplify_eq. apply elem_of_map_to_list in Hin.
  apply andb_true_iff in E as [[->%Z.eqb_eq ->%Z.eqb_eq]%andb_true_iff _]. eauto.
Qed.

(** The customer chosen by name. *)
Lemma byname_step {A} (b : db) (w d c_arg : Z) (last : cstr)
    (m : Z → prog tx_exit conn A) Q :
  Z.of_nat (length (customers_named b w d last)) < INT_MAX →
  (∀ c, picks_customer b w d true c_arg last c →
     triple (at_db b k None) (m c) Q (tx_leaves k R False)) →
  triple (at_db b k None) (c ← payment_byname w d c_arg last; m c) Q (tx_leaves k R False).
Proof.
  intros Hn Hm. unfold payment_byname. tx_select. { reflexivity. }
  tx_rets. eapply open_step; [done|done|]. simpl. intros rows (l & Hp & Hs & ->).
  tx_rets. eapply triple_step; [intros c; by apply midpoint_run|]. tx_rets.
  assert (length l = length (customers_named b w d last)) as Hl by (by rewrite Hp).
  rewrite <- Hl. set (half := ((length l + 1) / 2)%nat).
  assert (half ≤ length l)%nat as Hh.
  { apply midpoint_le. }
  apply (fetch_loop_step k R False false 5 Q14 b None _ (Z.of_nat half)
    (λ r, match r with [VInt z] => z | _ => 0 end) c_arg (λ r, col_int r 0) m); [done| | |].
  - rewrite length_map. lia.
  - intros r Hr c. apply list_elem_of_fmap in Hr as ([c' r'] & -> & _). done.
  - apply Hm. exists l. split_and!; [done|done|]. fold half.
    destruct (decide (Z.of_nat half = 0)) as [E|E].
    + assert (l = []) as ->; [|done]. destruct l as [|x l]; [done|].
      pose proof (midpoint_pos (length l)). unfold half in E. simpl length in E. lia.
    + replace (Z.to_nat (Z.of_nat half - 1)) with (half - 1)%nat by lia.
      destruct (lookup_lt_is_Some_2 l (half - 1)) as [[c' r'] Hc]; [lia|].
      assert (map (λ '(c, _), [VInt c]) l !! (half - 1)%nat = Some [VInt c']) as ->; [|by rewrite Hc].
      change (map (λ '(c, _), [VInt c]) l) with ((λ '(c, _), [VInt c]) <$> l).
      by rewrite list_lookup_fmap, Hc.
Qed.

(** The balance of the chosen customer. *)
Lemma customer_step {A} (b : db) (p q : ascii) (w d cw cd c : Z) (a : float32)
    (cr : customer_row) (m : prog tx_exit conn A) Q :
  customer b !! (cw, cd, c) = Some cr →
  Forall (λ z, -10 ^ 10 < z < 10 ^ 10) [w; d; cw; cd; c] → (length (fmt_f2 7 a) ≤ 100)%nat →
  triple (at_db (set_customer (<[(cw, cd, c) := set_customer_account
      (dec_of_float (f32_add (float_of_dec (c_balance cr)) a)) (c_data cr)
      (c_delivery_cnt cr) cr]> (customer b)) b) k None) m Q (tx_leaves k R False) →
  triple (at_db b k None) (payment_customer p q cw cd c d w a;; m) Q (tx_leaves k R False).
Proof.
  intros Hcr Hints Ha Hm. unfold payment_customer.
  tx_select. { by rewrite Hcr. } tx_rets.
  destruct (strstr _ _).
  - tx_select. { by rewrite Hcr. } tx_rets.
    eapply triple_step.
    { intros s. unfold payment_new_data.
      rewrite (proj2 (Nat.ltb_lt _ 502)) by (by apply note_length). reflexivity. }
    tx_update; [|exact Hm]. simpl.
    by rewrite (insert_as_alter _ _ _ cr).
  - tx_update; [|exact Hm]. simpl. by rewrite (insert_as_alter _ _ _ cr).
Qed.
End payment_refines.

Section payment_properties.
Context {conn : Type} {Sv : SqlServer} {Api : MySQL conn} {Laws : MySQLLaws conn}.

Lemma payment_body_rule (datetime : cstr) (p q : ascii) (w d : Z) (byname : bool)
    (cw cd c : Z) (last : cstr) (a : float32) (k : db) :
  payment_args k w d cw cd c last a →
  triple (at_db k k None)
    (payment_body datetime p q w d byname cw cd c last a)
    (committed (payment_effect datetime w d byname cw cd c last a k))
    (tx_leaves k (payment_effect datetime w d byname cw cd c last a k) False).
Proof.
  intros [(wr & Hwr & Hwz) (dr & Hdr & Hdz) Hc Hnamed Hints Hids Ha].
  unfold payment_body, payment_ware, payment_dist.
  tx_update. { reflexivity. }
  tx_select. { simpl. by rewrite lookup_alter_eq, Hwr. }
  tx_update. { reflexivity. }
  tx_select. { simpl. by rewrite lookup_alter_eq, Hdr. }
  tx_rets. simpl.
  match goal with |- triple (at_db ?b _ _) _ _ _ => set (b2 := b) end.
  assert (∀ c', picks_customer k cw cd byname c last c' →
    triple (at_db b2 k None)
      (payment_customer p q cw cd c' d w a;;
       h_data ← payment_h_data (w_name wr) (d_name dr);
       run_stmt 10 Q19 [VInt cd; VInt cw; VInt c'; VInt d; VInt w; VStr datetime;
         VFloat a; VStr h_data];;
       commit_or_sqlerr 10;; mret 1)
      (committed (payment_effect datetime w d byname cw cd c last a k))
      (tx_leaves k (payment_effect datetime w d byname cw cd c last a k) False)) as Hrest.
  { intros c' Hpick.
    assert (is_Some (customer k !! (cw, cd, c'))) as [cr Hcr].
    { destruct byname; [by eapply picks_exists|]. by simpl in Hpick; subst. }
    eapply customer_step; [exact Hcr| |done|].
    { rewrite !Forall_cons in Hints. destruct Hints as (? & ? & ? & ? & _).
      repeat (apply Forall_cons_2; [first [done|apply Hids; eauto]|]). apply Forall_nil_2. }
    eapply triple_step; [intros s; by apply payment_h_data_run|].
    tx_update. { reflexivity. }
    apply commit_step. exists c', wr, dr, cr. split_and!; try done.
    unfold paid, b2. simpl.
    by rewrite (insert_as_alter _ _ _ wr), (insert_as_alter _ _ _ dr). }
  destruct byname; [|by apply Hrest].
  apply byname_step; [done|]. exact Hrest.
Qed.

(** The totals of a warehouse and of its districts. *)
Definition ytd_gap (b : db) (w : Z) : Z :=
  default 0 (w_ytd <$> warehouse b !! w) -
  dec_sum (map (λ d, default 0 (d_ytd <$> district b !! (w, d))) (seqZ 1 10)).

Lemma dec_sum_change (f g : Z → Z) (l : list Z) (d x : Z) :
  NoDup l → d ∈ l → g d = f d + x → (∀ d', d' ≠ d → g d' = f d') →
  dec_sum (map g l) = dec_sum (map f l) + x.
Proof.
  intros Hnd Hin Hd Hne. induction Hnd as [|y l Hy Hnd IH]; [by apply elem_of_nil in Hin|].
  simpl. destruct (decide (y = d)) as [->|Hyd].
  - rewrite Hd. assert (dec_sum (map g l) = dec_sum (map f l)) as ->; [|lia].
    f_equal. apply map_ext_in. intros z Hz. apply Hne. intros ->.
    by apply Hy, list_elem_of_In.
  - apply elem_of_cons in Hin as [->|Hin]; [done|]. rewrite IH by done.
    rewrite Hne by done. lia.
Qed.

Lemma paid_ytd_gap (datetime : cstr) (w d cw cd c : Z) (a : float32) (wr : warehouse_row)
    (dr : district_row) (cr : customer_row) (k : db) (w' : Z) :
  warehouse k !! w = Some wr → district k !! (w, d) = Some dr → 1 ≤ d ≤ 10 →
  ytd_gap (paid datetime w d cw cd c a wr dr cr k) w' = ytd_gap k w'.
Proof.
  intros Hw Hd Hr. unfold ytd_gap.
  change (warehouse (paid datetime w d cw cd c a wr dr cr k))
    with (<[w := add_w_ytd (dec_of_float a) wr]> (warehouse k)).
  change (district (paid datetime w d cw cd c a wr dr cr k))
    with (<[(w, d) := add_d_ytd (dec_of_float a) dr]> (district k)).
  destruct (decide (w' = w)) as [->|Hne].
  - rewrite lookup_insert_eq, Hw.
    rewrite (dec_sum_change (λ d', default 0 (d_ytd <$> district k !! (w, d'))) _ _ d
      (dec_of_float a)).
    + simpl. lia.
    + apply NoDup_seqZ.
    + apply elem_of_seqZ. lia.
    + by rewrite lookup_insert_eq, Hd.
    + intros d' Hne. rewrite lookup_insert_ne by congruence. done.
  - rewrite lookup_insert_ne by done. f_equal. f_equal. apply map_ext. intros d'.
    rewrite lookup_insert_ne by congruence. done.
Qed.

Lemma paid_consistent (datetime : cstr) (w d cw cd c : Z) (a : float32) (wr : warehouse_row)
    (dr : district_row) (cr : customer_row) (k : db) :
  warehouse k !! w = Some wr → district k !! (w, d) = Some dr →
  customer k !! (cw, cd, c) = Some cr →
  consistent k → consistent (paid datetime w d cw cd c a wr dr cr k).
Proof.
  intros Hw Hd Hc Hk.
  assert (∀ w', is_Some (<[w := add_w_ytd (dec_of_float a) wr]> (warehouse k) !! w') ↔
    is_Some (warehouse k !! w')) as HW.
  { intros w'. rewrite lookup_insert_is_Some'. destruct (decide (w = w')); naive_solver. }
  destruct Hk as [H1 H2 H3 H4 H5 H6 H7 H8 H9]. constructor; simpl; try done.
  - intros w' d' o'. rewrite H1. destruct (decide ((w, d) = (w', d'))) as [[= <- <-]|Hne].
    + rewrite lookup_insert_eq, Hd. naive_solver.
    + by rewrite lookup_insert_ne.
  - intros w' d' o' r Hr. destruct (H6 _ _ _ _ Hr) as [? ?]. split; [|done].
    rewrite lookup_insert_is_Some'. auto.
  - intros w' d' r. rewrite HW. destruct (decide ((w, d) = (w', d'))) as [[= <- <-]|Hne].
    + rewrite lookup_insert_eq. intros [= <-]. simpl. by apply H7.
    + rewrite lookup_insert_ne by done. apply H7.
  - intros w' i. rewrite HW. apply H8.
Qed.


(** A payment keeps the database consistent, and in every warehouse the
    difference between its total and the totals of its districts. *)
Theorem payment_keeps_totals (datetime : cstr) (p q : ascii) (w d : Z) (byname : bool)
    (cw cd c : Z) (last : cstr) (a : float32) (s s' : conn) r :
  consistent (durable s) → payment_args (durable s) w d cw cd c last a → view s = durable s →
  payment datetime p q w d byname cw cd c last a s = (r, s') →
  consistent (durable s') ∧ ∀ w', ytd_gap (durable s') w' = ytd_gap (durable s) w'.
Proof.
  intros Hk Ha Hv E.
  destruct (tx_all_or_nothing _ _ _ _ _ _ _
    (payment_body_rule datetime p q w d byname cw cd c last a _ Ha) Hv eq_refl E)
    as [->|(c' & wr & dr & cr & _ & Hw & Hd & Hc & ->)]; [done|].
  destruct (inv_district _ Hk _ _ _ Hd) as (Hr & _).
  split; [by apply paid_consistent|]. intros w'. by apply paid_ytd_gap.
Qed.

(** A payment never changes the data of a customer, although the text for a
    customer with bad credit is composed: the statement binds the old data. *)
Theorem payment_keeps_c_data (datetime : cstr) (p q : ascii) (w d : Z) (byname : bool)
    (cw cd c : Z) (last : cstr) (a : float32) (s s' : conn) r :
  payment_args (durable s) w d cw cd c last a → view s = durable s →
  payment datetime p q w d byname cw cd c last a s = (r, s') →
  ∀ key, c_data <$> customer (durable s') !! key = c_data <$> customer (durable s) !! key.
Proof.
  intros Ha Hv E key.
  destruct (tx_all_or_nothing _ _ _ _ _ _ _
    (payment_body_rule datetime p q w d byname cw cd c last a _ Ha) Hv eq_refl E)
    as [->|(c' & wr & dr & cr & _ & Hw & Hd & Hc & ->)]; [done|]. simpl.
  destruct (decide (key = (cw, cd, c'))) as [->|Hne].
  - by rewrite lookup_insert_eq, Hc.
  - by rewrite lookup_insert_ne.
Qed.
End payment_properties.

Lemma sample_payment_args :
  payment_args sample_db 1 1 1 1 1 (lit "BARBARBAR") (f32_of_Z 100).
Proof.
  constructor; simpl.
  - eexists. split; [done|]. vm_compute. set_solver.
  - eexists. split; [done|]. vm_compute. set_solver.
  - by eexists.
  - by vm_compute.
  - repeat constructor.
  - intros c [r [[[= <-] _]|[_ [[= <-] _]%lookup_singleton_Some]]%lookup_insert_Some]; lia.
  - apply Nat.leb_le. by vm_compute.
Qed.

Definition sample_payment : outcome tx_exit Z * mem :=
  payment (lit "2014-01-01") "x" "y" 1 1 true 1 1 1 (lit "BARBARBAR") (f32_of_Z 100)
    (mem_open sample_db []).


Lemma payment_keeps_totals_witness :
  consistent (durable sample_payment.2) ∧
  ∀ w', ytd_gap (durable sample_payment.2) w' = ytd_gap sample_db w'.
Proof.
  exact (payment_keeps_totals (lit "2014-01-01") "x" "y" 1 1 true 1 1 1 (lit "BARBARBAR")
    (f32_of_Z 100) (mem_open sample_db []) sample_payment.2 sample_payment.1
    sample_consistent sample_payment_args eq_refl (surjective_pairing sample_payment)).
Defined.

Lemma payment_keeps_c_data_witness :
  c_data <$> customer (durable sample_payment.2) !! (1, 1, 2) =
  c_data <$> customer sample_db !! (1, 1, 2).
Proof.
  exact (payment_keeps_c_data (lit "2014-01-01") "x" "y" 1 1 true 1 1 1 (lit "BARBARBAR")
    (f32_of_Z 100) (mem_open sample_db []) sample_payment.2 sample_payment.1
    sample_payment_args eq_refl (surjective_pairing sample_payment) (1, 1, 2)).
Defined.

(** Of the two customers of the name the first by first name pays: customer 2. *)
Example sample_payment_commits :
  sample_payment.1 = Done 1 ∧
  c_balance <$> customer (durable sample_payment.2) !! (1, 1, 2) = Some 9000 ∧
  w_ytd <$> warehouse (durable sample_payment.2) !! 1 = Some 40000 ∧
  map h_data (history (durable sample_payment.2)) = [lit "waredist"].
Proof. split_and!; by vm_compute. Qed.

