(* ===== verification/TpccOrdstat.v ===== *)
(** * tpcc-mysql: ordstat.c, the order-status transaction

    The fetch loop without a bound has a fuel; the theorems give enough. *)

From Stdlib Require Import ZArith Lia SpecFloat Ascii String.
From stdpp Require Import base gmap list strings sorting numbers.
From S2P Require Import Prelude CFloat TpccSql TpccTx TpccInvariant TpccMemDb.
From S2P Require Import TpccSample TpccNeword TpccPayment.

Section ordstat.
Context {conn : Type} {Sv : SqlServer} {Api : MySQL conn}.

Abbreviation tx := (prog tx_exit conn).

(** The balance and names fetched for the customer. *)
Definition ordstat_columns (r : row) : tx (float32 * cstr * cstr * cstr) :=
  c_balance ← col_float r 0;
  c_first ← col_str r 1;
  c_middle ← col_str r 2;
  c_last ← col_str r 3;
  mret (c_balance, c_first, c_middle, c_last).

(** By name: proceed 1 to 5.  Without a customer of the name nothing is
    fetched. *)
Definition ordstat_byname (c_w_id c_d_id : Z) (c_last : cstr)
  : tx (option (float32 * cstr * cstr * cstr)) :=
  r ← select1 false 1 Q20 [VInt c_w_id; VInt c_d_id; VStr c_last];
  namecnt ← col_int r 0;
  open_result 2 Q21 [VInt c_w_id; VInt c_d_id; VStr c_last];;
  half ← midpoint namecnt;
  x ← for_lt 0 half
        (λ _ _, r ← fetch_some true 4 Q21; x ← ordstat_columns r; mret (Some x)) None;
  free_result Q21;;
  mret x.

(** By number: proceed 6. *)
Definition ordstat_bynumber (c_w_id c_d_id c_id : Z)
  : tx (option (float32 * cstr * cstr * cstr)) :=
  r ← select1 true 6 Q22 [VInt c_w_id; VInt c_d_id; VInt c_id];
  x ← ordstat_columns r;
  mret (Some x).

(** proceed 7: the most recent order. *)
Definition ordstat_order (c_w_id c_d_id c_id : Z) : tx (Z * cstr * Z) :=
  r ← select1 false 7 Q23 [VInt c_w_id; VInt c_d_id; VInt c_id;
                           VInt c_w_id; VInt c_d_id; VInt c_id];
  o_id ← col_int r 0;
  o_entry_d ← col_str r 1;
  o_carrier_id ← col_int r 2;
  mret (o_id, o_entry_d, o_carrier_id).

(** proceed 10: [for (;;)] fetch; the rows seen, in order. *)
Fixpoint ordstat_fetch (fuel : nat) : tx (list row) :=
  match fuel with
  | O => leave TxOutOfFuel
  | S fuel =>
      r ← fetch_row true 10 Q24;
      match r with
      | None => free_result Q24;; mret []
      | Some r => l ← ordstat_fetch fuel; mret (r :: l)
      end
  end.

(** proceed 8: the lines of the order. *)
Definition ordstat_items (fuel : nat) (c_w_id c_d_id o_id : Z) : tx (list row) :=
  open_result 8 Q24 [VInt c_w_id; VInt c_d_id; VInt o_id];;
  ordstat_fetch fuel.

(** What the transaction looks up before it commits. *)
Definition ordstat_look (fuel : nat) (w_id d_id : Z) (byname : bool) (c_id : Z) (c_last : cstr)
  : tx (option (float32 * cstr * cstr * cstr) * (Z * cstr * Z) * list row) :=
  who ← (if byname then ordstat_byname w_id d_id c_last else ordstat_bynumber w_id d_id c_id);
  ord ← ordstat_order w_id d_id c_id;
  lines ← ordstat_items fuel w_id d_id (ord.1.1);
  mret (who, ord, lines).

Definition ordstat (fuel : nat) (w_id d_id : Z) (byname : bool) (c_id : Z) (c_last : cstr)
  : tx Z :=
  with_labels (
    ordstat_look fuel w_id d_id byname c_id c_last;;
    commit_or_sqlerr 10;;
    mret 1).
End ordstat.

(** ** The orders of a customer *)

Section ordstat_spec.
Context {Sv : SqlServer}.

Lemma elem_of_orders_of (b : db) (w d c o : Z) (r : order_row) :
  (o, r) ∈ orders_of b w d c ↔ orders b !! (w, d, o) = Some r ∧ o_c_id r = c.
Proof.
  unfold orders_of. rewrite list_elem_of_omap. split.
  - intros ([[[w' d'] o'] r'] & Hin & Hf).
    destruct ((w' =? w) && (d' =? d) && (o_c_id r' =? c)) eqn:E; [|done]. simplify_eq.
    apply andb_true_iff in E as [[->%Z.eqb_eq ->%Z.eqb_eq]%andb_true_iff ?%Z.eqb_eq].
    split; [by apply elem_of_map_to_list|done].
  - intros [Hr <-]. exists ((w, d, o), r). split; [by apply elem_of_map_to_list|].
    by rewrite !Z.eqb_refl.
Qed.

Lemma max_of_spec (l : list Z) :
  l ≠ [] → ∃ m, max_of l = Some m ∧ m ∈ l ∧ ∀ x, x ∈ l → x ≤ m.
Proof.
  destruct l as [|x l]; [done|]. intros _. simpl. eexists. split; [done|].
  induction l as [|y l IH]; simpl.
  - split; [set_solver|]. intros z Hz. set_solver by lia.
  - destruct IH as [IH1 IH2]. split.
    + destruct (Z.max_spec y (foldr Z.max x l)) as [[_ ->]|[_ ->]]; set_solver.
    + intros z [->|[->|Hz]%elem_of_cons]%elem_of_cons.
      * specialize (IH2 x ltac:(set_solver)). lia.
      * lia.
      * specialize (IH2 z ltac:(set_solver)). lia.
Qed.

(** The most recent order [o] of a customer. *)
Definition latest_order (b : db) (w d c o : Z) (r : order_row) : Prop :=
  orders b !! (w, d, o) = Some r ∧ o_c_id r = c ∧
  ∀ o' r', orders b !! (w, d, o') = Some r' → o_c_id r' = c → o' ≤ o.

Lemma latest_order_row (b : db) (w d c : Z) :
  (∃ o r, orders b !! (w, d, o) = Some r ∧ o_c_id r = c) →
  ∃ o r, latest_order b w d c o r ∧ max_of (map fst (orders_of b w d c)) = Some o.
Proof.
  intros (o0 & r0 & H0).
  destruct (max_of_spec (map fst (orders_of b w d c))) as (o & Hmax & Hin & Hle).
  { intros E. apply elem_of_orders_of in H0. by destruct (orders_of b w d c); [set_solver|]. }
  apply list_elem_of_fmap in Hin as ([o' r] & -> & [Hr Hc]%elem_of_orders_of).
  exists o', r. split; [|done]. split_and!; [done|done|]. intros o1 r1 H1 Hc1.
  apply Hle. apply list_elem_of_fmap. exists (o1, r1). split; [done|].
  by apply elem_of_orders_of.
Qed.
End ordstat_spec.

Lemma length_omap_le {A B} (f : A → option B) (l : list A) :
  (length (omap f l) ≤ length l)%nat.
Proof.
  induction l as [|x l IH]; csimpl; [lia|]. destruct (f x); csimpl; lia.
Qed.

Lemma lines_of_size (b : db) (w d o : Z) :
  (length (lines_of b w d o) ≤ size (order_line b))%nat.
Proof.
  unfold lines_of. etrans; [apply length_omap_le|]. by rewrite length_map_to_list.
Qed.

Section ordstat_rules.
Context {conn : Type} {Sv : SqlServer} {Api : MySQL conn} {Laws : MySQLLaws conn}.
Context (k : db) (R : db → Prop) (inv : Prop).

Lemma ordstat_fetch_rule (fuel : nat) (b : db) (l : list row) :
  (length l < fuel)%nat →
  triple (λ c, at_db b k None c ∧ pending c Q24 = l) (ordstat_fetch fuel)
    (λ l' c, l' = l ∧ at_db b k None c) (tx_leaves k R inv).
Proof.
  revert l; induction fuel as [|fuel IH]; intros l Hl; [lia|]. simpl.
  apply fetch_step; [done| |].
  - intros ->. apply (free_step k R inv Q24 b None); [done|by intros c H|].
    intros c H. by split.
  - intros x l' ->. eapply triple_bind; [apply IH; simpl in Hl; lia|].
    intros y. apply triple_pure. intros -> c H. by split.
Qed.

Definition status_columns (r : customer_row) : float32 * cstr * cstr * cstr :=
  (float_of_dec (c_balance r), c_first r, c_middle r, c_last r).

Definition status_row (r : customer_row) : row :=
  [VFloat (float_of_dec (c_balance r)); VStr (c_first r); VStr (c_middle r); VStr (c_last r)].

(** The customer shown: the middle one of the name, or the one given. *)
Definition shown (b : db) (w d : Z) (byname : bool) (c : Z) (last : cstr)
  (who : option (float32 * cstr * cstr * cstr)) : Prop :=
  if byname then
    ∃ l, l ≡ₚ customers_named b w d last ∧
      Sorted (λ x y, str_le (c_first x.2) (c_first y.2) = true) l ∧
      who = (λ x, status_columns x.2) <$> l !! ((length l + 1) / 2 - 1)%nat
  else who = status_columns <$> customer b !! (w, d, c).

Lemma who_step {A} (b : db) (w d c : Z) (byname : bool) (last : cstr)
    (m : option (float32 * cstr * cstr * cstr) → prog tx_exit conn A) Q :
  Z.of_nat (length (customers_named b w d last)) < INT_MAX →
  is_Some (customer b !! (w, d, c)) →
  (∀ who, shown b w d byname c last who →
     triple (at_db b k None) (m who) Q (tx_leaves k R inv)) →
  triple (at_db b k None)
    (who ← (if byname then ordstat_byname w d last else ordstat_bynumber w d c); m who) Q
    (tx_leaves k R inv).
Proof.
  intros Hn [cr Hc] Hm. destruct byname.
  - unfold ordstat_byname. tx_select. { reflexivity. } tx_rets.
    eapply open_step; [done|done|]. simpl. intros rows (l & Hp & Hs & ->).
    tx_rets. eapply triple_step; [intros s; by apply midpoint_run|]. tx_rets.
    assert (length l = length (customers_named b w d last)) as Hl by (by rewrite Hp).
    rewrite <- Hl.
    apply (fetch_loop_step k R inv true 4 Q21 b None _ (Z.of_nat ((length l + 1) / 2))
      (λ r, match r with [VFloat x; VStr f; VStr m; VStr n] => Some (x, f, m, n) | _ => None end)
      None (λ r, x ← ordstat_columns r; mret (Some x)) m); [done| | |].
    + rewrite length_map. pose proof (midpoint_le (length l)). lia.
    + intros r Hr s. apply list_elem_of_fmap in Hr as ([c' r'] & -> & _). done.
    + apply Hm. exists l. split_and!; [done|done|].
      pose proof (midpoint_le (length l)) as Hh.
      destruct (decide (Z.of_nat ((length l + 1) / 2) = 0)) as [E|E].
      * assert (l = []) as ->; [|done]. destruct l as [|x l]; [done|].
        pose proof (midpoint_pos (length l)). simpl length in E. lia.
      * replace (Z.to_nat (Z.of_nat ((length l + 1) / 2) - 1))
          with ((length l + 1) / 2 - 1)%nat by lia.
        destruct (lookup_lt_is_Some_2 l ((length l + 1) / 2 - 1)) as [[c' r'] Hc']; [lia|].
        rewrite Hc'.
        change (map (λ '(_, r), [VFloat (float_of_dec (c_balance r)); VStr (c_first r);
          VStr (c_middle r); VStr (c_last r)]) l) with ((λ '((_, r) : Z * customer_row), status_row r) <$> l).
        by rewrite list_lookup_fmap, Hc'.
  - unfold ordstat_bynumber. tx_select. { by rewrite Hc. } tx_rets.
    apply Hm. simpl. by rewrite Hc.
Qed.
End ordstat_rules.

(** Enough fuel, a customer with an order. *)
Record ordstat_args (fuel : nat) (k : db) (w d c : Z) (last : cstr) `{SqlServer} : Prop := {
  oa_customer : is_Some (customer k !! (w, d, c));
  oa_order : ∃ o r, orders k !! (w, d, o) = Some r ∧ o_c_id r = c;
  oa_named : Z.of_nat (length (customers_named k w d last)) < INT_MAX;
  oa_fuel : ∀ o, (length (lines_of k w d o) < fuel)%nat;
}.

Section ordstat_properties.
Context {conn : Type} {Sv : SqlServer} {Api : MySQL conn} {Laws : MySQLLaws conn}.

Definition line_row (r : order_line_row) : row :=
  [VInt (ol_i_id r); VInt (ol_supply_w_id r); VInt (ol_quantity r);
   VFloat (float_of_dec (ol_amount r));
   match ol_delivery_d r with Some t => VStr t | None => VNull end].

(** What the transaction has looked up. *)
Definition status_found (k : db) (w d : Z) (byname : bool) (c : Z) (last : cstr)
  (x : option (float32 * cstr * cstr * cstr) * (Z * cstr * Z) * list row) : Prop :=
  ∃ who o r lines, x = (who, (o, o_entry_d r, default 0 (o_carrier_id r)), lines) ∧
    shown k w d byname c last who ∧ latest_order k w d c o r ∧
    lines ≡ₚ map (λ '(_, l), line_row l) (lines_of k w d o).

Lemma ordstat_look_rule (fuel : nat) (w d c : Z) (byname : bool) (last : cstr) (k : db) R inv :
  ordstat_args fuel k w d c last →
  triple (at_db k k None) (ordstat_look fuel w d byname c last)
    (λ x s, status_found k w d byname c last x ∧ at_db k k None s) (tx_leaves k R inv).
Proof.
  intros [Hc Ho Hn Hf]. unfold ordstat_look.
  apply who_step; [done|done|]. intros who Hwho.
  destruct (latest_order_row k w d c Ho) as (o & r & Hlat & Hmax).
  destruct Hlat as (Hor & Hoc & Hle).
  unfold ordstat_order. tx_select. { rewrite Hmax, Hor, Hoc, Z.eqb_refl. reflexivity. }
  tx_rets. unfold ordstat_items. tx_rets. simpl.
  eapply open_step; [done|done|]. intros rows Hrows. simpl in Hrows.
  eapply triple_bind.
  { apply ordstat_fetch_rule. rewrite Hrows, length_map. apply Hf. }
  intros l. apply triple_pure. intros -> s Hs. split; [|done].
  exists who, o, r, rows. split_and!; [done|done| |done]. by split_and!.
Qed.

(** Before it commits, order-status has fetched the customer asked for (by
    name, the middle one), the most recent order of the customer NUMBER it was
    given, also when the customer was asked for by name, and exactly the lines
    of that order; it leaves early only after trouble with the server. *)
Theorem ordstat_finds (fuel : nat) (w d c : Z) (byname : bool) (last : cstr) (k : db)
    (s : conn) :
  ordstat_args fuel k w d c last → view s = k → durable s = k →
  match ordstat_look fuel w d byname c last s with
  | (Done x, s') => status_found k w d byname c last x ∧ view s' = k
  | (Leave e, s') => (∃ p, e = Sqlerr p) ∧ trouble s'
  end.
Proof.
  intros Ha Hv Hd.
  pose proof (ordstat_look_rule fuel w d c byname last k (λ _, False) False Ha s
    (conj Hv (conj Hd I))) as Ht.
  destruct (ordstat_look _ _ _ _ _ _ s) as [[x|e] s'].
  - destruct Ht as (Hx & Hvs & _). done.
  - destruct e; simpl in Ht; try done; [|by destruct Ht]. destruct Ht; eauto.
Qed.

Lemma ordstat_run (fuel : nat) (w d c : Z) (byname : bool) (last : cstr) (k : db) (s : conn) :
  ordstat_args fuel k w d c last → view s = k → durable s = k →
  ∃ ret s', ordstat fuel w d byname c last s = (Done ret, s') ∧ durable s' = k ∧
    ((ret = 1 ∧ view s' = k) ∨ (ret = 0 ∧ trouble s')).
Proof.
  intros Ha Hv Hd.
  destruct (tx_runs (ordstat_look fuel w d byname c last;; commit_or_sqlerr 10;; mret 1)
    k (λ b, b = k) False s) as (ret & s' & E & Hr); [|done|done|].
  { eapply triple_bind; [by apply ordstat_look_rule|]. intros x. apply triple_pure.
    intros _. by apply (commit_step k (λ b, b = k) False 10 k None 1). }
  exists ret, s'. split; [exact E|].
  destruct Hr as [(-> & -> & Hvs)|[(_ & _ & [] & _)|(-> & Ht & Hk)]]; [by auto|].
  split; [by destruct Hk|]. auto.
Qed.

(** With enough fuel the order-status transaction returns, and it never
    changes what is committed: it returns 1 with no transaction open, or 0 after
    trouble with the server. *)
Theorem ordstat_reads_only (fuel : nat) (w d c : Z) (byname : bool) (last : cstr) (k : db)
    (s : conn) :
  ordstat_args fuel k w d c last → view s = k → durable s = k →
  ∃ ret s', ordstat fuel w d byname c last s = (Done ret, s') ∧ durable s' = k ∧
    ((ret = 1 ∧ view s' = k) ∨ (ret = 0 ∧ trouble s')).
Proof. apply ordstat_run. Qed.
End ordstat_properties.

Lemma sample_status_args : ordstat_args 5 sample_ordered 1 1 2 (lit "BARBARBAR").
Proof.
  constructor.
  - vm_compute. eauto.
  - exists 1. vm_compute. eauto.
  - by vm_compute.
  - intros o. eapply Nat.le_lt_trans; [apply lines_of_size|]. apply Nat.ltb_lt. by vm_compute.
Qed.

Lemma ordstat_finds_witness :
  match ordstat_look 5 1 1 true 2 (lit "BARBARBAR") (mem_open sample_ordered []) with
  | (Done x, s') => status_found sample_ordered 1 1 true 2 (lit "BARBARBAR") x ∧
      view s' = sample_ordered
  | (Leave e, s') => (∃ p, e = Sqlerr p) ∧ trouble s'
  end.
Proof.
  exact (ordstat_finds 5 1 1 2 true (lit "BARBARBAR") sample_ordered
    (mem_open sample_ordered []) sample_status_args
    (mem_open_view _ _) (mem_open_durable _ _)).
Defined.

Lemma ordstat_reads_only_witness :
  ∃ ret s', ordstat 5 1 1 true 2 (lit "BARBARBAR") (mem_open sample_ordered []) =
      (Done ret, s') ∧ durable s' = sample_ordered ∧ ((ret = 1 ∧ view s' = sample_ordered) ∨ (ret = 0 ∧ trouble s')).
Proof.
  exact (ordstat_reads_only 5 1 1 2 true (lit "BARBARBAR") sample_ordered
    (mem_open sample_ordered []) sample_status_args
    (mem_open_view _ _) (mem_open_durable _ _)).
Defined.

(** Both lines of order 1 are fetched. *)
Example sample_status_lines :
  match ordstat_look 5 1 1 false 2 [] (mem_open sample_ordered []) with
  | (Done (_, (o, _, carrier), l), _) => o = 1 ∧ carrier = 0 ∧ length l = 2%nat
  | _ => False
  end.
Proof. by vm_compute. Qed.
