(* ===== verification/TpccDelivery.v ===== *)
(** * tpcc-mysql: delivery.c, the delivery transaction

    For each district the oldest undelivered order is delivered and committed. *)

From Stdlib Require Import ZArith Lia SpecFloat Ascii String.
From stdpp Require Import base gmap list strings sorting numbers.
From S2P Require Import Prelude CFloat TpccSupport TpccSql TpccTx TpccInvariant.
From S2P Require Import TpccMemDb TpccSample TpccNeword TpccPayment.

Section delivery.
Context {conn : Type} {Sv : SqlServer} {Api : MySQL conn}.

Abbreviation tx := (prog tx_exit conn).

(** proceed 1: the oldest order of the district, 0 when there is none. *)
Definition delivery_oldest (w_id d_id : Z) : tx Z :=
  r ← select1 false 1 Q25 [VInt d_id; VInt w_id];
  col_int r 0.

(** proceed 2 to 7: one order. *)
Definition delivery_order (datetime : cstr) (w_id o_carrier_id d_id no_o_id : Z) : tx unit :=
  run_stmt 2 Q26 [VInt no_o_id; VInt d_id; VInt w_id];;
  r ← select1 false 3 Q27 [VInt no_o_id; VInt d_id; VInt w_id];
  c_id ← col_int r 0;
  run_stmt 4 Q28 [VInt o_carrier_id; VInt no_o_id; VInt d_id; VInt w_id];;
  run_stmt 5 Q29 [VStr datetime; VInt no_o_id; VInt d_id; VInt w_id];;
  r ← select1 true 6 Q30 [VInt no_o_id; VInt d_id; VInt w_id];
  ol_total ← col_float r 0;
  run_stmt 7 Q31 [VFloat ol_total; VInt c_id; VInt d_id; VInt w_id];;
  commit_or_sqlerr 7;;
  mret tt.

Definition delivery_district (datetime : cstr) (w_id o_carrier_id d_id : Z) : tx unit :=
  no_o_id ← delivery_oldest w_id d_id;
  if no_o_id =? 0 then mret tt
  else delivery_order datetime w_id o_carrier_id d_id no_o_id.

Definition delivery (datetime : cstr) (w_id o_carrier_id : Z) : tx Z :=
  with_labels (
    for_lt 1 (DIST_PER_WARE + 1) (λ d_id _, delivery_district datetime w_id o_carrier_id d_id) tt;;
    mret 1).
End delivery.

(** ** What the transaction promises *)

Section delivery_spec.
Context {Sv : SqlServer}.

(** Order [o] of the district leaves the queue, gets its carrier, and its lines
    are dated ... *)
Definition ship_order (datetime : cstr) (w carrier d o : Z) (r : order_row) (b : db) : db :=
  set_order_line (map_imap (λ '(w', d', o', n) l,
       Some (if (w' =? w) && (d' =? d) && (o' =? o) then set_delivery_d datetime l else l))
       (order_line b))
    (set_orders (<[(w, d, o) := set_carrier carrier r]> (orders b))
      (set_new_orders (new_orders b ∖ {[(w, d, o)]}) b)).

(** ... and its customer is charged their sum. *)
Definition charge_order (w d o c : Z) (b : db) : db :=
  set_customer
    (alter (λ cr, set_customer_account
       (c_balance cr +
        dec_of_float (float_of_dec (dec_sum (map (λ '(_, l), ol_amount l) (lines_of b w d o)))))
       (c_data cr) (c_delivery_cnt cr + 1) cr)
       (w, d, c) (customer b)) b.

Definition deliver_order (datetime : cstr) (w carrier d o : Z) (r : order_row) (b : db) : db :=
  charge_order w d o (o_c_id r) (ship_order datetime w carrier d o r b).

(** The oldest order of the district, if there is one. *)
Definition deliver (datetime : cstr) (w carrier : Z) (b : db) (d : Z) : db :=
  match pending_orders b w d with
  | [] => b
  | l => match orders b !! (w, d, min_or_0 l) with
         | Some r => deliver_order datetime w carrier d (min_or_0 l) r b
         | None => b
         end
  end.

(** The districts 1 to [n], in order. *)
Definition deliver_upto (datetime : cstr) (w carrier n : Z) (b : db) : db :=
  foldl (deliver datetime w carrier) b (seqZ 1 n).

Lemma elem_of_pending (b : db) (w d o : Z) :
  o ∈ pending_orders b w d ↔ (w, d, o) ∈ new_orders b.
Proof.
  unfold pending_orders. rewrite list_elem_of_omap. split.
  - intros ([[w' d'] o'] & Hin & Hf). destruct ((w' =? w) && (d' =? d)) eqn:E; [|done].
    simplify_eq. apply andb_true_iff in E as [->%Z.eqb_eq ->%Z.eqb_eq].
    by apply elem_of_elements.
  - intros Hin. exists (w, d, o). split; [by apply elem_of_elements|].
    by rewrite !Z.eqb_refl.
Qed.

Lemma min_or_0_spec (l : list Z) :
  l ≠ [] → min_or_0 l ∈ l ∧ ∀ x, x ∈ l → min_or_0 l ≤ x.
Proof.
  destruct l as [|x l]; [done|]. intros _. simpl. induction l as [|y l IH]; simpl.
  - split; [set_solver|]. intros z Hz. set_solver by lia.
  - destruct IH as [IH1 IH2]. split.
    + destruct (Z.min_spec y (foldr Z.min x l)) as [[_ ->]|[_ ->]]; set_solver.
    + intros z [->|[->|Hz]%elem_of_cons]%elem_of_cons.
      * specialize (IH2 x ltac:(set_solver)). lia.
      * lia.
      * specialize (IH2 z ltac:(set_solver)). lia.
Qed.

Lemma elem_of_lines_of (b : db) (w d o n : Z) (l : order_line_row) :
  (n, l) ∈ lines_of b w d o ↔ order_line b !! (w, d, o, n) = Some l.
Proof.
  unfold lines_of. rewrite list_elem_of_omap. split.
  - intros ([[[[w' d'] o'] n'] r'] & Hin & Hf).
    destruct ((w' =? w) && (d' =? d) && (o' =? o)) eqn:E; [|done]. simplify_eq.
    apply andb_true_iff in E as [[->%Z.eqb_eq ->%Z.eqb_eq]%andb_true_iff ->%Z.eqb_eq].
    by apply elem_of_map_to_list.
  - intros Hr. exists ((w, d, o, n), l). split; [by apply elem_of_map_to_list|].
    by rewrite !Z.eqb_refl.
Qed.

(** What a consistent database says about the oldest order. *)
Lemma oldest_order (b : db) (w d : Z) :
  consistent b → pending_orders b w d ≠ [] →
  ∃ r, orders b !! (w, d, min_or_0 (pending_orders b w d)) = Some r ∧
    o_carrier_id r = None ∧ 1 ≤ min_or_0 (pending_orders b w d) ∧
    is_Some (customer b !! (w, d, o_c_id r)) ∧
    lines_of b w d (min_or_0 (pending_orders b w d)) ≠ [].
Proof.
  intros Hb Hne. destruct (min_or_0_spec _ Hne) as [Hin _].
  set (o := min_or_0 _) in *. apply elem_of_pending in Hin.
  apply (inv_new_orders b Hb) in Hin as (r & Hr & Hc).
  destruct (inv_order b Hb _ _ _ _ Hr) as [Hcu Hcnt].
  exists r. split_and!; [done|done| |done|].
  - destruct (proj1 (inv_orders b Hb w d o) (mk_is_Some _ _ Hr)) as (dr & _ & Hlt). lia.
  - intros E. destruct (proj2 (inv_lines b Hb w d o 1)) as [l Hl].
    { exists r. split; [done|lia]. }
    apply elem_of_lines_of in Hl. rewrite E in Hl. by apply elem_of_nil in Hl.
Qed.

(** ** Delivering keeps the database consistent *)

Section ship.
Context (datetime : cstr) (w carrier d : Z) (b : db) (r : order_row).
Let o := min_or_0 (pending_orders b w d).
Hypothesis Hb : consistent b.
Hypothesis Hne : pending_orders b w d ≠ [].
Hypothesis Hr : orders b !! (w, d, o) = Some r.

Abbreviation b' := (ship_order datetime w carrier d o r b).

Lemma ship_orders (w' d' o' : Z) : orders b' !! (w', d', o') =
  if decide ((w', d', o') = (w, d, o)) then Some (set_carrier carrier r)
  else orders b !! (w', d', o').
Proof.
  simpl. case_decide as E; [rewrite E; apply lookup_insert_eq|]. by rewrite lookup_insert_ne.
Qed.

Lemma ship_lines (w' d' o' n : Z) : order_line b' !! (w', d', o', n) =
  (λ l, if decide ((w', d', o') = (w, d, o)) then set_delivery_d datetime l else l) <$>
  order_line b !! (w', d', o', n).
Proof.
  simpl. rewrite map_lookup_imap. destruct (order_line b !! _) as [l|]; simpl; [|done].
  destruct (Z.eqb_spec w' w), (Z.eqb_spec d' d), (Z.eqb_spec o' o); subst; simpl;
    case_decide; congruence.
Qed.

Lemma ship_consistent : consistent b'.
Proof.
  destruct (min_or_0_spec _ Hne) as [_ Hmin]. fold o in Hmin.
  destruct Hb as [H1 H2 H3 H4 H5 H6 H7 H8 H9].
  assert (∀ w' d' o', is_Some (orders b' !! (w', d', o')) ↔
    is_Some (orders b !! (w', d', o'))) as Hdom.
  { intros w' d' o'. rewrite ship_orders. case_decide; simplify_eq; [|done]. by rewrite Hr. }
  constructor; try done.
  - intros w' d' o'. rewrite Hdom. apply H1.
  - intros w' d' o'. rewrite ship_orders. simpl. rewrite elem_of_difference, elem_of_singleton.
    rewrite H2. case_decide; simplify_eq; naive_solver.
  - intros w' d' o1 o2. simpl. rewrite !elem_of_difference, !elem_of_singleton.
    intros [Hin Hneq] Hle Ho. rewrite Hdom in Ho. split; [by eapply H3|]. intros [= -> -> ->].
    specialize (Hmin o1 (proj2 (elem_of_pending b w d o1) Hin)).
    apply Hneq. f_equal. lia.
  - intros w' d' o' n. rewrite ship_lines, ship_orders, fmap_is_Some, H4.
    case_decide; simplify_eq; [|done]. rewrite Hr. naive_solver.
  - intros w' d' o' n l x Hl Hx. rewrite ship_lines in Hl. rewrite ship_orders in Hx.
    apply fmap_Some in Hl as (l0 & Hl0 & ->). case_decide; simplify_eq; [done|]. by eapply H5.
  - intros w' d' o' x Hx. rewrite ship_orders in Hx.
    case_decide; simplify_eq; [apply (H6 _ _ _ _ Hr)|by eapply H6].
Qed.
End ship.

Lemma charge_consistent (w d o c : Z) (b : db) :
  consistent b → consistent (charge_order w d o c b).
Proof.
  intros [H1 H2 H3 H4 H5 H6 H7 H8 H9]. constructor; try done.
  intros w' d' o' x Hx. destruct (H6 _ _ _ _ Hx) as [? ?]. split; [|done]. simpl.
  by rewrite lookup_alter_is_Some.
Qed.

Lemma deliver_consistent (datetime : cstr) (w carrier d : Z) (b : db) :
  consistent b → consistent (deliver datetime w carrier b d).
Proof.
  intros Hb. unfold deliver. destruct (pending_orders b w d) as [|x l] eqn:E; [done|].
  rewrite <- E. destruct (orders b !! _) as [r|] eqn:Hr; [|done].
  apply charge_consistent. apply ship_consistent; [done| |done]. by rewrite E.
Qed.

Lemma deliver_upto_consistent (datetime : cstr) (w carrier n : Z) (b : db) :
  consistent b → consistent (deliver_upto datetime w carrier n b).
Proof.
  unfold deliver_upto. generalize (seqZ 1 n). intros l. revert b.
  induction l as [|d l IH]; intros b Hb; simpl; [done|].
  apply IH. by apply deliver_consistent.
Qed.

Lemma deliver_upto_S (datetime : cstr) (w carrier n : Z) (b : db) :
  0 ≤ n → deliver_upto datetime w carrier (n + 1) b =
  deliver datetime w carrier (deliver_upto datetime w carrier n b) (n + 1).
Proof.
  intros Hn. unfold deliver_upto. rewrite seqZ_app by lia. rewrite foldl_app. simpl.
  by replace (1 + n) with (n + 1) by lia.
Qed.
End delivery_spec.

(** ** The transaction implements it *)

Section delivery_refines.
Context {conn : Type} {Sv : SqlServer} {Api : MySQL conn} {Laws : MySQLLaws conn}.


Lemma sum_row (b : db) (w d o : Z) :
  lines_of b w d o ≠ [] →
  sql_select Q30 [VInt o; VInt d; VInt w] b =
  [[VFloat (float_of_dec (dec_sum (map (λ '(_, l), ol_amount l) (lines_of b w d o))))]].
Proof. unfold sql_select. by destruct (lines_of b w d o). Qed.

(** One district, from a database that is committed. *)
Lemma district_rule (datetime : cstr) (w carrier d : Z) (b : db) :
  consistent b →
  triple (at_db b b None) (delivery_district datetime w carrier d)
    (λ _, at_db (deliver datetime w carrier b d) (deliver datetime w carrier b d) None)
    (tx_leaves b (λ b', b' = deliver datetime w carrier b d) False).
Proof.
  intros Hb. unfold delivery_district, delivery_oldest.
  tx_select. { reflexivity. } tx_rets.
  destruct (decide (pending_orders b w d = [])) as [E|Hne].
  { assert (deliver datetime w carrier b d = b) as -> by (unfold deliver; by rewrite E).
    rewrite E. by intros c H. }
  destruct (oldest_order b w d Hb Hne) as (r & Hr & _ & Hpos & Hc & _).
  assert (deliver datetime w carrier b d =
    deliver_order datetime w carrier d (min_or_0 (pending_orders b w d)) r b) as Hdel.
  { unfold deliver. destruct (pending_orders b w d); [done|]. by rewrite Hr. }
  pose proof (ship_consistent datetime w carrier d b r Hb Hne Hr) as Hship.
  set (o := min_or_0 (pending_orders b w d)) in *.
  assert (∃ x l, lines_of (ship_order datetime w carrier d o r b) w d o = x :: l) as (x & l & Hl).
  { destruct (inv_order b Hb _ _ _ _ Hr) as [_ Hcnt].
    destruct (proj2 (inv_lines _ Hship w d o 1)) as [y Hy].
    { simpl. rewrite lookup_insert_eq. eexists. split; [done|]. simpl. lia. }
    apply elem_of_lines_of in Hy. destruct (lines_of _ _ _ _); [by apply elem_of_nil in Hy|eauto]. }
  rewrite (proj2 (Z.eqb_neq o 0)) by lia. unfold delivery_order.
  tx_update. { reflexivity. }
  tx_select. { simpl. by rewrite Hr. } tx_rets.
  tx_update. { simpl. by rewrite (insert_as_alter _ _ _ r). }
  tx_update. { reflexivity. }
  match goal with |- triple (at_db ?b3 _ _) _ _ _ =>
    change b3 with (ship_order datetime w carrier d o r b) end.
  tx_rets. eapply select1_step; [done|done|intros ? ->; apply sum_row; by rewrite Hl|]. tx_rets.
  tx_update. { reflexivity. }
  eapply triple_bind.
  - eapply triple_ends; [apply commit_rule|done|].
    intros e c (Ht & Hd & ->). simpl. split; [done|].
    destruct Hd as [-> | ->]; [by left|right]. by rewrite Hdel.
  - intros [] c [Hv Hd]. rewrite Hdel. by split.
Qed.

(** The effect on a whole warehouse, or on its first districts. *)
Definition delivery_prefix (datetime : cstr) (w carrier : Z) (k b : db) : Prop :=
  ∃ n, 0 ≤ n ≤ DIST_PER_WARE ∧ b = deliver_upto datetime w carrier n k.

Lemma delivery_rule (datetime : cstr) (w carrier : Z) (k : db) :
  consistent k →
  triple (at_db k k None)
    (for_lt 1 (DIST_PER_WARE + 1) (λ d _, delivery_district datetime w carrier d) tt;; mret 1)
    (committed (λ b, b = deliver_upto datetime w carrier DIST_PER_WARE k))
    (λ e c, (∃ p, e = Sqlerr p) ∧ trouble c ∧
       delivery_prefix datetime w carrier k (durable c)).
Proof.
  intros Hk. eapply (triple_bind _ _ (λ _, at_db (deliver_upto datetime w carrier DIST_PER_WARE k)
    (deliver_upto datetime w carrier DIST_PER_WARE k) None)).
  2: { intros [] c (Hv & Hd & _). split_and!; [done|done|congruence]. }
  set (I := λ (d : Z) (_ : unit), at_db (Laws:=Laws) (deliver_upto datetime w carrier (d - 1) k)
    (deliver_upto datetime w carrier (d - 1) k) None).
  apply (triple_for_lt I _ _ 1 (DIST_PER_WARE + 1) tt); [done|]. unfold I.
  intros d [] Hd. unfold DIST_PER_WARE in Hd.
  pose proof (deliver_upto_S datetime w carrier (d - 1) k ltac:(lia)) as Hstep.
  replace (d - 1 + 1) with d in Hstep by lia. replace (d + 1 - 1) with d by lia.
  rewrite Hstep. eapply triple_ends; [apply district_rule|done|].
  { by apply deliver_upto_consistent. }
  intros e c. destruct e as [p| | |]; simpl; try done; [|by intros []].
  intros [Ht Hor]. split; [eauto|]. split; [done|]. unfold delivery_prefix, DIST_PER_WARE.
  destruct Hor as [-> | ->]; [exists (d - 1)|exists d]; (split; [lia|done]).
Qed.

Lemma delivery_ends (datetime : cstr) (w carrier : Z) (k : db) (s : conn) :
  consistent k → view s = k → durable s = k →
  ∃ ret s', delivery datetime w carrier s = (Done ret, s') ∧
    (committed (λ b, b = deliver_upto datetime w carrier DIST_PER_WARE k) ret s' ∨
     (ret = 0 ∧ trouble s' ∧ delivery_prefix datetime w carrier k (durable s'))).
Proof.
  intros Hk Hv Hd. unfold delivery, with_labels, at_label.
  pose proof (delivery_rule datetime w carrier k Hk s (conj Hv (conj Hd I))) as Ht.
  destruct ((for_lt _ _ _ _ ≫= _) s) as [[ret|e] s1]; [eauto|].
  destruct Ht as ([p ->] & Htr & Hp). unfold rollback, mbind, prog_bind.
  destruct (mysql_rollback s1) as [rc s2] eqn:Er. simpl.
  destruct (law_rollback _ _ _ Er) as (Hd2 & Ht2 & _). do 2 eexists. split; [done|].
  right. rewrite Hd2. auto.
Qed.

(** C6: on a consistent database the delivery transaction returns, without
    undefined behaviour: 1 with the oldest undelivered order of every district
    of the warehouse delivered, or 0 after trouble with the server, and then the
    orders of the first districts are delivered and committed, each completely,
    and the rest of the database is as before. *)
Theorem delivery_refines (datetime : cstr) (w carrier : Z) (k : db) (s : conn) :
  consistent k → view s = k → durable s = k →
  ∃ ret s', delivery datetime w carrier s = (Done ret, s') ∧
    (committed (λ b, b = deliver_upto datetime w carrier DIST_PER_WARE k) ret s' ∨
     (ret = 0 ∧ trouble s' ∧ delivery_prefix datetime w carrier k (durable s'))).
Proof. apply delivery_ends. Qed.

(** C7: whatever its outcome, the delivery transaction leaves a consistent
    database: queued orders are exactly those without carrier, in order. *)
Theorem delivery_consistent (datetime : cstr) (w carrier : Z) (s s' : conn) r :
  consistent (durable s) → view s = durable s →
  delivery datetime w carrier s = (r, s') → consistent (durable s').
Proof.
  intros Hk Hv E.
  destruct (delivery_ends datetime w carrier _ s Hk Hv eq_refl)
    as (ret & s2 & E2 & [(_ & H & _)|(_ & _ & n & _ & H)]);
    assert (s2 = s') as -> by congruence; rewrite H; by apply deliver_upto_consistent.
Qed.

(** What delivering a district does to the tables. *)
Lemma deliver_least (datetime : cstr) (w carrier d o : Z) (b : db) :
  consistent b → (w, d, o) ∈ new_orders b →
  (∀ o', (w, d, o') ∈ new_orders b → o ≤ o') →
  let b' := deliver datetime w carrier b d in
  new_orders b' = new_orders b ∖ {[(w, d, o)]} ∧
  (o_carrier_id <$> orders b' !! (w, d, o)) = Some (Some carrier) ∧
  (∀ n l, order_line b' !! (w, d, o, n) = Some l → ol_delivery_d l = Some datetime) ∧
  (∀ key, key ≠ (w, d, o) → orders b' !! key = orders b !! key).
Proof.
  intros Hb Hin Hmin b'. unfold b', deliver.
  assert (pending_orders b w d ≠ []) as Hne.
  { intros E. apply elem_of_pending in Hin. rewrite E in Hin. by apply elem_of_nil in Hin. }
  assert (min_or_0 (pending_orders b w d) = o) as Ho.
  { destruct (min_or_0_spec _ Hne) as [H1 H2]. apply elem_of_pending in H1.
    specialize (Hmin _ H1). specialize (H2 _ (proj2 (elem_of_pending b w d o) Hin)). lia. }
  destruct (oldest_order b w d Hb Hne) as (r & Hr & _). rewrite Ho in Hr.
  destruct (pending_orders b w d) as [|x l] eqn:E; [done|]. rewrite Ho, Hr.
  pose proof (ship_lines datetime w carrier d b r) as Hlines. rewrite E, Ho in Hlines.
  split_and!.
  - done.
  - simpl. by rewrite lookup_insert_eq.
  - intros n l0. change (order_line (deliver_order datetime w carrier d o r b))
      with (order_line (ship_order datetime w carrier d o r b)).
    rewrite Hlines. intros (l1 & _ & ->)%fmap_Some. by rewrite decide_True.
  - intros key Hkey. simpl. by rewrite lookup_insert_ne.
Qed.

(** The turn of the delivery loop for a district with undelivered orders
    commits that the order with the least number has left the queue, with the
    carrier set and all its lines dated, and that every other order is as it was;
    it ends otherwise only at [sqlerr] after trouble with the server. *)
Theorem district_delivers_oldest (datetime : cstr) (w carrier d o : Z) (s : conn) :
  consistent (durable s) → view s = durable s → (w, d, o) ∈ new_orders (durable s) →
  (∀ o', (w, d, o') ∈ new_orders (durable s) → o ≤ o') →
  match delivery_district datetime w carrier d s with
  | (Done _, s') =>
      new_orders (durable s') = new_orders (durable s) ∖ {[(w, d, o)]} ∧
      (o_carrier_id <$> orders (durable s') !! (w, d, o)) = Some (Some carrier) ∧
      (∀ n l, order_line (durable s') !! (w, d, o, n) = Some l →
         ol_delivery_d l = Some datetime) ∧
      (∀ key, key ≠ (w, d, o) → orders (durable s') !! key = orders (durable s) !! key)
  | (Leave e, s') => (∃ p, e = Sqlerr p) ∧ trouble s'
  end.
Proof.
  intros Hb Hv Hin Hmin.
  pose proof (district_rule datetime w carrier d _ Hb s (conj Hv (conj eq_refl I))) as H.
  destruct (delivery_district datetime w carrier d s) as [[[]|e] s'].
  - destruct H as (_ & -> & _). by apply deliver_least.
  - destruct e as [p| | |]; simpl in H; try done; [|by destruct H]. destruct H. eauto.
Qed.
End delivery_refines.

Definition sample_delivery : outcome tx_exit Z * mem :=
  delivery (lit "2014-02-02") 1 7 (mem_open sample_ordered []).

Lemma delivery_refines_witness :
  ∃ ret s', sample_delivery = (Done ret, s') ∧
    (committed (λ b, b = deliver_upto (lit "2014-02-02") 1 7 DIST_PER_WARE sample_ordered) ret s' ∨
     (ret = 0 ∧ trouble s' ∧
      delivery_prefix (lit "2014-02-02") 1 7 sample_ordered (durable s'))).
Proof.
  exact (delivery_refines (lit "2014-02-02") 1 7 sample_ordered (mem_open sample_ordered [])
    sample_ordered_consistent (mem_open_view _ _) (mem_open_durable _ _)).
Defined.

Lemma delivery_consistent_witness : consistent (durable sample_delivery.2).
Proof.
  apply (delivery_consistent (lit "2014-02-02") 1 7 (mem_open sample_ordered [])
    sample_delivery.2 sample_delivery.1).
  - rewrite mem_open_durable. exact sample_ordered_consistent.
  - by rewrite mem_open_view, mem_open_durable.
  - apply surjective_pairing.
Defined.

Lemma sample_queue (o : Z) : (1, 1, o) ∈ new_orders sample_ordered ↔ o = 1.
Proof.
  assert (new_orders sample_ordered = {[(1, 1, 1)]}) as -> by (by vm_compute).
  rewrite elem_of_singleton. split; [by intros [=]|by intros ->].
Qed.

Definition sample_district : outcome tx_exit unit * mem :=
  delivery_district (lit "2014-02-02") 1 7 1 (mem_open sample_ordered []).

Lemma district_delivers_oldest_witness :
  match sample_district with
  | (Done _, s') =>
      new_orders (durable s') = new_orders sample_ordered ∖ {[(1, 1, 1)]} ∧
      (o_carrier_id <$> orders (durable s') !! (1, 1, 1)) = Some (Some 7) ∧
      (∀ n l, order_line (durable s') !! (1, 1, 1, n) = Some l →
         ol_delivery_d l = Some (lit "2014-02-02")) ∧
      (∀ key, key ≠ (1, 1, 1) → orders (durable s') !! key = orders sample_ordered !! key)
  | (Leave e, s') => (∃ p, e = Sqlerr p) ∧ trouble s'
  end.
Proof.
  pose proof (district_delivers_oldest (lit "2014-02-02") 1 7 1 1 (mem_open sample_ordered []))
    as H. rewrite mem_open_view, mem_open_durable in H. apply H.
  - exact sample_ordered_consistent.
  - reflexivity.
  - by apply sample_queue.
  - intros o' Ho. apply sample_queue in Ho. lia.
Defined.

Example sample_delivery_commits :
  sample_delivery.1 = Done 1 ∧ new_orders (durable sample_delivery.2) = ∅ ∧
  c_delivery_cnt <$> customer (durable sample_delivery.2) !! (1, 1, 2) = Some 1.
Proof. split_and!; by vm_compute. Qed.
