(* ===== verification/TpccSlev.v ===== *)
(** * tpcc-mysql: slev.c, the stock-level transaction

    The items of the last 20 orders of a district are fetched, and for each one
    whether its stock is below the level.  The exit of the inner statement,
    [sqlerr2], also frees the outer cursor. *)

From Stdlib Require Import ZArith Lia SpecFloat Ascii String.
From stdpp Require Import base gmap list strings sorting numbers.
From S2P Require Import Prelude CFloat TpccSql TpccTx TpccInvariant TpccMemDb.
From S2P Require Import TpccSample TpccNeword TpccOrdstat TpccDelivery.

Section slev.
Context {conn : Type} {Sv : SqlServer} {Api : MySQL conn}.

Abbreviation tx := (prog tx_exit conn).

(** The exit [sqlerr] is [Sqlerr 1], [sqlerr2] is [Sqlerr 2]. *)

Definition slev_next (w_id d_id : Z) : tx Z :=
  r ← select1 false 1 Q32 [VInt d_id; VInt w_id];
  col_int r 0.

(** [i_count] of one item. *)
Definition slev_count (w_id level ol_i_id : Z) : tx Z :=
  r ← select1 false 2 Q34 [VInt w_id; VInt ol_i_id; VInt level];
  col_int r 0.

(** [for (;;)]: the items with their counts, in the order fetched. *)
Fixpoint slev_loop (fuel : nat) (w_id level : Z) : tx (list (Z * Z)) :=
  match fuel with
  | O => leave TxOutOfFuel
  | S fuel =>
      r ← fetch_row false 1 Q33;
      match r with
      | None => free_result Q33;; mret []
      | Some r =>
          ol_i_id ← col_int r 0;
          i_count ← slev_count w_id level ol_i_id;
          l ← slev_loop fuel w_id level;
          mret ((ol_i_id, i_count) :: l)
      end
  end.

Definition slev_look (fuel : nat) (w_id d_id level : Z) : tx (list (Z * Z)) :=
  d_next_o_id ← slev_next w_id d_id;
  open_result 1 Q33 [VInt w_id; VInt d_id; VInt d_next_o_id; VInt d_next_o_id];;
  slev_loop fuel w_id level.

Definition slev (fuel : nat) (w_id d_id level : Z) : tx Z :=
  at_label
    (slev_look fuel w_id d_id level;;
     commit_or_sqlerr 1;;
     mret 1)
    (λ e, match e with
          | Sqlerr p =>
              if p =? 2 then free_result Q33;; rollback;; mret 0
              else rollback;; mret 0
          | e => leave e
          end).
End slev.

(** ** What the transaction looks up *)

Section slev_properties.
Context {conn : Type} {Sv : SqlServer} {Api : MySQL conn} {Laws : MySQLLaws conn}.

(** 1 when the stock of the item is below the level. *)
Definition low (b : db) (w level i : Z) : Z :=
  match stock b !! (w, i) with
  | Some r => if s_quantity r <? level then 1 else 0
  | None => 0
  end.

Lemma slev_loop_rule (fuel : nat) (w level : Z) (b k : db) (items : list Z) R inv :
  (length items < fuel)%nat →
  triple (λ c, at_db b k None c ∧ pending c Q33 = map (λ i, [VInt i]) items)
    (slev_loop fuel w level)
    (λ l c, l = map (λ i, (i, low b w level i)) items ∧ at_db b k None c)
    (tx_leaves k R inv).
Proof.
  revert items; induction fuel as [|fuel IH]; intros items Hl; [lia|]. simpl.
  apply fetch_step; [done| |].
  - intros E. assert (items = []) as -> by (by destruct items).
    apply (free_step k R inv Q33 b None); [done|by intros c H|]. intros c H. by split.
  - intros x l' E. destruct items as [|i items]; [done|]. simplify_eq/=. tx_rets.
    apply (triple_weaken _ (at_db b k (Some (Q33, map (λ i, [VInt i]) items)))).
    2: { intros c [(Hv & Hd & _) Hp]. by split. }
    unfold slev_count. tx_select. { reflexivity. } tx_rets.
    eapply triple_bind.
    { eapply triple_weaken; [apply (IH items); lia|].
      intros c (Hv & Hd & Hp). by repeat split. }
    intros l. apply triple_pure. intros -> c H. by split.
Qed.

Record slev_args (fuel : nat) (k : db) (w d : Z) : Prop := {
  sa_district : is_Some (district k !! (w, d));
  sa_fuel : ∀ n, (length (recent_items k w d n n) < fuel)%nat;
}.

(** The distinct items of the last 20 orders, each with its flag. *)
Definition levels_found (k : db) (w d level : Z) (l : list (Z * Z)) : Prop :=
  ∃ dr items, district k !! (w, d) = Some dr ∧ NoDup items ∧
    l = map (λ i, (i, low k w level i)) items ∧
    ∀ i, i ∈ items ↔ ∃ o n r, order_line k !! (w, d, o, n) = Some r ∧ ol_i_id r = i ∧
      d_next_o_id dr - 20 ≤ o < d_next_o_id dr.

Lemma elem_of_recent (b : db) (w d next i : Z) :
  i ∈ recent_items b w d next next ↔
  ∃ o n r, order_line b !! (w, d, o, n) = Some r ∧ ol_i_id r = i ∧ next - 20 ≤ o < next.
Proof.
  unfold recent_items. rewrite elem_of_remove_dups, list_elem_of_omap. split.
  - intros ([[[[w' d'] o] n] r] & Hin & Hf).
    destruct (_ && _ && _ && _) eqn:E; [|done]. simplify_eq.
    apply andb_true_iff in E as [[[->%Z.eqb_eq ->%Z.eqb_eq]%andb_true_iff H1%Z.ltb_lt]
      %andb_true_iff H2%Z.leb_le].
    exists o, n, r. split; [by apply elem_of_map_to_list|]. split; [done|lia].
  - intros (o & n & r & Hr & <- & Ho). exists ((w, d, o, n), r).
    split; [by apply elem_of_map_to_list|]. rewrite !Z.eqb_refl.
    rewrite (proj2 (Z.ltb_lt o next)), (proj2 (Z.leb_le _ o)) by lia. done.
Qed.

Lemma slev_look_rule (fuel : nat) (w d level : Z) (k : db) R inv :
  slev_args fuel k w d →
  triple (at_db k k None) (slev_look fuel w d level)
    (λ l s, levels_found k w d level l ∧ at_db k k None s) (tx_leaves k R inv).
Proof.
  intros [[dr Hdr] Hf]. unfold slev_look, slev_next.
  tx_select. { by rewrite Hdr. } tx_rets.
  eapply open_step; [done|done|]. intros rows Hrows. simpl in Hrows.
  apply Permutation_map_inv in Hrows as (items & -> & Hp).
  eapply triple_ends; [apply slev_loop_rule| |done].
  { rewrite <- Hp. apply Hf. }
  intros l c [-> Hat]. split; [|done]. exists dr, items. split_and!; [done| |done|].
  - rewrite <- Hp. apply NoDup_remove_dups.
  - intros i. rewrite <- Hp. apply elem_of_recent.
Qed.

(** Before it commits, stock-level has fetched each distinct item of the last
    20 orders of the district exactly once, with the flag whether the stock of
    the warehouse is below the level; it leaves early only after trouble. *)
Theorem slev_finds (fuel : nat) (w d level : Z) (k : db) (s : conn) :
  slev_args fuel k w d → view s = k → durable s = k →
  match slev_look fuel w d level s with
  | (Done l, s') => levels_found k w d level l ∧ view s' = k
  | (Leave e, s') => (∃ p, e = Sqlerr p) ∧ trouble s'
  end.
Proof.
  intros Ha Hv Hd.
  pose proof (slev_look_rule fuel w d level k (λ _, False) False Ha s (conj Hv (conj Hd I)))
    as Ht.
  destruct (slev_look _ _ _ _ s) as [[x|e] s'].
  - destruct Ht as (Hx & Hvs & _). done.
  - destruct e; simpl in Ht; try done; [|by destruct Ht]. destruct Ht; eauto.
Qed.

Lemma slev_run (fuel : nat) (w d level : Z) (k : db) (s : conn) :
  slev_args fuel k w d → view s = k → durable s = k →
  ∃ ret s', slev fuel w d level s = (Done ret, s') ∧ durable s' = k ∧
    ((ret = 1 ∧ view s' = k) ∨ (ret = 0 ∧ trouble s')).
Proof.
  intros Ha Hv Hd. unfold slev, at_label.
  assert (triple (at_db k k None) (slev_look fuel w d level;; commit_or_sqlerr 1;; mret 1)
    (committed (λ b, b = k)) (tx_leaves k (λ b, b = k) False)) as Hm.
  { eapply triple_bind; [by apply slev_look_rule|]. intros x. apply triple_pure.
    intros _. by apply (commit_step k (λ b, b = k) False 1 k None 1). }
  specialize (Hm s (conj Hv (conj Hd I))).
  destruct ((slev_look _ _ _ _ ≫= _) s) as [[ret|e] s1];
    [destruct Hm as (-> & Hk & Hvs); exists 1, s1; split_and!; [done|done|left; split; congruence]|].
  destruct e as [p| | |]; simpl in Hm; try done; [|by destruct Hm].
  destruct Hm as [Htr Hd1]. assert (durable s1 = k) as Hs1 by (by destruct Hd1).
  assert (∀ s2 : conn, trouble s2 → durable s2 = k → ∃ ret s',
    (rollback;; mret 0) s2 = (Done ret : outcome tx_exit Z, s') ∧ durable s' = k ∧
    ((ret = 1 ∧ view s' = k) ∨ (ret = 0 ∧ trouble s'))) as Hroll.
  { intros s2 Ht2 Hd2. unfold rollback, mbind, prog_bind.
    destruct (mysql_rollback s2) as [rc s3] eqn:Er. simpl.
    destruct (law_rollback _ _ _ Er) as (Hd3 & Ht3 & _). do 2 eexists. split; [done|].
    split; [congruence|auto]. }
  destruct (p =? 2); [|by apply Hroll].
  destruct (law_free_result Q33 s1) as (_ & Hf & _ & Hft).
  unfold free_result, mbind at 1, prog_bind at 1. apply Hroll; [auto|congruence].
Qed.

(** With enough fuel the stock-level transaction returns on every path, both
    error labels included, and never changes what is committed: it returns 1 with
    no transaction open, or 0 after trouble with the server. *)
Theorem slev_reads_only (fuel : nat) (w d level : Z) (k : db) (s : conn) :
  slev_args fuel k w d → view s = k → durable s = k →
  ∃ ret s', slev fuel w d level s = (Done ret, s') ∧ durable s' = k ∧
    ((ret = 1 ∧ view s' = k) ∨ (ret = 0 ∧ trouble s')).
Proof. apply slev_run. Qed.
End slev_properties.

Lemma remove_dups_length {A} `{EqDecision A} (l : list A) :
  (length (remove_dups l) ≤ length l)%nat.
Proof. induction l as [|x l IH]; simpl; [lia|]. case_decide; simpl; lia. Qed.

Lemma sample_slev_args : slev_args 5 sample_ordered 1 1.
Proof.
  constructor; [vm_compute; eauto|]. intros n. unfold recent_items.
  eapply Nat.le_lt_trans; [apply remove_dups_length|].
  eapply Nat.le_lt_trans; [apply length_omap_le|].
  rewrite length_map_to_list. apply Nat.ltb_lt. by vm_compute.
Qed.

Lemma slev_finds_witness :
  match slev_look 5 1 1 10 (mem_open sample_ordered []) with
  | (Done l, s') => levels_found sample_ordered 1 1 10 l ∧ view s' = sample_ordered
  | (Leave e, s') => (∃ p, e = Sqlerr p) ∧ trouble s'
  end.
Proof.
  exact (slev_finds 5 1 1 10 sample_ordered (mem_open sample_ordered []) sample_slev_args
    (mem_open_view _ _) (mem_open_durable _ _)).
Defined.

Lemma slev_reads_only_witness :
  ∃ ret s', slev 5 1 1 10 (mem_open sample_ordered []) = (Done ret, s') ∧
    durable s' = sample_ordered ∧ ((ret = 1 ∧ view s' = sample_ordered) ∨ (ret = 0 ∧ trouble s')).
Proof.
  exact (slev_reads_only 5 1 1 10 sample_ordered (mem_open sample_ordered []) sample_slev_args
    (mem_open_view _ _) (mem_open_durable _ _)).
Defined.

(** Item 2 is below 10, item 1 is not; a fault of the inner statement makes the
    transaction return 0. *)
Example sample_slev :
  match slev_look 5 1 1 10 (mem_open sample_ordered []) with
  | (Done l, _) => l ≡ₚ [(1, 0); (2, 1)]
  | _ => False
  end ∧
  (slev 5 1 1 10 (mem_open sample_ordered
     [false; false; false; false; false; false; false; false; false; false; true])).1 = Done 0.
Proof. split; vm_compute; [|done]. solve [apply perm_swap | apply Permutation_refl]. Qed.
