(* ===== verification/TpccDriver.v ===== *)
(** * tpcc-mysql: driver.c

    A driver thread draws the type of the next transaction, prepares its input,
    runs it until it succeeds and counts the outcome.  The transactions are an
    interface, [TxOps]; the clock and the flags other threads set are the
    environment [DriverEnv], read at successive ticks.  The lines written to the
    report file are not modelled. *)

From Stdlib Require Import ZArith Lia SpecFloat Ascii String.
From stdpp Require Import base gmap list strings sorting numbers.
From S2P Require Import Prelude CFloat TpccSupport TpccSequence TpccRthist TpccSql.
From S2P Require Import TpccTx TpccInvariant TpccMemDb TpccSample TpccNeword.
From S2P Require Import TpccPayment TpccOrdstat TpccDelivery TpccSlev.

Definition MAX_RETRY : Z := 2000.
Definition RTIME_NEWORD : Z := 5.
Definition RTIME_PAYMENT : Z := 5.
Definition RTIME_ORDSTAT : Z := 5.
Definition RTIME_DELIVERY : Z := 80.
Definition RTIME_SLEV : Z := 20.

(** trans_if.h: the transactions, without the thread number. *)
Class TxOps (conn : Type) := {
  op_neword : Z → Z → Z → Z → Z → list Z → list Z → list Z → prog fault conn Z;
  op_payment : Z → Z → bool → Z → Z → Z → cstr → float32 → prog fault conn Z;
  op_ordstat : Z → Z → bool → Z → cstr → prog fault conn Z;
  op_delivery : Z → Z → prog fault conn Z;
  op_slev : Z → Z → Z → prog fault conn Z;
}.

(** The options of tpcc_start, and what changes while a thread runs: the clock
    (seconds, nanoseconds) and the flags [counting_on] and
    [activate_transaction]. *)
Class DriverEnv := {
  num_ware : Z;
  num_conn : Z;
  num_node : Z;
  clock_at : Z → Z * Z;
  counting_at : Z → bool;
  active_at : Z → bool;
}.

(** A counter per type, and per type and thread. *)
Record tally : Type := Tally { t_all : list Z; t_thread : list (list Z) }.

Record counters : Type := Counters {
  ct_success : tally; ct_late : tally; ct_retry : tally; ct_failure : tally }.

Inductive which : Type := Success | Late | Retry | Failure.

#[export] Instance which_eq_dec : EqDecision which.
Proof. solve_decision. Defined.

Definition tally_of (x : which) (c : counters) : tally :=
  match x with
  | Success => ct_success c | Late => ct_late c | Retry => ct_retry c | Failure => ct_failure c
  end.
Definition set_tally (x : which) (t : tally) (c : counters) : counters :=
  match x with
  | Success => Counters t (ct_late c) (ct_retry c) (ct_failure c)
  | Late => Counters (ct_success c) t (ct_retry c) (ct_failure c)
  | Retry => Counters (ct_success c) (ct_late c) t (ct_failure c)
  | Failure => Counters (ct_success c) (ct_late c) (ct_retry c) t
  end.

Record drv {conn : Type} : Type := Drv {
  dv_support : support;
  dv_seq : sequence;
  dv_hist : hist;
  dv_count : counters;
  dv_tick : Z;
  dv_conn : conn;
}.
Arguments drv : clear implicits.

Section driver.
Context {conn : Type} {Ops : TxOps conn} {Env : DriverEnv} {Rs : RandSource} {St : StackSlots}.

Abbreviation dprog := (prog fault (drv conn)).

(** The parts of the state. *)
Definition on_support {A} (m : cprog A) : dprog A :=
  zoom dv_support (λ x d, Drv conn x (dv_seq d) (dv_hist d) (dv_count d) (dv_tick d) (dv_conn d)) m.
Definition on_seq {A} (m : seqprog A) : dprog A :=
  zoom (λ d, (dv_support d, dv_seq d))
    (λ x d, Drv conn x.1 x.2 (dv_hist d) (dv_count d) (dv_tick d) (dv_conn d)) m.
Definition on_hist {A} (m : histprog A) : dprog A :=
  zoom dv_hist (λ x d, Drv conn (dv_support d) (dv_seq d) x (dv_count d) (dv_tick d) (dv_conn d)) m.
Definition on_count {A} (m : prog fault counters A) : dprog A :=
  zoom dv_count (λ x d, Drv conn (dv_support d) (dv_seq d) (dv_hist d) x (dv_tick d) (dv_conn d)) m.
Definition on_conn {A} (m : prog fault conn A) : dprog A :=
  zoom dv_conn (λ x d, Drv conn (dv_support d) (dv_seq d) (dv_hist d) (dv_count d) (dv_tick d) x) m.

(** A read of something other threads or the kernel change. *)
Definition sample {A} (f : Z → A) : dprog A := λ d,
  (Done (f (dv_tick d)),
   Drv conn (dv_support d) (dv_seq d) (dv_hist d) (dv_count d) (dv_tick d + 1) (dv_conn d)).

(** ** Inputs *)

(** The home warehouse: all of them, or those of the node of this connection. *)
Definition home_ware (t_num : Z) : dprog Z :=
  if num_node =? 0 then on_support (RandomNumber 1 num_ware)
  else
    p ← int_mul num_node t_num;
    c_num ← int_div p num_conn;
    a ← int_mul num_ware c_num;
    a ← int_div a num_node;
    lo ← int_add 1 a;
    c1 ← int_add c_num 1;
    b ← int_mul num_ware c1;
    hi ← int_div b num_node;
    on_support (RandomNumber lo hi).

(** [while ((tmp = RandomNumber(1, num_ware)) == home_ware);] *)
Fixpoint draw_other (fuel : nat) (home : Z) : dprog Z :=
  match fuel with
  | O => leave OutOfFuel
  | S fuel =>
      tmp ← on_support (RandomNumber 1 num_ware);
      if tmp =? home then draw_other fuel home else mret tmp
  end.

Definition other_ware (fuel : nat) (home : Z) : dprog Z :=
  if num_ware =? 1 then mret home else draw_other fuel home.

Record neword_in : Type := NewordIn {
  ni_w : Z; ni_d : Z; ni_c : Z; ni_cnt : Z; ni_local : Z;
  ni_item : list (option Z); ni_sup : list (option Z); ni_qty : list (option Z) }.

(** The body of the loop on the lines. *)
Definition neword_line_in (fuel : nat) (w_id ol_cnt rbk i : Z)
  (acc : list (option Z) * list (option Z) * list (option Z) * Z)
  : dprog (list (option Z) * list (option Z) * list (option Z) * Z) :=
  let '(itemid, supware, qty, all_local) := acc in
  x ← on_support (NURand 8191 1 MAXITEMS);
  itemid ← arr_set itemid i (Some x);
  itemid ← (if (i =? ol_cnt - 1) && (rbk =? 1)
            then arr_set itemid i (Some (MAXITEMS + 1)) else mret itemid);
  r ← on_support (RandomNumber 1 100);
  '(supware, all_local) ←
    (if negb (r =? 1)
     then supware ← arr_set supware i (Some w_id); mret (supware, all_local)
     else o ← other_ware fuel w_id;
          supware ← arr_set supware i (Some o); mret (supware, 0));
  q ← on_support (RandomNumber 1 10);
  qty ← arr_set qty i (Some q);
  mret (itemid, supware, qty, all_local).

Definition neword_input (fuel : nat) (t_num : Z) : dprog neword_in :=
  w_id ← home_ware t_num;
  d_id ← on_support (RandomNumber 1 DIST_PER_WARE);
  c_id ← on_support (NURand 1023 1 CUST_PER_DIST);
  ol_cnt ← on_support (RandomNumber 5 15);
  rbk ← on_support (RandomNumber 1 100);
  let none := replicate (Z.to_nat MAX_NUM_ITEMS) None in
  '(itemid, supware, qty, all_local) ←
    for_lt 0 ol_cnt (neword_line_in fuel w_id ol_cnt rbk) (none, none, none, 1);
  mret (NewordIn w_id d_id c_id ol_cnt all_local itemid supware qty).

Record payment_in : Type := PaymentIn {
  pi_w : Z; pi_d : Z; pi_byname : bool; pi_cw : Z; pi_cd : Z; pi_c : Z; pi_last : cstr;
  pi_amount : Z }.

Definition payment_input (fuel : nat) (t_num : Z) : dprog payment_in :=
  w_id ← home_ware t_num;
  d_id ← on_support (RandomNumber 1 DIST_PER_WARE);
  c_id ← on_support (NURand 1023 1 CUST_PER_DIST);
  n ← on_support (NURand 255 0 999);
  c_last ← on_support (Lastname n);
  h_amount ← on_support (RandomNumber 1 5000);
  x ← on_support (RandomNumber 1 100);
  let byname := x <=? 60 in
  y ← on_support (RandomNumber 1 100);
  '(c_w_id, c_d_id) ←
    (if y <=? 85 then mret (w_id, d_id)
     else o ← other_ware fuel w_id;
          d ← on_support (RandomNumber 1 DIST_PER_WARE);
          mret (o, d));
  mret (PaymentIn w_id d_id byname c_w_id c_d_id c_id c_last h_amount).

Definition ordstat_input (t_num : Z) : dprog (Z * Z * bool * Z * cstr) :=
  w_id ← home_ware t_num;
  d_id ← on_support (RandomNumber 1 DIST_PER_WARE);
  c_id ← on_support (NURand 1023 1 CUST_PER_DIST);
  n ← on_support (NURand 255 0 999);
  c_last ← on_support (Lastname n);
  x ← on_support (RandomNumber 1 100);
  mret (w_id, d_id, x <=? 60, c_id, c_last).

Definition delivery_input (t_num : Z) : dprog (Z * Z) :=
  w_id ← home_ware t_num;
  o_carrier_id ← on_support (RandomNumber 1 10);
  mret (w_id, o_carrier_id).

Definition slev_input (t_num : Z) : dprog (Z * Z * Z) :=
  w_id ← home_ware t_num;
  d_id ← on_support (RandomNumber 1 DIST_PER_WARE);
  level ← on_support (RandomNumber 10 20);
  mret (w_id, d_id, level).

(** ** Running a transaction and counting it *)

(** [x[t] += delta; x2[t][t_num] += delta;] *)
Definition bump (x : which) (ty t_num delta : Z) : prog fault counters unit :=
  c ← getS;
  a ← arr_get (t_all (tally_of x c)) ty;
  a ← int_add a delta;
  l ← arr_set (t_all (tally_of x c)) ty a;
  r ← arr_get (t_thread (tally_of x c)) ty;
  b ← arr_get r t_num;
  b ← int_add b delta;
  r ← arr_set r t_num b;
  m ← arr_set (t_thread (tally_of x c)) ty r;
  putS (set_tally x (Tally l m) c).

(** The response time in milliseconds. *)
Definition response (t1 t2 : Z * Z) : float64 :=
  let ms (t : Z * Z) := f64_mul (f64_of_Z t.1) (f64_of_Z 1000) in
  let frac (t : Z * Z) := f64_div (f64_of_Z t.2) (f64_of_Z 1000000) in
  f64_sub (f64_sub (f64_add (ms t2) (frac t2)) (ms t1)) (frac t1).

Definition record_success (ty rtime t_num : Z) (t1 t2 : Z * Z) : dprog unit :=
  let rt := response t1 t2 in
  on_hist (
    h ← getS;
    m ← arr_get (max_rt h) ty;
    if f_lt m rt then l ← arr_set (max_rt h) ty rt; modS (set_max_rt l) else mret tt);;
  on_hist (hist_inc ty rt);;
  on ← sample counting_at;
  if on : bool then
    on_count (bump (if f_lt rt (f64_of_Z rtime) then Success else Late) ty t_num 1)
  else mret tt.

(** [for (i = 0; i < MAX_RETRY; i++)], then the failure. *)
Fixpoint retry_loop (n : nat) (ty rtime t_num : Z) (call : prog fault conn Z) (t1 : Z * Z)
  : dprog Z :=
  match n with
  | O =>
      on ← sample counting_at;
      (if on : bool then
         on_count (bump Retry ty t_num (-1));; on_count (bump Failure ty t_num 1)
       else mret tt);;
      mret 0
  | S n =>
      ret ← on_conn call;
      t2 ← sample clock_at;
      if negb (ret =? 0) then record_success ty rtime t_num t1 t2;; mret 1
      else
        on ← sample counting_at;
        (if on : bool then on_count (bump Retry ty t_num 1) else mret tt);;
        retry_loop n ty rtime t_num call t1
  end.

Definition attempt (ty rtime t_num : Z) (call : prog fault conn Z) : dprog Z :=
  t1 ← sample clock_at;
  retry_loop (Z.to_nat MAX_RETRY) ty rtime t_num call t1.

(** The values of a filled array. *)
Definition values (l : list (option Z)) : list Z := default 0 <$> l.

Definition do_neword (fuel : nat) (t_num : Z) : dprog Z :=
  x ← neword_input fuel t_num;
  attempt 0 RTIME_NEWORD t_num
    (op_neword (ni_w x) (ni_d x) (ni_c x) (ni_cnt x) (ni_local x)
       (values (ni_item x)) (values (ni_sup x)) (values (ni_qty x))).

Definition do_payment (fuel : nat) (t_num : Z) : dprog Z :=
  x ← payment_input fuel t_num;
  attempt 1 RTIME_PAYMENT t_num
    (op_payment (pi_w x) (pi_d x) (pi_byname x) (pi_cw x) (pi_cd x) (pi_c x) (pi_last x)
       (f32_of_Z (pi_amount x))).

Definition do_ordstat (t_num : Z) : dprog Z :=
  '(w_id, d_id, byname, c_id, c_last) ← ordstat_input t_num;
  attempt 2 RTIME_ORDSTAT t_num (op_ordstat w_id d_id byname c_id c_last).

Definition do_delivery (t_num : Z) : dprog Z :=
  '(w_id, o_carrier_id) ← delivery_input t_num;
  attempt 3 RTIME_DELIVERY t_num (op_delivery w_id o_carrier_id).

Definition do_slev (t_num : Z) : dprog Z :=
  '(w_id, d_id, level) ← slev_input t_num;
  attempt 4 RTIME_SLEV t_num (op_slev w_id d_id level).

(** The body of [while( activate_transaction )]; an unknown type does nothing. *)
Definition driver_turn (fuel t_num : nat) : dprog unit :=
  t ← on_seq seq_get;
  (if t =? 0 then do_neword fuel (Z.of_nat t_num)
   else if t =? 1 then do_payment fuel (Z.of_nat t_num)
   else if t =? 2 then do_ordstat (Z.of_nat t_num)
   else if t =? 3 then do_delivery (Z.of_nat t_num)
   else if t =? 4 then do_slev (Z.of_nat t_num)
   else mret 0);;
  mret tt.

Fixpoint driver (turns fuel t_num : nat) : dprog Z :=
  match turns with
  | O => leave OutOfFuel
  | S turns =>
      on ← sample active_at;
      if on : bool then driver_turn fuel t_num;; driver turns fuel t_num else mret 0
  end.
End driver.

(** ** Counting *)

Section counting.
Context {conn : Type} {Ops : TxOps conn} {Env : DriverEnv}.

Abbreviation dprog := (prog fault (drv conn)).

(** A counter of a type, and of the type and a thread. *)
Definition count_of (c : counters) (x : which) (ty t : Z) : Z * Z :=
  (at_ (t_all (tally_of x c)) ty, at_ (default [] (t_thread (tally_of x c) !! Z.to_nat ty)) t).

Definition add2 (p : Z * Z) (n : Z) : Z * Z := (p.1 + n, p.2 + n).
Lemma add2_0 (p : Z * Z) : add2 p 0 = p.
Proof. destruct p. unfold add2. simpl. by rewrite !Z.add_0_r. Qed.

Definition within (lo hi : Z) (p : Z * Z) : Prop := lo ≤ p.1 ≤ hi ∧ lo ≤ p.2 ≤ hi.

(** The arrays are there. *)
Definition counters_shape (ty t : Z) (c : counters) : Prop :=
  0 ≤ ty ∧ 0 ≤ t ∧ ∀ x, ty < Z.of_nat (length (t_all (tally_of x c))) ∧
    ∃ r, t_thread (tally_of x c) !! Z.to_nat ty = Some r ∧ t < Z.of_nat (length r).

Lemma tally_of_set (x y : which) (t : tally) (c : counters) :
  tally_of y (set_tally x t c) = if decide (y = x) then t else tally_of y c.
Proof. by destruct x, y. Qed.

Lemma bump_run (x : which) (ty t delta : Z) (c : counters) :
  counters_shape ty t c → within INT_MIN INT_MAX (add2 (count_of c x ty t) delta) →
  ∃ c', bump x ty t delta c = (Done tt, c') ∧ counters_shape ty t c' ∧
    ∀ y, count_of c' y ty t =
      if decide (y = x) then add2 (count_of c x ty t) delta else count_of c y ty t.
Proof.
  intros (Hty & Ht & Hs) [Ha Hb]. destruct (Hs x) as (Hx & r & Hr & Hrt).
  unfold count_of in Ha, Hb. rewrite Hr in Hb. simpl in *.
  eexists. split.
  - unfold bump. erewrite bind_done by reflexivity.
    rewrite (bind_done _ _ _ _ _ (at_get (t_all (tally_of x c)) ty c ltac:(lia))).
    unfold int_add. rewrite int_of_ok, bind_ret by lia.
    rewrite arr_set_ok, bind_ret by lia.
    rewrite (arr_get_ok _ _ r), bind_ret by (done || lia).
    rewrite (bind_done _ _ _ _ _ (at_get r t c ltac:(lia))).
    rewrite int_of_ok, bind_ret by lia.
    rewrite arr_set_ok, bind_ret by lia.
    rewrite arr_set_ok, bind_ret by (pose proof (lookup_lt_Some _ _ _ Hr); lia).
    reflexivity.
  - pose proof (lookup_lt_Some _ _ _ Hr) as Hlt. split.
    + split; [done|]. split; [done|]. intros y. rewrite tally_of_set.
      case_decide; [|apply Hs]. simpl. rewrite length_insert. split; [done|].
      rewrite list_lookup_insert_eq by done. eexists. split; [done|].
      by rewrite length_insert.
    + intros y. unfold count_of. rewrite tally_of_set. case_decide; [|done]. subst y. simpl.
      rewrite list_lookup_insert_eq by done. rewrite Hr. unfold add2. simpl. f_equal.
      * rewrite at_insert by lia. by rewrite decide_True.
      * rewrite at_insert by lia. by rewrite decide_True.
Qed.

(** The calls that return 0 before the first that does not. *)
Fixpoint failing_calls (n : nat) (call : prog fault conn Z) (c : conn) : nat :=
  match n with
  | O => 0
  | S n => match call c with
           | (Done r, c') => if r =? 0 then S (failing_calls n call c') else 0
           | _ => 0
           end
  end.

Lemma failing_calls_le (n : nat) (call : prog fault conn Z) (c : conn) :
  (failing_calls n call c ≤ n)%nat.
Proof.
  revert c; induction n as [|n IH]; intros c; simpl; [lia|].
  destruct (call c) as [[r|] c']; [|lia]. destruct (r =? 0); [|lia]. specialize (IH c'). lia.
Qed.

(** What the histogram needs to take one more value. *)
Definition hist_ready (ty : Z) (h : hist) : Prop :=
  hist_ok h ∧ zsum (row_of (cur_hist h) ty) < INT_MAX.

Context (ty rtime t : Z) (call : prog fault conn Z) (t1 : Z * Z) (I : conn → Prop).
Hypothesis Hty : 0 ≤ ty < 5.
Hypothesis Hcount : ∀ n, counting_at n = true.
Hypothesis Hcall : ∀ c, I c → ∃ r c', call c = (Done r, c') ∧ I c'.
Hypothesis Htime : ∀ n, ∃ i,
  f_trunc (f64_mul (response t1 (clock_at n)) (f64_of_Z REC_PER_SEC)) = Some i ∧ 0 ≤ i ≤ INT_MAX.

Lemma record_success_run (n : Z) (d : drv conn) :
  hist_ready ty (dv_hist d) → counters_shape ty t (dv_count d) →
  (∀ x, within 0 (INT_MAX - 1) (count_of (dv_count d) x ty t)) →
  ∃ d', record_success ty rtime t t1 (clock_at n) d = (Done tt, d') ∧
    let x := if f_lt (response t1 (clock_at n)) (f64_of_Z rtime) then Success else Late in
    ∀ y, count_of (dv_count d') y ty t =
      add2 (count_of (dv_count d) y ty t) (if decide (y = x) then 1 else 0).
Proof.
  intros (Hok & Hz) Hs Hw. pose proof Hok as (_ & _ & Hm & _). unfold record_success.
  set (rt := response t1 (clock_at n)).
  destruct (lookup_lt_is_Some_2 (max_rt (dv_hist d)) (Z.to_nat ty)) as [m Hmx]; [lia|].
  assert (∃ h', (h ← getS; m ← arr_get (max_rt h) ty;
      if f_lt m rt then l ← arr_set (max_rt h) ty rt; modS (set_max_rt l) else mret tt)
      (dv_hist d) = (Done tt : outcome fault unit, h') ∧
      hist_ok h' ∧ cur_hist h' = cur_hist (dv_hist d)) as (h1 & E1 & Hok1 & Hc1).
  { erewrite bind_done by reflexivity. rewrite (arr_get_ok _ _ m), bind_ret by (done || lia).
    destruct (f_lt m rt); [|by eexists].
    rewrite arr_set_ok, bind_ret by lia. eexists. split; [reflexivity|].
    split; [|done]. unfold hist_ok. simpl. rewrite length_insert. exact Hok. }
  destruct (Htime n) as (i & Hi & Hir). fold rt in Hi.
  rewrite <- Hc1 in Hz.
  destruct (hist_inc_run ty i rt h1 Hok1 Hty Hi Hz) as [Hinc _].
  destruct (Hinc Hir) as (h2 & E2 & _).
  set (x := if f_lt rt (f64_of_Z rtime) then Success else Late).
  destruct (bump_run x ty t 1 (dv_count d) Hs) as (c' & E3 & _ & Hc').
  { specialize (Hw x). destruct Hw as [? ?]. unfold within, add2, INT_MIN, INT_MAX in *.
    simpl in *. lia. }
  eexists. split.
  - erewrite bind_done; [|apply zoom_run; exact E1].
    erewrite bind_done; [|apply zoom_run; exact E2].
    erewrite bind_done by reflexivity. rewrite Hcount. fold x.
    apply zoom_run. exact E3.
  - simpl. intros y. rewrite Hc'. unfold add2.
    case_decide as E; [by subst|]. rewrite !Z.add_0_r. by destruct (count_of _ y _ _).
Qed.

(** The counters after a run of the loop with [n] calls left. *)
Lemma retry_loop_run (n : nat) (d : drv conn) :
  I (dv_conn d) → hist_ready ty (dv_hist d) → counters_shape ty t (dv_count d) →
  (∀ x, within 0 (INT_MAX - 1 - Z.of_nat n) (count_of (dv_count d) x ty t)) →
  let f := failing_calls n call (dv_conn d) in
  ∃ d' late, retry_loop n ty rtime t call t1 d =
      (Done (if (f <? n)%nat then 1 else 0), d') ∧
    (late = 0 ∨ late = 1) ∧
    let c := count_of (dv_count d) in let c' := count_of (dv_count d') in
    if (f <? n)%nat then
      c' Success ty t = add2 (c Success ty t) (1 - late) ∧ c' Late ty t = add2 (c Late ty t) late ∧
      c' Failure ty t = c Failure ty t ∧ c' Retry ty t = add2 (c Retry ty t) (Z.of_nat f)
    else
      c' Success ty t = c Success ty t ∧ c' Late ty t = c Late ty t ∧
      c' Failure ty t = add2 (c Failure ty t) 1 ∧
      c' Retry ty t = add2 (c Retry ty t) (Z.of_nat n - 1).
Proof.
  revert d; induction n as [|n IH]; intros d HI Hh Hs Hw f.
  - destruct (bump_run Retry ty t (-1) (dv_count d) Hs) as (c1 & E1 & Hs1 & Hc1).
    { destruct (Hw Retry). unfold within, add2, INT_MIN, INT_MAX in *. simpl in *. lia. }
    destruct (bump_run Failure ty t 1 c1 Hs1) as (c2 & E2 & Hs2 & Hc2).
    { rewrite Hc1. destruct (Hw Failure). unfold within, add2, INT_MIN, INT_MAX in *.
      simpl in *. lia. }
    eexists _, 0. split; [|split; [by left|]].
    + unfold retry_loop, sample, on_count, zoom, mbind, prog_bind. rewrite Hcount. simpl.
      rewrite E1. simpl. rewrite E2. reflexivity.
    + simpl. by rewrite !Hc2, !Hc1.
  - destruct (Hcall _ HI) as (r & c' & Ec & HI').
    unfold f. simpl. rewrite Ec.
    set (d1 := Drv conn (dv_support d) (dv_seq d) (dv_hist d) (dv_count d) (dv_tick d + 1) c').
    assert (∀ (A : Type) (k : Z → Z * Z → dprog A),
      (ret ← on_conn call; t2 ← sample clock_at; k ret t2) d = k r (clock_at (dv_tick d)) d1) as Hstep.
    { intros A k. unfold on_conn, sample, zoom, mbind, prog_bind. rewrite Ec. done. }
    rewrite Hstep. destruct (Z.eqb_spec r 0) as [->|Hr]; simpl.
    + destruct (bump_run Retry ty t 1 (dv_count d) Hs) as (c1 & E1 & Hs1 & Hc1).
      { destruct (Hw Retry). unfold within, add2, INT_MIN, INT_MAX in *. simpl in *. lia. }
      set (d2 := Drv conn (dv_support d) (dv_seq d) (dv_hist d) c1 (dv_tick d + 1 + 1) c').
      destruct (IH d2) as (d' & late & E' & Hlate & Hcnt); [done|done|done| |].
      { intros x. simpl. rewrite Hc1. specialize (Hw x). destruct Hw as [? ?].
        case_decide; subst; unfold within, add2, INT_MAX in *; simpl in *; lia. }
      simpl in E', Hcnt. exists d', late. split; [|split; [done|]].
      * refine (eq_trans _ E'). unfold sample, on_count, zoom, mbind, prog_bind. rewrite Hcount. simpl.
        rewrite E1. reflexivity.
      * change (S (failing_calls n call c') <? S n)%nat with (failing_calls n call c' <? n)%nat.
        rewrite !Hc1 in Hcnt. simpl in Hcnt.
        destruct (failing_calls n call c' <? n)%nat; destruct Hcnt as (-> & -> & -> & ->);
          split_and!; try done; unfold add2; simpl; f_equal; lia.
    + destruct (record_success_run (dv_tick d) d1) as (d' & E' & Hcnt); [done|done| |].
      { intros x. destruct (Hw x). unfold within in *. simpl in *. lia. }
      simpl in Hcnt.
      exists d', (if f_lt (response t1 (clock_at (dv_tick d))) (f64_of_Z rtime) then 0 else 1).
      split; [|split; [destruct (f_lt _ _); auto|]].
      * unfold mbind at 1, prog_bind at 1. rewrite E'. done.
      * rewrite !Hcnt. destruct (f_lt _ _); simpl; rewrite !add2_0; done.
Qed.
End counting.

(** ** Inputs are in range *)

(** A computation on [int] whose result fits. *)
Ltac int_step :=
  eapply triple_step;
  [intros ?; first [rewrite int_of_ok by (unfold INT_MIN, INT_MAX; lia)
                   |rewrite int_div_pos by (unfold INT_MAX; lia)]; reflexivity
  |cbv beta].

Section inputs.
Context {conn : Type} {Env : DriverEnv} {Rs : RandSource} {St : StackSlots}.

Abbreviation dprog := (prog fault (drv conn)).

(** The options make sense: with nodes, a node per connection and a warehouse
    per node. *)
Definition config_ok (t_num : Z) : Prop :=
  1 ≤ num_ware < INT_MAX ∧
  (num_node = 0 ∨
   1 ≤ num_node ≤ num_ware ∧ 0 ≤ t_num < num_conn ∧ num_node * num_conn ≤ INT_MAX ∧
   num_ware * num_node ≤ INT_MAX).

Abbreviation any := (λ _ : drv conn, True).
Abbreviation starved := (λ (e : fault) (_ : drv conn), e = OutOfFuel).

Lemma random_rule (lo hi : Z) (E : fault → drv conn → Prop) :
  INT_MIN ≤ lo → lo ≤ hi ≤ INT_MAX → hi - lo < INT_MAX →
  triple any (on_support (RandomNumber lo hi)) (λ v _, lo ≤ v ≤ hi) E.
Proof.
  intros H1 H2 H3 d _.
  destruct (RandomNumber_range_run lo hi (dv_support d) H1 H2 H3) as (v & Hv & Er).
  unfold on_support. by rewrite (zoom_run _ _ _ d _ _ Er).
Qed.

Lemma nurand_rule (A x y : Z) (E : fault → drv conn → Prop) :
  (A = 255 ∨ A = 1023 ∨ A = 8191) → 0 ≤ x ≤ y → y < INT_MAX →
  triple any (on_support (NURand A x y)) (λ v _, x ≤ v ≤ y) E.
Proof.
  intros H1 H2 H3 d _.
  destruct (NURand_run A x y (dv_support d) H1 H2 H3) as (v & s' & Er & Hv & _).
  unfold on_support. by rewrite (zoom_run _ _ _ d _ _ Er).
Qed.

Lemma draw_step {A B} (m : dprog A) (k : A → dprog B) (P : A → Prop) Q E :
  triple any m (λ v _, P v) E → (∀ v, P v → triple any (k v) Q E) →
  triple any (v ← m; k v) Q E.
Proof.
  intros Hm Hk. eapply triple_bind; [exact Hm|]. intros v d Hv. exact (Hk v Hv d I).
Qed.

Lemma node_bounds (c : Z) :
  1 ≤ num_node ≤ num_ware → 0 ≤ c < num_node →
  0 ≤ num_ware * c / num_node ∧
  1 + num_ware * c / num_node ≤ num_ware * (c + 1) / num_node ≤ num_ware.
Proof.
  intros Hn Hc. split; [apply Z.div_pos; nia|]. split.
  - rewrite Z.mul_add_distr_l, Z.mul_1_r.
    replace (num_ware * c + num_ware) with (num_ware * c + (num_ware - num_node) + 1 * num_node)
      by lia.
    rewrite Z.div_add by lia.
    pose proof (Z.div_le_mono (num_ware * c) (num_ware * c + (num_ware - num_node)) num_node). lia.
  - apply Z.div_le_upper_bound; [lia|]. nia.
Qed.

Lemma home_ware_rule (t_num : Z) (E : fault → drv conn → Prop) :
  config_ok t_num → triple any (home_ware t_num) (λ v _, 1 ≤ v ≤ num_ware) E.
Proof.
  intros [Hw Hn]. unfold home_ware. destruct (Z.eqb_spec num_node 0) as [E0|E0].
  { apply random_rule; unfold INT_MIN; lia. }
  destruct Hn as [|(Hn & Ht & Hp1 & Hp2)]; [done|].
  assert (0 ≤ num_node * t_num ≤ num_node * num_conn) as Hq by nia.
  assert (0 ≤ num_node * t_num / num_conn < num_node) as Hc.
  { split; [apply Z.div_pos; lia|]. apply Z.div_lt_upper_bound; nia. }
  destruct (node_bounds _ Hn Hc) as (B1 & B2 & B3).
  assert (0 ≤ num_ware * (num_node * t_num / num_conn) ≤ INT_MAX) as Hd by nia.
  assert (0 ≤ num_ware * (num_node * t_num / num_conn + 1) ≤ INT_MAX) as He by nia.
  unfold INT_MAX in *. unfold int_mul, int_add.
  do 8 int_step.
  eapply triple_post; [apply random_rule; unfold INT_MIN, INT_MAX; lia|].
  intros v dd Hv. simpl in Hv. lia.
Qed.

Lemma other_ware_rule (fuel : nat) (home : Z) :
  1 ≤ num_ware < INT_MAX → 1 ≤ home ≤ num_ware →
  triple any (other_ware fuel home)
    (λ v _, 1 ≤ v ≤ num_ware ∧ (1 < num_ware → v ≠ home)) starved.
Proof.
  intros Hw Hh. unfold other_ware. destruct (Z.eqb_spec num_ware 1) as [E|E].
  { intros d _. simpl. split; [done|lia]. }
  induction fuel as [|fuel IH]; [by intros d _|]. simpl.
  eapply draw_step; [apply random_rule; unfold INT_MIN; lia|].
  intros v Hv. destruct (Z.eqb_spec v home) as [->|Hne]; [exact IH|]. by intros d _.
Qed.

(** The first [i] cells of an array are written, with values in [P]. *)
Definition filled (i : Z) (P : Z → Z → Prop) (l : list (option Z)) : Prop :=
  length l = Z.to_nat MAX_NUM_ITEMS ∧
  ∀ j, 0 ≤ j < i → ∃ x, l !! Z.to_nat j = Some (Some x) ∧ P j x.

Lemma filled_step (i x : Z) (P : Z → Z → Prop) (l : list (option Z)) :
  0 ≤ i < MAX_NUM_ITEMS → filled i P l → P i x →
  filled (i + 1) P (<[Z.to_nat i := Some x]> l).
Proof.
  intros Hi [Hl Hf] Hx. split; [by rewrite length_insert|]. intros j Hj.
  destruct (decide (j = i)) as [->|Hne].
  - exists x. rewrite list_lookup_insert_eq by lia. done.
  - rewrite list_lookup_insert_ne by lia. apply Hf. lia.
Qed.

Lemma filled_values (i : Z) (P : Z → Z → Prop) (l : list (option Z)) (j : Z) :
  filled i P l → 0 ≤ j < i → P j (at_ (values l) j).
Proof.
  intros [_ Hf] Hj. destruct (Hf j Hj) as (x & Hx & HP). unfold at_, values.
  by rewrite list_lookup_fmap, Hx.
Qed.

Lemma set_rule {B} (l : list (option Z)) (i x : Z) (k : list (option Z) → dprog B) Q E :
  length l = Z.to_nat MAX_NUM_ITEMS → 0 ≤ i < MAX_NUM_ITEMS →
  triple any (k (<[Z.to_nat i := Some x]> l)) Q E →
  triple any (l' ← arr_set l i (Some x); k l') Q E.
Proof. intros Hl Hi Hk. rewrite arr_set_ok by lia. exact Hk. Qed.

(** What the loop has prepared before line [i]: item numbers of which only the
    last of an order to roll back is invalid, existing warehouses, the home one
    as long as [all_local] is set, quantities of 1 to 10. *)
Definition lines_in (w cnt rbk i : Z)
  (acc : list (option Z) * list (option Z) * list (option Z) * Z) : Prop :=
  let '(itemid, supware, qty, all_local) := acc in
  filled i (λ j x, 1 ≤ x ≤ MAXITEMS ∨ (x = MAXITEMS + 1 ∧ j = cnt - 1 ∧ rbk = 1)) itemid ∧
  filled i (λ _ x, 1 ≤ x ≤ num_ware ∧ (all_local = 1 → x = w)) supware ∧
  filled i (λ _ x, 1 ≤ x ≤ 10) qty ∧ (all_local = 0 ∨ all_local = 1).

Lemma neword_line_in_rule (fuel : nat) (w cnt rbk i : Z) acc :
  1 ≤ num_ware < INT_MAX → 1 ≤ w ≤ num_ware → 0 ≤ i < MAX_NUM_ITEMS →
  lines_in w cnt rbk i acc →
  triple any (neword_line_in fuel w cnt rbk i acc) (λ acc' _, lines_in w cnt rbk (i + 1) acc')
    starved.
Proof.
  intros Hw Hh Hi. destruct acc as [[[itemid supware] qty] all_local].
  intros (Hf1 & Hf2 & Hf3 & Hal). pose proof Hf1 as [L1 _]. pose proof Hf2 as [L2 _].
  pose proof Hf3 as [L3 _]. unfold neword_line_in.
  eapply draw_step; [apply nurand_rule; unfold MAXITEMS, INT_MAX; lia|]. intros x Hx.
  apply set_rule; [done|done|].
  eapply (draw_step _ _ (λ l, filled (i + 1) (λ j x, 1 ≤ x ≤ MAXITEMS ∨
    (x = MAXITEMS + 1 ∧ j = cnt - 1 ∧ rbk = 1)) l)).
  { destruct ((i =? cnt - 1) && (rbk =? 1)) eqn:E.
    - apply andb_true_iff in E as [Ei%Z.eqb_eq Er%Z.eqb_eq].
      rewrite arr_set_ok by (rewrite length_insert; lia). rewrite list_insert_insert_eq.
      intros d _. apply filled_step; auto.
    - intros d _. apply filled_step; auto. }
  intros itemid' Hf1'.
  eapply draw_step; [apply random_rule; unfold INT_MIN, INT_MAX; lia|]. intros r _.
  eapply (draw_step _ _ (λ sa, filled (i + 1) (λ _ x, 1 ≤ x ≤ num_ware ∧ (sa.2 = 1 → x = w))
    sa.1 ∧ (sa.2 = 0 ∨ sa.2 = 1))).
  { destruct (negb (r =? 1)).
    - apply set_rule; [done|done|]. intros d _. split; [|done]. simpl.
      apply filled_step; auto.
    - eapply draw_step; [by apply other_ware_rule|]. intros o [Ho _].
      apply set_rule; [done|done|]. intros d _. split; [|by left]. simpl.
      apply filled_step; [done| |by split; [|lia]].
      destruct Hf2 as [_ Hf2]. split; [done|]. intros j Hj.
      destruct (Hf2 j Hj) as (y & Hy & Hr & _). exists y. split; [done|]. by split; [|lia]. }
  intros [supware' al'] [Hf2' Hal']. simpl in *.
  eapply draw_step; [apply random_rule; unfold INT_MIN, INT_MAX; lia|]. intros q Hq.
  apply set_rule; [done|done|]. intros d _. simpl. split_and!; auto using filled_step.
Qed.

(** The input of a new-order transaction. *)
Definition neword_in_ok (x : neword_in) : Prop :=
  1 ≤ ni_w x ≤ num_ware ∧ 1 ≤ ni_d x ≤ DIST_PER_WARE ∧ 1 ≤ ni_c x ≤ CUST_PER_DIST ∧
  5 ≤ ni_cnt x ≤ 15 ∧
  ∃ rbk, lines_in (ni_w x) (ni_cnt x) rbk (ni_cnt x)
    (ni_item x, ni_sup x, ni_qty x, ni_local x).

Lemma neword_input_rule (fuel : nat) (t_num : Z) :
  config_ok t_num → triple any (neword_input fuel t_num) (λ x _, neword_in_ok x) starved.
Proof.
  intros Hc. pose proof Hc as [Hw _]. unfold neword_input.
  eapply draw_step; [by apply home_ware_rule|]. intros w Hww.
  eapply draw_step; [apply random_rule; unfold DIST_PER_WARE, INT_MIN, INT_MAX; lia|].
  intros d Hd.
  eapply draw_step; [apply nurand_rule; unfold CUST_PER_DIST, INT_MAX; lia|]. intros c Hcc.
  eapply draw_step; [apply random_rule; unfold INT_MIN, INT_MAX; lia|]. intros cnt Hcnt.
  eapply draw_step; [apply random_rule; unfold INT_MIN, INT_MAX; lia|]. intros rbk _.
  cbv beta in *. eapply (draw_step _ _ (λ acc, lines_in w cnt rbk cnt acc)).
  - eapply triple_weaken.
    { apply (triple_for_lt (λ i acc _, lines_in w cnt rbk i acc) starved
           (neword_line_in fuel w cnt rbk) 0 cnt (_, _, _, 1)); [lia|].
         intros i acc Hi dd Hl.
         exact (neword_line_in_rule fuel w cnt rbk i acc Hw Hww
           ltac:(unfold MAX_NUM_ITEMS; lia) Hl dd I). }
    intros dd _. split_and!; [..|by right]; (split; [by rewrite length_replicate|lia]).
  - intros [[[itemid supware] qty] al] Hl dd _. simpl. unfold neword_in_ok. simpl.
    split_and!; try lia. by exists rbk.
Qed.

(** On a loaded database it meets the preconditions of the transaction. *)
Lemma neword_in_args (k : db) (x : neword_in) :
  num_ware ≤ 21473 →
  (∀ w dd c, 1 ≤ w ≤ num_ware → 1 ≤ dd ≤ DIST_PER_WARE → 1 ≤ c ≤ CUST_PER_DIST →
     is_Some (warehouse k !! w) ∧ is_Some (district k !! (w, dd)) ∧
     is_Some (customer k !! (w, dd, c))) →
  neword_in_ok x → ni_cnt x ≤ 14 →
  neword_args k (ni_w x) (ni_d x) (ni_c x) (ni_cnt x)
    (values (ni_item x)) (values (ni_sup x)) (values (ni_qty x)).
Proof.
  intros Hmax Hk (Hw & Hd & Hcc & Hcnt & rbk & Hf1 & Hf2 & Hf3 & _) H14.
  destruct (Hk _ _ _ Hw Hd Hcc) as (_ & Hdis & Hcus).
  assert (∀ (P : Z → Z → Prop) l, filled (ni_cnt x) P l →
    ni_cnt x ≤ Z.of_nat (length (values l))) as Hlen.
  { intros P l [Hl _]. unfold values. rewrite length_fmap, Hl. unfold MAX_NUM_ITEMS. lia. }
  constructor; [done|done|lia|split_and!; by eapply Hlen|..]; intros j Hj.
  - pose proof (filled_values _ _ _ j Hf1 Hj) as H. simpl in H. unfold MAXITEMS in *. lia.
  - pose proof (filled_values _ _ _ j Hf2 Hj) as H. simpl in H.
    split; [lia|]. apply (Hk _ (ni_d x) (ni_c x)); [by destruct H|done|done].
  - exact (filled_values _ _ _ j Hf3 Hj).
Qed.
End inputs.

(** ** The transactions of the server behind the interface *)

(** What the transactions read besides their arguments: the time stamp, the
    bytes of the two pointers of payment.c, and the fuel of the fetch loops. *)
Class TxContext := {
  now : cstr; ptr_datetime : ascii; ptr_c_data : ascii; rows_fuel : nat }.

(** No exit but the undefined ones leaves a transaction function. *)
Definition to_fault {conn A} (e : tx_exit) : prog fault conn A :=
  match e with
  | TxUndefined u => leave (Undefined u)
  | TxOutOfFuel => leave OutOfFuel
  | _ => leave Abort
  end.

#[export] Instance mysql_ops {conn} {Api : MySQL conn} {Tc : TxContext} : TxOps conn := {
  op_neword w d c n l i s q := at_label (neword now w d c n l i s q) to_fault;
  op_payment w d byname cw cd c last a :=
    at_label (payment now ptr_datetime ptr_c_data w d byname cw cd c last a) to_fault;
  op_ordstat w d byname c last := at_label (ordstat rows_fuel w d byname c last) to_fault;
  op_delivery w o := at_label (delivery now w o) to_fault;
  op_slev w d level := at_label (slev rows_fuel w d level) to_fault;
}.

(** ** Properties *)

Section driver_properties.
Context {conn : Type} {Env : DriverEnv} {Rs : RandSource} {St : StackSlots}.

(** C29: while counting is on, running a transaction with retries counts it
    exactly once: as success or late (by the limit of its type) when one of the
    [MAX_RETRY] calls returns non zero, as failure otherwise; and [retry] grows
    by the number of failed calls, one less for a failure.  The per-type and the
    per-thread counters move together. *)
Theorem attempt_counts (ty rtime t : Z) (call : prog fault conn Z) (I : conn → Prop)
    (d : drv conn) :
  0 ≤ ty < 5 → (∀ n, counting_at n = true) →
  (∀ c, I c → ∃ r c', call c = (Done r, c') ∧ I c') →
  (∀ n, ∃ i, f_trunc (f64_mul (response (clock_at (dv_tick d)) (clock_at n))
                 (f64_of_Z REC_PER_SEC)) = Some i ∧ 0 ≤ i ≤ INT_MAX) →
  I (dv_conn d) → hist_ready ty (dv_hist d) → counters_shape ty t (dv_count d) →
  (∀ x, within 0 (INT_MAX - 1 - MAX_RETRY) (count_of (dv_count d) x ty t)) →
  let n := Z.to_nat MAX_RETRY in
  let f := failing_calls n call (dv_conn d) in
  ∃ d' late, attempt ty rtime t call d = (Done (if (f <? n)%nat then 1 else 0), d') ∧
    (late = 0 ∨ late = 1) ∧
    let c := count_of (dv_count d) in let c' := count_of (dv_count d') in
    if (f <? n)%nat then
      c' Success ty t = add2 (c Success ty t) (1 - late) ∧ c' Late ty t = add2 (c Late ty t) late ∧
      c' Failure ty t = c Failure ty t ∧ c' Retry ty t = add2 (c Retry ty t) (Z.of_nat f)
    else
      c' Success ty t = c Success ty t ∧ c' Late ty t = c Late ty t ∧
      c' Failure ty t = add2 (c Failure ty t) 1 ∧
      c' Retry ty t = add2 (c Retry ty t) (MAX_RETRY - 1).
Proof.
  intros Hty Hcount Hcall Htime HI Hh Hs Hw n f. unfold attempt.
  erewrite bind_done by reflexivity.
  set (d1 := Drv conn (dv_support d) (dv_seq d) (dv_hist d) (dv_count d) (dv_tick d + 1)
    (dv_conn d)).
  destruct (retry_loop_run ty rtime t call (clock_at (dv_tick d)) I Hty Hcount Hcall Htime
    n d1 HI Hh Hs) as (d' & late & E & H); [|by exists d', late].
  intros x. unfold n. rewrite Z2Nat.id by done. apply Hw.
Qed.

(** Every input the driver prepares for a new order is valid for the
    transaction on a loaded database: when the order has at most 14 lines its
    arguments meet the preconditions of [neword]; the preparation itself never
    faults, it can only wait for a different warehouse number. *)
Theorem neword_input_valid (fuel : nat) (t_num : Z) (k : db) (d : drv conn) :
  config_ok t_num → num_ware ≤ 21473 →
  (∀ w dd c, 1 ≤ w ≤ num_ware → 1 ≤ dd ≤ DIST_PER_WARE → 1 ≤ c ≤ CUST_PER_DIST →
     is_Some (warehouse k !! w) ∧ is_Some (district k !! (w, dd)) ∧
     is_Some (customer k !! (w, dd, c))) →
  match neword_input fuel t_num d with
  | (Done x, _) =>
      5 ≤ ni_cnt x ≤ 15 ∧
      (ni_cnt x ≤ 14 → neword_args k (ni_w x) (ni_d x) (ni_c x) (ni_cnt x)
         (values (ni_item x)) (values (ni_sup x)) (values (ni_qty x)))
  | (Leave e, _) => e = OutOfFuel
  end.
Proof.
  intros Hc Hmax Hk. pose proof (neword_input_rule fuel t_num Hc d I) as Ht.
  destruct (neword_input fuel t_num d) as [[x|e] d']; [|done].
  split; [apply Ht|]. intros H14. by apply neword_in_args.
Qed.

(** [other_ware] never returns the home warehouse when there are several:
    as soon as one of the next [fuel] random numbers draws another warehouse it
    returns a different, valid one. *)
Theorem other_ware_differs (fuel : nat) (home : Z) (d : drv conn) :
  1 < num_ware < INT_MAX → 1 ≤ home ≤ num_ware →
  (∃ j, 0 ≤ j < Z.of_nat fuel ∧
     1 + rand_value (rand_calls (dv_support d) + j) mod num_ware ≠ home) →
  ∃ v d', other_ware fuel home d = (Done v, d') ∧ 1 ≤ v ≤ num_ware ∧ v ≠ home.
Proof.
  intros Hw Hh Hex. unfold other_ware. rewrite (proj2 (Z.eqb_neq num_ware 1)) by lia.
  revert d Hex; induction fuel as [|fuel IH]; intros d (j & Hj & Hne); [lia|]. simpl.
  assert (RandomNumber 1 num_ware (dv_support d) = (Done (1 +
    rand_value (rand_calls (dv_support d)) mod (num_ware - 1 + 1)),
    set_rand_calls (rand_calls (dv_support d) + 1) (dv_support d))) as Er.
  { apply RandomNumber_run; unfold INT_MIN; lia. }
  replace (num_ware - 1 + 1) with num_ware in Er by lia.
  erewrite bind_done; [|apply zoom_run; exact Er].
  set (v := 1 + rand_value (rand_calls (dv_support d)) mod num_ware). destruct (Z.eqb_spec v home) as [Ev|Ev].
  - apply IH. exists (j - 1). simpl. unfold v in Ev.
    assert (j ≠ 0). { intros ->. rewrite Z.add_0_r in Hne. lia. }
    split; [lia|].
    by replace (rand_calls (dv_support d) + 1 + (j - 1)) with (rand_calls (dv_support d) + j) by lia.
  - eexists _, _. split; [reflexivity|]. split; [|done]. unfold v.
    pose proof (Z.mod_pos_bound (rand_value (rand_calls (dv_support d))) num_ware). lia.
Qed.
End driver_properties.

(** ** Concrete runs *)

Module DriverRun.

#[export] Instance run_env : DriverEnv := {
  num_ware := 1; num_conn := 1; num_node := 0;
  clock_at n := (0, n * 1000); counting_at _ := true; active_at n := n <? 40 }.
#[export] Instance run_rand : RandSource := SupportRun.lcg.
#[export] Instance run_slots : StackSlots := SupportRun.zero_slots.

Definition tally_zero : tally := Tally (replicate 5 0) (replicate 5 [0]).
Definition counters_zero : counters := Counters tally_zero tally_zero tally_zero tally_zero.

Definition start {conn} (c : conn) : drv conn :=
  Drv conn support_init sequence_zero (hist_busy 0) counters_zero 0 c.

(** A transaction that fails three times. *)
Definition flaky : prog fault nat Z := λ c, (Done (if (c <? 3)%nat then 0 else 1), S c).

(** The clock stands still in this environment. *)
Definition still_env : DriverEnv := {|
  num_ware := 3; num_conn := 1; num_node := 0;
  clock_at _ := (0, 0); counting_at _ := true; active_at _ := true |}.
End DriverRun.

Lemma attempt_counts_witness :
  ∃ d' late, attempt (Env:=DriverRun.still_env) 1 RTIME_PAYMENT 0 DriverRun.flaky
      (DriverRun.start 0%nat) = (Done 1, d') ∧ (late = 0 ∨ late = 1) ∧
    count_of (dv_count d') Retry 1 0 = (3, 3) ∧ count_of (dv_count d') Failure 1 0 = (0, 0).
Proof.
  destruct (attempt_counts (Env:=DriverRun.still_env) 1 RTIME_PAYMENT 0 DriverRun.flaky
    (λ _, True) (DriverRun.start 0%nat)) as (d' & late & E & Hl & H).
  - done.
  - done.
  - intros c _. by eexists _, _.
  - intros n. exists 0. split; [by vm_compute|done].
  - done.
  - split; [apply (hist_busy_ok 0); lia|]. by vm_compute.
  - split; [done|]. split; [done|]. intros x. destruct x; (split; [done|]); by exists [0].
  - intros x. destruct x; by vm_compute.
  - exists d', late. split; [exact E|]. split; [done|].
    destruct H as (_ & _ & Hf & Hr). rewrite Hf, Hr. split; vm_compute; reflexivity.
Defined.

Lemma other_ware_differs_witness :
  ∃ v d', other_ware (Env:=DriverRun.still_env) (Rs:=SupportRun.lcg) 3 1
      (DriverRun.start tt) = (Done v, d') ∧ 1 ≤ v ≤ 3 ∧ v ≠ 1.
Proof.
  apply (other_ware_differs (Env:=DriverRun.still_env) (Rs:=SupportRun.lcg) 3 1
    (DriverRun.start tt)); [by vm_compute|by vm_compute|].
  first [exists 0; split; [lia|by vm_compute] | exists 1; split; [lia|by vm_compute]
        | exists 2; split; [lia|by vm_compute]].
Defined.

(** A database with all the warehouses, districts and customers of one
    warehouse. *)
Definition full_db : db := Db
  (gset_to_gmap (WarehouseRow [] [] [] [] [] [] 0 0) {[1]})
  (gset_to_gmap (DistrictRow [] [] [] [] [] [] 0 0 1)
     (list_to_set ((λ d, (1, d)) <$> seqZ 1 DIST_PER_WARE)))
  (gset_to_gmap (sample_customer "x")
     (list_to_set (seqZ 1 DIST_PER_WARE ≫= λ d, (λ c, (1, d, c)) <$> seqZ 1 CUST_PER_DIST)))
  [] ∅ ∅ ∅ ∅ ∅.

Lemma full_db_rows (w d c : Z) :
  1 ≤ w ≤ 1 → 1 ≤ d ≤ DIST_PER_WARE → 1 ≤ c ≤ CUST_PER_DIST →
  is_Some (warehouse full_db !! w) ∧ is_Some (district full_db !! (w, d)) ∧
  is_Some (customer full_db !! (w, d, c)).
Proof.
  intros Hw Hd Hc. assert (w = 1) as -> by lia. unfold full_db. cbn [warehouse district customer].
  split_and!; eexists; apply lookup_gset_to_gmap_Some; (split; [|reflexivity]).
  - set_solver.
  - apply elem_of_list_to_set, list_elem_of_fmap. exists d. split; [done|].
    apply elem_of_seqZ. lia.
  - apply elem_of_list_to_set, list_elem_of_bind. exists d. split.
    + apply list_elem_of_fmap. exists c. split; [done|]. apply elem_of_seqZ. lia.
    + apply elem_of_seqZ. lia.
Qed.

Lemma neword_input_valid_witness :
  match neword_input (Env:=DriverRun.run_env) (Rs:=SupportRun.lcg) (St:=SupportRun.zero_slots)
          5 0 (DriverRun.start tt) with
  | (Done x, _) =>
      5 ≤ ni_cnt x ≤ 15 ∧
      (ni_cnt x ≤ 14 → neword_args full_db (ni_w x) (ni_d x) (ni_c x) (ni_cnt x)
         (values (ni_item x)) (values (ni_sup x)) (values (ni_qty x)))
  | (Leave e, _) => e = OutOfFuel
  end.
Proof.
  exact (neword_input_valid (Env:=DriverRun.run_env) (Rs:=SupportRun.lcg)
    (St:=SupportRun.zero_slots) 5 0 full_db (DriverRun.start tt)
    (conj (conj (Z.le_refl 1) (eq_refl Lt)) (or_introl eq_refl)) ltac:(by vm_compute)
    full_db_rows).
Defined.

(** A thread with transactions that always succeed: it runs until the flag is
    cleared, and what it ran is counted. *)
#[local] Instance quick_ops : TxOps unit := {
  op_neword _ _ _ _ _ _ _ _ := mret 1; op_payment _ _ _ _ _ _ _ _ := mret 1;
  op_ordstat _ _ _ _ _ := mret 1; op_delivery _ _ := mret 1; op_slev _ _ _ := mret 1 }.

Example driver_runs :
  match (on_seq (seq_init (Rs:=SupportRun.lcg) 0 1 1 0 0 1);;
         driver (Env:=DriverRun.run_env) (Rs:=SupportRun.lcg) (St:=SupportRun.zero_slots) 50 5 0)
        (DriverRun.start tt) with
  | (Done r, d) => r = 0 ∧
      zsum (t_all (ct_success (dv_count d))) + zsum (t_all (ct_late (dv_count d))) = 10
  | _ => False
  end.
Proof. vm_compute. split; reflexivity. Qed.
