(* ===== verification/TpccBenchmark.v ===== *)
(** * tpcc-mysql: the benchmark keeps the database consistent

    The database a thread of tpcc_start works on ([populated]), and the theorem
    that any number of turns of [driver], with its random inputs and retries,
    leaves a committed database that is populated and consistent. *)

From Stdlib Require Import ZArith Lia SpecFloat Ascii String.
From stdpp Require Import base gmap list strings sorting numbers.
From S2P Require Import Prelude CFloat TpccSupport TpccSequence TpccRthist TpccSql.
From S2P Require Import TpccTx TpccInvariant TpccMemDb TpccSample TpccNeword.
From S2P Require Import TpccPayment TpccOrdstat TpccDelivery TpccSlev TpccDriver.

(** ** Trouble stays *)

Section trouble.
Context {conn : Type} {Sv : SqlServer} {Api : MySQL conn} {Laws : MySQLLaws conn}.

Lemma neword_line_keeps (P : conn → Prop) itemid supware qty seq h n out :
  inert P → keeps P (neword_line itemid supware qty seq h n out).
Proof.
  intros HP. unfold neword_line, neword_item, neword_keep_item, neword_stock, neword_keep_stock,
    restock, neword_keep_amount, neword_insert_line. solve_keeps.
Qed.

Lemma sort_lines_keeps (P : conn → Prop) itemid supware cnt :
  keeps P (sort_lines itemid supware cnt).
Proof. unfold sort_lines, sort_turn, sort_scan, ol_key. solve_keeps. Qed.

Lemma neword_trouble datetime w d c cnt local itemid supware qty :
  keeps trouble (neword (conn:=conn) datetime w d c cnt local itemid supware qty).
Proof.
  apply keeps_labels; [apply trouble_inert|].
  unfold neword_body, neword_customer, neword_district, neword_order.
  solve_keeps; auto using neword_line_keeps, sort_lines_keeps with keepdb.
Qed.

Lemma payment_trouble datetime p q w d byname cw cd c last a :
  keeps trouble (payment (conn:=conn) datetime p q w d byname cw cd c last a).
Proof.
  apply keeps_labels; [apply trouble_inert|].
  unfold payment_body, payment_ware, payment_dist, payment_byname, midpoint, payment_customer,
    payment_new_data, payment_h_data, strncpy_to, strncat_to. solve_keeps.
Qed.

Lemma ordstat_fetch_trouble fuel : keeps trouble (ordstat_fetch (conn:=conn) fuel).
Proof. induction fuel as [|fuel IH]; simpl; solve_keeps. Qed.

Lemma ordstat_trouble fuel w d byname c last :
  keeps trouble (ordstat (conn:=conn) fuel w d byname c last).
Proof.
  apply keeps_labels; [apply trouble_inert|].
  unfold ordstat_look, ordstat_byname, ordstat_bynumber, ordstat_columns, midpoint,
    ordstat_order, ordstat_items.
  solve_keeps; auto using ordstat_fetch_trouble with keepdb.
Qed.

Lemma delivery_trouble datetime w carrier :
  keeps trouble (delivery (conn:=conn) datetime w carrier).
Proof.
  apply keeps_labels; [apply trouble_inert|].
  unfold delivery_district, delivery_oldest, delivery_order. solve_keeps.
Qed.

Lemma slev_loop_trouble fuel w level : keeps trouble (slev_loop (conn:=conn) fuel w level).
Proof. induction fuel as [|fuel IH]; simpl; unfold slev_count; solve_keeps. Qed.

Lemma slev_trouble fuel w d level : keeps trouble (slev (conn:=conn) fuel w d level).
Proof.
  unfold slev, slev_look, slev_next. solve_keeps; auto using slev_loop_trouble with keepdb.
Qed.

(** ** Orders of fifteen lines

    They never reach the commit: the line with index 14 overruns [iname]. *)

Lemma fifteenth_line (P : conn → Prop) itemid supware qty seq h n out :
  inert P → 1 ≤ n ≤ Z.of_nat (length seq) → length (no_iname out) = 360%nat →
  triple P (neword_line itemid supware qty (slots seq) h n out)
    (λ out' c, (length (no_iname out') = 360%nat ∧ at_ seq (n - 1) ≠ 14) ∧ P c) (λ _, P).
Proof.
  intros HP Hn Hlen. unfold neword_line.
  eapply triple_step_ex. intros c0 _. exists (at_ seq (n - 1)).
  split; [apply slots_get; lia|].
  do 3 (apply triple_keep; [auto with keepdb|done|intros ?]).
  apply triple_keep; [unfold neword_item; solve_keeps|done|]. intros [[i_price i_name] i_data].
  apply (triple_bind _ _ (λ out' c, (length (no_iname out') = 360%nat ∧ at_ seq (n - 1) ≠ 14)
    ∧ P c)).
  { unfold neword_keep_item. apply triple_keep; [auto with keepdb|done|]. intros price.
    intros c Hc. unfold mbind, prog_bind.
    pose proof (keeps_write_bytes (F:=tx_exit) P (strncpy_bytes 25 i_name) (no_iname out)
      (at_ seq (n - 1) * MAX_ITEM_LEN) c Hc) as Hk.
    destruct (write_bytes _ _ _ c) as [[iname|e] c'] eqn:E; [|done].
    apply write_bytes_done in E as [Hl Hb]. rewrite strncpy_length in Hb.
    simpl. split; [|done]. split; [congruence|]. intros E14. rewrite E14 in Hb.
    destruct Hb as [_ Hb]; [|unfold MAX_ITEM_LEN in Hb; lia].
    intros E%(f_equal length). by rewrite strncpy_length in E. }
  intros out1. apply triple_pure. intros [Hl1 Hne].
  apply triple_keep; [unfold neword_stock; solve_keeps|done|]. intros [[s_quantity s_data] s_dist].
  apply (triple_bind _ _ (λ out' c, length (no_iname out') = 360%nat ∧ P c)).
  { unfold neword_keep_stock. do 2 (apply triple_keep; [auto with keepdb|done|intros ?]).
    by intros c Hc. }
  intros out2. apply triple_pure. intros Hl2.
  apply triple_keep; [unfold restock; solve_keeps|done|]. intros q.
  apply triple_keep; [auto with keepdb|done|]. intros _. cbv zeta.
  apply (triple_bind _ _ (λ out' c, length (no_iname out') = 360%nat ∧ P c)).
  { unfold neword_keep_amount. apply triple_keep; [auto with keepdb|done|intros ?].
    by intros c Hc. }
  intros out3. apply triple_pure. intros Hl3.
  apply triple_keep; [unfold neword_insert_line; solve_keeps|done|]. intros _.
  by intros c Hc.
Qed.

Lemma fifteen_lines (P : conn → Prop) itemid supware qty h seq :
  inert P → seq ≡ₚ seqZ 0 15 →
  triple P (for_lt 1 (15 + 1) (neword_line itemid supware qty (slots seq) h) neword_out_init)
    (λ _ _, False) (λ _, P).
Proof.
  intros HP Hp.
  assert (length seq = 15%nat) as Hlen by (rewrite Hp; done).
  eapply triple_ends.
  - eapply triple_weaken.
    + apply (triple_for_lt (λ n out c, (length (no_iname out) = 360%nat ∧
        ∀ j, 0 ≤ j < n - 1 → at_ seq j ≠ 14) ∧ P c)); [done|].
      intros n out Hn. apply triple_pure. intros [Hl Hj].
      eapply triple_post; [apply fifteenth_line; [done|lia|done]|].
      intros out' c [[Hl' Hne] Hc]. split; [|done]. split; [done|]. intros j Hlt.
      destruct (decide (j = n - 1)) as [-> |]; [done|]. apply Hj. lia.
    + intros c Hc. split; [|done]. split; [done|lia].
  - intros out c [[_ Hj] _]. assert (14 ∈ seq) as [i Hi]%list_elem_of_lookup.
    { rewrite Hp. apply elem_of_seqZ. lia. }
    pose proof (lookup_lt_Some _ _ _ Hi). apply (Hj (Z.of_nat i)); [lia|].
    unfold at_. by rewrite Nat2Z.id, Hi.
  - done.
Qed.

(** A new order of fifteen lines commits nothing and, when it returns, has no
    transaction open. *)
Lemma fifteen_neword datetime w d c local itemid supware qty (k : db) (s : conn) :
  (15 ≤ length itemid)%nat → (15 ≤ length supware)%nat →
  (∀ j, 0 ≤ j < 15 → 1 ≤ at_ itemid j ≤ MAXITEMS + 1 ∧ 0 ≤ at_ supware j ≤ 21473) →
  durable s = k →
  match neword datetime w d c 15 local itemid supware qty s with
  | (Done _, s') => durable s' = k ∧ (view s' = durable s' ∨ trouble s')
  | (Leave e, s') => durable s' = k ∧ (e = TxOutOfFuel ∨ ∃ u, e = TxUndefined u)
  end.
Proof.
  intros Hi Hs Hk Hd.
  pose proof (durable_inert (conn:=conn) (λ b, b = k)) as HP.
  assert (triple (λ c, durable c = k)
    (neword_body (conn:=conn) datetime w d c 15 local itemid supware qty)
    (λ _ _, False) (λ _ c, durable c = k)) as Hbody.
  { unfold neword_body, neword_customer, neword_district, neword_order.
    apply triple_keep; [solve_keeps|done|]. intros [c_discount w_tax].
    apply triple_keep; [solve_keeps|done|]. intros [d_next_o_id d_tax].
    apply triple_keep; [solve_keeps|done|]. intros o_id.
    apply triple_step_ex. intros s0 _.
    destruct (sort_lines_run itemid supware 15 ltac:(lia) ltac:(lia) ltac:(lia) Hk s0)
      as (seq & Hsort & Hp & _).
    exists (slots seq). split; [done|].
    eapply triple_bind; [by apply fifteen_lines|]. by intros out c1 []. }
  specialize (Hbody s Hd). unfold neword, with_labels, at_label.
  destruct (neword_body _ _ _ _ _ _ _ _ _ s) as [[ret|e] s1]; [done|].
  assert (∀ ret : Z, match (rollback;; mret ret : prog tx_exit conn Z) s1 with
    | (Done _, s') => durable s' = k ∧ (view s' = durable s' ∨ trouble s')
    | (Leave e, s') => durable s' = k ∧ (e = TxOutOfFuel ∨ ∃ u, e = TxUndefined u) end) as Hroll.
  { intros ret. unfold rollback, mbind, prog_bind.
    destruct (mysql_rollback s1) as [rc s2] eqn:Er. simpl.
    destruct (law_rollback _ _ _ Er) as (Hd2 & _ & Hrc). split; [congruence|].
    destruct rc; [by right|left; congruence]. }
  destruct e; [apply Hroll|apply Hroll|simpl; eauto|simpl; eauto].
Qed.
End trouble.

(** ** Counting rows *)

Lemma NoDup_omap_keys {K R A B} (f : K * R → option A) (h : A → B) (l : list (K * R)) :
  NoDup (l.*1) →
  (∀ x y a b, f x = Some a → f y = Some b → h a = h b → x.1 = y.1) →
  NoDup (h <$> omap f l).
Proof.
  intros Hnd Hinj. induction l as [|x l IH]; simpl in *; [constructor|].
  apply list.NoDup_cons in Hnd as [Hx Hl]. destruct (f x) as [a|] eqn:Ea; [|by apply IH].
  simpl. apply list.NoDup_cons. split; [|by apply IH].
  intros (b & Hb & (y & Hy & Ey)%list_elem_of_omap)%list_elem_of_fmap.
  apply Hx. rewrite (Hinj x y a b) by done. by apply list_elem_of_fmap_2.
Qed.

Lemma NoDup_length_le {A} (l l' : list A) :
  NoDup l → (∀ x, x ∈ l → x ∈ l') → (length l ≤ length l')%nat.
Proof. intros Hl Hin. by apply submseteq_length, NoDup_submseteq. Qed.

Lemma length_omap_ext {A B C} (f : A → option B) (g : A → option C) (l : list A) :
  (∀ x, match f x, g x with Some _, Some _ | None, None => True | _, _ => False end) →
  length (omap f l) = length (omap g l).
Proof.
  intros Hfg. induction l as [|x l IH]; csimpl; [done|]. specialize (Hfg x).
  destruct (f x), (g x); csimpl; by rewrite ?IH.
Qed.

(** The tests of a WHERE clause. *)
Ltac split_tests :=
  repeat match goal with
  | H : _ && _ = true |- _ => apply andb_true_iff in H as [? ?]
  | H : (_ =? _) = true |- _ => apply Z.eqb_eq in H
  | H : (_ <? _) = true |- _ => apply Z.ltb_lt in H
  | H : (_ <=? _) = true |- _ => apply Z.leb_le in H
  end.

Lemma elem_of_prod_range (a n b m x y : Z) :
  a ≤ x < a + n → b ≤ y < b + m → (x, y) ∈ list_prod (seqZ a n) (seqZ b m).
Proof.
  intros Hx Hy. apply list_elem_of_In, in_prod; by apply list_elem_of_In, elem_of_seqZ.
Qed.

Section counting.
Context {Sv : SqlServer}.

Lemma customers_named_le (b : db) (w d : Z) (last : cstr) :
  (∀ c, is_Some (customer b !! (w, d, c)) → 1 ≤ c ≤ CUST_PER_DIST) →
  Z.of_nat (length (customers_named b w d last)) ≤ CUST_PER_DIST.
Proof.
  intros Hc. unfold customers_named.
  rewrite <- (length_fmap fst). transitivity (Z.of_nat (length (seqZ 1 CUST_PER_DIST)));
    [|by rewrite length_seqZ].
  apply Nat2Z.inj_le, NoDup_length_le.
  - apply NoDup_omap_keys; [apply NoDup_fst_map_to_list|].
    intros [[[w1 d1] c1] r1] [[[w2 d2] c2] r2] a a' E1 E2 Ha. simpl in *.
    repeat case_match; simplify_eq/=. split_tests. congruence.
  - intros c (x & -> & ([[[w1 d1] c1] r1] & Hin & Hf)%list_elem_of_omap)%list_elem_of_fmap.
    apply elem_of_map_to_list in Hin. case_match; simplify_eq/=. split_tests. subst.
    apply elem_of_seqZ. specialize (Hc c1 ltac:(eauto)). lia.
Qed.

(** Orders of at most 15 lines. *)
Definition short_orders (b : db) : Prop :=
  ∀ w d o n, is_Some (order_line b !! (w, d, o, n)) → 1 ≤ n ≤ 15.

Lemma lines_of_le (b : db) (w d o : Z) :
  short_orders b → (length (lines_of b w d o) ≤ 15)%nat.
Proof.
  intros Hb. unfold lines_of.
  rewrite <- (length_fmap fst). change 15%nat with (length (seqZ 1 15)). apply NoDup_length_le.
  - apply NoDup_omap_keys; [apply NoDup_fst_map_to_list|].
    intros [[[[w1 d1] o1] n1] r1] [[[[w2 d2] o2] n2] r2] a a' E1 E2 Ha. simpl in *.
    repeat case_match; simplify_eq/=. split_tests. congruence.
  - intros n (x & -> & ([[[[w1 d1] o1] n1] r1] & Hin & Hf)%list_elem_of_omap)%list_elem_of_fmap.
    apply elem_of_map_to_list in Hin. case_match; simplify_eq/=.
    apply elem_of_seqZ. specialize (Hb w1 d1 o1 n1 ltac:(eauto)). lia.
Qed.

Lemma recent_items_le (b : db) (w d next : Z) :
  short_orders b → (length (recent_items b w d next next) ≤ 300)%nat.
Proof.
  intros Hb. unfold recent_items. etrans; [apply remove_dups_length|].
  set (f := λ x : Z * Z * Z * Z * order_line_row, let '((w', d', o, n), r) := x in
    if (w' =? w) && (d' =? d) && (o <? next) && (next - 20 <=? o)
    then Some (o, n) else None).
  transitivity (length (omap f (map_to_list (order_line b)))).
  { apply Nat.eq_le_incl, length_omap_ext. intros [[[[w1 d1] o1] n1] r1]. unfold f.
    by destruct (_ && _ && _ && _). }
  rewrite <- (length_fmap id).
  transitivity (length (list_prod (seqZ (next - 20) 20) (seqZ 1 15)));
    [|by rewrite length_prod, !length_seqZ].
  apply NoDup_length_le.
  - apply NoDup_omap_keys; [apply NoDup_fst_map_to_list|].
    intros [[[[w1 d1] o1] n1] r1] [[[[w2 d2] o2] n2] r2] a a' E1 E2 Ha. simpl in *.
    repeat case_match; simplify_eq/=. split_tests. congruence.
  - intros x (y & -> & ([[[[w1 d1] o1] n1] r1] & Hin & Hf)%list_elem_of_omap)%list_elem_of_fmap.
    apply elem_of_map_to_list in Hin. simpl in Hf. case_match; simplify_eq/=. split_tests.
    specialize (Hb w1 d1 o1 n1 ltac:(eauto)). apply (elem_of_prod_range (next - 20) 20 1 15); lia.
Qed.
End counting.

(** ** The database of a benchmark *)

(** Consistent, with [n] warehouses and what belongs to them: ten districts each,
    3000 customers per district, an order for every customer, at most 15 lines
    per order. *)
Record populated (n : Z) (b : db) : Prop := {
  pop_consistent : consistent b;
  pop_warehouse : ∀ w, 1 ≤ w ≤ n → ∃ wr, warehouse b !! w = Some wr ∧ (zero ∉ w_name wr);
  pop_district : ∀ w d, 1 ≤ w ≤ n → 1 ≤ d ≤ DIST_PER_WARE →
    ∃ dr, district b !! (w, d) = Some dr ∧ (zero ∉ d_name dr);
  pop_customer : ∀ w d c, 1 ≤ w ≤ n → 1 ≤ d ≤ DIST_PER_WARE → 1 ≤ c ≤ CUST_PER_DIST →
    is_Some (customer b !! (w, d, c));
  pop_ids : ∀ w d c, is_Some (customer b !! (w, d, c)) → 1 ≤ c ≤ CUST_PER_DIST;
  pop_ordered : ∀ w d c, 1 ≤ w ≤ n → 1 ≤ d ≤ DIST_PER_WARE → 1 ≤ c ≤ CUST_PER_DIST →
    ∃ o r, orders b !! (w, d, o) = Some r ∧ o_c_id r = c;
  pop_lines : ∀ w d o r, orders b !! (w, d, o) = Some r → o_ol_cnt r ≤ 15;
}.

Lemma populated_short (n : Z) (b : db) : populated n b → short_orders b.
Proof.
  intros Hb w d o m Hm. apply (inv_lines b (pop_consistent n b Hb)) in Hm as (r & Hr & Hm).
  pose proof (pop_lines n b Hb _ _ _ _ Hr). lia.
Qed.

(** [b] has the rows of [k], with the columns the programs rely on, and no order
    of more than 15 lines that [k] has not. *)
Record extends (k b : db) : Prop := {
  ext_warehouse : ∀ w wr, warehouse k !! w = Some wr →
    ∃ wr', warehouse b !! w = Some wr' ∧ w_name wr' = w_name wr;
  ext_district : ∀ key dr, district k !! key = Some dr →
    ∃ dr', district b !! key = Some dr' ∧ d_name dr' = d_name dr;
  ext_customer : ∀ key, is_Some (customer b !! key) ↔ is_Some (customer k !! key);
  ext_orders : ∀ key r, orders k !! key = Some r →
    ∃ r', orders b !! key = Some r' ∧ o_c_id r' = o_c_id r;
  ext_lines : ∀ key r', orders b !! key = Some r' →
    o_ol_cnt r' ≤ 15 ∨ ∃ r, orders k !! key = Some r ∧ o_ol_cnt r = o_ol_cnt r';
}.

Lemma extends_refl (b : db) : extends b b.
Proof. constructor; eauto. Qed.

Lemma extends_trans (a b c : db) : extends a b → extends b c → extends a c.
Proof.
  intros [A1 A2 A3 A4 A5] [B1 B2 B3 B4 B5]. constructor.
  - intros w wr (wr1 & H1 & <-)%A1. eauto.
  - intros key dr (dr1 & H1 & <-)%A2. eauto.
  - intros key. by rewrite B3.
  - intros key r (r1 & H1 & <-)%A4. eauto.
  - intros key r [H|(r1 & H1 & <-)]%B5; eauto.
Qed.

#[export] Instance extends_preorder : PreOrder extends.
Proof. split; [exact extends_refl|exact extends_trans]. Qed.

Lemma populated_extends (n : Z) (k b : db) :
  populated n k → extends k b → consistent b → populated n b.
Proof.
  intros [P0 P1 P2 P3 P4 P5 P6] [E1 E2 E3 E4 E5] Hb. constructor; [done|..].
  - intros w Hw. destruct (P1 w Hw) as (wr & Hwr & Hz). destruct (E1 _ _ Hwr) as (wr' & ? & He).
    exists wr'. by rewrite He.
  - intros w d Hw Hd. destruct (P2 w d Hw Hd) as (dr & Hdr & Hz).
    destruct (E2 _ _ Hdr) as (dr' & ? & He). exists dr'. by rewrite He.
  - intros w d c Hw Hd Hc. apply E3. auto.
  - intros w d c Hc. apply (P4 w d). by apply E3.
  - intros w d c Hw Hd Hc. destruct (P5 w d c Hw Hd Hc) as (o & r & Hr & <-).
    destruct (E4 _ _ Hr) as (r' & ? & ?). eauto.
  - intros w d o r [H|(r0 & H & <-)]%E5; [done|]. eauto.
Qed.

(** *** The transactions extend the database *)

Section extends.
Context {Sv : SqlServer}.

Lemma is_Some_alter {K A} `{Countable K} (f : A → A) (i key : K) (m : gmap K A) :
  is_Some (alter f i m !! key) ↔ is_Some (m !! key).
Proof.
  destruct (decide (i = key)) as [-> |Hne].
  - rewrite lookup_alter_eq, fmap_is_Some. done.
  - by rewrite lookup_alter_ne.
Qed.

Lemma lookup_alter_same {K A B} `{Countable K} (f : A → A) (g : A → B) (i key : K)
    (m : gmap K A) (x : A) :
  (∀ y, g (f y) = g y) → m !! key = Some x →
  ∃ x', alter f i m !! key = Some x' ∧ g x' = g x.
Proof.
  intros Hg Hx. destruct (decide (i = key)) as [-> |Hne].
  - rewrite lookup_alter_eq, Hx. simpl. eauto.
  - rewrite lookup_alter_ne by done. eauto.
Qed.

Lemma lookup_insert_same {K A B} `{Countable K} (g : A → B) (i key : K) (m : gmap K A)
    (old new x : A) :
  m !! i = Some old → g new = g old → m !! key = Some x →
  ∃ x', <[i := new]> m !! key = Some x' ∧ g x' = g x.
Proof.
  intros Hi Hg Hx. destruct (decide (i = key)) as [-> |Hne].
  - rewrite lookup_insert_eq. simplify_eq. eauto.
  - rewrite lookup_insert_ne by done. eauto.
Qed.

Lemma new_order_extends datetime w d c cnt local l (k b : db) :
  consistent k → cnt ≤ 15 → new_order datetime w d c cnt local l k = Some b → extends k b.
Proof.
  intros Hk Hcnt. unfold new_order.
  destruct (warehouse k !! w) as [wr|] eqn:Hwr; simpl; [|done].
  destruct (customer k !! (w, d, c)) as [cr|] eqn:Hcr; simpl; [|done].
  destruct (district k !! (w, d)) as [dr|] eqn:Hdr; simpl; [|done].
  destruct (fresh_order k w d dr Hk Hdr) as (Ho & _ & _). intros Hpl.
  destruct (place_lines_frame _ _ _ _ _ Hpl) as (Ew & Ed & Ec & _ & Eo & _).
  unfold enter_order in *. simpl in *. constructor.
  - rewrite Ew. eauto.
  - rewrite Ed. intros key dr' Hdr'. by apply lookup_alter_same.
  - by rewrite Ec.
  - rewrite Eo. intros key r Hr. rewrite lookup_insert_ne by congruence. eauto.
  - rewrite Eo. intros key r' [[_ <-]|[_ Hr]]%lookup_insert_Some; eauto.
Qed.

Lemma paid_extends datetime w d cw cd c a wr dr cr (k : db) :
  warehouse k !! w = Some wr → district k !! (w, d) = Some dr →
  customer k !! (cw, cd, c) = Some cr → extends k (paid datetime w d cw cd c a wr dr cr k).
Proof.
  intros Hw Hd Hc. constructor; simpl; eauto.
  - intros w' wr' Hw'. by eapply lookup_insert_same.
  - intros key dr' Hd'. by eapply lookup_insert_same.
  - intros key. destruct (decide ((cw, cd, c) = key)) as [<-|Hne].
    + rewrite lookup_insert_eq, Hc. naive_solver.
    + by rewrite lookup_insert_ne.
Qed.

Lemma deliver_extends datetime w carrier d (b : db) :
  extends b (deliver datetime w carrier b d).
Proof.
  unfold deliver. destruct (pending_orders b w d) as [|x l]; [reflexivity|].
  destruct (orders b !! _) as [r|] eqn:Hr; [|reflexivity].
  unfold deliver_order, charge_order, ship_order. constructor; simpl; eauto.
  - intros key. apply is_Some_alter.
  - intros key r' Hr'. by eapply lookup_insert_same.
  - intros key r' [[<- <-]|[_ Hr']]%lookup_insert_Some; right; eauto.
Qed.

Lemma deliver_upto_extends datetime w carrier n (b : db) :
  extends b (deliver_upto datetime w carrier n b).
Proof.
  unfold deliver_upto. generalize (seqZ 1 n). intros l. revert b.
  induction l as [|d l IH]; intros b; simpl; [reflexivity|].
  etransitivity; [apply deliver_extends|apply IH].
Qed.
End extends.

(** ** Inputs of the other transactions *)

Section inputs.
Context {conn : Type} {Env : DriverEnv} {Rs : RandSource} {St : StackSlots}.

Abbreviation dprog := (prog fault (drv conn)).
Abbreviation any := (λ _ : drv conn, True).
Abbreviation starved := (λ (e : fault) (_ : drv conn), e = OutOfFuel).

Lemma lastname_rule (n : Z) (E : fault → drv conn → Prop) :
  0 ≤ n ≤ 999 → triple any (on_support (Lastname n)) (λ _ _, True) E.
Proof.
  intros Hn d _. destruct (Lastname_run n (dv_support d) Hn) as (name & En & _).
  unfold on_support. by rewrite (zoom_run _ _ _ d _ _ En).
Qed.

Definition payment_in_ok (x : payment_in) : Prop :=
  1 ≤ pi_w x ≤ num_ware ∧ 1 ≤ pi_d x ≤ DIST_PER_WARE ∧ 1 ≤ pi_cw x ≤ num_ware ∧
  1 ≤ pi_cd x ≤ DIST_PER_WARE ∧ 1 ≤ pi_c x ≤ CUST_PER_DIST ∧ 1 ≤ pi_amount x ≤ 5000.

Lemma payment_input_rule (fuel : nat) (t_num : Z) :
  config_ok t_num → triple any (payment_input fuel t_num) (λ x _, payment_in_ok x) starved.
Proof.
  intros Hc. pose proof Hc as [Hw _]. unfold payment_input.
  eapply draw_step; [by apply home_ware_rule|]. intros w Hww.
  eapply draw_step; [apply random_rule; intbounds|]. intros d Hd.
  eapply draw_step; [apply nurand_rule; [lia|intbounds..]|]. intros c Hcc.
  eapply draw_step; [apply nurand_rule; [lia|intbounds..]|]. intros n Hn.
  eapply (draw_step _ _ (λ _, True)); [by apply lastname_rule|]. intros last _.
  eapply draw_step; [apply random_rule; intbounds|]. intros a Ha.
  eapply draw_step; [apply random_rule; intbounds|]. intros x _. cbv zeta.
  eapply draw_step; [apply random_rule; intbounds|]. intros y _. cbv beta in *.
  eapply (draw_step _ _ (λ z, 1 ≤ z.1 ≤ num_ware ∧ 1 ≤ z.2 ≤ DIST_PER_WARE)).
  { destruct (y <=? 85); [by intros dd _|].
    eapply draw_step; [by apply other_ware_rule|]. intros o [Ho _].
    eapply draw_step; [apply random_rule; intbounds|]. intros d' Hd' dd _. done. }
  intros [cw cd] [H1 H2] dd _. unfold payment_in_ok. simpl in *. lia.
Qed.

Lemma ordstat_input_rule (t_num : Z) :
  config_ok t_num →
  triple any (ordstat_input t_num)
    (λ x _, let '(w, d, _, c, _) := x in
       1 ≤ w ≤ num_ware ∧ 1 ≤ d ≤ DIST_PER_WARE ∧ 1 ≤ c ≤ CUST_PER_DIST) starved.
Proof.
  intros Hc. unfold ordstat_input.
  eapply draw_step; [by apply home_ware_rule|]. intros w Hww.
  eapply draw_step; [apply random_rule; intbounds|]. intros d Hd.
  eapply draw_step; [apply nurand_rule; [lia|intbounds..]|]. intros c Hcc.
  eapply draw_step; [apply nurand_rule; [lia|intbounds..]|]. intros n Hn.
  eapply (draw_step _ _ (λ _, True)); [by apply lastname_rule|]. intros last _.
  eapply draw_step; [apply random_rule; intbounds|]. by intros x _ dd _.
Qed.

Lemma delivery_input_rule (t_num : Z) :
  config_ok t_num → triple any (delivery_input t_num) (λ x _, 1 ≤ x.1 ≤ num_ware) starved.
Proof.
  intros Hc. unfold delivery_input.
  eapply draw_step; [by apply home_ware_rule|]. intros w Hww.
  eapply draw_step; [apply random_rule; intbounds|]. by intros x _ dd _.
Qed.

Lemma slev_input_rule (t_num : Z) :
  config_ok t_num →
  triple any (slev_input t_num)
    (λ x _, 1 ≤ x.1.1 ≤ num_ware ∧ 1 ≤ x.1.2 ≤ DIST_PER_WARE) starved.
Proof.
  intros Hc. unfold slev_input.
  eapply draw_step; [by apply home_ware_rule|]. intros w Hww.
  eapply draw_step; [apply random_rule; intbounds|]. intros d Hd.
  eapply draw_step; [apply random_rule; intbounds|]. by intros x _ dd _.
Qed.

(** An amount of 1 to 5000 is printed in few characters. *)
Lemma amount_width (a : Z) : 1 ≤ a ≤ 5000 → (length (fmt_f2 7 (f32_of_Z a)) ≤ 100)%nat.
Proof.
  intros Ha. apply Nat.leb_le.
  apply (seqZ_complete (λ a, (length (fmt_f2 7 (f32_of_Z a)) <=? 100)%nat) 1 5000);
    [by vm_compute|lia].
Qed.
End inputs.

(** ** A turn of the driver *)

Section benchmark.
Context {conn : Type} {Sv : SqlServer} {Api : MySQL conn} {Laws : MySQLLaws conn}.
Context {Tc : TxContext} {Env : DriverEnv} {Rs : RandSource} {St : StackSlots}.
Hypothesis Hware : num_ware ≤ 21473.
Hypothesis Hfuel : (300 < rows_fuel)%nat.

Abbreviation dprog := (prog fault (drv conn)).

(** Between two transactions: a populated database is committed and no
    transaction is open, or there was trouble with the server. *)
Definition at_rest (c : conn) : Prop :=
  (view c = durable c ∧ populated num_ware (durable c)) ∨ trouble c.

(** What is committed is populated, or there was trouble. *)
Definition sound (c : conn) : Prop := populated num_ware (durable c) ∨ trouble c.

(** The exits a turn may take. *)
Definition escaped (e : fault) (c : conn) : Prop := (∃ u, e = Undefined u) ∨ sound c.

Lemma at_rest_sound (c : conn) : at_rest c → sound c.
Proof. intros [[_ H]|H]; [by left|by right]. Qed.

Lemma op_rule (m : prog tx_exit conn Z) :
  keeps trouble m →
  (∀ s, view s = durable s → populated num_ware (durable s) →
     match m s with
     | (Done _, s') => at_rest s'
     | (Leave e, s') => (∃ u, e = TxUndefined u) ∨ sound s'
     end) →
  triple at_rest (at_label m to_fault) (λ _, at_rest) escaped.
Proof.
  intros Ht Hm s [[Hv Hp]|Htr]; unfold at_label.
  - specialize (Hm s Hv Hp). destruct (m s) as [[a|e] s']; [done|].
    destruct Hm as [[u ->]|Hr]; [by left; eauto|]. destruct e; right; exact Hr || done.
  - specialize (Ht s Htr). destruct (m s) as [[a|e] s']; [by right|].
    destruct e; simpl; right; by right.
Qed.

Lemma rested (n : Z) (k : db) (R : db → Prop) inv ret (s : conn) :
  n = num_ware → populated n k → (∀ b, R b → consistent b ∧ extends k b) →
  tx_result k R inv ret s → at_rest s.
Proof.
  intros -> Hp HR [(-> & Hr & Hv)|[(_ & Hd & _ & [Hv|Ht])|(_ & Ht & _)]]; [| |by right..].
  - left. split; [done|]. destruct (HR _ Hr). by eapply populated_extends.
  - left. rewrite Hd. split; [congruence|done].
Qed.

Lemma op_neword_rule (x : neword_in) :
  neword_in_ok x →
  triple at_rest (op_neword (ni_w x) (ni_d x) (ni_c x) (ni_cnt x) (ni_local x)
    (values (ni_item x)) (values (ni_sup x)) (values (ni_qty x)))
    (λ _, at_rest) escaped.
Proof.
  intros Hx. apply op_rule; [apply neword_trouble|]. intros s Hv Hp.
  pose proof (pop_consistent _ _ Hp) as Hk.
  destruct (decide (ni_cnt x ≤ 14)) as [H14|H14].
  - assert (neword_args (durable s) (ni_w x) (ni_d x) (ni_c x) (ni_cnt x)
      (values (ni_item x)) (values (ni_sup x)) (values (ni_qty x))) as Ha.
    { apply neword_in_args; [done| |done|done]. intros w d c Hw Hd Hc.
      destruct (pop_warehouse _ _ Hp w Hw) as (wr & -> & _).
      destruct (pop_district _ _ Hp w d Hw Hd) as (dr & -> & _).
      pose proof (pop_customer _ _ Hp w d c Hw Hd Hc). eauto. }
    destruct (tx_runs _ _ _ _ s
      (neword_body_rule now _ _ _ _ (ni_local x) _ _ _ _ Hk Ha) Hv eq_refl)
      as (ret & s' & E & Hr). unfold neword. rewrite E.
    eapply rested; [done|exact Hp| |exact Hr]. intros b Hb.
    split; [by eapply neword_effect_consistent|].
    destruct Hb as (seq & _ & _ & Hb). eapply new_order_extends; [done| |exact Hb]. lia.
  - destruct Hx as (_ & _ & _ & Hcnt & rbk & Hf1 & Hf2 & _).
    assert (ni_cnt x = 15) as E15 by lia. rewrite E15 in *. clear H14 E15.
    pose proof (fifteen_neword now (ni_w x) (ni_d x) (ni_c x) (ni_local x)
      (values (ni_item x)) (values (ni_sup x)) (values (ni_qty x)) (durable s) s) as H.
    assert (∀ (P : Z → Z → Prop) l, filled 15 P l → (15 ≤ length (values l))%nat) as Hlen.
    { intros P l [Hl _]. unfold values. rewrite length_fmap, Hl. done. }
    specialize (H (Hlen _ _ Hf1) (Hlen _ _ Hf2)). lapply H; [clear H; intros H|].
    2: { intros j Hj. pose proof (filled_values _ _ _ j Hf1 Hj) as H1.
         pose proof (filled_values _ _ _ j Hf2 Hj) as H2. simpl in *. unfold MAXITEMS in *. lia. }
    specialize (H eq_refl). destruct (neword _ _ _ _ _ _ _ _ _ s) as [[ret|e] s'].
    + destruct H as [Hd [Hv'|Ht]]; [|by right]. left. by rewrite Hv', Hd.
    + destruct H as [Hd [-> |[u ->]]]; [|by left; eauto]. right; left. by rewrite Hd.
Qed.

Lemma op_payment_rule (x : payment_in) :
  payment_in_ok x →
  triple at_rest (op_payment (pi_w x) (pi_d x) (pi_byname x) (pi_cw x) (pi_cd x) (pi_c x)
    (pi_last x) (f32_of_Z (pi_amount x))) (λ _, at_rest) escaped.
Proof.
  intros (Hw & Hd & Hcw & Hcd & Hc & Ham). apply op_rule; [apply payment_trouble|].
  intros s Hv Hp. pose proof (pop_consistent _ _ Hp) as Hk.
  assert (payment_args (durable s) (pi_w x) (pi_d x) (pi_cw x) (pi_cd x) (pi_c x) (pi_last x)
    (f32_of_Z (pi_amount x))) as Ha.
  { constructor.
    - by apply (pop_warehouse _ _ Hp).
    - by apply (pop_district _ _ Hp).
    - by apply (pop_customer _ _ Hp).
    - eapply Z.le_lt_trans; [apply customers_named_le; intros c'; apply (pop_ids _ _ Hp)|done].
    - unfold DIST_PER_WARE in *. repeat constructor; lia.
    - intros c' Hc'%(pop_ids _ _ Hp). unfold CUST_PER_DIST in *. lia.
    - by apply amount_width. }
  destruct (tx_runs _ _ _ _ s
    (payment_body_rule now ptr_datetime ptr_c_data _ _ (pi_byname x) _ _ _ _ _ _ Ha) Hv eq_refl)
    as (ret & s' & E & Hr). unfold payment. rewrite E.
  eapply rested; [done|exact Hp| |exact Hr].
  intros b (c' & wr & dr & cr & _ & H1 & H2 & H3 & ->).
  split; [by apply paid_consistent|by apply paid_extends].
Qed.

Lemma op_ordstat_rule (w d c : Z) (byname : bool) (last : cstr) :
  1 ≤ w ≤ num_ware → 1 ≤ d ≤ DIST_PER_WARE → 1 ≤ c ≤ CUST_PER_DIST →
  triple at_rest (op_ordstat w d byname c last) (λ _, at_rest) escaped.
Proof.
  intros Hw Hd Hc. apply op_rule; [apply ordstat_trouble|]. intros s Hv Hp.
  destruct (ordstat_run rows_fuel w d c byname last (durable s) s) as (ret & s' & E & Hds & Hr);
    [|done|done|].
  { constructor.
    - by apply (pop_customer _ _ Hp).
    - by apply (pop_ordered _ _ Hp).
    - eapply Z.le_lt_trans; [apply customers_named_le; intros c'; apply (pop_ids _ _ Hp)|done].
    - intros o. pose proof (lines_of_le (durable s) w d o (populated_short _ _ Hp)). lia. }
  rewrite E. destruct Hr as [[-> Hvs]|[_ Ht]]; [left|by right].
  rewrite Hds. split; [done|done].
Qed.

Lemma op_delivery_rule (w carrier : Z) :
  triple at_rest (op_delivery w carrier) (λ _, at_rest) escaped.
Proof.
  apply op_rule; [apply delivery_trouble|]. intros s Hv Hp.
  pose proof (pop_consistent _ _ Hp) as Hk.
  destruct (delivery_ends now w carrier (durable s) s Hk Hv eq_refl)
    as (ret & s' & E & [(_ & Hd & Hvs)|(_ & Ht & _)]); rewrite E; [left|by right].
  split; [done|]. rewrite Hd. eapply populated_extends; [exact Hp|apply deliver_upto_extends|].
  by apply deliver_upto_consistent.
Qed.

Lemma op_slev_rule (w d level : Z) :
  1 ≤ w ≤ num_ware → 1 ≤ d ≤ DIST_PER_WARE →
  triple at_rest (op_slev w d level) (λ _, at_rest) escaped.
Proof.
  intros Hw Hd. apply op_rule; [apply slev_trouble|]. intros s Hv Hp.
  destruct (slev_run rows_fuel w d level (durable s) s) as (ret & s' & E & Hds & Hr);
    [|done|done|].
  { constructor.
    - destruct (pop_district _ _ Hp w d Hw Hd) as (dr & -> & _). done.
    - intros m. pose proof (recent_items_le (durable s) w d m (populated_short _ _ Hp)). lia. }
  rewrite E. destruct Hr as [[-> Hvs]|[_ Ht]]; [left|by right].
  rewrite Hds. split; [done|done].
Qed.

(** *** Around the transactions *)

(** The rest of the driver does not use the connection. *)
Lemma off_conn {A} (P : conn → Prop) (m : dprog A) :
  (∀ d, dv_conn (m d).2 = dv_conn d) → keeps (λ d, P (dv_conn d)) m.
Proof.
  intros Hm d HP. specialize (Hm d). destruct (m d) as [[a|e] d']; simpl in Hm; by rewrite Hm.
Qed.

Lemma off_support {A} (P : conn → Prop) (m : cprog A) :
  keeps (λ d : drv conn, P (dv_conn d)) (on_support m).
Proof. apply off_conn. intros d. unfold on_support, zoom. by destruct (m _). Qed.
Lemma off_seq {A} (P : conn → Prop) (m : seqprog A) :
  keeps (λ d : drv conn, P (dv_conn d)) (on_seq m).
Proof. apply off_conn. intros d. unfold on_seq, zoom. by destruct (m _). Qed.
Lemma off_hist {A} (P : conn → Prop) (m : histprog A) :
  keeps (λ d : drv conn, P (dv_conn d)) (on_hist m).
Proof. apply off_conn. intros d. unfold on_hist, zoom. by destruct (m _). Qed.
Lemma off_count {A} (P : conn → Prop) (m : prog fault counters A) :
  keeps (λ d : drv conn, P (dv_conn d)) (on_count m).
Proof. apply off_conn. intros d. unfold on_count, zoom. by destruct (m _). Qed.
Lemma off_sample {A} (P : conn → Prop) (f : Z → A) :
  keeps (λ d : drv conn, P (dv_conn d)) (sample f).
Proof. by apply off_conn. Qed.
#[local] Hint Resolve off_support off_seq off_hist off_count off_sample : keepdb.

Definition resting (d : drv conn) : Prop := at_rest (dv_conn d).
Definition driver_exit (e : fault) (d : drv conn) : Prop := escaped e (dv_conn d).

Lemma resting_exit e d : resting d → driver_exit e d.
Proof. intros H. right. by apply at_rest_sound. Qed.

Lemma rest_step {A B} (m : dprog A) (k : A → dprog B) :
  keeps resting m → (∀ a, triple resting (k a) (λ _, resting) driver_exit) →
  triple resting (m ≫= k) (λ _, resting) driver_exit.
Proof. intros Hm Hk. apply triple_keep; [done|exact resting_exit|done]. Qed.

Lemma rest_ret {A} (a : A) : triple resting (mret a : dprog A) (λ _, resting) driver_exit.
Proof. by intros d Hd. Qed.

Lemma on_conn_rule {A} (call : prog fault conn A) :
  triple at_rest call (λ _, at_rest) escaped →
  triple resting (on_conn call) (λ _, resting) driver_exit.
Proof.
  intros Hc d Hd. unfold on_conn, zoom. specialize (Hc (dv_conn d) Hd).
  by destruct (call (dv_conn d)) as [[a|e] c].
Qed.

Lemma record_success_rest ty rtime t_num t1 t2 :
  keeps resting (record_success (conn:=conn) ty rtime t_num t1 t2).
Proof. unfold record_success, resting. solve_keeps. Qed.

Lemma attempt_rule ty rtime t_num (call : prog fault conn Z) :
  triple at_rest call (λ _, at_rest) escaped →
  triple resting (attempt ty rtime t_num call) (λ _, resting) driver_exit.
Proof.
  intros Hc. unfold attempt. apply rest_step; [unfold resting; solve_keeps|]. intros t1.
  generalize (Z.to_nat MAX_RETRY). intros n. induction n as [|n IH]; simpl.
  - apply rest_step; [unfold resting; solve_keeps|]. intros on.
    apply rest_step; [unfold resting; solve_keeps|]. intros ?. apply rest_ret.
  - eapply triple_bind; [by apply on_conn_rule|]. intros ret.
    apply rest_step; [unfold resting; solve_keeps|]. intros t2. destruct (negb (ret =? 0)).
    + apply rest_step; [apply record_success_rest|]. intros ?. apply rest_ret.
    + apply rest_step; [unfold resting; solve_keeps|]. intros on.
      apply rest_step; [unfold resting; solve_keeps|]. intros ?. exact IH.
Qed.

(** An input and the transaction that uses it. *)
Lemma with_input {A} (input : dprog A) (ok : A → Prop) (run : A → dprog Z) :
  triple (λ _, True) input (λ x _, ok x) (λ e _, e = OutOfFuel) → keeps resting input →
  (∀ x, ok x → triple resting (run x) (λ _, resting) driver_exit) →
  triple resting (x ← input; run x) (λ _, resting) driver_exit.
Proof.
  intros Hi Hk Hr. eapply (triple_bind _ _ (λ x d, ok x ∧ resting d)).
  - eapply triple_conseq; [|exact (triple_conj _ _ _ _ _ _ _ Hi Hk)|done|].
    + intros d Hd. by split.
    + intros e d [_ Hd]. by apply resting_exit.
  - intros x. apply triple_pure. apply Hr.
Qed.

Lemma home_ware_rest t_num : keeps resting (home_ware (conn:=conn) t_num).
Proof. unfold home_ware, resting. solve_keeps. Qed.
Lemma other_ware_rest fuel home : keeps resting (other_ware (conn:=conn) fuel home).
Proof.
  unfold other_ware, resting. case_match; [apply keeps_ret|].
  induction fuel as [|fuel IH]; simpl; solve_keeps.
Qed.
#[local] Hint Resolve home_ware_rest other_ware_rest : keepdb.
Lemma draw_rest {A} (m : cprog A) : keeps resting (on_support (conn:=conn) m).
Proof. apply off_support. Qed.
#[local] Hint Resolve draw_rest : keepdb.

Lemma driver_turn_rule (fuel t_num : nat) :
  config_ok (Z.of_nat t_num) →
  triple resting (driver_turn fuel t_num) (λ _, resting) driver_exit.
Proof.
  intros Hc. unfold driver_turn.
  apply rest_step; [unfold resting; solve_keeps|]. intros t.
  eapply (triple_bind _ _ (λ _, resting)); [|intros ?; apply rest_ret].
  destruct (t =? 0); [|destruct (t =? 1); [|destruct (t =? 2); [|destruct (t =? 3);
    [|destruct (t =? 4); [|apply rest_ret]]]]].
  - eapply with_input; [by apply neword_input_rule| |].
    + unfold neword_input, neword_line_in. solve_keeps.
    + intros x Hx. by apply attempt_rule, op_neword_rule.
  - eapply with_input; [by apply payment_input_rule| |].
    + unfold payment_input. solve_keeps.
    + intros x Hx. by apply attempt_rule, op_payment_rule.
  - eapply with_input; [by apply ordstat_input_rule| |].
    + unfold ordstat_input. solve_keeps.
    + intros [[[[w d] byname] c] last] (? & ? & ?). by apply attempt_rule, op_ordstat_rule.
  - eapply with_input; [by apply delivery_input_rule| |].
    + unfold delivery_input. solve_keeps.
    + intros [w o] _. apply attempt_rule, op_delivery_rule.
  - eapply with_input; [by apply slev_input_rule| |].
    + unfold slev_input. solve_keeps.
    + intros [[w d] level] [? ?]. by apply attempt_rule, op_slev_rule.
Qed.

Lemma driver_rule (turns fuel t_num : nat) :
  config_ok (Z.of_nat t_num) →
  triple resting (driver turns fuel t_num) (λ _, resting) driver_exit.
Proof.
  intros Hc. induction turns as [|turns IH]; simpl.
  { intros d Hd. by apply resting_exit. }
  apply rest_step; [unfold resting; solve_keeps|]. intros [|]; [|apply rest_ret].
  eapply triple_bind; [by apply driver_turn_rule|]. intros ?. exact IH.
Qed.
End benchmark.


(** ** A populated database *)

(** The map with value [g k] at the keys of a list. *)
Definition map_of {K R} `{Countable K} (g : K → R) (l : list K) : gmap K R :=
  list_to_map ((λ k, (k, g k)) <$> l).

Lemma map_of_Some {K R} `{Countable K} (g : K → R) (l : list K) (k : K) (r : R) :
  map_of g l !! k = Some r ↔ k ∈ l ∧ r = g k.
Proof.
  unfold map_of. induction l as [|x l IH]; csimpl.
  { rewrite lookup_empty, elem_of_nil. split; [done|by intros [[] _]]. }
  rewrite lookup_insert_Some, IH, elem_of_cons. destruct (decide (x = k)) as [->|Hne].
  - split; [intros [[_ <-]|[? _]]; [by auto|done]|intros [_ ->]; auto].
  - split; [intros [[? _]|[_ [? ->]]]; [done|by auto]|]. intros [[<-|?] ->]; [done|auto].
Qed.

Lemma map_of_is_Some {K R} `{Countable K} (g : K → R) (l : list K) (k : K) :
  is_Some (map_of g l !! k) ↔ k ∈ l.
Proof.
  split; [by intros [r [Hr _]%map_of_Some]|]. intros Hk. exists (g k). by apply map_of_Some.
Qed.

(** One warehouse, [n] districts of [m] customers with one order of one line
    each. *)
Definition town_keys (n m : Z) : list (Z * Z * Z) :=
  (λ x, (1, x.1, x.2)) <$> list_prod (seqZ 1 n) (seqZ 1 m).

Definition town (n m : Z) : db := Db
  {[1 := WarehouseRow (lit "ware") (lit "s1") (lit "s2") (lit "city") (lit "ST")
           (lit "123456789") 10 300000000]}
  (map_of (λ _, DistrictRow (lit "dist") (lit "s1") (lit "s2") (lit "city") (lit "ST")
           (lit "123456789") 5 3000000 (m + 1)) (pair 1 <$> seqZ 1 n))
  (map_of (λ _, sample_customer "zoe") (town_keys n m))
  [] ∅
  (map_of (λ key, OrderRow key.2 (lit "2014-01-01") (Some 1) 1 1) (town_keys n m))
  (map_of (λ _, OrderLineRow 1 1 (Some (lit "2014-01-01")) 5 100 (lit "info"))
     ((λ key, (key, 1)) <$> town_keys n m))
  {[1 := ItemRow 7 (lit "first item") 1000 (lit "original")]}
  {[(1, 1) := sample_stock 50]}.

Lemma elem_of_town (n m w d c : Z) :
  (w, d, c) ∈ town_keys n m ↔ w = 1 ∧ 1 ≤ d ≤ n ∧ 1 ≤ c ≤ m.
Proof.
  unfold town_keys. rewrite list_elem_of_fmap. split.
  - intros ([d' c'] & [= -> -> ->] & Hin%list_elem_of_In%in_prod_iff).
    destruct Hin as [H1%list_elem_of_In%elem_of_seqZ H2%list_elem_of_In%elem_of_seqZ].
    simpl. lia.
  - intros (-> & Hd & Hc). exists (d, c). split; [done|]. apply elem_of_prod_range; lia.
Qed.

Lemma town_consistent (n m : Z) : 0 ≤ n ≤ 10 → 0 ≤ m → consistent (town n m).
Proof.
  intros Hn Hm.
  assert (∀ w d dr, district (town n m) !! (w, d) = Some dr ↔
    w = 1 ∧ 1 ≤ d ≤ n ∧ dr = DistrictRow (lit "dist") (lit "s1") (lit "s2") (lit "city")
      (lit "ST") (lit "123456789") 5 3000000 (m + 1)) as Hdist.
  { intros w d dr. simpl. rewrite map_of_Some, list_elem_of_fmap. split.
    - intros [(d' & [= -> ->] & Hd%elem_of_seqZ) ->]. split_and!; done || lia.
    - intros (-> & Hd & ->). split; [|done]. exists d. split; [done|]. apply elem_of_seqZ. lia. }
  constructor; simpl.
  - intros w d o. rewrite map_of_is_Some, elem_of_town. split.
    + intros (-> & Hd & Ho). eexists. split; [by apply Hdist|]. simpl. lia.
    + intros (dr & (-> & Hd & ->)%Hdist & Ho). simpl in Ho. split_and!; done || lia.
  - intros w d o. split; [done|]. by intros (r & [_ ->]%map_of_Some & [=]).
  - done.
  - intros w d o k. rewrite map_of_is_Some, list_elem_of_fmap. split.
    + intros ([[w' d'] o'] & [= -> -> -> ->] & Hin). eexists.
      split; [by apply map_of_Some|]. simpl. lia.
    + intros (r & [Hin ->]%map_of_Some & Hk). simpl in Hk. assert (k = 1) as -> by lia. eauto.
  - intros w d o k l r [_ ->]%map_of_Some [_ ->]%map_of_Some. done.
  - intros w d o r [Hin ->]%map_of_Some. rewrite map_of_is_Some. simpl. split; [|lia].
    apply elem_of_town in Hin. apply elem_of_town. lia.
  - intros w d dr (-> & Hd & ->)%Hdist. simpl. split_and!; [lia|lia|lia|done].
  - intros w i [? [<- _]%lookup_singleton_Some] [? [<- _]%lookup_singleton_Some]. done.
  - intros w i s [_ <-]%lookup_singleton_Some. simpl. lia.
Qed.

Lemma town_populated (n m : Z) :
  n = DIST_PER_WARE → m = CUST_PER_DIST → populated 1 (town n m).
Proof.
  intros Hn Hm. constructor.
  - apply town_consistent; subst; done.
  - intros w Hw. assert (w = 1) as -> by lia. eexists. split; [done|]. by apply (bool_decide_unpack _).
  - intros w d Hw Hd. assert (w = 1) as -> by lia. simpl. eexists. rewrite map_of_Some. split.
    + split; [|done]. apply list_elem_of_fmap. exists d. split; [done|]. apply elem_of_seqZ. lia.
    + by apply (bool_decide_unpack _).
  - intros w d c Hw Hd Hc. simpl. apply map_of_is_Some, elem_of_town. lia.
  - intros w d c. simpl. rewrite map_of_is_Some, elem_of_town. lia.
  - intros w d c Hw Hd Hc. exists c. simpl. eexists. rewrite map_of_Some, elem_of_town.
    split; [split; [lia|reflexivity]|done].
  - intros w d o r. simpl. intros [_ ->]%map_of_Some. simpl. lia.
Qed.

Definition loaded_town : db := town DIST_PER_WARE CUST_PER_DIST.

Lemma loaded_town_populated : populated 1 loaded_town.
Proof. by apply town_populated. Qed.

#[global] Strategy 1000 [loaded_town].

Definition run_context : TxContext :=
  {| now := lit "2014-02-02"; ptr_datetime := "x"%char; ptr_c_data := "y"%char;
     rows_fuel := 301 |}.

