(* ===== verification/TpccArgs.v ===== *)
(** * tpcc-mysql: command lines

    The options of tpcc_start (main.c), the arguments of tpcc_load (load.c) and
    the server phrase host:port (parse_port.h).  The values [getopt] returns are
    the list of its results; the C library's [atoi] and [strtol] are written
    out. *)

From Stdlib Require Import ZArith Lia Ascii String.
From stdpp Require Import base list strings numbers pretty.
From S2P Require Import Prelude CFloat TpccSql TpccTx.

(** ** strtol and atoi *)

Definition LONG_MIN : Z := -9223372036854775808.
Definition LONG_MAX : Z := 9223372036854775807.

Definition is_space (c : ascii) : bool :=
  bool_decide (c = " "%char) || ((9 <=? Z.of_nat (nat_of_ascii c)) && (Z.of_nat (nat_of_ascii c) <=? 13)).

Definition digit_of (c : ascii) : option Z :=
  let n := Z.of_nat (nat_of_ascii c) in
  if (48 <=? n) && (n <=? 57) then Some (n - 48) else None.

Fixpoint skip_spaces (s : cstr) : cstr :=
  match s with
  | c :: l => if is_space c then skip_spaces l else s
  | [] => []
  end.

Definition sign_of (s : cstr) : bool * cstr :=
  match s with
  | c :: l => if bool_decide (c = "-"%char) then (true, l)
              else if bool_decide (c = "+"%char) then (false, l) else (false, s)
  | [] => (false, s)
  end.

(** The longest prefix of digits and what follows it. *)
Fixpoint read_digits (acc : Z) (s : cstr) : Z * cstr :=
  match s with
  | c :: l => match digit_of c with
              | Some d => read_digits (acc * 10 + d) l
              | None => (acc, s)
              end
  | [] => (acc, [])
  end.

(** [strtol(s, &end, 10)]: the value, limited to [long], and [end]. *)
Definition strtol (s : cstr) : Z * cstr :=
  let '(neg, t) := sign_of (skip_spaces s) in
  match t with
  | c :: _ =>
      if bool_decide (is_Some (digit_of c))
      then let '(v, rest) := read_digits 0 t in
           (Z.max LONG_MIN (Z.min LONG_MAX (if neg : bool then - v else v)), rest)
      else (0, s)
  | [] => (0, s)
  end.

(** [atoi(s)]: undefined when the value is not an [int]. *)
Definition atoi {F S} `{HasUB F} (s : cstr) : prog F S Z :=
  if is_int (strtol s).1 then mret (strtol s).1 else leave (undefined BadConversion).

(** ** parse_port.h *)

(** [rindex(s, c) - s] *)
Fixpoint rindex (s : cstr) (c : ascii) : option nat :=
  match s with
  | [] => None
  | x :: l => match rindex l c with
              | Some n => Some (S n)
              | None => if bool_decide (x = c) then Some 0%nat else None
              end
  end.

Definition parse_host {F S} `{HasUB F} (host : list (option ascii)) (from : cstr)
  : prog F S (list (option ascii)) :=
  let length := match rindex from ":" with None => length from | Some port => port end in
  write_bytes host 0 (take length from ++ [zero]).

Definition parse_port {S} (from : cstr) : prog fault S Z :=
  match rindex from ":" with
  | None => mret 3306
  | Some port =>
      let '(v, end_) := strtol (drop (port + 1) from) in
      let result := s32 v in
      if bool_decide (end_ = []) && (0 <=? result) && (result <=? 65535)
      then mret result
      else leave (Undefined BadArgument)
  end.

(** ** The options of tpcc_start *)

Definition DB_STRING_MAX : Z := 128.

(** A character array of the size of the strings. *)
Definition name_buffer (s : cstr) : list (option ascii) :=
  Some <$> strncpy_bytes (Z.to_nat DB_STRING_MAX) s.

Record options : Type := Options {
  connect_string : list (option ascii);
  db_string : list (option ascii);
  db_user : list (option ascii);
  db_password : list (option ascii);
  report_file : list (option ascii);
  trx_file : list (option ascii);
  opt_ware : Z;
  opt_conn : Z;
  lampup_time : Z;
  measure_time : Z;
  print_interval : Z;
  port : Z;
}.

(** The initial values: static storage is zero, and [main] sets the others. *)
Definition options_init : options :=
  Options (name_buffer []) (name_buffer (lit "tpcc")) (name_buffer []) (name_buffer [])
    (name_buffer []) (name_buffer []) 1 10 10 20 10 3306.

(** One turn of the loop on [getopt]: the option character and [optarg]. *)
Definition parse_option (c : ascii) (optarg : cstr) : prog fault options unit :=
  o ← getS;
  let '(Options h d u p f t w n r l i po) := o in
  let str := name_buffer optarg in
  if bool_decide (c = "h"%char) then putS (Options str d u p f t w n r l i po)
  else if bool_decide (c = "d"%char) then putS (Options h str u p f t w n r l i po)
  else if bool_decide (c = "u"%char) then putS (Options h d str p f t w n r l i po)
  else if bool_decide (c = "p"%char) then putS (Options h d u str f t w n r l i po)
  else if bool_decide (c = "f"%char) then putS (Options h d u p str t w n r l i po)
  else if bool_decide (c = "t"%char) then putS (Options h d u p f str w n r l i po)
  else if bool_decide (c = "w"%char) then
    v ← atoi optarg; putS (Options h d u p f t v n r l i po)
  else if bool_decide (c = "c"%char) then
    v ← atoi optarg; putS (Options h d u p f t w v r l i po)
  else if bool_decide (c = "r"%char) then
    v ← atoi optarg; putS (Options h d u p f t w n v l i po)
  else if bool_decide (c = "l"%char) then
    v ← atoi optarg; putS (Options h d u p f t w n r v i po)
  else if bool_decide (c = "i"%char) then
    v ← atoi optarg; putS (Options h d u p f t w n r l v po)
  else if bool_decide (c = "P"%char) then
    v ← atoi optarg; putS (Options h d u p f t w n r l i v)
  else if bool_decide (c = "?"%char) then leave (ExitCode 0)
  else mret tt.

Fixpoint parse_options (args : list (ascii * cstr)) : prog fault options unit :=
  match args with
  | [] => mret tt
  | (c, optarg) :: args => parse_option c optarg;; parse_options args
  end.

(** [strcmp(db_string, "l") == 0] *)
Definition is_local : prog fault options bool :=
  o ← getS;
  s ← read_cstring (db_string o);
  mret (bool_decide (s = lit "l")).

(** ** The arguments of tpcc_load *)

Record load_args : Type := LoadArgs {
  la_host : list (option ascii);
  la_port : Z;
  la_db : cstr;
  la_user : cstr;
  la_password : cstr;
  la_local : bool;
  la_count_ware : Z;
  la_particle : option Z;
  la_min_ware : Z;
  la_max_ware : Z;
}.

Definition fits (s : cstr) : bool := Z.of_nat (length s) <? DB_STRING_MAX.

(** [argv] without the name of the program. *)
Definition load_arguments {S} (argv : list cstr) : prog fault S load_args :=
  if negb (bool_decide (length argv = 8%nat)) && negb (bool_decide (length argv = 5%nat))
  then leave (ExitCode 1)
  else
    server ← arr_get argv 0;
    db ← arr_get argv 1;
    user ← arr_get argv 2;
    pass ← arr_get argv 3;
    wares ← arr_get argv 4;
    if negb (fits server) then leave (ExitCode 1)
    else if negb (fits db) then leave (ExitCode 1)
    else if negb (fits user) then leave (ExitCode 1)
    else if negb (fits pass) then leave (ExitCode 1)
    else
      count_ware ← atoi wares;
      if count_ware <=? 0 then leave (ExitCode 1)
      else
        host ← parse_host (replicate (Z.to_nat DB_STRING_MAX) None) server;
        port ← parse_port server;
        name ← read_cstring host;
        let local := bool_decide (name = lit "l") in
        if bool_decide (length argv = 8%nat) then
          part ← arr_get argv 5;
          part_no ← atoi part;
          lo ← arr_get argv 6;
          min_ware ← atoi lo;
          hi ← arr_get argv 7;
          max_ware ← atoi hi;
          mret (LoadArgs host port db user pass local count_ware (Some part_no)
                  min_ware max_ware)
        else
          mret (LoadArgs host port db user pass local count_ware None 1 count_ware).

(** ** Server phrases *)

Lemma rindex_app (h t : cstr) (c : ascii) :
  c ∉ t → rindex (h ++ c :: t) c = Some (length h).
Proof.
  intros Ht. assert (rindex t c = None) as Hn.
  { induction t as [|x t IH]; [done|]. rewrite not_elem_of_cons in Ht. destruct Ht as [Hx Ht].
    simpl. rewrite IH by done. by rewrite bool_decide_false by congruence. }
  induction h as [|x h IH]; simpl; [|by rewrite IH]. rewrite Hn. by rewrite bool_decide_true.
Qed.

(** Decimal numerals are read back. *)
Lemma digit_of_char (x : N) :
  (x < 10)%N → digit_of (pretty_N_char x) = Some (Z.of_N x) ∧ pretty_N_char x ≠ ":"%char.
Proof.
  intros Hx. assert (Forall (λ n, digit_of (pretty_N_char (N.of_nat n)) = Some (Z.of_nat n) ∧
    pretty_N_char (N.of_nat n) ≠ ":"%char) (seq 0 10)) as H by (by repeat constructor).
  rewrite Forall_seq in H. specialize (H (N.to_nat x) ltac:(lia)).
  by rewrite N2Nat.id, N_nat_Z in H.
Qed.

Lemma read_pretty_go (x : N) (s : string) :
  (0 < x)%N →
  read_digits 0 (lit (pretty_N_go x s)) = read_digits (Z.of_N x) (lit s) ∧
  (":"%char ∈ lit (pretty_N_go x s) → ":"%char ∈ lit s) ∧
  ∃ c r, lit (pretty_N_go x s) = c :: r ∧ is_Some (digit_of c).
Proof.
  revert s. induction (N.lt_wf_0 x) as [x _ IH]. intros s Hx. rewrite pretty_N_go_step by done.
  pose proof (N.mod_lt x 10 ltac:(done)) as Hm.
  destruct (digit_of_char (x `mod` 10) Hm) as [Hd Hc].
  pose proof (N.div_mod x 10 ltac:(done)) as Hdm.
  assert (read_digits (Z.of_N (x `div` 10)) (lit (String (pretty_N_char (x `mod` 10)) s)) =
    read_digits (Z.of_N x) (lit s)) as Hr.
  { simpl. rewrite Hd. f_equal. lia. }
  destruct (decide (0 < x `div` 10)%N) as [Hlt|Hge].
  - destruct (IH (x `div` 10)%N ltac:(apply N.div_lt; lia) (String (pretty_N_char (x `mod` 10)) s) Hlt)
      as (E & Hin & Hf).
    rewrite E. split; [exact Hr|]. split; [|done]. intros [?|?]%Hin%elem_of_cons; [congruence|done].
  - assert (x `div` 10 = 0)%N as E0 by lia. rewrite E0 in *. rewrite pretty_N_go_0. split; [exact Hr|].
    split; [intros [?|?]%elem_of_cons; [congruence|done]|]. eexists _, _. split; [done|eauto].
Qed.

Lemma strtol_pretty (p : Z) :
  0 ≤ p ≤ LONG_MAX → strtol (lit (pretty p)) = (p, []) ∧ ":"%char ∉ lit (pretty p).
Proof.
  intros Hp. destruct (decide (p = 0)) as [->|Hne]; [split; [done|by apply (bool_decide_unpack _)]|].
  destruct p as [|p|p]; [done| |lia].
  change (pretty (Zpos p)) with (pretty_N_go (Npos p) "").
  destruct (read_pretty_go (Npos p) "" ltac:(lia)) as (E & Hin & c & r & Hcr & [d Hd]).
  split; [|intros H%Hin; by apply not_elem_of_nil in H]. revert E. rewrite Hcr. intros E.
  unfold digit_of in Hd. destruct ((48 <=? Z.of_nat (nat_of_ascii c)) &&
    (Z.of_nat (nat_of_ascii c) <=? 57)) eqn:Er; [|done].
  apply andb_true_iff in Er as [E1%Z.leb_le E2%Z.leb_le].
  assert (∀ c', Z.of_nat (nat_of_ascii c') < 48 → c ≠ c') as Hc by (intros c' Hc' ->; lia).
  unfold strtol. simpl. unfold is_space. rewrite bool_decide_false by (by apply Hc).
  rewrite (proj2 (Z.leb_gt _ 13)), andb_false_r by lia. simpl.
  rewrite !bool_decide_false by (by apply Hc).
  rewrite bool_decide_true by (unfold digit_of; rewrite (proj2 (Z.leb_le 48 _)),
    (proj2 (Z.leb_le _ 57)) by lia; eauto).
  rewrite E. simpl. f_equal. unfold LONG_MIN, LONG_MAX in *. lia.
Qed.

(** A server phrase printed as host, colon and decimal port is parsed back:
    [parse_host] leaves the host in the buffer and [parse_port] returns the port.
    The host may itself contain colons. *)
Theorem host_port_roundtrip {S} (host : cstr) (p : Z) (buf : list (option ascii)) (s : S) :
  0 ≤ p ≤ 65535 → zero ∉ host → (length host < length buf)%nat →
  let phrase := host ++ ":"%char :: lit (pretty p) in
  parse_port phrase s = (Done p, s) ∧
  ∃ buf', parse_host (F:=fault) buf phrase s = (Done buf', s) ∧
    read_cstring (F:=fault) buf' s = (Done host, s).
Proof.
  intros Hp Hz Hl phrase.
  destruct (strtol_pretty p) as [Hs Hc]; [unfold LONG_MAX; lia|].
  unfold parse_port, parse_host, phrase. rewrite (rindex_app host _ _ Hc). split.
  - rewrite cons_middle, app_assoc, drop_app_length' by (rewrite length_app; simpl; lia).
    rewrite Hs, s32_id by (unfold INT_MIN, INT_MAX; lia).
    rewrite (proj2 (Z.leb_le 0 p)), (proj2 (Z.leb_le p 65535)) by lia. done.
  - rewrite take_app_length.
    pose proof (write_bytes_app (F:=fault) (host ++ [zero]) [] (take (length (host ++ [zero])) buf)
      (drop (length (host ++ [zero])) buf) s) as Hw.
    rewrite length_app in *. simpl in Hw. rewrite take_drop in Hw.
    eexists. split; [apply Hw; rewrite length_take; simpl; lia|].
    rewrite fmap_app. simpl. rewrite <- app_assoc. by apply read_cstring_app.
Qed.

(** ** The options *)

(** The argument of the last occurrence of an option. *)
Definition given (c : ascii) (args : list (ascii * cstr)) : option cstr :=
  last ((filter (λ x, x.1 = c) args).*2).

Definition number (s : cstr) : Z := (strtol s).1.

(** What [getopt] returned is one of the options, and numbers are in range. *)
Definition option_ok (x : ascii * cstr) : Prop :=
  x.1 ≠ "?"%char ∧ (x.1 ∈ lit "wcrliP" → is_int (number x.2) = true).

(** Every field is given by the last occurrence of its option. *)
Definition chosen (args : list (ascii * cstr)) (o : options) : options :=
  let str c old := default old (name_buffer <$> given c args) in
  let num c old := default old (number <$> given c args) in
  Options (str "h"%char (connect_string o)) (str "d"%char (db_string o))
    (str "u"%char (db_user o)) (str "p"%char (db_password o)) (str "f"%char (report_file o))
    (str "t"%char (trx_file o)) (num "w"%char (opt_ware o)) (num "c"%char (opt_conn o))
    (num "r"%char (lampup_time o)) (num "l"%char (measure_time o))
    (num "i"%char (print_interval o)) (num "P"%char (port o)).

Lemma default_given_cons {A} (f : cstr → A) (old : A) (c c' : ascii) (a : cstr) args :
  default old (f <$> given c ((c', a) :: args)) =
  default (if bool_decide (c' = c) then f a else old) (f <$> given c args).
Proof.
  unfold given. rewrite filter_cons. simpl. case_bool_decide as E.
  - rewrite decide_True by done. csimpl. rewrite last_cons. by destruct (last _).
  - by rewrite decide_False.
Qed.

(** Comparisons of characters. *)
Ltac decide_chars :=
  repeat match goal with
  | |- context [bool_decide (?x = ?y :> ascii)] =>
      first [ let b := eval vm_compute in (bool_decide (x = y :> ascii)) in
              lazymatch b with true => idtac | false => idtac end;
              change (bool_decide (x = y :> ascii)) with b
            | rewrite (bool_decide_false (x = y :> ascii)) by congruence ]
  end.

Lemma atoi_run {S} (a : cstr) (s : S) :
  is_int (number a) = true → atoi (F:=fault) a s = (Done (number a), s).
Proof. intros H. unfold atoi. fold (number a). by rewrite H. Qed.

Lemma parse_option_run (c : ascii) (a : cstr) (o : options) :
  option_ok (c, a) → parse_option c a o = (Done tt, chosen [(c, a)] o).
Proof.
  intros [Hq Hn]. simpl in *. unfold parse_option, chosen. rewrite !default_given_cons.
  erewrite bind_done by reflexivity. destruct o as [h d u p f t w n r l i po]. simpl.
  repeat (case_bool_decide; [subst c; decide_chars; try done;
    rewrite (bind_done _ _ _ _ _ (atoi_run a _ ltac:(apply Hn; by apply (bool_decide_unpack _)))); done|]).
  decide_chars. done.
Qed.

Lemma chosen_cons (x : ascii * cstr) args (o : options) :
  chosen args (chosen [x] o) = chosen (x :: args) o.
Proof.
  destruct x as [c a]. unfold chosen. simpl. by rewrite !default_given_cons.
Qed.

Lemma parse_options_run (args : list (ascii * cstr)) (o : options) :
  Forall option_ok args → parse_options args o = (Done tt, chosen args o).
Proof.
  intros Hok. revert o. induction Hok as [|[c a] args Hc _ IH]; intros o; simpl.
  - by destruct o.
  - rewrite (bind_done _ _ _ _ _ (parse_option_run c a o Hc)), IH. by rewrite chosen_cons.
Qed.

Lemma read_name_buffer {F S} `{HasUB F} (a : cstr) (s : S) :
  zero ∉ a →
  read_cstring (F:=F) (name_buffer a) s =
    (if decide (Z.of_nat (length a) < DB_STRING_MAX) then Done a
     else Leave (undefined OutOfBounds), s).
Proof.
  intros Hz. unfold name_buffer, strncpy_bytes. unfold DB_STRING_MAX in *. case_decide as Hl.
  - rewrite take_ge by lia. destruct (Z.to_nat 128 - length a)%nat as [|k] eqn:E; [lia|].
    simpl. rewrite fmap_app. simpl. by apply read_cstring_app.
  - rewrite length_take, Nat.min_l, Nat.sub_diag by lia. simpl. rewrite app_nil_r.
    assert (zero ∉ take (Z.to_nat 128) a) as Hz'.
    { intros Hin. apply Hz. by eapply elem_of_take in Hin as (i & Hi & _); apply list_elem_of_lookup_2 in Hi. }
    revert Hz'. generalize (take (Z.to_nat 128) a). clear. intros b.
    induction b as [|x b IH]; intros Hz; simpl; [done|]. rewrite not_elem_of_cons in Hz.
    destruct Hz as [Hx Hz]. rewrite bool_decide_false by congruence.
    by rewrite (bind_leave _ _ _ _ _ (IH Hz)).
Qed.

Lemma given_elem (c : ascii) (a : cstr) args : given c args = Some a → (c, a) ∈ args.
Proof.
  unfold given. intros Hl%last_Some_elem_of. apply list_elem_of_fmap in Hl as ([c' a'] & -> & Hin).
  apply list_elem_of_filter in Hin as [Hc Hin]. simpl in *. by subst.
Qed.

(** The options of tpcc_start: every parameter ends with the value of the last
    occurrence of its option, or with its default.  The database name is read
    back as it was given when it is shorter than [DB_STRING_MAX]; [strncpy] leaves
    a longer one without a terminator, and the comparison that follows reads past
    the array. *)
Theorem options_last_given (args : list (ascii * cstr)) :
  Forall option_ok args → Forall (λ x, zero ∉ x.2) args →
  let o := chosen args options_init in
  let name := default (lit "tpcc") (given "d" args) in
  parse_options args options_init = (Done tt, o) ∧
  is_local o = (if decide (Z.of_nat (length name) < DB_STRING_MAX)
                then Done (bool_decide (name = lit "l"))
                else Leave (Undefined OutOfBounds), o).
Proof.
  intros Hok Hz o name. split; [by apply parse_options_run|].
  assert (zero ∉ name) as Hn.
  { unfold name. destruct (given "d" args) as [a|] eqn:E; [|by apply (bool_decide_unpack _)].
    apply given_elem in E. rewrite Forall_forall in Hz. exact (Hz _ E). }
  assert (db_string o = name_buffer name) as Hd.
  { unfold o, name. simpl. by destruct (given "d" args). }
  unfold is_local. erewrite bind_done by reflexivity. rewrite Hd.
  pose proof (read_name_buffer (F:=fault) name o Hn) as E. case_decide.
  - by rewrite (bind_done _ _ _ _ _ E).
  - by rewrite (bind_leave _ _ _ _ _ E).
Qed.

(** ** The arguments of the loader *)

(** A number that [atoi] accepts, and a phrase whose port is one. *)
Definition bad_number (argv : list cstr) : Prop :=
  ∃ i a, argv !! i = Some a ∧ (4 ≤ i)%nat ∧ is_int (number a) = false.
Definition bad_port (server : cstr) : Prop :=
  ∃ p, rindex server ":" = Some p ∧
    ((strtol (drop (p + 1) server)).2 ≠ [] ∨
     ¬ 0 ≤ s32 (strtol (drop (p + 1) server)).1 ≤ 65535).

Lemma parse_port_run {S} (server : cstr) (s : S) :
  (∃ p, parse_port server s = (Done p, s) ∧ 0 ≤ p ≤ 65535) ∨
  (parse_port server s = (Leave (Undefined BadArgument), s) ∧ bad_port server).
Proof.
  unfold parse_port, bad_port. destruct (rindex server ":") as [p|]; [|left; exists 3306; done || lia].
  destruct (strtol (drop (p + 1) server)) as [v r] eqn:E.
  destruct (bool_decide (r = []) && (0 <=? s32 v) && (s32 v <=? 65535)) eqn:Eb.
  - left. exists (s32 v). apply andb_true_iff in Eb as [[_ H1%Z.leb_le]%andb_true_iff H2%Z.leb_le].
    done.
  - right. split; [done|]. exists p. split; [done|]. rewrite E. simpl.
    apply andb_false_iff in Eb as [[H%bool_decide_eq_false|H%Z.leb_gt]%andb_false_iff|H%Z.leb_gt];
      [by left|right; lia|right; lia].
Qed.

Lemma parse_host_run {S} (server : cstr) (s : S) :
  fits server = true → zero ∉ server →
  ∃ buf name, parse_host (F:=fault) (replicate (Z.to_nat DB_STRING_MAX) None) server s =
      (Done buf, s) ∧ read_cstring (F:=fault) buf s = (Done name, s).
Proof.
  intros Hf%Z.ltb_lt Hz. unfold DB_STRING_MAX in *. unfold parse_host.
  set (n := match rindex server ":" with Some p => p | None => length server end).
  set (name := take n server).
  assert (length name < 128)%nat as Hl by (unfold name; rewrite length_take; lia).
  assert (zero ∉ name) as Hzn.
  { intros (i & Hi & _)%elem_of_take. apply list_elem_of_lookup_2 in Hi. done. }
  pose proof (write_bytes_app (F:=fault) (name ++ [zero]) [] (replicate (length (name ++ [zero])) None)
    (replicate (128 - length (name ++ [zero])) None) s) as Hw.
  rewrite length_replicate, length_app in Hw. simpl in Hw.
  rewrite <- replicate_add in Hw.
  replace (length name + 1 + (128 - (length name + 1)))%nat with 128%nat in Hw by lia.
  eexists _, name. split; [by apply Hw|].
  rewrite fmap_app. simpl. rewrite <- app_assoc. by apply read_cstring_app.
Qed.

Lemma atoi_cases {S} (a : cstr) (s : S) :
  (atoi (F:=fault) a s = (Done (number a), s)) ∨
  (atoi (F:=fault) a s = (Leave (Undefined BadConversion), s) ∧ is_int (number a) = false).
Proof. unfold atoi. fold (number a). destruct (is_int (number a)); auto. Qed.

(** The arguments a load runs with. *)
Record load_args_ok (argv : list cstr) (a : load_args) : Prop := {
  lao_ware : 0 < la_count_ware a;
  lao_port : 0 ≤ la_port a ≤ 65535;
  lao_strings : argv !! 1%nat = Some (la_db a) ∧ argv !! 2%nat = Some (la_user a) ∧
    argv !! 3%nat = Some (la_password a) ∧
    Forall (λ s, fits s = true) [la_db a; la_user a; la_password a];
  lao_all : la_particle a = None → la_min_ware a = 1 ∧ la_max_ware a = la_count_ware a;
}.

Definition load_args_error (argv : list cstr) (e : fault) : Prop :=
  e = ExitCode 1 ∨ (e = Undefined BadConversion ∧ bad_number argv) ∨
  (e = Undefined BadArgument ∧ ∃ server, argv !! 0%nat = Some server ∧ bad_port server).

Lemma read_number {A S} (argv : list cstr) (i : nat) (a : cstr) (k : Z → prog fault S A)
    (Q : A → Prop) (s : S) :
  argv !! i = Some a → (4 ≤ i)%nat →
  (∀ v, match k v s with (Done x, s') => s' = s ∧ Q x
                       | (Leave e, s') => s' = s ∧ load_args_error argv e end) →
  match (atoi a ≫= k) s with (Done x, s') => s' = s ∧ Q x
                           | (Leave e, s') => s' = s ∧ load_args_error argv e end.
Proof.
  intros Ha Hi Hk. destruct (atoi_cases a s) as [E|[E Hb]].
  - rewrite (bind_done _ _ _ _ _ E). apply Hk.
  - rewrite (bind_leave _ _ _ _ _ E). split; [done|]. right; left. split; [done|]. by exists i, a.
Qed.

(** The arguments of tpcc_load: it runs with strings that fit their arrays, a
    positive number of warehouses and a port of 16 bits, and with the whole range
    of warehouses unless a part is asked for; any other command line exits with 1,
    except that a number outside [int] or a port that is not one is undefined. *)
Theorem load_arguments_safe {S} (argv : list cstr) (s : S) :
  Forall (λ a, zero ∉ a) argv →
  match load_arguments argv s with
  | (Done a, s') => s' = s ∧ load_args_ok argv a
  | (Leave e, s') => s' = s ∧ load_args_error argv e
  end.
Proof.
  intros Hz. unfold load_arguments.
  destruct (negb _ && negb _) eqn:El; [by split; [|left]|].
  destruct argv as [|server [|db [|user [|pass [|wares rest]]]]];
    try (exfalso; revert El; by vm_compute).
  do 5 (erewrite bind_done by reflexivity).
  destruct (fits server) eqn:E0; [cbn [negb]|by split; [|left]].
  destruct (fits db) eqn:E1; [cbn [negb]|by split; [|left]].
  destruct (fits user) eqn:E2; [cbn [negb]|by split; [|left]].
  destruct (fits pass) eqn:E3; [cbn [negb]|by split; [|left]].
  apply (read_number _ 4 wares); [done|lia|]. intros count.
  destruct (Z.leb_spec count 0) as [Hc|Hc]; [by split; [|left]|].
  destruct (parse_host_run server s E0) as (buf & name & Eh & Er).
  { by apply Forall_inv in Hz. }
  rewrite (bind_done _ _ _ _ _ Eh).
  destruct (parse_port_run server s) as [(p & Ep & Hp)|[Ep Hp]].
  2: { rewrite (bind_leave _ _ _ _ _ Ep). split; [done|]. right; right. split; [done|]. by exists server. }
  rewrite (bind_done _ _ _ _ _ Ep), (bind_done _ _ _ _ _ Er).
  assert (∀ part lo hi, (part = None → lo = 1 ∧ hi = count) →
    load_args_ok (server :: db :: user :: pass :: wares :: rest)
     (LoadArgs buf p db user pass (bool_decide (name = lit "l")) count part lo hi)) as Hok.
  { intros part lo hi Hall. constructor; simpl; [done|done|by split_and!; repeat constructor|done]. }
  destruct rest as [|part [|lo [|hi [|x rest]]]]; try (exfalso; revert El; by vm_compute).
  - split; [done|]. by apply Hok.
  - rewrite (bool_decide_true (length _ = 8%nat)) by done. erewrite bind_done by reflexivity.
    apply (read_number _ 5 part); [done|lia|]. intros part_no. erewrite bind_done by reflexivity.
    apply (read_number _ 6 lo); [done|lia|]. intros min_ware. erewrite bind_done by reflexivity.
    apply (read_number _ 7 hi); [done|lia|]. intros max_ware.
    split; [done|]. by apply Hok.
Qed.

(** ** Witnesses *)

Lemma host_port_roundtrip_witness :
  parse_port (lit "db:1" ++ ":"%char :: lit (pretty 3307)) tt = (Done 3307, tt) ∧
  ∃ buf', parse_host (F:=fault) (replicate 8 None) (lit "db:1" ++ ":"%char :: lit (pretty 3307)) tt =
      (Done buf', tt) ∧
    read_cstring (F:=fault) buf' tt = (Done (lit "db:1"), tt).
Proof.
  apply (host_port_roundtrip (lit "db:1") 3307 (replicate 8 None) tt);
    [lia|by apply (bool_decide_unpack _)|simpl; lia].
Defined.

(** A command line that gives an option twice. *)
Definition sample_options : list (ascii * cstr) :=
  [("w"%char, lit "3"); ("d"%char, lit "l"); ("w"%char, lit " 20")].

Lemma options_last_given_witness :
  (parse_options sample_options options_init).1 = Done tt ∧
  opt_ware (parse_options sample_options options_init).2 = 20 ∧
  (is_local (parse_options sample_options options_init).2).1 = Done true.
Proof.
  destruct (options_last_given sample_options) as [E1 E2].
  - repeat constructor; simpl; done.
  - repeat constructor; by apply (bool_decide_unpack _).
  - rewrite E1. cbn [snd fst]. rewrite E2. split_and!; reflexivity.
Defined.

Lemma load_arguments_safe_witness :
  ∃ a, load_arguments [lit "h:1"; lit "tpcc"; lit "u"; lit "p"; lit "2"] tt = (Done a, tt) ∧
    load_args_ok [lit "h:1"; lit "tpcc"; lit "u"; lit "p"; lit "2"] a.
Proof.
  pose proof (load_arguments_safe [lit "h:1"; lit "tpcc"; lit "u"; lit "p"; lit "2"] tt) as H.
  destruct (load_arguments _ tt) as [[a|e] []] eqn:E; [|by vm_compute in E].
  exists a. split; [done|]. apply H. repeat constructor; by apply (bool_decide_unpack _).
Defined.
