(* ===== verification/TpccMain.v ===== *)
(** * tpcc-mysql: main.c

    The measuring program: the counters it sets up, the handler of the interval
    timer that prints one line per interval, the threads it runs, and the results
    and checks at the end.  A thread's step is a turn of [driver]; the timer
    interrupts between steps. *)

From Stdlib Require Import ZArith Lia SpecFloat Ascii String.
From stdpp Require Import base gmap list strings sorting numbers.
From S2P Require Import Prelude CFloat TpccSupport TpccSequence TpccRthist TpccSql.
From S2P Require Import TpccNeword TpccDriver TpccArgs.

(** What the handler reads and writes: the counters, the histogram, the values at
    the previous alarm and [time_count]. *)
Record gauges : Type := Gauges {
  g_count : counters;
  g_hist : hist;
  g_prev_s : list Z;
  g_prev_l : list Z;
  g_time : Z;
}.

Abbreviation gprog := (prog fault gauges).

(** One type in a line: transactions and late ones in the interval, the
    percentile and the maximum of the response times. *)
Record cell : Type := Cell { cl_count : Z; cl_late : Z; cl_rt90 : float64; cl_max : float64 }.
Record line : Type := Line { ln_time : Z; ln_cells : list cell }.

Definition on_g_hist {A} (m : histprog A) : gprog A :=
  zoom g_hist (λ h g, Gauges (g_count g) h (g_prev_s g) (g_prev_l g) (g_time g)) m.

(** The first loop of the handler: [s], [l] and [rt90]. *)
Definition read_gauges : gprog (list Z * list Z * list float64) :=
  for_lt 0 5 (λ i '(s, l, rt90),
    g ← getS;
    si ← arr_get (t_all (ct_success (g_count g))) i;
    li ← arr_get (t_all (ct_late (g_count g))) i;
    rt ← on_g_hist (hist_ckp i);
    mret (s ++ [si], l ++ [li], rt90 ++ [rt])) ([], [], []).

(** The numbers printed for type [i]. *)
Definition interval_counts (s l : list Z) (i : Z) : gprog (Z * Z) :=
  g ← getS;
  si ← arr_get s i;
  li ← arr_get l i;
  ps ← arr_get (g_prev_s g) i;
  pl ← arr_get (g_prev_l g) i;
  n ← int_add si li;
  n ← int_sub n ps;
  n ← int_sub n pl;
  late ← int_sub li pl;
  mret (n, late).

(** The last loop: [prev_s], [prev_l] and, in the handler, [cur_max_rt]. *)
Definition keep_gauges (s l : list Z) (reset_max : bool) : gprog unit :=
  for_lt 0 5 (λ i _,
    g ← getS;
    si ← arr_get s i;
    li ← arr_get l i;
    ps ← arr_set (g_prev_s g) i si;
    pl ← arr_set (g_prev_l g) i li;
    m ← (if reset_max then arr_set (cur_max_rt (g_hist g)) i (f64_of_Z 0)
         else mret (cur_max_rt (g_hist g)));
    putS (Gauges (g_count g) (set_cur_max_rt m (g_hist g)) ps pl (g_time g))) tt.

Definition advance_time (interval : Z) : gprog Z :=
  g ← getS;
  t ← int_add (g_time g) interval;
  putS (Gauges (g_count g) (g_hist g) (g_prev_s g) (g_prev_l g) t);;
  mret t.

Definition alarm_handler (interval : Z) : gprog line :=
  '(s, l, rt90) ← read_gauges;
  time ← advance_time interval;
  cells ← for_lt 0 5 (λ i cells,
    g ← getS;
    '(n, late) ← interval_counts s l i;
    rt ← arr_get rt90 i;
    m ← arr_get (cur_max_rt (g_hist g)) i;
    mret (cells ++ [Cell n late rt m])) [];
  keep_gauges s l true;;
  mret (Line time cells).

(** The variant of builds with [_SLEEP_ONLY_]: [rt90] is a [float], the maxima are
    neither printed nor reset. *)
Definition alarm_dummy (interval : Z) : gprog (Z * list (Z * Z * float32)) :=
  '(s, l, rt90) ← read_gauges;
  time ← advance_time interval;
  cells ← for_lt 0 5 (λ i cells,
    '(n, late) ← interval_counts s l i;
    rt ← arr_get rt90 i;
    mret (cells ++ [(n, late, f32_of_f64 rt)])) [];
  keep_gauges s l false;;
  mret (time, cells).

(** The set up of the counters and the histogram. *)
Definition tally_init (num_conn : Z) : tally :=
  Tally (replicate 5 0) (replicate 5 (replicate (Z.to_nat num_conn) 0)).
Definition counters_init (num_conn : Z) : counters :=
  Counters (tally_init num_conn) (tally_init num_conn) (tally_init num_conn)
    (tally_init num_conn).
Definition hist_static : hist :=
  Hist (replicate 5 (replicate (Z.to_nat BUCKETS) 0))
       (replicate 5 (replicate (Z.to_nat BUCKETS) 0))
       (replicate 5 (f64_of_Z 0)) (replicate 5 (f64_of_Z 0)).
Definition gauges_init (num_conn : Z) : gauges :=
  Gauges (counters_init num_conn) hist_static (replicate 5 0) (replicate 5 0) 0.

(** [measure_time / PRINT_INTERVAL], the number of alarms waited for. *)
Definition intervals {S} (o : options) : prog fault S Z :=
  int_div (measure_time o) (print_interval o).

(** ** The results *)

(** The sums over the threads for type [i]. *)
Definition sum_type {S} (c : counters) (num_conn i : Z) : prog fault S (Z * Z * Z * Z) :=
  for_lt 0 num_conn (λ k '(s, l, r, f),
    let add (x : which) (acc : Z) : prog fault S Z :=
      row ← arr_get (t_thread (tally_of x c)) i;
      v ← arr_get row k;
      int_add acc v in
    s ← add Success s;
    l ← add Late l;
    r ← add Retry r;
    f ← add Failure f;
    mret (s, l, r, f)) (0, 0, 0, 0).

Definition result_sums {S} (c : counters) (num_conn : Z) : prog fault S (list (Z * Z * Z * Z)) :=
  for_lt 0 5 (λ i out, x ← sum_type c num_conn i; mret (out ++ [x])) [].

(** [100.0 * (float)x / (float)y], as a [float]. *)
Definition percentage (x y : Z) : float32 :=
  f32_of_f64 (f64_div (f64_mul (f64_of_Z 100) (f64_of_f32 (f32_of_Z x)))
                      (f64_of_f32 (f32_of_Z y))).

Definition finished {S} (c : counters) (i : Z) : prog fault S Z :=
  s ← arr_get (t_all (ct_success c)) i;
  l ← arr_get (t_all (ct_late c)) i;
  int_add s l.

(** [f >= bound] *)
Definition passes (f : float32) (bound : Z) : bool := f_ge (f64_of_f32 f) (f64_of_Z bound).

(** The constraint checks in the order they are printed: the shares of payment,
    order-status, delivery and stock-level, then the response times of the five
    types. *)
Definition constraint_checks {S} (c : counters) : prog fault S (list (float32 * bool)) :=
  j ← for_lt 0 5 (λ i j, n ← finished c i; mret (j + n)) 0;
  shares ← for_lt 1 5 (λ i out,
    n ← finished c i;
    let f := percentage n j in
    mret (out ++ [(f, passes f (if i =? 1 then 43 else 4))])) [];
  for_lt 0 5 (λ i out,
    s ← arr_get (t_all (ct_success c)) i;
    n ← finished c i;
    let f := percentage s n in
    mret (out ++ [(f, passes f 90)])) shares.

Definition tpmC {S} (c : counters) (o : options) : prog fault S float32 :=
  n ← finished c 0;
  k ← int_div (measure_time o) (print_interval o);
  secs ← int_mul k (print_interval o);
  mret (f32_of_f64 (f64_div (f64_mul (f64_of_f32 (f32_of_Z n)) (f64_of_Z 60))
                            (f64_of_f32 (f32_of_Z secs)))).

(** ** The measured run *)

Section run.
Context {conn : Type} {Ops : TxOps conn} {Env : DriverEnv} {Rs : RandSource} {St : StackSlots}.

(** The globals, the connections of the threads and the lines printed. *)
Record bench : Type := Bench {
  bn_support : support;
  bn_seq : sequence;
  bn_gauges : gauges;
  bn_tick : Z;
  bn_conns : list conn;
  bn_lines : list line;
}.

(** Thread [t] on its connection, and the state after its step. *)
Definition thread_view (b : bench) (c : conn) : drv conn :=
  Drv conn (bn_support b) (bn_seq b) (g_hist (bn_gauges b)) (g_count (bn_gauges b))
    (bn_tick b) c.
Definition thread_done (t : nat) (d : drv conn) (b : bench) : bench :=
  let g := bn_gauges b in
  Bench (dv_support d) (dv_seq d)
    (Gauges (dv_count d) (dv_hist d) (g_prev_s g) (g_prev_l g) (g_time g))
    (dv_tick d) (<[t := dv_conn d]> (bn_conns b)) (bn_lines b).

(** A turn of a thread, or an alarm. *)
Inductive bench_step (interval : Z) : bench → bench → Prop :=
| step_thread fuel t b c d' :
    bn_conns b !! t = Some c →
    driver_turn fuel t (thread_view b c) = (Done tt, d') →
    bench_step interval b (thread_done t d' b)
| step_alarm b ln g' :
    alarm_handler interval (bn_gauges b) = (Done ln, g') →
    bench_step interval b
      (Bench (bn_support b) (bn_seq b) g' (bn_tick b) (bn_conns b) (bn_lines b ++ [ln])).

Definition bench_start (s : support) (q : sequence) (conns : list conn) : bench :=
  Bench s q (gauges_init num_conn) 0 conns [].
End run.
Arguments bench : clear implicits.

(** ** The counters of the threads add up *)

(** Every total is the sum of its threads' counters; only [retry] is ever
    decremented. *)
Record balanced (n : Z) (c : counters) : Prop := {
  bal_all : ∀ x, length (t_all (tally_of x c)) = 5%nat;
  bal_thread : ∀ x, length (t_thread (tally_of x c)) = 5%nat;
  bal_rows : ∀ x r, r ∈ t_thread (tally_of x c) → length r = Z.to_nat n;
  bal_sum : ∀ x ty, 0 ≤ ty < 5 →
    at_ (t_all (tally_of x c)) ty = zsum (row_of (t_thread (tally_of x c)) ty);
  bal_int : ∀ x ty, 0 ≤ ty < 5 → at_ (t_all (tally_of x c)) ty ≤ INT_MAX;
  bal_sign : ∀ x r, x ≠ Retry → r ∈ t_thread (tally_of x c) → Forall (λ v, 0 ≤ v) r;
}.

Lemma elem_of_insert {A} (l : list A) (i : nat) (x y : A) :
  y ∈ <[i := x]> l → y = x ∨ y ∈ l.
Proof.
  intros (j & Hj)%list_elem_of_lookup. apply list_lookup_insert_Some in Hj as [(_ & -> & _)|[_ Hj]];
    [by left|right]. by apply list_elem_of_lookup_2 in Hj.
Qed.

Lemma bump_balanced (n : Z) (x : which) (ty t delta : Z) :
  x = Retry ∨ 0 ≤ delta → keeps (balanced n) (bump x ty t delta).
Proof.
  intros Hx. apply triple_get. intros c [Hal Hth Hrow Hsum Hint Hsign].
  assert (balanced n c) as Hb by done.
  assert (∀ (e : fault) c', c' = c → balanced n c') as Hex by (by intros e c' ->).
  eapply triple_yields; [eauto with yielddb|exact Hex|]. intros a [Hty Ha].
  eapply triple_yields; [apply yields_int_range|exact Hex|]. intros a' [-> Hr1].
  eapply triple_yields; [eauto with yielddb|exact Hex|]. intros l [Htl ->].
  eapply triple_yields; [eauto with yielddb|exact Hex|]. intros r [_ Hr].
  eapply triple_yields; [eauto with yielddb|exact Hex|]. intros b [Ht Hbt].
  eapply triple_yields; [eauto with yielddb|exact Hex|]. intros b' ->.
  eapply triple_yields; [eauto with yielddb|exact Hex|]. intros r' [Htr ->].
  eapply triple_yields; [eauto with yielddb|exact Hex|]. intros m [Htm ->].
  apply triple_put. rewrite Hal in Htl. rewrite Hth in Htm.
  pose proof (list_elem_of_lookup_2 _ _ _ Hr) as Hin.
  constructor; intros y; rewrite tally_of_set; case_decide as Ey; eauto; subst y; simpl.
  - by rewrite length_insert.
  - by rewrite length_insert.
  - intros r' [->|Hr']%elem_of_insert; [rewrite length_insert|]; eauto.
  - intros ty' Hty'. rewrite at_insert, row_of_insert by (rewrite ?Hal, ?Hth; lia). case_decide as Et; [|by apply Hsum].
    subst ty'. rewrite (zsum_insert _ _ b) by done. specialize (Hsum x ty Hty').
    unfold at_, row_of in Hsum. rewrite Ha, (list_lookup_total_correct _ _ _ Hr) in Hsum. simpl in Hsum. lia.
  - intros ty' Hty'. rewrite at_insert by (rewrite ?Hal; lia). case_decide; [lia|by apply Hint].
  - intros r' Hne [->|Hr']%elem_of_insert; [|by eapply Hsign]. destruct Hx as [?|Hd]; [done|].
    pose proof (Hsign x r Hne Hin) as Hf. apply Forall_insert; [done|].
    rewrite Forall_lookup in Hf. specialize (Hf _ _ Hbt). lia.
Qed.

Section thread.
Context {conn : Type} {Ops : TxOps conn} {Env : DriverEnv} {Rs : RandSource} {St : StackSlots}.

Abbreviation dprog := (prog fault (drv conn)).

(** Only [bump] writes the counters. *)
Definition counted (n : Z) (d : drv conn) : Prop := balanced n (dv_count d).

Lemma same_count {A} (n : Z) (m : dprog A) :
  (∀ d, dv_count (m d).2 = dv_count d) → keeps (counted n) m.
Proof.
  intros Hm d HP. specialize (Hm d). unfold counted in *.
  destruct (m d) as [[a|e] d']; simpl in Hm; by rewrite Hm.
Qed.

Lemma counted_support {A} n (m : cprog A) : keeps (counted n) (on_support m).
Proof. apply same_count. intros d. unfold on_support, zoom. by destruct (m _). Qed.
Lemma counted_seq {A} n (m : seqprog A) : keeps (counted n) (on_seq m).
Proof. apply same_count. intros d. unfold on_seq, zoom. by destruct (m _). Qed.
Lemma counted_hist {A} n (m : histprog A) : keeps (counted n) (on_hist m).
Proof. apply same_count. intros d. unfold on_hist, zoom. by destruct (m _). Qed.
Lemma counted_conn {A} n (m : prog fault conn A) : keeps (counted n) (on_conn m).
Proof. apply same_count. intros d. unfold on_conn, zoom. by destruct (m _). Qed.
Lemma counted_sample {A} n (f : Z → A) : keeps (counted n) (sample f).
Proof. by apply same_count. Qed.
Lemma counted_bump n x ty t delta :
  x = Retry ∨ 0 ≤ delta → keeps (counted n) (on_count (bump x ty t delta)).
Proof.
  intros Hx d Hd. unfold on_count, zoom. pose proof (bump_balanced n x ty t delta Hx _ Hd) as H.
  by destruct (bump x ty t delta (dv_count d)) as [[a|e] c].
Qed.
#[local] Hint Resolve counted_support counted_seq counted_hist counted_conn counted_sample : keepdb.
#[local] Hint Extern 2 (keeps _ (on_count _)) =>
  apply counted_bump; first [by left | right; lia] : keepdb.

Lemma retry_loop_counted n k ty rtime t_num (call : prog fault conn Z) t1 :
  keeps (counted n) (retry_loop k ty rtime t_num call t1).
Proof. induction k as [|k IH]; simpl; unfold record_success; solve_keeps. Qed.
Lemma other_ware_counted n fuel home : keeps (counted n) (other_ware fuel home).
Proof.
  unfold other_ware. case_match; [apply keeps_ret|].
  induction fuel as [|fuel IH]; simpl; solve_keeps.
Qed.
#[local] Hint Resolve retry_loop_counted other_ware_counted : keepdb.

Lemma driver_turn_counted n (fuel t_num : nat) : keeps (counted n) (driver_turn fuel t_num).
Proof.
  unfold driver_turn, do_neword, do_payment, do_ordstat, do_delivery, do_slev, attempt,
    neword_input, neword_line_in, payment_input, ordstat_input, delivery_input, slev_input,
    home_ware.
  solve_keeps.
Qed.
End thread.

(** ** The handler *)

(** The numbers of a type. *)
Definition succeeded (g : gauges) (ty : Z) : Z := at_ (t_all (ct_success (g_count g))) ty.
Definition delayed (g : gauges) (ty : Z) : Z := at_ (t_all (ct_late (g_count g))) ty.

(** Everything but the histogram. *)
Definition same_gauges (g g' : gauges) : Prop :=
  g_count g' = g_count g ∧ g_prev_s g' = g_prev_s g ∧ g_prev_l g' = g_prev_l g ∧
  g_time g' = g_time g.

Lemma on_g_hist_same {A} (g : gauges) (m : histprog A) : keeps (same_gauges g) (on_g_hist m).
Proof.
  intros g' Hg. unfold on_g_hist, zoom. by destruct (m (g_hist g')) as [[a|e] h].
Qed.

Lemma read_gauges_rule (g : gauges) :
  triple (same_gauges g) read_gauges
    (λ x g', same_gauges g g' ∧ x.1.1 = take 5 (t_all (ct_success (g_count g))) ∧
       x.1.2 = take 5 (t_all (ct_late (g_count g)))) (λ _, same_gauges g).
Proof.
  unfold read_gauges.
  eapply triple_conseq; [|apply (triple_for_lt (λ i x g', same_gauges g g' ∧
    x.1.1 = take (Z.to_nat i) (t_all (ct_success (g_count g))) ∧
    x.1.2 = take (Z.to_nat i) (t_all (ct_late (g_count g)))) (λ _, same_gauges g)); [lia|]|done|done].
  { done. }
  intros i [[s l] rt90] Hi. simpl. apply triple_get. intros g1 (Hg & -> & ->).
  eapply triple_weaken; [|intros g2 ->; exact Hg]. pose proof Hg as (Hc & _). rewrite !Hc.
  eapply triple_yields; [eauto with yielddb|done|]. intros si [_ Hs].
  eapply triple_yields; [eauto with yielddb|done|]. intros li [_ Hl].
  apply triple_keep; [apply on_g_hist_same|done|]. intros rt g2 H2. simpl.
  split; [done|]. replace (Z.to_nat (i + 1)) with (S (Z.to_nat i)) by lia.
  by rewrite (take_S_r _ _ _ Hs), (take_S_r _ _ _ Hl).
Qed.

Lemma at_of_lookup (l : list Z) (i v : Z) : l !! Z.to_nat i = Some v → at_ l i = v.
Proof. intros Hv. unfold at_. by rewrite Hv. Qed.

Lemma interval_counts_yields (g : gauges) (s l : list Z) (i : Z) :
  triple (λ g', g' = g) (interval_counts s l i)
    (λ x g', (x.1 = at_ s i + at_ l i - at_ (g_prev_s g) i - at_ (g_prev_l g) i ∧
              x.2 = at_ l i - at_ (g_prev_l g) i) ∧ g' = g) (λ _ g', g' = g).
Proof.
  apply triple_get. intros ? ->.
  do 4 (eapply triple_yields; [eauto with yielddb|done|];
        intros ? [_ <-%at_of_lookup]).
  do 4 (eapply triple_yields; [eauto with yielddb|done|]; intros ? ->).
  by intros ? ->.
Qed.

Lemma keep_gauges_rule (g : gauges) (s l : list Z) (b : bool) :
  triple (λ g', g' = g) (keep_gauges s l b)
    (λ _ g', g_count g' = g_count g ∧ g_time g' = g_time g ∧
       length (g_prev_s g') = length (g_prev_s g) ∧ length (g_prev_l g') = length (g_prev_l g) ∧
       ∀ i, 0 ≤ i < 5 → at_ (g_prev_s g') i = at_ s i ∧ at_ (g_prev_l g') i = at_ l i)
    (λ _ _, True).
Proof.
  unfold keep_gauges.
  eapply triple_conseq; [|apply (triple_for_lt (λ i _ g', g_count g' = g_count g ∧
    g_time g' = g_time g ∧ length (g_prev_s g') = length (g_prev_s g) ∧
    length (g_prev_l g') = length (g_prev_l g) ∧
    ∀ k, 0 ≤ k < i → at_ (g_prev_s g') k = at_ s k ∧ at_ (g_prev_l g') k = at_ l k)
    (λ _ _, True)); [lia|]|done|done].
  { intros g' ->. split_and!; [done..|]. intros k Hk. lia. }
  intros i [] Hi. apply triple_get. intros g1 (Hc & Ht & Hls & Hll & Hk).
  do 2 (eapply triple_yields; [eauto with yielddb|done|]; intros ? [_ <-%at_of_lookup]).
  eapply triple_yields; [eauto with yielddb|done|]. intros ? [Hs ->].
  eapply triple_yields; [eauto with yielddb|done|]. intros ? [Hl ->].
  apply (triple_bind _ _ (λ _ _, True)); [by intros g' _; destruct (_ g') as [[]]|].
  intros m. apply triple_put. simpl. rewrite !length_insert. split_and!; [done..|].
  intros k Hki. rewrite !at_insert by lia. case_decide; [by subst|]. apply Hk. lia.
Qed.

(** What an alarm prints and keeps, when it returns. *)
Definition alarm_line (interval : Z) (g : gauges) (ln : line) (g' : gauges) : Prop :=
  g_count g' = g_count g ∧ g_time g' = g_time g + interval ∧ ln_time ln = g_time g' ∧
  length (g_prev_s g') = length (g_prev_s g) ∧ length (g_prev_l g') = length (g_prev_l g) ∧
  length (ln_cells ln) = 5%nat ∧
  (∀ i, 0 ≤ i < 5 → at_ (g_prev_s g') i = succeeded g i ∧ at_ (g_prev_l g') i = delayed g i) ∧
  ∀ i c, 0 ≤ i → ln_cells ln !! Z.to_nat i = Some c →
    cl_count c = succeeded g i + delayed g i - at_ (g_prev_s g) i - at_ (g_prev_l g) i ∧
    cl_late c = delayed g i - at_ (g_prev_l g) i.

Lemma at_take (l : list Z) (n : nat) (i : Z) :
  0 ≤ i < Z.of_nat n → at_ (take n l) i = at_ l i.
Proof. intros Hi. unfold at_. by rewrite lookup_take_lt by lia. Qed.

(** The loop that fills the cells. *)
Definition cells_ok (g : gauges) (s l : list Z) (cells : list cell) : Prop :=
  ∀ i c, 0 ≤ i → cells !! Z.to_nat i = Some c →
    cl_count c = at_ s i + at_ l i - at_ (g_prev_s g) i - at_ (g_prev_l g) i ∧
    cl_late c = at_ l i - at_ (g_prev_l g) i.

Lemma cells_rule (g : gauges) (s l : list Z) (rt90 : list float64) :
  triple (λ g', g' = g)
    (for_lt 0 5 (λ i cells,
      g ← getS;
      '(n, late) ← interval_counts s l i;
      rt ← arr_get rt90 i;
      m ← arr_get (cur_max_rt (g_hist g)) i;
      mret (cells ++ [Cell n late rt m])) [])
    (λ cells g', g' = g ∧ length cells = 5%nat ∧ cells_ok g s l cells) (λ _ _, True).
Proof.
  eapply triple_conseq; [|apply (triple_for_lt (λ i cells g', g' = g ∧
    Z.of_nat (length cells) = i ∧ cells_ok g s l cells) (λ _ _, True)); [lia|]| |done].
  { intros ? ->. split_and!; [done..|]. by intros i c _. }
  2: { intros cells ? (-> & Hl & Hc). split_and!; [done|lia|done]. }
  intros i cells Hi. apply triple_get. intros ? (-> & Hl & Hc).
  eapply triple_bind; [eapply triple_ends; [apply (interval_counts_yields g s l i)|by intros ? ?|done]|].
  intros [n late]. simpl. apply triple_pure. intros [-> ->].
  do 2 (eapply triple_yields; [eauto with yielddb|done|]; intros ? _). intros ? ->.
  split; [done|]. split; [rewrite length_app; simpl; lia|].
  intros k c Hk Hin. apply lookup_app_Some in Hin as [Hin|[Hge Hin]]; [by apply Hc|].
  apply list_lookup_singleton_Some in Hin as [Hz <-]. assert (k = i) as -> by lia. done.
Qed.

Lemma alarm_rest (g : gauges) (s l : list Z) (rt90 : list float64) (time : Z) :
  triple (λ g', g' = g)
    (cells ← for_lt 0 5 (λ i cells,
      g ← getS;
      '(n, late) ← interval_counts s l i;
      rt ← arr_get rt90 i;
      m ← arr_get (cur_max_rt (g_hist g)) i;
      mret (cells ++ [Cell n late rt m])) [];
     keep_gauges s l true;;
     mret (Line time cells))
    (λ ln g', g_count g' = g_count g ∧ g_time g' = g_time g ∧ ln_time ln = time ∧
       length (g_prev_s g') = length (g_prev_s g) ∧ length (g_prev_l g') = length (g_prev_l g) ∧
       length (ln_cells ln) = 5%nat ∧
       (∀ i, 0 ≤ i < 5 → at_ (g_prev_s g') i = at_ s i ∧ at_ (g_prev_l g') i = at_ l i) ∧
       cells_ok g s l (ln_cells ln)) (λ _ _, True).
Proof.
  eapply triple_bind; [apply cells_rule|]. intros cells.
  eapply triple_weaken; [|intros g' (H1 & H2 & H3); exact (conj (conj H2 H3) H1)].
  apply triple_pure. intros [Hl Hc].
  eapply triple_bind; [apply keep_gauges_rule|]. intros ? g' (H1 & H2 & H3 & H4 & H5). done.
Qed.

Lemma alarm_handler_rule (interval : Z) (g : gauges) :
  triple (λ g', g' = g) (alarm_handler interval) (alarm_line interval g) (λ _ _, True).
Proof.
  unfold alarm_handler. eapply triple_bind.
  { eapply triple_ends; [eapply triple_weaken; [apply (read_gauges_rule g)|by intros ? ->]|by intros ? ?|done]. }
  intros [[s l] rt90]. simpl. apply (triple_bind _ _ (λ t g', t = g_time g + interval ∧
    g_time g' = t ∧ g_count g' = g_count g ∧ g_prev_s g' = g_prev_s g ∧
    g_prev_l g' = g_prev_l g ∧ s = take 5 (t_all (ct_success (g_count g))) ∧
    l = take 5 (t_all (ct_late (g_count g))))).
  { apply triple_get. intros g1 ((Hc & Hps & Hpl & Ht) & Hs & Hl).
    eapply triple_yields; [eauto with yielddb|done|]. intros t ->.
    intros g2 ->. simpl. rewrite Ht. done. }
  intros t g2 (-> & Ht & Hc & Hps & Hpl & -> & ->).
  refine (triple_ends _ _ _ _ _ _ (alarm_rest g2 (take 5 (t_all (ct_success (g_count g))))
    (take 5 (t_all (ct_late (g_count g)))) rt90 (g_time g + interval)) _ _ g2 eq_refl); [|done].
  intros ln g' (H1 & H2 & H3 & H4 & H5 & H6 & H7 & H8). unfold alarm_line.
  rewrite H2, H3, Hc, Hps, Hpl, Ht in *. split_and!; try done.
  - intros i Hi. destruct (H7 i Hi) as [-> ->]. by rewrite !at_take by lia.
  - intros i c Hi Hin. pose proof (lookup_lt_Some _ _ _ Hin). destruct (H8 i c Hi Hin) as [-> ->].
    by rewrite Hps, Hpl, !at_take by lia.
Qed.

(** *** The handler returns *)

Record alarm_ready (interval : Z) (g : gauges) : Prop := {
  ar_hist : hist_ok (g_hist g);
  ar_room : ∀ t, 0 ≤ t < 5 →
    zsum (row_of (cur_hist (g_hist g)) t) + zsum (row_of (total_hist (g_hist g)) t) ≤ INT_MAX ∧
    zsum (row_of (cur_hist (g_hist g)) t) * 99 ≤ INT_MAX;
  ar_lengths : length (t_all (ct_success (g_count g))) = 5%nat ∧
    length (t_all (ct_late (g_count g))) = 5%nat ∧
    length (g_prev_s g) = 5%nat ∧ length (g_prev_l g) = 5%nat;
  ar_counts : ∀ i, 0 ≤ i < 5 → 0 ≤ at_ (g_prev_s g) i ≤ succeeded g i ∧
    0 ≤ at_ (g_prev_l g) i ≤ delayed g i ∧ succeeded g i + delayed g i ≤ INT_MAX;
  ar_time : INT_MIN ≤ g_time g + interval ≤ INT_MAX;
}.

Lemma hist_ok_rows (h : hist) :
  length (total_hist h) = 5%nat → length (cur_hist h) = 5%nat → length (max_rt h) = 5%nat →
  length (cur_max_rt h) = 5%nat →
  (∀ t, 0 ≤ t < 5 → row_ok (row_of (total_hist h) t) ∧ row_ok (row_of (cur_hist h) t)) →
  hist_ok h.
Proof.
  intros H1 H2 H3 H4 Hrow. unfold hist_ok. split_and!; try done; apply Forall_lookup_2;
    intros i r Hi; pose proof (lookup_lt_Some _ _ _ Hi);
    destruct (Hrow (Z.of_nat i) ltac:(lia)) as [Ht Hc]; unfold row_of in Ht, Hc;
    rewrite Nat2Z.id in Ht, Hc; by rewrite (list_lookup_total_correct _ _ _ Hi) in *.
Qed.

Lemma row_ok_zip (l k : list Z) : row_ok l → row_ok k → row_ok (zip_with Z.add l k).
Proof.
  intros [Hl Hlp] [Hk Hkp]. split; [rewrite length_zip_with; lia|].
  rewrite Forall_lookup in *. intros i x (a & b & -> & Ha & Hb)%lookup_zip_with_Some.
  specialize (Hlp _ _ Ha). specialize (Hkp _ _ Hb). simpl in *. lia.
Qed.

Lemma ckp_moved_ok (t : Z) (h h' : hist) :
  0 ≤ t < 5 → hist_ok h → ckp_moved t h h' → hist_ok h'.
Proof.
  intros Ht Hok (Hc & Htt & Hm & Hcm & Hrc & Hrt & Hother).
  pose proof Hok as (H1 & H2 & H3 & H4 & Hft & Hfc). rewrite Forall_lookup in Hft, Hfc.
  assert (∀ u, 0 ≤ u < 5 → row_ok (row_of (total_hist h) u) ∧ row_ok (row_of (cur_hist h) u)) as Hrow.
  { intros u Hu. split; [eapply Hft|eapply Hfc]; apply row_of_lookup; lia. }
  apply hist_ok_rows; try congruence. intros u Hu. destruct (decide (u = t)) as [->|Hne].
  - rewrite Hrc, Hrt. split; [by apply row_ok_zip; apply Hrow|apply row_ok_replicate_0].
  - destruct (Hother u ltac:(lia) Hne) as [-> ->]. by apply Hrow.
Qed.

(** The histogram while the first [i] types have been checkpointed. *)
Definition ckp_upto (i : Z) (h h' : hist) : Prop :=
  hist_ok h' ∧ max_rt h' = max_rt h ∧ cur_max_rt h' = cur_max_rt h ∧
  (∀ u, 0 ≤ u < i → row_of (cur_hist h') u = replicate (Z.to_nat BUCKETS) 0 ∧
     row_of (total_hist h') u = zip_with Z.add (row_of (total_hist h) u) (row_of (cur_hist h) u)) ∧
  ∀ u, i ≤ u → row_of (cur_hist h') u = row_of (cur_hist h) u ∧
     row_of (total_hist h') u = row_of (total_hist h) u.

Definition is_percentile (h : hist) (t : Z) (rt : float64) : Prop :=
  ∃ line, rt = f64_div (f64_of_Z line) (f64_of_Z REC_PER_SEC) ∧
    first_reaching (zsum (row_of (cur_hist h) t) * 99 / 100) (row_of (cur_hist h) t) line.

Lemma ckp_upto_step (i : Z) (h h1 h2 : hist) :
  0 ≤ i < 5 → ckp_upto i h h1 → ckp_moved i h1 h2 → ckp_upto (i + 1) h h2.
Proof.
  intros Hi (Hok & Hm & Hcm & Hlo & Hhi) Hmv. pose proof Hmv as (_ & _ & Hm2 & Hcm2 & Hrc & Hrt & Ho).
  split; [by eapply ckp_moved_ok|]. split; [congruence|]. split; [congruence|].
  destruct (Hhi i ltac:(lia)) as [Hci Hti]. split.
  - intros u Hu. destruct (decide (u = i)) as [->|Hne].
    + by rewrite Hrc, Hrt, Hci, Hti.
    + destruct (Ho u ltac:(lia) Hne) as [-> ->]. apply Hlo. lia.
  - intros u Hu. destruct (Ho u ltac:(lia) ltac:(lia)) as [-> ->]. apply Hhi. lia.
Qed.

Lemma read_gauges_run (interval : Z) (g : gauges) :
  alarm_ready interval g →
  ∃ rt90 h', read_gauges g =
      (Done (t_all (ct_success (g_count g)), t_all (ct_late (g_count g)), rt90),
       Gauges (g_count g) h' (g_prev_s g) (g_prev_l g) (g_time g)) ∧
    ckp_upto 5 (g_hist g) h' ∧ length rt90 = 5%nat ∧
    ∀ i rt, rt90 !! Z.to_nat i = Some rt → 0 ≤ i → is_percentile (g_hist g) i rt.
Proof.
  intros [Hok Hroom (Hls & Hll & _) _ _].
  unfold read_gauges. set (sl := t_all (ct_success (g_count g))) in *.
  set (ll := t_all (ct_late (g_count g))) in *.
  match goal with |- context [for_lt 0 5 ?body] =>
    destruct (for_lt_run (F:=fault) (λ i x g', ∃ h', g' = Gauges (g_count g) h' (g_prev_s g)
      (g_prev_l g) (g_time g) ∧ ckp_upto i (g_hist g) h' ∧
      x.1 = (take (Z.to_nat i) sl, take (Z.to_nat i) ll) ∧ Z.of_nat (length x.2) = i ∧
      ∀ k rt, x.2 !! Z.to_nat k = Some rt → 0 ≤ k → is_percentile (g_hist g) k rt)
      body 0 5 ([], [], []) g) as ([x rt90] & g' & E & h' & -> & Hck & Hx & Hl & Hp)
  end.
  - lia.
  - exists (g_hist g). split; [by destruct g|]. split; [|done].
    split; [done|]. do 2 (split; [done|]). split; [lia|done].
  - intros i [[s l] rt90] g1 Hi (h1 & -> & Hck & [= -> ->] & Hl & Hp). simpl in Hl, Hp.
    erewrite bind_done by reflexivity. cbn [g_count]. fold sl ll.
    destruct (lookup_lt_is_Some_2 sl (Z.to_nat i)) as [si Hs]; [lia|].
    destruct (lookup_lt_is_Some_2 ll (Z.to_nat i)) as [li Hli]; [lia|].
    rewrite (arr_get_ok sl i si), bind_ret, (arr_get_ok ll i li), bind_ret by (done || lia).
    pose proof Hck as (Hok1 & _ & _ & _ & Hhi). destruct (Hhi i ltac:(lia)) as [Hci Hti].
    destruct (Hroom i Hi) as [Hr1 Hr2].
    destruct (hist_ckp_run i h1) as (line & h2 & Ec & Hf & Hmv).
    { split; [done|]. split; [lia|]. by rewrite Hci, Hti. }
    { by rewrite Hci. }
    erewrite bind_done by (apply zoom_run; exact Ec). eexists _, _. split; [reflexivity|].
    exists h2. split; [done|]. split; [by eapply ckp_upto_step|].
    replace (Z.to_nat (i + 1)) with (S (Z.to_nat i)) by lia.
    rewrite (take_S_r _ _ _ Hs), (take_S_r _ _ _ Hli). split; [done|]. simpl.
    split; [rewrite length_app; simpl; lia|].
    intros k rt [Hk|[Hge Hk]]%lookup_app_Some Hk0; [by apply Hp|].
    apply list_lookup_singleton_Some in Hk as [Hz <-]. assert (k = i) as -> by lia.
    exists line. split; [done|]. by rewrite Hci in Hf.
  - rewrite E. simpl in Hx, Hl, Hp. rewrite Hx, !take_ge by lia. exists rt90, h'.
    split; [done|]. split; [done|]. split; [lia|done].
Qed.

Lemma interval_counts_run (g : gauges) (s l : list Z) (i : Z) :
  length s = 5%nat → length l = 5%nat → length (g_prev_s g) = 5%nat → length (g_prev_l g) = 5%nat →
  0 ≤ i < 5 → 0 ≤ at_ (g_prev_s g) i ≤ at_ s i → 0 ≤ at_ (g_prev_l g) i ≤ at_ l i →
  at_ s i + at_ l i ≤ INT_MAX →
  ∃ x, interval_counts s l i g = (Done x, g).
Proof.
  intros Hs Hl Hps Hpl Hi H1 H2 H3. unfold interval_counts. erewrite bind_done by reflexivity.
  rewrite (bind_done _ _ _ _ _ (at_get s i g ltac:(lia))).
  rewrite (bind_done _ _ _ _ _ (at_get l i g ltac:(lia))).
  rewrite (bind_done _ _ _ _ _ (at_get (g_prev_s g) i g ltac:(lia))).
  rewrite (bind_done _ _ _ _ _ (at_get (g_prev_l g) i g ltac:(lia))).
  unfold int_add, int_sub. unfold INT_MAX in *.
  repeat first [rewrite bind_ret | rewrite int_of_ok by (unfold INT_MIN, INT_MAX; lia)]. by eexists.
Qed.

Lemma cells_run (g : gauges) (s l : list Z) (rt90 : list float64) :
  length s = 5%nat → length l = 5%nat → length (g_prev_s g) = 5%nat → length (g_prev_l g) = 5%nat →
  length rt90 = 5%nat → length (cur_max_rt (g_hist g)) = 5%nat →
  (∀ i, 0 ≤ i < 5 → 0 ≤ at_ (g_prev_s g) i ≤ at_ s i ∧ 0 ≤ at_ (g_prev_l g) i ≤ at_ l i ∧
     at_ s i + at_ l i ≤ INT_MAX) →
  ∃ cells, for_lt 0 5 (λ i cells,
      g ← getS;
      '(n, late) ← interval_counts s l i;
      rt ← arr_get rt90 i;
      m ← arr_get (cur_max_rt (g_hist g)) i;
      mret (cells ++ [Cell n late rt m])) [] g = (Done cells : outcome fault _, g) ∧
    ∀ i c, cells !! i = Some c →
      rt90 !! i = Some (cl_rt90 c) ∧ cur_max_rt (g_hist g) !! i = Some (cl_max c).
Proof.
  intros Hs Hl Hps Hpl Hr Hm Hc.
  match goal with |- context [for_lt 0 5 ?body] =>
    destruct (for_lt_run (F:=fault) (λ i cells g', g' = g ∧ Z.of_nat (length cells) = i ∧
      ∀ i c, cells !! i = Some c →
        rt90 !! i = Some (cl_rt90 c) ∧ cur_max_rt (g_hist g) !! i = Some (cl_max c))
      body 0 5 [] g) as (cells & g' & E & -> & _ & Hcell)
  end; [lia|done| |by exists cells].
  intros i cells g1 Hi (-> & Hlen & Hcell). erewrite bind_done by reflexivity.
  destruct (Hc i Hi) as (H1 & H2 & H3).
  destruct (interval_counts_run g s l i) as [[n late] E]; try done.
  rewrite (bind_done _ _ _ _ _ E).
  destruct (lookup_lt_is_Some_2 rt90 (Z.to_nat i)) as [rt Hrt]; [lia|].
  destruct (lookup_lt_is_Some_2 (cur_max_rt (g_hist g)) (Z.to_nat i)) as [m Hmi]; [lia|].
  rewrite (arr_get_ok rt90 i rt), bind_ret, (arr_get_ok (cur_max_rt (g_hist g)) i m), bind_ret
    by (done || lia).
  eexists _, _. split; [reflexivity|]. split; [done|]. split; [rewrite length_app; simpl; lia|].
  intros k c [Hk|[Hge Hk]]%lookup_app_Some; [by apply Hcell|].
  apply list_lookup_singleton_Some in Hk as [Hz <-].
  assert (k = Z.to_nat i) as -> by lia. done.
Qed.

Lemma keep_gauges_run (g : gauges) (s l : list Z) :
  length s = 5%nat → length l = 5%nat → length (g_prev_s g) = 5%nat → length (g_prev_l g) = 5%nat →
  length (cur_max_rt (g_hist g)) = 5%nat →
  ∃ g', keep_gauges s l true g = (Done tt, g') ∧
    total_hist (g_hist g') = total_hist (g_hist g) ∧ cur_hist (g_hist g') = cur_hist (g_hist g) ∧
    max_rt (g_hist g') = max_rt (g_hist g) ∧ cur_max_rt (g_hist g') = replicate 5 (f64_of_Z 0).
Proof.
  intros Hs Hl Hps Hpl Hm. unfold keep_gauges.
  match goal with |- context [for_lt 0 5 ?body] =>
    destruct (for_lt_run (F:=fault) (λ i _ g', length (g_prev_s g') = 5%nat ∧
      length (g_prev_l g') = 5%nat ∧ total_hist (g_hist g') = total_hist (g_hist g) ∧
      cur_hist (g_hist g') = cur_hist (g_hist g) ∧ max_rt (g_hist g') = max_rt (g_hist g) ∧
      cur_max_rt (g_hist g') =
        replicate (Z.to_nat i) (f64_of_Z 0) ++ drop (Z.to_nat i) (cur_max_rt (g_hist g)))
      body 0 5 tt g) as ([] & g' & E & _ & _ & H1 & H2 & H3 & H4)
  end; [lia|done| |].
  - intros i [] g1 Hi (H1 & H2 & H3 & H4 & H5 & H6). erewrite bind_done by reflexivity.
    rewrite (bind_done _ _ _ _ _ (at_get s i g1 ltac:(lia))).
    rewrite (bind_done _ _ _ _ _ (at_get l i g1 ltac:(lia))).
    rewrite !arr_set_ok, !bind_ret by
      (rewrite ?H6, ?length_app, ?length_replicate, ?length_drop; lia).
    eexists _, _. split; [reflexivity|]. simpl. rewrite !length_insert. split_and!; try done.
    rewrite H6. destruct (lookup_lt_is_Some_2 (cur_max_rt (g_hist g)) (Z.to_nat i)) as [y Hy]; [lia|].
    rewrite (insert_at_prefix _ _ _ _ y); [|by rewrite length_replicate|by rewrite lookup_drop, Nat.add_0_r].
    replace (Z.to_nat (i + 1)) with (Z.to_nat i + 1)%nat by lia.
    by rewrite <- replicate_S_end, <- (Nat.add_1_r (Z.to_nat i)).
  - exists g'. rewrite E. split; [done|]. rewrite drop_ge, app_nil_r in H4 by lia. done.
Qed.

Lemma alarm_handler_run (interval : Z) (g : gauges) :
  alarm_ready interval g →
  ∃ ln g' h', alarm_handler interval g = (Done ln, g') ∧
    ckp_upto 5 (g_hist g) h' ∧ g_hist g' = set_cur_max_rt (replicate 5 (f64_of_Z 0)) h' ∧
    ∀ i c, 0 ≤ i → ln_cells ln !! Z.to_nat i = Some c →
      is_percentile (g_hist g) i (cl_rt90 c) ∧
      cur_max_rt (g_hist g) !! Z.to_nat i = Some (cl_max c).
Proof.
  intros Hr. destruct (read_gauges_run interval g Hr) as (rt90 & h' & E & Hck & Hl & Hp).
  destruct Hr as [Hok _ (Hls & Hll & Hps & Hpl) Hc Ht]. pose proof Hck as (Hok' & Hm & Hcm & _).
  assert (length (cur_max_rt h') = 5%nat) as Hlm by (by destruct Hok' as (_ & _ & _ & ? & _)).
  unfold alarm_handler. rewrite (bind_done _ _ _ _ _ E).
  erewrite (bind_done (advance_time interval)).
  2: { unfold advance_time. erewrite bind_done by reflexivity. unfold int_add. cbn [g_time].
       rewrite int_of_ok, bind_ret by done. reflexivity. }
  set (g1 := Gauges _ _ _ _ _).
  destruct (cells_run g1 (t_all (ct_success (g_count g))) (t_all (ct_late (g_count g))) rt90)
    as (cells & Ec & Hcell); try done.
  rewrite (bind_done _ _ _ _ _ Ec).
  destruct (keep_gauges_run g1 (t_all (ct_success (g_count g))) (t_all (ct_late (g_count g))))
    as (g2 & Ek & H1 & H2 & H3 & H4); try done.
  rewrite (bind_done _ _ _ _ _ Ek). exists (Line (g_time g + interval) cells), g2, h'.
  split; [done|]. split; [done|]. simpl in H1, H2, H3. split.
  - destruct (g_hist g2). unfold set_cur_max_rt. cbn in H1, H2, H3, H4. by rewrite H1, H2, H3, H4.
  - simpl. intros i c Hi Hin. destruct (Hcell _ _ Hin) as [Hrt Hmx]. simpl in Hmx.
    split; [by apply Hp|congruence].
Qed.

(** The handler of the interval timer returns, whatever was recorded, while
    the totals fit: its line has, for every type, the transactions since the last
    alarm, the late ones among them, the 99% response time and the maximum of the
    interval; afterwards the interval's histogram is empty and added to the
    totals, the maxima are reset and the counters remembered. *)
Theorem alarm_handler_reports (interval : Z) (g : gauges) :
  alarm_ready interval g →
  ∃ ln g', alarm_handler interval g = (Done ln, g') ∧ alarm_line interval g ln g' ∧
    (∀ i c, 0 ≤ i → ln_cells ln !! Z.to_nat i = Some c →
      is_percentile (g_hist g) i (cl_rt90 c) ∧
      cur_max_rt (g_hist g) !! Z.to_nat i = Some (cl_max c)) ∧
    cur_max_rt (g_hist g') = replicate 5 (f64_of_Z 0) ∧
    ∀ u, 0 ≤ u < 5 → row_of (cur_hist (g_hist g')) u = replicate (Z.to_nat BUCKETS) 0 ∧
      row_of (total_hist (g_hist g')) u =
        zip_with Z.add (row_of (total_hist (g_hist g)) u) (row_of (cur_hist (g_hist g)) u).
Proof.
  intros Hr. destruct (alarm_handler_run interval g Hr) as (ln & g' & h' & E & Hck & Hh & Hc).
  pose proof (alarm_handler_rule interval g g eq_refl) as H. rewrite E in H.
  exists ln, g'. rewrite Hh. destruct Hck as (_ & _ & _ & Hlo & _). done.
Qed.

(** ** The sums over the threads *)

Lemma at_row (c : counters) (n i k : Z) (x : which) :
  balanced n c → 0 ≤ i < 5 → 0 ≤ k < n →
  t_thread (tally_of x c) !! Z.to_nat i = Some (row_of (t_thread (tally_of x c)) i) ∧
  row_of (t_thread (tally_of x c)) i !! Z.to_nat k =
    Some (at_ (row_of (t_thread (tally_of x c)) i) k).
Proof.
  intros Hb Hi Hk.
  assert (t_thread (tally_of x c) !! Z.to_nat i = Some (row_of (t_thread (tally_of x c)) i)) as Hr.
  { apply row_of_lookup. rewrite (bal_thread _ _ Hb). lia. }
  split; [exact Hr|]. apply at_lookup.
  rewrite (bal_rows _ _ Hb x _ (list_elem_of_lookup_2 _ _ _ Hr)). lia.
Qed.

(** The sum of a counter over the first threads stays within [int]. *)
Definition part_sum (c : counters) (x : which) (i k : Z) : Z :=
  zsum (take (Z.to_nat k) (row_of (t_thread (tally_of x c)) i)).

Lemma part_sum_step {S} (c : counters) (n i k : Z) (x : which) (s : S) :
  balanced n c → 0 ≤ i < 5 → 0 ≤ k < n →
  Forall (λ v, 0 ≤ v) (row_of (t_thread (tally_of x c)) i) →
  (row ← arr_get (t_thread (tally_of x c)) i; v ← arr_get row k;
   int_add (part_sum c x i k) v) s = (Done (part_sum c x i (k + 1)) : outcome fault Z, s).
Proof.
  intros Hb Hi Hk Hpos. destruct (at_row c n i k x Hb Hi Hk) as [Hr Hv].
  rewrite (arr_get_ok _ i _ ltac:(lia) Hr), bind_ret, (arr_get_ok _ k _ ltac:(lia) Hv), bind_ret.
  pose proof (zsum_take_S _ _ _ Hv) as HS.
  pose proof (zsum_take_le _ (Datatypes.S (Z.to_nat k)) (length (row_of (t_thread (tally_of x c)) i)) Hpos)
    as Hle. rewrite firstn_all in Hle.
  pose proof (bal_sum _ _ Hb x i Hi). pose proof (bal_int _ _ Hb x i Hi).
  pose proof (lookup_lt_Some _ _ _ Hv). specialize (Hle ltac:(lia)).
  pose proof (zsum_nonneg _ (Forall_take _ (Datatypes.S (Z.to_nat k)) _ Hpos)).
  unfold int_add, part_sum. replace (Z.to_nat (k + 1)) with (Datatypes.S (Z.to_nat k)) by lia.
  rewrite <- HS, int_of_ok by (unfold INT_MIN; lia). done.
Qed.

Definition totals_of (c : counters) (i : Z) : Z * Z * Z * Z :=
  (at_ (t_all (ct_success c)) i, at_ (t_all (ct_late c)) i, at_ (t_all (ct_retry c)) i,
   at_ (t_all (ct_failure c)) i).

Definition retries_positive (c : counters) : Prop :=
  ∀ r, r ∈ t_thread (ct_retry c) → Forall (λ v, 0 ≤ v) r.

Lemma sum_type_run {S} (c : counters) (n i : Z) (s : S) :
  balanced n c → retries_positive c → 0 ≤ n → 0 ≤ i < 5 →
  sum_type c n i s = (Done (totals_of c i), s).
Proof.
  intros Hb Hret Hn Hi.
  assert (∀ x, Forall (λ v, 0 ≤ v) (row_of (t_thread (tally_of x c)) i)) as Hpos.
  { intros x. assert (row_of (t_thread (tally_of x c)) i ∈ t_thread (tally_of x c)) as Hin.
    { eapply list_elem_of_lookup_2, row_of_lookup. rewrite (bal_thread _ _ Hb). lia. }
    destruct (decide (x = Retry)) as [->|Hne]; [by apply Hret|by eapply bal_sign]. }
  unfold sum_type. destruct (for_lt_run (F:=fault) (λ k acc s', s' = s ∧
    acc = (part_sum c Success i k, part_sum c Late i k, part_sum c Retry i k,
           part_sum c Failure i k)) (λ k '(x, l, r, f),
    let add (x : which) (acc : Z) : prog fault S Z :=
      row ← arr_get (t_thread (tally_of x c)) i; v ← arr_get row k; int_add acc v in
    x ← add Success x; l ← add Late l; r ← add Retry r; f ← add Failure f; mret (x, l, r, f))
    0 n (0, 0, 0, 0) s) as (acc & s' & E & -> & ->).
  - done.
  - by unfold part_sum.
  - intros k acc s' Hk [-> ->]. cbv zeta.
    do 4 (erewrite bind_done; [|by apply (part_sum_step c n i k)]).
    eexists _, _. split; [reflexivity|]. done.
  - etransitivity; [exact E|]. unfold totals_of. do 2 f_equal.
    assert (∀ x, part_sum c x i n = at_ (t_all (tally_of x c)) i) as Hx.
    { intros x. rewrite (bal_sum _ _ Hb x i Hi). unfold part_sum. rewrite take_ge; [done|].
      rewrite (bal_rows _ _ Hb x); [done|]. eapply list_elem_of_lookup_2, row_of_lookup.
      rewrite (bal_thread _ _ Hb). lia. }
    by rewrite !Hx.
Qed.

(** ** Reachable states *)

Section accounting.
Context {conn : Type} {Ops : TxOps conn} {Env : DriverEnv} {Rs : RandSource} {St : StackSlots}.

(** A number of a type summed over printed lines. *)
Definition line_total (f : cell → Z) (ty : Z) (lines : list line) : Z :=
  zsum ((λ ln, from_option f 0 (ln_cells ln !! Z.to_nat ty)) <$> lines).

Record accounted (interval : Z) (b : bench conn) : Prop := {
  acc_balanced : balanced num_conn (g_count (bn_gauges b));
  acc_time : g_time (bn_gauges b) = interval * Z.of_nat (length (bn_lines b));
  acc_lines : ∀ ty, 0 ≤ ty < 5 →
    line_total cl_count ty (bn_lines b) =
      at_ (g_prev_s (bn_gauges b)) ty + at_ (g_prev_l (bn_gauges b)) ty ∧
    line_total cl_late ty (bn_lines b) = at_ (g_prev_l (bn_gauges b)) ty;
}.

Lemma counters_init_balanced (n : Z) : balanced n (counters_init n).
Proof.
  assert (∀ x, tally_of x (counters_init n) = tally_init n) as Ht by (by intros []).
  assert (∀ ty, row_of (t_thread (tally_init n)) ty = [] ∨
    row_of (t_thread (tally_init n)) ty = replicate (Z.to_nat n) 0) as Hrow.
  { intros ty. unfold row_of. rewrite list_lookup_total_alt. cbn [t_thread tally_init].
    destruct (replicate 5 _ !! _) as [r|] eqn:E; [|by left].
    apply lookup_replicate in E as [-> _]. by right. }
  assert (∀ ty, at_ (t_all (tally_init n)) ty = 0) as Hat.
  { intros ty. unfold at_. cbn [t_all tally_init]. destruct (replicate 5 0 !! _) eqn:E; [|done].
    by apply lookup_replicate in E as [-> _]. }
  constructor; intros x; rewrite Ht; try done.
  - intros r [-> _]%elem_of_replicate. by rewrite length_replicate.
  - intros ty _. rewrite Hat. destruct (Hrow ty) as [-> | ->]; [done|]. by rewrite zsum_replicate_0.
  - intros ty _. by rewrite Hat.
  - intros r _ [-> _]%elem_of_replicate. by apply Forall_replicate.
Qed.

Lemma line_total_snoc (f : cell → Z) (ty : Z) (lines : list line) (ln : line) (c : cell) :
  ln_cells ln !! Z.to_nat ty = Some c →
  line_total f ty (lines ++ [ln]) = line_total f ty lines + f c.
Proof.
  intros Hc. unfold line_total. rewrite fmap_app, zsum_app. simpl. rewrite Hc.
  unfold zsum. simpl. lia.
Qed.

(** An alarm adds what happened since the last one. *)
Lemma alarm_accounted (interval : Z) (b : bench conn) (ln : line) (g' : gauges) :
  accounted interval b → alarm_handler interval (bn_gauges b) = (Done ln, g') →
  g_count g' = g_count (bn_gauges b) ∧
  g_time g' = interval * Z.of_nat (length (bn_lines b ++ [ln])) ∧
  ∀ ty, 0 ≤ ty < 5 →
    at_ (g_prev_s g') ty = succeeded g' ty ∧ at_ (g_prev_l g') ty = delayed g' ty ∧
    line_total cl_count ty (bn_lines b ++ [ln]) = succeeded g' ty + delayed g' ty ∧
    line_total cl_late ty (bn_lines b ++ [ln]) = delayed g' ty.
Proof.
  intros [Hbal Ht Hl] E. pose proof (alarm_handler_rule interval (bn_gauges b) _ eq_refl) as H.
  rewrite E in H. destruct H as (Hc & Ht' & _ & _ & _ & Hcells & Hprev & Hcell).
  split; [done|]. split; [rewrite Ht', Ht, length_app; simpl; lia|]. intros ty Hty.
  destruct (lookup_lt_is_Some_2 (ln_cells ln) (Z.to_nat ty)) as [c Hin]; [lia|].
  destruct (Hcell ty c ltac:(lia) Hin) as [Hn Hlate], (Hprev ty Hty) as [Hps Hpl], (Hl ty Hty) as [H1 H2].
  rewrite !(line_total_snoc _ _ _ _ c Hin).
  unfold succeeded, delayed in *. rewrite Hc. lia.
Qed.

Lemma start_accounted (interval : Z) (s : support) (q : sequence) (conns : list conn) :
  accounted interval (bench_start s q conns).
Proof.
  constructor; simpl; [apply counters_init_balanced|lia|]. intros ty Hty.
  assert (at_ [0; 0; 0; 0; 0] ty = 0) as ->; [|done].
  unfold at_. change [0; 0; 0; 0; 0] with (replicate 5 0). by rewrite lookup_replicate_2 by lia.
Qed.

Lemma step_accounted (interval : Z) (b b' : bench conn) :
  accounted interval b → bench_step interval b b' → accounted interval b'.
Proof.
  intros Ha Hs. destruct Hs as [fuel t b c d' Hc E|b ln g' E].
  - destruct Ha as [Hb Ht Hl]. constructor; [|done|done]. simpl.
    pose proof (driver_turn_counted num_conn fuel t (thread_view b c) Hb) as H. by rewrite E in H.
  - pose proof (acc_balanced _ _ Ha) as Hb.
    destruct (alarm_accounted interval b ln g' Ha E) as (Hg & Ht & Hl).
    constructor; simpl; [by rewrite Hg|done|]. intros ty Hty. destruct (Hl ty Hty) as (-> & -> & ? & ?).
    done.
Qed.

Lemma reachable_accounted (interval : Z) (s : support) (q : sequence) (conns : list conn) (b : bench conn) :
  rtc (bench_step interval) (bench_start s q conns) b → accounted interval b.
Proof.
  intros Hr. remember (bench_start s q conns) as b0 eqn:E.
  assert (accounted interval b0) as Ha by (subst; apply start_accounted). clear E.
  induction Hr as [|b1 b2 b3 Hs _ IH]; [done|]. apply IH. by eapply step_accounted.
Qed.
End accounting.


(** The two tables of raw results agree: in any reachable state the sums over
    the threads are computed without overflow and equal the shared counters, for
    the five types and the four counters, unless a thread's retry counter has
    become negative. *)
Theorem result_sums_agree {conn : Type} {Ops : TxOps conn} {Env : DriverEnv}
    {Rs : RandSource} {St : StackSlots} (interval : Z) (s : support) (q : sequence)
    (conns : list conn) (b : bench conn) :
  0 ≤ num_conn → rtc (bench_step interval) (bench_start s q conns) b →
  retries_positive (g_count (bn_gauges b)) →
  result_sums (g_count (bn_gauges b)) num_conn b =
    (Done (totals_of (g_count (bn_gauges b)) <$> [0; 1; 2; 3; 4]), b).
Proof.
  intros Hn Hr%reachable_accounted Hp. pose proof (acc_balanced _ _ Hr) as Hb.
  unfold result_sums, for_lt. simpl.
  do 5 (erewrite bind_done by (erewrite bind_done by (apply sum_type_run; done || lia); reflexivity)).
  done.
Qed.

(** ** Witnesses *)

Lemma row_of_replicate (n : nat) (r : list Z) (t : Z) :
  0 ≤ t < Z.of_nat n → row_of (replicate n r) t = r.
Proof.
  intros Ht. unfold row_of. apply list_lookup_total_correct. by rewrite lookup_replicate_2 by lia.
Qed.

Lemma hist_static_ok : hist_ok hist_static.
Proof. unfold hist_ok. split_and!; try done; apply Forall_replicate, row_ok_replicate_0. Qed.

(** Counters at rest and an empty histogram. *)
Lemma fresh_ready (interval : Z) (c : counters) :
  length (t_all (ct_success c)) = 5%nat → length (t_all (ct_late c)) = 5%nat →
  (∀ i, 0 ≤ i < 5 → 0 ≤ at_ (t_all (ct_success c)) i ≤ 1000 ∧ 0 ≤ at_ (t_all (ct_late c)) i ≤ 1000) →
  0 ≤ interval ≤ INT_MAX →
  alarm_ready interval (Gauges c hist_static (replicate 5 0) (replicate 5 0) 0).
Proof.
  intros Hs Hl Hc Hi. constructor; try done.
  - apply hist_static_ok.
  - intros t Ht. cbn [g_hist hist_static cur_hist total_hist].
    rewrite !row_of_replicate by lia. rewrite zsum_replicate_0. done.
  - intros i Hii. destruct (Hc i Hii) as [H1 H2]. cbn [g_prev_s g_prev_l].
    assert (at_ (replicate 5 0) i = 0) as -> by (unfold at_; by rewrite lookup_replicate_2 by lia).
    unfold succeeded, delayed. simpl. unfold INT_MAX. lia.
  - cbn [g_time]. unfold INT_MIN. lia.
Qed.

Definition some_counters : counters :=
  Counters (Tally [7; 3; 0; 0; 0] []) (Tally [1; 0; 0; 0; 0] []) (Tally [] []) (Tally [] []).

Lemma some_counters_small (i : Z) :
  0 ≤ i < 5 → 0 ≤ at_ (t_all (ct_success some_counters)) i ≤ 1000 ∧
    0 ≤ at_ (t_all (ct_late some_counters)) i ≤ 1000.
Proof.
  intros Hi. unfold at_. simpl.
  assert (Z.to_nat i ∈ seq 0 5) as Hin by (apply elem_of_seq; lia).
  revert Hin. generalize (Z.to_nat i). intros n Hn. simpl in Hn.
  repeat (apply elem_of_cons in Hn as [->|Hn]; [simpl; lia|]). by apply not_elem_of_nil in Hn.
Qed.

Lemma alarm_handler_reports_witness :
  ∃ ln g', alarm_handler 10 (Gauges some_counters hist_static (replicate 5 0) (replicate 5 0) 0) =
      (Done ln, g') ∧
    g_time g' = 10 ∧ cl_count <$> ln_cells ln !! 0%nat = Some 8 ∧
    cl_late <$> ln_cells ln !! 0%nat = Some 1.
Proof.
  destruct (alarm_handler_reports 10 (Gauges some_counters hist_static (replicate 5 0) (replicate 5 0) 0))
    as (ln & g' & E & (_ & Ht & _ & _ & _ & Hl & _ & Hc) & _).
  - apply fresh_ready; [done|done|exact some_counters_small|unfold INT_MAX; lia].
  - exists ln, g'. split; [exact E|]. split; [exact Ht|].
    destruct (lookup_lt_is_Some_2 (ln_cells ln) 0) as [c Hin]; [lia|].
    destruct (Hc 0 c ltac:(lia) Hin) as [H1 H2]. rewrite Hin. simpl. rewrite H1, H2.
    split; reflexivity.
Defined.

(** A run whose transactions always succeed. *)
Definition smooth_ops : TxOps unit := {|
  op_neword _ _ _ _ _ _ _ _ := mret 1; op_payment _ _ _ _ _ _ _ _ := mret 1;
  op_ordstat _ _ _ _ _ := mret 1; op_delivery _ _ := mret 1; op_slev _ _ _ := mret 1 |}.

Definition smooth_start : bench unit :=
  bench_start (Env:=DriverRun.run_env) support_init sequence_zero [tt].

Lemma smooth_alarm : ∃ ln g, alarm_handler 10 (bn_gauges smooth_start) = (Done ln, g).
Proof.
  destruct (alarm_handler_run 10 (bn_gauges smooth_start)) as (ln & g & _ & E & _); [|by exists ln, g].
  apply fresh_ready; [done|done| |unfold INT_MAX; lia]. intros i Hi.
  assert (at_ (replicate 5 0) i = 0) as E by (unfold at_; by rewrite lookup_replicate_2 by lia).
  simpl in E |- *. rewrite E. lia.
Qed.


Lemma result_sums_agree_witness :
  (result_sums (g_count (bn_gauges smooth_start)) (num_conn (DriverEnv:=DriverRun.run_env))
    smooth_start).1 =
    Done (replicate 5 (0, 0, 0, 0)).
Proof.
  rewrite (result_sums_agree (Ops:=smooth_ops) (Env:=DriverRun.run_env)
    (Rs:=DriverRun.run_rand) (St:=DriverRun.run_slots) 10 support_init sequence_zero [tt]
    smooth_start); [reflexivity|done|apply rtc_refl|].
  intros r Hr. apply elem_of_replicate in Hr as [-> _]. constructor; [lia|constructor].
Defined.
