(* ===== verification/TpccLoad.v ===== *)
(** * tpcc-mysql: load.c

    The loader fills the tables with random data.  [Error] rolls back and exits;
    [try_stmt_execute] rolls back and the caller starts its transaction again
    ([goto retry], the exit [Restart]).  Progress output is not modelled;
    [timestamp] is the string [gettimestamp] wrote; [orig_slots] is what the
    stack holds in the array [orig] before its first cells are set; the loops
    that may draw or retry without bound have a fuel. *)

From Stdlib Require Import ZArith Lia SpecFloat Ascii String.
From stdpp Require Import base gmap list strings sorting numbers.
From S2P Require Import Prelude CFloat TpccSupport TpccSql TpccTx TpccInvariant.
From S2P Require Import TpccMemDb TpccSample TpccNeword TpccPayment TpccDelivery.

Inductive load_exit : Type :=
| LoadFault (f : fault)
| Restart.

#[export] Instance load_has_ub : HasUB load_exit := λ u, LoadFault (Undefined u).

Record loader {conn : Type} : Type := Loader { ld_support : support; ld_conn : conn }.
Arguments loader : clear implicits.

Class OrigSlots := orig_slots : Z → Z.

(** The options of tpcc_load. *)
Class LoadOptions := { min_ware : Z; max_ware : Z; timestamp : cstr }.

Section load.
Context {conn : Type} {Api : MySQL conn} {Rs : RandSource} {St : StackSlots}
  {Os : OrigSlots} {Opt : LoadOptions}.

Abbreviation lprog := (prog load_exit (loader conn)).

Definition rnd {A} (m : cprog A) : lprog A :=
  zoom ld_support (λ x l, Loader conn x (ld_conn l)) (λ s,
    let '(r, s') := m s in
    (match r with Done a => Done a | Leave f => Leave (LoadFault f) end, s')).

Definition call (f : conn → bool * conn) : lprog bool := λ l,
  let '(rc, c) := f (ld_conn l) in (Done rc, Loader conn (ld_support l) c).

(** [Error]: roll back and [exit(-1)]. *)
Definition Error {A} : lprog A :=
  call mysql_rollback;; leave (LoadFault (ExitCode (-1))).

Definition try_stmt_execute (s : stmt) : lprog bool :=
  ret ← call (stmt_execute s);
  (if ret : bool then call mysql_rollback;; mret tt else mret tt);;
  mret ret.

(** [if( mysql_stmt_bind_param(s, param) ) goto sqlerr;
    if( try_stmt_execute(s) ) goto retry;] *)
Definition insert (s : stmt) (ps : row) : lprog unit :=
  rc ← call (stmt_bind_param s ps);
  if rc : bool then Error
  else
    rc ← try_stmt_execute s;
    if rc : bool then leave Restart else mret tt.

Definition commit : lprog unit :=
  rc ← call mysql_commit;
  if rc : bool then Error else mret tt.

(** Run the code after the label [retry] until it is not restarted. *)
Fixpoint retrying (fuel : nat) (m : lprog unit) : lprog unit :=
  match fuel with
  | O => leave (LoadFault OutOfFuel)
  | S fuel =>
      at_label m (λ e, match e with Restart => retrying fuel m | e => leave e end)
  end.

(** ** Random data *)

(** [buf[ MakeAlphaString(lo, hi, buf) ] = 0] in a buffer of [size] bytes; the
    text is what [strlen] delimits. *)
Definition alpha (size : nat) (lo hi : Z) : lprog cstr :=
  '(n, buf) ← rnd (MakeAlphaString lo hi (replicate size zero));
  buf ← arr_set buf n zero;
  mret (cstring_of buf).

Definition digits (size : nat) (lo hi : Z) : lprog cstr :=
  '(n, buf) ← rnd (MakeNumberString lo hi (replicate size zero));
  buf ← arr_set buf n zero;
  mret (cstring_of buf).

Definition address : Type := cstr * cstr * cstr * cstr * cstr.

Definition MakeAddress : lprog address :=
  str1 ← alpha 21 10 20;
  str2 ← alpha 21 10 20;
  city ← alpha 21 10 20;
  state ← alpha 3 2 2;
  zip ← digits 10 9 9;
  mret (str1, str2, city, state, zip).

(** Text of 26 to 50 characters, with the word original written over a part of
    it when [orig] is set. *)
Definition data_text (orig : bool) : lprog cstr :=
  '(n, buf) ← rnd (MakeAlphaString 26 50 (replicate 51 zero));
  buf ← arr_set buf n zero;
  buf ← (if orig then
           pos ← rnd (RandomNumber 0 (n - 8));
           buf ← arr_set buf pos "o"%char;
           buf ← arr_set buf (pos + 1) "r"%char;
           buf ← arr_set buf (pos + 2) "i"%char;
           buf ← arr_set buf (pos + 3) "g"%char;
           buf ← arr_set buf (pos + 4) "i"%char;
           buf ← arr_set buf (pos + 5) "n"%char;
           buf ← arr_set buf (pos + 6) "a"%char;
           arr_set buf (pos + 7) "l"%char
         else mret buf);
  mret (cstring_of buf).

(** [((int) r) / 100.0] and [((float) r) / 100.0], stored in a float. *)
Definition int_hundredths (r : Z) : float32 :=
  f32_of_f64 (f64_div (f64_of_Z r) (f64_of_Z 100)).
Definition float_hundredths (r : Z) : float32 :=
  f32_of_f64 (f64_div (f64_of_f32 (f32_of_Z r)) (f64_of_Z 100)).

(** The array [orig]: its first tenth is cleared, the rest is what was there;
    then a tenth of the cells is set. *)
Definition orig_start : list Z :=
  map (λ i, if i <? MAXITEMS / 10 then 0 else orig_slots i) (seqZ 0 (MAXITEMS + 1)).

Fixpoint draw_unmarked (fuel : nat) (orig : list Z) : lprog Z :=
  match fuel with
  | O => leave (LoadFault OutOfFuel)
  | S fuel =>
      pos ← rnd (RandomNumber 0 MAXITEMS);
      x ← arr_get orig pos;
      if negb (x =? 0) then draw_unmarked fuel orig else mret pos
  end.

Definition mark_originals (fuel : nat) : lprog (list Z) :=
  for_lt 0 (MAXITEMS / 10) (λ _ orig,
    pos ← draw_unmarked fuel orig;
    arr_set orig pos 1) orig_start.

(** ** The tables *)

Definition load_item (orig : list Z) (i_id : Z) : lprog unit :=
  i_im_id ← rnd (RandomNumber 1 10000);
  i_name ← alpha 25 14 24;
  p ← rnd (RandomNumber 100 10000);
  let i_price := int_hundredths p in
  o ← arr_get orig i_id;
  i_data ← data_text (negb (o =? 0));
  insert L0 [VInt i_id; VInt i_im_id; VStr i_name; VFloat i_price; VStr i_data].

Definition LoadItems (fuel : nat) : lprog unit :=
  orig ← mark_originals fuel;
  retrying fuel (
    for_lt 1 (MAXITEMS + 1) (λ i_id _, load_item orig i_id) tt;;
    commit).

Definition stock_item (s_w_id : Z) (orig : list Z) (s_i_id : Z) : lprog unit :=
  s_quantity ← rnd (RandomNumber 10 100);
  s_01 ← alpha 25 24 24; s_02 ← alpha 25 24 24; s_03 ← alpha 25 24 24;
  s_04 ← alpha 25 24 24; s_05 ← alpha 25 24 24; s_06 ← alpha 25 24 24;
  s_07 ← alpha 25 24 24; s_08 ← alpha 25 24 24; s_09 ← alpha 25 24 24;
  s_10 ← alpha 25 24 24;
  o ← arr_get orig s_i_id;
  s_data ← data_text (negb (o =? 0));
  insert L2 [VInt s_i_id; VInt s_w_id; VInt s_quantity; VStr s_01; VStr s_02; VStr s_03;
    VStr s_04; VStr s_05; VStr s_06; VStr s_07; VStr s_08; VStr s_09; VStr s_10; VStr s_data].

(** Non zero when a statement failed. *)
Definition Stock (fuel : nat) (w_id : Z) : lprog bool :=
  orig ← mark_originals fuel;
  at_label
    (for_lt 1 (MAXITEMS + 1) (λ s_i_id _, stock_item w_id orig s_i_id) tt;; mret false)
    (λ e, match e with Restart => mret true | e => leave e end).

Definition district_item (d_w_id d_id : Z) : lprog unit :=
  d_name ← alpha 11 6 10;
  '(d_street_1, d_street_2, d_city, d_state, d_zip) ← MakeAddress;
  t ← rnd (RandomNumber 10 20);
  let d_tax := float_hundredths t in
  insert L3 [VInt d_id; VInt d_w_id; VStr d_name; VStr d_street_1; VStr d_street_2;
    VStr d_city; VStr d_state; VStr d_zip; VFloat d_tax; VFloat (f32_of_Z 30000); VInt 3001].

Definition District (w_id : Z) : lprog bool :=
  at_label
    (for_lt 1 (DIST_PER_WARE + 1) (λ d_id _, district_item w_id d_id) tt;; mret false)
    (λ e, match e with Restart => mret true | e => leave e end).

Definition load_ware (fuel : nat) (w_id : Z) : lprog unit :=
  w_name ← alpha 11 6 10;
  '(w_street_1, w_street_2, w_city, w_state, w_zip) ← MakeAddress;
  t ← rnd (RandomNumber 10 20);
  let w_tax := float_hundredths t in
  insert L1 [VInt w_id; VStr w_name; VStr w_street_1; VStr w_street_2; VStr w_city;
    VStr w_state; VStr w_zip; VFloat w_tax; VFloat (f32_of_Z 3000000)];;
  e ← Stock fuel w_id;
  (if e : bool then leave Restart else mret tt);;
  e ← District w_id;
  (if e : bool then leave Restart else mret tt);;
  commit.

(** A restart resumes with the warehouse that failed. *)
Definition LoadWare (fuel : nat) : lprog unit :=
  for_lt min_ware (max_ware + 1) (λ w_id _, retrying fuel (load_ware fuel w_id)) tt.

Definition customer_item (d_id w_id c_id : Z) : lprog unit :=
  c_first ← alpha 17 8 16;
  n ← (if c_id <=? 1000 then mret (c_id - 1) else rnd (NURand 255 0 999));
  c_last ← rnd (Lastname n);
  '(c_street_1, c_street_2, c_city, c_state, c_zip) ← MakeAddress;
  c_phone ← digits 17 16 16;
  g ← rnd (RandomNumber 0 1);
  let c_credit := if negb (g =? 0) then lit "GC" else lit "BC" in
  x ← rnd (RandomNumber 0 50);
  let c_discount := float_hundredths x in
  c_data ← alpha 501 300 500;
  insert L4 [VInt c_id; VInt d_id; VInt w_id; VStr c_first; VStr (lit "OE"); VStr c_last;
    VStr c_street_1; VStr c_street_2; VStr c_city; VStr c_state; VStr c_zip; VStr c_phone;
    VStr timestamp; VStr c_credit; VInt 50000; VFloat c_discount; VFloat (f32_of_Z (-10));
    VStr c_data];;
  h_data ← alpha 25 12 24;
  insert L5 [VInt c_id; VInt d_id; VInt w_id; VInt d_id; VInt w_id; VStr timestamp;
    VFloat (f32_of_Z 10); VStr h_data].

Definition Customer (fuel : nat) (d_id w_id : Z) : lprog unit :=
  retrying fuel (
    for_lt 1 (CUST_PER_DIST + 1) (λ c_id _, customer_item d_id w_id c_id) tt;;
    commit).

Definition LoadCust (fuel : nat) : lprog unit :=
  for_lt min_ware (max_ware + 1) (λ w_id _,
    for_lt 1 (DIST_PER_WARE + 1) (λ d_id _, Customer fuel d_id w_id) tt) tt;;
  commit.

Definition order_line_item (o_d_id o_w_id o_id ol : Z) : lprog unit :=
  ol_i_id ← rnd (RandomNumber 1 MAXITEMS);
  ol_dist_info ← alpha 25 24 24;
  t ← rnd (RandomNumber 10 10000);
  let tmp_float := float_hundredths t in
  if 2100 <? o_id then
    insert L9 [VInt o_id; VInt o_d_id; VInt o_w_id; VInt ol; VInt ol_i_id; VInt o_w_id;
      VInt 5; VFloat (S754_zero false); VStr ol_dist_info]
  else
    insert L10 [VInt o_id; VInt o_d_id; VInt o_w_id; VInt ol; VInt ol_i_id; VInt o_w_id;
      VStr timestamp; VInt 5; VFloat tmp_float; VStr ol_dist_info].

Definition order_item (o_d_id o_w_id o_id : Z) : lprog unit :=
  o_c_id ← rnd GetPermutation;
  o_carrier_id ← rnd (RandomNumber 1 10);
  o_ol_cnt ← rnd (RandomNumber 5 15);
  (if 2100 <? o_id then
     insert L6 [VInt o_id; VInt o_d_id; VInt o_w_id; VInt o_c_id; VStr timestamp;
       VInt o_ol_cnt];;
     insert L7 [VInt o_id; VInt o_d_id; VInt o_w_id]
   else
     insert L8 [VInt o_id; VInt o_d_id; VInt o_w_id; VInt o_c_id; VStr timestamp;
       VInt o_carrier_id; VInt o_ol_cnt]);;
  for_lt 1 (o_ol_cnt + 1) (λ ol _, order_line_item o_d_id o_w_id o_id ol) tt.

Definition Orders (fuel : nat) (d_id w_id : Z) : lprog unit :=
  retrying fuel (
    rnd InitPermutation;;
    for_lt 1 (ORD_PER_DIST + 1) (λ o_id _, order_item d_id w_id o_id) tt;;
    commit).

Definition LoadOrd (fuel : nat) : lprog unit :=
  for_lt min_ware (max_ware + 1) (λ w_id _,
    for_lt 1 (DIST_PER_WARE + 1) (λ d_id _, Orders fuel d_id w_id) tt) tt;;
  commit.

(** The end of [main]: all the tables, or in particle mode one part. *)
Definition load_main (fuel : nat) (particle : option Z) : lprog unit :=
  match particle with
  | None => LoadItems fuel;; LoadWare fuel;; LoadCust fuel;; LoadOrd fuel
  | Some part_no =>
      if part_no =? 1 then LoadItems fuel
      else if part_no =? 2 then LoadWare fuel
      else if part_no =? 3 then LoadCust fuel
      else if part_no =? 4 then LoadOrd fuel
      else mret tt
  end;;
  commit.
End load.
