(* ===== verification/TpccLoadOrders.v ===== *)
(** * tpcc-mysql: load.c, the order tables are loaded consistently

    Hoare rules for the loader, the orders of a district, and the theorem that
    [LoadOrd] on a database with warehouses, districts, customers and stock ends
    in a consistent database. *)

From Stdlib Require Import ZArith Lia SpecFloat Ascii String.
From stdpp Require Import base gmap list strings sorting numbers.
From S2P Require Import Prelude CFloat TpccSupport TpccSql TpccTx TpccInvariant.
From S2P Require Import TpccMemDb TpccSample TpccNeword TpccLoad.

(** ** Rules *)

Section load_rules.
Context {conn : Type} {Sv : SqlServer} {Api : MySQL conn} {Laws : MySQLLaws conn}
  {Rs : RandSource} {St : StackSlots}.

Abbreviation lprog := (prog load_exit (loader conn)).

(** Once there was trouble, there was. *)
Definition in_trouble (l : loader conn) : Prop := trouble (ld_conn l).
Definition lost (e : load_exit) (l : loader conn) : Prop := in_trouble l.

Abbreviation stable := (keeps in_trouble).

Lemma stable_rnd {A} (m : cprog A) : stable (rnd m).
Proof.
  intros l Hl. unfold rnd, zoom. destruct (m (ld_support l)) as [[a|f] s]; done.
Qed.
Lemma stable_call (f : conn → bool * conn) :
  (∀ c rc c', f c = (rc, c') → trouble c → trouble c') → stable (call f).
Proof.
  intros Hf l Hl. unfold call. destruct (f (ld_conn l)) as [rc c] eqn:E. simpl.
  by eapply Hf.
Qed.
Lemma stable_bind_param s ps : stable (call (stmt_bind_param s ps)).
Proof. apply stable_call. intros c rc c' E. by apply law_bind_param in E as (_ & _ & _ & H & _). Qed.
Lemma stable_execute s : stable (call (stmt_execute s)).
Proof. apply stable_call. intros c rc c' E. by apply law_execute in E as (_ & _ & H & _). Qed.
Lemma stable_commit : stable (call mysql_commit).
Proof. apply stable_call. intros c rc c' E. by apply law_commit in E as (H & _). Qed.
Lemma stable_rollback : stable (call mysql_rollback).
Proof. apply stable_call. intros c rc c' E. by apply law_rollback in E as (_ & H & _). Qed.
Lemma stable_retrying (fuel : nat) (m : lprog unit) : stable m → stable (retrying fuel m).
Proof.
  intros Hm. induction fuel as [|fuel IH]; [apply keeps_leave|]. simpl.
  apply keeps_label; [done|]. intros [f|]; [apply keeps_leave|apply IH].
Qed.
End load_rules.

#[export] Hint Resolve stable_rnd stable_bind_param stable_execute stable_commit
  stable_rollback stable_retrying : keepdb.

Section load_steps.
Context {conn : Type} {Sv : SqlServer} {Api : MySQL conn} {Laws : MySQLLaws conn}
  {Rs : RandSource} {St : StackSlots} {Os : OrigSlots} {Opt : LoadOptions}.

Abbreviation lprog := (prog load_exit (loader conn)).

Abbreviation stable := (keeps (in_trouble (conn:=conn))).

Lemma stable_insert s ps : stable (insert (conn:=conn) s ps).
Proof. unfold insert, Error, try_stmt_execute. solve_keeps. Qed.
Lemma stable_commit_ : stable (commit (conn:=conn)).
Proof. unfold commit, Error. solve_keeps. Qed.

(** The view is [b], [k] is committed, and the random source is in [Φ]. *)
Definition lat (b k : db) (Φ : support → Prop) (l : loader conn) : Prop :=
  view (ld_conn l) = b ∧ durable (ld_conn l) = k ∧ Φ (ld_support l).

Lemma insert_step {A} s ps b k b' Φ (m : lprog A) Q :
  sql_update s ps b = Some b' →
  triple (lat b' k Φ) m Q lost →
  triple (lat b k Φ) (insert s ps;; m) Q lost.
Proof.
  intros Hu Hm. apply (triple_bind _ _ (λ _, lat b' k Φ)); [|done].
  intros [sp c] (Hv & Hd & HΦ). simpl in *.
  unfold insert, call, mbind, prog_bind. simpl.
  destruct (stmt_bind_param s ps c) as [rc c1] eqn:E1.
  destruct (law_bind_param _ _ _ _ _ E1) as (Hv1 & Hd1 & _ & _ & Hb).
  destruct rc; simpl.
  { unfold Error, call, mbind, prog_bind, leave. simpl.
    destruct (mysql_rollback c1) as [rc c2] eqn:E2.
    by apply law_rollback in E2 as (_ & H & _); apply H. }
  unfold try_stmt_execute, call, mbind, prog_bind. simpl.
  destruct (stmt_execute s c1) as [rc c2] eqn:E2.
  destruct (law_execute _ _ _ _ E2) as (Hd2 & _ & _ & Hx). specialize (Hx _ Hb).
  rewrite Hv1, Hv in Hx. destruct rc; simpl.
  - destruct (mysql_rollback c2) as [rc c3] eqn:E3. simpl.
    apply law_rollback in E3 as (_ & H & _). apply H. by destruct Hx as [|Hn]; [|congruence].
  - destruct Hx as [_ Hx]. split_and!; simpl; congruence.
Qed.

Lemma commit_step_ {A} b k Φ (m : lprog A) Q :
  triple (lat b b Φ) m Q lost → triple (lat b k Φ) (commit;; m) Q lost.
Proof.
  intros Hm. apply (triple_bind _ _ (λ _, lat b b Φ)); [|done].
  intros [sp c] (Hv & Hd & HΦ). simpl in *. unfold commit, call, mbind, prog_bind. simpl.
  destruct (mysql_commit c) as [rc c1] eqn:E1. destruct (law_commit _ _ _ E1) as [_ Hc].
  destruct rc; simpl.
  - unfold Error, call, mbind, prog_bind, leave. simpl.
    destruct (mysql_rollback c1) as [rc c2] eqn:E2.
    apply law_rollback in E2 as (_ & H & _). apply H. by destruct Hc.
  - destruct Hc as [Hc1 Hc2]. split_and!; simpl; congruence.
Qed.

(** A random draw that completes and keeps [Φ]. *)
Lemma rnd_step {A B} (f : cprog A) (P : A → Prop) b k (Φ Ψ : support → Prop)
    (m : A → lprog B) Q :
  (∀ s, Φ s → ∃ a s', f s = (Done a, s') ∧ P a ∧ Ψ s') →
  (∀ a, P a → triple (lat b k Ψ) (m a) Q lost) →
  triple (lat b k Φ) (x ← rnd f; m x) Q lost.
Proof.
  intros Hf Hm [sp c] (Hv & Hd & HΦ). simpl in *.
  destruct (Hf sp HΦ) as (a & s' & E & Ha & Hs).
  unfold mbind, prog_bind, rnd, zoom. simpl. rewrite E. apply (Hm a Ha). by split_and!.
Qed.

(** The permutation and the place in it. *)
Definition perm_at (p : list Z) (n : Z) (s : support) : Prop :=
  nums s = p ∧ perm_count s = n.

Lemma random_step {B} (lo hi : Z) b k p n (m : Z → lprog B) Q :
  INT_MIN ≤ lo → lo ≤ hi ≤ INT_MAX → hi - lo < INT_MAX →
  (∀ v, lo ≤ v ≤ hi → triple (lat b k (perm_at p n)) (m v) Q lost) →
  triple (lat b k (perm_at p n)) (x ← rnd (RandomNumber lo hi); m x) Q lost.
Proof.
  intros H1 H2 H3 Hm. eapply rnd_step; [|exact Hm].
  intros s [Hp Hn]. destruct (RandomNumber_range_run lo hi s H1 H2 H3) as (v & Hv & E).
  do 2 eexists. split; [exact E|]. split; [done|]. by split.
Qed.

(** A random text. *)
Lemma alpha_step {B} (size : nat) (lo hi : Z) b k p n (m : cstr → lprog B) Q :
  0 ≤ lo ≤ hi → hi < Z.of_nat size → hi < INT_MAX →
  (∀ t, triple (lat b k (perm_at p n)) (m t) Q lost) →
  triple (lat b k (perm_at p n)) (x ← alpha size lo hi; m x) Q lost.
Proof.
  intros H1 H2 H3 Hm. unfold alpha. apply triple_assoc.
  eapply (rnd_step _ (λ x : Z * list ascii, lo ≤ x.1 ≤ hi ∧ length x.2 = size) _ _ _
    (perm_at p n)).
  - intros s [Hp Hn]. unfold MakeAlphaString.
    destruct (RandomNumber_range_run lo hi s) as (len & Hlen & E); [unfold INT_MIN; lia|lia|lia|].
    rewrite (bind_done _ _ _ _ _ E).
    edestruct (fill_random_run alphanum 61 len (replicate size zero))
      as (str' & s' & E' & Hl & _ & _ & Hns & Hpc & _); [unfold INT_MAX; lia|done| |].
    { rewrite length_replicate. lia. }
    rewrite (bind_done _ _ _ _ _ E'). do 2 eexists. split; [reflexivity|].
    rewrite length_replicate in Hl. unfold perm_at. simpl in *. split_and!; try lia; congruence.
  - intros [len buf] [Hlen Hl]. simpl in *. rewrite arr_set_ok by lia. apply Hm.
Qed.

Lemma retrying_rule (fuel : nat) (m : lprog unit) (P : loader conn → Prop) Q :
  stable m → triple P m Q lost →
  triple P (retrying fuel m) (λ a l, Q a l ∨ in_trouble l)
    (λ e l, in_trouble l ∨ fuel = 0%nat).
Proof.
  intros Hs Hm l HP. destruct fuel as [|fuel]; simpl; [by right|]. unfold at_label.
  specialize (Hm l HP). destruct (m l) as [[a|e] l']; [by left|].
  destruct e as [f|]; [by left|].
  pose proof (stable_retrying fuel m Hs l' Hm) as Hr.
  destruct (retrying fuel m l') as [[a|e] l'']; [by right|by left].
Qed.
End load_steps.

(** ** The content of the order tables *)

(** The tables the order loader does not write. *)
Definition same_base (k b : db) : Prop :=
  warehouse b = warehouse k ∧ district b = district k ∧ customer b = customer k ∧
  history b = history k ∧ item b = item k ∧ stock b = stock k.

(** Nothing is stored about order [o] ... *)
Definition order_absent (b : db) (w d o : Z) : Prop :=
  orders b !! (w, d, o) = None ∧ ((w, d, o) ∉ new_orders b) ∧
  ∀ n, order_line b !! (w, d, o, n) = None.

(** ... or all of it: the customer the permutation [p] assigns to it, 5 to 15
    lines of stocked items, and, for the last 900 orders of a district only, the
    entry in new_orders instead of a carrier and delivery dates. *)
Definition line_ok (w o : Z) (l : order_line_row) : Prop :=
  1 ≤ ol_i_id l ≤ MAXITEMS ∧ ol_supply_w_id l = w ∧ (ol_delivery_d l = None ↔ 2100 < o).

Definition order_loaded (p : list Z) (b : db) (w d o : Z) : Prop :=
  ∃ r, orders b !! (w, d, o) = Some r ∧
    p !! Z.to_nat (o - 1) = Some (o_c_id r) ∧ 5 ≤ o_ol_cnt r ≤ 15 ∧
    (o_carrier_id r = None ↔ 2100 < o) ∧
    ((w, d, o) ∈ new_orders b ↔ 2100 < o) ∧
    ∀ n, match order_line b !! (w, d, o, n) with
         | Some l => 1 ≤ n ≤ o_ol_cnt r ∧ line_ok w o l
         | None => ¬ 1 ≤ n ≤ o_ol_cnt r
         end.

(** [b] and [b'] agree about order [o]. *)
Definition same_order (b b' : db) (w d o : Z) : Prop :=
  orders b' !! (w, d, o) = orders b !! (w, d, o) ∧
  ((w, d, o) ∈ new_orders b' ↔ (w, d, o) ∈ new_orders b) ∧
  ∀ n, order_line b' !! (w, d, o, n) = order_line b !! (w, d, o, n).

Lemma order_absent_same b b' w d o :
  same_order b b' w d o → order_absent b w d o → order_absent b' w d o.
Proof.
  intros (H1 & H2 & H3) (A1 & A2 & A3). split_and!; [congruence|by rewrite H2|].
  intros n. by rewrite H3.
Qed.

Lemma order_loaded_same p b b' w d o :
  same_order b b' w d o → order_loaded p b w d o → order_loaded p b' w d o.
Proof.
  intros (H1 & H2 & H3) (r & Hr & Hp & Hc & Hk & Hn & Hl). exists r.
  rewrite H1, H2. split_and!; try done; try tauto. intros n. rewrite H3. apply Hl.
Qed.

Lemma same_order_trans b1 b2 b3 w d o :
  same_order b1 b2 w d o → same_order b2 b3 w d o → same_order b1 b3 w d o.
Proof.
  intros (H1 & H2 & H3) (A1 & A2 & A3). split_and!; [congruence|by rewrite A2|].
  intros n. by rewrite A3.
Qed.

(** Order [o] of [b0] entered with row [r] and its lines below [m]. *)
Definition entering (b0 : db) (w d o : Z) (r : order_row) (m : Z) (b : db) : Prop :=
  same_base b0 b ∧
  (∀ w' d' o', (w', d', o') ≠ (w, d, o) → same_order b0 b w' d' o') ∧
  orders b !! (w, d, o) = Some r ∧ ((w, d, o) ∈ new_orders b ↔ 2100 < o) ∧
  ∀ n, match order_line b !! (w, d, o, n) with
       | Some l => 1 ≤ n < m ∧ line_ok w o l
       | None => ¬ 1 ≤ n < m
       end.

Lemma entering_line b0 w d o r m b l :
  entering b0 w d o r m b → 1 ≤ m → line_ok w o l →
  order_line b !! (w, d, o, m) = None ∧
  entering b0 w d o r (m + 1) (set_order_line (<[(w, d, o, m) := l]> (order_line b)) b).
Proof.
  intros (Hb & Ho & Hr & Hn & Hl) Hm Hok. split.
  { specialize (Hl m). destruct (order_line b !! (w, d, o, m)); [|done]. lia. }
  split_and!; try done.
  - intros w' d' o' Hne. destruct (Ho w' d' o' Hne) as (H1 & H2 & H3).
    split_and!; [done|done|]. intros n. simpl. rewrite lookup_insert_ne by congruence. apply H3.
  - intros n. simpl. destruct (decide (n = m)) as [-> |Hne].
    + rewrite lookup_insert_eq. split; [lia|done].
    + rewrite lookup_insert_ne by congruence. specialize (Hl n).
      destruct (order_line b !! (w, d, o, n)); [destruct Hl; split; [lia|done]|lia].
Qed.

Lemma entering_start b0 w d o r (b : db) :
  order_absent b0 w d o →
  b = set_new_orders (if 2100 <? o then {[(w, d, o)]} ∪ new_orders b0 else new_orders b0)
        (set_orders (<[(w, d, o) := r]> (orders b0)) b0) →
  entering b0 w d o r 1 b.
Proof.
  intros (A1 & A2 & A3) ->. split_and!; try done; simpl.
  - intros w' d' o' Hne. split_and!; simpl; [by rewrite lookup_insert_ne| |done].
    case_match; [|done]. set_solver.
  - apply lookup_insert_eq.
  - destruct (Z.ltb_spec 2100 o); [set_solver|]. split; [done|lia].
  - intros n. rewrite A3. lia.
Qed.

Lemma entering_done p b0 w d o r b :
  entering b0 w d o r (o_ol_cnt r + 1) b → p !! Z.to_nat (o - 1) = Some (o_c_id r) →
  5 ≤ o_ol_cnt r ≤ 15 → (o_carrier_id r = None ↔ 2100 < o) → order_loaded p b w d o.
Proof.
  intros (_ & _ & Hr & Hn & Hl) Hp Hc Hk. exists r. split_and!; try done; try tauto; try lia.
  intros n. specialize (Hl n). destruct (order_line b !! (w, d, o, n)); [|lia].
  destruct Hl. split; [lia|done].
Qed.

(** The orders of district [(w, d)] below [o] are loaded, the rest of the
    database is [k]. *)
Definition loaded_below (k : db) (w d : Z) (p : list Z) (o : Z) (b : db) : Prop :=
  same_base k b ∧
  (∀ w' d' o', (w', d') ≠ (w, d) ∨ ¬ 1 ≤ o' < o → same_order k b w' d' o') ∧
  ∀ o', 1 ≤ o' < o → order_loaded p b w d o'.

Lemma loaded_below_start k w d p : loaded_below k w d p 1 k.
Proof. split_and!; [by repeat split|by repeat split|lia]. Qed.

Lemma loaded_below_next k w d p o b r b' :
  1 ≤ o → loaded_below k w d p o b → entering b w d o r (o_ol_cnt r + 1) b' →
  p !! Z.to_nat (o - 1) = Some (o_c_id r) → 5 ≤ o_ol_cnt r ≤ 15 →
  (o_carrier_id r = None ↔ 2100 < o) → loaded_below k w d p (o + 1) b'.
Proof.
  intros Ho (Hb & Hs & Hl) Hent Hp Hc Hk. pose proof Hent as (Hb' & Hs' & _).
  split_and!.
  - unfold same_base in *. intuition congruence.
  - intros w' d' o' Hne. assert ((w', d', o') ≠ (w, d, o)).
    { intros [= -> -> ->]. destruct Hne; [congruence|lia]. }
    eapply same_order_trans; [apply Hs|by apply Hs']. destruct Hne; [by left|right; lia].
  - intros o' Ho'. destruct (decide (o' = o)) as [-> |Hne].
    + by eapply entering_done.
    + eapply order_loaded_same; [apply Hs'; congruence|apply Hl; lia].
Qed.

(** ** The loader fills them *)

Section orders.
Context {conn : Type} {Sv : SqlServer} {Api : MySQL conn} {Laws : MySQLLaws conn}
  {Rs : RandSource} {St : StackSlots} {Os : OrigSlots} {Opt : LoadOptions}.

Abbreviation lprog := (prog load_exit (loader conn)).
Abbreviation stable := (keeps (in_trouble (conn:=conn))).

(** The view is some database in [I]. *)
Definition lsome (I : db → Prop) (k : db) (Φ : support → Prop) (l : loader conn) : Prop :=
  ∃ b, I b ∧ lat b k Φ l.

Lemma lsome_elim {A} I k Φ (m : lprog A) Q E :
  (∀ b, I b → triple (lat b k Φ) m Q E) → triple (lsome I k Φ) m Q E.
Proof. intros H. apply triple_exists. intros b. apply triple_pure. apply H. Qed.

(** The last statement of a sequence. *)
Lemma insert_last s ps b k b' (I : db → Prop) Φ :
  sql_update s ps b = Some b' → I b' →
  triple (lat b k Φ) (insert (conn:=conn) s ps) (λ _, lsome I k Φ) lost.
Proof.
  intros Hu HI l Hl.
  pose proof (insert_step s ps b k b' Φ (mret tt) (λ _, lsome I k Φ) Hu) as H.
  specialize (H ltac:(intros l' Hl'; by exists b') l Hl). unfold mbind, prog_bind in H.
  by destruct (insert s ps l) as [[[]|e] l'].
Qed.

Lemma order_line_item_rule b0 w d o r m b k p n :
  entering b0 w d o r m b → 1 ≤ m →
  triple (lat b k (perm_at p n)) (order_line_item (conn:=conn) d w o m)
    (λ _, lsome (entering b0 w d o r (m + 1)) k (perm_at p n)) lost.
Proof.
  intros Hent Hm. unfold order_line_item.
  apply random_step; [intbounds..|]. intros i Hi.
  apply alpha_step; [intbounds..|]. intros info.
  apply random_step; [intbounds..|]. intros t _. cbv zeta.
  destruct (Z.ltb_spec 2100 o) as [Ho|Ho].
  - edestruct (entering_line b0 w d o r m b
      (OrderLineRow i w None 5 (dec_of_float (S754_zero false)) info)) as [Hfree Hnext];
      [done|done|split; simpl; [lia|done]|].
    eapply insert_last; [|exact Hnext]. simpl. unfold insert_row. by rewrite Hfree.
  - edestruct (entering_line b0 w d o r m b
      (OrderLineRow i w (Some timestamp) 5 (dec_of_float (float_hundredths t)) info))
      as [Hfree Hnext]; [done|done|split; simpl; [lia|split; [done|split; [done|lia]]]|].
    eapply insert_last; [|exact Hnext]. simpl. unfold insert_row. by rewrite Hfree.
Qed.

Lemma order_lines_rule b0 w d o r b k p n :
  entering b0 w d o r 1 b → 5 ≤ o_ol_cnt r →
  triple (lat b k (perm_at p n))
    (for_lt 1 (o_ol_cnt r + 1) (λ ol _, order_line_item (conn:=conn) d w o ol) tt)
    (λ _, lsome (entering b0 w d o r (o_ol_cnt r + 1)) k (perm_at p n)) lost.
Proof.
  intros Hent Hc.
  apply (triple_weaken _ (lsome (entering b0 w d o r 1) k (perm_at p n))); [|by exists b].
  apply (triple_for_lt (λ i (_ : unit), lsome (entering b0 w d o r i) k (perm_at p n))); [lia|].
  intros i _ Hi. apply lsome_elim. intros b1 H1. apply order_line_item_rule; [done|lia].
Qed.

(** The order row, and its entry in new_orders. *)
Lemma order_row_rule {A} b k w d o c cnt carrier Φ (m : lprog A) Q :
  order_absent b w d o →
  let r := OrderRow c timestamp (if 2100 <? o then None else Some carrier) cnt 1 in
  (∀ b', entering b w d o r 1 b' → triple (lat b' k Φ) m Q lost) →
  triple (lat b k Φ)
    ((if 2100 <? o then
        insert L6 [VInt o; VInt d; VInt w; VInt c; VStr timestamp; VInt cnt];;
        insert L7 [VInt o; VInt d; VInt w]
      else
        insert L8 [VInt o; VInt d; VInt w; VInt c; VStr timestamp; VInt carrier; VInt cnt]);;
     m) Q lost.
Proof.
  intros Habs r Hm. pose proof Habs as (A1 & A2 & A3).
  specialize (Hm _ (entering_start b w d o r _ Habs eq_refl)).
  unfold r in *. clear r. destruct (2100 <? o).
  - apply triple_assoc.
    eapply insert_step; [simpl; unfold insert_row; by rewrite A1|].
    eapply insert_step; [simpl; by rewrite decide_False|exact Hm].
  - eapply insert_step; [simpl; unfold insert_row; by rewrite A1|].
    simpl in Hm. unfold set_new_orders, set_orders in *. simpl in *. exact Hm.
Qed.

Lemma perm_step {B} b k p n v (m : Z → lprog B) Q :
  0 ≤ n < ORD_PER_DIST → p !! Z.to_nat n = Some v →
  triple (lat b k (perm_at p (n + 1))) (m v) Q lost →
  triple (lat b k (perm_at p n)) (x ← rnd GetPermutation; m x) Q lost.
Proof.
  intros Hn Hv Hm. eapply (rnd_step _ (λ x, x = v) _ _ _ (perm_at p (n + 1))).
  - intros s [Hp Hc]. do 2 eexists. rewrite (GetPermutation_run s v) by congruence.
    split; [reflexivity|]. split; [done|]. split; simpl; congruence.
  - by intros ? ->.
Qed.

Lemma order_item_rule k0 w d p o k :
  1 ≤ o ≤ ORD_PER_DIST → Z.of_nat (length p) = ORD_PER_DIST →
  (∀ o, order_absent k0 w d o) →
  triple (lsome (loaded_below k0 w d p o) k (perm_at p (o - 1)))
    (order_item (conn:=conn) d w o)
    (λ _, lsome (loaded_below k0 w d p (o + 1)) k (perm_at p (o + 1 - 1))) lost.
Proof.
  intros Ho Hlen Habs. apply lsome_elim. intros b Hb. unfold order_item.
  destruct (lookup_lt_is_Some_2 p (Z.to_nat (o - 1))) as [c Hc]; [lia|].
  eapply perm_step; [lia|exact Hc|].
  apply random_step; [intbounds..|]. intros carrier _.
  apply random_step; [intbounds..|]. intros cnt Hcnt.
  apply order_row_rule.
  { eapply order_absent_same; [apply Hb; right; lia|apply Habs]. }
  intros b1 H1. eapply triple_ends; [apply (order_lines_rule _ _ _ _ _ _ _ _ _ H1); simpl; lia| |done].
  intros _ l (b2 & H2 & Hat). exists b2. split.
  - eapply loaded_below_next; [lia|done|exact H2|done|done|]. simpl.
    destruct (Z.ltb_spec 2100 o); split; lia || done.
  - by replace (o + 1 - 1) with (o - 1 + 1) by lia.
Qed.

Lemma init_step {A} b k (m : lprog A) Q :
  (∀ p, p ≡ₚ seqZ 1 ORD_PER_DIST → triple (lat b k (perm_at p 0)) m Q lost) →
  triple (lat b k support_ok) (rnd InitPermutation;; m) Q lost.
Proof.
  intros Hm [sp c] (Hv & Hd & Hok). simpl in *.
  destruct (InitPermutation_run sp Hok) as (s' & E & Hpc & Hinv & _).
  unfold mbind, prog_bind, rnd, zoom. simpl. rewrite E.
  apply (Hm (nums s') Hinv). by split_and!.
Qed.

(** One pass over a district without trouble. *)
Lemma orders_pass_rule k w d :
  (∀ o, order_absent k w d o) →
  triple (lat k k support_ok)
    (rnd InitPermutation;;
     for_lt 1 (ORD_PER_DIST + 1) (λ o_id _, order_item (conn:=conn) d w o_id) tt;;
     commit)
    (λ _ l, ∃ b p, p ≡ₚ seqZ 1 ORD_PER_DIST ∧ loaded_below k w d p (ORD_PER_DIST + 1) b ∧
       lat b b support_ok l) lost.
Proof.
  intros Habs. apply init_step. intros p Hp.
  assert (Z.of_nat (length p) = ORD_PER_DIST) as Hlen.
  { rewrite Hp, length_seqZ. done. }
  eapply (triple_bind _ _ (λ _, lsome (loaded_below k w d p (ORD_PER_DIST + 1)) k
    (perm_at p (ORD_PER_DIST + 1 - 1)))).
  - apply (triple_weaken _ (lsome (loaded_below k w d p 1) k (perm_at p (1 - 1)))).
    + apply (triple_for_lt (λ i (_ : unit), lsome (loaded_below k w d p i) k
        (perm_at p (i - 1)))); [done|].
      intros o _ Ho. apply order_item_rule; [lia|done|done].
    + intros l Hl. exists k. split; [|done]. apply loaded_below_start.
  - intros _. apply lsome_elim. intros b Hb l Hl.
    pose proof (commit_step_ b k (perm_at p (ORD_PER_DIST + 1 - 1)) (mret tt)
      (λ _, lat b b (perm_at p (ORD_PER_DIST + 1 - 1)))
      ltac:(intros l' Hl'; exact Hl') l Hl) as H.
    unfold mbind, prog_bind in H. destruct (commit l) as [[[]|e] l']; [|done].
    exists b, p. split_and!; try done. destruct H as (? & ? & [Hn _]).
    split_and!; [done|done|]. unfold support_ok. rewrite Hn. done.
Qed.

Lemma stable_alpha size lo hi : stable (alpha (conn:=conn) size lo hi).
Proof. unfold alpha. solve_keeps. Qed.

Lemma stable_order_item d w o : stable (order_item (conn:=conn) d w o).
Proof.
  unfold order_item, order_line_item. solve_keeps; auto using stable_insert, stable_alpha with keepdb.
Qed.

Lemma stable_orders_pass d w :
  stable (rnd InitPermutation;;
    for_lt 1 (ORD_PER_DIST + 1) (λ o_id _, order_item (conn:=conn) d w o_id) tt;; commit).
Proof. solve_keeps; auto using stable_order_item, stable_commit_ with keepdb. Qed.

Lemma stable_Orders fuel d w : stable (Orders (conn:=conn) fuel d w).
Proof. apply stable_retrying, stable_orders_pass. Qed.

(** A retry happens only after trouble, so without it the first pass is the
    only one. *)
Lemma Orders_rule fuel k w d :
  (∀ o, order_absent k w d o) →
  triple (lat k k support_ok) (Orders (conn:=conn) (S fuel) d w)
    (λ _ l, (∃ b p, p ≡ₚ seqZ 1 ORD_PER_DIST ∧ loaded_below k w d p (ORD_PER_DIST + 1) b ∧
       lat b b support_ok l) ∨ in_trouble l) lost.
Proof.
  intros Habs. unfold Orders.
  eapply triple_ends.
  - apply (retrying_rule (S fuel)); [apply stable_orders_pass|by apply orders_pass_rule].
  - done.
  - intros e l [H|H]; done.
Qed.
End orders.

(** ** All the districts *)

(** The orders 1 to 3000 of a district and no others. *)
Definition district_loaded (b : db) (w d : Z) : Prop :=
  ∃ p, p ≡ₚ seqZ 1 ORD_PER_DIST ∧
    (∀ o, 1 ≤ o ≤ ORD_PER_DIST → order_loaded p b w d o) ∧
    ∀ o, ¬ 1 ≤ o ≤ ORD_PER_DIST → order_absent b w d o.

(** The districts in [D] are loaded, the others have no orders, the rest is [k]. *)
Definition filled (k : db) (D : Z → Z → Prop) (b : db) : Prop :=
  same_base k b ∧ ∀ w d,
    (D w d → district_loaded b w d) ∧ (¬ D w d → ∀ o, order_absent b w d o).

Lemma filled_next k (D D' : Z → Z → Prop) w d p b b' :
  filled k D b → ¬ D w d → (∀ w' d', D' w' d' ↔ D w' d' ∨ (w', d') = (w, d)) →
  p ≡ₚ seqZ 1 ORD_PER_DIST → loaded_below b w d p (ORD_PER_DIST + 1) b' → filled k D' b'.
Proof.
  intros [Hb Hf] HD HD' Hp (Hb' & Hs & Hl). split.
  { unfold same_base in *. intuition congruence. }
  intros w' d'. rewrite HD'. destruct (decide ((w', d') = (w, d))) as [[= -> ->]|Hne].
  - split; [|tauto]. intros _. exists p. split; [done|]. split.
    + intros o Ho. apply Hl. lia.
    + intros o Ho. eapply order_absent_same; [apply Hs; right; lia|by apply Hf].
  - destruct (Hf w' d') as [Hin Hout]. split.
    + intros [H|H]; [|done]. destruct (Hin H) as (q & Hq & H1 & H2). exists q. split; [done|].
      split; intros o Ho.
      * eapply order_loaded_same; [apply Hs; by left|by apply H1].
      * eapply order_absent_same; [apply Hs; by left|by apply H2].
    + intros H o. eapply order_absent_same; [apply Hs; by left|]. apply Hout. tauto.
Qed.

(** The database the order loader starts from: the districts of the warehouses
    [lo] to [hi] with their 3000 customers and the next order number 3001, every
    item in stock, and no orders. *)
Record ready (lo hi : Z) (k : db) : Prop := {
  ready_district : ∀ w d dr, district k !! (w, d) = Some dr →
    lo ≤ w ≤ hi ∧ 1 ≤ d ≤ DIST_PER_WARE ∧ d_next_o_id dr = ORD_PER_DIST + 1 ∧
    is_Some (warehouse k !! w);
  ready_all : ∀ w d, lo ≤ w ≤ hi → 1 ≤ d ≤ DIST_PER_WARE → is_Some (district k !! (w, d));
  ready_customer : ∀ w d c, lo ≤ w ≤ hi → 1 ≤ d ≤ DIST_PER_WARE → 1 ≤ c ≤ CUST_PER_DIST →
    is_Some (customer k !! (w, d, c));
  ready_orders : ∀ w d o, order_absent k w d o;
  ready_stock : stocked k;
}.

Section filled.
Context (k b : db) (lo hi : Z).
Hypothesis Hk : ready lo hi k.
Hypothesis Hf : filled k (λ w d, lo ≤ w ≤ hi ∧ 1 ≤ d ≤ DIST_PER_WARE) b.

(** An order is there exactly when its district and number are in range. *)
Lemma filled_cases w d o :
  (lo ≤ w ≤ hi ∧ 1 ≤ d ≤ DIST_PER_WARE ∧ 1 ≤ o ≤ ORD_PER_DIST ∧
     ∃ p, p ≡ₚ seqZ 1 ORD_PER_DIST ∧ order_loaded p b w d o) ∨
  (¬ (lo ≤ w ≤ hi ∧ 1 ≤ d ≤ DIST_PER_WARE ∧ 1 ≤ o ≤ ORD_PER_DIST) ∧ order_absent b w d o).
Proof.
  destruct Hf as [_ Hall]. destruct (Hall w d) as [Hin Hout].
  destruct (decide (lo ≤ w ≤ hi ∧ 1 ≤ d ≤ DIST_PER_WARE)) as [HD|HD].
  - destruct (Hin HD) as (p & Hp & H1 & H2).
    destruct (decide (1 ≤ o ≤ ORD_PER_DIST)) as [Ho|Ho].
    + left. destruct HD. eauto 10.
    + right. split; [tauto|auto].
  - right. split; [tauto|auto].
Qed.

Lemma filled_orders w d o : is_Some (orders b !! (w, d, o)) ↔
  ∃ dr, district b !! (w, d) = Some dr ∧ 1 ≤ o < d_next_o_id dr.
Proof.
  destruct Hf as [(_ & -> & _) _].
  destruct (filled_cases w d o) as [(Hw & Hd & Ho & p & _ & r & Hr & _)|[Hn (A & _)]].
  - rewrite Hr. split; [|done]. intros _. destruct (ready_all _ _ _ Hk w d Hw Hd) as [dr Hdr].
    destruct (ready_district _ _ _ Hk _ _ _ Hdr) as (_ & _ & He & _). exists dr. rewrite He.
    split; [done|lia].
  - rewrite A. split; [by intros [? ?]|]. intros (dr & Hdr & Ho).
    destruct (ready_district _ _ _ Hk _ _ _ Hdr) as (? & ? & He & _). rewrite He in Ho.
    destruct Hn. split_and!; lia.
Qed.

Lemma filled_new w d o : (w, d, o) ∈ new_orders b ↔
  ∃ r, orders b !! (w, d, o) = Some r ∧ o_carrier_id r = None.
Proof.
  destruct (filled_cases w d o) as [(_ & _ & _ & p & _ & r & Hr & _ & _ & Hc & Hn & _)|
    [_ (A & B & _)]].
  - rewrite Hn, Hr. naive_solver.
  - split; [done|]. rewrite A. by intros (? & ? & _).
Qed.

Lemma filled_consistent : consistent b.
Proof.
  pose proof Hf as [(Hw & Hd & Hc & _ & Hi & Hs) _]. destruct (ready_stock _ _ _ Hk).
  constructor; auto using filled_orders, filled_new; try by rewrite ?Hw, ?Hi, ?Hs.
  - intros w d o o' Hin Hle Ho'.
    destruct (filled_cases w d o) as [(_ & _ & _ & p & _ & r & _ & _ & _ & _ & Hn & _)|
      [_ (_ & B & _)]]; [|done].
    destruct (filled_cases w d o') as [(_ & _ & _ & p' & _ & r' & _ & _ & _ & _ & Hn' & _)|
      [_ (A & _)]]; [|by rewrite A in Ho'; destruct Ho'].
    apply Hn'. apply Hn in Hin. lia.
  - intros w d o n. destruct (filled_cases w d o) as
      [(_ & _ & _ & p & _ & r & Hr & _ & _ & _ & _ & Hl)|[_ (A & _ & B)]].
    + specialize (Hl n). rewrite Hr. destruct (order_line b !! (w, d, o, n)).
      * destruct Hl. split; [by eauto|done].
      * split; [by intros [? ?]|]. naive_solver.
    + rewrite A, B. split; [by intros [? ?]|naive_solver].
  - intros w d o n l x Hl Hx. destruct (filled_cases w d o) as
      [(_ & _ & _ & p & _ & r & Hr & _ & _ & Hk' & _ & Hall)|[_ (A & _)]]; [|congruence].
    specialize (Hall n). rewrite Hl in Hall. destruct Hall as (_ & _ & _ & Hdel).
    simplify_eq. tauto.
  - intros w d o x Hx. destruct (filled_cases w d o) as
      [(Hrw & Hrd & _ & p & Hp & r & Hr & Hpc & Hcnt & _)|[_ (A & _)]]; [|congruence].
    simplify_eq. split; [|lia]. rewrite Hc. apply (ready_customer _ _ _ Hk); [done|done|].
    apply list_elem_of_lookup_2 in Hpc. rewrite Hp in Hpc. apply elem_of_seqZ in Hpc.
    unfold CUST_PER_DIST, ORD_PER_DIST in *. lia.
  - intros w d dr Hdr. rewrite Hw. rewrite Hd in Hdr.
    destruct (ready_district _ _ _ Hk _ _ _ Hdr) as (_ & Hr & -> & Hs').
    unfold DIST_PER_WARE, ORD_PER_DIST in *. split_and!; try lia. done.
Qed.
End filled.

Section load_ord.
Context {conn : Type} {Sv : SqlServer} {Api : MySQL conn} {Laws : MySQLLaws conn}
  {Rs : RandSource} {St : StackSlots} {Os : OrigSlots} {Opt : LoadOptions}.

Abbreviation lprog := (prog load_exit (loader conn)).
Abbreviation stable := (keeps (in_trouble (conn:=conn))).

(** Everything in the view is committed and in [I], or there was trouble. *)
Definition settled (I : db → Prop) (l : loader conn) : Prop :=
  (∃ b, I b ∧ lat b b support_ok l) ∨ in_trouble l.

Lemma settled_rule {A} (I J : db → Prop) (m : lprog A) :
  stable m →
  (∀ b, I b → triple (lat b b support_ok) m (λ _, settled J) lost) →
  triple (settled I) m (λ _, settled J) lost.
Proof.
  intros Hs Hm l [(b & HI & Hl)|Ht]; [by apply (Hm b HI)|].
  specialize (Hs l Ht). destruct (m l) as [[a|e] l']; [by right|done].
Qed.

(** The districts before [(w, d)] in the order of the loops. *)
Definition before (w d : Z) (w' d' : Z) : Prop :=
  min_ware ≤ w' ≤ max_ware ∧ 1 ≤ d' ≤ DIST_PER_WARE ∧ (w' < w ∨ (w' = w ∧ d' < d)).

Lemma load_district_rule fuel k w d :
  min_ware ≤ w ≤ max_ware → 1 ≤ d ≤ DIST_PER_WARE →
  triple (settled (filled k (before w d))) (Orders (conn:=conn) (S fuel) d w)
    (λ _, settled (filled k (before w (d + 1)))) lost.
Proof.
  intros Hw Hd. apply settled_rule; [apply stable_Orders|]. intros b Hb.
  assert (¬ before w d w d) as Hnot by (unfold before; lia).
  eapply triple_ends; [apply Orders_rule; by apply Hb| |done].
  intros _ l [(b' & p & Hp & Hl & Hat)|Ht]; [left|by right].
  exists b'. split; [|done]. eapply filled_next; [exact Hb|exact Hnot| |exact Hp|exact Hl].
  intros w' d'. unfold before. rewrite pair_equal_spec. lia.
Qed.

Lemma filled_iff k (D D' : Z → Z → Prop) b :
  (∀ w d, D w d ↔ D' w d) → filled k D b → filled k D' b.
Proof. intros HD [Hb Hf]. split; [done|]. intros w d. rewrite <- HD. apply Hf. Qed.

Lemma settled_mono (I J : db → Prop) l : (∀ b, I b → J b) → settled I l → settled J l.
Proof. intros H [(b & Hb & Hl)|Ht]; [left|by right]. eauto. Qed.

Lemma load_ware_orders_rule fuel k w :
  min_ware ≤ w ≤ max_ware →
  triple (settled (filled k (before w 1)))
    (for_lt 1 (DIST_PER_WARE + 1) (λ d_id _, Orders (conn:=conn) (S fuel) d_id w) tt)
    (λ _, settled (filled k (before (w + 1) 1))) lost.
Proof.
  intros Hw. eapply triple_ends.
  - apply (triple_for_lt (λ d (_ : unit), settled (filled k (before w d)))); [done|].
    intros d [] Hd. apply load_district_rule; [done|lia].
  - intros [] l. apply settled_mono. intros b. apply filled_iff.
    intros w' d'. unfold before, DIST_PER_WARE. lia.
  - done.
Qed.

Lemma commit_settled (I : db → Prop) :
  triple (settled I) (commit (conn:=conn)) (λ _, settled I) lost.
Proof.
  apply settled_rule; [apply stable_commit_|]. intros b Hb l Hl.
  pose proof (commit_step_ b b support_ok (mret tt) (λ _, lat b b support_ok)
    ltac:(intros l' Hl'; exact Hl') l Hl) as H.
  unfold mbind, prog_bind in H. destruct (commit l) as [[[]|e] l']; [|done].
  left. eauto.
Qed.

Lemma LoadOrd_rule fuel k :
  min_ware ≤ max_ware →
  triple (settled (filled k (before min_ware 1))) (LoadOrd (conn:=conn) (S fuel))
    (λ _, settled (filled k (λ w d, min_ware ≤ w ≤ max_ware ∧ 1 ≤ d ≤ DIST_PER_WARE))) lost.
Proof.
  intros Hle. unfold LoadOrd.
  apply (triple_bind _ _ (λ _, settled (filled k (before (max_ware + 1) 1)))).
  - apply (triple_for_lt (λ w (_ : unit), settled (filled k (before w 1)))); [lia|].
    intros w [] Hw. apply load_ware_orders_rule. lia.
  - intros []. eapply triple_ends; [apply commit_settled| |done].
    intros [] l. apply settled_mono. intros b. apply filled_iff.
    intros w' d'. unfold before. lia.
Qed.

(** On a database with warehouses, districts, customers and stock and no
    orders, [LoadOrd] ends, without undefined behaviour, with a committed
    database that satisfies every consistency condition of the transactions:
    3000 orders per district, each with its customer and its lines, the last
    900 waiting in new_orders; for every behaviour of [rand()].  It exits or
    ends otherwise only after a call of the client library has failed. *)
Theorem LoadOrd_consistent (fuel : nat) (k : db) (l : loader conn) :
  min_ware ≤ max_ware → ready min_ware max_ware k → support_ok (ld_support l) →
  view (ld_conn l) = k → durable (ld_conn l) = k →
  match LoadOrd (S fuel) l with
  | (Done _, l') =>
      (consistent (durable (ld_conn l')) ∧
       (∀ w d, min_ware ≤ w ≤ max_ware → 1 ≤ d ≤ DIST_PER_WARE →
          district_loaded (durable (ld_conn l')) w d)) ∨ trouble (ld_conn l')
  | (Leave _, l') => trouble (ld_conn l')
  end.
Proof.
  intros Hle Hk Hok Hv Hd.
  assert (filled k (before min_ware 1) k) as Hstart.
  { split; [by repeat split|]. intros w d. split; [unfold before; lia|].
    intros _. apply (ready_orders _ _ _ Hk). }
  pose proof (LoadOrd_rule fuel k Hle l (or_introl (ex_intro _ k
    (conj Hstart (conj Hv (conj Hd Hok)))))) as H.
  destruct (LoadOrd (S fuel) l) as [[a|e] l']; [|done].
  destruct H as [(b & Hf & _ & -> & _)|Ht]; [left|by right].
  split; [by eapply filled_consistent|]. intros w d Hw Hd'. by apply Hf.
Qed.
End load_ord.

(** ** A warehouse to load orders for *)

Definition one_ware : LoadOptions :=
  {| min_ware := 1; max_ware := 1; timestamp := lit "2014-01-01 00:00:00" |}.

Definition ready_with (districts : gmap (Z * Z) district_row)
    (customers : gmap (Z * Z * Z) customer_row) : db := Db
  {[1 := WarehouseRow (lit "ware") (lit "s1") (lit "s2") (lit "city") (lit "ST")
           (lit "123456789") 10 300000000]}
  districts customers [] ∅ ∅ ∅
  {[1 := ItemRow 7 (lit "first item") 1000 (lit "original")]}
  {[(1, 1) := sample_stock 50]}.

Definition ready_district_row : district_row :=
  DistrictRow (lit "dist") (lit "s1") (lit "s2") (lit "city") (lit "ST")
    (lit "123456789") 5 3000000 3001.

Definition ready_districts (n : Z) : gmap (Z * Z) district_row :=
  gset_to_gmap ready_district_row (list_to_set (map (pair 1) (seqZ 1 n))).

Definition ready_customers (n m : Z) : gmap (Z * Z * Z) customer_row :=
  gset_to_gmap (sample_customer "zoe")
    (list_to_set (d ← seqZ 1 n; c ← seqZ 1 m; [(1, d, c)])).

Definition ready_db : db :=
  ready_with (ready_districts DIST_PER_WARE) (ready_customers DIST_PER_WARE CUST_PER_DIST).

Lemma ready_districts_Some n w d dr :
  ready_districts n !! (w, d) = Some dr ↔ w = 1 ∧ 1 ≤ d ≤ n ∧ dr = ready_district_row.
Proof.
  unfold ready_districts.
  rewrite lookup_gset_to_gmap_Some, elem_of_list_to_set, list_elem_of_fmap. split.
  - intros [(d' & [= -> ->] & Hd%elem_of_seqZ) <-]. split_and!; done || lia.
  - intros (-> & Hd & ->). split; [|done]. exists d. split; [done|]. apply elem_of_seqZ. lia.
Qed.

Lemma ready_customers_Some n m d c :
  1 ≤ d ≤ n → 1 ≤ c ≤ m → is_Some (ready_customers n m !! (1, d, c)).
Proof.
  intros Hd Hc. eexists. apply lookup_gset_to_gmap_Some. split; [|reflexivity].
  apply elem_of_list_to_set, list_elem_of_bind. exists d.
  split; [|apply elem_of_seqZ; lia]. apply list_elem_of_bind. exists c.
  split; [by left|apply elem_of_seqZ; lia].
Qed.

Lemma ready_with_ready districts customers :
  (∀ w d dr, districts !! (w, d) = Some dr ↔
     w = 1 ∧ 1 ≤ d ≤ DIST_PER_WARE ∧ dr = ready_district_row) →
  (∀ d c, 1 ≤ d ≤ DIST_PER_WARE → 1 ≤ c ≤ CUST_PER_DIST →
     is_Some (customers !! (1, d, c))) →
  ready 1 1 (ready_with districts customers).
Proof.
  intros Hd Hc. constructor; simpl.
  - intros w d dr (-> & Hr & ->)%Hd. split_and!; done || lia.
  - intros w d Hw Hr. exists ready_district_row. apply Hd. split_and!; done || lia.
  - intros w d c Hw Hr Hc'. assert (w = 1) as -> by lia. by apply Hc.
  - done.
  - split; simpl.
    + intros w i [? [<- _]%lookup_singleton_Some] [? [<- _]%lookup_singleton_Some]. done.
    + intros w i s [_ <-]%lookup_singleton_Some. simpl. lia.
Qed.

Lemma ready_db_ready : ready 1 1 ready_db.
Proof.
  apply ready_with_ready; [apply ready_districts_Some|intros d c; apply ready_customers_Some].
Qed.

#[global] Strategy 1000 [ready_db].

Definition ready_loader : loader mem := Loader mem support_init (mem_open ready_db []).

Lemma LoadOrd_consistent_witness :
  match LoadOrd (Rs:=SupportRun.lcg) (Opt:=one_ware) 1 ready_loader with
  | (Done _, l') =>
      (consistent (durable (ld_conn l')) ∧
       (∀ w d, 1 ≤ w ≤ 1 → 1 ≤ d ≤ DIST_PER_WARE →
          district_loaded (durable (ld_conn l')) w d)) ∨ trouble (ld_conn l')
  | (Leave _, l') => trouble (ld_conn l')
  end.
Proof.
  apply (LoadOrd_consistent (Rs:=SupportRun.lcg) (Opt:=one_ware) 0 ready_db ready_loader);
    [simpl; lia|exact ready_db_ready|reflexivity|apply mem_open_view|apply mem_open_durable].
Defined.
