(* ===== verification/TpccLoadAll.v ===== *)
(** * tpcc-mysql: the loader from an empty database

    The items, warehouses and customers of load.c, and with TpccLoadOrders the
    whole loader: from empty tables to the database the benchmark works on. *)
From Stdlib Require Import ZArith Lia SpecFloat Ascii String.
From stdpp Require Import base gmap list strings sorting numbers.
From S2P Require Import Prelude CFloat TpccSupport TpccSql TpccTx TpccInvariant.
From S2P Require Import TpccMemDb TpccSample TpccLoad TpccLoadOrders TpccBenchmark.

(** ** Tables *)

(** The keys of a table are those in [P], its rows satisfy [R]. *)
Definition tbl {K V} `{Countable K} (P : K → Prop) (R : K → V → Prop) (m : gmap K V) : Prop :=
  (∀ k, is_Some (m !! k) ↔ P k) ∧ ∀ k v, m !! k = Some v → R k v.

Section tbl.
Context {K V : Type} `{Countable K}.
Implicit Types (m : gmap K V) (P : K → Prop) (R : K → V → Prop).

Lemma tbl_iff P P' R m : (∀ k, P k ↔ P' k) → tbl P R m → tbl P' R m.
Proof. intros HP [H1 H2]. split; [|done]. intros k. by rewrite H1. Qed.

Lemma tbl_insert P P' R m k v :
  tbl P R m → ¬ P k → R k v → (∀ k', P' k' ↔ P k' ∨ k' = k) →
  insert_row k v m = Some (<[k := v]> m) ∧ tbl P' R (<[k := v]> m).
Proof.
  intros [H1 H2] Hk Hv HP'. assert (m !! k = None) as Hn.
  { apply eq_None_not_Some. by rewrite H1. }
  unfold insert_row. rewrite Hn. split; [done|]. split.
  - intros k'. rewrite HP'. destruct (decide (k' = k)) as [->|Hne].
    + rewrite lookup_insert_eq. split; eauto.
    + rewrite lookup_insert_ne by done. rewrite H1. tauto.
  - intros k' v'. rewrite lookup_insert_Some. intros [[<- <-]|[_ Hm]]; eauto.
Qed.

Lemma tbl_empty P R : (∀ k, ¬ P k) → tbl P R ∅.
Proof.
  intros HP. split; [|done]. intros k. rewrite lookup_empty. split; [by intros [? ?]|].
  intros Hk. by destruct (HP k).
Qed.
End tbl.

(** What the tables hold while they are filled: the keys of the items, the
    warehouses, their stock, their districts and the customers; no orders. *)
Record stage (Pi Pw : Z → Prop) (Ps Pd : Z * Z → Prop) (Pc : Z * Z * Z → Prop) (b : db)
    : Prop := {
  st_item : tbl Pi (λ _ _, True) (item b);
  st_ware : tbl Pw (λ _ r, zero ∉ w_name r) (warehouse b);
  st_stock : tbl Ps (λ _ s, 0 ≤ s_quantity s ≤ 100 ∧ length (s_dist s) = 10%nat) (stock b);
  st_dist : tbl Pd (λ _ r, d_next_o_id r = ORD_PER_DIST + 1 ∧ zero ∉ d_name r) (district b);
  st_cust : tbl Pc (λ _ _, True) (customer b);
  st_none : orders b = ∅ ∧ new_orders b = ∅ ∧ order_line b = ∅
}.

Lemma stage_iff Pi Pw Ps Pd Pc Pi' Pw' Ps' Pd' Pc' b :
  (∀ k, Pi k ↔ Pi' k) → (∀ k, Pw k ↔ Pw' k) → (∀ k, Ps k ↔ Ps' k) →
  (∀ k, Pd k ↔ Pd' k) → (∀ k, Pc k ↔ Pc' k) →
  stage Pi Pw Ps Pd Pc b → stage Pi' Pw' Ps' Pd' Pc' b.
Proof.
  intros H1 H2 H3 H4 H5 [S1 S2 S3 S4 S5 S6].
  split; [by eapply tbl_iff..|done].
Qed.

Lemma cstring_of_no_zero (l : list ascii) : zero ∉ cstring_of l.
Proof.
  induction l as [|c l IH]; simpl; [by apply not_elem_of_nil|].
  case_bool_decide; [by apply not_elem_of_nil|]. rewrite not_elem_of_cons. auto.
Qed.

(** ** Random data *)

(** [f] completes with a value in [P] and leaves the permutation alone. *)
Definition draws {Rs : RandSource} {St : StackSlots} {A} (f : cprog A) (P : A → Prop) : Prop :=
  ∀ s, ∃ a s', f s = (Done a, s') ∧ P a ∧ nums s' = nums s.

Section draws.
Context {Rs : RandSource} {St : StackSlots}.

Lemma draws_random lo hi :
  INT_MIN ≤ lo → lo ≤ hi ≤ INT_MAX → hi - lo < INT_MAX →
  draws (RandomNumber lo hi) (λ v, lo ≤ v ≤ hi).
Proof.
  intros H1 H2 H3 s. destruct (RandomNumber_range_run lo hi s H1 H2 H3) as (v & Hv & E).
  eexists _, _. split; [exact E|]. by split.
Qed.

Lemma draws_fill tbl_ max lo hi (size : nat) :
  0 ≤ max < INT_MAX → Z.of_nat (length tbl_) = max + 1 →
  0 ≤ lo ≤ hi → hi < Z.of_nat size → hi < INT_MAX →
  draws (len ← RandomNumber lo hi; str ← fill_random tbl_ max len (replicate size zero);
         mret (len, str))
    (λ x, lo ≤ x.1 ≤ hi ∧ length x.2 = size).
Proof.
  intros Hm Ht H1 H2 H3 s.
  destruct (RandomNumber_range_run lo hi s) as (len & Hlen & E); [unfold INT_MIN; lia|lia|lia|].
  rewrite (bind_done _ _ _ _ _ E).
  edestruct (fill_random_run tbl_ max len (replicate size zero))
    as (str' & s' & E' & Hl & _ & _ & Hns & _); [done|done| |].
  { rewrite length_replicate. lia. }
  rewrite (bind_done _ _ _ _ _ E'). eexists _, _. split; [reflexivity|].
  rewrite length_replicate in Hl. simpl in *. split_and!; try lia; congruence.
Qed.

Lemma draws_alpha lo hi (size : nat) :
  0 ≤ lo ≤ hi → hi < Z.of_nat size → hi < INT_MAX →
  draws (MakeAlphaString lo hi (replicate size zero)) (λ x, lo ≤ x.1 ≤ hi ∧ length x.2 = size).
Proof. intros. unfold MakeAlphaString. by apply draws_fill. Qed.
Lemma draws_digits lo hi (size : nat) :
  0 ≤ lo ≤ hi → hi < Z.of_nat size → hi < INT_MAX →
  draws (MakeNumberString lo hi (replicate size zero)) (λ x, lo ≤ x.1 ≤ hi ∧ length x.2 = size).
Proof. intros. unfold MakeNumberString. by apply draws_fill. Qed.

Lemma draws_nurand : draws (NURand 255 0 999) (λ v, 0 ≤ v ≤ 999).
Proof.
  intros s. destruct (NURand_run 255 0 999 s) as (v & s' & E & Hv & _ & Hn & _); [by left|lia|intbounds|].
  eexists _, _. split; [exact E|]. by split.
Qed.
Lemma draws_lastname n : 0 ≤ n ≤ 999 → draws (Lastname n) (λ _, True).
Proof.
  intros Hn s. destruct (Lastname_run n s) as (name & E & _); [lia|]. eexists _, _. split; [exact E|]. by split.
Qed.
End draws.

(** ** Rules *)

Section rules.
Context {conn : Type} {Sv : SqlServer} {Api : MySQL conn} {Laws : MySQLLaws conn}
  {Rs : RandSource} {St : StackSlots} {Os : OrigSlots} {Opt : LoadOptions}.

Abbreviation lprog := (prog load_exit (loader conn)).
Abbreviation stable := (keeps (in_trouble (conn:=conn))).

(** The loader gives up after trouble, or when its draws hit no free cell. *)
Definition gave_up (e : load_exit) (l : loader conn) : Prop :=
  e = LoadFault OutOfFuel ∨ in_trouble l.
Abbreviation at_ := (λ b k, lat (conn:=conn) b k support_ok).

Lemma load_draw {A B} (f : cprog A) (P : A → Prop) b k (m : A → lprog B) Q :
  draws f P → (∀ a, P a → triple (at_ b k) (m a) Q gave_up) →
  triple (at_ b k) (x ← rnd f; m x) Q gave_up.
Proof.
  intros Hf Hm [sp c] (Hv & Hd & HΦ). simpl in *.
  destruct (Hf sp) as (a & s' & E & Ha & Hs).
  unfold mbind, prog_bind, rnd, zoom. simpl. rewrite E. apply (Hm a Ha).
  split_and!; try done. unfold support_ok in *. simpl. by rewrite Hs.
Qed.

Lemma text_step {B} (size : nat) (lo hi : Z) b k (m : cstr → lprog B) Q :
  0 ≤ lo ≤ hi → hi < Z.of_nat size → hi < INT_MAX →
  (∀ t, zero ∉ t → triple (at_ b k) (m t) Q gave_up) →
  triple (at_ b k) (x ← alpha size lo hi; m x) Q gave_up.
Proof.
  intros H1 H2 H3 Hm. unfold alpha. apply triple_assoc.
  eapply load_draw; [by apply draws_alpha|]. intros [len buf] [Hlen Hl]. simpl in *.
  rewrite arr_set_ok by lia. apply Hm, cstring_of_no_zero.
Qed.
Lemma digits_step {B} (size : nat) (lo hi : Z) b k (m : cstr → lprog B) Q :
  0 ≤ lo ≤ hi → hi < Z.of_nat size → hi < INT_MAX →
  (∀ t, triple (at_ b k) (m t) Q gave_up) →
  triple (at_ b k) (x ← digits size lo hi; m x) Q gave_up.
Proof.
  intros H1 H2 H3 Hm. unfold digits. apply triple_assoc.
  eapply load_draw; [by apply draws_digits|]. intros [len buf] [Hlen Hl]. simpl in *.
  rewrite arr_set_ok by lia. apply Hm.
Qed.
Lemma number_step {B} lo hi b k (m : Z → lprog B) Q :
  INT_MIN ≤ lo → lo ≤ hi ≤ INT_MAX → hi - lo < INT_MAX →
  (∀ v, lo ≤ v ≤ hi → triple (at_ b k) (m v) Q gave_up) →
  triple (at_ b k) (x ← rnd (RandomNumber lo hi); m x) Q gave_up.
Proof. intros H1 H2 H3. apply load_draw. by apply draws_random. Qed.

Lemma address_step {B} b k (m : address → lprog B) Q :
  (∀ t, triple (at_ b k) (m t) Q gave_up) →
  triple (at_ b k) (x ← MakeAddress; m x) Q gave_up.
Proof.
  intros Hm. unfold MakeAddress. apply triple_assoc.
  apply text_step; [intbounds..|]. intros s1 _. apply triple_assoc.
  apply text_step; [intbounds..|]. intros s2 _. apply triple_assoc.
  apply text_step; [intbounds..|]. intros s3 _. apply triple_assoc.
  apply text_step; [intbounds..|]. intros s4 _. apply triple_assoc.
  apply digits_step; [intbounds..|]. intros z. apply Hm.
Qed.

Lemma data_step {B} (orig : bool) b k (m : cstr → lprog B) Q :
  (∀ t, triple (at_ b k) (m t) Q gave_up) →
  triple (at_ b k) (x ← data_text orig; m x) Q gave_up.
Proof.
  intros Hm. unfold data_text. apply triple_assoc.
  eapply load_draw; [apply (draws_alpha 26 50 51); intbounds|].
  intros [len buf] [Hlen Hl]. cbn [fst snd] in *.
  rewrite arr_set_ok by lia. destruct orig; [|apply Hm].
  apply triple_assoc. apply triple_bind_ret. apply triple_assoc. apply triple_assoc.
  apply number_step; [intbounds..|]. intros pos Hpos. cbv beta.
  repeat (repeat apply triple_assoc; rewrite arr_set_ok by (rewrite ?length_insert; lia);
    apply triple_bind_ret; cbv beta). apply Hm.
Qed.

(** A statement that is executed, and the last one of a sequence. *)
Lemma exec_last s ps b k b' (I : db → Prop) :
  sql_update s ps b = Some b' → I b' →
  triple (at_ b k) (insert (conn:=conn) s ps) (λ _, lsome I k support_ok) gave_up.
Proof.
  intros Hu HI. eapply triple_ends; [by eapply insert_last|done|]. intros e l H. by right.
Qed.
Lemma exec_step {A} s ps b k b' (m : lprog A) Q :
  sql_update s ps b = Some b' → triple (at_ b' k) m Q gave_up →
  triple (at_ b k) (insert s ps;; m) Q gave_up.
Proof.
  intros Hu Hm. eapply triple_bind; [by eapply (exec_last _ _ _ _ b' (λ x, x = b'))|].
  intros []. apply lsome_elim. by intros ? ->.
Qed.

(** The last commit of a pass. *)
Lemma commit_last b k (I : db → Prop) :
  I b → triple (at_ b k) (commit (conn:=conn)) (λ _, settled I) gave_up.
Proof.
  intros HI l Hl. pose proof (commit_step_ b k support_ok (mret tt)
    (λ _, lat b b support_ok) ltac:(intros l' Hl'; exact Hl') l Hl) as H.
  unfold mbind, prog_bind in H. destruct (commit l) as [[[]|e] l']; [left; eauto|by right].
Qed.

Lemma retry_rule (fuel : nat) (m : lprog unit) (P : loader conn → Prop) (I : db → Prop) :
  stable m → triple P m (λ _, settled I) gave_up →
  triple P (retrying (S fuel) m) (λ _, settled I) gave_up.
Proof.
  intros Hs Hm l HP. simpl. unfold at_label. specialize (Hm l HP).
  destruct (m l) as [[[]|e] l']; [done|]. destruct e as [f|]; [done|].
  destruct Hm as [Hm|Hm]; [done|].
  pose proof (stable_retrying fuel m Hs l' Hm) as Hr.
  destruct (retrying fuel m l') as [[[]|e] l'']; by right.
Qed.

(** A part whose failed statement the caller restarts. *)
Lemma part_rule (m : lprog unit) (P R : loader conn → Prop) :
  triple P m (λ _, R) gave_up →
  triple P (at_label (m;; mret false) (λ e, match e with Restart => mret true | e => leave e end))
    (λ r l, (r = false ∧ R l) ∨ (r = true ∧ in_trouble l)) gave_up.
Proof.
  intros Hm l HP. specialize (Hm l HP). unfold at_label, mbind, prog_bind.
  destruct (m l) as [[[]|[f|]] l']; simpl; [by left|done|].
  right. split; [done|]. by destruct Hm.
Qed.

(** After trouble nothing is claimed. *)
Lemma settled_step {A} (I : db → Prop) (m : lprog A) (J : db → Prop) :
  stable m → (∀ b, I b → triple (at_ b b) m (λ _, settled J) gave_up) →
  triple (settled I) m (λ _, settled J) gave_up.
Proof.
  intros Hs Hm l [(b & HI & Hl)|Ht]; [by apply (Hm b HI)|].
  specialize (Hs l Ht). destruct (m l) as [[a|e] l']; by right.
Qed.
End rules.

(** ** The tables *)

Section tables.
Context {conn : Type} {Sv : SqlServer} {Api : MySQL conn} {Laws : MySQLLaws conn}
  {Rs : RandSource} {St : StackSlots} {Os : OrigSlots} {Opt : LoadOptions}.

Abbreviation lprog := (prog load_exit (loader conn)).
Abbreviation stable := (keeps (in_trouble (conn:=conn))).
Abbreviation at_ := (λ b k, lat (conn:=conn) b k support_ok).

Lemma draw_unmarked_rule fuel orig b k :
  Z.of_nat (length orig) = MAXITEMS + 1 →
  triple (at_ b k) (draw_unmarked fuel orig) (λ pos l, 0 ≤ pos ≤ MAXITEMS ∧ at_ b k l) gave_up.
Proof.
  intros Hl. induction fuel as [|fuel IH]; [intros l _; by left|]. simpl.
  apply number_step; [intbounds..|]. intros pos Hpos.
  destruct (arr_get_lookup (F:=load_exit) (S:=loader conn) orig pos) as (x & _ & ->); [lia|].
  apply triple_bind_ret. destruct (x =? 0); [|exact IH]. intros l Hat. by split.
Qed.

Lemma mark_originals_rule fuel b k :
  triple (at_ b k) (mark_originals fuel)
    (λ orig l, Z.of_nat (length orig) = MAXITEMS + 1 ∧ at_ b k l) gave_up.
Proof.
  unfold mark_originals. eapply triple_weaken.
  - eapply triple_post; [apply (triple_for_lt (λ _ orig l,
      Z.of_nat (length orig) = MAXITEMS + 1 ∧ at_ b k l)); [done|]|done].
    intros i orig Hi. apply triple_pure. intros Hl.
    eapply triple_bind; [by apply draw_unmarked_rule|]. intros pos. apply triple_pure. intros Hpos.
    rewrite arr_set_ok by lia. intros l Hat. split; [by rewrite length_insert|done].
  - intros l Hat. split; [|done]. unfold orig_start. rewrite length_map, length_seqZ, Z2Nat.id by intbounds. done.
Qed.

(** With the cells known to be there. *)
Lemma marked_step {B} fuel b k (m : list Z → lprog B) Q :
  (∀ orig, Z.of_nat (length orig) = MAXITEMS + 1 → triple (at_ b k) (m orig) Q gave_up) →
  triple (at_ b k) (x ← mark_originals fuel; m x) Q gave_up.
Proof.
  intros Hm. eapply triple_bind; [apply mark_originals_rule|]. intros orig.
  apply triple_pure. apply Hm.
Qed.

(** *** Items *)

Definition none {K} (_ : K) : Prop := False.
Definition items_upto (i : Z) : db → Prop := stage (λ j, 1 ≤ j < i) none none none none.

Lemma load_item_rule orig i k :
  Z.of_nat (length orig) = MAXITEMS + 1 → 1 ≤ i ≤ MAXITEMS →
  triple (lsome (items_upto i) k support_ok) (load_item (conn:=conn) orig i)
    (λ _, lsome (items_upto (i + 1)) k support_ok) gave_up.
Proof.
  intros Hl Hi. apply lsome_elim. intros b [S1 S2 S3 S4 S5 S6]. unfold load_item.
  apply number_step; [intbounds..|]. intros im _.
  apply text_step; [intbounds..|]. intros name _.
  apply number_step; [intbounds..|]. intros p _. cbv zeta.
  destruct (arr_get_lookup (F:=load_exit) (S:=loader conn) orig i) as (o & _ & ->); [lia|].
  apply triple_bind_ret. apply data_step. intros data.
  edestruct (tbl_insert _ (λ j, 1 ≤ j < i + 1) _ (item b) i
    (ItemRow im name (dec_of_float (int_hundredths p)) data) S1) as [Hu Hs]; [lia|done|lia|].
  eapply exec_last; [simpl; by rewrite Hu|]. by split.
Qed.

Lemma LoadItems_rule fuel k :
  items_upto 1 k →
  triple (at_ k k) (LoadItems (conn:=conn) (S fuel)) (λ _, settled (items_upto (MAXITEMS + 1)))
    gave_up.
Proof.
  intros Hk. unfold LoadItems. apply marked_step. intros orig Hl. apply retry_rule.
  { unfold load_item, data_text. solve_keeps; auto using stable_insert, stable_alpha, stable_commit_ with keepdb. }
  eapply triple_bind.
  - eapply (triple_weaken _ (lsome (items_upto 1) k support_ok)); [|intros l Hat; by exists k].
    apply (triple_for_lt (λ i (_ : unit), lsome (items_upto i) k support_ok)); [done|].
    intros i _ Hi. apply load_item_rule; [done|lia].
  - intros []. apply lsome_elim. intros b Hb. by apply commit_last.
Qed.

(** *** Warehouses with their stock and districts *)

Definition an_item (j : Z) : Prop := 1 ≤ j < MAXITEMS + 1.
(** Warehouse [w] has its stock below [n] and its districts below [m], the ones
    before it have all of theirs. *)
Definition in_ware (w n m : Z) : db → Prop :=
  stage an_item (λ w', min_ware ≤ w' < w + 1)
    (λ '(w', i), (min_ware ≤ w' < w ∧ an_item i) ∨ (w' = w ∧ 1 ≤ i < n))
    (λ '(w', d), (min_ware ≤ w' < w ∧ 1 ≤ d < DIST_PER_WARE + 1) ∨ (w' = w ∧ 1 ≤ d < m)) none.
Definition wares_upto (w : Z) : db → Prop :=
  stage an_item (λ w', min_ware ≤ w' < w) (λ '(w', i), min_ware ≤ w' < w ∧ an_item i)
    (λ '(w', d), min_ware ≤ w' < w ∧ 1 ≤ d < DIST_PER_WARE + 1) none.

Lemma stock_item_rule orig w i k :
  Z.of_nat (length orig) = MAXITEMS + 1 → 1 ≤ i ≤ MAXITEMS →
  triple (lsome (in_ware w i 1) k support_ok) (stock_item (conn:=conn) w orig i)
    (λ _, lsome (in_ware w (i + 1) 1) k support_ok) gave_up.
Proof.
  intros Hl Hi. apply lsome_elim. intros b [S1 S2 S3 S4 S5 S6]. unfold stock_item.
  apply number_step; [intbounds..|]. intros q Hq.
  do 10 (apply text_step; [intbounds..|]; intros ? _).
  destruct (arr_get_lookup (F:=load_exit) (S:=loader conn) orig i) as (o & _ & ->); [lia|].
  apply triple_bind_ret. apply data_step. intros data.
  edestruct (tbl_insert _ (λ '(w', j), (min_ware ≤ w' < w ∧ an_item j) ∨ (w' = w ∧ 1 ≤ j < i + 1))
    _ (stock b) (w, i) (StockRow q [t; t0; t1; t2; t3; t4; t5; t6; t7; t8] 0 0 0 data) S3)
    as [Hu Hs].
  { unfold an_item. lia. }
  { simpl. split; [lia|done]. }
  { intros [w' j]. rewrite pair_equal_spec. unfold an_item. lia. }
  eapply exec_last; [simpl; by rewrite Hu|]. by split.
Qed.

Lemma Stock_rule fuel w k :
  triple (lsome (in_ware w 1 1) k support_ok) (Stock (conn:=conn) fuel w)
    (λ r l, (r = false ∧ lsome (in_ware w (MAXITEMS + 1) 1) k support_ok l) ∨
            (r = true ∧ in_trouble l)) gave_up.
Proof.
  apply lsome_elim. intros b Hb. unfold Stock. apply marked_step. intros orig Hl.
  apply part_rule.
  eapply (triple_weaken _ (lsome (in_ware w 1 1) k support_ok)); [|intros l Hat; by exists b].
  apply (triple_for_lt (λ i (_ : unit), lsome (in_ware w i 1) k support_ok)); [done|].
  intros i _ Hi. apply stock_item_rule; [done|lia].
Qed.

Lemma district_item_rule w d k :
  1 ≤ d ≤ DIST_PER_WARE →
  triple (lsome (in_ware w (MAXITEMS + 1) d) k support_ok) (district_item (conn:=conn) w d)
    (λ _, lsome (in_ware w (MAXITEMS + 1) (d + 1)) k support_ok) gave_up.
Proof.
  intros Hd. apply lsome_elim. intros b [S1 S2 S3 S4 S5 S6]. unfold district_item.
  apply text_step; [intbounds..|]. intros name Hname.
  apply address_step. intros [[[[s1 s2] city] state] zip].
  apply number_step; [intbounds..|]. intros t _. cbv zeta.
  edestruct (tbl_insert _ (λ '(w', d'), (min_ware ≤ w' < w ∧ 1 ≤ d' < DIST_PER_WARE + 1) ∨
      (w' = w ∧ 1 ≤ d' < d + 1)) _ (district b) (w, d)
    (DistrictRow name s1 s2 city state zip (dec_of_float (float_hundredths t))
      (dec_of_float (f32_of_Z 30000)) 3001) S4) as [Hu Hs].
  { lia. }
  { done. }
  { intros [w' d']. rewrite pair_equal_spec. lia. }
  eapply exec_last; [cbn [sql_update]; by rewrite Hu|]. by split.
Qed.

Lemma District_rule w k :
  triple (lsome (in_ware w (MAXITEMS + 1) 1) k support_ok) (District (conn:=conn) w)
    (λ r l, (r = false ∧ lsome (in_ware w (MAXITEMS + 1) (DIST_PER_WARE + 1)) k support_ok l) ∨
            (r = true ∧ in_trouble l)) gave_up.
Proof.
  unfold District. apply part_rule.
  apply (triple_for_lt (λ d (_ : unit), lsome (in_ware w (MAXITEMS + 1) d) k support_ok)); [done|].
  intros d _ Hd. apply district_item_rule. lia.
Qed.

(** The test of the result of a part. *)
Lemma restart_step {B} (R : loader conn → Prop) (r : bool) (m : lprog B) Q :
  triple R m Q gave_up →
  triple (λ l, (r = false ∧ R l) ∨ (r = true ∧ in_trouble l))
    ((if r then leave Restart else mret tt);; m) Q gave_up.
Proof.
  intros Hm l [[-> HR]|[-> Ht]]; [exact (Hm l HR)|by right].
Qed.

Lemma in_ware_start w b wr :
  min_ware ≤ w → wares_upto w b → zero ∉ w_name wr →
  insert_row w wr (warehouse b) = Some (<[w := wr]> (warehouse b)) ∧
  in_ware w 1 1 (set_warehouse (<[w := wr]> (warehouse b)) b).
Proof.
  intros Hw [S1 S2 S3 S4 S5 S6] Hn.
  destruct (tbl_insert _ (λ w', min_ware ≤ w' < w + 1) _ (warehouse b) w wr S2) as [Hu Hs];
    [lia|done|lia|].
  split; [done|]. split; try done; (eapply tbl_iff; [|done]); intros [w' i]; unfold an_item; lia.
Qed.

Lemma load_ware_rule fuel w k :
  min_ware ≤ w → wares_upto w k →
  triple (at_ k k) (load_ware (conn:=conn) fuel w) (λ _, settled (wares_upto (w + 1))) gave_up.
Proof.
  intros Hw Hk. unfold load_ware.
  apply text_step; [intbounds..|]. intros name Hname.
  apply address_step. intros [[[[s1 s2] city] state] zip].
  apply number_step; [intbounds..|]. intros t _. cbv zeta.
  edestruct (in_ware_start w k (WarehouseRow name s1 s2 city state zip
    (dec_of_float (float_hundredths t)) (dec_of_float (f32_of_Z 3000000)))) as [Hu Hs]; [done..|].
  eapply exec_step; [cbn [sql_update]; by rewrite Hu|].
  eapply triple_bind; [|intros r; apply restart_step].
  { eapply triple_weaken; [apply Stock_rule|]. intros l Hat. by eexists. }
  eapply triple_bind; [apply District_rule|]. intros r'. apply restart_step.
  apply lsome_elim. intros b Hb. apply commit_last.
  eapply stage_iff; [..|exact Hb]; try done.
  - intros [w' i]. unfold an_item. lia.
  - intros [w' d]. lia.
Qed.

Lemma stable_load_ware fuel w : stable (load_ware (conn:=conn) fuel w).
Proof.
  assert (stable (MakeAddress (conn:=conn))) as Ha.
  { unfold MakeAddress, digits. solve_keeps; auto using stable_alpha with keepdb. }
  assert (∀ o, stable (data_text (conn:=conn) o)) as Hd.
  { intros o. unfold data_text. solve_keeps. }
  assert (stable (mark_originals (conn:=conn) fuel)) as Hm.
  { unfold mark_originals. solve_keeps. clear. induction fuel; simpl; solve_keeps. }
  unfold load_ware, Stock, District, stock_item, district_item.
  solve_keeps; auto using stable_insert, stable_alpha, stable_commit_ with keepdb.
Qed.

Lemma LoadWare_rule fuel :
  min_ware ≤ max_ware + 1 →
  triple (settled (wares_upto min_ware)) (LoadWare (conn:=conn) (S fuel))
    (λ _, settled (wares_upto (max_ware + 1))) gave_up.
Proof.
  intros Hle. unfold LoadWare.
  apply (triple_for_lt (λ w (_ : unit), settled (wares_upto w))); [done|].
  intros w [] Hw. apply settled_step; [apply stable_retrying, stable_load_ware|]. intros b Hb.
  apply retry_rule; [apply stable_load_ware|]. apply load_ware_rule; [lia|done].
Qed.

(** *** Customers *)

(** The customers of the districts before [(w, d)], and those of this one below
    [n]. *)
Definition custs_upto (w d n : Z) : db → Prop :=
  stage an_item (λ w', min_ware ≤ w' < max_ware + 1)
    (λ '(w', i), min_ware ≤ w' < max_ware + 1 ∧ an_item i)
    (λ '(w', d'), min_ware ≤ w' < max_ware + 1 ∧ 1 ≤ d' < DIST_PER_WARE + 1)
    (λ '(w', d', c), (before w d w' d' ∧ 1 ≤ c < CUST_PER_DIST + 1) ∨
                     (w' = w ∧ d' = d ∧ 1 ≤ c < n)).

Lemma custs_iff w d n w2 d2 n2 b :
  (∀ w' d' c, (before w d w' d' ∧ 1 ≤ c < CUST_PER_DIST + 1) ∨ (w' = w ∧ d' = d ∧ 1 ≤ c < n) ↔
     (before w2 d2 w' d' ∧ 1 ≤ c < CUST_PER_DIST + 1) ∨ (w' = w2 ∧ d' = d2 ∧ 1 ≤ c < n2)) →
  custs_upto w d n b → custs_upto w2 d2 n2 b.
Proof. intros H Hb. eapply stage_iff; [..|exact Hb]; try done. by intros [[w' d'] c]. Qed.

Lemma customer_item_rule w d c k :
  1 ≤ c ≤ CUST_PER_DIST →
  triple (lsome (custs_upto w d c) k support_ok) (customer_item (conn:=conn) d w c)
    (λ _, lsome (custs_upto w d (c + 1)) k support_ok) gave_up.
Proof.
  intros Hc. apply lsome_elim. intros b [S1 S2 S3 S4 S5 S6]. unfold customer_item.
  apply text_step; [intbounds..|]. intros first _.
  eapply (triple_bind _ _ (λ n l, 0 ≤ n ≤ 999 ∧ at_ b k l)).
  { destruct (Z.leb_spec c 1000).
    - intros l Hat. split; [lia|done].
    - intros l Hat. pose proof (load_draw (NURand 255 0 999) _ b k mret
        (λ n l, 0 ≤ n ≤ 999 ∧ at_ b k l) draws_nurand) as H1.
      specialize (H1 ltac:(intros a Ha l' Hl'; by split) l Hat). unfold mbind, prog_bind in H1.
      by destruct (rnd (NURand 255 0 999) l) as [[v|e] l']. }
  intros n. apply triple_pure. intros Hn.
  eapply load_draw; [by apply draws_lastname|]. intros last _.
  apply address_step. intros [[[[s1 s2] city] state] zip].
  apply digits_step; [intbounds..|]. intros phone.
  apply number_step; [intbounds..|]. intros g _. cbv zeta.
  apply number_step; [intbounds..|]. intros x _.
  apply text_step; [intbounds..|]. intros data _.
  edestruct (tbl_insert _ (λ '(w', d', c'), (before w d w' d' ∧ 1 ≤ c' < CUST_PER_DIST + 1) ∨
      (w' = w ∧ d' = d ∧ 1 ≤ c' < c + 1)) _ (customer b) (w, d, c)
    (CustomerRow first (lit "OE") last s1 s2 city state zip phone timestamp
      (if negb (g =? 0) then lit "GC" else lit "BC") 50000 (dec_of_float (float_hundredths x))
      (dec_of_float (f32_of_Z (-10))) 1000 1 0 data) S5) as [Hu Hs].
  { unfold before. lia. }
  { done. }
  { intros [[w' d'] c']. rewrite !pair_equal_spec. unfold before. lia. }
  eapply exec_step; [cbn [sql_update]; by rewrite Hu|].
  apply text_step; [intbounds..|]. intros hdata _.
  eapply exec_last; [reflexivity|]. by split.
Qed.

Lemma stable_customer_item d w c : stable (customer_item (conn:=conn) d w c).
Proof.
  unfold customer_item, MakeAddress, digits.
  solve_keeps; auto using stable_insert, stable_alpha with keepdb.
Qed.

Lemma Customer_rule fuel w d k :
  custs_upto w d 1 k →
  triple (at_ k k) (Customer (conn:=conn) (S fuel) d w)
    (λ _, settled (custs_upto w d (CUST_PER_DIST + 1))) gave_up.
Proof.
  intros Hk. unfold Customer. apply retry_rule.
  { solve_keeps; auto using stable_customer_item, stable_commit_ with keepdb. }
  eapply triple_bind.
  - eapply (triple_weaken _ (lsome (custs_upto w d 1) k support_ok)); [|intros l Hat; by exists k].
    apply (triple_for_lt (λ c (_ : unit), lsome (custs_upto w d c) k support_ok)); [done|].
    intros c _ Hc. apply customer_item_rule. lia.
  - intros []. apply lsome_elim. intros b Hb. by apply commit_last.
Qed.

Lemma LoadCust_rule fuel :
  min_ware ≤ max_ware + 1 →
  triple (settled (custs_upto min_ware 1 1)) (LoadCust (conn:=conn) (S fuel))
    (λ _, settled (custs_upto (max_ware + 1) 1 1)) gave_up.
Proof.
  intros Hle. unfold LoadCust.
  apply (triple_bind _ _ (λ _, settled (custs_upto (max_ware + 1) 1 1))).
  - apply (triple_for_lt (λ w (_ : unit), settled (custs_upto w 1 1))); [done|].
    intros w [] Hw. eapply triple_ends.
    + apply (triple_for_lt (λ d (_ : unit), settled (custs_upto w d 1))); [done|].
      intros d [] Hd. apply settled_step.
      { apply stable_retrying. solve_keeps; auto using stable_customer_item, stable_commit_ with keepdb. }
      intros b Hb. eapply triple_post; [by apply Customer_rule|]. intros [] l. apply settled_mono.
      intros b'. apply custs_iff. intros w' d' c. unfold before. lia.
    + intros [] l. apply settled_mono. intros b. apply custs_iff. intros w' d' c.
      unfold before, DIST_PER_WARE. lia.
    + done.
  - intros []. apply settled_step; [apply stable_commit_|]. intros b Hb. by apply commit_last.
Qed.
End tables.

(** ** The whole loader *)

Section whole.
Context {conn : Type} {Sv : SqlServer} {Api : MySQL conn} {Laws : MySQLLaws conn}
  {Rs : RandSource} {St : StackSlots} {Os : OrigSlots} {Opt : LoadOptions}.

Abbreviation stable := (keeps (in_trouble (conn:=conn))).
Abbreviation all_loaded := (custs_upto (max_ware + 1) 1 1).

Lemma all_loaded_ready b : all_loaded b → ready min_ware max_ware b.
Proof.
  intros [S1 S2 S3 S4 S5 (E1 & E2 & E3)]. split.
  - intros w d dr Hdr. pose proof (proj1 (proj1 S4 (w, d)) (mk_is_Some _ _ Hdr)) as H.
    simpl in H. destruct (proj2 S4 _ _ Hdr) as [Hn _]. split; [lia|].
    split; [lia|]. split; [done|]. apply (proj1 S2). lia.
  - intros w d Hw Hd. apply (proj1 S4). lia.
  - intros w d c Hw Hd Hc. apply (proj1 S5). left. unfold before. lia.
  - intros w d o. unfold order_absent. rewrite E1, E2, E3. split_and!; [done|set_solver|done].
  - split.
    + intros w i Hw%(proj1 S2) Hi%(proj1 S1). by apply (proj1 S3).
    + intros w i s Hs. exact (proj2 S3 _ _ Hs).
Qed.

(** The orders on top make the database of the benchmark. *)
Lemma filled_populated k b :
  min_ware = 1 → all_loaded k →
  filled k (λ w d, min_ware ≤ w ≤ max_ware ∧ 1 ≤ d ≤ DIST_PER_WARE) b → populated max_ware b.
Proof.
  intros Hmin Hk Hf. pose proof (filled_consistent k b _ _ (all_loaded_ready k Hk) Hf) as Hc.
  pose proof Hk as [S1 S2 S3 S4 S5 _]. pose proof Hf as [(Ew & Ed & Ec & _) Hd].
  split; rewrite ?Ew, ?Ed, ?Ec.
  - done.
  - intros w Hw. destruct (proj2 (proj1 S2 w)) as [wr Hwr]; [lia|]. exists wr.
    split; [done|]. exact (proj2 S2 _ _ Hwr).
  - intros w d Hw Hdd. destruct (proj2 (proj1 S4 (w, d))) as [dr Hdr]; [lia|]. exists dr.
    split; [done|]. by destruct (proj2 S4 _ _ Hdr).
  - intros w d c Hw Hdd Hcc. apply (proj1 S5). left. unfold before. lia.
  - intros w d c. intros H%(proj1 S5). simpl in H. unfold before in H. lia.
  - intros w d c Hw Hdd Hcc. destruct (proj1 (Hd w d)) as (p & Hp & Ho & _); [lia|].
    assert (c ∈ p) as Hin by (rewrite Hp; apply elem_of_seqZ; unfold ORD_PER_DIST, CUST_PER_DIST in *; lia).
    apply list_elem_of_lookup in Hin as [i Hi]. pose proof (lookup_lt_Some _ _ _ Hi) as Hlt.
    rewrite Hp, length_seqZ in Hlt.
    destruct (Ho (Z.of_nat i + 1)) as (r & Hr & Hcust & _); [lia|].
    exists (Z.of_nat i + 1), r. split; [done|].
    replace (Z.to_nat (Z.of_nat i + 1 - 1)) with i in Hcust by lia. congruence.
  - intros w d o r Hr.
    destruct (decide (min_ware ≤ w ≤ max_ware ∧ 1 ≤ d ≤ DIST_PER_WARE)) as [Hin|Hout].
    + destruct (proj1 (Hd w d) Hin) as (p & _ & Ho & Hno).
      destruct (decide (1 ≤ o ≤ ORD_PER_DIST)) as [Hoo|Hoo].
      * destruct (Ho o Hoo) as (r' & Hr' & _ & Hcnt & _). rewrite Hr in Hr'.
        injection Hr' as <-. lia.
      * destruct (Hno o Hoo) as [Habs _]. congruence.
    + destruct (proj2 (Hd w d) Hout o) as [Habs _]. congruence.
Qed.

Lemma stable_LoadOrd fuel : stable (LoadOrd (conn:=conn) fuel).
Proof. unfold LoadOrd. solve_keeps; auto using stable_Orders, stable_commit_ with keepdb. Qed.

Lemma LoadOrd_all fuel :
  min_ware = 1 → 1 ≤ max_ware →
  triple (settled all_loaded) (LoadOrd (conn:=conn) (S fuel)) (λ _, settled (populated max_ware))
    gave_up.
Proof.
  intros Hmin Hmax. apply settled_step; [apply stable_LoadOrd|]. intros k Hk.
  eapply triple_conseq; [|apply (LoadOrd_rule fuel k); lia| |].
  - intros l Hat. left. exists k. split; [|done]. split; [by repeat split|]. intros w d.
    split; [unfold before; lia|]. intros _. apply (ready_orders _ _ _ (all_loaded_ready k Hk)).
  - intros [] l. apply settled_mono. intros b. by apply filled_populated.
  - intros e l H. by right.
Qed.

Lemma empty_stage : items_upto 1 db_empty.
Proof. split; try (apply tbl_empty; unfold none; lia || (intros ? []) || naive_solver). done. Qed.

Lemma load_rule fuel l :
  min_ware = 1 → 1 ≤ max_ware → support_ok (ld_support l) →
  view (ld_conn l) = db_empty → durable (ld_conn l) = db_empty →
  match load_main (conn:=conn) (S fuel) None l with
  | (Done _, l') => settled (populated max_ware) l'
  | (Leave e, l') => gave_up e l'
  end.
Proof.
  intros Hmin Hmax Hok Hv Hd.
  enough (triple (lat db_empty db_empty support_ok) (load_main (conn:=conn) (S fuel) None)
    (λ _, settled (populated max_ware)) gave_up) as H by (apply (H l); by split_and!).
  unfold load_main. apply triple_assoc.
  eapply triple_bind; [apply LoadItems_rule, empty_stage|]. intros []. apply triple_assoc.
  eapply (triple_bind _ _ (λ _, settled (wares_upto (max_ware + 1)))).
  { eapply triple_weaken; [apply LoadWare_rule; lia|]. intros l'. apply settled_mono.
    intros b. apply stage_iff; try done; [|intros [w i]..]; unfold none; lia. }
  intros []. apply triple_assoc.
  eapply (triple_bind _ _ (λ _, settled all_loaded)).
  { eapply triple_weaken; [apply LoadCust_rule; lia|]. intros l'. apply settled_mono.
    intros b. apply stage_iff; try done. intros [[w d] c]. unfold none, before. lia. }
  intros []. eapply triple_bind; [by apply LoadOrd_all|]. intros [].
  apply settled_step; [apply stable_commit_|]. intros b Hb. by apply commit_last.
Qed.

End whole.

Definition zero_orig : OrigSlots := λ _, 0.

