(* ===== verification/FioBits.v ===== *)
(** * fio: words of 64 bits

    Unsigned long values as integers, the bit searches of lib/ffz.h, and the
    lemmas on single bits the bitmap needs. *)

From Stdlib Require Import ZArith Lia.
From stdpp Require Import base list numbers.
From S2P Require Import Prelude.

Definition ULONG_MAX : Z := 2 ^ 64 - 1.

(** [~x] of an unsigned long. *)
Definition not64 (x : Z) : Z := Z.lxor x ULONG_MAX.

(** [x << n] of an unsigned long. *)
Definition shl64 (x n : Z) : Z := u64 (Z.shiftl x n).

Definition is_word (w : Z) : Prop := 0 ≤ w < 2 ^ 64.

(** ** lib/ffz.h *)

(** [if (!(word & mask)) { word >>= h; r += h; }] *)
Definition ffs_step (x : Z * Z) (mh : Z * Z) : Z * Z :=
  let '(r, word) := x in let '(mask, h) := mh in
  if Z.land word mask =? 0 then (r + h, Z.shiftr word h) else (r, word).

Definition ffs_steps : list (Z * Z) :=
  [(0xffffffff, 32); (0xffff, 16); (0xff, 8); (0xf, 4); (3, 2); (1, 1)].

Definition __ffs (word : Z) : Z := (foldl ffs_step (0, word) ffs_steps).1.

Definition ffz (bitmask : Z) : Z := __ffs (not64 bitmask).

(** ** Bits of words *)

Lemma word_bits_high (w i : Z) : is_word w → 64 ≤ i → Z.testbit w i = false.
Proof.
  intros Hw Hi. destruct (decide (w = 0)) as [->|]; [apply Z.bits_0|].
  unfold is_word in Hw. apply Z.bits_above_log2; [lia|].
  apply Z.le_lt_trans with (Z.log2 (2 ^ 64 - 1)); [apply Z.log2_le_mono; lia|].
  change (Z.log2 (2 ^ 64 - 1)) with 63. lia.
Qed.

Lemma word_of_bits (w : Z) : 0 ≤ w → (∀ i, 64 ≤ i → Z.testbit w i = false) → is_word w.
Proof.
  intros Hw Hb. split; [done|]. destruct (decide (w = 0)) as [->|]; [lia|].
  apply Z.log2_lt_pow2; [lia|]. destruct (Z.lt_ge_cases (Z.log2 w) 64) as [?|Hge]; [done|].
  specialize (Hb _ Hge). rewrite Z.bit_log2 in Hb by lia. done.
Qed.

Lemma ULONG_MAX_bits (i : Z) : 0 ≤ i → Z.testbit ULONG_MAX i = (i <? 64).
Proof.
  intros Hi. change ULONG_MAX with (Z.ones 64). destruct (Z.ltb_spec i 64).
  - apply Z.ones_spec_low. lia.
  - apply Z.ones_spec_high. lia.
Qed.

Lemma ULONG_MAX_word : is_word ULONG_MAX.
Proof. unfold is_word, ULONG_MAX. lia. Qed.

(** Two words with the same bits are equal. *)
Lemma word_ext (v w : Z) :
  is_word v → is_word w → (∀ i, 0 ≤ i < 64 → Z.testbit v i = Z.testbit w i) → v = w.
Proof.
  intros Hv Hw H. apply Z.bits_inj'. intros i Hi. destruct (decide (i < 64)).
  - apply H. lia.
  - by rewrite !word_bits_high by (done || lia).
Qed.

Lemma word_full (w : Z) :
  is_word w → w = ULONG_MAX ↔ ∀ i, 0 ≤ i < 64 → Z.testbit w i = true.
Proof.
  intros Hw. split.
  - intros -> i Hi. rewrite ULONG_MAX_bits by lia. apply Z.ltb_lt. lia.
  - intros H. apply word_ext; [done|apply ULONG_MAX_word|]. intros i Hi.
    rewrite H, ULONG_MAX_bits by lia. symmetry. apply Z.ltb_lt. lia.
Qed.

Lemma lor_word (v w : Z) : is_word v → is_word w → is_word (Z.lor v w).
Proof.
  intros Hv Hw. apply word_of_bits.
  - apply Z.lor_nonneg. split; [apply Hv|apply Hw].
  - intros i Hi. by rewrite Z.lor_spec, !word_bits_high by done.
Qed.

Lemma land_word (v w : Z) : is_word v → 0 ≤ w → is_word (Z.land v w).
Proof.
  intros Hv Hw. apply word_of_bits.
  - apply Z.land_nonneg. left. apply Hv.
  - intros i Hi. by rewrite Z.land_spec, (word_bits_high v) by done.
Qed.

Lemma not64_bits (w i : Z) : 0 ≤ i → Z.testbit (not64 w) i = xorb (Z.testbit w i) (i <? 64).
Proof. intros Hi. unfold not64. by rewrite Z.lxor_spec, ULONG_MAX_bits. Qed.

Lemma not64_word (w : Z) : is_word w → is_word (not64 w).
Proof.
  intros Hw. apply word_of_bits.
  - apply Z.lxor_nonneg. split; intros _; [unfold ULONG_MAX; lia|apply Hw].
  - intros i Hi. rewrite not64_bits, word_bits_high by (done || lia).
    rewrite (proj2 (Z.ltb_ge i 64)) by lia. done.
Qed.

Lemma shl64_1_bits (b i : Z) :
  0 ≤ b < 64 → 0 ≤ i → Z.testbit (shl64 1 b) i = bool_decide (i = b).
Proof.
  intros Hb Hi. unfold shl64, u64. rewrite Z.shiftl_1_l, Z.mod_small.
  - rewrite Z.pow2_bits_eqb by lia. case_bool_decide; [apply Z.eqb_eq|apply Z.eqb_neq]; lia.
  - split; [lia|]. apply Z.pow_lt_mono_r; lia.
Qed.

Lemma shl64_word (x n : Z) : is_word (shl64 x n).
Proof. unfold shl64, u64, is_word. by apply Z.mod_pos_bound. Qed.

(** ** The least set bit *)

Definition low_zero (w r : Z) : Prop := 0 ≤ r ∧ ∀ i, 0 ≤ i < r → Z.testbit w i = false.

Lemma land_ones_0 (w h : Z) :
  0 ≤ h → Z.land w (Z.ones h) = 0 ↔ ∀ i, 0 ≤ i < h → Z.testbit w i = false.
Proof.
  intros Hh. split.
  - intros E i Hi. assert (Z.testbit (Z.land w (Z.ones h)) i = false) as H by (by rewrite E, Z.bits_0).
    by rewrite Z.land_spec, Z.ones_spec_low, andb_true_r in H by lia.
  - intros H. apply Z.bits_inj'. intros i Hi. rewrite Z.land_spec, Z.bits_0.
    destruct (decide (i < h)); [rewrite H by lia; done|].
    by rewrite Z.ones_spec_high, andb_false_r by lia.
Qed.

Lemma ffs_step_ok (w r h : Z) :
  0 < h → low_zero w r → Z.land (Z.shiftr w r) (Z.ones (2 * h)) ≠ 0 →
  ∃ r', ffs_step (r, Z.shiftr w r) (Z.ones h, h) = (r', Z.shiftr w r') ∧
    r ≤ r' ≤ r + h ∧ low_zero w r' ∧ Z.land (Z.shiftr w r') (Z.ones h) ≠ 0.
Proof.
  intros Hh [Hr Hlow] Hne. unfold ffs_step.
  destruct (Z.eqb_spec (Z.land (Z.shiftr w r) (Z.ones h)) 0) as [E|E].
  - exists (r + h). rewrite Z.shiftr_shiftr by lia. split; [done|]. split; [lia|].
    rewrite land_ones_0 in E by lia.
    assert (low_zero w (r + h)) as Hlow'.
    { split; [lia|]. intros i Hi. destruct (decide (i < r)); [apply Hlow; lia|].
      specialize (E (i - r) ltac:(lia)). rewrite Z.shiftr_spec in E by lia.
      by replace (i - r + r) with i in E by lia. }
    split; [done|]. rewrite land_ones_0 by lia. intros H. apply Hne.
    rewrite land_ones_0 by lia. intros i Hi. destruct (decide (i < h)); [apply E; lia|].
    specialize (H (i - h) ltac:(lia)). rewrite Z.shiftr_spec in H |- * by lia.
    by replace (i - h + (r + h)) with (i + r) in H by lia.
  - exists r. split; [done|]. split; [lia|]. done.
Qed.

Lemma ffs_spec (w : Z) :
  is_word w → w ≠ 0 →
  0 ≤ __ffs w < 64 ∧ Z.testbit w (__ffs w) = true ∧
  ∀ i, 0 ≤ i < __ffs w → Z.testbit w i = false.
Proof.
  intros Hw Hne. unfold __ffs, ffs_steps. cbn [foldl].
  change 0xffffffff with (Z.ones 32). change 0xffff with (Z.ones 16).
  change 0xff with (Z.ones 8). change 0xf with (Z.ones 4).
  change (3, 2) with (Z.ones 2, 2). change (1, 1) with (Z.ones 1, 1).
  change (0, w) with (0, Z.shiftr w 0).
  destruct (ffs_step_ok w 0 32) as (r1 & -> & Hb1 & Hz1 & Hn1); [lia|by split; [|lia]| |].
  { rewrite Z.shiftr_0_r. change (2 * 32) with 64. rewrite Z.land_ones, Z.mod_small by (done || lia). done. }
  destruct (ffs_step_ok w r1 16) as (r2 & -> & Hb2 & Hz2 & Hn2); [lia|done|done|].
  destruct (ffs_step_ok w r2 8) as (r3 & -> & Hb3 & Hz3 & Hn3); [lia|done|done|].
  destruct (ffs_step_ok w r3 4) as (r4 & -> & Hb4 & Hz4 & Hn4); [lia|done|done|].
  destruct (ffs_step_ok w r4 2) as (r5 & -> & Hb5 & Hz5 & Hn5); [lia|done|done|].
  destruct (ffs_step_ok w r5 1) as (r6 & -> & Hb6 & [Hb7 Hz6] & Hn6); [lia|done|done|].
  cbn [fst]. split; [lia|]. split; [|done].
  destruct (Z.testbit w r6) eqn:E; [done|]. exfalso. apply Hn6. rewrite land_ones_0 by lia.
  intros i Hi. assert (i = 0) as -> by lia. by rewrite Z.shiftr_spec, Z.add_0_l by lia.
Qed.

(** [ffz] finds the least clear bit of a word that is not full. *)
Lemma ffz_spec (w : Z) :
  is_word w → w ≠ ULONG_MAX →
  0 ≤ ffz w < 64 ∧ Z.testbit w (ffz w) = false ∧
  ∀ i, 0 ≤ i < ffz w → Z.testbit w i = true.
Proof.
  intros Hw Hne. unfold ffz. destruct (ffs_spec (not64 w)) as (Hr & Hb & Hl).
  - by apply not64_word.
  - intros E. apply Hne. apply word_full; [done|]. intros i Hi.
    assert (Z.testbit (not64 w) i = false) as H by (by rewrite E, Z.bits_0).
    rewrite not64_bits, (proj2 (Z.ltb_lt i 64)) in H by lia. by destruct (Z.testbit w i).
  - split; [done|]. split.
    + rewrite not64_bits, (proj2 (Z.ltb_lt _ 64)) in Hb by lia. by destruct (Z.testbit w _).
    + intros i Hi. specialize (Hl i Hi). rewrite not64_bits, (proj2 (Z.ltb_lt i 64)) in Hl by lia.
      by destruct (Z.testbit w i).
Qed.
