(* ===== verification/FioAxmapLevels.v ===== *)
(** * fio: the levels of an axmap

    The arithmetic of levels: a level is a list of words, a bit of a level is
    addressed by its number, and adjacent levels are linked when a bit of the
    upper one says that a word of the lower one is full.  Setting and clearing a
    bit along the levels keep the links. *)

From Stdlib Require Import ZArith Lia.
From stdpp Require Import base list numbers.
From S2P Require Import Prelude FioBits.

(** Word [j] and bit [x] of a level. *)
Definition word (ws : list Z) (j : Z) : Z := default 0 (ws !! Z.to_nat j).
Definition lbit (ws : list Z) (x : Z) : bool := Z.testbit (word ws (x / 64)) (x mod 64).

Definition len (ws : list Z) : Z := Z.of_nat (length ws).

(** [n] divided by 64, rounded up. *)
Definition up64 (n : Z) : Z := (n + 63) / 64.

Definition level_words (ws : list Z) : Prop := Forall is_word ws.

Record link (ws ws' : list Z) : Prop := {
  link_len : len ws' = up64 (len ws);
  link_bit : ∀ j, 0 ≤ j → lbit ws' j = bool_decide (j < len ws ∧ word ws j = ULONG_MAX);
}.

Fixpoint linked (maps : list (list Z)) : Prop :=
  match maps with
  | ws :: rest => match rest with ws' :: _ => link ws ws' | [] => True end ∧ linked rest
  | [] => True
  end.

(** ** Words and bits *)

Lemma word_lookup (ws : list Z) (j : Z) :
  0 ≤ j < len ws → ws !! Z.to_nat j = Some (word ws j).
Proof.
  intros Hj. unfold word, len in *.
  destruct (lookup_lt_is_Some_2 ws (Z.to_nat j)) as [w ->]; [lia|done].
Qed.

Lemma word_is_word (ws : list Z) (j : Z) : level_words ws → is_word (word ws j).
Proof.
  intros Hw. unfold word. destruct (ws !! Z.to_nat j) as [w|] eqn:E.
  - by eapply Forall_lookup_1 in Hw.
  - unfold is_word. simpl. lia.
Qed.

Lemma word_insert (ws : list Z) (j k w : Z) :
  0 ≤ j < len ws → 0 ≤ k →
  word (<[Z.to_nat j := w]> ws) k = if decide (k = j) then w else word ws k.
Proof.
  intros Hj Hk. unfold word, len in *. case_decide as E; subst.
  - rewrite list_lookup_insert_eq by lia. done.
  - by rewrite list_lookup_insert_ne by lia.
Qed.

Lemma len_insert (ws : list Z) (n : nat) (w : Z) : len (<[n := w]> ws) = len ws.
Proof. unfold len. by rewrite length_insert. Qed.

Lemma word_full_bits (ws : list Z) (j : Z) :
  level_words ws → word ws j = ULONG_MAX ↔ ∀ x, x / 64 = j → lbit ws x = true.
Proof.
  intros Hw. rewrite word_full by (by apply word_is_word). split.
  - intros H x <-. apply H, Z.mod_pos_bound. lia.
  - intros H i Hi. specialize (H (64 * j + i)). unfold lbit in H.
    assert ((64 * j + i) / 64 = j) as Ed by (symmetry; apply Z.div_unique with i; lia).
    assert ((64 * j + i) mod 64 = i) as Em by (symmetry; apply Z.mod_unique with j; lia).
    rewrite Ed, Em in H. by apply H.
Qed.

(** ** Setting and clearing one bit *)

Definition set_bit (ws : list Z) (x : Z) : list Z :=
  <[Z.to_nat (x / 64) := Z.lor (word ws (x / 64)) (shl64 1 (x mod 64))]> ws.
Definition clear_bit (ws : list Z) (x : Z) : list Z :=
  <[Z.to_nat (x / 64) := Z.land (word ws (x / 64)) (not64 (shl64 1 (x mod 64)))]> ws.

Lemma same_bit (x y : Z) : x / 64 = y / 64 → x mod 64 = y mod 64 → x = y.
Proof. intros Hd Hm. rewrite (Z.div_mod x 64), (Z.div_mod y 64), Hd, Hm; lia. Qed.

Section one_bit.
Context (ws : list Z) (x : Z) (Hx : 0 ≤ x < 64 * len ws).

Let Hoff : 0 ≤ x / 64 < len ws.
Proof. split; [apply Z.div_pos; lia|apply Z.div_lt_upper_bound; lia]. Qed.
Let Hbit : 0 ≤ x mod 64 < 64.
Proof. apply Z.mod_pos_bound. lia. Qed.

Lemma lbit_set (y : Z) : 0 ≤ y → lbit (set_bit ws x) y = bool_decide (y = x) || lbit ws y.
Proof using Hx.
  intros Hy. unfold lbit, set_bit.
  assert (0 ≤ y mod 64 < 64) by (apply Z.mod_pos_bound; lia).
  rewrite word_insert by (done || by apply Z.div_pos). case_decide as Ed.
  - rewrite Z.lor_spec, shl64_1_bits, Ed by lia. rewrite orb_comm. f_equal.
    apply bool_decide_ext. split; [|by intros ->]. intros Em. by apply same_bit.
  - rewrite bool_decide_false by (by intros ->). done.
Qed.

Lemma lbit_clear (y : Z) : 0 ≤ y → lbit (clear_bit ws x) y = negb (bool_decide (y = x)) && lbit ws y.
Proof using Hx.
  intros Hy. unfold lbit, clear_bit.
  assert (0 ≤ y mod 64 < 64) by (apply Z.mod_pos_bound; lia).
  rewrite word_insert by (done || by apply Z.div_pos). case_decide as Ed.
  - rewrite Z.land_spec, not64_bits, shl64_1_bits, Ed by lia.
    rewrite (proj2 (Z.ltb_lt (y mod 64) 64)), xorb_true_r by lia. rewrite andb_comm. f_equal. f_equal.
    apply bool_decide_ext. split; [|by intros ->]. intros Em. by apply same_bit.
  - rewrite bool_decide_false by (by intros ->). done.
Qed.

Lemma set_bit_words : level_words ws → level_words (set_bit ws x).
Proof using Hx.
  intros Hw. apply Forall_insert; [done|]. apply lor_word; [by apply word_is_word|apply shl64_word].
Qed.
Lemma clear_bit_words : level_words ws → level_words (clear_bit ws x).
Proof using Hx.
  intros Hw. apply Forall_insert; [done|]. apply land_word; [by apply word_is_word|].
  apply not64_word, shl64_word.
Qed.
End one_bit.

Lemma set_bit_len (ws : list Z) (x : Z) : len (set_bit ws x) = len ws.
Proof. apply len_insert. Qed.
Lemma clear_bit_len (ws : list Z) (x : Z) : len (clear_bit ws x) = len ws.
Proof. apply len_insert. Qed.

(** ** Along the levels *)

(** A bit that is clear is set; the bit above it is set when the word became
    full. *)
Fixpoint set_up (x : Z) (maps : list (list Z)) : list (list Z) :=
  match maps with
  | [] => []
  | ws :: rest =>
      if lbit ws x then ws :: rest
      else
        let ws' := set_bit ws x in
        ws' :: (if word ws' (x / 64) =? ULONG_MAX then set_up (x / 64) rest else rest)
  end.

(** A bit that is set is cleared, and the bit above it too. *)
Fixpoint clear_up (x : Z) (maps : list (list Z)) : list (list Z) :=
  match maps with
  | [] => []
  | ws :: rest => if lbit ws x then clear_bit ws x :: clear_up (x / 64) rest else ws :: rest
  end.

(** The bit number is valid at the lowest of these levels. *)
Definition inside (x : Z) (maps : list (list Z)) : Prop :=
  match maps with ws :: _ => 0 ≤ x < 64 * len ws | [] => True end.

Definition head_bit (maps : list (list Z)) (y : Z) : bool :=
  match maps with ws :: _ => lbit ws y | [] => false end.

Lemma up64_bound (n j : Z) : j < n → j < 64 * up64 n.
Proof. intros Hj. unfold up64. pose proof (Z.div_mod (n + 63) 64). pose proof (Z.mod_pos_bound (n + 63) 64). lia. Qed.

Lemma inside_up (x : Z) (ws : list Z) (rest : list (list Z)) :
  linked (ws :: rest) → inside x (ws :: rest) → inside (x / 64) rest.
Proof.
  intros Hl Hx. destruct rest as [|ws' rest]; [done|]. simpl in *. destruct Hl as [[Hlen _] _].
  assert (0 ≤ x / 64 < len ws) as Hd.
  { split; [apply Z.div_pos; lia|apply Z.div_lt_upper_bound; lia]. }
  rewrite Hlen. split; [lia|]. apply up64_bound. lia.
Qed.

(** The bit above says whether the word is full. *)
Lemma link_word (ws ws' : list Z) (j : Z) :
  link ws ws' → 0 ≤ j < len ws → lbit ws' j = bool_decide (word ws j = ULONG_MAX).
Proof. intros Hl Hj. rewrite (link_bit _ _ Hl) by lia. apply bool_decide_ext. naive_solver lia. Qed.

(** What keeps a tower of levels in order: same sizes, words, links. *)
Record tower_step (maps maps' : list (list Z)) : Prop := {
  ts_len : len <$> maps' = len <$> maps;
  ts_words : Forall level_words maps';
  ts_linked : linked maps';
}.

Lemma word_other (f : list Z → Z → list Z) (ws : list Z) (x j w : Z) :
  f ws x = <[Z.to_nat (x / 64) := w]> ws → 0 ≤ x < 64 * len ws → 0 ≤ j → j ≠ x / 64 →
  word (f ws x) j = word ws j.
Proof.
  intros E Hx Hj Hne. rewrite E, word_insert; [by rewrite decide_False| |done].
  split; [apply Z.div_pos; lia|apply Z.div_lt_upper_bound; lia].
Qed.

Lemma not_full_of_bit (ws : list Z) (x : Z) :
  level_words ws → lbit ws x = false → word ws (x / 64) ≠ ULONG_MAX.
Proof. intros Hw Hb Hf. rewrite word_full_bits in Hf by done. by rewrite Hf in Hb. Qed.

(** A changed lower level and a changed bit above it. *)
Lemma link_update (ws ws1 ws' ws1' : list Z) (k : Z) :
  link ws ws1 → len ws' = len ws → len ws1' = len ws1 → 0 ≤ k < len ws →
  (∀ j, 0 ≤ j → j ≠ k → word ws' j = word ws j ∧ lbit ws1' j = lbit ws1 j) →
  lbit ws1' k = bool_decide (word ws' k = ULONG_MAX) →
  link ws' ws1'.
Proof.
  intros [Hl Hb] H1 H2 Hk Ho Hk'. split; [congruence|]. intros j Hj.
  destruct (decide (j = k)) as [->|Hne].
  - rewrite Hk', H1. apply bool_decide_ext. naive_solver lia.
  - destruct (Ho j Hj Hne) as [-> ->]. by rewrite Hb, H1.
Qed.

Lemma set_up_ok (x : Z) (maps : list (list Z)) :
  linked maps → Forall level_words maps → inside x maps → maps ≠ [] →
  tower_step maps (set_up x maps) ∧
  ∀ y, 0 ≤ y → head_bit (set_up x maps) y = bool_decide (y = x) || head_bit maps y.
Proof.
  revert x; induction maps as [|ws rest IH]; intros x Hl Hw Hx Hne; [done|].
  pose proof (inside_up x ws rest Hl Hx) as Hup. pose proof Hl as [Hlink Hrest].
  apply list.Forall_cons in Hw as [Hws Hwr]. simpl in Hx |- *. destruct (lbit ws x) eqn:Eb.
  { split; [split; [done|by constructor|done]|]. intros y Hy. case_bool_decide; subst; simpl; [|done].
    by rewrite Eb. }
  assert (0 ≤ x / 64 < len ws) as Hoff.
  { split; [apply Z.div_pos; lia|apply Z.div_lt_upper_bound; lia]. }
  pose proof (not_full_of_bit ws x Hws Eb) as Hnf.
  split; [|intros y Hy; simpl; by apply lbit_set].
  assert (∀ j, 0 ≤ j → j ≠ x / 64 → word (set_bit ws x) j = word ws j) as Hother.
  { intros j Hj Hne'. by eapply word_other. }
  destruct rest as [|ws1 rest].
  { destruct (_ =? _); simpl; (split; [simpl; by rewrite set_bit_len| |done]);
      (constructor; [by apply set_bit_words|constructor]). }
  destruct (Z.eqb_spec (word (set_bit ws x) (x / 64)) ULONG_MAX) as [Ef|Ef].
  - destruct (IH (x / 64) Hrest Hwr Hup ltac:(done)) as [[Hlen Hwords Hlinked] Hhead].
    destruct (set_up (x / 64) (ws1 :: rest)) as [|ws1' rest'] eqn:Eu; [done|].
    simpl in Hhead. rewrite !fmap_cons in Hlen. injection Hlen as Hlen1 Hlenr.
    split; [rewrite !fmap_cons, set_bit_len, Hlen1, <- Hlenr; done|constructor; [by apply set_bit_words|done]|].
    split; [|done]. apply (link_update ws ws1 _ _ (x / 64)); auto using set_bit_len.
    + intros j Hj Hne'. split; [by apply Hother|]. rewrite Hhead by done. by rewrite bool_decide_false.
    + rewrite Hhead by lia. by rewrite !bool_decide_true.
  - split; [csimpl; by rewrite set_bit_len|constructor; [by apply set_bit_words|done]|].
    split; [|done]. apply (link_update ws ws1 _ _ (x / 64)); auto using set_bit_len.
    rewrite (link_word ws ws1) by done. by rewrite !bool_decide_false.
Qed.

Lemma clear_up_ok (x : Z) (maps : list (list Z)) :
  linked maps → Forall level_words maps → inside x maps → maps ≠ [] →
  tower_step maps (clear_up x maps) ∧
  ∀ y, 0 ≤ y → head_bit (clear_up x maps) y = negb (bool_decide (y = x)) && head_bit maps y.
Proof.
  revert x; induction maps as [|ws rest IH]; intros x Hl Hw Hx Hne; [done|].
  pose proof (inside_up x ws rest Hl Hx) as Hup. pose proof Hl as [Hlink Hrest].
  apply list.Forall_cons in Hw as [Hws Hwr]. simpl in Hx |- *. destruct (lbit ws x) eqn:Eb.
  2: { split; [split; [done|by constructor|done]|]. intros y Hy. simpl.
       case_bool_decide; subst; simpl; [done|]. done. }
  assert (0 ≤ x / 64 < len ws) as Hoff.
  { split; [apply Z.div_pos; lia|apply Z.div_lt_upper_bound; lia]. }
  split; [|intros y Hy; simpl; by apply lbit_clear].
  assert (∀ j, 0 ≤ j → j ≠ x / 64 → word (clear_bit ws x) j = word ws j) as Hother.
  { intros j Hj Hne'. by eapply word_other. }
  assert (word (clear_bit ws x) (x / 64) ≠ ULONG_MAX) as Hnf.
  { apply not_full_of_bit; [by apply clear_bit_words|]. rewrite lbit_clear by lia.
    by rewrite bool_decide_true. }
  destruct rest as [|ws1 rest].
  { split; [simpl; by rewrite clear_bit_len| |done]. constructor; [by apply clear_bit_words|constructor]. }
  destruct (IH (x / 64) Hrest Hwr Hup ltac:(done)) as [[Hlen Hwords Hlinked] Hhead].
  destruct (clear_up (x / 64) (ws1 :: rest)) as [|ws1' rest'] eqn:Eu; [done|].
  simpl in Hhead. rewrite !fmap_cons in Hlen. injection Hlen as Hlen1 Hlenr.
  split; [rewrite !fmap_cons, clear_bit_len, Hlen1, <- Hlenr; done|constructor; [by apply clear_bit_words|done]|].
  split; [|done]. apply (link_update ws ws1 _ _ (x / 64)); auto using clear_bit_len.
  - intros j Hj Hne'. split; [by apply Hother|]. rewrite Hhead by done. by rewrite bool_decide_false.
  - rewrite Hhead by lia. rewrite bool_decide_true by done. by rewrite bool_decide_false.
Qed.

(** ** Reading downwards *)

(** Level [i], and the number of the bit of level [i] over bit [b] of level 0. *)
Definition level_at (maps : list (list Z)) (i : nat) : list Z := maps !!! i.
Definition over (b : Z) (i : nat) : Z := b / 64 ^ Z.of_nat i.

Lemma over_S (b : Z) (i : nat) : 0 ≤ b → over b (S i) = over b i / 64.
Proof.
  intros Hb. unfold over. rewrite Nat2Z.inj_succ, Z.pow_succ_r, Z.mul_comm, Z.div_div by lia. done.
Qed.

Lemma linked_at (maps : list (list Z)) (i : nat) :
  linked maps → (S i < length maps)%nat → link (level_at maps i) (level_at maps (S i)).
Proof.
  revert i; induction maps as [|ws rest IH]; intros i Hl Hi; simpl in *; [lia|].
  destruct Hl as [Hl Hr]. destruct i as [|i].
  - destruct rest; [simpl in Hi; lia|done].
  - apply IH; [done|lia].
Qed.

Section reading.
Context (maps : list (list Z)) (Hl : linked maps) (Hw : Forall level_words maps).

Lemma level_at_words (i : nat) : level_words (level_at maps i).
Proof using Hw.
  unfold level_at. rewrite list_lookup_total_alt. destruct (maps !! i) as [ws|] eqn:E; simpl.
  - by eapply Forall_lookup_1 in Hw.
  - constructor.
Qed.

Definition valid (b : Z) : Prop := 0 ≤ b < 64 * len (level_at maps 0).

Lemma over_inside (b : Z) (i : nat) :
  valid b → (i < length maps)%nat →
  0 ≤ over b i < 64 * len (level_at maps i) ∧ 0 ≤ over b (S i) < len (level_at maps i).
Proof using Hl.
  intros Hb Hi. assert (0 ≤ over b i < 64 * len (level_at maps i)) as H.
  { induction i as [|i IH].
    - unfold over. rewrite Z.pow_0_r, Z.div_1_r. done.
    - rewrite over_S by apply Hb. specialize (IH ltac:(lia)).
      pose proof (linked_at maps i Hl Hi) as [Hlen _]. rewrite Hlen.
      assert (0 ≤ over b i / 64 < len (level_at maps i)).
      { split; [apply Z.div_pos; lia|apply Z.div_lt_upper_bound; lia]. }
      split; [lia|]. apply up64_bound. lia. }
  split; [done|]. rewrite over_S by apply Hb.
  split; [apply Z.div_pos; lia|apply Z.div_lt_upper_bound; lia].
Qed.

(** A set bit at any level stands for set bits below it. *)
Lemma bit_down (b : Z) (i : nat) :
  valid b → (i < length maps)%nat →
  lbit (level_at maps i) (over b i) = true → lbit (level_at maps 0) b = true.
Proof using Hl Hw.
  intros Hb. induction i as [|i IH]; intros Hi Hbit.
  - unfold over in Hbit. by rewrite Z.pow_0_r, Z.div_1_r in Hbit.
  - apply IH; [lia|]. destruct (over_inside b i Hb ltac:(lia)) as [_ Hin].
    rewrite (link_word _ _ _ (linked_at maps i Hl Hi)) in Hbit by done.
    apply bool_decide_eq_true in Hbit.
    eapply word_full_bits; [apply level_at_words|exact Hbit|]. by rewrite over_S by apply Hb.
Qed.

(** The bits over a range of a word below its first clear bit. *)
Lemma over_word (b : Z) (i : nat) (index k : Z) (w : Z) :
  valid b → (i < length maps)%nat → word (level_at maps i) index = w →
  (∀ n, 0 ≤ n < k → Z.testbit w n = true) →
  index ≤ over b (S i) → over b i < 64 * index + k → k ≤ 64 → lbit (level_at maps 0) b = true.
Proof using Hl Hw.
  intros Hb Hi Hword Hones Hge Hlt Hk. apply (bit_down b i Hb Hi).
  rewrite over_S in Hge by apply Hb. pose proof (Z.div_mod (over b i) 64 ltac:(lia)).
  pose proof (Z.mod_pos_bound (over b i) 64 ltac:(lia)).
  assert (over b i / 64 = index) as Ed by lia. unfold lbit. rewrite Ed, Hword. apply Hones. lia.
Qed.

(** The answer of a search that starts at word [index] of level [i]. *)
Definition first_from (i : nat) (index r : Z) : Prop :=
  (r = ULONG_MAX ∧ ∀ b, valid b → index ≤ over b (S i) → lbit (level_at maps 0) b = true) ∨
  (valid r ∧ index ≤ over r (S i) ∧ lbit (level_at maps 0) r = false ∧
   ∀ b, 0 ≤ b < r → index ≤ over b (S i) → lbit (level_at maps 0) b = true).

Section step.
Context (i : nat) (Hi : (i < length maps)%nat) (index : Z).
Context (Hin : 0 ≤ index < len (level_at maps i)).
Context (Hnf : word (level_at maps i) index ≠ ULONG_MAX).

Let w := word (level_at maps i) index.
Let x := 64 * index + ffz w.

Let Hffz : 0 ≤ ffz w < 64 ∧ Z.testbit w (ffz w) = false ∧
  ∀ n, 0 ≤ n < ffz w → Z.testbit w n = true.
Proof. apply ffz_spec; [apply word_is_word, level_at_words|done]. Qed.

Let Hx : x / 64 = index ∧ x mod 64 = ffz w.
Proof.
  split; [symmetry; apply Z.div_unique with (ffz w)|symmetry; apply Z.mod_unique with index]; lia.
Qed.

Lemma free_bit_here : lbit (level_at maps i) x = false.
Proof using All. unfold lbit. destruct Hx as [-> ->]. apply Hffz. Qed.

Lemma first_from_word : i = 0%nat → first_from i index x.
Proof using All.
  pose proof free_bit_here as Hfree. intros ->. right.
  assert (valid x) as Hvx by (unfold valid; lia).
  split; [done|]. unfold over at 1. change (64 ^ Z.of_nat 1) with 64. destruct Hx as [Ex _].
  split; [lia|]. split; [exact Hfree|]. intros b Hb Hge.
  eapply (over_word b 0 index (ffz w)); try done; [unfold valid in *; lia|apply Hffz| |lia].
  unfold over. rewrite Z.pow_0_r, Z.div_1_r. lia.
Qed.

Lemma first_from_end (j : nat) : i = S j → len (level_at maps j) ≤ x → first_from i index ULONG_MAX.
Proof using All.
  intros -> Hend. left. split; [done|]. intros b Hb Hge.
  eapply (over_word b (S j) index (ffz w)); try done; [apply Hffz| |lia].
  destruct (over_inside b j Hb ltac:(lia)) as [_ ?]. fold x. lia.
Qed.

Lemma next_word (j : nat) : i = S j → x < len (level_at maps j) →
  0 ≤ x ∧ word (level_at maps j) x ≠ ULONG_MAX.
Proof using All.
  intros E Hlt. split; [lia|]. pose proof free_bit_here as Hf. subst i.
  rewrite (link_word _ _ _ (linked_at maps j Hl Hi)) in Hf by lia. by apply bool_decide_eq_false in Hf.
Qed.

Lemma first_from_next (j : nat) (r : Z) :
  i = S j → first_from j x r → first_from i index r.
Proof using All.
  intros E Hr. subst i. destruct Hx as [Ex _].
  assert (∀ b, valid b → index ≤ over b (S (S j)) → over b (S j) < x → lbit (level_at maps 0) b = true)
    as Hlow.
  { intros b Hb Hge Hlt. eapply (over_word b (S j) index (ffz w)); try done; [apply Hffz|lia]. }
  destruct Hr as [[-> Hall]|(Hv & Hge & Hf & Hall)].
  - left. split; [done|]. intros b Hb Hge. destruct (decide (x ≤ over b (S j))); [by apply Hall|].
    apply Hlow; [done|done|lia].
  - right. split; [done|]. split.
    { rewrite over_S by apply Hv. rewrite <- Ex. apply Z.div_le_mono; lia. }
    split; [done|]. intros b Hb Hgb. destruct (decide (x ≤ over b (S j))); [by apply Hall|].
    apply Hlow; [unfold valid in *; lia|done|lia].
Qed.
End step.

(** A search from the start of level [i] that skipped full words. *)
Lemma first_from_skip (i : nat) (j r : Z) :
  (i < length maps)%nat → (∀ k, 0 ≤ k < j → word (level_at maps i) k = ULONG_MAX) → 0 ≤ j →
  first_from i j r → first_from i 0 r.
Proof using Hl Hw.
  intros Hi Hfull Hj Hr.
  assert (∀ b, valid b → over b (S i) < j → lbit (level_at maps 0) b = true) as Hlow.
  { intros b Hb Hlt. apply (bit_down b i Hb Hi). destruct (over_inside b i Hb Hi) as [_ Hin].
    eapply word_full_bits; [apply level_at_words|apply (Hfull (over b (S i)))|].
    - lia.
    - by rewrite over_S by apply Hb. }
  destruct Hr as [[-> Hall]|(Hv & Hge & Hf & Hall)].
  - left. split; [done|]. intros b Hb _. destruct (decide (j ≤ over b (S i))); [by apply Hall|].
    apply Hlow; [done|lia].
  - right. split; [done|]. split; [lia|]. split; [done|]. intros b Hb _.
    destruct (decide (j ≤ over b (S i))); [by apply Hall|]. apply Hlow; [unfold valid in *; lia|lia].
Qed.

(** When a level is full, so is the one below. *)
Lemma full_below (i : nat) :
  (S i < length maps)%nat →
  (∀ k, 0 ≤ k < len (level_at maps (S i)) → word (level_at maps (S i)) k = ULONG_MAX) →
  ∀ k, 0 ≤ k < len (level_at maps i) → word (level_at maps i) k = ULONG_MAX.
Proof using Hl Hw.
  intros Hi Hfull k Hk. pose proof (linked_at maps i Hl Hi) as Hlk.
  assert (lbit (level_at maps (S i)) k = true) as Hb.
  { eapply word_full_bits; [apply level_at_words|apply (Hfull (k / 64))|done].
    rewrite (link_len _ _ Hlk). split; [apply Z.div_pos; lia|].
    apply Z.div_lt_upper_bound; [lia|]. apply up64_bound. lia. }
  rewrite (link_word _ _ _ Hlk) in Hb by done. by apply bool_decide_eq_true in Hb.
Qed.
End reading.
