(* ===== verification/FioAxmap.v ===== *)
(** * fio: lib/axmap.c

    The bitmap of bitmaps fio keeps per file to visit every block once: a set bit
    at level N + 1 stands for a full word of level N.  The model is for words of
    64 bits ([BITS_PER_LONG == 64]).  [smalloc] is a parameter: whether its n-th
    call succeeds. *)

From Stdlib Require Import ZArith Lia.
From stdpp Require Import base gmap list numbers.
From S2P Require Import Prelude FioBits FioAxmapLevels.

Definition UNIT_SHIFT : Z := 6.
Definition BLOCKS_PER_UNIT : Z := Z.shiftl 1 UNIT_SHIFT.
Definition BLOCKS_PER_UNIT_MASK : Z := BLOCKS_PER_UNIT - 1.

Record axmap_level : Type := AxmapLevel {
  al_level : Z;
  al_map_size : Z;
  al_map : list Z;
}.

Record axmap : Type := Axmap {
  am_nr_levels : Z;
  am_levels : list axmap_level;
  am_first_free : Z;
  am_nr_bits : Z;
}.

Abbreviation aprog := (prog fault axmap).

Definition set_levels (l : list axmap_level) (m : axmap) : axmap :=
  Axmap (am_nr_levels m) l (am_first_free m) (am_nr_bits m).
Definition set_first_free (f : Z) (m : axmap) : axmap :=
  Axmap (am_nr_levels m) (am_levels m) f (am_nr_bits m).

(** [while (log-- && val) val >>= UNIT_SHIFT;] *)
Fixpoint ulog64 (val : Z) (log : nat) : Z :=
  match log with
  | O => val
  | S log => if val =? 0 then val else ulog64 (Z.shiftr val UNIT_SHIFT) log
  end.

(** ** Creation *)

Definition axmap_reset : aprog unit :=
  m ← getS;
  lv ← for_lt 0 (am_nr_levels m) (λ i lv,
    al ← arr_get lv i;
    arr_set lv i (AxmapLevel (al_level al) (al_map_size al)
                    (replicate (Z.to_nat (al_map_size al)) 0))) (am_levels m);
  putS (Axmap (am_nr_levels m) lv 0 (am_nr_bits m)).

(** [(nr_bits + BLOCKS_PER_UNIT - 1) >> UNIT_SHIFT] in unsigned long. *)
Definition units (nr_bits : Z) : Z :=
  Z.shiftr (u64 (nr_bits + BLOCKS_PER_UNIT - 1)) UNIT_SHIFT.

(** [while (i > 1) { i = ...; levels++; }] with [i] of 32 bits. *)
Fixpoint count_levels {S} (fuel : nat) (i levels : Z) : prog fault S Z :=
  match fuel with
  | O => leave OutOfFuel
  | Datatypes.S fuel =>
      if 1 <? i then count_levels fuel (u32 (units i)) (u32 (levels + 1)) else mret levels
  end.

(** The loop that allocates the levels; [None] at the label [err]. *)
Fixpoint make_levels (alloc : Z → bool) (n : nat) (i nr_bits : Z) : option (list axmap_level) :=
  match n with
  | O => Some []
  | S n =>
      if alloc (2 + i) then
        rest ← make_levels alloc n (i + 1) (units nr_bits);
        Some (AxmapLevel i (units nr_bits) (replicate (Z.to_nat (units nr_bits)) 0) :: rest)
      else None
  end.

(** [smalloc] is called for the map, the array of levels (unchecked), and each
    level.  The state of [prog] is of no use here. *)
Definition axmap_new (alloc : Z → bool) (nr_bits : Z) : prog fault unit (option axmap) :=
  if negb (alloc 0) then mret None
  else
    levels ← count_levels 8 (u32 (units nr_bits)) 1;
    if negb (alloc 1) then leave (Undefined OutOfBounds)
    else
      match make_levels alloc (Z.to_nat levels) 0 nr_bits with
      | None => mret None
      | Some lv =>
          match axmap_reset (Axmap levels lv 0 nr_bits) with
          | (Done _, m) => mret (Some m)
          | (Leave f, _) => leave f
          end
      end.

(** ** Walking the levels *)

Section handlers.
Context {D : Type}.
Variable func : axmap_level → Z → Z → D → aprog (bool * axmap_level * D).

Definition handle_level (i bit_nr : Z) (d : D) : aprog (bool * D) :=
  let index := ulog64 bit_nr (Z.to_nat i) in
  m ← getS;
  al ← arr_get (am_levels m) i;
  '(stop, al, d) ← func al (Z.shiftr index UNIT_SHIFT) (Z.land index BLOCKS_PER_UNIT_MASK) d;
  lv ← arr_set (am_levels m) i al;
  modS (set_levels lv);;
  mret (stop, d).

(** [for (i = 0; i < nr_levels; i++)] with the early return. *)
Fixpoint handle_up (n : nat) (i bit_nr : Z) (d : D) : aprog (bool * D) :=
  match n with
  | O => mret (false, d)
  | S n =>
      '(stop, d) ← handle_level i bit_nr d;
      if stop : bool then mret (true, d) else handle_up n (i + 1) bit_nr d
  end.

Definition axmap_handler (bit_nr : Z) (d : D) : aprog (bool * D) :=
  m ← getS; handle_up (Z.to_nat (am_nr_levels m)) 0 bit_nr d.

(** [for (i = nr_levels - 1; i >= 0; i--)] *)
Fixpoint handle_down (n : nat) (bit_nr : Z) (d : D) : aprog (bool * D) :=
  match n with
  | O => mret (false, d)
  | S n =>
      '(stop, d) ← handle_level (Z.of_nat n) bit_nr d;
      if stop : bool then mret (true, d) else handle_down n bit_nr d
  end.

Definition axmap_handler_topdown (bit_nr : Z) (d : D) : aprog (bool * D) :=
  m ← getS; handle_down (Z.to_nat (am_nr_levels m)) bit_nr d.
End handlers.

(** ** Clearing and testing *)

Definition axmap_clear_fn (al : axmap_level) (offset bit : Z) (_ : unit)
  : aprog (bool * axmap_level * unit) :=
  w ← arr_get (al_map al) offset;
  if Z.land w (shl64 1 bit) =? 0 then mret (true, al, tt)
  else
    map ← arr_set (al_map al) offset (Z.land w (not64 (shl64 1 bit)));
    mret (false, AxmapLevel (al_level al) (al_map_size al) map, tt).

Definition axmap_clear (bit_nr : Z) : aprog unit :=
  axmap_handler axmap_clear_fn bit_nr tt;; mret tt.

Definition axmap_isset_fn (al : axmap_level) (offset bit : Z) (_ : unit)
  : aprog (bool * axmap_level * unit) :=
  w ← arr_get (al_map al) offset;
  mret (negb (Z.land w (shl64 1 bit) =? 0), al, tt).

Definition axmap_isset (bit_nr : Z) : aprog bool :=
  m ← getS;
  if bit_nr <=? am_nr_bits m then
    '(r, _) ← axmap_handler_topdown axmap_isset_fn bit_nr tt; mret r
  else mret false.

(** ** Setting *)

Record axmap_set_data : Type := SetData { sd_nr_bits : Z; sd_set_bits : Z }.

Definition bit_masks : list Z := [
  0x0000000000000000; 0x0000000000000001; 0x0000000000000003; 0x0000000000000007;
  0x000000000000000f; 0x000000000000001f; 0x000000000000003f; 0x000000000000007f;
  0x00000000000000ff; 0x00000000000001ff; 0x00000000000003ff; 0x00000000000007ff;
  0x0000000000000fff; 0x0000000000001fff; 0x0000000000003fff; 0x0000000000007fff;
  0x000000000000ffff; 0x000000000001ffff; 0x000000000003ffff; 0x000000000007ffff;
  0x00000000000fffff; 0x00000000001fffff; 0x00000000003fffff; 0x00000000007fffff;
  0x0000000000ffffff; 0x0000000001ffffff; 0x0000000003ffffff; 0x0000000007ffffff;
  0x000000000fffffff; 0x000000001fffffff; 0x000000003fffffff; 0x000000007fffffff;
  0x00000000ffffffff;
  0x00000001ffffffff; 0x00000003ffffffff; 0x00000007ffffffff; 0x0000000fffffffff;
  0x0000001fffffffff; 0x0000003fffffffff; 0x0000007fffffffff; 0x000000ffffffffff;
  0x000001ffffffffff; 0x000003ffffffffff; 0x000007ffffffffff; 0x00000fffffffffff;
  0x00001fffffffffff; 0x00003fffffffffff; 0x00007fffffffffff; 0x0000ffffffffffff;
  0x0001ffffffffffff; 0x0003ffffffffffff; 0x0007ffffffffffff; 0x000fffffffffffff;
  0x001fffffffffffff; 0x003fffffffffffff; 0x007fffffffffffff; 0x00ffffffffffffff;
  0x01ffffffffffffff; 0x03ffffffffffffff; 0x07ffffffffffffff; 0x0fffffffffffffff;
  0x1fffffffffffffff; 0x3fffffffffffffff; 0x7fffffffffffffff; 0xffffffffffffffff].

(** The loop that masks the overlap off; each turn clears a bit of it. *)
Fixpoint mask_overlap {S} (fuel : nat) (mask overlap nr_bits : Z) : prog fault S (Z * Z) :=
  if overlap =? 0 then mret (mask, nr_bits)
  else
    match fuel with
    | O => leave OutOfFuel
    | Datatypes.S fuel =>
        let clear_mask := not64 (shl64 1 (ffz (not64 overlap))) in
        mask_overlap fuel (Z.land mask clear_mask) (Z.land overlap clear_mask) (u32 (nr_bits - 1))
    end.

Definition axmap_set_fn (al : axmap_level) (offset bit : Z) (data : axmap_set_data)
  : aprog (bool * axmap_level * axmap_set_data) :=
  let nr_bits := Z.min (sd_nr_bits data) (BLOCKS_PER_UNIT - bit) in
  bm ← arr_get bit_masks nr_bits;
  let mask := shl64 bm bit in
  w ← arr_get (al_map al) offset;
  let overlap := Z.land w mask in
  if overlap =? mask then mret (true, al, data)
  else
    '(mask, nr_bits) ← mask_overlap 64 mask overlap nr_bits;
    if mask =? 0 then leave Abort
    else if negb (Z.land w mask =? 0) then leave Abort
    else
      let w := Z.lor w mask in
      map ← arr_set (al_map al) offset w;
      let set_bits := if al_level al =? 0 then nr_bits else sd_set_bits data in
      mret (negb (w =? ULONG_MAX), AxmapLevel (al_level al) (al_map_size al) map,
            SetData 1 set_bits).

(** The loop of [__axmap_set]; the result is the local [set_bits]. *)
Fixpoint set_loop (fuel : nat) (bit_nr nr_bits set_bits : Z) (data : axmap_set_data) : aprog Z :=
  if nr_bits =? 0 then mret set_bits
  else
    match fuel with
    | O => leave OutOfFuel
    | S fuel =>
        '(_, data) ← axmap_handler axmap_set_fn bit_nr data;
        let set_bits := u32 (set_bits + sd_set_bits data) in
        if (sd_set_bits data =? 0) || negb (sd_set_bits data =? u64 (BLOCKS_PER_UNIT - nr_bits))
        then mret set_bits
        else
          let nr_bits := u32 (nr_bits - sd_set_bits data) in
          set_loop fuel (u64 (bit_nr + sd_set_bits data)) nr_bits set_bits
            (SetData nr_bits (sd_set_bits data))
    end.

(** The value is [data->set_bits] on return. *)
Definition __axmap_set (fuel : nat) (bit_nr : Z) (data : axmap_set_data) : aprog Z :=
  m ← getS;
  (if (bit_nr <=? am_first_free m) && (am_first_free m <? u64 (bit_nr + sd_nr_bits data))
   then modS (set_first_free ULONG_MAX) else mret tt);;
  if am_nr_bits m <? bit_nr then mret (sd_set_bits data)
  else
    let nr_bits := if am_nr_bits m <? u64 (bit_nr + sd_nr_bits data)
                   then u32 (am_nr_bits m - bit_nr) else sd_nr_bits data in
    set_loop fuel bit_nr nr_bits 0 data.

(** One turn of the loop is enough for one bit. *)
Definition axmap_set (bit_nr : Z) : aprog unit :=
  __axmap_set 1 bit_nr (SetData 1 0);; mret tt.

Fixpoint set_nr_loop (fuel : nat) (bit_nr nr_bits set_bits : Z) : aprog Z :=
  match fuel with
  | O => leave OutOfFuel
  | S fuel =>
      let max_bits := BLOCKS_PER_UNIT - Z.land bit_nr BLOCKS_PER_UNIT_MASK in
      let this_set := if max_bits <? nr_bits then max_bits else nr_bits in
      got ← __axmap_set 64 bit_nr (SetData this_set 0);
      let set_bits := u32 (set_bits + got) in
      if negb (got =? this_set) then mret set_bits
      else
        let nr_bits := u32 (nr_bits - got) in
        if nr_bits =? 0 then mret set_bits
        else set_nr_loop fuel (u64 (bit_nr + got)) nr_bits set_bits
  end.

Definition axmap_set_nr (fuel : nat) (bit_nr nr_bits : Z) : aprog Z :=
  set_nr_loop fuel bit_nr nr_bits 0.

(** ** Free bits *)

(** [for (j = index; j < map_size; j++)]: the first word that is not full. *)
Fixpoint scan_words {S} (n : nat) (map : list Z) (j : Z) : prog fault S (option (Z * Z)) :=
  match n with
  | O => mret None
  | Datatypes.S n =>
      w ← arr_get map j;
      if w =? ULONG_MAX then scan_words n map (j + 1) else mret (Some (j, w))
  end.

(** [for (i = level; i >= 0; i--)] *)
Fixpoint find_down (n : nat) (index ret : Z) : aprog Z :=
  match n with
  | O => mret ret
  | S n =>
      m ← getS;
      al ← arr_get (am_levels m) (Z.of_nat n);
      if al_map_size al <=? index then mret ULONG_MAX
      else
        r ← scan_words (Z.to_nat (al_map_size al - index)) (al_map al) index;
        match r with
        | None => find_down n index ret
        | Some (j, w) =>
            let x := u64 (shl64 j UNIT_SHIFT + ffz w) in
            find_down n x x
        end
  end.

Definition axmap_find_first_free (level index : Z) : aprog Z :=
  ret ← find_down (Z.to_nat (level + 1)) index ULONG_MAX;
  m ← getS;
  mret (if ret <? am_nr_bits m then ret else ULONG_MAX).

Definition firstfree_valid (m : axmap) : bool := negb (am_first_free m =? ULONG_MAX).

Definition axmap_first_free : aprog Z :=
  m ← getS;
  if firstfree_valid m then mret (am_first_free m)
  else
    f ← axmap_find_first_free (am_nr_levels m - 1) 0;
    modS (set_first_free f);;
    mret f.

Record axmap_next_free_data : Type := NextData { nd_level : Z; nd_offset : Z; nd_bit : Z }.

Definition axmap_next_free_fn (al : axmap_level) (offset bit : Z) (data : axmap_next_free_data)
  : aprog (bool * axmap_level * axmap_next_free_data) :=
  bm ← arr_get bit_masks (Z.land (u64 (nd_bit data + 1)) BLOCKS_PER_UNIT_MASK);
  let mask := not64 bm in
  w ← arr_get (al_map al) offset;
  if Z.land mask (not64 w) =? 0 then mret (false, al, data)
  else if negb (w =? ULONG_MAX) then
    mret (true, al, NextData (al_level al) offset (nd_bit data))
  else
    mret (false, al, NextData (nd_level data) (nd_offset data)
                       (u64 (nd_bit data + BLOCKS_PER_UNIT - 1) / BLOCKS_PER_UNIT)).

Definition UINT_MAX : Z := 2 ^ 32 - 1.

Definition axmap_next_free (bit_nr : Z) : aprog Z :=
  m ← getS;
  if firstfree_valid m && (bit_nr <? am_first_free m) then mret (am_first_free m)
  else
    '(found, data) ← axmap_handler axmap_next_free_fn bit_nr (NextData UINT_MAX 0 bit_nr);
    if negb found then axmap_first_free
    else if nd_level data =? UINT_MAX then leave Abort
    else
      ret ← axmap_find_first_free (nd_level data) (nd_offset data);
      if negb (ret =? ULONG_MAX) then mret ret else axmap_first_free.

(** ** The invariant *)

Definition maps (m : axmap) : list (list Z) := al_map <$> am_levels m.
Definition bitmap (m : axmap) : list Z := level_at (maps m) 0.

Record axmap_ok (m : axmap) : Prop := {
  ok_count : am_nr_levels m = Z.of_nat (length (am_levels m));
  ok_some : (0 < length (am_levels m) ≤ 8)%nat;
  ok_level : ∀ i al, am_levels m !! i = Some al →
    al_level al = Z.of_nat i ∧ al_map_size al = len (al_map al);
  ok_words : Forall level_words (maps m);
  ok_linked : linked (maps m);
  ok_small : Forall (λ ws, 64 * len ws < 2 ^ 64) (maps m);
  ok_bits : 0 < am_nr_bits m ≤ 64 * len (bitmap m);
  ok_free : am_first_free m = ULONG_MAX ∨
    (0 ≤ am_first_free m < am_nr_bits m ∧ lbit (bitmap m) (am_first_free m) = false);
}.

(** *** Addresses *)

Lemma ulog64_over (b : Z) (i : nat) : 0 ≤ b → ulog64 b i = over b i.
Proof.
  revert b; induction i as [|i IH]; intros b Hb; simpl.
  - unfold over. by rewrite Z.pow_0_r, Z.div_1_r.
  - destruct (Z.eqb_spec b 0) as [->|Hne]; [unfold over; by rewrite Z.div_0_l by lia|].
    unfold UNIT_SHIFT. rewrite Z.shiftr_div_pow2, IH by (try apply Z.div_pos; lia).
    change (2 ^ 6) with 64. unfold over.
    rewrite Nat2Z.inj_succ, Z.pow_succ_r, Z.div_div by lia. done.
Qed.

Lemma unit_of (x : Z) : Z.shiftr x UNIT_SHIFT = x / 64.
Proof. unfold UNIT_SHIFT. by rewrite Z.shiftr_div_pow2. Qed.
Lemma bit_in_unit (x : Z) : Z.land x BLOCKS_PER_UNIT_MASK = x mod 64.
Proof. change BLOCKS_PER_UNIT_MASK with (Z.ones 6). by rewrite Z.land_ones. Qed.

(** The word test of the C code is the bit. *)
Lemma test_word (w b : Z) :
  is_word w → 0 ≤ b < 64 → (Z.land w (shl64 1 b) =? 0) = negb (Z.testbit w b).
Proof.
  intros Hw Hb. destruct (Z.testbit w b) eqn:E; simpl.
  - apply Z.eqb_neq. intros H. assert (Z.testbit (Z.land w (shl64 1 b)) b = false) as H' by (by rewrite H, Z.bits_0).
    rewrite Z.land_spec, E, shl64_1_bits in H' by lia. by rewrite bool_decide_true in H'.
  - apply Z.eqb_eq. apply Z.bits_inj'. intros i Hi. rewrite Z.land_spec, shl64_1_bits, Z.bits_0 by lia.
    case_bool_decide; [subst; by rewrite E|apply andb_false_r].
Qed.

(** *** Walking up *)

Definition put (al : axmap_level) (ws : list Z) : axmap_level :=
  AxmapLevel (al_level al) (al_map_size al) ws.

(** What a callback does to a level: whether it stops, and the new words. *)
Fixpoint walk (step : list Z → Z → bool * list Z) (x : Z) (maps : list (list Z)) : list (list Z) :=
  match maps with
  | [] => []
  | ws :: rest => (step ws x).2 :: (if (step ws x).1 then rest else walk step (x / 64) rest)
  end.

Lemma handle_level_run {D} (func : axmap_level → Z → Z → D → aprog (bool * axmap_level * D))
    (i : nat) (b : Z) (d d' : D) (stop : bool) (m : axmap) (al al' : axmap_level) :
  am_levels m !! i = Some al → 0 ≤ b →
  func al (over b i / 64) (over b i mod 64) d m = (Done (stop, al', d'), m) →
  handle_level func (Z.of_nat i) b d m = (Done (stop, d'), set_levels (<[i := al']> (am_levels m)) m).
Proof.
  intros Hal Hb Hf. unfold handle_level. rewrite Nat2Z.id, ulog64_over, unit_of, bit_in_unit by done.
  erewrite bind_done by reflexivity.
  rewrite (arr_get_ok _ _ al), bind_ret by (rewrite ?Nat2Z.id; done || lia).
  rewrite (bind_done _ _ _ _ _ Hf). pose proof (lookup_lt_Some _ _ _ Hal).
  rewrite arr_set_ok, bind_ret, Nat2Z.id by lia. done.
Qed.

Lemma zip_put_maps (suf : list axmap_level) : zip_with put suf (al_map <$> suf) = suf.
Proof. induction suf as [|[] suf IH]; [done|]. csimpl. by rewrite IH. Qed.

Lemma set_levels_twice (l k : list axmap_level) (m : axmap) :
  set_levels l (set_levels k m) = set_levels l m.
Proof. done. Qed.

Section walk_up.
Context {D : Type} (func : axmap_level → Z → Z → D → aprog (bool * axmap_level * D)).
Context (step : list Z → Z → bool * list Z) (P : D → Prop) (i0 : nat).
Hypothesis Hfunc : ∀ al i x d (m : axmap),
  (i0 ≤ i)%nat → al_level al = Z.of_nat i → level_words (al_map al) → 0 ≤ x < 64 * len (al_map al) →
  P d →
  ∃ d', func al (x / 64) (x mod 64) d m =
    (Done ((step (al_map al) x).1, put al (step (al_map al) x).2, d'), m) ∧ P d'.

Lemma handle_up_run (suf pre : list axmap_level) (m : axmap) (b : Z) (d : D) :
  am_levels m = pre ++ suf → (i0 ≤ length pre)%nat → 0 ≤ b →
  (∀ i al, suf !! i = Some al → al_level al = Z.of_nat (length pre + i)) →
  linked (al_map <$> suf) → Forall level_words (al_map <$> suf) →
  inside (over b (length pre)) (al_map <$> suf) → P d →
  ∃ stop d', handle_up func (length suf) (Z.of_nat (length pre)) b d m =
      (Done (stop, d'),
       set_levels (pre ++ zip_with put suf (walk step (over b (length pre)) (al_map <$> suf))) m) ∧
    P d'.
Proof using Hfunc.
  revert pre m d; induction suf as [|al suf IH]; intros pre m d Hlv Hi0 Hb Hlev Hlk Hws Hin HP.
  { exists false, d. split; [|done]. simpl. rewrite app_nil_r in *.
    by destruct m; simpl in *; subst. }
  set (x := over b (length pre)) in *.
  pose proof (inside_up x _ _ Hlk Hin) as Hup. destruct Hlk as [_ Hlk].
  apply list.Forall_cons in Hws as [Hw Hws].
  destruct (Hfunc al (length pre) x d m Hi0) as (d1 & Hf & HP1); [|done|exact Hin|done|].
  { rewrite (Hlev 0%nat al eq_refl). f_equal. lia. }
  csimpl. cbn [handle_up length].
  assert (am_levels m !! length pre = Some al) as Hal.
  { rewrite Hlv, lookup_app_r, Nat.sub_diag by lia. done. }
  rewrite (bind_done _ _ _ _ _ (handle_level_run func _ b d d1 _ m al _ Hal Hb Hf)).
  assert (<[length pre := put al (step (al_map al) x).2]> (am_levels m) =
    (pre ++ [put al (step (al_map al) x).2]) ++ suf) as ->.
  { rewrite Hlv, insert_app_r_alt, Nat.sub_diag by lia. simpl. by rewrite <- app_assoc. }
  destruct ((step (al_map al) x).1) eqn:Es.
  - exists true, d1. split; [|done]. rewrite zip_put_maps, <- app_assoc. done.
  - set (pre' := pre ++ [put al (step (al_map al) x).2]).
    assert (length pre' = S (length pre)) as Hlen by (unfold pre'; rewrite length_app; simpl; lia).
    destruct (IH pre' (set_levels (pre' ++ suf) m) d1) as (stop & d2 & E & HP2); try done.
    + lia.
    + intros i a Ha. rewrite (Hlev (S i) a Ha), Hlen. f_equal. lia.
    + rewrite Hlen, over_S by done. exact Hup.
    + exists stop, d2. split; [|done]. rewrite Hlen, Nat2Z.inj_succ in E.
      change (Z.of_nat (length pre) + 1) with (Z.succ (Z.of_nat (length pre))).
      rewrite E, set_levels_twice. unfold pre'. by rewrite over_S, <- app_assoc by done.
Qed.
End walk_up.

(** *** The callbacks on one bit *)

#[local] Arguments mask_overlap : simpl never.

Definition set_step (ws : list Z) (x : Z) : bool * list Z :=
  if lbit ws x then (true, ws)
  else (negb (word (set_bit ws x) (x / 64) =? ULONG_MAX), set_bit ws x).

Definition clear_step (ws : list Z) (x : Z) : bool * list Z :=
  if lbit ws x then (false, clear_bit ws x) else (true, ws).

Lemma walk_set (x : Z) (maps : list (list Z)) : walk set_step x maps = set_up x maps.
Proof.
  revert x; induction maps as [|ws rest IH]; intros x; simpl; [done|].
  unfold set_step. destruct (lbit ws x); simpl; [done|]. rewrite IH.
  by destruct (_ =? ULONG_MAX).
Qed.

Lemma walk_clear (x : Z) (maps : list (list Z)) : walk clear_step x maps = clear_up x maps.
Proof.
  revert x; induction maps as [|ws rest IH]; intros x; simpl; [done|].
  unfold clear_step. destruct (lbit ws x); simpl; [by rewrite IH|done].
Qed.

Lemma put_same (al : axmap_level) : put al (al_map al) = al.
Proof. by destruct al. Qed.

Section callback.
Context (al : axmap_level) (x : Z) (m : axmap).
Context (Hw : level_words (al_map al)) (Hx : 0 ≤ x < 64 * len (al_map al)).

Let Hoff : 0 ≤ x / 64 < len (al_map al).
Proof. split; [apply Z.div_pos; lia|apply Z.div_lt_upper_bound; lia]. Qed.
Let Hbit : 0 ≤ x mod 64 < 64.
Proof. apply Z.mod_pos_bound. lia. Qed.
Let Hword : is_word (word (al_map al) (x / 64)).
Proof. by apply word_is_word. Qed.

Lemma get_word {S} (s : S) : arr_get (F:=fault) (al_map al) (x / 64) s = (Done (word (al_map al) (x / 64)), s).
Proof using Hx.
  rewrite (arr_get_ok _ _ (word (al_map al) (x / 64))); [done|lia|]. by apply word_lookup.
Qed.

Lemma clear_fn_run (d : unit) :
  axmap_clear_fn al (x / 64) (x mod 64) d m =
  (Done ((clear_step (al_map al) x).1, put al (clear_step (al_map al) x).2, tt), m).
Proof using Hw Hx.
  unfold axmap_clear_fn, clear_step. rewrite (bind_done _ _ _ _ _ (get_word m)).
  rewrite test_word by done. fold (lbit (al_map al) x). destruct (lbit (al_map al) x); simpl.
  - rewrite arr_set_ok, bind_ret by (unfold len in *; lia). done.
  - by rewrite put_same.
Qed.

Lemma isset_fn_run (d : unit) :
  axmap_isset_fn al (x / 64) (x mod 64) d m = (Done (lbit (al_map al) x, al, tt), m).
Proof using Hw Hx.
  unfold axmap_isset_fn. rewrite (bind_done _ _ _ _ _ (get_word m)).
  rewrite test_word, negb_involutive by done. done.
Qed.

(** Setting one bit: [data] afterwards. *)
Definition set_data (d : axmap_set_data) : axmap_set_data :=
  if lbit (al_map al) x then d
  else SetData 1 (if al_level al =? 0 then 1 else sd_set_bits d).

Lemma set_fn_run (d : axmap_set_data) :
  sd_nr_bits d = 1 →
  axmap_set_fn al (x / 64) (x mod 64) d m =
  (Done ((set_step (al_map al) x).1, put al (set_step (al_map al) x).2, set_data d), m).
Proof using Hw Hx.
  intros Hd. unfold axmap_set_fn, set_step, set_data. rewrite Hd.
  change BLOCKS_PER_UNIT with 64. rewrite Z.min_l by lia.
  rewrite (arr_get_ok bit_masks 1 1), bind_ret by (done || lia).
  rewrite (bind_done _ _ _ _ _ (get_word m)).
  set (w := word (al_map al) (x / 64)). set (bit := x mod 64).
  assert ((Z.land w (shl64 1 bit) =? shl64 1 bit) = lbit (al_map al) x) as ->.
  { change (lbit (al_map al) x) with (Z.testbit w bit).
    pose proof (test_word w bit Hword Hbit) as Ht. destruct (Z.testbit w bit) eqn:Eb; simpl in Ht.
    - apply Z.eqb_eq. apply Z.bits_inj'. intros i Hi. rewrite Z.land_spec, shl64_1_bits by lia.
      case_bool_decide; [subst i; by rewrite Eb|by rewrite andb_false_r].
    - apply Z.eqb_eq in Ht. rewrite Ht. apply Z.eqb_neq. intros E0.
      assert (Z.testbit (shl64 1 bit) bit = false) as Hz by (by rewrite <- E0, Z.bits_0).
      rewrite shl64_1_bits in Hz by lia. by rewrite bool_decide_true in Hz. }
  destruct (lbit (al_map al) x) eqn:Eb; simpl; [by rewrite put_same|].
  assert (Z.land w (shl64 1 bit) = 0) as E0.
  { apply Z.eqb_eq. rewrite test_word by done. fold (lbit (al_map al) x) in Eb.
    unfold lbit in Eb. fold w bit in Eb. by rewrite Eb. }
  rewrite E0. change (mask_overlap 64 (shl64 1 bit) 0 1) with (mret (shl64 1 bit, 1) : aprog (Z * Z)).
  rewrite bind_ret.
  assert (shl64 1 bit ≠ 0) as Hnz.
  { intros Hz. assert (Z.testbit (shl64 1 bit) bit = false) as H' by (by rewrite Hz, Z.bits_0).
    rewrite shl64_1_bits in H' by lia. by rewrite bool_decide_true in H'. }
  rewrite (proj2 (Z.eqb_neq _ _) Hnz), E0. simpl.
  rewrite arr_set_ok, bind_ret by (unfold len in *; lia).
  assert (word (set_bit (al_map al) x) (x / 64) = Z.lor w (shl64 1 bit)) as ->.
  { unfold set_bit. rewrite word_insert, decide_True by (done || lia). done. }
  done.
Qed.
End callback.

(** ** The operations on the levels *)

Lemma maps_zip (lv : list axmap_level) (mp : list (list Z)) :
  length mp = length lv → al_map <$> zip_with put lv mp = mp.
Proof.
  revert mp; induction lv as [|al lv IH]; intros [|ws mp] Hl; simplify_eq/=; [done|].
  csimpl. by rewrite IH.
Qed.

Definition rebuild (m : axmap) (mp : list (list Z)) (ff : Z) : axmap :=
  Axmap (am_nr_levels m) (zip_with put (am_levels m) mp) ff (am_nr_bits m).

Lemma tower_length (mp mp' : list (list Z)) : tower_step mp mp' → length mp' = length mp.
Proof. intros [Hl _ _]. apply (f_equal length) in Hl. by rewrite !length_fmap in Hl. Qed.

Lemma tower_len_at (mp mp' : list (list Z)) (i : nat) :
  tower_step mp mp' → len (level_at mp' i) = len (level_at mp i).
Proof.
  intros Ht. pose proof (tower_length _ _ Ht) as Hln. destruct Ht as [Hl _ _].
  unfold level_at. rewrite !list_lookup_total_alt.
  apply (f_equal (λ l, l !! i)) in Hl. rewrite !list_lookup_fmap in Hl.
  destruct (mp' !! i), (mp !! i); simplify_eq/=; done.
Qed.

Lemma maps_rebuild (m : axmap) (mp : list (list Z)) (ff : Z) :
  tower_step (maps m) mp → maps (rebuild m mp ff) = mp.
Proof.
  intros Ht. apply maps_zip. rewrite (tower_length _ _ Ht). unfold maps. by rewrite length_fmap.
Qed.

Lemma rebuild_ok (m : axmap) (mp : list (list Z)) (ff : Z) :
  axmap_ok m → tower_step (maps m) mp →
  (ff = ULONG_MAX ∨ (0 ≤ ff < am_nr_bits m ∧ lbit (level_at mp 0) ff = false)) →
  axmap_ok (rebuild m mp ff).
Proof.
  intros Hok Ht Hff. pose proof (tower_length _ _ Ht) as Hlen. unfold maps in Hlen.
  rewrite length_fmap in Hlen. pose proof (maps_rebuild m mp ff Ht) as Hm. pose proof Ht as [Hl Hw Hk].
  unfold maps in Hl. constructor; unfold bitmap; rewrite ?Hm; try done.
  - simpl. rewrite length_zip_with, Hlen, Nat.min_id. apply Hok.
  - simpl. rewrite length_zip_with, Hlen, Nat.min_id. apply Hok.
  - intros i al' (al & ws & -> & Hal & Hws)%lookup_zip_with_Some. simpl.
    destruct (ok_level _ Hok i al Hal) as [H1 H2]. split; [done|]. rewrite H2.
    apply (f_equal (λ l, l !! i)) in Hl. rewrite !list_lookup_fmap, Hws in Hl.
    rewrite Hal in Hl. simpl in Hl. by simplify_eq.
  - pose proof (ok_small _ Hok) as Hs. apply Forall_lookup_2. intros i ws Hws.
    apply (f_equal (λ l, l !! i)) in Hl. rewrite !list_lookup_fmap, Hws in Hl. simpl in Hl.
    destruct (am_levels m !! i) as [al|] eqn:Eal; simpl in Hl; [|done]. injection Hl as ->.
    eapply (Forall_lookup_1 _ _ i) in Hs; [exact Hs|]. unfold maps. by rewrite list_lookup_fmap, Eal.
  - rewrite (tower_len_at _ _ 0 Ht). apply Hok.
Qed.

Section operations.
Context (m : axmap) (Hok : axmap_ok m).

Lemma levels_nonempty : ∃ al suf, am_levels m = al :: suf ∧ maps m = al_map al :: (al_map <$> suf) ∧
  bitmap m = al_map al.
Proof using Hok.
  destruct (am_levels m) as [|al suf] eqn:E; [pose proof (ok_some _ Hok) as H; rewrite E in H; simpl in H; lia|].
  exists al, suf. unfold bitmap, maps. by rewrite E.
Qed.

Lemma set_handler_run (b : Z) :
  0 ≤ b < 64 * len (bitmap m) →
  ∃ stop, axmap_handler axmap_set_fn b (SetData 1 0) m =
    (Done (stop, SetData 1 (if lbit (bitmap m) b then 0 else 1)),
     rebuild m (set_up b (maps m)) (am_first_free m)).
Proof using Hok.
  intros Hb. destruct levels_nonempty as (al & suf & El & Em & Eb).
  pose proof (ok_words _ Hok) as Hw. pose proof (ok_linked _ Hok) as Hlk.
  rewrite Em in Hw, Hlk. rewrite Eb in *. apply list.Forall_cons in Hw as [Hw Hws].
  pose proof (inside_up b _ _ Hlk Hb) as Hup.
  destruct (ok_level _ Hok 0%nat al) as [Hl0 _]; [by rewrite El|]. simpl in Hl0.
  unfold axmap_handler. erewrite bind_done by reflexivity. rewrite (ok_count _ Hok), Nat2Z.id, El.
  cbn [length handle_up]. assert (over b 0 = b) as Eo by (unfold over; by rewrite Z.pow_0_r, Z.div_1_r).
  assert (am_levels m !! 0%nat = Some al) as Hal by (by rewrite El).
  pose proof (set_fn_run al b m Hw Hb (SetData 1 0) eq_refl) as Hf. rewrite <- Eo in Hf.
  pose proof (handle_level_run axmap_set_fn 0 b (SetData 1 0) _ _ m al _ Hal ltac:(lia) Hf) as E1.
  rewrite Eo in E1. rewrite (bind_done _ _ _ _ _ E1). clear E1 Hf.
  rewrite El. change (<[0%nat := ?a]> (al :: suf)) with (a :: suf).
  unfold set_data. rewrite Hl0. rewrite Em. rewrite <- walk_set. cbn [walk].
  unfold rebuild. rewrite El. cbn [zip_with].
  assert (set_step (al_map al) b = if lbit (al_map al) b then (true, al_map al) else
    (negb (word (set_bit (al_map al) b) (b / 64) =? ULONG_MAX), set_bit (al_map al) b)) as Es by done.
  destruct (lbit (al_map al) b) eqn:Elb.
  { rewrite Es. cbn [fst snd]. exists true. rewrite zip_put_maps. done. }
  set (al' := put al (set_step (al_map al) b).2). destruct ((set_step (al_map al) b).1).
  { exists true. rewrite zip_put_maps. done. }
  destruct (handle_up_run axmap_set_fn set_step (λ d, sd_nr_bits d = 1 ∧ sd_set_bits d = 1) 1%nat)
    with (suf := suf) (pre := [al']) (m := set_levels (al' :: suf) m) (b := b) (d := SetData 1 1)
    as (stop & d' & E & Hd).
  - intros al1 i x d m1 Hi Hlev Hw1 Hx1 [Hd1 Hd2]. eexists. split; [by apply set_fn_run|].
    unfold set_data. destruct (lbit _ x); [done|]. rewrite Hlev.
    rewrite (proj2 (Z.eqb_neq _ 0)) by lia. done.
  - done.
  - done.
  - lia.
  - intros i al1 Hal1. destruct (ok_level _ Hok (S i) al1) as [-> _]; [by rewrite El|]. done.
  - apply Hlk.
  - done.
  - simpl length. rewrite over_S, Eo by lia. exact Hup.
  - done.
  - exists stop. simpl length in E. rewrite over_S, Eo in E by lia.
    etransitivity; [exact E|]. destruct d' as [n k]. simpl in Hd. destruct Hd as [-> ->]. done.
Qed.

Lemma clear_handler_run (b : Z) :
  0 ≤ b < 64 * len (bitmap m) →
  ∃ stop, axmap_handler axmap_clear_fn b tt m =
    (Done (stop, tt), rebuild m (clear_up b (maps m)) (am_first_free m)).
Proof using Hok.
  intros Hb. destruct levels_nonempty as (al & suf & El & Em & Eb).
  unfold axmap_handler. erewrite bind_done by reflexivity. rewrite (ok_count _ Hok), Nat2Z.id.
  destruct (handle_up_run axmap_clear_fn clear_step (λ _, True) 0%nat)
    with (suf := am_levels m) (pre := @nil axmap_level) (m := m) (b := b) (d := tt)
    as (stop & [] & E & _); try done.
  - intros al1 i x [] m1 Hi Hlev Hw1 Hx1 _. exists tt. split; [by apply clear_fn_run|done].
  - lia.
  - intros i al1 Hal1. by destruct (ok_level _ Hok i al1 Hal1).
  - apply Hok.
  - apply Hok.
  - fold (maps m). rewrite Em. unfold inside, over. simpl length. rewrite Z.pow_0_r, Z.div_1_r.
    by rewrite <- Eb.
  - exists stop. unfold over in E. simpl length in E. rewrite Z.pow_0_r, Z.div_1_r, walk_clear in E.
    exact E.
Qed.
End operations.

(** Membership in the map. *)
Definition is_set (m : axmap) (b : Z) : bool := lbit (bitmap m) b.

Lemma nr_bits_bound (m : axmap) : axmap_ok m → am_nr_bits m ≤ ULONG_MAX - 63.
Proof.
  intros Hok. pose proof (ok_bits _ Hok). destruct (levels_nonempty m Hok) as (al & suf & _ & Em & Eb).
  pose proof (ok_small _ Hok) as Hs. rewrite Em in Hs. apply list.Forall_cons in Hs as [Hs _].
  rewrite Eb in *. unfold ULONG_MAX. lia.
Qed.

Lemma set_first_free_ok (m : axmap) (ff : Z) :
  axmap_ok m →
  (ff = ULONG_MAX ∨ (0 ≤ ff < am_nr_bits m ∧ is_set m ff = false)) → axmap_ok (set_first_free ff m).
Proof. intros [H1 H2 H3 H4 H5 H6 H7 _] Hff. by constructor. Qed.

Lemma bitmap_rebuild (m : axmap) (mp : list (list Z)) (ff b : Z) :
  axmap_ok m → tower_step (maps m) mp → is_set (rebuild m mp ff) b = head_bit mp b.
Proof.
  intros Hok Ht. unfold is_set, bitmap. rewrite (maps_rebuild _ _ _ Ht).
  pose proof (tower_length _ _ Ht) as Hl. destruct (levels_nonempty m Hok) as (al & suf & _ & Em & _).
  rewrite Em in Hl. by destruct mp.
Qed.

Lemma head_bit_maps (m : axmap) (b : Z) : axmap_ok m → head_bit (maps m) b = is_set m b.
Proof.
  intros Hok. destruct (levels_nonempty m Hok) as (al & suf & _ & Em & Eb).
  unfold is_set. by rewrite Em, Eb.
Qed.

Lemma inside_maps (m : axmap) (b : Z) :
  axmap_ok m → 0 ≤ b < am_nr_bits m → inside b (maps m) ∧ maps m ≠ [] ∧ 0 ≤ b < 64 * len (bitmap m).
Proof.
  intros Hok Hb. pose proof (ok_bits _ Hok).
  destruct (levels_nonempty m Hok) as (al & suf & _ & Em & Eb). rewrite Em, Eb in *.
  split; [simpl; lia|]. split; [done|lia].
Qed.

(** The cached free bit after bit [b] is set. *)
Definition forget (m : axmap) (b : Z) : Z :=
  if bool_decide (am_first_free m = b) then ULONG_MAX else am_first_free m.

Lemma set_core (m : axmap) (b : Z) (fuel : nat) :
  axmap_ok m → 0 ≤ b < am_nr_bits m →
  __axmap_set (S fuel) b (SetData 1 0) m =
    (Done (if is_set m b then 0 else 1), rebuild m (set_up b (maps m)) (forget m b)).
Proof.
  intros Hok Hb. pose proof (nr_bits_bound m Hok) as Hn. unfold ULONG_MAX in Hn.
  destruct (inside_maps m b Hok Hb) as (Hin & Hne & Hbm).
  unfold __axmap_set. erewrite bind_done by reflexivity. cbn [sd_nr_bits].
  assert (u64 (b + 1) = b + 1) as -> by (unfold u64; rewrite Z.mod_small; lia).
  assert ((b <=? am_first_free m) && (am_first_free m <? b + 1) = bool_decide (am_first_free m = b)) as ->.
  { case_bool_decide; [rewrite (proj2 (Z.leb_le _ _)), (proj2 (Z.ltb_lt _ _)) by lia; done|].
    apply andb_false_iff. destruct (decide (b ≤ am_first_free m)); [right; apply Z.ltb_ge; lia|].
    left. apply Z.leb_gt. lia. }
  assert (∃ m1, (if bool_decide (am_first_free m = b) then modS (set_first_free ULONG_MAX) else mret tt) m
    = (Done tt : outcome fault unit, m1) ∧ m1 = set_first_free (forget m b) m) as (m1 & E1 & Em1).
  { unfold forget. case_bool_decide; [by eexists|]. eexists. split; [done|]. by destruct m. }
  rewrite (bind_done _ _ _ _ _ E1). subst m1. clear E1.
  rewrite (proj2 (Z.ltb_ge (am_nr_bits m) b)), (proj2 (Z.ltb_ge (am_nr_bits m) (b + 1))) by lia.
  cbn [set_loop]. change (1 =? 0) with false. cbv iota.
  set (m1 := set_first_free (forget m b) m).
  assert (axmap_ok m1) as Hok1.
  { destruct Hok as [H1 H2 H3 H4 H5 H6 H7 H8]. constructor; try done.
    change (forget m b = ULONG_MAX ∨
      (0 ≤ forget m b < am_nr_bits m ∧ lbit (bitmap m) (forget m b) = false)).
    unfold forget. case_bool_decide; [by left|exact H8]. }
  destruct (set_handler_run m1 Hok1 b Hbm) as [stop E].
  rewrite (bind_done _ _ _ _ _ E). change (bitmap m1) with (bitmap m). fold (is_set m b).
  destruct (is_set m b); done.
Qed.

(** Setting a bit. *)
Lemma set_result (m : axmap) (b : Z) :
  axmap_ok m → 0 ≤ b < am_nr_bits m →
  let m' := rebuild m (set_up b (maps m)) (forget m b) in
  axmap_ok m' ∧ am_nr_bits m' = am_nr_bits m ∧
  ∀ y, 0 ≤ y → is_set m' y = bool_decide (y = b) || is_set m y.
Proof.
  intros Hok Hb m'. destruct (inside_maps m b Hok Hb) as (Hin & Hne & Hbm).
  destruct (set_up_ok b (maps m) (ok_linked _ Hok) (ok_words _ Hok) Hin Hne) as [Ht Hh].
  assert (∀ y, 0 ≤ y → is_set m' y = bool_decide (y = b) || is_set m y) as Hs.
  { intros y Hy. unfold m'. rewrite bitmap_rebuild by done. by rewrite Hh, head_bit_maps by done. }
  split; [|done]. apply rebuild_ok; [done|done|]. unfold forget.
  case_bool_decide as E; [by left|]. destruct (ok_free _ Hok) as [->|[Hr Hf]]; [by left|right].
  split; [done|]. specialize (Hs (am_first_free m) ltac:(lia)).
  unfold m', is_set, bitmap in Hs. rewrite maps_rebuild in Hs by done. rewrite Hs.
  rewrite bool_decide_false by done. exact Hf.
Qed.

Lemma clear_run (m : axmap) (b : Z) :
  axmap_ok m → 0 ≤ b < am_nr_bits m →
  ∃ m', axmap_clear b m = (Done tt, m') ∧ axmap_ok m' ∧ am_nr_bits m' = am_nr_bits m ∧
    am_first_free m' = am_first_free m ∧
    ∀ y, 0 ≤ y → is_set m' y = negb (bool_decide (y = b)) && is_set m y.
Proof.
  intros Hok Hb. destruct (inside_maps m b Hok Hb) as (Hin & Hne & Hbm).
  destruct (clear_handler_run m Hok b Hbm) as [stop E].
  destruct (clear_up_ok b (maps m) (ok_linked _ Hok) (ok_words _ Hok) Hin Hne) as [Ht Hh].
  set (m' := rebuild m (clear_up b (maps m)) (am_first_free m)) in *. exists m'.
  assert (∀ y, 0 ≤ y → is_set m' y = negb (bool_decide (y = b)) && is_set m y) as Hs.
  { intros y Hy. unfold m'. rewrite bitmap_rebuild by done. by rewrite Hh, head_bit_maps by done. }
  unfold axmap_clear. rewrite (bind_done _ _ _ _ _ E). split; [done|]. split; [|done].
  apply rebuild_ok; [done|done|]. destruct (ok_free _ Hok) as [->|[Hr Hf]]; [by left|right].
  split; [done|]. specialize (Hs (am_first_free m) ltac:(lia)).
  unfold m', is_set, bitmap in Hs. rewrite maps_rebuild in Hs by done. rewrite Hs.
  unfold bitmap in Hf. rewrite Hf. apply andb_false_r.
Qed.

(** *** Callbacks that only look *)

Lemma level_lookup (m : axmap) (i : nat) :
  axmap_ok m → (i < length (am_levels m))%nat →
  ∃ al, am_levels m !! i = Some al ∧ al_map al = level_at (maps m) i ∧ level_words (al_map al) ∧
    al_level al = Z.of_nat i ∧ al_map_size al = len (al_map al).
Proof.
  intros Hok Hi. destruct (lookup_lt_is_Some_2 _ _ Hi) as [al Hal]. exists al.
  destruct (ok_level _ Hok i al Hal) as [H1 H2].
  assert (maps m !! i = Some (al_map al)) as Hm by (unfold maps; by rewrite list_lookup_fmap, Hal).
  split; [done|]. split; [unfold level_at; by rewrite (list_lookup_total_correct _ _ _ Hm)|].
  split; [|done]. exact (Forall_lookup_1 _ _ _ _ (ok_words _ Hok) Hm).
Qed.

Lemma handle_level_look {D} (func : axmap_level → Z → Z → D → aprog (bool * axmap_level * D))
    (i : nat) (b : Z) (d d' : D) (stop : bool) (m : axmap) (al : axmap_level) :
  am_levels m !! i = Some al → 0 ≤ b →
  func al (over b i / 64) (over b i mod 64) d m = (Done (stop, al, d'), m) →
  handle_level func (Z.of_nat i) b d m = (Done (stop, d'), m).
Proof.
  intros Hal Hb Hf. rewrite (handle_level_run func i b d d' stop m al al Hal Hb Hf).
  rewrite list_insert_id by done. by destruct m.
Qed.

Lemma maps_length (m : axmap) : length (maps m) = length (am_levels m).
Proof. unfold maps. apply length_fmap. Qed.

Lemma isset_run (m : axmap) (b : Z) :
  axmap_ok m → 0 ≤ b < am_nr_bits m → axmap_isset b m = (Done (is_set m b), m).
Proof.
  intros Hok Hb. destruct (inside_maps m b Hok Hb) as (_ & _ & Hbm).
  unfold axmap_isset. erewrite bind_done by reflexivity. rewrite (proj2 (Z.leb_le b _)) by lia.
  unfold axmap_handler_topdown.
  assert (∀ n, (0 < n ≤ length (am_levels m))%nat →
    handle_down axmap_isset_fn n b tt m = (Done (is_set m b, tt), m)) as Hdown.
  { intros n. induction n as [|n IH]; [lia|]. intros Hn. cbn [handle_down].
    destruct (level_lookup m n Hok ltac:(lia)) as (al & Hal & Eal & Hw & _).
    destruct (over_inside (maps m) (ok_linked _ Hok) b n Hbm) as [Hin _]; [rewrite maps_length; lia|].
    rewrite <- Eal in Hin.
    rewrite (bind_done _ _ _ _ _ (handle_level_look _ n b tt tt _ m al Hal ltac:(lia)
      (isset_fn_run al (over b n) m Hw Hin tt))).
    destruct (lbit (al_map al) (over b n)) eqn:Eb.
    - rewrite Eal in Eb. unfold is_set, bitmap.
      rewrite (bit_down (maps m) (ok_linked _ Hok) (ok_words _ Hok) b n Hbm); [done| |done].
      rewrite maps_length. lia.
    - destruct n as [|n]; [|apply IH; lia]. simpl. unfold is_set, bitmap. rewrite <- Eal.
      unfold over in Eb. rewrite Z.pow_0_r, Z.div_1_r in Eb. by rewrite Eb. }
  pose proof (ok_some _ Hok).
  erewrite bind_done by (erewrite bind_done by reflexivity; rewrite (ok_count _ Hok), Nat2Z.id;
    apply Hdown; lia).
  done.
Qed.

(** ** Searching *)

Lemma scan_words_run {S} (ws : list Z) (n : nat) (j : Z) (s : S) :
  Z.of_nat n + j = len ws → 0 ≤ j →
  (∃ k, j ≤ k < len ws ∧ word ws k ≠ ULONG_MAX ∧ (∀ y, j ≤ y < k → word ws y = ULONG_MAX) ∧
     scan_words n ws j s = (Done (Some (k, word ws k)), s)) ∨
  ((∀ y, j ≤ y < len ws → word ws y = ULONG_MAX) ∧ scan_words n ws j s = (Done None, s)).
Proof.
  revert j; induction n as [|n IH]; intros j Hn Hj; simpl.
  { right. split; [intros y Hy; lia|done]. }
  rewrite (arr_get_ok ws j (word ws j)), bind_ret by (try apply word_lookup; lia).
  destruct (Z.eqb_spec (word ws j) ULONG_MAX) as [E|E].
  - destruct (IH (j + 1)) as [(k & Hk & Hnf & Hfull & Es)|[Hfull Es]]; [lia|lia| |].
    + left. exists k. split; [lia|]. split; [done|]. split; [|done]. intros y Hy.
      destruct (decide (y = j)) as [->|]; [done|]. apply Hfull. lia.
    + right. split; [|done]. intros y Hy. destruct (decide (y = j)) as [->|]; [done|]. apply Hfull. lia.
  - left. exists j. split; [lia|]. split; [done|]. split; [intros y Hy; lia|done].
Qed.

Section search.
Context (m : axmap) (Hok : axmap_ok m).

Lemma small_at (i : nat) : (i < length (am_levels m))%nat → 64 * len (level_at (maps m) i) < 2 ^ 64.
Proof using Hok.
  intros Hi. destruct (level_lookup m i Hok Hi) as (al & Hal & Eal & _).
  assert (maps m !! i = Some (al_map al)) as Hm by (unfold maps; by rewrite list_lookup_fmap, Hal).
  rewrite <- Eal. exact (Forall_lookup_1 _ _ _ _ (ok_small _ Hok) Hm).
Qed.

(** The number computed from a word and its first clear bit. *)
Lemma next_index (i : nat) (index : Z) :
  (i < length (am_levels m))%nat → 0 ≤ index < len (level_at (maps m) i) →
  word (level_at (maps m) i) index ≠ ULONG_MAX →
  u64 (shl64 index UNIT_SHIFT + ffz (word (level_at (maps m) i) index)) =
    64 * index + ffz (word (level_at (maps m) i) index).
Proof using Hok.
  intros Hi Hin Hnf. pose proof (small_at i Hi).
  destruct (ffz_spec (word (level_at (maps m) i) index)) as [Hf _];
    [apply word_is_word, level_at_words, Hok|done|].
  unfold shl64, u64, UNIT_SHIFT. rewrite Z.shiftl_mul_pow2 by lia. change (2 ^ 6) with 64.
  rewrite (Z.mod_small (index * 64)), Z.mod_small by lia. lia.
Qed.

(** One level of the search. *)
Lemma find_level (n : nat) (index ret : Z) :
  (n < length (am_levels m))%nat →
  find_down (S n) index ret m =
    (if len (level_at (maps m) n) <=? index then mret ULONG_MAX
     else r ← scan_words (Z.to_nat (len (level_at (maps m) n) - index)) (level_at (maps m) n) index;
          match r with
          | None => find_down n index ret
          | Some (j, w) =>
              let x := u64 (shl64 j UNIT_SHIFT + ffz w) in find_down n x x
          end) m.
Proof using Hok.
  intros Hn. destruct (level_lookup m n Hok Hn) as (al & Hal & Eal & _ & _ & Hsz).
  cbn [find_down]. erewrite bind_done by reflexivity.
  rewrite (arr_get_ok _ _ al), bind_ret by (rewrite ?Nat2Z.id; done || lia). by rewrite Hsz, Eal.
Qed.

Lemma find_here (n : nat) (index ret k : Z) :
  (n < length (am_levels m))%nat → 0 ≤ index ≤ k → k < len (level_at (maps m) n) →
  (∀ y, index ≤ y < k → word (level_at (maps m) n) y = ULONG_MAX) →
  word (level_at (maps m) n) k ≠ ULONG_MAX →
  let x := 64 * k + ffz (word (level_at (maps m) n) k) in
  find_down (S n) index ret m = find_down n x x m.
Proof using Hok.
  intros Hn Hin Hk Hfull Hnf x. rewrite find_level by done. rewrite (proj2 (Z.leb_gt _ index)) by lia.
  destruct (scan_words_run (level_at (maps m) n) (Z.to_nat (len (level_at (maps m) n) - index)) index m)
    as [(k' & Hk' & Hnk & Hf & Es)|[Hf Es]]; [lia|lia| |by rewrite Hf in Hnf by lia].
  assert (k' = k) as ->.
  { destruct (Z.lt_trichotomy k' k) as [Hlt|[?|Hgt]]; [|done|].
    - by rewrite Hfull in Hnk by lia.
    - by rewrite Hf in Hnf by lia. }
  rewrite (bind_done _ _ _ _ _ Es). cbv zeta. rewrite next_index by (done || lia). done.
Qed.

(** From a word that is not full. *)
Lemma find_from (i : nat) (index ret : Z) :
  (i < length (am_levels m))%nat → 0 ≤ index < len (level_at (maps m) i) →
  word (level_at (maps m) i) index ≠ ULONG_MAX →
  ∃ r, find_down (S i) index ret m = (Done r, m) ∧ first_from (maps m) i index r.
Proof using Hok.
  pose proof (ok_linked _ Hok) as Hlk. pose proof (ok_words _ Hok) as Hws.
  pose proof (maps_length m) as Hml.
  revert index ret; induction i as [|i IH]; intros index ret Hi Hin Hnf;
    rewrite (find_here _ index ret index) by (done || lia || (intros y Hy; lia)).
  - eexists. split; [done|]. by apply first_from_word; [..|rewrite Hml| | |].
  - set (x := 64 * index + ffz (word (level_at (maps m) (S i)) index)).
    destruct (decide (len (level_at (maps m) i) ≤ x)) as [Hend|Hlt].
    + exists ULONG_MAX. split; [|by apply (first_from_end (maps m) Hlk Hws (S i) ltac:(lia) index Hin Hnf i)].
      rewrite find_level, (proj2 (Z.leb_le _ x)) by lia. done.
    + destruct (next_word (maps m) Hlk Hws (S i) ltac:(lia) index Hin Hnf i eq_refl) as [Hx0 Hxn]; [fold x; lia|].
      fold x in Hx0, Hxn. destruct (IH x x ltac:(lia) ltac:(lia) Hxn) as (r & E & Hr).
      exists r. split; [exact E|].
      by apply (first_from_next (maps m) Hlk Hws (S i) ltac:(lia) index Hin Hnf i).
Qed.

(** A search of full levels. *)
Lemma find_full (n : nat) :
  (n ≤ length (am_levels m))%nat →
  (∀ i k, (i < n)%nat → 0 ≤ k < len (level_at (maps m) i) → word (level_at (maps m) i) k = ULONG_MAX) →
  find_down n 0 ULONG_MAX m = (Done ULONG_MAX, m).
Proof using Hok.
  induction n as [|n IH]; intros Hn Hfull; [done|]. rewrite find_level by lia.
  destruct (Z.leb_spec (len (level_at (maps m) n)) 0); [done|].
  destruct (scan_words_run (level_at (maps m) n) (Z.to_nat (len (level_at (maps m) n) - 0)) 0 m)
    as [(k & Hk & Hnk & _)|[_ Es]]; [lia|lia|by rewrite Hfull in Hnk by lia|].
  rewrite (bind_done _ _ _ _ _ Es). apply IH; [lia|]. intros i k Hi. apply Hfull. lia.
Qed.

Lemma full_levels (i : nat) :
  (i < length (am_levels m))%nat →
  (∀ k, 0 ≤ k < len (level_at (maps m) i) → word (level_at (maps m) i) k = ULONG_MAX) →
  ∀ j k, (j ≤ i)%nat → 0 ≤ k < len (level_at (maps m) j) → word (level_at (maps m) j) k = ULONG_MAX.
Proof using Hok.
  intros Hi Hfull j k Hj. remember (i - j)%nat as d eqn:Ed. revert j k Hj Ed.
  induction d as [|d IH]; intros j k Hj Ed Hk.
  - assert (j = i) as -> by lia. by apply Hfull.
  - apply (full_below (maps m) (ok_linked _ Hok) (ok_words _ Hok) j); [rewrite maps_length; lia| |done].
    intros k' Hk'. apply (IH (S j)); [lia|lia|done].
Qed.

(** From the start of a level. *)
Lemma find_start (i : nat) :
  (i < length (am_levels m))%nat → 0 < len (level_at (maps m) i) →
  ∃ r, find_down (S i) 0 ULONG_MAX m = (Done r, m) ∧ first_from (maps m) i 0 r.
Proof using Hok.
  intros Hi Hpos. pose proof (ok_linked _ Hok) as Hlk. pose proof (ok_words _ Hok) as Hws.
  destruct (scan_words_run (level_at (maps m) i) (Z.to_nat (len (level_at (maps m) i) - 0)) 0 m)
    as [(k & Hk & Hnk & Hf & _)|[Hf _]]; [lia|lia| |].
  - destruct (find_from i k ULONG_MAX Hi ltac:(lia) Hnk) as (r & E & Hr). exists r.
    rewrite (find_here _ 0 ULONG_MAX k) by (done || lia).
    rewrite (find_here _ k ULONG_MAX k) in E by (done || lia || (intros y Hy; lia)).
    split; [exact E|]. apply (first_from_skip _ Hlk Hws i k); [rewrite maps_length; lia|done|lia|done].
  - exists ULONG_MAX. split.
    + apply find_full; [lia|]. intros j k Hj. apply (full_levels i Hi Hf). lia.
    + apply (first_from_skip _ Hlk Hws i (len (level_at (maps m) i))); [rewrite maps_length; lia|done|lia|].
      left. split; [done|]. intros b Hb Hge.
      destruct (over_inside _ Hlk b i Hb ltac:(rewrite maps_length; lia)). lia.
Qed.
End search.

(** ** Free bits *)

(** [r] is a free bit, or [ULONG_MAX] when there is none. *)
Definition free_or_full (m : axmap) (r : Z) : Prop :=
  (r = ULONG_MAX ∧ ∀ b, 0 ≤ b < am_nr_bits m → is_set m b = true) ∨
  (0 ≤ r < am_nr_bits m ∧ is_set m r = false).

Definition least_free (m : axmap) (r : Z) : Prop :=
  free_or_full m r ∧ ∀ b, 0 ≤ b < r → b < am_nr_bits m → is_set m b = true.

Section free.
Context (m : axmap) (Hok : axmap_ok m).

Lemma len_pos (i : nat) : (i < length (am_levels m))%nat → 0 < len (level_at (maps m) i).
Proof using Hok.
  induction i as [|i IH]; intros Hi.
  - pose proof (ok_bits _ Hok). unfold bitmap in *. lia.
  - pose proof (linked_at (maps m) i (ok_linked _ Hok)) as [-> _]; [rewrite maps_length; lia|].
    specialize (IH ltac:(lia)). pose proof (up64_bound (len (level_at (maps m) i)) 0 ltac:(lia)). lia.
Qed.

(** The clipping at [nr_bits]. *)
Lemma clip_run (i : nat) (index r : Z) :
  find_down (S i) index ULONG_MAX m = (Done r, m) →
  axmap_find_first_free (Z.of_nat i) index m =
    (Done (if r <? am_nr_bits m then r else ULONG_MAX), m).
Proof.
  intros E. unfold axmap_find_first_free.
  replace (Z.to_nat (Z.of_nat i + 1)) with (S i) by lia. rewrite (bind_done _ _ _ _ _ E). done.
Qed.

Lemma valid_bit (b : Z) : 0 ≤ b < am_nr_bits m → valid (maps m) b.
Proof using Hok. intros Hb. pose proof (ok_bits _ Hok). unfold valid, bitmap in *. lia. Qed.

Lemma find_first_free_run :
  ∃ r, axmap_find_first_free (am_nr_levels m - 1) 0 m = (Done r, m) ∧ least_free m r.
Proof using Hok.
  pose proof (ok_some _ Hok) as Hs. set (i := (length (am_levels m) - 1)%nat).
  destruct (find_start m Hok i ltac:(lia) ltac:(apply len_pos; lia)) as (r & E & Hr).
  replace (am_nr_levels m - 1) with (Z.of_nat i) by (rewrite (ok_count _ Hok); lia).
  rewrite (clip_run _ _ _ E). eexists. split; [done|].
  assert (∀ b, 0 ≤ b → 0 ≤ over b (S i)) as Hov.
  { intros b Hb. unfold over. apply Z.div_pos; lia. }
  unfold least_free, free_or_full, is_set, bitmap. pose proof (nr_bits_bound m Hok) as Hn.
  destruct Hr as [[-> Hall]|(Hv & _ & Hf & Hall)].
  - rewrite (proj2 (Z.ltb_ge _ _)) by lia. split; [left|]; intros; try split; try done;
      intros; apply Hall; try (apply valid_bit; lia); apply Hov; lia.
  - destruct (Z.ltb_spec r (am_nr_bits m)) as [Hlt|Hge].
    + split; [right; split; [unfold valid in Hv; lia|done]|]. intros b Hb _.
      apply Hall; [done|]. apply Hov. lia.
    + assert (∀ b, 0 ≤ b < am_nr_bits m → lbit (level_at (maps m) 0) b = true) as Hset.
      { intros b Hb. apply Hall; [lia|]. apply Hov. lia. }
      split; [by left|]. intros b Hb Hb'. apply Hset. lia.
Qed.

Lemma first_free_run :
  ∃ r, axmap_first_free m = (Done r, set_first_free r m) ∧ free_or_full m r ∧
    (am_first_free m = ULONG_MAX → least_free m r).
Proof using Hok.
  unfold axmap_first_free. erewrite bind_done by reflexivity. unfold firstfree_valid.
  destruct (Z.eqb_spec (am_first_free m) ULONG_MAX) as [E|E]; simpl.
  - destruct find_first_free_run as (r & Er & Hr). rewrite (bind_done _ _ _ _ _ Er).
    exists r. split; [done|]. split; [apply Hr|done].
  - exists (am_first_free m). split; [by destruct m|]. split; [|done].
    destruct (ok_free _ Hok) as [?|[Hr Hf]]; [done|]. by right.
Qed.

Lemma first_free_ok (r : Z) : free_or_full m r → axmap_ok (set_first_free r m).
Proof using Hok. intros Hr. apply set_first_free_ok; [done|]. destruct Hr as [[-> _]|[? ?]]; [by left|by right]. Qed.

(** The callback that looks for a word with a free bit. *)
Lemma next_free_fn_run (al : axmap_level) (x : Z) (d : axmap_next_free_data) :
  level_words (al_map al) → 0 ≤ x < 64 * len (al_map al) →
  ∃ stop d', axmap_next_free_fn al (x / 64) (x mod 64) d m = (Done (stop, al, d'), m) ∧
    (stop = true → nd_level d' = al_level al ∧ nd_offset d' = x / 64 ∧
       word (al_map al) (x / 64) ≠ ULONG_MAX).
Proof.
  intros Hw Hx. unfold axmap_next_free_fn. rewrite bit_in_unit.
  pose proof (Z.mod_pos_bound (u64 (nd_bit d + 1)) 64 ltac:(lia)) as Hk.
  destruct (lookup_lt_is_Some_2 bit_masks (Z.to_nat (u64 (nd_bit d + 1) mod 64))) as [bm Hbm].
  { change (length bit_masks) with 65%nat. lia. }
  rewrite (arr_get_ok bit_masks _ bm), bind_ret by (done || lia).
  rewrite (bind_done _ _ _ _ _ (get_word al x Hx m)).
  destruct (Z.land (not64 bm) (not64 (word (al_map al) (x / 64))) =? 0).
  { eexists _, _. split; [done|]. done. }
  destruct (Z.eqb_spec (word (al_map al) (x / 64)) ULONG_MAX) as [E|E]; simpl;
    (eexists _, _; split; [done|]); done.
Qed.

Lemma next_handler_run (b : Z) (n i : nat) (d : axmap_next_free_data) :
  0 ≤ b < am_nr_bits m → (i + n = length (am_levels m))%nat →
  ∃ stop d', handle_up axmap_next_free_fn n (Z.of_nat i) b d m = (Done (stop, d'), m) ∧
    (stop = true → ∃ k, (k < length (am_levels m))%nat ∧ nd_level d' = Z.of_nat k ∧
       0 ≤ nd_offset d' < len (level_at (maps m) k) ∧
       word (level_at (maps m) k) (nd_offset d') ≠ ULONG_MAX).
Proof using Hok.
  intros Hb. revert i d; induction n as [|n IH]; intros i d Hn; cbn [handle_up].
  { exists false, d. by split. }
  destruct (level_lookup m i Hok ltac:(lia)) as (al & Hal & Eal & Hw & Hlev & _).
  destruct (over_inside (maps m) (ok_linked _ Hok) b i (valid_bit b Hb)) as [Hin Hin'];
    [rewrite maps_length; lia|].
  rewrite <- Eal in Hin, Hin'. rewrite over_S in Hin' by lia.
  destruct (next_free_fn_run al (over b i) d Hw Hin) as (stop & d1 & Hf & Hstop).
  rewrite (bind_done _ _ _ _ _ (handle_level_look _ i b d d1 stop m al Hal ltac:(lia) Hf)).
  destruct stop.
  - exists true, d1. split; [done|]. intros _. destruct (Hstop eq_refl) as (H1 & H2 & H3).
    exists i. rewrite <- Eal, H1, H2. split; [lia|done].
  - replace (Z.of_nat i + 1) with (Z.of_nat (S i)) by lia. apply IH. lia.
Qed.

Lemma next_free_run (b : Z) :
  0 ≤ b < am_nr_bits m →
  ∃ r ff, axmap_next_free b m = (Done r, set_first_free ff m) ∧ free_or_full m r ∧
    axmap_ok (set_first_free ff m).
Proof using Hok.
  intros Hb. unfold axmap_next_free. erewrite bind_done by reflexivity.
  assert (set_first_free (am_first_free m) m = m) as Hsame by (by destruct m).
  destruct (firstfree_valid m && (b <? am_first_free m)) eqn:Ev.
  { exists (am_first_free m), (am_first_free m). rewrite Hsame. split; [done|]. split; [|done].
    apply andb_true_iff in Ev as [Ev%negb_true_iff%Z.eqb_neq _].
    destruct (ok_free _ Hok) as [?|?]; [done|by right]. }
  destruct first_free_run as (r & Er & Hr & _).
  destruct (next_handler_run b (length (am_levels m)) 0 (NextData UINT_MAX 0 b) Hb eq_refl)
    as (stop & d & Eh & Hstop).
  erewrite bind_done by (unfold axmap_handler; erewrite bind_done by reflexivity;
    rewrite (ok_count _ Hok), Nat2Z.id; exact Eh).
  destruct stop; cbn [negb].
  2: { exists r, r. rewrite Er. split; [done|]. split; [done|]. by apply first_free_ok. }
  destruct (Hstop eq_refl) as (k & Hk & Hlev & Hoff & Hnf). pose proof (ok_some _ Hok).
  rewrite Hlev, (proj2 (Z.eqb_neq _ UINT_MAX)) by (unfold UINT_MAX; lia).
  destruct (find_from m Hok k (nd_offset d) ULONG_MAX Hk Hoff Hnf) as (r' & E & Hr').
  rewrite (bind_done _ _ _ _ _ (clip_run k _ _ E)).
  destruct (Z.ltb_spec r' (am_nr_bits m)) as [Hlt|Hge].
  - pose proof (nr_bits_bound m Hok). rewrite (proj2 (Z.eqb_neq r' ULONG_MAX)) by lia. cbn [negb].
    exists r', (am_first_free m). rewrite Hsame. split; [done|]. split; [|done].
    destruct Hr' as [[-> _]|(Hv & _ & Hf & _)]; [lia|]. right. split; [unfold valid in Hv; lia|done].
  - rewrite Z.eqb_refl. cbn [negb]. exists r, r. rewrite Er. split; [done|]. split; [done|].
    by apply first_free_ok.
Qed.
End free.

(** ** New and reset maps *)

Lemma word_zeros (n : nat) (j : Z) : word (replicate n 0) j = 0.
Proof.
  unfold word. destruct (replicate n 0 !! Z.to_nat j) eqn:E; [|done].
  by apply lookup_replicate in E as [-> _].
Qed.

Lemma lbit_zeros (n : nat) (x : Z) : lbit (replicate n 0) x = false.
Proof. unfold lbit. rewrite word_zeros. apply Z.bits_0. Qed.

Lemma zeros_link (a b : nat) : Z.of_nat b = up64 (Z.of_nat a) → link (replicate a 0) (replicate b 0).
Proof.
  intros Hb. split; [unfold len; by rewrite !length_replicate|]. intros j Hj.
  rewrite lbit_zeros, word_zeros. symmetry. apply bool_decide_eq_false. intros [_ H].
  unfold ULONG_MAX in H. lia.
Qed.

Lemma zeros_words (n : nat) : level_words (replicate n 0).
Proof. apply Forall_replicate. unfold is_word. lia. Qed.

Definition zero_level (al : axmap_level) : axmap_level :=
  AxmapLevel (al_level al) (al_map_size al) (replicate (Z.to_nat (al_map_size al)) 0).

Lemma reset_run (m : axmap) :
  am_nr_levels m = Z.of_nat (length (am_levels m)) →
  axmap_reset m = (Done tt, Axmap (am_nr_levels m) (zero_level <$> am_levels m) 0 (am_nr_bits m)).
Proof.
  intros Hn. unfold axmap_reset. erewrite bind_done by reflexivity.
  match goal with |- context [for_lt 0 _ ?body] =>
    destruct (for_lt_run (F:=fault) (λ i lv s, s = m ∧
      lv = (zero_level <$> take (Z.to_nat i) (am_levels m)) ++ drop (Z.to_nat i) (am_levels m))
      body 0 (am_nr_levels m) (am_levels m) m) as (lv & s & E & -> & ->)
  end.
  - lia.
  - done.
  - intros i lv s Hi [-> ->].
    destruct (lookup_lt_is_Some_2 (am_levels m) (Z.to_nat i)) as [al Hal]; [lia|].
    pose proof (lookup_lt_Some _ _ _ Hal).
    assert (length (zero_level <$> take (Z.to_nat i) (am_levels m)) = Z.to_nat i) as Hl
      by (rewrite length_fmap, length_take; lia).
    rewrite (arr_get_ok _ i al), bind_ret; [|lia|].
    2: { rewrite lookup_app_r by lia. rewrite Hl, Nat.sub_diag, lookup_drop, Nat.add_0_r. done. }
    rewrite arr_set_ok by (rewrite length_app, Hl, length_drop; lia).
    eexists _, _. split; [reflexivity|]. split; [done|].
    replace (Z.to_nat (i + 1)) with (S (Z.to_nat i)) by lia.
    rewrite (take_S_r _ _ al), fmap_app by done. rewrite insert_app_r_alt by lia.
    rewrite Hl, Nat.sub_diag. rewrite (drop_S _ al) by done. by rewrite <- app_assoc.
  - rewrite (bind_done _ _ _ _ _ E). rewrite Hn, Nat2Z.id, take_ge, drop_ge, app_nil_r by lia. done.
Qed.

Lemma zero_maps (lv : list axmap_level) :
  (∀ i al, lv !! i = Some al → al_map_size al = len (al_map al)) →
  al_map <$> (zero_level <$> lv) = (λ ws : list Z, replicate (length ws) 0) <$> (al_map <$> lv).
Proof.
  intros H. rewrite <- !list_fmap_compose. apply list_fmap_ext. intros i al Hal. simpl.
  rewrite (H i al Hal). unfold len. by rewrite Nat2Z.id.
Qed.

Lemma zeros_linked (mp : list (list Z)) :
  linked mp → linked ((λ ws : list Z, replicate (length ws) 0) <$> mp).
Proof.
  induction mp as [|ws rest IH]; [done|]. intros [Hl Hr]. csimpl. split; [|by apply IH].
  destruct rest as [|ws' rest]; [done|]. simpl. apply zeros_link. apply (link_len _ _ Hl).
Qed.

Lemma reset_ok (m : axmap) :
  axmap_ok m →
  ∃ m', axmap_reset m = (Done tt, m') ∧ axmap_ok m' ∧ am_nr_bits m' = am_nr_bits m ∧
    ∀ b, is_set m' b = false.
Proof.
  intros Hok. rewrite (reset_run m (ok_count _ Hok)). eexists. split; [done|].
  set (m' := Axmap _ _ _ _).
  assert (maps m' = (λ ws : list Z, replicate (length ws) 0) <$> maps m) as Em.
  { apply zero_maps. intros i al Hal. by destruct (ok_level _ Hok i al Hal). }
  assert (∀ b, is_set m' b = false) as Hz.
  { intros b. unfold is_set, bitmap, level_at. rewrite Em, list_lookup_total_alt, list_lookup_fmap.
    destruct (maps m !! 0%nat); simpl; [apply lbit_zeros|]. unfold lbit, word. simpl. apply Z.bits_0. }
  split; [|done]. pose proof Hok as [H1 H2 H3 H4 H5 H6 H7 H8]. constructor.
  - simpl. by rewrite length_fmap.
  - simpl. by rewrite length_fmap.
  - intros i al Hal. simpl in Hal. rewrite list_lookup_fmap in Hal.
    destruct (am_levels m !! i) as [al0|] eqn:E; [|done]. simpl in Hal. injection Hal as <-. simpl.
    destruct (H3 i al0 E) as [-> Hsz]. split; [done|]. unfold len in *. rewrite length_replicate. lia.
  - rewrite Em. apply Forall_fmap, Forall_true. intros ws. apply zeros_words.
  - rewrite Em. by apply zeros_linked.
  - rewrite Em. apply Forall_fmap. apply Forall_lookup_2. intros i ws Hws.
    apply (Forall_lookup_1 _ _ _ _ H6) in Hws. simpl. unfold len in *. by rewrite length_replicate.
  - unfold bitmap, level_at in *. rewrite Em, list_lookup_total_alt, list_lookup_fmap.
    rewrite list_lookup_total_alt in H7. destruct (maps m !! 0%nat); simpl in *; [|done].
    unfold len in *. by rewrite length_replicate.
  - right. simpl. split; [lia|]. apply Hz.
Qed.

Lemma units_up64 (n : Z) : 0 ≤ n ≤ 2 ^ 40 → units n = up64 n.
Proof.
  intros Hn. unfold units, up64, UNIT_SHIFT, u64. change BLOCKS_PER_UNIT with 64.
  rewrite Z.mod_small by lia. rewrite Z.shiftr_div_pow2 by lia. f_equal. lia.
Qed.

Lemma up64_le (n k : Z) : 0 ≤ n ≤ 64 * k → 0 ≤ up64 n ≤ k.
Proof.
  intros Hn. unfold up64. split; [apply Z.div_pos; lia|].
  apply Z.lt_succ_r, Z.div_lt_upper_bound; lia.
Qed.

Lemma count_levels_run {S} (k : nat) (i l : Z) (s : S) :
  0 ≤ i ≤ 64 ^ Z.of_nat k → 0 ≤ i < 2 ^ 32 → 1 ≤ l → l + Z.of_nat k < 2 ^ 32 →
  ∃ L, count_levels (Datatypes.S k) i l s = (Done L, s) ∧ l ≤ L ≤ l + Z.of_nat k.
Proof.
  revert i l; induction k as [|k IH]; intros i l Hi H32 Hl Hb; cbn [count_levels].
  - rewrite (proj2 (Z.ltb_ge 1 i)) by (simpl in Hi; lia). exists l. split; [done|lia].
  - destruct (Z.ltb_spec 1 i); [|exists l; split; [done|lia]].
    rewrite Nat2Z.inj_succ, Z.pow_succ_r in Hi by lia.
    pose proof (up64_le i (64 ^ Z.of_nat k) ltac:(lia)) as Hu.
    pose proof (up64_le i (2 ^ 26) ltac:(lia)) as Hu2.
    rewrite units_up64 by lia. rewrite (u32_id (up64 i)), (u32_id (l + 1)) by lia.
    destruct (IH (up64 i) (l + 1)) as (L & E & HL); [lia..|]. exists L. split; [exact E|lia].
Qed.

Lemma make_levels_run (alloc : Z → bool) (n : nat) (i nr : Z) :
  (∀ k, alloc k = true) → 0 ≤ nr ≤ 2 ^ 40 →
  ∃ lv, make_levels alloc n i nr = Some lv ∧ length lv = n ∧
    (∀ k al, lv !! k = Some al → al_level al = i + Z.of_nat k ∧ al_map_size al = len (al_map al) ∧
       level_words (al_map al) ∧ 64 * len (al_map al) < 2 ^ 64) ∧
    linked (al_map <$> lv) ∧ (∀ al, lv !! 0%nat = Some al → al_map al = replicate (Z.to_nat (up64 nr)) 0).
Proof.
  intros Ha. revert i nr; induction n as [|n IH]; intros i nr Hnr; cbn [make_levels].
  { exists []. by split_and!. }
  pose proof (up64_le nr (2 ^ 34) ltac:(lia)) as Hu.
  rewrite Ha, units_up64 by done.
  destruct (IH (i + 1) (up64 nr)) as (lv & -> & Hlen & Hk & Hl & Hh); [lia|]. simpl.
  eexists. split; [done|]. split; [simpl; lia|]. split.
  - intros [|k] al Hal; simpl in Hal.
    + injection Hal as <-. simpl. unfold len. rewrite length_replicate.
      split_and!; [lia|lia|apply zeros_words|lia].
    + destruct (Hk k al Hal) as [-> ?]. split; [lia|done].
  - split; [|by intros al [= <-]]. csimpl. split; [|done]. destruct lv as [|al lv]; [done|]. csimpl.
    rewrite (Hh al eq_refl). apply zeros_link.
    pose proof (up64_le (up64 nr) (2 ^ 28) ltac:(lia)). rewrite !Z2Nat.id by lia. done.
Qed.

Lemma new_run (alloc : Z → bool) (nr : Z) :
  (∀ k, alloc k = true) → 0 < nr ≤ 2 ^ 37 →
  ∃ m, axmap_new alloc nr tt = (Done (Some m), tt) ∧ axmap_ok m ∧ am_nr_bits m = nr ∧
    ∀ b, is_set m b = false.
Proof.
  intros Ha Hnr. unfold axmap_new. rewrite Ha. cbn [negb].
  pose proof (up64_le nr (2 ^ 31) ltac:(lia)) as Hu.
  pose proof (up64_bound nr 0 ltac:(lia)) as Hpos.
  rewrite units_up64, u32_id by lia.
  destruct (count_levels_run 7 (up64 nr) 1 tt) as (L & EL & HL); [lia..|].
  rewrite (bind_done _ _ _ _ _ EL), Ha. cbn [negb].
  destruct (make_levels_run alloc (Z.to_nat L) 0 nr Ha ltac:(lia)) as (lv & -> & Hlen & Hk & Hl & Hh).
  assert (axmap_ok (Axmap L lv 0 nr)) as Hok.
  { assert (bitmap (Axmap L lv 0 nr) = replicate (Z.to_nat (up64 nr)) 0) as Hbm.
    { destruct lv as [|al lv]; [simpl in Hlen; lia|]. unfold bitmap, maps, level_at. simpl. by apply Hh. }
    constructor; rewrite ?Hbm; simpl; try done.
    - lia.
    - lia.
    - intros i al Hal. by destruct (Hk i al Hal) as (? & ? & _).
    - unfold maps. apply Forall_fmap, Forall_lookup_2. intros i al Hal. by destruct (Hk i al Hal) as (_ & _ & ? & ?).
    - unfold maps. apply Forall_fmap, Forall_lookup_2. intros i al Hal. by destruct (Hk i al Hal) as (_ & _ & ? & ?).
    - unfold len. rewrite length_replicate, Z2Nat.id by lia. split; [lia|].
      pose proof (up64_bound nr (nr - 1)). lia.
    - right. split; [lia|apply lbit_zeros]. }
  destruct (reset_ok _ Hok) as (m & E & Hokm & Hnb & Hz). rewrite E. exists m. done.
Qed.

(** ** Refinement of a set *)

Inductive map_op : Type := OpSet (b : Z) | OpClear (b : Z) | OpReset.

Definition run_op (o : map_op) : aprog unit :=
  match o with
  | OpSet b => axmap_set b
  | OpClear b => axmap_clear b
  | OpReset => axmap_reset
  end.

Definition spec_op (X : gset Z) (o : map_op) : gset Z :=
  match o with
  | OpSet b => {[b]} ∪ X
  | OpClear b => X ∖ {[b]}
  | OpReset => ∅
  end.

Fixpoint run_ops (ops : list map_op) : aprog unit :=
  match ops with [] => mret tt | o :: ops => run_op o;; run_ops ops end.

Definition op_within (nr : Z) (o : map_op) : Prop :=
  match o with OpSet b | OpClear b => 0 ≤ b < nr | OpReset => True end.

(** The map holds the set. *)
Definition represents (m : axmap) (X : gset Z) : Prop :=
  ∀ b, 0 ≤ b < am_nr_bits m → is_set m b = bool_decide (b ∈ X).

Lemma run_op_refines (m : axmap) (X : gset Z) (o : map_op) :
  axmap_ok m → represents m X → op_within (am_nr_bits m) o →
  ∃ m', run_op o m = (Done tt, m') ∧ axmap_ok m' ∧ am_nr_bits m' = am_nr_bits m ∧
    represents m' (spec_op X o).
Proof.
  intros Hok Hr Hin. destruct o as [b|b|]; simpl in *.
  - unfold axmap_set. rewrite (bind_done _ _ _ _ _ (set_core m b 0 Hok Hin)).
    destruct (set_result m b Hok Hin) as (Hok' & Hn & Hs). eexists. split; [done|].
    split; [done|]. split; [done|]. intros y Hy. rewrite Hn in Hy. rewrite Hs, Hr by lia.
    rewrite <- bool_decide_or. apply bool_decide_ext. set_solver.
  - destruct (clear_run m b Hok Hin) as (m' & E & Hok' & Hn & _ & Hs). exists m'.
    split; [done|]. split; [done|]. split; [done|]. intros y Hy. rewrite Hn in Hy. rewrite Hs, Hr by lia.
    rewrite <- bool_decide_not, <- bool_decide_and. apply bool_decide_ext. set_solver.
  - destruct (reset_ok m Hok) as (m' & E & Hok' & Hn & Hz). exists m'.
    split; [done|]. split; [done|]. split; [done|]. intros y Hy. rewrite Hz. done.
Qed.

(** C12: the axmap implements a set of block numbers: from a new map, any sequence
    of sets, clears and resets of valid bits completes, and [axmap_isset] then
    answers membership in the set the sequence describes, for every valid bit.
    The invariant behind it links the levels: a bit is set exactly when the word
    below it is full. *)
Theorem axmap_refines_set (alloc : Z → bool) (nr : Z) (ops : list map_op) :
  (∀ k, alloc k = true) → 0 < nr ≤ 2 ^ 37 → Forall (op_within nr) ops →
  ∃ m0 m, axmap_new alloc nr tt = (Done (Some m0), tt) ∧ run_ops ops m0 = (Done tt, m) ∧
    axmap_ok m ∧
    ∀ b, 0 ≤ b < nr → axmap_isset b m = (Done (bool_decide (b ∈ foldl spec_op ∅ ops)), m).
Proof.
  intros Ha Hnr Hops. destruct (new_run alloc nr Ha Hnr) as (m0 & E0 & Hok0 & Hn0 & Hz).
  exists m0. rewrite E0.
  assert (represents m0 ∅) as Hr0 by (intros b Hb; by rewrite Hz).
  clear E0 Hz. revert m0 Hok0 Hn0 Hr0. generalize (∅ : gset Z).
  induction Hops as [|o ops Ho _ IH]; intros X m0 Hok0 Hn0 Hr0; simpl.
  - exists m0. split; [done|]. split; [done|]. split; [done|]. intros b Hb.
    rewrite isset_run by (done || lia). by rewrite Hr0 by lia.
  - destruct (run_op_refines m0 X o Hok0 Hr0) as (m1 & E1 & Hok1 & Hn1 & Hr1); [by rewrite Hn0|].
    rewrite (bind_done _ _ _ _ _ E1).
    destruct (IH _ m1 Hok1 ltac:(congruence) Hr1) as (m & _ & E & Hok & Hs).
    exists m. done.
Qed.

(** The searches: on a well formed map [axmap_first_free] and
    [axmap_next_free] return a free bit, or -1 when no bit is free, and change
    nothing but the cache; without a cached value [axmap_first_free] returns the
    least free bit. *)
Theorem axmap_free_bits (m : axmap) (b : Z) :
  axmap_ok m → 0 ≤ b < am_nr_bits m →
  (∃ r, axmap_first_free m = (Done r, set_first_free r m) ∧ free_or_full m r ∧
    (am_first_free m = ULONG_MAX → least_free m r) ∧ axmap_ok (set_first_free r m)) ∧
  (∃ r ff, axmap_next_free b m = (Done r, set_first_free ff m) ∧ free_or_full m r ∧
    axmap_ok (set_first_free ff m)).
Proof.
  intros Hok Hb. split; [|by apply next_free_run].
  destruct (first_free_run m Hok) as (r & E & Hf & Hl). exists r. split; [done|]. split; [done|].
  split; [done|]. by apply first_free_ok.
Qed.

(** [axmap_isset] accepts the bit number [nr_bits] itself, and reads past the
    end of the bottom level when the map has a whole number of words and one
    level. *)
Theorem axmap_isset_overruns (m : axmap) :
  axmap_ok m → am_nr_levels m = 1 → am_nr_bits m = 64 * len (bitmap m) →
  axmap_isset (am_nr_bits m) m = (Leave (Undefined OutOfBounds), m).
Proof.
  intros Hok Hl Hb. unfold axmap_isset. erewrite bind_done by reflexivity.
  rewrite Z.leb_refl. unfold axmap_handler_topdown.
  destruct (levels_nonempty m Hok) as (al & suf & El & _ & Eb).
  assert (handle_level axmap_isset_fn 0 (am_nr_bits m) tt m = (Leave (Undefined OutOfBounds), m)) as Eh.
  { unfold handle_level. erewrite bind_done by reflexivity. rewrite El. erewrite bind_done by reflexivity.
    change (ulog64 (am_nr_bits m) (Z.to_nat 0)) with (am_nr_bits m). rewrite unit_of, bit_in_unit.
    apply bind_leave. apply bind_leave. unfold arr_get. rewrite Hb, Eb.
    replace (64 * len (al_map al) / 64) with (len (al_map al)) by (rewrite Z.mul_comm, Z.div_mul; lia).
    unfold len. rewrite (proj2 (Z.ltb_ge _ 0)), Nat2Z.id by lia.
    by rewrite lookup_ge_None_2 by lia. }
  erewrite bind_leave; [done|]. erewrite bind_done by reflexivity. rewrite Hl. change (Z.to_nat 1) with 1%nat.
  cbn [handle_down]. by apply bind_leave.
Qed.

(** ** Witnesses *)

Lemma axmap_refines_set_witness :
  ∃ m0 m, axmap_new (λ _, true) 200 tt = (Done (Some m0), tt) ∧
    run_ops [OpSet 3; OpReset; OpSet 70; OpSet 199; OpClear 70] m0 = (Done tt, m) ∧
    axmap_ok m ∧ axmap_isset 199 m = (Done true, m) ∧ axmap_isset 70 m = (Done false, m).
Proof.
  destruct (axmap_refines_set (λ _, true) 200 [OpSet 3; OpReset; OpSet 70; OpSet 199; OpClear 70])
    as (m0 & m & E0 & E & Hok & Hs).
  - done.
  - lia.
  - repeat constructor; simpl; lia.
  - exists m0, m. split; [exact E0|]. split; [exact E|]. split; [exact Hok|].
    split; [apply (Hs 199); lia|apply (Hs 70); lia].
Defined.

(** A map of one word. *)
Definition small_map (w nr : Z) : axmap := Axmap 1 [AxmapLevel 0 1 [w]] ULONG_MAX nr.

Lemma small_map_ok (w nr : Z) : is_word w → 0 < nr ≤ 64 → axmap_ok (small_map w nr).
Proof.
  intros Hw Hnr. constructor; try done.
  - simpl. lia.
  - intros [|i] al Hal; [|done]. injection Hal as <-. done.
  - repeat constructor; apply Hw.
  - repeat constructor.
  - by left.
Qed.

Lemma axmap_free_bits_witness :
  ∃ r, axmap_first_free (small_map 5 10) = (Done r, set_first_free r (small_map 5 10)) ∧
    least_free (small_map 5 10) r.
Proof.
  destruct (axmap_free_bits (small_map 5 10) 2) as [(r & E & _ & Hl & _) _].
  - apply small_map_ok; [unfold is_word; lia|lia].
  - simpl. lia.
  - exists r. split; [exact E|apply Hl; reflexivity].
Defined.

Lemma axmap_isset_overruns_witness :
  axmap_isset 64 (small_map 0 64) = (Leave (Undefined OutOfBounds), small_map 0 64).
Proof.
  apply (axmap_isset_overruns (small_map 0 64)); [|done|done].
  apply small_map_ok; [unfold is_word; lia|lia].
Defined.

(** ** Observed behaviour

    Four runs on one word that differ from what the comments and the names
    promise. *)

(** The next free bit after bit 10 is one before it. *)
Example axmap_next_free_goes_back : (axmap_next_free 10 (small_map 1027 40)).1 = Done 2.
Proof. by vm_compute. Qed.

(** Setting four bits over a used one sets bits on both sides of it. *)
Example axmap_set_nr_not_contiguous :
  let r := axmap_set_nr 1 0 4 (small_map 4 64) in r.1 = Done 3 ∧ maps r.2 = [[15]].
Proof. by vm_compute. Qed.

(** Forty bits, sixteen of them used, are counted as 48. *)
Example axmap_set_nr_miscounts :
  (axmap_set_nr 2 0 40 (small_map (Z.shiftl 0xffff 24) 64)).1 = Done 48.
Proof. by vm_compute. Qed.

(** Bits beyond [nr_bits] are set and counted. *)
Example axmap_set_nr_beyond :
  let r := axmap_set_nr 1 8 5 (small_map 0 10) in r.1 = Done 5 ∧ maps r.2 = [[7936]].
Proof. by vm_compute. Qed.
