(* ===== verification/FioRandomMap.v ===== *)
(** * fio: random offsets through the map (io_u.c)

    fio's random workloads draw a block, replace it by a free one when the map
    says it is used, and mark it.  The state is the map of the file; the number
    drawn is an argument. *)

From Stdlib Require Import ZArith Lia.
From stdpp Require Import base gmap list numbers.
From S2P Require Import Prelude FioBits FioAxmapLevels FioAxmap.

(** The fields of the file and the options the functions read. *)
Record io_params : Type := IoParams {
  io_size : Z;
  file_offset : Z;
  real_file_size : Z;
  zone_range : Z;
  ba : Z;          (* block alignment of the direction *)
  rw_min_bs : Z;
}.

Definition random_map_free (block : Z) : aprog bool :=
  r ← axmap_isset block; mret (negb r).

Definition last_block (p : io_params) : Z :=
  let max_size := if real_file_size p <? io_size p then real_file_size p else io_size p in
  let max_size := if negb (zone_range p =? 0) then zone_range p else max_size in
  max_size / ba p.

(** The end of [__get_next_rand_offset]: a used block is replaced by a free one;
    [None] is the return of 1. *)
Definition map_offset (b : Z) : aprog (option Z) :=
  free ← random_map_free b;
  if free : bool then mret (Some b)
  else
    b ← axmap_next_free b;
    mret (if b =? ULONG_MAX then None else Some b).

(** The offset of a block and the checks of [__get_next_offset]. *)
Definition offset_of (p : io_params) (b : Z) : option Z :=
  let off := u64 (b * ba p) in
  if io_size p <=? off then None
  else
    let off := u64 (off + file_offset p) in
    if real_file_size p <=? off then None else Some off.

(** The new [buflen]. *)
Definition mark_random_map (fuel : nat) (p : io_params) (busy_ok : bool) (offset buflen : Z)
  : aprog Z :=
  let block := u64 (offset - file_offset p) / rw_min_bs p in
  let nr_blocks := u32 (u64 (buflen + rw_min_bs p - 1) / rw_min_bs p) in
  nr_blocks ← (if busy_ok then mret nr_blocks else axmap_set_nr fuel block nr_blocks);
  let done := u32 (nr_blocks * rw_min_bs p) in
  mret (if done <? buflen then done else buflen).

(** One random request of [buflen] bytes from the drawn block [b]: its offset and
    length. *)
Definition random_io (fuel : nat) (p : io_params) (buflen b : Z) : aprog (option (Z * Z)) :=
  r ← map_offset b;
  match r with
  | None => mret None
  | Some b =>
      match offset_of p b with
      | None => mret None
      | Some off => len ← mark_random_map fuel p false off buflen; mret (Some (off, len))
      end
  end.

Fixpoint random_ios (fuel : nat) (p : io_params) (buflen : Z) (draws : list Z)
  : aprog (list (option (Z * Z))) :=
  match draws with
  | [] => mret []
  | b :: draws =>
      x ← random_io fuel p buflen b;
      xs ← random_ios fuel p buflen draws;
      mret (x :: xs)
  end.

(** ** One request *)

Lemma set_nr_one (m : axmap) (b : Z) (fuel : nat) :
  axmap_ok m → 0 ≤ b < am_nr_bits m → is_set m b = false →
  axmap_set_nr (S fuel) b 1 m = (Done 1, rebuild m (set_up b (maps m)) (forget m b)).
Proof.
  intros Hok Hb Hf. unfold axmap_set_nr. cbn [set_nr_loop]. rewrite bit_in_unit.
  change BLOCKS_PER_UNIT with 64. pose proof (Z.mod_pos_bound b 64 ltac:(lia)).
  rewrite (proj2 (Z.ltb_ge (64 - b mod 64) 1)) by lia.
  rewrite (bind_done _ _ _ _ _ (set_core m b 63 Hok Hb)), Hf. done.
Qed.

Section pass.
Context (p : io_params) (nr bs : Z).
Hypothesis Hnr : 0 < nr ≤ 2 ^ 37.
Hypothesis Hbs : 0 < bs < 2 ^ 31.
Hypothesis Hba : ba p = bs.
Hypothesis Hmin : rw_min_bs p = bs.
Hypothesis Hsize : io_size p = nr * bs.
Hypothesis Hfo : 0 ≤ file_offset p.
Hypothesis Hreal : file_offset p + nr * bs ≤ real_file_size p < 2 ^ 64.

Lemma offset_of_block (b : Z) : 0 ≤ b < nr → offset_of p b = Some (file_offset p + b * bs).
Proof using Hnr Hbs Hba Hsize Hfo Hreal.
  intros Hb. unfold offset_of, u64. rewrite Hba, Hsize.
  assert (0 ≤ b * bs ∧ b * bs + bs ≤ nr * bs) by nia.
  rewrite (Z.mod_small (b * bs)) by lia. rewrite (proj2 (Z.leb_gt _ _)) by lia.
  rewrite Z.mod_small by lia. rewrite (proj2 (Z.leb_gt _ _)) by lia. f_equal. lia.
Qed.

Lemma mark_block (m : axmap) (fuel : nat) (b : Z) :
  axmap_ok m → am_nr_bits m = nr → 0 ≤ b < nr → is_set m b = false →
  mark_random_map (S fuel) p false (file_offset p + b * bs) bs m =
    (Done bs, rebuild m (set_up b (maps m)) (forget m b)).
Proof using Hnr Hbs Hba Hsize Hfo Hreal Hmin.
  intros Hok Hn Hb Hf. unfold mark_random_map, u64. rewrite Hmin.
  assert (0 ≤ b * bs ∧ b * bs + bs ≤ nr * bs) by nia.
  replace (file_offset p + b * bs - file_offset p) with (b * bs) by lia.
  rewrite Z.mod_small, Z.div_mul by lia. rewrite Z.mod_small by lia.
  assert ((bs + bs - 1) / bs = 1) as -> by (symmetry; apply Z.div_unique with (bs - 1); lia).
  rewrite (u32_id 1) by lia.
  rewrite (bind_done _ _ _ _ _ (set_nr_one m b fuel Hok ltac:(lia) Hf)).
  rewrite Z.mul_1_l, u32_id, Z.ltb_irrefl by lia. done.
Qed.

(** Progress: while some block is free, a request gets one and uses it up; when
    none is, the pass is over. *)
Lemma random_io_run (m : axmap) (fuel : nat) (d : Z) :
  axmap_ok m → am_nr_bits m = nr → 0 ≤ d < nr →
  ∃ m', axmap_ok m' ∧ am_nr_bits m' = nr ∧
    ((∃ b, 0 ≤ b < nr ∧ is_set m b = false ∧
        random_io (S fuel) p bs d m = (Done (Some (file_offset p + b * bs, bs)), m') ∧
        ∀ y, 0 ≤ y → is_set m' y = bool_decide (y = b) || is_set m y) ∨
     ((∀ b, 0 ≤ b < nr → is_set m b = true) ∧ random_io (S fuel) p bs d m = (Done None, m') ∧
        ∀ y, is_set m' y = is_set m y)).
Proof using Hnr Hbs Hba Hsize Hfo Hreal Hmin.
  intros Hok Hn Hd.
  assert (∃ r m1, map_offset d m = (Done r, m1) ∧ axmap_ok m1 ∧ am_nr_bits m1 = nr ∧
    (∀ y, is_set m1 y = is_set m y) ∧
    match r with Some b => 0 ≤ b < nr ∧ is_set m b = false
               | None => ∀ b, 0 ≤ b < nr → is_set m b = true end) as (r & m1 & E & Hok1 & Hn1 & Hs1 & Hr).
  { unfold map_offset, random_map_free. pose proof (isset_run m d Hok ltac:(lia)) as Ei.
    erewrite bind_done by (rewrite (bind_done _ _ _ _ _ Ei); done).
    destruct (is_set m d) eqn:Ed; cbn [negb]; [|by exists (Some d), m].
    destruct (next_free_run m Hok d ltac:(lia)) as (b & ff & Ef & Hfree & Hok1).
    rewrite (bind_done _ _ _ _ _ Ef). eexists _, _. split; [done|]. split; [done|]. split; [done|].
    split; [done|]. pose proof (nr_bits_bound m Hok). destruct Hfree as [[-> Hall]|[Hb Hf]].
    - rewrite Z.eqb_refl. by rewrite Hn in Hall.
    - rewrite (proj2 (Z.eqb_neq b ULONG_MAX)) by lia. split; [lia|done]. }
  unfold random_io. rewrite (bind_done _ _ _ _ _ E). destruct r as [b|].
  - destruct Hr as [Hb Hf]. rewrite offset_of_block by done.
    assert (is_set m1 b = false) as Hf1 by (by rewrite Hs1).
    rewrite (bind_done _ _ _ _ _ (mark_block m1 fuel b Hok1 Hn1 Hb Hf1)).
    destruct (set_result m1 b Hok1 ltac:(lia)) as (Hok2 & Hn2 & Hs2).
    eexists. split; [exact Hok2|]. split; [congruence|]. left. exists b. split; [done|].
    split; [done|]. split; [done|]. intros y Hy. by rewrite Hs2, Hs1 by done.
  - exists m1. split; [done|]. split; [done|]. right. done.
Qed.

(** A list of distinct blocks that is too short misses one. *)
Lemma missing_block (l : list Z) :
  Z.of_nat (length l) < nr → ∃ b, 0 ≤ b < nr ∧ b ∉ l.
Proof.
  intros Hl. destruct (decide (Forall (λ b, b ∈ l) (seqZ 0 nr))) as [Hall|Hex].
  - exfalso. rewrite list.Forall_forall in Hall.
    assert (seqZ 0 nr ⊆+ l) as Hsub by (apply NoDup_submseteq; [apply NoDup_seqZ|done]).
    apply submseteq_length in Hsub. rewrite length_seqZ in Hsub. lia.
  - apply not_Forall_Exists in Hex; [|apply _]. apply list.Exists_exists in Hex as (b & Hb%elem_of_seqZ & Hn).
    exists b. split; [lia|done].
Qed.

(** The blocks visited so far are the set bits. *)
Definition visited (m : axmap) (l : list Z) : Prop :=
  NoDup l ∧ Forall (λ b, 0 ≤ b < nr) l ∧ ∀ b, 0 ≤ b < nr → is_set m b = bool_decide (b ∈ l).

Lemma random_ios_run (fuel : nat) (draws : list Z) (m : axmap) (l : list Z) :
  axmap_ok m → am_nr_bits m = nr → visited m l → Forall (λ d, 0 ≤ d < nr) draws →
  (length l + length draws ≤ Z.to_nat nr)%nat →
  ∃ bs' m', random_ios (S fuel) p bs draws m =
      (Done ((λ b, Some (file_offset p + b * bs, bs)) <$> bs'), m') ∧
    length bs' = length draws ∧ axmap_ok m' ∧ am_nr_bits m' = nr ∧ visited m' (l ++ bs').
Proof using Hnr Hbs Hba Hsize Hfo Hreal Hmin.
  intros Hok Hn Hv Hdraws. revert m l Hok Hn Hv.
  induction Hdraws as [|d draws Hd _ IH]; intros m l Hok Hn Hv Hlen; simpl.
  { exists [], m. by rewrite app_nil_r. }
  destruct Hv as (Hnd & Hrange & Hset). simpl in Hlen.
  destruct (random_io_run m fuel d Hok Hn Hd) as (m1 & Hok1 & Hn1 & [(b & Hb & Hf & E & Hs)|(Hall & _)]).
  2: { destruct (missing_block l) as (b & Hb & Hnb); [lia|]. specialize (Hall b Hb).
       rewrite Hset in Hall by done. by apply bool_decide_eq_true in Hall. }
  assert (visited m1 (l ++ [b])) as Hv1.
  { rewrite Hset in Hf by done. apply bool_decide_eq_false in Hf. split; [|split].
    - apply list.NoDup_app. split; [done|]. split; [|apply NoDup_singleton].
      intros y Hy ->%list_elem_of_singleton. done.
    - apply Forall_app. split; [done|]. by constructor.
    - intros y Hy. rewrite Hs, Hset, <- bool_decide_or by lia. apply bool_decide_ext.
      rewrite elem_of_app, list_elem_of_singleton. tauto. }
  destruct (IH m1 (l ++ [b]) Hok1 Hn1 Hv1) as (bs' & m' & E' & Hl' & Hok' & Hn' & Hv').
  { rewrite length_app. simpl. lia. }
  exists (b :: bs'), m'. rewrite (bind_done _ _ _ _ _ E), (bind_done _ _ _ _ _ E').
  split; [done|]. split; [simpl; lia|]. split; [done|]. split; [done|].
  by rewrite <- app_assoc in Hv'.
Qed.
End pass.

(** C13: random I/O covers the file fairly: on a file of [nr] blocks with a new
    map, any [nr] random requests, whatever numbers are drawn, all succeed, are a
    whole block long and visit every block of the file exactly once; the request
    after them reports that the file is exhausted. *)
Theorem random_map_covers (alloc : Z → bool) (p : io_params) (nr bs d : Z) (fuel : nat)
    (draws : list Z) :
  (∀ k, alloc k = true) → 0 < nr ≤ 2 ^ 37 → 0 < bs < 2 ^ 31 →
  ba p = bs → rw_min_bs p = bs → io_size p = nr * bs → 0 ≤ file_offset p →
  file_offset p + nr * bs ≤ real_file_size p < 2 ^ 64 →
  Z.of_nat (length draws) = nr → Forall (λ x, 0 ≤ x < nr) draws → 0 ≤ d < nr →
  ∃ m0 m m' ios, axmap_new alloc nr tt = (Done (Some m0), tt) ∧
    random_ios (S fuel) p bs draws m0 = (Done ios, m) ∧
    ios ≡ₚ (λ b, Some (file_offset p + b * bs, bs)) <$> seqZ 0 nr ∧
    random_io (S fuel) p bs d m = (Done None, m').
Proof.
  intros Ha Hnr Hbs Hba Hmin Hsize Hfo Hreal Hlen Hdraws Hd.
  destruct (new_run alloc nr Ha Hnr) as (m0 & E0 & Hok0 & Hn0 & Hz).
  destruct (random_ios_run p nr bs Hnr Hbs Hba Hmin Hsize Hfo Hreal fuel draws m0 [] Hok0 Hn0)
    as (bs' & m & E & Hl & Hok & Hn & Hnd & Hrange & Hset).
  - split; [constructor|]. split; [constructor|]. intros b Hb. rewrite Hz. done.
  - done.
  - simpl. lia.
  - simpl in Hnd, Hrange, Hset.
    assert (bs' ≡ₚ seqZ 0 nr) as Hperm.
    { apply submseteq_length_Permutation.
      - apply NoDup_submseteq; [done|]. intros b Hb. rewrite list.Forall_forall in Hrange.
        apply elem_of_seqZ. specialize (Hrange b Hb). lia.
      - rewrite length_seqZ. lia. }
    destruct (random_io_run p nr bs Hnr Hbs Hba Hmin Hsize Hfo Hreal m fuel d Hok Hn Hd)
      as (m' & _ & _ & [(b & Hb & Hf & _)|(_ & E' & _)]).
    + rewrite Hset in Hf by done. apply bool_decide_eq_false in Hf. exfalso. apply Hf.
      rewrite Hperm. apply elem_of_seqZ. lia.
    + exists m0, m, m', ((λ b, Some (file_offset p + b * bs, bs)) <$> bs').
      split; [done|]. split; [done|]. split; [|done]. by rewrite Hperm.
Qed.

(** ** Witnesses *)

Definition sample_io : io_params := IoParams 1536 4096 8192 0 512 512.

Lemma random_map_covers_witness :
  ∃ m0 m m' ios, axmap_new (λ _, true) 3 tt = (Done (Some m0), tt) ∧
    random_ios 1 sample_io 512 [2; 2; 1] m0 = (Done ios, m) ∧
    ios ≡ₚ [Some (4096, 512); Some (4608, 512); Some (5120, 512)] ∧
    random_io 1 sample_io 512 0 m = (Done None, m').
Proof.
  apply (random_map_covers (λ _, true) sample_io 3 512 0 0 [2; 2; 1]); try done; try lia.
  repeat constructor; lia.
Defined.
