(* ===== verification/FioCrc.v ===== *)
(** * fio: checksums (crc/)

    The table driven checksums fio verifies data with, and their equivalence with
    division by the generator polynomial one bit at a time. *)

From Stdlib Require Import ZArith Lia.
From stdpp Require Import base list numbers.
From S2P Require Import Prelude FioBits.

Definition crc7_syndrome_table : list Z := [
  0x00; 0x09; 0x12; 0x1b; 0x24; 0x2d; 0x36; 0x3f; 0x48; 0x41; 0x5a; 0x53;
  0x6c; 0x65; 0x7e; 0x77; 0x19; 0x10; 0x0b; 0x02; 0x3d; 0x34; 0x2f; 0x26;
  0x51; 0x58; 0x43; 0x4a; 0x75; 0x7c; 0x67; 0x6e; 0x32; 0x3b; 0x20; 0x29;
  0x16; 0x1f; 0x04; 0x0d; 0x7a; 0x73; 0x68; 0x61; 0x5e; 0x57; 0x4c; 0x45;
  0x2b; 0x22; 0x39; 0x30; 0x0f; 0x06; 0x1d; 0x14; 0x63; 0x6a; 0x71; 0x78;
  0x47; 0x4e; 0x55; 0x5c; 0x64; 0x6d; 0x76; 0x7f; 0x40; 0x49; 0x52; 0x5b;
  0x2c; 0x25; 0x3e; 0x37; 0x08; 0x01; 0x1a; 0x13; 0x7d; 0x74; 0x6f; 0x66;
  0x59; 0x50; 0x4b; 0x42; 0x35; 0x3c; 0x27; 0x2e; 0x11; 0x18; 0x03; 0x0a;
  0x56; 0x5f; 0x44; 0x4d; 0x72; 0x7b; 0x60; 0x69; 0x1e; 0x17; 0x0c; 0x05;
  0x3a; 0x33; 0x28; 0x21; 0x4f; 0x46; 0x5d; 0x54; 0x6b; 0x62; 0x79; 0x70;
  0x07; 0x0e; 0x15; 0x1c; 0x23; 0x2a; 0x31; 0x38; 0x41; 0x48; 0x53; 0x5a;
  0x65; 0x6c; 0x77; 0x7e; 0x09; 0x00; 0x1b; 0x12; 0x2d; 0x24; 0x3f; 0x36;
  0x58; 0x51; 0x4a; 0x43; 0x7c; 0x75; 0x6e; 0x67; 0x10; 0x19; 0x02; 0x0b;
  0x34; 0x3d; 0x26; 0x2f; 0x73; 0x7a; 0x61; 0x68; 0x57; 0x5e; 0x45; 0x4c;
  0x3b; 0x32; 0x29; 0x20; 0x1f; 0x16; 0x0d; 0x04; 0x6a; 0x63; 0x78; 0x71;
  0x4e; 0x47; 0x5c; 0x55; 0x22; 0x2b; 0x30; 0x39; 0x06; 0x0f; 0x14; 0x1d;
  0x25; 0x2c; 0x37; 0x3e; 0x01; 0x08; 0x13; 0x1a; 0x6d; 0x64; 0x7f; 0x76;
  0x49; 0x40; 0x5b; 0x52; 0x3c; 0x35; 0x2e; 0x27; 0x18; 0x11; 0x0a; 0x03;
  0x74; 0x7d; 0x66; 0x6f; 0x50; 0x59; 0x42; 0x4b; 0x17; 0x1e; 0x05; 0x0c;
  0x33; 0x3a; 0x21; 0x28; 0x5f; 0x56; 0x4d; 0x44; 0x7b; 0x72; 0x69; 0x60;
  0x0e; 0x07; 0x1c; 0x15; 0x2a; 0x23; 0x38; 0x31; 0x46; 0x4f; 0x54; 0x5d;
  0x62; 0x6b; 0x70; 0x79].

Definition crc16_table : list Z := [
  0x0000; 0xc0c1; 0xc181; 0x0140; 0xc301; 0x03c0; 0x0280; 0xc241; 0xc601; 0x06c0;
  0x0780; 0xc741; 0x0500; 0xc5c1; 0xc481; 0x0440; 0xcc01; 0x0cc0; 0x0d80; 0xcd41;
  0x0f00; 0xcfc1; 0xce81; 0x0e40; 0x0a00; 0xcac1; 0xcb81; 0x0b40; 0xc901; 0x09c0;
  0x0880; 0xc841; 0xd801; 0x18c0; 0x1980; 0xd941; 0x1b00; 0xdbc1; 0xda81; 0x1a40;
  0x1e00; 0xdec1; 0xdf81; 0x1f40; 0xdd01; 0x1dc0; 0x1c80; 0xdc41; 0x1400; 0xd4c1;
  0xd581; 0x1540; 0xd701; 0x17c0; 0x1680; 0xd641; 0xd201; 0x12c0; 0x1380; 0xd341;
  0x1100; 0xd1c1; 0xd081; 0x1040; 0xf001; 0x30c0; 0x3180; 0xf141; 0x3300; 0xf3c1;
  0xf281; 0x3240; 0x3600; 0xf6c1; 0xf781; 0x3740; 0xf501; 0x35c0; 0x3480; 0xf441;
  0x3c00; 0xfcc1; 0xfd81; 0x3d40; 0xff01; 0x3fc0; 0x3e80; 0xfe41; 0xfa01; 0x3ac0;
  0x3b80; 0xfb41; 0x3900; 0xf9c1; 0xf881; 0x3840; 0x2800; 0xe8c1; 0xe981; 0x2940;
  0xeb01; 0x2bc0; 0x2a80; 0xea41; 0xee01; 0x2ec0; 0x2f80; 0xef41; 0x2d00; 0xedc1;
  0xec81; 0x2c40; 0xe401; 0x24c0; 0x2580; 0xe541; 0x2700; 0xe7c1; 0xe681; 0x2640;
  0x2200; 0xe2c1; 0xe381; 0x2340; 0xe101; 0x21c0; 0x2080; 0xe041; 0xa001; 0x60c0;
  0x6180; 0xa141; 0x6300; 0xa3c1; 0xa281; 0x6240; 0x6600; 0xa6c1; 0xa781; 0x6740;
  0xa501; 0x65c0; 0x6480; 0xa441; 0x6c00; 0xacc1; 0xad81; 0x6d40; 0xaf01; 0x6fc0;
  0x6e80; 0xae41; 0xaa01; 0x6ac0; 0x6b80; 0xab41; 0x6900; 0xa9c1; 0xa881; 0x6840;
  0x7800; 0xb8c1; 0xb981; 0x7940; 0xbb01; 0x7bc0; 0x7a80; 0xba41; 0xbe01; 0x7ec0;
  0x7f80; 0xbf41; 0x7d00; 0xbdc1; 0xbc81; 0x7c40; 0xb401; 0x74c0; 0x7580; 0xb541;
  0x7700; 0xb7c1; 0xb681; 0x7640; 0x7200; 0xb2c1; 0xb381; 0x7340; 0xb101; 0x71c0;
  0x7080; 0xb041; 0x5000; 0x90c1; 0x9181; 0x5140; 0x9301; 0x53c0; 0x5280; 0x9241;
  0x9601; 0x56c0; 0x5780; 0x9741; 0x5500; 0x95c1; 0x9481; 0x5440; 0x9c01; 0x5cc0;
  0x5d80; 0x9d41; 0x5f00; 0x9fc1; 0x9e81; 0x5e40; 0x5a00; 0x9ac1; 0x9b81; 0x5b40;
  0x9901; 0x59c0; 0x5880; 0x9841; 0x8801; 0x48c0; 0x4980; 0x8941; 0x4b00; 0x8bc1;
  0x8a81; 0x4a40; 0x4e00; 0x8ec1; 0x8f81; 0x4f40; 0x8d01; 0x4dc0; 0x4c80; 0x8c41;
  0x4400; 0x84c1; 0x8581; 0x4540; 0x8701; 0x47c0; 0x4680; 0x8641; 0x8201; 0x42c0;
  0x4380; 0x8341; 0x4100; 0x81c1; 0x8081; 0x4040].

Definition crctab : list Z := [
  0x0; 0x04c11db7; 0x09823b6e; 0x0d4326d9; 0x130476dc; 0x17c56b6b;
  0x1a864db2; 0x1e475005; 0x2608edb8; 0x22c9f00f; 0x2f8ad6d6; 0x2b4bcb61;
  0x350c9b64; 0x31cd86d3; 0x3c8ea00a; 0x384fbdbd; 0x4c11db70; 0x48d0c6c7;
  0x4593e01e; 0x4152fda9; 0x5f15adac; 0x5bd4b01b; 0x569796c2; 0x52568b75;
  0x6a1936c8; 0x6ed82b7f; 0x639b0da6; 0x675a1011; 0x791d4014; 0x7ddc5da3;
  0x709f7b7a; 0x745e66cd; 0x9823b6e0; 0x9ce2ab57; 0x91a18d8e; 0x95609039;
  0x8b27c03c; 0x8fe6dd8b; 0x82a5fb52; 0x8664e6e5; 0xbe2b5b58; 0xbaea46ef;
  0xb7a96036; 0xb3687d81; 0xad2f2d84; 0xa9ee3033; 0xa4ad16ea; 0xa06c0b5d;
  0xd4326d90; 0xd0f37027; 0xddb056fe; 0xd9714b49; 0xc7361b4c; 0xc3f706fb;
  0xceb42022; 0xca753d95; 0xf23a8028; 0xf6fb9d9f; 0xfbb8bb46; 0xff79a6f1;
  0xe13ef6f4; 0xe5ffeb43; 0xe8bccd9a; 0xec7dd02d; 0x34867077; 0x30476dc0;
  0x3d044b19; 0x39c556ae; 0x278206ab; 0x23431b1c; 0x2e003dc5; 0x2ac12072;
  0x128e9dcf; 0x164f8078; 0x1b0ca6a1; 0x1fcdbb16; 0x018aeb13; 0x054bf6a4;
  0x0808d07d; 0x0cc9cdca; 0x7897ab07; 0x7c56b6b0; 0x71159069; 0x75d48dde;
  0x6b93dddb; 0x6f52c06c; 0x6211e6b5; 0x66d0fb02; 0x5e9f46bf; 0x5a5e5b08;
  0x571d7dd1; 0x53dc6066; 0x4d9b3063; 0x495a2dd4; 0x44190b0d; 0x40d816ba;
  0xaca5c697; 0xa864db20; 0xa527fdf9; 0xa1e6e04e; 0xbfa1b04b; 0xbb60adfc;
  0xb6238b25; 0xb2e29692; 0x8aad2b2f; 0x8e6c3698; 0x832f1041; 0x87ee0df6;
  0x99a95df3; 0x9d684044; 0x902b669d; 0x94ea7b2a; 0xe0b41de7; 0xe4750050;
  0xe9362689; 0xedf73b3e; 0xf3b06b3b; 0xf771768c; 0xfa325055; 0xfef34de2;
  0xc6bcf05f; 0xc27dede8; 0xcf3ecb31; 0xcbffd686; 0xd5b88683; 0xd1799b34;
  0xdc3abded; 0xd8fba05a; 0x690ce0ee; 0x6dcdfd59; 0x608edb80; 0x644fc637;
  0x7a089632; 0x7ec98b85; 0x738aad5c; 0x774bb0eb; 0x4f040d56; 0x4bc510e1;
  0x46863638; 0x42472b8f; 0x5c007b8a; 0x58c1663d; 0x558240e4; 0x51435d53;
  0x251d3b9e; 0x21dc2629; 0x2c9f00f0; 0x285e1d47; 0x36194d42; 0x32d850f5;
  0x3f9b762c; 0x3b5a6b9b; 0x0315d626; 0x07d4cb91; 0x0a97ed48; 0x0e56f0ff;
  0x1011a0fa; 0x14d0bd4d; 0x19939b94; 0x1d528623; 0xf12f560e; 0xf5ee4bb9;
  0xf8ad6d60; 0xfc6c70d7; 0xe22b20d2; 0xe6ea3d65; 0xeba91bbc; 0xef68060b;
  0xd727bbb6; 0xd3e6a601; 0xdea580d8; 0xda649d6f; 0xc423cd6a; 0xc0e2d0dd;
  0xcda1f604; 0xc960ebb3; 0xbd3e8d7e; 0xb9ff90c9; 0xb4bcb610; 0xb07daba7;
  0xae3afba2; 0xaafbe615; 0xa7b8c0cc; 0xa379dd7b; 0x9b3660c6; 0x9ff77d71;
  0x92b45ba8; 0x9675461f; 0x8832161a; 0x8cf30bad; 0x81b02d74; 0x857130c3;
  0x5d8a9099; 0x594b8d2e; 0x5408abf7; 0x50c9b640; 0x4e8ee645; 0x4a4ffbf2;
  0x470cdd2b; 0x43cdc09c; 0x7b827d21; 0x7f436096; 0x7200464f; 0x76c15bf8;
  0x68860bfd; 0x6c47164a; 0x61043093; 0x65c52d24; 0x119b4be9; 0x155a565e;
  0x18197087; 0x1cd86d30; 0x029f3d35; 0x065e2082; 0x0b1d065b; 0x0fdc1bec;
  0x3793a651; 0x3352bbe6; 0x3e119d3f; 0x3ad08088; 0x2497d08d; 0x2056cd3a;
  0x2d15ebe3; 0x29d4f654; 0xc5a92679; 0xc1683bce; 0xcc2b1d17; 0xc8ea00a0;
  0xd6ad50a5; 0xd26c4d12; 0xdf2f6bcb; 0xdbee767c; 0xe3a1cbc1; 0xe760d676;
  0xea23f0af; 0xeee2ed18; 0xf0a5bd1d; 0xf464a0aa; 0xf9278673; 0xfde69bc4;
  0x89b8fd09; 0x8d79e0be; 0x803ac667; 0x84fbdbd0; 0x9abc8bd5; 0x9e7d9662;
  0x933eb0bb; 0x97ffad0c; 0xafb010b1; 0xab710d06; 0xa6322bdf; 0xa2f33668;
  0xbcb4666d; 0xb8757bda; 0xb5365d03; 0xb1f740b4].

Definition crc32c_table : list Z := [
  0x00000000; 0xf26b8303; 0xe13b70f7; 0x1350f3f4; 0xc79a971f; 0x35f1141c;
  0x26a1e7e8; 0xd4ca64eb; 0x8ad958cf; 0x78b2dbcc; 0x6be22838; 0x9989ab3b;
  0x4d43cfd0; 0xbf284cd3; 0xac78bf27; 0x5e133c24; 0x105ec76f; 0xe235446c;
  0xf165b798; 0x030e349b; 0xd7c45070; 0x25afd373; 0x36ff2087; 0xc494a384;
  0x9a879fa0; 0x68ec1ca3; 0x7bbcef57; 0x89d76c54; 0x5d1d08bf; 0xaf768bbc;
  0xbc267848; 0x4e4dfb4b; 0x20bd8ede; 0xd2d60ddd; 0xc186fe29; 0x33ed7d2a;
  0xe72719c1; 0x154c9ac2; 0x061c6936; 0xf477ea35; 0xaa64d611; 0x580f5512;
  0x4b5fa6e6; 0xb93425e5; 0x6dfe410e; 0x9f95c20d; 0x8cc531f9; 0x7eaeb2fa;
  0x30e349b1; 0xc288cab2; 0xd1d83946; 0x23b3ba45; 0xf779deae; 0x05125dad;
  0x1642ae59; 0xe4292d5a; 0xba3a117e; 0x4851927d; 0x5b016189; 0xa96ae28a;
  0x7da08661; 0x8fcb0562; 0x9c9bf696; 0x6ef07595; 0x417b1dbc; 0xb3109ebf;
  0xa0406d4b; 0x522bee48; 0x86e18aa3; 0x748a09a0; 0x67dafa54; 0x95b17957;
  0xcba24573; 0x39c9c670; 0x2a993584; 0xd8f2b687; 0x0c38d26c; 0xfe53516f;
  0xed03a29b; 0x1f682198; 0x5125dad3; 0xa34e59d0; 0xb01eaa24; 0x42752927;
  0x96bf4dcc; 0x64d4cecf; 0x77843d3b; 0x85efbe38; 0xdbfc821c; 0x2997011f;
  0x3ac7f2eb; 0xc8ac71e8; 0x1c661503; 0xee0d9600; 0xfd5d65f4; 0x0f36e6f7;
  0x61c69362; 0x93ad1061; 0x80fde395; 0x72966096; 0xa65c047d; 0x5437877e;
  0x4767748a; 0xb50cf789; 0xeb1fcbad; 0x197448ae; 0x0a24bb5a; 0xf84f3859;
  0x2c855cb2; 0xdeeedfb1; 0xcdbe2c45; 0x3fd5af46; 0x7198540d; 0x83f3d70e;
  0x90a324fa; 0x62c8a7f9; 0xb602c312; 0x44694011; 0x5739b3e5; 0xa55230e6;
  0xfb410cc2; 0x092a8fc1; 0x1a7a7c35; 0xe811ff36; 0x3cdb9bdd; 0xceb018de;
  0xdde0eb2a; 0x2f8b6829; 0x82f63b78; 0x709db87b; 0x63cd4b8f; 0x91a6c88c;
  0x456cac67; 0xb7072f64; 0xa457dc90; 0x563c5f93; 0x082f63b7; 0xfa44e0b4;
  0xe9141340; 0x1b7f9043; 0xcfb5f4a8; 0x3dde77ab; 0x2e8e845f; 0xdce5075c;
  0x92a8fc17; 0x60c37f14; 0x73938ce0; 0x81f80fe3; 0x55326b08; 0xa759e80b;
  0xb4091bff; 0x466298fc; 0x1871a4d8; 0xea1a27db; 0xf94ad42f; 0x0b21572c;
  0xdfeb33c7; 0x2d80b0c4; 0x3ed04330; 0xccbbc033; 0xa24bb5a6; 0x502036a5;
  0x4370c551; 0xb11b4652; 0x65d122b9; 0x97baa1ba; 0x84ea524e; 0x7681d14d;
  0x2892ed69; 0xdaf96e6a; 0xc9a99d9e; 0x3bc21e9d; 0xef087a76; 0x1d63f975;
  0x0e330a81; 0xfc588982; 0xb21572c9; 0x407ef1ca; 0x532e023e; 0xa145813d;
  0x758fe5d6; 0x87e466d5; 0x94b49521; 0x66df1622; 0x38cc2a06; 0xcaa7a905;
  0xd9f75af1; 0x2b9cd9f2; 0xff56bd19; 0x0d3d3e1a; 0x1e6dcdee; 0xec064eed;
  0xc38d26c4; 0x31e6a5c7; 0x22b65633; 0xd0ddd530; 0x0417b1db; 0xf67c32d8;
  0xe52cc12c; 0x1747422f; 0x49547e0b; 0xbb3ffd08; 0xa86f0efc; 0x5a048dff;
  0x8ecee914; 0x7ca56a17; 0x6ff599e3; 0x9d9e1ae0; 0xd3d3e1ab; 0x21b862a8;
  0x32e8915c; 0xc083125f; 0x144976b4; 0xe622f5b7; 0xf5720643; 0x07198540;
  0x590ab964; 0xab613a67; 0xb831c993; 0x4a5a4a90; 0x9e902e7b; 0x6cfbad78;
  0x7fab5e8c; 0x8dc0dd8f; 0xe330a81a; 0x115b2b19; 0x020bd8ed; 0xf0605bee;
  0x24aa3f05; 0xd6c1bc06; 0xc5914ff2; 0x37faccf1; 0x69e9f0d5; 0x9b8273d6;
  0x88d28022; 0x7ab90321; 0xae7367ca; 0x5c18e4c9; 0x4f48173d; 0xbd23943e;
  0xf36e6f75; 0x0105ec76; 0x12551f82; 0xe03e9c81; 0x34f4f86a; 0xc69f7b69;
  0xd5cf889d; 0x27a40b9e; 0x79b737ba; 0x8bdcb4b9; 0x988c474d; 0x6ae7c44e;
  0xbe2da0a5; 0x4c4623a6; 0x5f16d052; 0xad7d5351].

Definition crctab64 : list Z := [
  0x0000000000000000; 0x7ad870c830358979; 0xf5b0e190606b12f2; 0x8f689158505e9b8b;
  0xc038e5739841b68f; 0xbae095bba8743ff6; 0x358804e3f82aa47d; 0x4f50742bc81f2d04;
  0xab28ecb46814fe75; 0xd1f09c7c5821770c; 0x5e980d24087fec87; 0x24407dec384a65fe;
  0x6b1009c7f05548fa; 0x11c8790fc060c183; 0x9ea0e857903e5a08; 0xe478989fa00bd371;
  0x7d08ff3b88be6f81; 0x07d08ff3b88be6f8; 0x88b81eabe8d57d73; 0xf2606e63d8e0f40a;
  0xbd301a4810ffd90e; 0xc7e86a8020ca5077; 0x4880fbd87094cbfc; 0x32588b1040a14285;
  0xd620138fe0aa91f4; 0xacf86347d09f188d; 0x2390f21f80c18306; 0x594882d7b0f40a7f;
  0x1618f6fc78eb277b; 0x6cc0863448deae02; 0xe3a8176c18803589; 0x997067a428b5bcf0;
  0xfa11fe77117cdf02; 0x80c98ebf2149567b; 0x0fa11fe77117cdf0; 0x75796f2f41224489;
  0x3a291b04893d698d; 0x40f16bccb908e0f4; 0xcf99fa94e9567b7f; 0xb5418a5cd963f206;
  0x513912c379682177; 0x2be1620b495da80e; 0xa489f35319033385; 0xde51839b2936bafc;
  0x9101f7b0e12997f8; 0xebd98778d11c1e81; 0x64b116208142850a; 0x1e6966e8b1770c73;
  0x8719014c99c2b083; 0xfdc17184a9f739fa; 0x72a9e0dcf9a9a271; 0x08719014c99c2b08;
  0x4721e43f0183060c; 0x3df994f731b68f75; 0xb29105af61e814fe; 0xc849756751dd9d87;
  0x2c31edf8f1d64ef6; 0x56e99d30c1e3c78f; 0xd9810c6891bd5c04; 0xa3597ca0a188d57d;
  0xec09088b6997f879; 0x96d1784359a27100; 0x19b9e91b09fcea8b; 0x636199d339c963f2;
  0xdf7adabd7a6e2d6f; 0xa5a2aa754a5ba416; 0x2aca3b2d1a053f9d; 0x50124be52a30b6e4;
  0x1f423fcee22f9be0; 0x659a4f06d21a1299; 0xeaf2de5e82448912; 0x902aae96b271006b;
  0x74523609127ad31a; 0x0e8a46c1224f5a63; 0x81e2d7997211c1e8; 0xfb3aa75142244891;
  0xb46ad37a8a3b6595; 0xceb2a3b2ba0eecec; 0x41da32eaea507767; 0x3b024222da65fe1e;
  0xa2722586f2d042ee; 0xd8aa554ec2e5cb97; 0x57c2c41692bb501c; 0x2d1ab4dea28ed965;
  0x624ac0f56a91f461; 0x1892b03d5aa47d18; 0x97fa21650afae693; 0xed2251ad3acf6fea;
  0x095ac9329ac4bc9b; 0x7382b9faaaf135e2; 0xfcea28a2faafae69; 0x8632586aca9a2710;
  0xc9622c4102850a14; 0xb3ba5c8932b0836d; 0x3cd2cdd162ee18e6; 0x460abd1952db919f;
  0x256b24ca6b12f26d; 0x5fb354025b277b14; 0xd0dbc55a0b79e09f; 0xaa03b5923b4c69e6;
  0xe553c1b9f35344e2; 0x9f8bb171c366cd9b; 0x10e3202993385610; 0x6a3b50e1a30ddf69;
  0x8e43c87e03060c18; 0xf49bb8b633338561; 0x7bf329ee636d1eea; 0x012b592653589793;
  0x4e7b2d0d9b47ba97; 0x34a35dc5ab7233ee; 0xbbcbcc9dfb2ca865; 0xc113bc55cb19211c;
  0x5863dbf1e3ac9dec; 0x22bbab39d3991495; 0xadd33a6183c78f1e; 0xd70b4aa9b3f20667;
  0x985b3e827bed2b63; 0xe2834e4a4bd8a21a; 0x6debdf121b863991; 0x1733afda2bb3b0e8;
  0xf34b37458bb86399; 0x8993478dbb8deae0; 0x06fbd6d5ebd3716b; 0x7c23a61ddbe6f812;
  0x3373d23613f9d516; 0x49aba2fe23cc5c6f; 0xc6c333a67392c7e4; 0xbc1b436e43a74e9d;
  0x95ac9329ac4bc9b5; 0xef74e3e19c7e40cc; 0x601c72b9cc20db47; 0x1ac40271fc15523e;
  0x5594765a340a7f3a; 0x2f4c0692043ff643; 0xa02497ca54616dc8; 0xdafce7026454e4b1;
  0x3e847f9dc45f37c0; 0x445c0f55f46abeb9; 0xcb349e0da4342532; 0xb1eceec59401ac4b;
  0xfebc9aee5c1e814f; 0x8464ea266c2b0836; 0x0b0c7b7e3c7593bd; 0x71d40bb60c401ac4;
  0xe8a46c1224f5a634; 0x927c1cda14c02f4d; 0x1d148d82449eb4c6; 0x67ccfd4a74ab3dbf;
  0x289c8961bcb410bb; 0x5244f9a98c8199c2; 0xdd2c68f1dcdf0249; 0xa7f41839ecea8b30;
  0x438c80a64ce15841; 0x3954f06e7cd4d138; 0xb63c61362c8a4ab3; 0xcce411fe1cbfc3ca;
  0x83b465d5d4a0eece; 0xf96c151de49567b7; 0x76048445b4cbfc3c; 0x0cdcf48d84fe7545;
  0x6fbd6d5ebd3716b7; 0x15651d968d029fce; 0x9a0d8ccedd5c0445; 0xe0d5fc06ed698d3c;
  0xaf85882d2576a038; 0xd55df8e515432941; 0x5a3569bd451db2ca; 0x20ed197575283bb3;
  0xc49581ead523e8c2; 0xbe4df122e51661bb; 0x3125607ab548fa30; 0x4bfd10b2857d7349;
  0x04ad64994d625e4d; 0x7e7514517d57d734; 0xf11d85092d094cbf; 0x8bc5f5c11d3cc5c6;
  0x12b5926535897936; 0x686de2ad05bcf04f; 0xe70573f555e26bc4; 0x9ddd033d65d7e2bd;
  0xd28d7716adc8cfb9; 0xa85507de9dfd46c0; 0x273d9686cda3dd4b; 0x5de5e64efd965432;
  0xb99d7ed15d9d8743; 0xc3450e196da80e3a; 0x4c2d9f413df695b1; 0x36f5ef890dc31cc8;
  0x79a59ba2c5dc31cc; 0x037deb6af5e9b8b5; 0x8c157a32a5b7233e; 0xf6cd0afa9582aa47;
  0x4ad64994d625e4da; 0x300e395ce6106da3; 0xbf66a804b64ef628; 0xc5bed8cc867b7f51;
  0x8aeeace74e645255; 0xf036dc2f7e51db2c; 0x7f5e4d772e0f40a7; 0x05863dbf1e3ac9de;
  0xe1fea520be311aaf; 0x9b26d5e88e0493d6; 0x144e44b0de5a085d; 0x6e963478ee6f8124;
  0x21c640532670ac20; 0x5b1e309b16452559; 0xd476a1c3461bbed2; 0xaeaed10b762e37ab;
  0x37deb6af5e9b8b5b; 0x4d06c6676eae0222; 0xc26e573f3ef099a9; 0xb8b627f70ec510d0;
  0xf7e653dcc6da3dd4; 0x8d3e2314f6efb4ad; 0x0256b24ca6b12f26; 0x788ec2849684a65f;
  0x9cf65a1b368f752e; 0xe62e2ad306bafc57; 0x6946bb8b56e467dc; 0x139ecb4366d1eea5;
  0x5ccebf68aecec3a1; 0x2616cfa09efb4ad8; 0xa97e5ef8cea5d153; 0xd3a62e30fe90582a;
  0xb0c7b7e3c7593bd8; 0xca1fc72bf76cb2a1; 0x45775673a732292a; 0x3faf26bb9707a053;
  0x70ff52905f188d57; 0x0a2722586f2d042e; 0x854fb3003f739fa5; 0xff97c3c80f4616dc;
  0x1bef5b57af4dc5ad; 0x61372b9f9f784cd4; 0xee5fbac7cf26d75f; 0x9487ca0fff135e26;
  0xdbd7be24370c7322; 0xa10fceec0739fa5b; 0x2e675fb4576761d0; 0x54bf2f7c6752e8a9;
  0xcdcf48d84fe75459; 0xb71738107fd2dd20; 0x387fa9482f8c46ab; 0x42a7d9801fb9cfd2;
  0x0df7adabd7a6e2d6; 0x772fdd63e7936baf; 0xf8474c3bb7cdf024; 0x829f3cf387f8795d;
  0x66e7a46c27f3aa2c; 0x1c3fd4a417c62355; 0x935745fc4798b8de; 0xe98f353477ad31a7;
  0xa6df411fbfb21ca3; 0xdc0731d78f8795da; 0x536fa08fdfd90e51; 0x29b7d047efec8728].

(** Reading a table at an index below its size. *)
Definition tab (t : list Z) (i : Z) : Z := default 0 (t !! Z.to_nat i).

Definition crc7_byte (crc data : Z) : Z := tab crc7_syndrome_table (Z.lxor (Z.shiftl crc 1) data).

Definition fio_crc7 (buffer : list Z) : Z := foldl crc7_byte 0 buffer.

Definition crc16_byte (crc data : Z) : Z :=
  Z.lxor (Z.shiftr crc 8) (tab crc16_table (Z.land (Z.lxor crc data) 0xff)).

Definition fio_crc16 (buffer : list Z) : Z := foldl crc16_byte 0 buffer.

Definition fio_crc32 (buffer : list Z) : Z :=
  foldl (λ crc c, Z.lxor (u32 (Z.shiftl crc 8))
                    (tab crctab (Z.land (Z.lxor (Z.shiftr crc 24) c) 0xff))) 0 buffer.

Definition crc32c_sw (data : list Z) : Z :=
  foldl (λ crc c, Z.lxor (tab crc32c_table (Z.land (Z.lxor crc c) 0xff)) (Z.shiftr crc 8))
    (2 ^ 32 - 1) data.

Definition fio_crc64 (buffer : list Z) : Z :=
  foldl (λ crc c, Z.lxor (tab crctab64 (Z.land (Z.lxor crc c) 0xff)) (Z.shiftr crc 8)) 0 buffer.

(** ** Division by the polynomial

    [lsb_step p]: a register that shifts towards its least significant bit and
    adds the reflected polynomial [p] when a one falls out; [msb_step w p]: a
    register of [w] bits that shifts towards its most significant bit. *)

Definition lsb_step (p x : Z) : Z := Z.lxor (Z.shiftr x 1) (if Z.testbit x 0 then p else 0).
Definition msb_step (w p x : Z) : Z :=
  Z.lxor (Z.land (Z.shiftl x 1) (Z.ones w)) (if Z.testbit x (w - 1) then p else 0).

(** A byte enters the register and is divided out in eight steps. *)
Definition lsb_byte (p crc byte : Z) : Z := Nat.iter 8 (lsb_step p) (Z.lxor crc byte).
Definition msb_byte (w p crc byte : Z) : Z :=
  Nat.iter 8 (msb_step w p) (Z.lxor crc (Z.shiftl byte (w - 8))).

(** The polynomials, in the order of bits of the registers. *)
Definition POLY16 : Z := 0xa001.
Definition POLY32 : Z := 0x04c11db7.
Definition POLY32C : Z := 0x82f63b78.
Definition POLY64 : Z := 0x95ac9329ac4bc9b5.
(** The seven bits of crc7 are the upper ones of a byte. *)
Definition POLY7 : Z := 0x12.
Definition crc7_bits (crc byte : Z) : Z :=
  Z.shiftr (msb_byte 8 POLY7 (Z.shiftl crc 1) byte) 1.

(** *** Linearity *)

Lemma if_lxor (a b : bool) (p : Z) :
  (if xorb a b then p else 0) = Z.lxor (if a then p else 0) (if b then p else 0).
Proof. destruct a, b; simpl; by rewrite ?Z.lxor_nilpotent, ?Z.lxor_0_r. Qed.

Lemma lxor_swap (a b c d : Z) : Z.lxor (Z.lxor a b) (Z.lxor c d) = Z.lxor (Z.lxor a c) (Z.lxor b d).
Proof. rewrite !Z.lxor_assoc. f_equal. rewrite <- !Z.lxor_assoc. f_equal. apply Z.lxor_comm. Qed.

Lemma lsb_linear (p a b : Z) : lsb_step p (Z.lxor a b) = Z.lxor (lsb_step p a) (lsb_step p b).
Proof. unfold lsb_step. by rewrite Z.shiftr_lxor, Z.lxor_spec, if_lxor, lxor_swap. Qed.

Lemma land_lxor (a b m : Z) : Z.land (Z.lxor a b) m = Z.lxor (Z.land a m) (Z.land b m).
Proof. apply Z.bits_inj'. intros i Hi. rewrite Z.land_spec, !Z.lxor_spec, !Z.land_spec.
  by destruct (Z.testbit a i), (Z.testbit b i), (Z.testbit m i). Qed.

Lemma msb_linear (w p a b : Z) :
  msb_step w p (Z.lxor a b) = Z.lxor (msb_step w p a) (msb_step w p b).
Proof. unfold msb_step. by rewrite Z.shiftl_lxor, land_lxor, Z.lxor_spec, if_lxor, lxor_swap. Qed.

Lemma iter_linear (f : Z → Z) (n : nat) (a b : Z) :
  (∀ a b, f (Z.lxor a b) = Z.lxor (f a) (f b)) →
  Nat.iter n f (Z.lxor a b) = Z.lxor (Nat.iter n f a) (Nat.iter n f b).
Proof. intros Hf. induction n as [|n IH]; simpl; [done|]. by rewrite IH, Hf. Qed.

(** *** Shifting through *)

Lemma lsb_shift (p y : Z) (n : nat) : Nat.iter n (lsb_step p) (Z.shiftl y (Z.of_nat n)) = y.
Proof.
  induction n as [|n IH]; [by rewrite Z.shiftl_0_r|].
  rewrite Nat.iter_succ_r. rewrite <- IH at 2. f_equal. unfold lsb_step.
  rewrite Z.shiftl_spec_low by lia. rewrite Z.lxor_0_r.
  rewrite Z.shiftr_shiftl_l by lia. f_equal. lia.
Qed.

(** A register is its upper part and its low byte. *)
Lemma split_byte (x : Z) : x = Z.lxor (Z.shiftl (Z.shiftr x 8) 8) (Z.land x 0xff).
Proof.
  change 0xff with (Z.ones 8). apply Z.bits_inj'. intros i Hi.
  rewrite Z.lxor_spec, Z.land_spec. destruct (decide (i < 8)).
  - rewrite Z.shiftl_spec_low, Z.ones_spec_low, andb_true_r by lia. by destruct (Z.testbit x i).
  - rewrite Z.shiftl_spec, Z.shiftr_spec, Z.ones_spec_high, andb_false_r, xorb_false_r by lia.
    f_equal. lia.
Qed.

Lemma lsb_byte_split (p x : Z) :
  Nat.iter 8 (lsb_step p) x =
    Z.lxor (Z.shiftr x 8) (Nat.iter 8 (lsb_step p) (Z.land x 0xff)).
Proof.
  rewrite (split_byte x) at 1. rewrite iter_linear by apply lsb_linear.
  f_equal. exact (lsb_shift p (Z.shiftr x 8) 8).
Qed.

(** The tables hold the division of every byte. *)
Definition lsb_table_ok (t : list Z) (p : Z) : bool :=
  forallb (λ i, tab t i =? Nat.iter 8 (lsb_step p) i) (seqZ 0 256).
Definition msb_table_ok (t : list Z) (w p : Z) : bool :=
  forallb (λ i, tab t i =? Nat.iter 8 (msb_step w p) (Z.shiftl i (w - 8))) (seqZ 0 256).

Lemma byte_range (x : Z) : 0 ≤ Z.land x 0xff < 256.
Proof. change 0xff with (Z.ones 8). rewrite Z.land_ones by lia. by apply Z.mod_pos_bound. Qed.

Lemma lsb_table (t : list Z) (p x : Z) :
  lsb_table_ok t p = true →
  Nat.iter 8 (lsb_step p) x = Z.lxor (Z.shiftr x 8) (tab t (Z.land x 0xff)).
Proof.
  intros Ht. rewrite lsb_byte_split. f_equal. symmetry. apply Z.eqb_eq.
  unfold lsb_table_ok in Ht. rewrite forallb_forall in Ht.
  apply (Ht (Z.land x 0xff)), list_elem_of_In, elem_of_seqZ. pose proof (byte_range x). lia.
Qed.

Definition is_byte (b : Z) : Prop := 0 ≤ b < 256.

Lemma byte_high (b i : Z) : is_byte b → 8 ≤ i → Z.testbit b i = false.
Proof.
  intros [H0 H1] Hi. destruct (decide (b = 0)) as [->|]; [apply Z.bits_0|].
  apply Z.bits_above_log2; [lia|]. apply Z.log2_lt_pow2; [lia|].
  apply Z.lt_le_trans with (2 ^ 8); [done|]. apply Z.pow_le_mono_r; lia.
Qed.

Lemma shiftr_lxor_byte (x b : Z) : is_byte b → Z.shiftr (Z.lxor x b) 8 = Z.shiftr x 8.
Proof.
  intros Hb. rewrite Z.shiftr_lxor. rewrite (Z.shiftr_div_pow2 b) by lia.
  rewrite Z.div_small by (unfold is_byte in Hb; lia). apply Z.lxor_0_r.
Qed.

(** One byte by the table is one byte by division. *)
Lemma lsb_byte_table (t : list Z) (p crc b : Z) :
  lsb_table_ok t p = true → is_byte b →
  lsb_byte p crc b = Z.lxor (Z.shiftr crc 8) (tab t (Z.land (Z.lxor crc b) 0xff)).
Proof.
  intros Ht Hb. unfold lsb_byte. rewrite (lsb_table t) by done. by rewrite shiftr_lxor_byte.
Qed.

(** *** Registers that shift upwards *)

Lemma msb_shift (w p y : Z) (n : nat) :
  0 ≤ y → Z.of_nat n ≤ w → y < 2 ^ (w - Z.of_nat n) →
  Nat.iter n (msb_step w p) y = Z.shiftl y (Z.of_nat n).
Proof.
  intros Hy. induction n as [|n IH]; intros Hn Hlt; [by rewrite Z.shiftl_0_r|].
  rewrite Nat.iter_succ, IH; [|lia|].
  2: { eapply Z.lt_le_trans; [exact Hlt|]. apply Z.pow_le_mono_r; lia. }
  assert (Z.shiftl y (Z.of_nat (S n)) < 2 ^ w ∧ 0 ≤ Z.shiftl y (Z.of_nat (S n))) as [Hb H0].
  { rewrite Z.shiftl_mul_pow2 by lia. split; [|nia].
    replace w with (w - Z.of_nat (S n) + Z.of_nat (S n)) at 1 by lia. rewrite Z.pow_add_r by lia. nia. }
  assert (Z.testbit (Z.shiftl y (Z.of_nat n)) (w - 1) = false) as Htop.
  { rewrite Z.shiftl_spec by lia. destruct (decide (y = 0)) as [->|]; [apply Z.bits_0|].
    apply Z.bits_above_log2; [lia|]. apply Z.log2_lt_pow2; [lia|].
    eapply Z.lt_le_trans; [exact Hlt|]. apply Z.pow_le_mono_r; lia. }
  unfold msb_step. rewrite Htop, Z.lxor_0_r, Z.shiftl_shiftl by lia.
  replace (Z.of_nat n + 1) with (Z.of_nat (S n)) by lia.
  rewrite Z.land_ones by lia. by rewrite Z.mod_small.
Qed.

Lemma split_top (w x : Z) :
  8 ≤ w → 0 ≤ x < 2 ^ w →
  x = Z.lxor (Z.land x (Z.ones (w - 8))) (Z.shiftl (Z.shiftr x (w - 8)) (w - 8)).
Proof.
  intros Hw Hx. apply Z.bits_inj'. intros i Hi. rewrite Z.lxor_spec, Z.land_spec.
  destruct (decide (i < w - 8)).
  - rewrite Z.shiftl_spec_low, Z.ones_spec_low, andb_true_r, xorb_false_r by lia. done.
  - rewrite Z.shiftl_spec, Z.shiftr_spec, Z.ones_spec_high, andb_false_r, xorb_false_l by lia.
    f_equal. lia.
Qed.

Lemma msb_table (t : list Z) (w p x : Z) :
  msb_table_ok t w p = true → 8 ≤ w → 0 ≤ x < 2 ^ w →
  Nat.iter 8 (msb_step w p) x =
    Z.lxor (Z.land (Z.shiftl x 8) (Z.ones w)) (tab t (Z.shiftr x (w - 8))).
Proof.
  intros Ht Hw Hx. rewrite (split_top w x) at 1 by done. rewrite iter_linear by apply msb_linear.
  assert (0 ≤ Z.shiftr x (w - 8) < 256) as Hi.
  { rewrite Z.shiftr_div_pow2 by lia. split; [apply Z.div_pos; lia|].
    apply Z.div_lt_upper_bound; [lia|]. change 256 with (2 ^ 8). rewrite <- Z.pow_add_r by lia.
    replace (w - 8 + 8) with w by lia. apply Hx. }
  unfold msb_table_ok in Ht. rewrite forallb_forall in Ht.
  assert (Nat.iter 8 (msb_step w p) (Z.shiftl (Z.shiftr x (w - 8)) (w - 8)) =
    tab t (Z.shiftr x (w - 8))) as ->.
  { symmetry. apply Z.eqb_eq, (Ht (Z.shiftr x (w - 8))), list_elem_of_In, elem_of_seqZ. lia. }
  f_equal. rewrite (msb_shift w p _ 8).
  - change (Z.of_nat 8) with 8. apply Z.bits_inj'. intros i Hi'. rewrite Z.land_spec.
    destruct (decide (i < 8)); [by rewrite !Z.shiftl_spec_low by lia|].
    rewrite !Z.shiftl_spec, Z.land_spec by lia. f_equal. destruct (decide (i < w)).
    + by rewrite !Z.ones_spec_low by lia.
    + by rewrite !Z.ones_spec_high by lia.
  - apply Z.land_nonneg. left. lia.
  - lia.
  - rewrite Z.land_ones by lia. apply Z.mod_pos_bound. lia.
Qed.

Lemma crc_tables :
  lsb_table_ok crc16_table POLY16 = true ∧ lsb_table_ok crc32c_table POLY32C = true ∧
  lsb_table_ok crctab64 POLY64 = true ∧ msb_table_ok crctab 32 POLY32 = true ∧
  forallb (λ i, tab crc7_syndrome_table i =? Z.shiftr (Nat.iter 8 (msb_step 8 POLY7) i) 1)
    (seqZ 0 256) = true.
Proof. by vm_compute. Qed.

(** A fold whose steps agree on the bytes, while an invariant of the register holds. *)
Lemma foldl_agree (P : Z → Prop) (f g : Z → Z → Z) (l : list Z) (x : Z) :
  Forall is_byte l → P x → (∀ x b, P x → is_byte b → f x b = g x b ∧ P (g x b)) →
  foldl f x l = foldl g x l.
Proof.
  intros Hl. revert x; induction Hl as [|b l Hb _ IH]; intros x Hx Hstep; simpl; [done|].
  destruct (Hstep x b Hx Hb) as [-> Hp]. by apply IH.
Qed.

Lemma lxor_bound (a b n : Z) : 0 ≤ n → 0 ≤ a < 2 ^ n → 0 ≤ b < 2 ^ n → 0 ≤ Z.lxor a b < 2 ^ n.
Proof.
  intros Hn Ha Hb. assert (0 ≤ Z.lxor a b) as H0 by (apply Z.lxor_nonneg; lia).
  split; [done|]. destruct (decide (Z.lxor a b = 0)) as [->|Hne]; [lia|].
  apply Z.log2_lt_pow2; [lia|]. eapply Z.le_lt_trans; [apply Z.log2_lxor; lia|].
  assert (∀ c, 0 ≤ c < 2 ^ n → c = 0 ∨ Z.log2 c < n) as Hlog.
  { intros c Hc. destruct (decide (c = 0)); [by left|right]. apply Z.log2_lt_pow2; lia. }
  destruct (decide (n = 0)) as [->|]; [assert (a = 0) by lia; assert (b = 0) by lia; subst; done|].
  destruct (Hlog a Ha) as [->|?], (Hlog b Hb) as [->|?]; simpl; lia.
Qed.

Lemma msb_bound (w p x : Z) (n : nat) :
  0 < w → 0 ≤ p < 2 ^ w → 0 ≤ x < 2 ^ w → 0 ≤ Nat.iter n (msb_step w p) x < 2 ^ w.
Proof.
  intros Hw Hp Hx. induction n as [|n IH]; [done|]. rewrite Nat.iter_succ. unfold msb_step at 1.
  apply lxor_bound; [lia| |].
  - rewrite Z.land_ones by lia. apply Z.mod_pos_bound. lia.
  - destruct (Z.testbit _ _); lia.
Qed.

Lemma shiftl_byte (b n : Z) : is_byte b → 0 ≤ n → 0 ≤ Z.shiftl b n < 2 ^ (n + 8).
Proof.
  intros [H0 H1] Hn. rewrite Z.shiftl_mul_pow2, Z.pow_add_r by lia. change (2 ^ 8) with 256. nia.
Qed.

(** C28: the five checksums of crc/ computed with tables equal division of the
    message by their generator polynomials, one bit at a time: crc7, crc16 and
    crc64 from zero, crc32 from zero with the most significant bit first, crc32c
    from all ones. *)
Theorem crc_tables_divide (buffer : list Z) :
  Forall is_byte buffer →
  fio_crc7 buffer = foldl crc7_bits 0 buffer ∧
  fio_crc16 buffer = foldl (lsb_byte POLY16) 0 buffer ∧
  fio_crc32 buffer = foldl (msb_byte 32 POLY32) 0 buffer ∧
  crc32c_sw buffer = foldl (lsb_byte POLY32C) (2 ^ 32 - 1) buffer ∧
  fio_crc64 buffer = foldl (lsb_byte POLY64) 0 buffer.
Proof.
  intros Hb. destruct crc_tables as (H16 & H32c & H64 & H32 & H7). split_and!.
  - apply (foldl_agree (λ x, 0 ≤ x < 128)); [done|lia|]. intros x b Hx Hbb.
    unfold crc7_byte, crc7_bits, msb_byte. rewrite Z.shiftl_0_r.
    assert (0 ≤ Z.lxor (Z.shiftl x 1) b < 2 ^ 8) as Hr.
    { apply lxor_bound; [lia| |exact Hbb]. rewrite Z.shiftl_mul_pow2 by lia. lia. }
    rewrite forallb_forall in H7. split.
    + apply Z.eqb_eq, (H7 (Z.lxor (Z.shiftl x 1) b)), list_elem_of_In, elem_of_seqZ. lia.
    + pose proof (msb_bound 8 POLY7 _ 8 ltac:(lia) ltac:(unfold POLY7; lia) Hr).
      rewrite Z.shiftr_div_pow2 by lia. change (2 ^ 1) with 2.
      split; [apply Z.div_pos; lia|apply Z.div_lt_upper_bound; lia].
  - apply (foldl_agree (λ _, True)); [done|done|]. intros x b _ Hbb. split; [|done].
    symmetry. by apply lsb_byte_table.
  - apply (foldl_agree (λ x, 0 ≤ x < 2 ^ 32)); [done|lia|]. intros x b Hx Hbb. unfold msb_byte.
    change (32 - 8) with 24. pose proof (shiftl_byte b 24 Hbb ltac:(lia)) as Hsb.
    change (24 + 8) with 32 in Hsb.
    assert (0 ≤ Z.lxor x (Z.shiftl b 24) < 2 ^ 32) as Hr by (apply lxor_bound; [lia|exact Hx|exact Hsb]).
    split; [|by apply msb_bound; [|unfold POLY32; lia|]].
    rewrite (msb_table crctab 32) by (done || lia). change (32 - 8) with 24. f_equal.
    + rewrite Z.shiftl_lxor, land_lxor, Z.land_ones, !Z.shiftl_shiftl by lia.
      unfold u32. rewrite Z.land_ones by lia. change (24 + 8) with 32.
      rewrite (Z.shiftl_mul_pow2 b 32), Z.mod_mul, Z.lxor_0_r by lia. done.
    + rewrite Z.shiftr_lxor, Z.shiftr_shiftl_l, Z.sub_diag, Z.shiftl_0_r by lia. f_equal.
      change 0xff with (Z.ones 8). rewrite Z.land_ones by lia. rewrite Z.mod_small; [done|].
      apply lxor_bound; [lia| |exact Hbb]. rewrite Z.shiftr_div_pow2 by lia.
      split; [apply Z.div_pos; lia|apply Z.div_lt_upper_bound; lia].
  - apply (foldl_agree (λ _, True)); [done|done|]. intros x b _ Hbb. split; [|done].
    rewrite Z.lxor_comm. symmetry. by apply lsb_byte_table.
  - apply (foldl_agree (λ _, True)); [done|done|]. intros x b _ Hbb. split; [|done].
    rewrite Z.lxor_comm. symmetry. by apply lsb_byte_table.
Qed.

Lemma crc_tables_divide_witness :
  fio_crc16 [49; 50; 51] = foldl (lsb_byte POLY16) 0 [49; 50; 51].
Proof. apply (crc_tables_divide [49; 50; 51]). repeat constructor; lia. Defined.
