(* ===== verification/FioRbtree.v ===== *)
(** * fio: red-black trees (lib/rbtree.c, lib/rbtree.h)

    The nodes are in a heap, at addresses that are multiples of 4 (the nodes are
    aligned as a [long]), and 0 is the null pointer.  A node keeps the address of
    its parent and its colour in one word.  The two directions of the source,
    which are mirror images, are one definition with a direction. *)
From Stdlib Require Import ZArith Lia.
From stdpp Require Import base numbers gmap list.
From S2P Require Import Prelude.

(** ** Data *)

Record rb_node := RbNode { rb_parent_color : Z; rb_right : Z; rb_left : Z }.
Record rb_root := RbRoot { nodes : gmap Z rb_node; root : Z }.

Abbreviation rbprog := (prog fault rb_root).

Definition RB_RED : Z := 0.
Definition RB_BLACK : Z := 1.

Inductive side := L | R.
Definition opp (d : side) : side := match d with L => R | R => L end.
#[export] Instance side_eq_dec : EqDecision side.
Proof. solve_decision. Defined.

Definition child (d : side) (n : rb_node) : Z :=
  match d with L => rb_left n | R => rb_right n end.
Definition set_child (d : side) (c : Z) (n : rb_node) : rb_node :=
  match d with
  | L => RbNode (rb_parent_color n) (rb_right n) c
  | R => RbNode (rb_parent_color n) c (rb_left n)
  end.

(** The word of parent and colour. *)
Definition rb_parent (n : rb_node) : Z := Z.land (rb_parent_color n) (Z.lnot 3).
Definition rb_color (n : rb_node) : Z := Z.land (rb_parent_color n) 1.
Definition rb_is_black (n : rb_node) : bool := negb (rb_color n =? 0).
Definition rb_is_red (n : rb_node) : bool := rb_color n =? 0.
Definition with_pc (f : Z → Z) (n : rb_node) : rb_node :=
  RbNode (f (rb_parent_color n)) (rb_right n) (rb_left n).

(** ** Memory *)

Definition rb_get (a : Z) : rbprog rb_node := λ s,
  match nodes s !! a with
  | Some n => (Done n, s)
  | None => (Leave (Undefined BadPointer), s)
  end.
Definition rb_upd (a : Z) (f : rb_node → rb_node) : rbprog unit :=
  n ← rb_get a;
  modS (λ s, RbRoot (<[a := f n]> (nodes s)) (root s)).
Definition set_root (a : Z) : rbprog unit := modS (λ s, RbRoot (nodes s) a).
Definition rb_set_red (a : Z) : rbprog unit :=
  rb_upd a (with_pc (λ pc, Z.land pc (Z.lnot 1))).
Definition rb_set_black (a : Z) : rbprog unit := rb_upd a (with_pc (λ pc, Z.lor pc 1)).
Definition rb_set_parent (a p : Z) : rbprog unit :=
  rb_upd a (with_pc (λ pc, Z.lor (Z.land pc 3) p)).
Definition rb_set_color (a color : Z) : rbprog unit :=
  rb_upd a (with_pc (λ pc, Z.lor (Z.land pc (Z.lnot 1)) color)).
(** [RB_CLEAR_NODE]: the node is its own parent. *)
Definition rb_clear_node (a : Z) : rbprog unit := rb_set_parent a a.

Definition unless_null (a : Z) (m : rbprog unit) : rbprog unit := if a =? 0 then mret tt else m.

(** A place that holds a pointer to a node: [&root->rb_node] or the address of a
    field. *)
Inductive link := LinkRoot | LinkChild (d : side) (a : Z).
Definition set_link (l : link) (x : Z) : rbprog unit :=
  match l with
  | LinkRoot => set_root x
  | LinkChild d a => rb_upd a (set_child d x)
  end.
Definition get_link (l : link) : rbprog Z :=
  match l with
  | LinkRoot => readS root
  | LinkChild d a => n ← rb_get a; mret (child d n)
  end.

Definition rb_link_node (node parent : Z) (l : link) : rbprog unit :=
  rb_upd node (λ _, RbNode parent 0 0);;
  set_link l node.

(** ** Rotation *)

(** [parent], whose child on one of the sides is [old], or else the root, gets
    [new] in its place; the side [d] is looked at. *)
Definition relink (d : side) (parent old new : Z) : rbprog unit :=
  if parent =? 0 then set_root new
  else
    p ← rb_get parent;
    rb_upd parent (set_child (if child d p =? old then d else opp d) new).

(** [rotate L] is [__rb_rotate_left], [rotate R] is [__rb_rotate_right]. *)
Definition rotate (d : side) (node : Z) : rbprog unit :=
  n ← rb_get node;
  let right := child (opp d) n in
  let parent := rb_parent n in
  r ← rb_get right;
  rb_upd node (set_child (opp d) (child d r));;
  unless_null (child d r) (rb_set_parent (child d r) node);;
  rb_upd right (set_child d node);;
  rb_set_parent right parent;;
  relink d parent node right;;
  rb_set_parent node right.

(** ** Insertion *)

(** [uncle && rb_is_red(uncle)]. *)
Definition red_node (a : Z) : rbprog bool :=
  if a =? 0 then mret false else n ← rb_get a; mret (rb_is_red n).

(** One turn of the loop whose parent is the child [d] of [gparent]; the node with
    which the loop goes on. *)
Definition insert_turn (d : side) (node parent gparent : Z) : rbprog Z :=
  g ← rb_get gparent;
  let uncle := child (opp d) g in
  red ← red_node uncle;
  if red : bool then
    rb_set_black uncle;; rb_set_black parent;; rb_set_red gparent;; mret gparent
  else
    p ← rb_get parent;
    np ← (if child (opp d) p =? node then rotate d parent;; mret (parent, node)
          else mret (node, parent));
    rb_set_black np.2;;
    rb_set_red gparent;;
    rotate (opp d) gparent;;
    mret np.1.

Fixpoint insert_loop (fuel : nat) (node : Z) : rbprog unit :=
  match fuel with
  | O => leave OutOfFuel
  | S fuel =>
      n ← rb_get node;
      let parent := rb_parent n in
      if parent =? 0 then mret tt
      else
        p ← rb_get parent;
        if rb_is_red p then
          let gparent := rb_parent p in
          g ← rb_get gparent;
          node ← insert_turn (if parent =? rb_left g then L else R) node parent gparent;
          insert_loop fuel node
        else mret tt
  end.

Definition heap_fuel (s : rb_root) : nat := S (size (nodes s)).

Definition rb_insert_color (node : Z) : rbprog unit :=
  fuel ← readS heap_fuel;
  insert_loop fuel node;;
  r ← readS root;
  rb_set_black r.

(** ** Deletion *)

(** [!node || rb_is_black(node)]. *)
Definition black_node (a : Z) : rbprog bool :=
  if a =? 0 then mret true else n ← rb_get a; mret (rb_is_black n).
Definition both_black (n : rb_node) : rbprog bool :=
  b ← black_node (rb_left n);
  if b : bool then black_node (rb_right n) else mret false.

(** The sibling of a node that is the child [d] of [parent], after a rotation when
    it is red. *)
Definition erase_sibling (d : side) (parent : Z) : rbprog Z :=
  p ← rb_get parent;
  let other := child (opp d) p in
  o ← rb_get other;
  if rb_is_red o then
    rb_set_black other;; rb_set_red parent;; rotate d parent;;
    p ← rb_get parent; mret (child (opp d) p)
  else mret other.

(** The sibling with its far child red, after a rotation when only the near one
    is. *)
Definition erase_far (d : side) (parent other : Z) : rbprog Z :=
  o ← rb_get other;
  far ← black_node (child (opp d) o);
  if far : bool then
    unless_null (child d o) (rb_set_black (child d o));;
    rb_set_red other;; rotate (opp d) other;;
    p ← rb_get parent; mret (child (opp d) p)
  else mret other.

(** One turn of the loop whose node is the child [d] of [parent]: it goes on with a
    node and its parent, or leaves the loop. *)
Definition erase_turn (d : side) (parent : Z) : rbprog (option (Z * Z)) :=
  other ← erase_sibling d parent;
  o ← rb_get other;
  b ← both_black o;
  if b : bool then
    rb_set_red other;;
    p ← rb_get parent;
    mret (Some (parent, rb_parent p))
  else
    other ← erase_far d parent other;
    p ← rb_get parent;
    rb_set_color other (rb_color p);;
    rb_set_black parent;;
    o ← rb_get other;
    unless_null (child (opp d) o) (rb_set_black (child (opp d) o));;
    rotate d parent;;
    mret None.

(** The loop of [__rb_erase_color]; its last [node]. *)
Fixpoint erase_loop (fuel : nat) (node parent : Z) : rbprog Z :=
  match fuel with
  | O => leave OutOfFuel
  | S fuel =>
      b ← black_node node;
      r ← readS root;
      if b && negb (node =? r) then
        p ← rb_get parent;
        next ← erase_turn (if rb_left p =? node then L else R) parent;
        match next with
        | Some (node, parent) => erase_loop fuel node parent
        | None => readS root
        end
      else mret node
  end.

Definition __rb_erase_color (node parent : Z) : rbprog unit :=
  fuel ← readS heap_fuel;
  node ← erase_loop fuel node parent;
  unless_null node (rb_set_black node).

(** [while ((left = node->rb_left) != NULL) node = left;]. *)
Fixpoint leftmost (fuel : nat) (node : Z) : rbprog Z :=
  match fuel with
  | O => leave OutOfFuel
  | S fuel =>
      n ← rb_get node;
      if rb_left n =? 0 then mret node else leftmost fuel (rb_left n)
  end.

(** A node with two children: its successor takes its place.  The child of the
    successor, its new parent and the colour that was taken out. *)
Definition erase_two (old : Z) : rbprog (Z * Z * Z) :=
  o ← rb_get old;
  fuel ← readS heap_fuel;
  node ← leftmost fuel (rb_right o);
  n ← rb_get node;
  let child := rb_right n in
  let parent := rb_parent n in
  let color := rb_color n in
  unless_null child (rb_set_parent child parent);;
  parent ← (if parent =? old then rb_upd parent (set_child R child);; mret node
            else rb_upd parent (set_child L child);; mret parent);
  o ← rb_get old;
  rb_upd node (λ _, RbNode (rb_parent_color o) (rb_right o) (rb_left o));;
  relink L (rb_parent o) old node;;
  rb_set_parent (rb_left o) node;;
  unless_null (rb_right o) (rb_set_parent (rb_right o) node);;
  mret (child, parent, color).

(** A node with at most one child. *)
Definition erase_one (node child : Z) : rbprog (Z * Z * Z) :=
  n ← rb_get node;
  let parent := rb_parent n in
  let color := rb_color n in
  unless_null child (rb_set_parent child parent);;
  relink L parent node child;;
  mret (child, parent, color).

Definition rb_erase (node : Z) : rbprog unit :=
  n ← rb_get node;
  t ← (if rb_left n =? 0 then erase_one node (rb_right n)
       else if rb_right n =? 0 then erase_one node (rb_left n)
       else erase_two node);
  let '(child, parent, color) := t in
  if color =? RB_BLACK then __rb_erase_color child parent else mret tt.

(** ** In order *)

Definition rb_first : rbprog Z :=
  n ← readS root;
  if n =? 0 then mret 0
  else fuel ← readS heap_fuel; leftmost fuel n.

(** [while ((parent = rb_parent(node)) && node == parent->rb_right)]. *)
Fixpoint up_right (fuel : nat) (node : Z) : rbprog Z :=
  match fuel with
  | O => leave OutOfFuel
  | S fuel =>
      n ← rb_get node;
      let parent := rb_parent n in
      if parent =? 0 then mret 0
      else
        p ← rb_get parent;
        if node =? rb_right p then up_right fuel parent else mret parent
  end.

Definition rb_next (node : Z) : rbprog Z :=
  n ← rb_get node;
  if rb_parent n =? node then mret 0
  else
    fuel ← readS heap_fuel;
    if rb_right n =? 0 then up_right fuel node else leftmost fuel (rb_right n).
