(* ===== verification/FioRbtreeShape.v ===== *)
(** * fio: the shape of a red-black tree in memory

    A tree of colours and addresses, and the path from a subtree to the root, with
    what the heap holds for them; rotating and colouring at a subtree. *)
From Stdlib Require Import ZArith Lia.
From stdpp Require Import base numbers gmap list.
From S2P Require Import Prelude FioRbtree.

Inductive color := Red | Black.
#[export] Instance color_eq_dec : EqDecision color.
Proof. solve_decision. Defined.
Definition code (c : color) : Z := match c with Red => RB_RED | Black => RB_BLACK end.

Inductive tree := Leaf | Node (c : color) (l : tree) (a : Z) (r : tree).

#[export] Instance tree_eq_dec : EqDecision tree.
Proof. solve_decision. Defined.

Definition ptr (t : tree) : Z := match t with Leaf => 0 | Node _ _ a _ => a end.
Fixpoint addrs (t : tree) : list Z :=
  match t with Leaf => [] | Node _ l a r => addrs l ++ a :: addrs r end.

(** A node seen from the side [d]: the subtree on that side, and the other. *)
Definition nd (d : side) (c : color) (t : tree) (a : Z) (u : tree) : tree :=
  match d with L => Node c t a u | R => Node c u a t end.
Definition cell (d : side) (p : Z) (c : color) (x y : Z) : rb_node :=
  match d with L => RbNode (p + code c) y x | R => RbNode (p + code c) x y end.

(** The way up from a subtree: the side on which it hangs, the node there, and
    that node's other subtree. *)
Record frame := Frame { f_side : side; f_addr : Z; f_color : color; f_other : tree }.
Abbreviation path := (list frame).

Definition par (K : path) : Z := match K with [] => 0 | f :: _ => f_addr f end.
Fixpoint plug (K : path) (t : tree) : tree :=
  match K with
  | [] => t
  | f :: K => plug K (nd (f_side f) (f_color f) t (f_addr f) (f_other f))
  end.
Fixpoint path_addrs (K : path) : list Z :=
  match K with [] => [] | f :: K => f_addr f :: addrs (f_other f) ++ path_addrs K end.

(** ** In memory *)

Definition good (a : Z) : Prop := 0 < a ∧ a mod 4 = 0.

Fixpoint repr (h : gmap Z rb_node) (p : Z) (t : tree) : Prop :=
  match t with
  | Leaf => True
  | Node c l a r =>
      h !! a = Some (cell L p c (ptr l) (ptr r)) ∧ repr h a l ∧ repr h a r
  end.
Fixpoint repr_path (h : gmap Z rb_node) (rt : Z) (K : path) (p : Z) : Prop :=
  match K with
  | [] => rt = p
  | f :: K =>
      h !! f_addr f = Some (cell (f_side f) (par K) (f_color f) p (ptr (f_other f))) ∧
      repr h (f_addr f) (f_other f) ∧ repr_path h rt K (f_addr f)
  end.

(** Distinct addresses of nodes. *)
Definition owned (l : list Z) : Prop := NoDup l ∧ Forall good l.
#[export] Instance owned_proper : Proper ((≡ₚ) ==> iff) owned.
Proof. intros l k Hlk. unfold owned. by rewrite Hlk. Qed.

(** The state holds the subtree [t] at the end of the path [K]. *)
Record rep (s : rb_root) (K : path) (t : tree) : Prop := Rep {
  rep_tree : repr (nodes s) (par K) t;
  rep_path : repr_path (nodes s) (root s) K (ptr t);
  rep_owned : owned (addrs t ++ path_addrs K)
}.

(** ** The word of parent and colour *)

Lemma good_land a : a mod 4 = 0 → Z.land a 3 = 0.
Proof. intros H. change 3 with (Z.ones 2). by rewrite Z.land_ones. Qed.
Lemma good_bits a : a mod 4 = 0 → Z.testbit a 0 = false ∧ Z.testbit a 1 = false.
Proof.
  intros H%good_land. split.
  - assert (Z.testbit (Z.land a 3) 0 = false) as E by (by rewrite H). by rewrite Z.land_spec, andb_true_r in E.
  - assert (Z.testbit (Z.land a 3) 1 = false) as E by (by rewrite H). by rewrite Z.land_spec, andb_true_r in E.
Qed.

Lemma word_lor p c : p mod 4 = 0 → p + code c = Z.lor p (code c).
Proof.
  intros H%good_land. destruct c; [by rewrite Z.lor_0_r, Z.add_0_r|].
  assert (Z.land p (code Black) = 0) as E.
  { change (code Black) with (Z.land 3 1). by rewrite Z.land_assoc, H. }
  by rewrite Z.add_nocarry_lxor, Z.lxor_lor by done.
Qed.

Lemma one_bits n : 1 ≤ n → Z.testbit 1 n = false.
Proof. intros Hn. apply Z.bits_above_log2; [done|]. change (Z.log2 1) with 0. lia. Qed.
Lemma three_bits n : 2 ≤ n → Z.testbit 3 n = false.
Proof. intros Hn. apply Z.bits_above_log2; [done|]. change (Z.log2 3) with 1. lia. Qed.

(** Equality of words, bit by bit. *)
Ltac word_bits :=
  unfold code, RB_RED, RB_BLACK;
  repeat match goal with c : color |- _ => destruct c end;
  repeat match goal with H : ?p mod 4 = 0 |- _ => apply good_bits in H as [? ?] end;
  apply Z.bits_inj'; intros n Hn;
  rewrite ?Z.lor_spec, ?Z.land_spec, ?Z.lor_spec, ?Z.lnot_spec, ?Z.bits_0 by lia;
  (destruct (decide (n = 0)) as [->|];
   [|destruct (decide (n = 1)) as [->|]; [|rewrite ?three_bits, ?one_bits by lia]]);
  repeat match goal with H : Z.testbit _ _ = _ |- _ => rewrite H end;
  simpl; rewrite ?andb_true_r, ?andb_false_r, ?orb_false_r; done.

Lemma word_parent p c : p mod 4 = 0 → Z.land (p + code c) (Z.lnot 3) = p.
Proof. intros H. rewrite word_lor by done. word_bits. Qed.
Lemma word_color p c : p mod 4 = 0 → Z.land (p + code c) 1 = code c.
Proof. intros H. rewrite word_lor by done. word_bits. Qed.
Lemma word_red p c : p mod 4 = 0 → Z.land (p + code c) (Z.lnot 1) = p + code Red.
Proof. intros H. rewrite word_lor, Z.add_0_r by done. word_bits. Qed.
Lemma word_black p c : p mod 4 = 0 → Z.lor (p + code c) 1 = p + code Black.
Proof. intros H. rewrite !word_lor by done. word_bits. Qed.
Lemma word_set_parent p q c :
  p mod 4 = 0 → q mod 4 = 0 → Z.lor (Z.land (p + code c) 3) q = q + code c.
Proof. intros H H'. rewrite !word_lor by done. word_bits. Qed.
Lemma word_set_color p c c' :
  p mod 4 = 0 → Z.lor (Z.land (p + code c) (Z.lnot 1)) (code c') = p + code c'.
Proof. intros H. rewrite !word_lor by done. word_bits. Qed.

(** ** Cells *)

Section cells.
Context (d : side) (p : Z) (c : color) (x y : Z).

Lemma cell_opp : cell (opp d) p c x y = cell d p c y x.
Proof. by destruct d. Qed.
Lemma child_cell : child d (cell d p c x y) = x.
Proof. by destruct d. Qed.
Lemma child_opp_cell : child (opp d) (cell d p c x y) = y.
Proof. by destruct d. Qed.
Lemma set_child_cell z : set_child d z (cell d p c x y) = cell d p c z y.
Proof. by destruct d. Qed.
Lemma set_child_opp_cell z : set_child (opp d) z (cell d p c x y) = cell d p c x z.
Proof. by destruct d. Qed.

Context (Hp : p mod 4 = 0).
Lemma cell_parent : rb_parent (cell d p c x y) = p.
Proof. unfold rb_parent. destruct d; by apply word_parent. Qed.
Lemma cell_color : rb_color (cell d p c x y) = code c.
Proof. unfold rb_color. destruct d; by apply word_color. Qed.
Lemma cell_is_red : rb_is_red (cell d p c x y) = bool_decide (c = Red).
Proof. unfold rb_is_red. rewrite cell_color. by destruct c. Qed.
Lemma cell_is_black : rb_is_black (cell d p c x y) = bool_decide (c = Black).
Proof. unfold rb_is_black. rewrite cell_color. by destruct c. Qed.
Lemma cell_set_red : with_pc (λ pc, Z.land pc (Z.lnot 1)) (cell d p c x y) = cell d p Red x y.
Proof. destruct d; unfold with_pc; simpl; by rewrite word_red. Qed.
Lemma cell_set_black : with_pc (λ pc, Z.lor pc 1) (cell d p c x y) = cell d p Black x y.
Proof. destruct d; unfold with_pc; simpl; by rewrite word_black. Qed.
Lemma cell_set_parent q :
  q mod 4 = 0 → with_pc (λ pc, Z.lor (Z.land pc 3) q) (cell d p c x y) = cell d q c x y.
Proof. intros Hq. destruct d; unfold with_pc; simpl; by rewrite word_set_parent. Qed.
Lemma cell_set_color c' :
  with_pc (λ pc, Z.lor (Z.land pc (Z.lnot 1)) (code c')) (cell d p c x y) = cell d p c' x y.
Proof. destruct d; unfold with_pc; simpl; by rewrite word_set_color. Qed.
End cells.

Lemma left_cell p c x y : rb_left (cell L p c x y) = x.
Proof. done. Qed.
Lemma right_cell p c x y : rb_right (cell L p c x y) = y.
Proof. done. Qed.
Lemma opp_opp d : opp (opp d) = d.
Proof. by destruct d. Qed.
Lemma nd_opp d c t a u : nd (opp d) c t a u = nd d c u a t.
Proof. by destruct d. Qed.
Lemma ptr_nd d c t a u : ptr (nd d c t a u) = a.
Proof. by destruct d. Qed.
Lemma addrs_nd d c t a u : addrs (nd d c t a u) ≡ₚ a :: addrs t ++ addrs u.
Proof.
  destruct d; simpl; [by rewrite <- Permutation_middle|].
  by rewrite <- Permutation_middle, (Permutation_app_comm (addrs u)).
Qed.
Lemma repr_nd h d p c t a u :
  repr h p (nd d c t a u) ↔ h !! a = Some (cell d p c (ptr t) (ptr u)) ∧ repr h a t ∧ repr h a u.
Proof. destruct d; simpl; tauto. Qed.
Lemma addrs_plug K t : addrs (plug K t) ≡ₚ addrs t ++ path_addrs K.
Proof.
  revert t. induction K as [|f K IH]; intros t; simpl; [by rewrite app_nil_r|].
  rewrite IH, addrs_nd. simpl. by rewrite <- Permutation_middle, app_assoc.
Qed.

#[global] Arguments cell : simpl never.
#[global] Arguments nd : simpl never.

(** ** Frames *)

Lemma repr_frame h h' p t :
  repr h p t → (∀ a, a ∈ addrs t → h' !! a = h !! a) → repr h' p t.
Proof.
  revert p. induction t as [|c l IHl a r IHr]; intros p; simpl; [done|].
  intros (Ha & Hl & Hr) Heq. rewrite Heq by set_solver.
  split_and!; [done|apply IHl|apply IHr]; set_solver.
Qed.
Lemma repr_path_frame h h' rt K p :
  repr_path h rt K p → (∀ a, a ∈ path_addrs K → h' !! a = h !! a) → repr_path h' rt K p.
Proof.
  revert p. induction K as [|f K IH]; intros p; simpl; [done|].
  intros (Ha & Ho & HK) Heq. rewrite Heq by set_solver.
  split_and!; [done|eapply repr_frame; [done|]|apply IH; [done|]]; set_solver.
Qed.

(** The root of a subtree gets another parent. *)
Definition hang (t : tree) (q : Z) (h : gmap Z rb_node) : gmap Z rb_node :=
  match t with Leaf => h | Node c l a r => <[a := cell L q c (ptr l) (ptr r)]> h end.
(** The end of a path gets another subtree. *)
Definition hook (K : path) (x : Z) (s : rb_root) : rb_root :=
  match K with
  | [] => RbRoot (nodes s) x
  | f :: K =>
      RbRoot (<[f_addr f := cell (f_side f) (par K) (f_color f) x (ptr (f_other f))]> (nodes s))
        (root s)
  end.

Lemma hang_out t q h a : a ∉ addrs t → hang t q h !! a = h !! a.
Proof. destruct t; simpl; [done|]. intros Ha. apply lookup_insert_ne. set_solver. Qed.
Lemma hang_repr t p q h : NoDup (addrs t) → repr h p t → repr (hang t q h) q t.
Proof.
  destruct t as [|c l a r]; simpl; [done|]. rewrite NoDup_app, NoDup_cons.
  intros (_ & Hd & Hr & _) (_ & Hrl & Hrr). rewrite lookup_insert_eq.
  split_and!; [done|eapply repr_frame; [done|]..]; intros b Hb; apply lookup_insert_ne; set_solver.
Qed.
Lemma hook_out K x s a : a ≠ par K → nodes (hook K x s) !! a = nodes s !! a.
Proof. destruct K; simpl; [done|]. intros Ha. by apply lookup_insert_ne. Qed.
Lemma hook_repr K x p s :
  NoDup (path_addrs K) → repr_path (nodes s) (root s) K p →
  repr_path (nodes (hook K x s)) (root (hook K x s)) K x.
Proof.
  destruct K as [|f K]; simpl; [done|]. rewrite NoDup_cons, NoDup_app.
  intros (Hf & _ & _ & _) (_ & Ho & HK). rewrite lookup_insert_eq.
  split_and!; [done|eapply repr_frame; [done|]|eapply repr_path_frame; [done|]];
    intros b Hb; apply lookup_insert_ne; set_solver.
Qed.

(** ** Runs *)

Lemma rb_get_run s a n : nodes s !! a = Some n → rb_get a s = (Done n, s).
Proof. unfold rb_get. by intros ->. Qed.
Lemma rb_upd_run s a n f :
  nodes s !! a = Some n → rb_upd a f s = (Done tt, RbRoot (<[a := f n]> (nodes s)) (root s)).
Proof. intros Ha. unfold rb_upd. by rewrite (bind_done _ _ _ _ _ (rb_get_run _ _ _ Ha)). Qed.

Lemma hang_run s p q t :
  repr (nodes s) p t → p mod 4 = 0 → q mod 4 = 0 → Forall good (addrs t) →
  unless_null (ptr t) (rb_set_parent (ptr t) q) s = (Done tt, RbRoot (hang t q (nodes s)) (root s)).
Proof.
  intros Ht Hp Hq Hg. unfold unless_null. destruct t as [|c l a r]; simpl in *; [by destruct s|].
  assert (good a) as [Ha _] by (eapply Forall_forall; [done|]; set_solver).
  rewrite (proj2 (Z.eqb_neq a 0)) by lia. destruct Ht as (Hlk & _ & _).
  unfold rb_set_parent. rewrite (rb_upd_run _ _ _ _ Hlk). by rewrite cell_set_parent.
Qed.

Lemma relink_run s K d old new :
  repr_path (nodes s) (root s) K old → old ≠ 0 → old ∉ path_addrs K → Forall good (path_addrs K) →
  relink d (par K) old new s = (Done tt, hook K new s).
Proof.
  intros HK H0 Hout Hg. destruct K as [|f K]; simpl in *; [done|].
  destruct HK as (Hlk & _ & _). apply Forall_cons in Hg as [[Hf _] _].
  unfold relink. rewrite (proj2 (Z.eqb_neq _ 0)) by lia.
  rewrite (bind_done _ _ _ _ _ (rb_get_run _ _ _ Hlk)), (rb_upd_run _ _ _ _ Hlk).
  destruct (decide (f_side f = d)) as [<-|Hd].
  - by rewrite child_cell, Z.eqb_refl, set_child_cell.
  - assert (d = opp (f_side f)) as -> by (by destruct d, (f_side f)).
    rewrite child_opp_cell, opp_opp. rewrite (proj2 (Z.eqb_neq _ _)); [by rewrite set_child_cell|].
    destruct (f_other f) eqn:E; simpl; [done|]. intros ->. apply Hout. simpl. set_solver.
Qed.

(** ** Moving along the tree *)

Lemma rep_zip s K d a c u t : rep s (Frame d a c u :: K) t ↔ rep s K (nd d c t a u).
Proof.
  assert (addrs t ++ path_addrs (Frame d a c u :: K) ≡ₚ addrs (nd d c t a u) ++ path_addrs K) as Hp.
  { rewrite addrs_nd. simpl. by rewrite <- Permutation_middle, app_assoc. }
  split; intros [H1 H2 H3].
  - rewrite Hp in H3. destruct H2 as (Ha & Hu & HK). constructor; [|by rewrite ptr_nd|done].
    by apply repr_nd.
  - rewrite <- Hp in H3. apply repr_nd in H1 as (Ha & Ht & Hu). rewrite ptr_nd in H2.
    by constructor.
Qed.
Lemma rep_other s K d a c u t : rep s (Frame d a c u :: K) t ↔ rep s (Frame (opp d) a c t :: K) u.
Proof. by rewrite !rep_zip, nd_opp. Qed.
Lemma rep_up s K d a c u t : rep s (Frame d a c u :: K) t → rep s K (nd d c t a u).
Proof. apply rep_zip. Qed.
Lemma rep_down s K d a c u t : rep s K (nd d c t a u) → rep s (Frame d a c u :: K) t.
Proof. apply rep_zip. Qed.
Lemma rep_down_other s K d a c u t : rep s K (nd d c t a u) → rep s (Frame (opp d) a c t :: K) u.
Proof. rewrite <- nd_opp. apply rep_zip. Qed.
Lemma rep_plug s K t : rep s K t ↔ rep s [] (plug K t).
Proof.
  revert t. induction K as [|[d a c u] K IH]; intros t; [done|]. rewrite rep_zip. apply IH.
Qed.

Lemma owned_good l a : owned l → a ∈ l → good a.
Proof. intros [_ Hg] Ha. by eapply Forall_forall in Hg. Qed.
Lemma rep_par s K t : rep s K t → par K mod 4 = 0.
Proof.
  intros [_ _ Hg]. destruct K as [|f K]; [done|]. simpl in *.
  eapply (owned_good _ (f_addr f)); [exact Hg|]. set_solver.
Qed.
Lemma rep_lookup s K d c t a u :
  rep s K (nd d c t a u) → nodes s !! a = Some (cell d (par K) c (ptr t) (ptr u)).
Proof. intros [H _ _]. by apply repr_nd in H as [? _]. Qed.
Lemma rep_good_addr s K d c t a u : rep s K (nd d c t a u) → good a.
Proof. intros [_ _ Hg]. eapply owned_good; [exact Hg|]. rewrite addrs_nd. set_solver. Qed.

(** Disjointness facts, taken apart and used. *)
Lemma sep_app_r (a b c : list Z) :
  (∀ x, x ∈ a → x ∉ b ++ c) → (∀ x, x ∈ a → x ∉ b) ∧ (∀ x, x ∈ a → x ∉ c).
Proof. set_solver. Qed.
Lemma sep_app_l (a b c : list Z) :
  (∀ x, x ∈ b ++ c → x ∉ a) → (∀ x, x ∈ b → x ∉ a) ∧ (∀ x, x ∈ c → x ∉ a).
Proof. set_solver. Qed.
Lemma sep_cons_l (a : list Z) y c :
  (∀ x, x ∈ y :: c → x ∉ a) → y ∉ a ∧ (∀ x, x ∈ c → x ∉ a).
Proof. set_solver. Qed.
Lemma sep_cons_r (a : list Z) y c :
  (∀ x, x ∈ a → x ∉ y :: c) → y ∉ a ∧ (∀ x, x ∈ a → x ∉ c).
Proof. set_solver. Qed.
Lemma good_in (l : list Z) b : Forall good l → b ∈ l → b ≠ 0.
Proof. intros H Hb. rewrite Forall_forall in H. destruct (H b Hb). lia. Qed.
Lemma par_out K b : b ∉ path_addrs K → b ≠ 0 → b ≠ par K.
Proof. destruct K; simpl; [done|]. rewrite not_elem_of_cons. tauto. Qed.

Ltac sep_facts :=
  repeat match goal with
  | H : _ ∧ _ |- _ => destruct H
  | H : NoDup (_ :: _) |- _ => apply NoDup_cons in H
  | H : NoDup (_ ++ _) |- _ => apply NoDup_app in H
  | H : Forall good (_ :: _) |- _ => apply Forall_cons in H
  | H : Forall good (_ ++ _) |- _ => apply Forall_app in H
  | H : _ ∉ _ :: _ |- _ => apply not_elem_of_cons in H
  | H : _ ∉ _ ++ _ |- _ => apply not_elem_of_app in H
  | H : _ |- _ => apply sep_app_r in H
  | H : _ |- _ => apply sep_app_l in H
  | H : _ |- _ => apply sep_cons_r in H
  | H : _ |- _ => apply sep_cons_l in H
  end.
Ltac sep :=
  lazymatch goal with
  | |- _ ≠ par _ => apply par_out; sep
  | |- _ ≠ 0 => first [lia|eapply good_in; [|eassumption]; eassumption]
  | |- _ ≠ _ => first [assumption|apply not_eq_sym; assumption|intros ->; sep|lia]
  | |- _ ∉ _ => first [assumption|intros ?; sep]
  | |- False => solve [match goal with H : _ ∉ _ |- _ => by apply H end
                      |match goal with H : ∀ x, x ∈ _ → x ∉ _, H1 : _ ∈ _, H2 : _ ∈ _ |- _ =>
                         exact (H _ H1 H2) end]
  end.

(** Colouring the root of a subtree. *)
Lemma recolor_run s K d c c' t a u f :
  rep s K (nd d c t a u) → f (cell d (par K) c (ptr t) (ptr u)) = cell d (par K) c' (ptr t) (ptr u) →
  ∃ s', rb_upd a f s = (Done tt, s') ∧ rep s' K (nd d c' t a u).
Proof.
  intros Hr Hf. pose proof (rep_lookup _ _ _ _ _ _ _ Hr) as Ha. destruct Hr as [Ht HK Hown].
  exists (RbRoot (<[a := f (cell d (par K) c (ptr t) (ptr u))]> (nodes s)) (root s)).
  split; [by apply rb_upd_run|]. rewrite Hf. rewrite addrs_nd in Hown.
  apply repr_nd in Ht as (_ & Ht & Hu). pose proof Hown as [Hnd Hg].
  rewrite <- app_comm_cons in Hnd, Hg. sep_facts. constructor; simpl.
  - apply repr_nd. simpl. rewrite lookup_insert_eq.
    split_and!; [done|eapply repr_frame; [done|]..]; intros b Hb; apply lookup_insert_ne; sep.
  - rewrite ptr_nd in *. eapply repr_path_frame; [done|]. intros b Hb. apply lookup_insert_ne. sep.
  - by rewrite addrs_nd.
Qed.

(** ** Rotation *)

Lemma addrs_rotate d c l x c' m y r :
  addrs (nd d c l x (nd d c' m y r)) = addrs (nd d c' (nd d c l x m) y r).
Proof. destruct d; unfold nd; simpl; by rewrite <- ?app_assoc. Qed.

Lemma rotate_run s K d c l x c' m y r :
  rep s K (nd d c l x (nd d c' m y r)) →
  ∃ s', rotate d x s = (Done tt, s') ∧ rep s' K (nd d c' (nd d c l x m) y r).
Proof.
  intros Hr. pose proof (rep_par _ _ _ Hr) as Hpar.
  destruct Hr as [Ht HK Hown]. rewrite ptr_nd in HK.
  apply repr_nd in Ht as (Hxl & Hl & Hy). rewrite ptr_nd in Hxl.
  apply repr_nd in Hy as (Hyl & Hm & Hrr).
  assert (owned (x :: y :: addrs l ++ addrs m ++ addrs r ++ path_addrs K)) as [Hnd Hg].
  { revert Hown. rewrite !addrs_nd. simpl. rewrite <- Permutation_middle. simpl. by rewrite <- ?app_assoc. }
  sep_facts. assert (good x) as [Hx0 Hx4] by done. assert (good y) as [Hy0 Hy4] by done.
  set (s1 := RbRoot (<[x := cell d (par K) c (ptr l) (ptr m)]> (nodes s)) (root s)).
  set (s2 := RbRoot (hang m x (nodes s1)) (root s1)).
  set (s3 := RbRoot (<[y := cell d x c' x (ptr r)]> (nodes s2)) (root s2)).
  set (s4 := RbRoot (<[y := cell d (par K) c' x (ptr r)]> (nodes s3)) (root s3)).
  set (s5 := hook K y s4).
  set (s6 := RbRoot (<[x := cell d y c (ptr l) (ptr m)]> (nodes s5)) (root s5)).
  assert (repr (nodes s1) y m) as Hm1.
  { eapply repr_frame; [done|]. intros b Hb. apply lookup_insert_ne. sep. }
  assert (repr_path (nodes s4) (root s4) K x) as HK4.
  { eapply repr_path_frame; [done|]. intros b Hb. simpl.
    by rewrite !lookup_insert_ne, hang_out, lookup_insert_ne by sep. }
  exists s6. split.
  - unfold rotate. rewrite (bind_done _ _ _ _ _ (rb_get_run _ _ _ Hxl)).
    rewrite child_opp_cell, cell_parent by done.
    rewrite (bind_done _ _ _ _ _ (rb_get_run _ _ _ Hyl)), child_cell.
    rewrite (bind_done _ _ _ _ _ (rb_upd_run _ _ _ _ Hxl)), set_child_opp_cell. fold s1.
    rewrite (bind_done _ _ _ _ _ (hang_run s1 y x m Hm1 Hy4 Hx4 ltac:(done))). fold s2.
    assert (nodes s2 !! y = Some (cell d x c' (ptr m) (ptr r))) as Hy2.
    { unfold s2. simpl. by rewrite hang_out, lookup_insert_ne by sep. }
    rewrite (bind_done _ _ _ _ _ (rb_upd_run _ _ _ _ Hy2)), set_child_cell. fold s3.
    assert (nodes s3 !! y = Some (cell d x c' x (ptr r))) as Hy3 by apply lookup_insert_eq.
    unfold rb_set_parent.
    rewrite (bind_done _ _ _ _ _ (rb_upd_run _ _ _ _ Hy3)), cell_set_parent by done. fold s4.
    rewrite (bind_done _ _ s4 s5 tt) by (apply relink_run; [done|lia|done|done]).
    assert (nodes s5 !! x = Some (cell d (par K) c (ptr l) (ptr m))) as Hx5.
    { unfold s5. rewrite hook_out by sep. simpl. rewrite !lookup_insert_ne, hang_out by sep.
      apply lookup_insert_eq. }
    rewrite (rb_upd_run _ _ _ _ Hx5), cell_set_parent by done. done.
  - assert (∀ b, b ≠ x → b ≠ y → b ∉ addrs m → b ≠ par K → nodes s6 !! b = nodes s !! b) as Hout.
    { intros b ? ? ? ?. unfold s6, s5. simpl. rewrite lookup_insert_ne, hook_out by done.
      simpl. by rewrite !lookup_insert_ne, hang_out, lookup_insert_ne by done. }
    constructor; [| |by rewrite <- addrs_rotate].
    + apply repr_nd. rewrite ptr_nd. simpl. split_and!.
      * rewrite lookup_insert_ne by sep. unfold s5. rewrite hook_out by sep. apply lookup_insert_eq.
      * apply repr_nd. rewrite lookup_insert_eq. split_and!; [done| |].
        -- eapply repr_frame; [exact Hl|]. intros b Hb. apply Hout; sep.
        -- eapply repr_frame; [by apply (hang_repr m y x (nodes s1))|].
           intros b Hb. unfold s5. rewrite lookup_insert_ne, hook_out by sep.
           simpl. by rewrite !lookup_insert_ne by sep.
      * eapply repr_frame; [exact Hrr|]. intros b Hb. apply Hout; sep.
    + rewrite ptr_nd. simpl. eapply repr_path_frame; [by apply (hook_repr K y x s4)|].
      intros b Hb. apply lookup_insert_ne. sep.
Qed.
