(* ===== verification/FioRbtreeInsert.v ===== *)
(** * fio: insertion into a red-black tree

    The balance conditions of a tree and of a path, and that linking a node and
    [rb_insert_color] keep them. *)
From Stdlib Require Import ZArith Lia.
From stdpp Require Import base numbers gmap list.
From S2P Require Import Prelude FioRbtree FioRbtreeShape.

(** A tree whose root has the colour [c] ([Black] for a leaf) and all of whose
    paths have [n] black nodes; no red node has a red child. *)
Inductive rb : color → nat → tree → Prop :=
| rb_leaf : rb Black 0 Leaf
| rb_red n l a r : rb Black n l → rb Black n r → rb Red n (Node Red l a r)
| rb_black n c1 c2 l a r : rb c1 n l → rb c2 n r → rb Black (S n) (Node Black l a r).

(** A path that makes a balanced tree with a black root of every balanced subtree
    of the colour [c] and [n] black nodes on its paths. *)
Inductive rb_path : path → nat → color → Prop :=
| path_nil n : rb_path [] n Black
| path_red d a u K n : rb Black n u → rb_path K n Red → rb_path (Frame d a Red u :: K) n Black
| path_black d a u c' K n c :
    rb c' n u → rb_path K (S n) Black → rb_path (Frame d a Black u :: K) n c.

#[export] Hint Constructors rb rb_path : core.

Lemma rb_nd_red d n t a u : rb Black n t → rb Black n u → rb Red n (nd d Red t a u).
Proof. destruct d; unfold nd; eauto. Qed.
Lemma rb_nd_black d n c1 c2 t a u : rb c1 n t → rb c2 n u → rb Black (S n) (nd d Black t a u).
Proof. destruct d; unfold nd; eauto. Qed.
#[export] Hint Resolve rb_nd_red rb_nd_black : core.

Lemma plug_rb K n c t : rb c n t → rb_path K n c → ∃ m, rb Black m (plug K t).
Proof.
  intros Ht HK. revert t Ht. induction HK; intros t Ht; simpl; eauto.
Qed.
Lemma plug_addrs K t t' : addrs t = addrs t' → addrs (plug K t) = addrs (plug K t').
Proof.
  revert t t'. induction K as [|f K IH]; intros t t' E; simpl; [done|].
  apply IH. destruct (f_side f); unfold nd; simpl; by rewrite E.
Qed.
Lemma addrs_color d c c' t a u : addrs (nd d c t a u) = addrs (nd d c' t a u).
Proof. by destruct d. Qed.
Lemma addrs_nd_congr d c c' t t' a u u' :
  addrs t = addrs t' → addrs u = addrs u' → addrs (nd d c t a u) = addrs (nd d c' t' a u').
Proof. destruct d; unfold nd; simpl; by intros -> ->. Qed.

(** ** Height

    The nodes on a way down are at most twice the black ones and one more, and the
    tree has at least [2 ^ n - 1] nodes. *)
Fixpoint height (t : tree) : nat :=
  match t with Leaf => 0 | Node _ l _ r => S (Nat.max (height l) (height r)) end.

Lemma rb_height c n t : rb c n t → (height t ≤ 2 * n + match c with Red => 1 | Black => 0 end)%nat.
Proof. induction 1; simpl in *; [lia|lia|]. destruct c1, c2; lia. Qed.
Lemma rb_size c n t : rb c n t → (2 ^ n ≤ S (length (addrs t)))%nat.
Proof.
  induction 1; cbn [addrs]; rewrite ?length_app, ?Nat.pow_succ_r'; cbn [length]; [done|lia|lia].
Qed.
Lemma rb_log n t : rb Black n t → (height t ≤ 2 * Nat.log2 (S (length (addrs t))))%nat.
Proof.
  intros H. pose proof (rb_height _ _ _ H) as Hh. pose proof (rb_size _ _ _ H) as Hs.
  apply Nat.log2_le_mono in Hs. rewrite Nat.log2_pow2 in Hs by lia. cbv iota in Hh. lia.
Qed.

(** ** Fuel *)

Lemma repr_dom h p t a : repr h p t → a ∈ addrs t → is_Some (h !! a).
Proof.
  revert p. induction t as [|c l IHl b r IHr]; intros p; simpl; [set_solver|].
  intros (Hb & Hl & Hr) [Ha|[->|Ha]%elem_of_cons]%elem_of_app; eauto.
Qed.
Lemma rep_size s K t : rep s K t → (length (addrs t ++ path_addrs K) ≤ size (nodes s))%nat.
Proof.
  rewrite rep_plug. intros [H _ [Hnd _]]. simpl in *. rewrite app_nil_r in Hnd.
  rewrite <- addrs_plug in *. rewrite <- size_dom.
  rewrite <- (size_list_to_set (C:=gset Z) (addrs (plug K t))) by done.
  apply subseteq_size. intros a Ha%elem_of_list_to_set. apply elem_of_dom. by eapply repr_dom.
Qed.
Lemma path_length K : (length K ≤ length (path_addrs K))%nat.
Proof. induction K as [|f K IH]; simpl; [lia|]. rewrite length_app. lia. Qed.
Lemma rep_fuel s K t : rep s K t → (length K < heap_fuel s)%nat.
Proof.
  intros H%rep_size. unfold heap_fuel. rewrite length_app in H. pose proof (path_length K). lia.
Qed.

(** ** Colouring *)

Lemma set_red_run s K d c t a u :
  rep s K (nd d c t a u) → ∃ s', rb_set_red a s = (Done tt, s') ∧ rep s' K (nd d Red t a u).
Proof. intros H. eapply recolor_run; [done|]. by apply cell_set_red, (rep_par s K (nd d c t a u)). Qed.
Lemma set_black_run s K d c t a u :
  rep s K (nd d c t a u) → ∃ s', rb_set_black a s = (Done tt, s') ∧ rep s' K (nd d Black t a u).
Proof. intros H. eapply recolor_run; [done|]. by apply cell_set_black, (rep_par s K (nd d c t a u)). Qed.
Lemma set_color_run s K d c c' t a u :
  rep s K (nd d c t a u) →
  ∃ s', rb_set_color a (code c') s = (Done tt, s') ∧ rep s' K (nd d c' t a u).
Proof. intros H. eapply recolor_run; [done|]. by apply cell_set_color, (rep_par s K (nd d c t a u)). Qed.

Lemma get_run s K d c t a u :
  rep s K (nd d c t a u) → rb_get a s = (Done (cell d (par K) c (ptr t) (ptr u)), s).
Proof. intros H. by apply rb_get_run, rep_lookup. Qed.

Lemma rep_nonzero s K d c t a u : rep s K (nd d c t a u) → (a =? 0) = false.
Proof. intros H%rep_good_addr. apply Z.eqb_neq. destruct H. lia. Qed.

(** The colour of a subtree's root, as the code finds it. *)
Definition root_color (t : tree) : color := match t with Leaf => Black | Node c _ _ _ => c end.
Lemma rb_root_color c n t : rb c n t → root_color t = c.
Proof. by destruct 1. Qed.
Lemma red_node_run s K t :
  rep s K t → red_node (ptr t) s = (Done (bool_decide (root_color t = Red)), s).
Proof.
  intros Hr. unfold red_node. destruct t as [|c l a r]; simpl; [done|].
  change (Node c l a r) with (nd L c l a r) in Hr.
  rewrite (rep_nonzero _ _ _ _ _ _ _ Hr), (bind_done _ _ _ _ _ (get_run _ _ _ _ _ _ _ Hr)).
  by rewrite cell_is_red by (by eapply rep_par).
Qed.

(** Sibling subtrees have different roots. *)
Lemma rep_ptr_ne s K d a c d' c' l x r u :
  rep s (Frame d a c (nd d' c' l x r) :: K) u → ptr u ≠ x.
Proof.
  intros [_ _ Hown]. simpl in Hown. rewrite addrs_nd in Hown. destruct Hown as [Hnd Hg].
  destruct u as [|? ? b ?]; simpl in *; sep_facts; [|intros ->; set_solver].
  match goal with H : good x |- _ => destruct H; lia end.
Qed.

(** On which side of its parent a subtree hangs. *)
Lemma side_run s K d a c u t :
  rep s (Frame d a c u :: K) t → ptr t ≠ 0 →
  (if ptr t =? rb_left (cell d (par K) c (ptr t) (ptr u)) then L else R) = d.
Proof.
  intros [_ _ [Hnd _]] H0. destruct d; simpl; [by rewrite Z.eqb_refl|].
  rewrite (proj2 (Z.eqb_neq _ _)); [done|]. destruct t as [|? ? b ?]; simpl in *; [done|].
  destruct u as [|? ? b' ?]; simpl in *; [done|]. intros ->. sep_facts. set_solver.
Qed.

(** ** The loop *)

(** Run the next call with the lemma [lem]; what it leaves is [Hr]. *)
Ltac run_with lem Hr :=
  let s := fresh "s" in let E := fresh "E" in
  destruct lem as (s & E & Hr); rewrite (bind_done _ _ _ _ _ E); clear E.
Ltac run_get Hr := rewrite (bind_done _ _ _ _ _ (get_run _ _ _ _ _ _ _ Hr)).

Lemma node_nd c l a r d : Node c l a r = nd d c (match d with L => l | R => r end) a
  (match d with L => r | R => l end).
Proof. by destruct d. Qed.

Lemma insert_turn_red s K d1 p u d2 g v1 b v2 t :
  rep s (Frame d1 p Red u :: Frame d2 g Black (Node Red v1 b v2) :: K) t →
  ∃ s', insert_turn d2 (ptr t) p g s = (Done g, s') ∧
    rep s' K (nd d2 Red (nd d1 Black t p u) g (Node Black v1 b v2)).
Proof.
  intros Hr%rep_up. pose proof (rep_up _ _ _ _ _ _ _ Hr) as Hg. unfold insert_turn.
  run_get Hg. rewrite child_opp_cell.
  apply rep_down_other in Hg. rewrite (bind_done _ _ _ _ _ (red_node_run _ _ _ Hg)). simpl.
  rewrite (node_nd Red _ _ _ L) in Hg. run_with (set_black_run _ _ _ _ _ _ _ Hg) Hr1.
  apply rep_up in Hr1. rewrite nd_opp in Hr1. apply rep_down in Hr1.
  run_with (set_black_run _ _ _ _ _ _ _ Hr1) Hr2. apply rep_up in Hr2.
  run_with (set_red_run _ _ _ _ _ _ _ Hr2) Hr3. eauto.
Qed.

Lemma insert_turn_rotate s K d1 p u d2 g v l x r :
  rep s (Frame d1 p Red u :: Frame d2 g Black v :: K) (nd d2 Red l x r) → root_color v = Black →
  ∃ y A1 A2 q B s', insert_turn d2 x p g s = (Done y, s') ∧
    rep s' K (nd d2 Black (nd d2 Red A1 y A2) q (nd d2 Red B g v)) ∧
    addrs (nd d2 Black (nd d2 Red A1 y A2) q (nd d2 Red B g v)) =
      addrs (nd d2 Black (nd d1 Red (nd d2 Red l x r) p u) g v) ∧
    ∀ n, rb Black n u → rb Black n l → rb Black n r →
      rb Black n A1 ∧ rb Black n A2 ∧ rb Black n B.
Proof.
  intros Hr%rep_up Hv. pose proof (rep_up _ _ _ _ _ _ _ Hr) as Hg. unfold insert_turn.
  run_get Hg. rewrite child_opp_cell.
  apply rep_down_other in Hg. rewrite (bind_done _ _ _ _ _ (red_node_run _ _ _ Hg)), Hv. simpl.
  run_get Hr. rewrite ptr_nd. simpl par.
  assert (∃ y A1 A2 q B s1,
    (if child (opp d2) (cell d1 g Red x (ptr u)) =? x then rotate d2 p;; mret (p, x)
     else mret (x, p)) s = (Done (y, q), s1) ∧
    rep s1 (Frame d2 g Black v :: K) (nd d2 Red (nd d2 Red A1 y A2) q B) ∧
    addrs (nd d2 Red (nd d2 Red A1 y A2) q B) = addrs (nd d1 Red (nd d2 Red l x r) p u) ∧
    ∀ n, rb Black n u → rb Black n l → rb Black n r → rb Black n A1 ∧ rb Black n A2 ∧ rb Black n B)
    as (y & A1 & A2 & q & B & s1 & E & Hr1 & Ha & HB).
  { destruct (decide (d1 = d2)) as [->|Hd].
    - exists x, l, r, p, u, s. rewrite child_opp_cell. split_and!; [|done|done|done].
      rewrite (proj2 (Z.eqb_neq _ _)); [done|]. apply rep_down_other in Hr.
      by eapply rep_ptr_ne.
    - assert (d1 = opp d2) as -> by (by destruct d1, d2).
      rewrite nd_opp in Hr. destruct (rotate_run _ _ _ _ _ _ _ _ _ _ Hr) as (s1 & E & Hr1).
      exists p, u, l, x, r, s1. rewrite child_cell, Z.eqb_refl, (bind_done _ _ _ _ _ E).
      split_and!; [done|done| |naive_solver]. by rewrite nd_opp, <- addrs_rotate. }
  rewrite (bind_done _ _ _ _ _ E). simpl.
  run_with (set_black_run _ _ _ _ _ _ _ Hr1) Hr2. apply rep_up in Hr2.
  run_with (set_red_run _ _ _ _ _ _ _ Hr2) Hr3.
  rewrite <- nd_opp, <- (nd_opp d2 Black) in Hr3. run_with (rotate_run _ _ _ _ _ _ _ _ _ _ Hr3) Hr4.
  rewrite !nd_opp in Hr4. eexists y, A1, A2, q, B, _. split; [done|]. split; [exact Hr4|]. split; [|done].
  rewrite addrs_rotate. apply addrs_nd_congr; [|done]. rewrite <- Ha. apply addrs_color.
Qed.

(** The loop starts at a red node with balanced subtrees, all of whose ancestors
    are balanced, except that its parent may be red. *)
Inductive insert_path : path → nat → Prop :=
| insert_root n : insert_path [] n
| insert_ok K n : rb_path K n Red → insert_path K n
| insert_clash d p u K n : rb Black n u → rb_path K n Red → insert_path (Frame d p Red u :: K) n.
#[local] Hint Constructors insert_path : core.

Lemma insert_path_black K n : rb_path K n Black → insert_path K n.
Proof. inversion 1; subst; eauto. Qed.

Lemma insert_loop_run fuel s K n l x r :
  rep s K (Node Red l x r) → rb Black n l → rb Black n r → insert_path K n →
  (length K < fuel)%nat →
  ∃ s' c m T, insert_loop fuel x s = (Done tt, s') ∧ rep s' [] T ∧ rb c m T ∧
    addrs T = addrs (plug K (Node Red l x r)).
Proof.
  revert s K n l x r. induction fuel as [|fuel IH]; intros s K n l x r Hr Hl Hrr HK Hf; [lia|].
  rewrite (node_nd Red _ _ _ L) in Hr. cbn [insert_loop].
  run_get Hr. rewrite cell_parent by (by eapply rep_par).
  destruct HK as [n|K n HK|d p u K n Hu HK].
  - simpl. eauto 10.
  - inversion HK as [| |d p u c' K' n' c Hu HK']; subst. simpl.
    apply rep_up in Hr as Hp. rewrite (rep_nonzero _ _ _ _ _ _ _ Hp). run_get Hp.
    rewrite cell_is_red by (by eapply rep_par). simpl.
    destruct (plug_rb (Frame d p Black u :: K') n Red (Node Red l x r)) as [m Hm]; [eauto..|].
    apply rep_plug in Hr. by eauto 10.
  - inversion HK as [| |d2 g v c' K' n' c Hv HK']; subst. simpl.
    apply rep_up in Hr as Hp. rewrite (rep_nonzero _ _ _ _ _ _ _ Hp). run_get Hp.
    rewrite cell_is_red, cell_parent by (exact (rep_par _ _ _ Hp)). simpl.
    apply rep_up in Hp as Hg. simpl. run_get Hg.
    pose proof (side_run _ _ _ _ _ _ _ Hp) as Hside. rewrite ptr_nd in *. rewrite Hside.
    2:{ apply rep_good_addr in Hp as [? _]. lia. }
    destruct (decide (c' = Red)) as [->|Hc].
    + inversion Hv as [|n1 v1 b v2 Hv1 Hv2|]; subst.
      destruct (insert_turn_red _ _ _ _ _ _ _ _ _ _ _ Hr) as (s1 & E & Hr1). rewrite ptr_nd in E.
      rewrite (bind_done _ _ _ _ _ E). rewrite (node_nd Black _ _ _ L) in Hr1.
      destruct d2.
      * destruct (IH s1 K' (S n) (nd d Black (Node Red l x r) p u) g (Node Black v1 b v2))
          as (s' & c0 & m & T & E' & HT & Hrb & Ha); [done|eauto..| |simpl in Hf; lia|].
        { by apply insert_path_black. }
        exists s', c0, m, T. split_and!; [done..|]. rewrite Ha. simpl.
        apply plug_addrs, (addrs_nd_congr L); [by apply addrs_nd_congr|done].
      * destruct (IH s1 K' (S n) (Node Black v1 b v2) g (nd d Black (Node Red l x r) p u))
          as (s' & c0 & m & T & E' & HT & Hrb & Ha); [done|eauto..| |simpl in Hf; lia|].
        { by apply insert_path_black. }
        exists s', c0, m, T. split_and!; [done..|]. rewrite Ha. simpl.
        apply plug_addrs, (addrs_nd_congr R); [by apply addrs_nd_congr|done].
    + assert (c' = Black) as -> by (by destruct c'). rewrite <- (node_nd Red l x r L) in Hr.
      rewrite (node_nd Red _ _ _ d2) in Hr.
      destruct (insert_turn_rotate _ _ _ _ _ _ _ _ _ _ _ Hr (rb_root_color _ _ _ Hv))
        as (y & A1 & A2 & q & B & s1 & E & Hr1 & Ha & HB).
      rewrite (bind_done _ _ _ _ _ E). destruct fuel as [|fuel]; [simpl in Hf; lia|].
      destruct (HB n) as (H1 & H2 & H3); [by destruct d2..|].
      apply rep_down in Hr1 as Hy. cbn [insert_loop]. run_get Hy.
      rewrite cell_parent by (by eapply rep_par). simpl. rewrite (rep_nonzero _ _ _ _ _ _ _ Hr1).
      run_get Hr1. rewrite cell_is_red by (by eapply rep_par). simpl.
      destruct (plug_rb K' (S n) Black _ (rb_nd_black d2 n Red Red _ q _
        (rb_nd_red d2 n A1 y A2 H1 H2) (rb_nd_red d2 n B g v H3 Hv)) HK') as [m Hm].
      apply rep_plug in Hr1. eexists s1, Black, m, _. split_and!; [done|exact Hr1|done|].
      simpl. rewrite (plug_addrs _ _ _ Ha), <- (node_nd Red l x r d2). done.
Qed.

(** ** Linking a new node *)

Definition link_of (K : path) : link :=
  match K with [] => LinkRoot | f :: _ => LinkChild (f_side f) (f_addr f) end.

Lemma link_run s K x :
  rep s K Leaf → good x → x ∉ path_addrs K → is_Some (nodes s !! x) →
  ∃ s', rb_link_node x (par K) (link_of K) s = (Done tt, s') ∧ rep s' K (Node Red Leaf x Leaf).
Proof.
  intros [_ HK Hown] Hx Hout [n Hn]. simpl in HK, Hown.
  set (s1 := RbRoot (<[x := cell L (par K) Red 0 0]> (nodes s)) (root s)).
  assert (repr_path (nodes s1) (root s1) K 0) as HK1.
  { eapply repr_path_frame; [done|]. intros b Hb. apply lookup_insert_ne. sep. }
  assert (x ≠ par K) as Hpar by (apply par_out; [done|]; destruct Hx; lia).
  destruct Hown as [Hnd Hg]. exists (hook K x s1). split.
  - unfold rb_link_node. rewrite (bind_done _ _ _ _ _ (rb_upd_run _ _ _ _ Hn)).
    assert (RbNode (par K) 0 0 = cell L (par K) Red 0 0) as ->.
    { unfold cell. simpl. by rewrite Z.add_0_r. }
    fold s1. destruct K as [|f K]; simpl; [done|]. destruct HK1 as (Hf & _ & _).
    by rewrite (rb_upd_run _ _ _ _ Hf), set_child_cell.
  - constructor; simpl.
    + rewrite hook_out by done. split; [apply lookup_insert_eq|done].
    + by eapply hook_repr.
    + split; [by apply NoDup_cons|by apply Forall_cons].
Qed.

Lemma blacken_run s c m T :
  rep s [] T → rb c m T → T ≠ Leaf →
  ∃ s' n T', rb_set_black (root s) s = (Done tt, s') ∧ rep s' [] T' ∧ rb Black n T' ∧
    addrs T' = addrs T.
Proof.
  intros Hr HT Hne. assert (root s = ptr T) as -> by (by destruct Hr). destruct T as [|c' l a r]; [done|].
  rewrite (node_nd c' _ _ _ L) in Hr.
  destruct (set_black_run _ _ _ _ _ _ _ Hr) as (s' & E & Hr').
  inversion HT; subst; eexists s', _, _; (split_and!; [exact E|exact Hr'|unfold nd; eauto|done]).
Qed.

Lemma insert_color_run s K l x r n :
  rep s K (Node Red l x r) → rb Black n l → rb Black n r → rb_path K n Black →
  ∃ s' m T, rb_insert_color x s = (Done tt, s') ∧ rep s' [] T ∧ rb Black m T ∧
    addrs T = addrs (plug K (Node Red l x r)).
Proof.
  intros Hr Hl Hrr HK. unfold rb_insert_color.
  rewrite (bind_done (readS heap_fuel) _ s s _ eq_refl).
  destruct (insert_loop_run (heap_fuel s) s K n l x r) as (s1 & c & m & T & E & HT & Hrb & Ha);
    [done..|by apply insert_path_black|by eapply rep_fuel|].
  rewrite (bind_done _ _ _ _ _ E), (bind_done (readS root) _ s1 s1 _ eq_refl).
  destruct (blacken_run s1 c m T HT Hrb) as (s2 & n2 & T2 & E2 & HT2 & Hrb2 & Ha2).
  { intros ->. assert (x ∈ addrs (plug K (Node Red l x r))) as Hx; [|rewrite <- Ha in Hx; set_solver].
    rewrite addrs_plug. simpl. set_solver. }
  exists s2, n2, T2. rewrite Ha2, Ha. done.
Qed.
