(* ===== verification/FioRbtreeErase.v ===== *)
(** * fio: deletion from a red-black tree

    [__rb_erase_color] restores the balance of a tree in which one subtree lacks a
    black node; [rb_erase] takes a node out and leaves the others in order. *)
From Stdlib Require Import ZArith Lia.
From stdpp Require Import base numbers gmap list.
From S2P Require Import Prelude FioRbtree FioRbtreeShape FioRbtreeInsert.

Definition blacken (t : tree) : tree :=
  match t with Leaf => Leaf | Node _ l a r => Node Black l a r end.

(** A subtree that lacks a black node, or gets one when its red root is made
    black. *)
Definition lacking (n : nat) (t : tree) : Prop :=
  rb Black n t ∨ root_color t = Red ∧ rb Black (S n) (blacken t).

Lemma rb_lacking c n t : rb c n t → lacking n t.
Proof. destruct c; [|by left]. intros H. right. inversion H; subst. split; simpl; eauto. Qed.
Lemma rb_path_black K n c : rb_path K n c → rb_path K n Black.
Proof. destruct 1; eauto. Qed.

Lemma black_node_run s K t :
  rep s K t → black_node (ptr t) s = (Done (bool_decide (root_color t = Black)), s).
Proof.
  intros Hr. unfold black_node. destruct t as [|c l a r]; simpl; [done|].
  change (Node c l a r) with (nd L c l a r) in Hr.
  rewrite (rep_nonzero _ _ _ _ _ _ _ Hr). run_get Hr.
  by rewrite cell_is_black by (by eapply rep_par).
Qed.

(** Making the root of a subtree black, when there is one. *)
Lemma blacken_sub_run s K t :
  rep s K t → ∃ s', unless_null (ptr t) (rb_set_black (ptr t)) s = (Done tt, s') ∧ rep s' K (blacken t).
Proof.
  intros Hr. unfold unless_null. destruct t as [|c l a r]; simpl; [eauto|].
  rewrite (node_nd _ _ _ _ L) in Hr. rewrite (rep_nonzero _ _ _ _ _ _ _ Hr).
  by apply set_black_run in Hr.
Qed.

Lemma addrs_blacken t : addrs (blacken t) = addrs t.
Proof. by destruct t. Qed.

(** ** The sibling *)

Lemma rb_nd_inv c n d t : rb c n t → (0 < n)%nat ∨ c = Red → ∃ l a r, t = nd d c l a r.
Proof.
  intros H Hn. destruct H as [|n l a r|n c1 c2 l a r]; [naive_solver lia|..];
    eexists _, _, _; by rewrite (node_nd _ _ _ _ d).
Qed.
Lemma rb_black_inv n d l a r :
  rb Black (S n) (nd d Black l a r) → ∃ c1 c2, rb c1 n l ∧ rb c2 n r.
Proof. destruct d; unfold nd; inversion 1; subst; eauto. Qed.
Lemma rb_red_inv n d l a r : rb Red n (nd d Red l a r) → rb Black n l ∧ rb Black n r.
Proof. destruct d; unfold nd; inversion 1; subst; eauto. Qed.

Lemma erase_sibling_run s K d p c u t n :
  rep s (Frame d p c u :: K) t → rb_path (Frame d p c u :: K) (S n) Black →
  ∃ s' c' m y r K', erase_sibling d p s = (Done y, s') ∧
    rep s' (Frame d p c' (nd d Black m y r) :: K') t ∧
    rb_path (Frame d p c' (nd d Black m y r) :: K') (S n) Black ∧
    addrs (plug (Frame d p c' (nd d Black m y r) :: K') t) = addrs (plug (Frame d p c u :: K) t) ∧
    (length K' ≤ S (length K))%nat ∧ (c = Red → K' = K) ∧ (K' = K ∨ c' = Red).
Proof.
  intros Hr HK. unfold erase_sibling. apply rep_up in Hr as Hp. run_get Hp. rewrite child_opp_cell.
  assert (∃ cu, rb cu (S n) u) as [cu Hu] by (inversion HK; subst; eauto).
  destruct (rb_nd_inv cu (S n) d u Hu ltac:(lia)) as (m & y & r & ->). rewrite ptr_nd.
  apply rep_down_other in Hp as Ho. run_get Ho. rewrite cell_is_red by (exact (rep_par _ _ _ Ho)).
  destruct cu; simpl.
  - destruct (rb_red_inv _ _ _ _ _ Hu) as [Hm Hrr].
    inversion HK as [|? ? ? ? ? H1|? ? ? ? ? ? ? H1 HK']; subst.
    { apply rb_root_color in H1. by destruct d. }
    run_with (set_black_run _ _ _ _ _ _ _ Ho) Hr1. apply rep_up in Hr1. rewrite nd_opp in Hr1.
    run_with (set_red_run _ _ _ _ _ _ _ Hr1) Hr2. run_with (rotate_run _ _ _ _ _ _ _ _ _ _ Hr2) Hr3.
    apply rep_down in Hr3. run_get Hr3. rewrite child_opp_cell.
    destruct (rb_nd_inv Black (S n) d m Hm ltac:(lia)) as (m1 & z & m2 & ->). rewrite ptr_nd.
    eexists _, Red, m1, z, m2, (Frame d y Black r :: K). split; [done|]. split; [by apply rep_down|].
    split; [eauto|]. split; [|naive_solver]. simpl. apply plug_addrs.
    rewrite addrs_rotate. apply addrs_nd_congr; [apply addrs_color|done].
  - eexists s, c, m, y, r, K. split_and!; [done..|lia|done|by left].
Qed.

Lemma both_black_run s K d c m y r :
  rep s K (nd d c m y r) →
  both_black (cell d (par K) c (ptr m) (ptr r)) s =
    (Done (bool_decide (root_color m = Black ∧ root_color r = Black)), s).
Proof.
  intros Hr. pose proof (black_node_run _ _ _ (rep_down _ _ _ _ _ _ _ Hr)) as Hm.
  pose proof (black_node_run _ _ _ (rep_down_other _ _ _ _ _ _ _ Hr)) as Hrr.
  unfold both_black. destruct d; unfold cell; simpl.
  - rewrite (bind_done _ _ _ _ _ Hm). destruct (root_color m); simpl; [done|].
    rewrite Hrr. by destruct (root_color r).
  - rewrite (bind_done _ _ _ _ _ Hrr). destruct (root_color r); simpl.
    + by destruct (root_color m).
    + rewrite Hm. by destruct (root_color m).
Qed.

Lemma erase_far_run s K d p c m y r t n c1 c2 :
  rep s (Frame d p c (nd d Black m y r) :: K) t → rb c1 n m → rb c2 n r → c1 = Red ∨ c2 = Red →
  ∃ s' m' y' r' c', erase_far d p y s = (Done y', s') ∧
    rep s' (Frame d p c (nd d Black m' y' r') :: K) t ∧ rb c' n m' ∧ rb Red n r' ∧
    addrs (nd d Black m' y' r') = addrs (nd d Black m y r).
Proof.
  intros Hr Hm Hrr Hc. apply rep_up in Hr as Hp. apply rep_down_other in Hp as Ho.
  unfold erase_far. run_get Ho. rewrite child_opp_cell, child_cell.
  apply rep_down_other in Ho as Hfar. rewrite (bind_done _ _ _ _ _ (black_node_run _ _ _ Hfar)).
  rewrite (rb_root_color _ _ _ Hrr). destruct c2; simpl; [by eauto 12|].
  destruct Hc as [->|]; [|done]. destruct (rb_nd_inv Red n d m Hm ltac:(auto)) as (m1 & z & m2 & ->).
  destruct (rb_red_inv _ _ _ _ _ Hm) as [Hm1 Hm2].
  apply rep_down in Ho as Hnear. run_with (blacken_sub_run _ _ _ Hnear) Hr1.
  assert (blacken (nd d Red m1 z m2) = nd d Black m1 z m2) as Hb by (by destruct d).
  rewrite Hb in Hr1. apply rep_up in Hr1. run_with (set_red_run _ _ _ _ _ _ _ Hr1) Hr2.
  rewrite <- nd_opp, <- (nd_opp d Black) in Hr2. run_with (rotate_run _ _ _ _ _ _ _ _ _ _ Hr2) Hr3.
  rewrite !nd_opp in Hr3. apply rep_up in Hr3. rewrite nd_opp in Hr3. run_get Hr3.
  rewrite child_opp_cell, ptr_nd. eexists _, m1, z, (nd d Red m2 y r), Black.
  split; [done|]. split; [by apply rep_down|]. split_and!; [done|eauto|].
  rewrite addrs_rotate. apply addrs_nd_congr; [apply addrs_color|done].
Qed.

(** ** One turn *)

Lemma erase_turn_run s K d p c u t n :
  rep s (Frame d p c u :: K) t → rb_path (Frame d p c u :: K) (S n) Black → rb Black n t →
  ∃ s' res, erase_turn d p s = (Done res, s') ∧
    match res with
    | None => ∃ m T, rep s' [] T ∧ T ≠ Leaf ∧ rb Black m T ∧
        addrs T = addrs (plug (Frame d p c u :: K) t)
    | Some (x, q) => ∃ t' n' K', x = ptr t' ∧ q = par K' ∧ rep s' K' t' ∧ rb_path K' (S n') Black ∧
        lacking n' t' ∧ addrs (plug K' t') = addrs (plug (Frame d p c u :: K) t) ∧
        (root_color t' = Red ∨ K' = K)
    end.
Proof.
  intros Hr HK Ht.
  destruct (erase_sibling_run s K d p c u t n Hr HK)
    as (s1 & c' & m & y & r & K' & E & Hr1 & HK1 & Ha1 & _ & _ & Hred).
  unfold erase_turn. rewrite (bind_done _ _ _ _ _ E). clear E. simpl in Ha1. simpl plug.
  assert (rb Black (S n) (nd d Black m y r)) as Hu.
  { inversion HK1 as [|? ? ? ? ? H1|? ? ? c0 ? ? ? H1]; subst; [done|].
    pose proof (rb_root_color _ _ _ H1) as Hc. by destruct d, c0. }
  destruct (rb_black_inv _ _ _ _ _ Hu) as (c1 & c2 & Hm & Hrr).
  apply rep_up in Hr1 as Hp. apply rep_down_other in Hp as Ho. run_get Ho.
  rewrite (bind_done _ _ _ _ _ (both_black_run _ _ _ _ _ _ _ Ho)).
  rewrite (rb_root_color _ _ _ Hm), (rb_root_color _ _ _ Hrr).
  destruct (decide (c1 = Black ∧ c2 = Black)) as [[-> ->]|Hc]; simpl.
  - run_with (set_red_run _ _ _ _ _ _ _ Ho) Hr2. apply rep_up in Hr2. rewrite nd_opp in Hr2.
    run_get Hr2. rewrite cell_parent by (exact (rep_par _ _ _ Hr2)).
    eexists _, (Some _). split; [done|]. rewrite <- Ha1. simpl.
    inversion HK1 as [|? ? ? ? ? H1 HK2|? ? ? c0 ? ? ? H1 HK2]; subst.
    + eexists _, n, K'. split_and!; [by rewrite ptr_nd|done|exact Hr2|by eapply rb_path_black| | |].
      * right. destruct d; (split; [done|]); unfold nd; simpl; eauto.
      * apply plug_addrs, addrs_nd_congr; [done|apply addrs_color].
      * left. by destruct d.
    + eexists _, (S n), K'. split_and!; [by rewrite ptr_nd|done|exact Hr2|done|left; eauto| |].
      * apply plug_addrs, addrs_nd_congr; [done|apply addrs_color].
      * destruct Hred as [->|]; [by right|done].
  - rewrite bool_decide_eq_false_2 by done.
    destruct (erase_far_run s1 K' d p c' m y r t n c1 c2) as (s2 & m' & y' & r' & c'' & E2 & Hr2 & Hm' & Hr' & Ha2);
      [done..|destruct c1, c2; naive_solver|].
    rewrite (bind_done _ _ _ _ _ E2). clear E2.
    apply rep_up in Hr2. run_get Hr2. rewrite cell_color by (exact (rep_par _ _ _ Hr2)).
    apply rep_down_other in Hr2. run_with (set_color_run _ _ _ _ c' _ _ _ Hr2) Hr3.
    apply rep_up in Hr3. rewrite nd_opp in Hr3. run_with (set_black_run _ _ _ _ _ _ _ Hr3) Hr4.
    apply rep_down_other in Hr4. run_get Hr4. rewrite child_opp_cell.
    apply rep_down_other in Hr4. run_with (blacken_sub_run _ _ _ Hr4) Hr5.
    apply rep_up in Hr5. rewrite nd_opp in Hr5. apply rep_up in Hr5. rewrite nd_opp in Hr5.
    run_with (rotate_run _ _ _ _ _ _ _ _ _ _ Hr5) Hr6.
    assert (rb Black (S n) (blacken r')) as Hb by (inversion Hr'; subst; simpl; eauto).
    apply rep_plug in Hr6. eexists _, None. split; [done|].
    assert (∃ k, rb Black k (plug K' (nd d c' (nd d Black t p m') y' (blacken r')))) as [k Hk].
    { inversion HK1; subst; eapply plug_rb; try done; eauto. }
    eexists k, _. split_and!; [exact Hr6| |done|].
    + intros HL. assert (p ∈ addrs Leaf) as Hin; [|set_solver]. rewrite <- HL, addrs_plug, !addrs_nd. set_solver.
    + rewrite <- Ha1. simpl. apply plug_addrs. rewrite <- addrs_rotate.
      apply addrs_nd_congr; [done|]. rewrite <- Ha2. apply addrs_nd_congr; [done|apply addrs_blacken].
Qed.

(** ** The loop *)

Lemma path_root h rt f K p : repr_path h rt (f :: K) p → rt ∈ path_addrs (f :: K).
Proof.
  revert f p. induction K as [|g K IH]; intros f p; cbn -[path_addrs]; intros (_ & _ & H).
  - subst. simpl. set_solver.
  - apply (IH g) in H. simpl in *. set_solver.
Qed.
Lemma rep_root_ne s f K t : rep s (f :: K) t → root s ≠ ptr t.
Proof.
  intros [_ HK [Hnd Hg]]. apply path_root in HK. apply Forall_app in Hg as [_ Hg].
  pose proof (good_in _ _ Hg HK). apply NoDup_app in Hnd as (_ & Hd & _).
  destruct t as [|c l a r]; simpl; [done|]. intros E. apply (Hd a); [simpl; set_solver|]. by rewrite <- E.
Qed.

Lemma side_black s K d p c u t n :
  rep s (Frame d p c u :: K) t → rb_path (Frame d p c u :: K) (S n) Black →
  (if rb_left (cell d (par K) c (ptr t) (ptr u)) =? ptr t then L else R) = d.
Proof.
  intros Hr HK. destruct d; unfold cell; simpl; [by rewrite Z.eqb_refl|].
  rewrite (proj2 (Z.eqb_neq _ _)); [done|].
  assert (∃ cu, rb cu (S n) u) as [cu Hu] by (inversion HK; subst; eauto).
  destruct (rb_nd_inv cu (S n) L u Hu ltac:(lia)) as (m & y & r & ->). rewrite ptr_nd.
  apply not_eq_sym. by eapply rep_ptr_ne.
Qed.

Lemma erase_loop_run fuel s K t n :
  rep s K t → rb_path K (S n) Black → lacking n t →
  (length K < fuel)%nat ∨ root_color t = Red ∧ (0 < fuel)%nat →
  ∃ s' m T, (node ← erase_loop fuel (ptr t) (par K); unless_null node (rb_set_black node)) s =
      (Done tt, s') ∧ rep s' [] T ∧ rb Black m T ∧ addrs T = addrs (plug K t).
Proof.
  revert s K t n. induction fuel as [|fuel IH]; intros s K t n Hr HK Ht Hf; [lia|].
  cbn [erase_loop]. unfold mbind at 1, prog_bind at 1.
  rewrite (bind_done _ _ _ _ _ (black_node_run _ _ _ Hr)), (bind_done (readS root) _ s s _ eq_refl).
  destruct Ht as [Ht|[Hc Ht]].
  - rewrite (rb_root_color _ _ _ Ht). destruct K as [|[d p c u] K].
    + assert (root s = ptr t) as -> by (by destruct Hr). rewrite Z.eqb_refl. simpl.
      destruct (blacken_sub_run _ _ _ Hr) as (s' & E & Hr').
      exists s', n, (blacken t). split_and!; [done|done|by inversion Ht; subst; simpl; eauto|].
      apply addrs_blacken.
    + rewrite (proj2 (Z.eqb_neq _ _)) by (apply not_eq_sym; by eapply rep_root_ne). simpl.
      apply rep_up in Hr as Hp. run_get Hp. rewrite (side_black _ _ _ _ _ _ _ _ Hr HK).
      destruct (erase_turn_run s K d p c u t n Hr HK Ht) as (s1 & [[x q]|] & E & H).
      * rewrite (bind_done _ _ _ _ _ E). destruct H as (t' & n' & K' & -> & -> & Hr' & HK' & Ht' & Ha & Hm).
        destruct (IH s1 K' t' n' Hr' HK' Ht') as (s2 & m & T & E2 & H2).
        { rewrite (rb_root_color _ _ _ Ht) in Hf. destruct Hf as [Hf|[? _]]; [|done]. simpl in Hf.
          destruct Hm as [?| ->]; [right; split; [done|lia]|left; lia]. }
        exists s2, m, T. simpl in Ha. by rewrite <- Ha.
      * rewrite (bind_done _ _ _ _ _ E). destruct H as (m & T & HT & Hne & Hrb & Ha). simpl.
        assert (root s1 = ptr T) as -> by (by destruct HT).
        destruct (blacken_sub_run _ _ _ HT) as (s' & E' & Hr').
        exists s', m, (blacken T). split_and!; [done|done|by inversion Hrb; subst; simpl; eauto|].
        rewrite addrs_blacken. by simpl in Ha.
  - rewrite Hc. simpl. destruct (blacken_sub_run _ _ _ Hr) as (s' & E & Hr').
    destruct (plug_rb K (S n) Black _ Ht HK) as [m Hm].
    exists s', m, (plug K (blacken t)). split_and!; [done|by rewrite <- rep_plug|done|].
    apply plug_addrs, addrs_blacken.
Qed.

Lemma erase_color_run s K t c n :
  rep s K t → rb_path K (S n) Black → rb c n t →
  ∃ s' m T, __rb_erase_color (ptr t) (par K) s = (Done tt, s') ∧ rep s' [] T ∧ rb Black m T ∧
    addrs T = addrs (plug K t).
Proof.
  intros Hr HK Ht. unfold __rb_erase_color. rewrite (bind_done (readS heap_fuel) _ s s _ eq_refl).
  apply (erase_loop_run _ s K t n); [done|done|by eapply rb_lacking|left; by eapply rep_fuel].
Qed.

(** ** Addresses in order *)

Fixpoint before (K : path) : list Z :=
  match K with
  | [] => []
  | Frame L _ _ _ :: K => before K
  | Frame R a _ u :: K => before K ++ addrs u ++ [a]
  end.
Fixpoint after (K : path) : list Z :=
  match K with
  | [] => []
  | Frame L a _ u :: K => a :: addrs u ++ after K
  | Frame R _ _ _ :: K => after K
  end.

Lemma addrs_plug_eq K t : addrs (plug K t) = before K ++ addrs t ++ after K.
Proof.
  revert t. induction K as [|[[] a c u] K IH]; intros t; simpl; [by rewrite app_nil_r|..];
    rewrite IH; unfold nd; simpl; by rewrite <- !app_assoc.
Qed.
Lemma plug_app K1 K2 t : plug (K1 ++ K2) t = plug K2 (plug K1 t).
Proof. revert t. induction K1 as [|f K1 IH]; intros t; simpl; [done|]. apply IH. Qed.
Lemma rep_app s K1 K2 t : rep s (K1 ++ K2) t ↔ rep s K2 (plug K1 t).
Proof. by rewrite rep_plug, plug_app, <- rep_plug. Qed.
Lemma find_addr x T : x ∈ addrs T → ∃ K c l r, T = plug K (Node c l x r).
Proof.
  assert (∀ K, x ∈ addrs T → ∃ K' c l r, plug K T = plug K' (Node c l x r)) as H; [|apply (H [])].
  induction T as [|c l IHl a r IHr]; intros K; simpl; [set_solver|].
  intros [Hx|[->|Hx]%elem_of_cons]%elem_of_app; [|eauto|].
  - apply (IHl (Frame L a c r :: K) Hx).
  - apply (IHr (Frame R a c l :: K) Hx).
Qed.

Lemma rb_plug_inv K m t : rb Black m (plug K t) → ∃ n c, rb c n t ∧ rb_path K n c.
Proof.
  revert t. induction K as [|[d a c u] K IH]; intros t; simpl; [eauto|].
  intros (n & c' & Ht & HK)%IH. destruct c.
  - assert (c' = Red) as -> by (apply rb_root_color in Ht; by destruct d).
    apply rb_red_inv in Ht as [? ?]. eauto.
  - assert (c' = Black) as -> by (apply rb_root_color in Ht; by destruct d).
    destruct n as [|n]; [destruct d; inversion Ht|]. apply rb_black_inv in Ht as (c1 & c2 & ? & ?). eauto.
Qed.
Lemma rb_path_rename K2 d a b c u K n c' :
  rb_path (K2 ++ Frame d a c u :: K) n c' → rb_path (K2 ++ Frame d b c u :: K) n c'.
Proof.
  revert n c'. induction K2 as [|f K2 IH]; intros n c'; simpl; inversion 1; subst; eauto.
Qed.

(** ** Taking a node out *)

(** A node is unlinked, with its only subtree in its place. *)
Lemma unlink_run s K d c x t s1 :
  rep s K (nd d c Leaf x t) → s1 = RbRoot (hang t (par K) (nodes s)) (root s) →
  repr_path (nodes s1) (root s1) K x ∧ rep (hook K (ptr t) s1) K t.
Proof.
  intros [Ht HK Hown] ->. apply repr_nd in Ht as (Hx & _ & Ht). rewrite ptr_nd in HK.
  assert (owned (x :: addrs t ++ path_addrs K)) as Hown'.
  { revert Hown. by rewrite addrs_nd. }
  pose proof Hown' as [Hnd Hg]. apply NoDup_cons in Hnd as [Hout Hnd].
  apply NoDup_app in Hnd as (NDt & Hsep & NDK).
  apply not_elem_of_app in Hout as [Hxt HxK].
  assert (repr_path (nodes (RbRoot (hang t (par K) (nodes s)) (root s))) (root s) K x) as HK1.
  { eapply repr_path_frame; [done|]. intros b Hb. apply hang_out. sep. }
  split; [done|]. constructor.
  - eapply repr_frame; [by apply (hang_repr t x (par K) (nodes s))|]. intros b Hb.
    apply hook_out, par_out; [sep|]. eapply (good_in (x :: addrs t ++ path_addrs K)); [done|]. set_solver.
  - eapply (hook_repr _ _ x); [done|]. exact HK1.
  - destruct Hown' as [Hnd' Hg']. split; [by apply NoDup_cons in Hnd' as [_ ?]|by apply Forall_cons in Hg' as [_ ?]].
Qed.

Lemma erase_one_run s K d c x t :
  rep s K (nd d c Leaf x t) →
  ∃ s', erase_one x (ptr t) s = (Done (ptr t, par K, code c), s') ∧ rep s' K t.
Proof.
  intros Hr. destruct (unlink_run s K d c x t _ Hr eq_refl) as [HK1 Hr1].
  eexists. split; [|exact Hr1]. unfold erase_one. run_get Hr.
  pose proof (rep_par _ _ _ Hr) as Hp. pose proof (rep_good_addr _ _ _ _ _ _ _ Hr) as [Hx0 Hx4].
  rewrite cell_parent, cell_color by done. destruct Hr as [Ht HK [Hnd Hg]].
  apply repr_nd in Ht as (_ & _ & Ht). rewrite addrs_nd in Hg, Hnd.
  rewrite <- app_comm_cons in Hnd, Hg. sep_facts.
  rewrite (bind_done _ _ _ _ _ (hang_run s x (par K) t Ht Hx4 Hp ltac:(done))).
  by rewrite (bind_done _ _ _ _ _ (relink_run _ K L x (ptr t) HK1 ltac:(lia) ltac:(done) ltac:(done))).
Qed.

(** The leftmost node of a subtree. *)
Definition lefts (K : path) : Prop := Forall (λ f, f_side f = L) K.
Lemma left_decomp t :
  t ≠ Leaf → ∃ K c y r, t = plug K (Node c Leaf y r) ∧ lefts K.
Proof.
  induction t as [|c l IH a r _]; [done|]. intros _. destruct l as [|cl ll al rl].
  { exists [], c, a, r. split; [done|constructor]. }
  destruct IH as (K & c' & y & r' & -> & HK); [done|]. exists (K ++ [Frame L a c r]), c', y, r'.
  rewrite plug_app. split; [done|]. apply Forall_app. by repeat constructor.
Qed.
Lemma lefts_before K : lefts K → before K = [].
Proof. induction 1 as [|[[] a c u] K]; [done|done|done]. Qed.

Lemma leftmost_run fuel s K K2 c y r :
  rep s K (plug K2 (Node c Leaf y r)) → lefts K2 → (length K2 < fuel)%nat →
  leftmost fuel (ptr (plug K2 (Node c Leaf y r))) s = (Done y, s).
Proof.
  revert fuel K. induction K2 as [|f K2 IH] using rev_ind; intros fuel K Hr HK Hf.
  - destruct fuel as [|fuel]; [simpl in Hf; lia|]. simpl in *.
    rewrite (node_nd _ _ _ _ L) in Hr. by run_get Hr.
  - apply Forall_app in HK as [HK2 Hl]. apply Forall_cons in Hl as [Hl _]. destruct f as [d a cf u].
    simpl in Hl. subst d. rewrite length_app in Hf. simpl in Hf.
    destruct fuel as [|fuel]; [lia|]. rewrite plug_app in Hr |- *.
    cbn [plug f_side f_color f_addr f_other leftmost] in *. rewrite ptr_nd. run_get Hr.
    apply rep_down in Hr. rewrite left_cell.
    specialize (IH fuel _ Hr HK2 ltac:(lia)).
    destruct (plug K2 (Node c Leaf y r)) as [|ct lt at_ rt] eqn:E.
    { assert (y ∈ addrs (plug K2 (Node c Leaf y r))) as Hy; [|rewrite E in Hy; set_solver].
      rewrite addrs_plug_eq. set_solver. }
    simpl in IH |- *. rewrite (node_nd _ _ _ _ L) in Hr.
    rewrite (rep_nonzero _ _ _ _ _ _ _ Hr). exact IH.
Qed.

(** Another node takes the place of a node. *)
Lemma replace_run s K c l x r y :
  rep s K (Node c l x r) → good y → y ∉ addrs (Node c l x r) ++ path_addrs K → is_Some (nodes s !! y) →
  l ≠ Leaf →
  ∃ s', rep s' K (Node c l y r) ∧ ∀ A (k : rbprog A),
    (o ← rb_get x;
     rb_upd y (λ _, RbNode (rb_parent_color o) (rb_right o) (rb_left o));;
     relink L (rb_parent o) x y;;
     rb_set_parent (rb_left o) y;;
     unless_null (rb_right o) (rb_set_parent (rb_right o) y);;
     k) s = k s'.
Proof.
  intros Hr Hy Hout [n Hn] Hl. change (Node c l x r) with (nd L c l x r) in *.
  change (Node c l y r) with (nd L c l y r). pose proof (get_run _ _ _ _ _ _ _ Hr) as Eget.
  pose proof (rep_par _ _ _ Hr) as Hp.
  destruct Hr as [Ht HK Hown]. apply repr_nd in Ht as (Hx & Hlr & Hrr). rewrite ptr_nd in HK.
  assert (owned (x :: y :: addrs l ++ addrs r ++ path_addrs K)) as [Hnd Hg].
  { destruct Hown as [Hnd Hg]. revert Hnd Hg Hout. rewrite addrs_nd. simpl. rewrite <- app_assoc.
    intros Hnd Hg Hout. sep_facts. split.
    - apply NoDup_cons. split; [set_solver|]. apply NoDup_cons. split; [set_solver|].
      rewrite !NoDup_app. set_solver.
    - apply Forall_cons. split; [done|]. apply Forall_cons. split; [done|]. by rewrite !Forall_app. }
  sep_facts. assert (good x) as [Hx0 Hx4] by done. assert (good y) as [Hy0 Hy4] by done.
  set (s1 := RbRoot (<[y := cell L (par K) c (ptr l) (ptr r)]> (nodes s)) (root s)).
  set (s2 := hook K y s1). set (s3 := RbRoot (hang l y (nodes s2)) (root s2)).
  set (s4 := RbRoot (hang r y (nodes s3)) (root s3)).
  assert (repr_path (nodes s1) (root s1) K x) as HK1.
  { eapply repr_path_frame; [done|]. intros b Hb. apply lookup_insert_ne. sep. }
  assert (∀ b, b ≠ y → b ≠ par K → nodes s2 !! b = nodes s !! b) as Hout2.
  { intros b ? ?. unfold s2. rewrite hook_out by done. by apply lookup_insert_ne. }
  assert (repr (nodes s2) x l) as Hl2.
  { eapply repr_frame; [exact Hlr|]. intros b Hb. apply Hout2; sep. }
  assert (repr (nodes s3) x r) as Hr3.
  { eapply repr_frame; [exact Hrr|]. intros b Hb. simpl. rewrite hang_out by sep. apply Hout2; sep. }
  exists s4. split.
  - constructor.
    + apply repr_nd. split_and!.
      * simpl. rewrite !hang_out by sep. unfold s2. rewrite hook_out by sep. apply lookup_insert_eq.
      * eapply repr_frame; [by apply (hang_repr l x y (nodes s2))|]. intros b Hb. simpl.
        apply hang_out. sep.
      * by apply (hang_repr r x y (nodes s3)).
    + rewrite ptr_nd. eapply repr_path_frame; [by apply (hook_repr K y x s1)|].
      intros b Hb. simpl. rewrite !hang_out by sep. done.
    + rewrite addrs_nd. simpl. split.
      * apply NoDup_cons. split; [set_solver|]. rewrite !NoDup_app. set_solver.
      * apply Forall_cons. split; [done|]. by rewrite !Forall_app.
  - intros A k. rewrite (bind_done _ _ _ _ _ Eget), (bind_done _ _ _ _ _ (rb_upd_run _ _ _ _ Hn)).
    rewrite cell_parent by done. fold s1.
    change (RbRoot (<[y := _]> _) _) with s1. rewrite (bind_done _ _ s1 s2 tt) by (apply relink_run; [done|lia|done|done]).
    pose proof (hang_run s2 x y l Hl2 Hx4 Hy4 ltac:(done)) as El.
    assert (unless_null (ptr l) (rb_set_parent (ptr l) y) = rb_set_parent (ptr l) y) as Enn.
    { unfold unless_null. rewrite (proj2 (Z.eqb_neq _ 0)); [done|]. destruct l; [done|]. simpl in *. sep_facts.
      match goal with H : good a |- _ => destruct H; lia end. }
    rewrite Enn in El. change (rb_left (cell L _ _ _ _)) with (ptr l).
    change (rb_right (cell L _ _ _ _)) with (ptr r).
    rewrite (bind_done _ _ _ _ _ El). fold s3.
    by rewrite (bind_done _ _ _ _ _ (hang_run s3 x y r Hr3 Hx4 Hy4 ltac:(done))).
Qed.

Lemma rep_dom s K t a : rep s K t → a ∈ addrs t ++ path_addrs K → is_Some (nodes s !! a).
Proof.
  rewrite rep_plug, <- addrs_plug. intros [H _ _] Ha. by eapply repr_dom.
Qed.

(** Every update is to a node there is. *)
Lemma hang_dom t q s p : repr (nodes s) p t → dom (hang t q (nodes s)) = dom (nodes s).
Proof.
  destruct t as [|c l a r]; simpl; [done|]. intros (Ha & _). apply dom_insert_lookup_L. by eexists.
Qed.
Lemma hook_dom K x p s :
  repr_path (nodes s) (root s) K p → dom (nodes (hook K x s)) = dom (nodes s).
Proof. destruct K; simpl; [done|]. intros (Ha & _). apply dom_insert_lookup_L. by eexists. Qed.

Lemma hook_run s f K p x :
  repr_path (nodes s) (root s) (f :: K) p →
  rb_upd (f_addr f) (set_child (f_side f) x) s = (Done tt, hook (f :: K) x s).
Proof. intros (Ha & _). by rewrite (rb_upd_run _ _ _ _ Ha), set_child_cell. Qed.

Lemma unhook_run s K2 x c l K p v y :
  repr_path (nodes s) (root s) (K2 ++ Frame R x c l :: K) p → lefts K2 →
  NoDup (path_addrs (K2 ++ Frame R x c l :: K)) →
  (if par (K2 ++ Frame R x c l :: K) =? x
   then rb_upd (par (K2 ++ Frame R x c l :: K)) (set_child R v);; mret y
   else rb_upd (par (K2 ++ Frame R x c l :: K)) (set_child L v);;
        mret (par (K2 ++ Frame R x c l :: K))) s =
  (Done (par (K2 ++ Frame R y c l :: K)), hook (K2 ++ Frame R x c l :: K) v s).
Proof.
  intros HK HK2 Hnd. destruct K2 as [|f K2]; cbn [app] in *.
  - pose proof (hook_run _ _ _ _ v HK) as E. cbn [par f_addr f_side] in *.
    by rewrite Z.eqb_refl, (bind_done _ _ _ _ _ E).
  - pose proof (hook_run _ _ _ _ v HK) as E. apply Forall_cons in HK2 as [Hf _]. rewrite Hf in E.
    cbn [par]. rewrite (proj2 (Z.eqb_neq _ _)); [by rewrite (bind_done _ _ _ _ _ E)|].
    cbn [path_addrs] in Hnd. apply NoDup_cons in Hnd as [Hnd _]. intros Ex. apply Hnd. rewrite Ex.
    apply elem_of_app. right. clear. induction K2 as [|g K2 IH]; simpl; set_solver.
Qed.

Lemma erase_two_run s K c l x r :
  rep s K (Node c l x r) → l ≠ Leaf → r ≠ Leaf →
  ∃ s' K2 cs y tr, erase_two x s = (Done (ptr tr, par (K2 ++ Frame R y c l :: K), code cs), s') ∧
    rep s' (K2 ++ Frame R y c l :: K) tr ∧ r = plug K2 (Node cs Leaf y tr) ∧ lefts K2.
Proof.
  intros Hr Hl Hrr. destruct (left_decomp r Hrr) as (K2 & cs & y & tr & -> & HK2).
  change (Node c l x ?r) with (nd L c l x r) in Hr. pose proof (get_run _ _ _ _ _ _ _ Hr) as Eget.
  apply rep_down_other in Hr as Hr1. simpl opp in Hr1.
  assert (rep s (K2 ++ Frame R x c l :: K) (nd L cs Leaf y tr)) as Hy by (by apply rep_app).
  set (KK := K2 ++ Frame R x c l :: K) in *.
  destruct (unlink_run s KK L cs y tr _ Hy eq_refl) as [HK1 Hu].
  set (s1 := RbRoot (hang tr (par KK) (nodes s)) (root s)) in *. set (s2 := hook KK (ptr tr) s1) in *.
  pose proof (rep_par _ _ _ Hy) as Hp. pose proof (rep_good_addr _ _ _ _ _ _ _ Hy) as Hgy.
  assert (repr (nodes s) y tr ∧ Forall good (addrs tr)) as [Htr Hgtr].
  { destruct Hy as [H _ [_ Hg]]. apply repr_nd in H as (_ & _ & H). rewrite addrs_nd in Hg.
    simpl in Hg. sep_facts. done. }
  assert (dom (nodes s2) = dom (nodes s)) as Hdom.
  { unfold s2. rewrite (hook_dom _ _ y) by done. by eapply hang_dom. }
  assert (rep s2 K (Node c l x (plug K2 tr))) as Hu2 by (by apply rep_app, rep_up in Hu).
  destruct (replace_run s2 K c l x (plug K2 tr) y Hu2) as (s3 & Hr3 & Hrun); [done| | |done|].
  { destruct Hy as [_ _ [Hnd _]]. rewrite addrs_nd in Hnd. simpl in Hnd.
    apply NoDup_cons in Hnd as [Hnd _]. rewrite <- addrs_plug in *. unfold KK in Hnd.
    by rewrite plug_app in Hnd. }
  { apply elem_of_dom. rewrite Hdom. apply elem_of_dom. eapply rep_dom; [exact Hy|].
    rewrite addrs_nd. set_solver. }
  exists s3, K2, cs, y, tr. split_and!; [|by apply rep_app, (rep_down _ _ R)|done|done].
  unfold erase_two. rewrite (bind_done _ _ _ _ _ Eget), (bind_done (readS heap_fuel) _ s s _ eq_refl).
  rewrite right_cell. rewrite (bind_done _ _ _ _ _ (leftmost_run (heap_fuel s) s _ K2 _ _ _ Hr1 HK2
    ltac:(apply rep_fuel in Hy; unfold KK in Hy; rewrite length_app in Hy; lia))).
  run_get Hy. rewrite right_cell, cell_parent, cell_color by done.
  rewrite (bind_done _ _ _ _ _ (hang_run s y (par KK) tr Htr ltac:(apply Hgy) Hp Hgtr)). fold s1.
  pose proof (unhook_run s1 K2 x c l K y (ptr tr) y HK1 HK2) as Epar. fold KK s2 in Epar.
  rewrite (bind_done _ _ _ _ _ (Epar ltac:(destruct Hy as [_ _ [Hnd _]]; by apply NoDup_app in Hnd as (_ & _ & ?)))).
  by rewrite Hrun.
Qed.

(** ** The whole deletion *)

Lemma filter_mid (A B : list Z) x :
  NoDup (A ++ x :: B) → filter (λ a, a ≠ x) (A ++ x :: B) = A ++ B.
Proof.
  intros Hnd. apply NoDup_app in Hnd as (_ & Hd & [Hx _]%NoDup_cons).
  rewrite filter_app, filter_cons_False by (intros H; by apply H).
  assert (∀ l : list Z, x ∉ l → filter (λ a, a ≠ x) l = l) as Hid.
  { intros l. induction l as [|a l IH]; [done|]. rewrite not_elem_of_cons. intros [? ?].
    rewrite filter_cons_True by congruence. by rewrite IH. }
  rewrite !Hid; [done|done|]. intros Hin. apply (Hd x Hin). set_solver.
Qed.

Lemma rep_ptr_nonzero s K t : rep s K t → t ≠ Leaf → (ptr t =? 0) = false.
Proof. intros Hr Hne. destruct t as [|c l a r]; [done|]. exact (rep_nonzero _ _ L _ _ _ _ Hr). Qed.

(** Balance after a node of colour [c] has given way to its subtree. *)
Lemma rebalance_run K d c x t n c' s1 :
  rb c' n (nd d c Leaf x t) → rb_path K n c' → rep s1 K t →
  ∃ s' m T, (if code c =? RB_BLACK then __rb_erase_color (ptr t) (par K) else mret tt) s1 =
      (Done tt, s') ∧ rep s' [] T ∧ rb Black m T ∧ addrs T = addrs (plug K t).
Proof.
  intros Ht HK Hr. destruct c.
  - assert (c' = Red) as -> by (apply rb_root_color in Ht; by destruct d).
    apply rb_red_inv in Ht as [_ Ht]. apply rb_path_black in HK.
    destruct (plug_rb K n Black t Ht HK) as [m Hm]. apply rep_plug in Hr.
    exists s1, m, (plug K t). by split_and!.
  - assert (c' = Black) as -> by (apply rb_root_color in Ht; by destruct d).
    destruct n as [|n]; [destruct d; inversion Ht|]. apply rb_black_inv in Ht as (c1 & c2 & _ & Ht).
    destruct (erase_color_run s1 K t c2 n Hr HK Ht) as (s' & m & T & H). by exists s', m, T.
Qed.

Lemma erase_run s T m x :
  rep s [] T → rb Black m T → x ∈ addrs T →
  ∃ s' m' T', rb_erase x s = (Done tt, s') ∧ rep s' [] T' ∧ rb Black m' T' ∧
    addrs T' = filter (λ a, a ≠ x) (addrs T).
Proof.
  intros Hr HT Hx. destruct (find_addr x T Hx) as (K & c & l & r & ->).
  assert (NoDup (addrs (plug K (Node c l x r)))) as Hnd.
  { destruct Hr as [_ _ [Hnd _]]. by rewrite app_nil_r in Hnd. }
  apply rep_plug in Hr. destruct (rb_plug_inv _ _ _ HT) as (n & c' & Ht & HK).
  assert (filter (λ a, a ≠ x) (addrs (plug K (Node c l x r))) =
    before K ++ addrs l ++ addrs r ++ after K) as ->.
  { revert Hnd. rewrite addrs_plug_eq. cbn [addrs].
    replace (before K ++ (addrs l ++ x :: addrs r) ++ after K)
      with ((before K ++ addrs l) ++ x :: addrs r ++ after K) by (by rewrite <- !app_assoc).
    intros Hnd. by rewrite filter_mid, <- app_assoc. }
  pose proof (get_run s K L c l x r Hr) as Eget. unfold rb_erase.
  rewrite (bind_done _ _ _ _ _ Eget), left_cell, right_cell.
  destruct (decide (l = Leaf)) as [->|Hl]; [|destruct (decide (r = Leaf)) as [->|Hrr]].
  - simpl. destruct (erase_one_run s K L c x r Hr) as (s1 & E & Hr1). rewrite (bind_done _ _ _ _ _ E).
    destruct (rebalance_run K L c x r n c' s1 Ht HK Hr1) as (s' & m' & T' & H1 & H2 & H3 & H4).
    exists s', m', T'. by rewrite H4, addrs_plug_eq.
  - assert (ptr l =? 0 = false) as ->.
    { eapply rep_ptr_nonzero; [exact (rep_down _ _ L _ _ _ _ Hr)|done]. }
    simpl. destruct (erase_one_run s K R c x l Hr) as (s1 & E & Hr1). rewrite (bind_done _ _ _ _ _ E).
    destruct (rebalance_run K R c x l n c' s1 Ht HK Hr1) as (s' & m' & T' & H1 & H2 & H3 & H4).
    exists s', m', T'. by rewrite H4, addrs_plug_eq.
  - assert (ptr l =? 0 = false) as ->.
    { eapply rep_ptr_nonzero; [exact (rep_down _ _ L _ _ _ _ Hr)|done]. }
    assert (ptr r =? 0 = false) as ->.
    { eapply rep_ptr_nonzero; [exact (rep_down_other _ _ L _ _ _ _ Hr)|done]. }
    destruct (erase_two_run s K c l x r Hr Hl Hrr) as (s1 & K2 & cs & y & tr & E & Hr1 & -> & HK2).
    rewrite (bind_done _ _ _ _ _ E).
    destruct (rb_plug_inv (K2 ++ Frame R x c l :: K) m (Node cs Leaf y tr)) as (n2 & c2 & Hy & HKK).
    { rewrite plug_app. simpl. exact HT. }
    apply (rb_path_rename _ _ _ y) in HKK.
    destruct (rebalance_run _ L cs y tr n2 c2 s1 Hy HKK Hr1) as (s' & m' & T' & H1 & H2 & H3 & H4).
    exists s', m', T'. split_and!; [done..|]. rewrite H4, plug_app. simpl. rewrite addrs_plug_eq.
    unfold nd. simpl. rewrite !addrs_plug_eq, (lefts_before _ HK2). simpl. rewrite <- !app_assoc. simpl. by rewrite <- !app_assoc.
Qed.
