(* ===== verification/FioRbtreeSpec.v ===== *)
(** * fio: red-black trees as ordered sequences

    What the tree promises its users: a tree is a sequence of nodes, which a new
    node enters at the place where it was linked and from which a node can be
    taken; [rb_first] and [rb_next] walk along it, and no way down is longer than
    twice the logarithm of the number of nodes. *)
From Stdlib Require Import ZArith Lia.
From stdpp Require Import base numbers gmap list.
From S2P Require Import Prelude FioRbtree FioRbtreeShape FioRbtreeInsert FioRbtreeErase.

(** The state holds a balanced tree with the nodes [l], in order. *)
Definition is_rbtree (s : rb_root) (l : list Z) : Prop :=
  ∃ T n, rep s [] T ∧ rb Black n T ∧ addrs T = l.

(** The place of a new node in a tree: the link that the search ends at, with the
    nodes before and after. *)
Definition is_gap (s : rb_root) (parent : Z) (at_ : link) (l1 l2 : list Z) : Prop :=
  ∃ T n K, rep s [] T ∧ rb Black n T ∧ T = plug K Leaf ∧
    parent = par K ∧ at_ = link_of K ∧ l1 = before K ∧ l2 = after K.

Lemma is_rbtree_nodup s l : is_rbtree s l → NoDup l ∧ Forall good l.
Proof. intros (T & n & [_ _ H] & _ & <-). simpl in H. by rewrite app_nil_r in H. Qed.
Lemma is_rbtree_dom s l a : is_rbtree s l → a ∈ l → is_Some (nodes s !! a).
Proof. intros (T & n & Hr & _ & <-) Ha. eapply rep_dom; [done|]. set_solver. Qed.
Lemma is_rbtree_empty h : is_rbtree (RbRoot h 0) [].
Proof.
  exists Leaf, 0%nat. split; [|done]. constructor; simpl; [done|done|]. by split; constructor.
Qed.
Lemma is_rbtree_root s l : is_rbtree s l → (root s = 0 ↔ l = []).
Proof.
  intros (T & n & Hr & _ & <-). assert (root s = ptr T) as -> by (by destruct Hr). split.
  - destruct T as [|c t a u]; [done|]. intros E. simpl in E.
    apply (rep_good_addr _ _ L) in Hr as [? _]. lia.
  - destruct T; simpl; [done|]. intros E. by apply app_nil in E as [_ ?].
Qed.

(** The heap may change outside of the tree. *)
Lemma is_rbtree_frame s h l :
  is_rbtree s l → (∀ a, a ∈ l → h !! a = nodes s !! a) → is_rbtree (RbRoot h (root s)) l.
Proof.
  intros (T & n & [H1 H2 H3] & Hrb & <-) Hh. exists T, n. split; [|done].
  constructor; [|done|done]. by eapply repr_frame.
Qed.

(** ** The nodes of the heap stay *)

Lemma keeps_upd D a f : keeps (λ s, dom (nodes s) = D) (rb_upd a f).
Proof.
  intros s Hs. unfold rb_upd, rb_get, mbind, prog_bind. destruct (nodes s !! a) eqn:E; simpl; [|exact Hs].
  rewrite <- Hs. apply dom_insert_lookup_L. by eexists.
Qed.
Lemma keeps_get D a : keeps (λ s, dom (nodes s) = D) (rb_get a).
Proof. intros s Hs. unfold rb_get. by destruct (nodes s !! a). Qed.
Lemma keeps_root D a : keeps (λ s, dom (nodes s) = D) (set_root a).
Proof. by intros s Hs. Qed.
Lemma keeps_read {A} D (f : rb_root → A) : keeps (F:=fault) (λ s, dom (nodes s) = D) (readS f).
Proof. by intros s Hs. Qed.
#[local] Hint Resolve keeps_upd keeps_get keeps_root keeps_read : keepdb.

Section keeps_dom.
Context (D : gset Z).
Abbreviation kept m := (keeps (λ s, dom (nodes s) = D) m).

Lemma keeps_rotate d a : kept (rotate d a).
Proof.
  unfold rotate, unless_null, relink, rb_set_parent. solve_keeps.
Qed.
#[local] Hint Resolve keeps_rotate : keepdb.
Lemma keeps_insert_color x : kept (rb_insert_color x).
Proof.
  assert (∀ fuel x, kept (insert_loop fuel x)).
  { intros fuel. induction fuel as [|fuel IH]; intros y; simpl; [apply keeps_leave|].
    unfold insert_turn, red_node, rb_set_black, rb_set_red. solve_keeps. }
  unfold rb_insert_color, rb_set_black. solve_keeps.
Qed.
Lemma keeps_erase x : kept (rb_erase x).
Proof.
  assert (∀ fuel x y, kept (erase_loop fuel x y)).
  { intros fuel. induction fuel as [|fuel IH]; intros y z; simpl; [apply keeps_leave|].
    unfold erase_turn, erase_sibling, erase_far, both_black, black_node, unless_null, rb_set_black,
      rb_set_red, rb_set_color. solve_keeps. }
  assert (∀ fuel x, kept (leftmost fuel x)).
  { intros fuel. induction fuel as [|fuel IH]; intros y; simpl; [apply keeps_leave|]. solve_keeps. }
  unfold rb_erase, erase_one, erase_two, __rb_erase_color, unless_null, relink, rb_set_parent,
    rb_set_black. solve_keeps.
Qed.
Lemma keeps_link x p l : kept (rb_link_node x p l).
Proof. unfold rb_link_node, set_link. solve_keeps. Qed.
End keeps_dom.

Lemma keeps_dom_run {A} (m : rbprog A) s x s' :
  (∀ D, keeps (λ s, dom (nodes s) = D) m) → m s = (Done x, s') → dom (nodes s') = dom (nodes s).
Proof. intros Hm E. specialize (Hm (dom (nodes s)) s eq_refl). by rewrite E in Hm. Qed.

(** ** Insertion and deletion *)

Lemma rb_insert_spec s parent at_ l1 l2 x :
  is_gap s parent at_ l1 l2 → good x → x ∉ l1 ++ l2 → is_Some (nodes s !! x) →
  ∃ s', (rb_link_node x parent at_;; rb_insert_color x) s = (Done tt, s') ∧
    is_rbtree s' (l1 ++ x :: l2) ∧ dom (nodes s') = dom (nodes s).
Proof.
  intros (T & n & K & Hr & Hrb & -> & -> & -> & -> & ->) Hx Hout Hin. apply rep_plug in Hr.
  destruct (rb_plug_inv _ _ _ Hrb) as (n' & c & HL & HK). inversion HL; subst.
  destruct (link_run s K x Hr Hx) as (s1 & E1 & Hr1); [|done|].
  { intros H. apply Hout. rewrite <- (app_nil_l (path_addrs K)) in H.
    change [] with (addrs Leaf) in H. rewrite <- addrs_plug, addrs_plug_eq in H. done. }
  destruct (insert_color_run s1 K Leaf x Leaf 0 Hr1) as (s2 & m & T & E2 & HT & Hrb2 & Ha); [eauto..|].
  exists s2. assert ((rb_link_node x (par K) (link_of K);; rb_insert_color x) s = (Done tt, s2)) as E.
  { by rewrite (bind_done _ _ _ _ _ E1). }
  split_and!; [done| |].
  - exists T, m. split_and!; [done..|]. by rewrite Ha, addrs_plug_eq.
  - eapply keeps_dom_run; [|exact E]. intros D. apply keeps_bind; [apply keeps_link|].
    intros _. apply keeps_insert_color.
Qed.

Lemma rb_erase_spec s l x :
  is_rbtree s l → x ∈ l →
  ∃ s', rb_erase x s = (Done tt, s') ∧ is_rbtree s' (filter (λ a, a ≠ x) l) ∧
    dom (nodes s') = dom (nodes s).
Proof.
  intros (T & n & Hr & Hrb & <-) Hx.
  destruct (erase_run s T n x Hr Hrb Hx) as (s' & m & T' & E & Hr' & Hrb' & Ha).
  exists s'. split_and!; [done|by exists T', m|]. eapply keeps_dom_run; [|exact E].
  intros D. apply keeps_erase.
Qed.

(** ** Walking along the tree *)

Lemma plug_ptr s K t : rep s K t → t ≠ Leaf → (ptr t =? 0) = false.
Proof. apply rep_ptr_nonzero. Qed.

Lemma leftmost_first s K t :
  rep s K t → t ≠ Leaf → leftmost (heap_fuel s) (ptr t) s = (Done (hd 0 (addrs t)), s).
Proof.
  intros Hr Hne. destruct (left_decomp t Hne) as (K2 & c & y & r & -> & HK2).
  rewrite (leftmost_run _ s K K2 c y r Hr HK2).
  - by rewrite addrs_plug_eq, (lefts_before _ HK2).
  - apply rep_app, rep_fuel in Hr. rewrite length_app in Hr. lia.
Qed.

Lemma rb_first_spec s l : is_rbtree s l → rb_first s = (Done (hd 0 l), s).
Proof.
  intros (T & n & Hr & _ & <-). unfold rb_first.
  rewrite (bind_done (readS root) _ s s _ eq_refl).
  assert (root s = ptr T) as -> by (by destruct Hr). destruct (decide (T = Leaf)) as [->|Hne]; [done|].
  rewrite (plug_ptr _ _ _ Hr Hne), (bind_done (readS heap_fuel) _ s s _ eq_refl).
  by eapply leftmost_first.
Qed.

Lemma up_right_run fuel s K t :
  rep s K t → t ≠ Leaf → (length K < fuel)%nat →
  up_right fuel (ptr t) s = (Done (hd 0 (after K)), s).
Proof.
  revert fuel t. induction K as [|[d a c u] K IH]; intros fuel t Hr Hne Hf;
    (destruct fuel as [|fuel]; [simpl in Hf; lia|]); destruct t as [|ct l x r]; try done;
    rewrite (node_nd _ _ _ _ L) in Hr |- *; rewrite ptr_nd; cbn [up_right]; run_get Hr;
    rewrite cell_parent by (exact (rep_par _ _ _ Hr)); cbn [par f_addr].
  - done.
  - apply rep_up in Hr as Hp. rewrite (rep_nonzero _ _ _ _ _ _ _ Hp). run_get Hp.
    destruct d; unfold cell; cbn [rb_right]; rewrite ?ptr_nd.
    + rewrite (proj2 (Z.eqb_neq _ _)); [done|]. apply rep_down_other in Hp.
      apply not_eq_sym. by eapply rep_ptr_ne.
    + rewrite Z.eqb_refl. rewrite <- (ptr_nd R c (nd L ct l x r) a u).
      rewrite IH; [done|done|done|simpl in Hf; lia].
Qed.

(** A node has one place in a sequence. *)
Lemma nodup_split (A B A' B' : list Z) x :
  A ++ x :: B = A' ++ x :: B' → NoDup (A ++ x :: B) → B' = B.
Proof.
  revert A'. induction A as [|a A IH]; intros [|a' A']; simpl; intros [= E] Hnd; [done|..].
  - subst. apply NoDup_cons in Hnd as [Hnd _]. set_solver.
  - subst. apply NoDup_cons in Hnd as [Hnd _]. set_solver.
  - apply NoDup_cons in Hnd as [_ Hnd]. eauto.
Qed.

Lemma rb_next_spec s l1 x l2 : is_rbtree s (l1 ++ x :: l2) → rb_next x s = (Done (hd 0 l2), s).
Proof.
  intros (T & n & Hr & _ & Ha). destruct (find_addr x T) as (K & c & l & r & ->).
  { rewrite Ha. set_solver. }
  assert (l2 = addrs r ++ after K) as ->.
  { rewrite addrs_plug_eq in Ha. cbn [addrs] in Ha. destruct Hr as [_ _ [Hnd _]]. simpl in Hnd.
    rewrite app_nil_r, addrs_plug_eq in Hnd. cbn [addrs] in Hnd.
    revert Ha Hnd. rewrite <- app_assoc, <- app_comm_cons, app_assoc. intros Ha Hnd.
    by eapply nodup_split. }
  apply rep_plug in Hr. rewrite (node_nd _ _ _ _ L) in Hr.
  unfold rb_next. run_get Hr. rewrite cell_parent, right_cell by (exact (rep_par _ _ _ Hr)).
  rewrite (proj2 (Z.eqb_neq _ _)).
  2:{ apply not_eq_sym, par_out.
      - destruct Hr as [_ _ [Hnd _]]. rewrite addrs_nd in Hnd. simpl in Hnd.
        apply NoDup_cons in Hnd as [Hnd _]. set_solver.
      - apply rep_good_addr in Hr as [? _]. lia. }
  rewrite (bind_done (readS heap_fuel) _ s s _ eq_refl).
  destruct (decide (r = Leaf)) as [->|Hne]; cbn [ptr].
  - cbn [addrs app]. rewrite Z.eqb_refl. rewrite <- (ptr_nd L c l x Leaf). apply up_right_run; [done|done|by eapply rep_fuel].
  - apply rep_down_other in Hr. rewrite (plug_ptr _ _ _ Hr Hne), (leftmost_first _ _ _ Hr Hne).
    destruct (addrs r) as [|a A] eqn:E; [|done]. destruct r; [done|]. by apply app_nil in E as [_ ?].
Qed.

(** The whole walk: from the first node on to the next, until there is none. *)
Fixpoint rb_walk (fuel : nat) (n : Z) : rbprog (list Z) :=
  match fuel with
  | O => leave OutOfFuel
  | S fuel => if n =? 0 then mret [] else n' ← rb_next n; rest ← rb_walk fuel n'; mret (n :: rest)
  end.

Lemma rb_walk_spec fuel s l1 l2 :
  is_rbtree s (l1 ++ l2) → (length l2 < fuel)%nat → rb_walk fuel (hd 0 l2) s = (Done l2, s).
Proof.
  revert l1 l2. induction fuel as [|fuel IH]; intros l1 l2 Hs Hf; [lia|].
  destruct l2 as [|x l2]; simpl; [done|].
  assert (x =? 0 = false) as ->.
  { apply is_rbtree_nodup in Hs as [_ Hg]. apply Z.eqb_neq. eapply good_in; [exact Hg|]. set_solver. }
  rewrite (bind_done _ _ _ _ _ (rb_next_spec s l1 x l2 Hs)).
  rewrite (cons_middle x l1), app_assoc in Hs.
  by rewrite (bind_done _ _ _ _ _ (IH _ l2 Hs ltac:(simpl in Hf; lia))).
Qed.

(** ** The claims *)

(** The search for the place [k]: down to a null link, with [k] nodes on the left. *)
Fixpoint gap_path (t : tree) (k : nat) (K : path) : path :=
  match t with
  | Leaf => K
  | Node c l a r =>
      if (k <=? length (addrs l))%nat then gap_path l k (Frame L a c r :: K)
      else gap_path r (k - length (addrs l) - 1) (Frame R a c l :: K)
  end.
Lemma gap_path_eq t k K :
  plug (gap_path t k K) Leaf = plug K t ∧
  ((k ≤ length (addrs t))%nat →
   before (gap_path t k K) = before K ++ take k (addrs t) ∧
   after (gap_path t k K) = drop k (addrs t) ++ after K).
Proof.
  revert k K. induction t as [|c l IHl a r IHr]; intros k K; simpl.
  - split; [done|]. intros Hk. destruct k; [|lia]. by rewrite app_nil_r.
  - destruct (Nat.leb_spec k (length (addrs l))) as [Hk|Hk].
    + destruct (IHl k (Frame L a c r :: K)) as [E H]. split; [done|]. intros _.
      destruct (H Hk) as [Hb Hf]. simpl in *. rewrite Hb, Hf.
      rewrite take_app_le, drop_app_le by done. by rewrite <- app_assoc.
    + destruct (IHr (k - length (addrs l) - 1)%nat (Frame R a c l :: K)) as [E H]. split; [done|].
      intros Hk2. rewrite length_app in Hk2. simpl in Hk2. destruct (H ltac:(lia)) as [Hb Hf].
      simpl in *. rewrite Hb, Hf, take_app_ge, drop_app_ge by lia.
      destruct (k - length (addrs l))%nat as [|j] eqn:Ej; [lia|]. simpl.
      rewrite Nat.sub_0_r. by rewrite <- !app_assoc.
Qed.

Lemma is_gap_exists s l k :
  is_rbtree s l → (k ≤ length l)%nat → ∃ parent at_, is_gap s parent at_ (take k l) (drop k l).
Proof.
  intros (T & n & Hr & Hrb & <-) Hk. destruct (gap_path_eq T k []) as [E H].
  destruct (H Hk) as [Hb Hf]. rewrite app_nil_r in Hf. simpl in *.
  exists (par (gap_path T k [])), (link_of (gap_path T k [])).
  exists T, n, (gap_path T k []). by split_and!.
Qed.

Lemma is_rbtree_height s l :
  is_rbtree s l →
  ∃ T, rep s [] T ∧ addrs T = l ∧ (height T ≤ 2 * Nat.log2 (S (length l)))%nat.
Proof. intros (T & n & Hr & Hrb & <-). exists T. split_and!; [done|done|]. by eapply rb_log. Qed.

(** C15: A balanced tree is a sequence of nodes that inserting and erasing change as
    they should.  At every place of the sequence there is a null link, and linking
    a new node there and calling [rb_insert_color] completes and leaves a balanced
    tree with the node at that place.  [rb_erase] of any node of the tree completes
    and leaves a balanced tree with the other nodes in the same order.  Balanced
    means: no red node has a red child and all ways down have the same number of
    black nodes, so that no way down is longer than twice the logarithm. *)
Theorem rbtree_refines_sequence (s : rb_root) (l : list Z) :
  is_rbtree s l →
  (∀ x k, good x → x ∉ l → is_Some (nodes s !! x) → (k ≤ length l)%nat →
     (∃ parent at_, is_gap s parent at_ (take k l) (drop k l)) ∧
     ∀ parent at_, is_gap s parent at_ (take k l) (drop k l) →
       ∃ s', (rb_link_node x parent at_;; rb_insert_color x) s = (Done tt, s') ∧
         is_rbtree s' (take k l ++ x :: drop k l)) ∧
  (∀ x, x ∈ l →
     ∃ s', rb_erase x s = (Done tt, s') ∧ is_rbtree s' (filter (λ a, a ≠ x) l)) ∧
  ∃ T, rep s [] T ∧ addrs T = l ∧ (height T ≤ 2 * Nat.log2 (S (length l)))%nat.
Proof.
  intros Hs. split_and!; [|intros x Hx|by apply is_rbtree_height].
  - intros x k Hx Hout Hin Hk. split; [by apply is_gap_exists|]. intros parent at_ Hgap.
    destruct (rb_insert_spec s parent at_ (take k l) (drop k l) x Hgap Hx) as (s' & E & H & _);
      [by rewrite take_drop|done|]. eauto.
  - destruct (rb_erase_spec s l x Hs Hx) as (s' & E & H & _). eauto.
Qed.

(** From the node [rb_first] returns, [rb_next] visits every node of the tree
    once, in order, and then returns null; the tree is left as it is. *)
Theorem rbtree_walk_in_order (s : rb_root) (l : list Z) :
  is_rbtree s l →
  (n ← rb_first; rb_walk (S (length l)) n) s = (Done l, s).
Proof.
  intros Hs. rewrite (bind_done _ _ _ _ _ (rb_first_spec s l Hs)).
  apply (rb_walk_spec _ s []); [done|lia].
Qed.

(** ** A tree of three nodes *)

Definition tree3 : rb_root :=
  RbRoot (list_to_map [(8, RbNode 16 0 0); (16, RbNode 1 24 8); (24, RbNode 16 0 0);
                       (32, RbNode 0 0 0)]) 16.

Lemma tree3_ok : is_rbtree tree3 [8; 16; 24].
Proof.
  exists (Node Black (Node Red Leaf 8 Leaf) 16 (Node Red Leaf 24 Leaf)), 1%nat.
  split; [|split; [repeat econstructor|reflexivity]]. constructor; simpl.
  - by repeat split.
  - done.
  - split; [by apply (bool_decide_unpack _)|repeat constructor; unfold good; lia].
Defined.

Lemma rbtree_refines_sequence_witness :
  (∃ parent at_, is_gap tree3 parent at_ [8; 16] [24]) ∧
  (∃ s', rb_erase 16 tree3 = (Done tt, s') ∧ is_rbtree s' [8; 24]).
Proof.
  destruct (rbtree_refines_sequence tree3 [8; 16; 24] tree3_ok) as (Hi & He & _). split.
  - apply (Hi 32 2%nat); [by split|by apply (bool_decide_unpack _)|by eexists|simpl; lia].
  - apply (He 16). by apply (bool_decide_unpack _).
Defined.

Lemma rbtree_walk_in_order_witness :
  (n ← rb_first; rb_walk 4 n) tree3 = (Done [8; 16; 24], tree3).
Proof. apply (rbtree_walk_in_order tree3 [8; 16; 24]). exact tree3_ok. Defined.

(** Erasing the root puts its successor in its place. *)
Example erase_root :
  root (rb_erase 16 tree3).2 = 24 ∧ nodes (rb_erase 16 tree3).2 !! 24 = Some (RbNode 1 0 8).
Proof. vm_compute. done. Qed.
