(* ===== verification/FioFlist.v ===== *)
(** * fio: doubly linked lists (flist.h)

    A list is a ring through its head.  The entries are in a heap; [next] and
    [prev] of an entry are read and written one at a time, as in the source. *)
From Stdlib Require Import ZArith Lia.
From stdpp Require Import base numbers gmap list.
From S2P Require Import Prelude.

Record flist_head := FlistHead { fl_next : Z; fl_prev : Z }.
Abbreviation fheap := (gmap Z flist_head).
Abbreviation flprog := (prog fault fheap).

(** ** Operations *)

Definition fl_get (a : Z) : flprog flist_head := λ h,
  match h !! a with
  | Some e => (Done e, h)
  | None => (Leave (Undefined BadPointer), h)
  end.
Definition set_next (a x : Z) : flprog unit :=
  e ← fl_get a; modS (λ h, <[a := FlistHead x (fl_prev e)]> h).
Definition set_prev (a x : Z) : flprog unit :=
  e ← fl_get a; modS (λ h, <[a := FlistHead (fl_next e) x]> h).

Definition INIT_FLIST_HEAD (a : Z) : flprog unit := set_next a a;; set_prev a a.

Definition __flist_add (new_entry prev next : Z) : flprog unit :=
  set_prev next new_entry;;
  set_next new_entry next;;
  set_prev new_entry prev;;
  set_next prev new_entry.

Definition flist_add (new_entry head : Z) : flprog unit :=
  h ← fl_get head; __flist_add new_entry head (fl_next h).

Definition flist_add_tail (new_entry head : Z) : flprog unit :=
  h ← fl_get head; __flist_add new_entry (fl_prev h) head.

Definition __flist_del (prev next : Z) : flprog unit := set_prev next prev;; set_next prev next.

Definition flist_del (entry : Z) : flprog unit :=
  e ← fl_get entry;
  __flist_del (fl_prev e) (fl_next e);;
  set_next entry 0;;
  set_prev entry 0.

Definition flist_del_init (entry : Z) : flprog unit :=
  e ← fl_get entry;
  __flist_del (fl_prev e) (fl_next e);;
  INIT_FLIST_HEAD entry.

Definition flist_empty (head : Z) : flprog bool :=
  h ← fl_get head; mret (fl_next h =? head).

(** [flist_first_entry]: the list member is at the address of its entry here. *)
Definition flist_first (head : Z) : flprog Z := h ← fl_get head; mret (fl_next h).

Definition __flist_splice (list prev next : Z) : flprog unit :=
  l ← fl_get list;
  set_prev (fl_next l) prev;;
  set_next prev (fl_next l);;
  set_next (fl_prev l) next;;
  set_prev next (fl_prev l).

Definition flist_splice (list head : Z) : flprog unit :=
  e ← flist_empty list;
  if e : bool then mret tt
  else h ← fl_get head; __flist_splice list head (fl_next h).

Definition flist_splice_tail (list head : Z) : flprog unit :=
  e ← flist_empty list;
  if e : bool then mret tt
  else h ← fl_get head; __flist_splice list (fl_prev h) head.

Definition flist_splice_tail_init (list head : Z) : flprog unit :=
  e ← flist_empty list;
  if e : bool then mret tt
  else h ← fl_get head; __flist_splice list (fl_prev h) head;; INIT_FLIST_HEAD list.

Definition flist_splice_init (list head : Z) : flprog unit :=
  e ← flist_empty list;
  if e : bool then mret tt
  else h ← fl_get head; __flist_splice list head (fl_next h);; INIT_FLIST_HEAD list.

(** [flist_for_each]: the entries it visits. *)
Fixpoint flist_for_each (fuel : nat) (pos head : Z) : flprog (list Z) :=
  match fuel with
  | O => leave OutOfFuel
  | S fuel =>
      if pos =? head then mret []
      else e ← fl_get pos; l ← flist_for_each fuel (fl_next e) head; mret (pos :: l)
  end.

(** ** Rings *)

Definition nx (h : fheap) (a : Z) : option Z := fl_next <$> h !! a.
Definition pv (h : fheap) (a : Z) : option Z := fl_prev <$> h !! a.

(** [a] is followed by the entries [l] and then by [b]. *)
Fixpoint seg (h : fheap) (a : Z) (l : list Z) (b : Z) : Prop :=
  match l with
  | [] => nx h a = Some b ∧ pv h b = Some a
  | x :: l => nx h a = Some x ∧ pv h x = Some a ∧ seg h x l b
  end.

(** The list at [hd] has the entries [l]. *)
Definition ring (h : fheap) (hd : Z) (l : list Z) : Prop := seg h hd l hd ∧ NoDup (hd :: l).

(** What changing one field changes. *)
Definition with_next (a x : Z) (h : fheap) : fheap :=
  match h !! a with Some e => <[a := FlistHead x (fl_prev e)]> h | None => h end.
Definition with_prev (a x : Z) (h : fheap) : fheap :=
  match h !! a with Some e => <[a := FlistHead (fl_next e) x]> h | None => h end.

Lemma nx_with_next h a x b : a ≠ b → nx (with_next a x h) b = nx h b.
Proof. intros Hab. unfold nx, with_next. case_match; [|done]. by rewrite lookup_insert_ne. Qed.
Lemma nx_with_next_eq h a x : is_Some (h !! a) → nx (with_next a x h) a = Some x.
Proof. intros [e E]. unfold nx, with_next. by rewrite E, lookup_insert_eq. Qed.
Lemma pv_with_next h a x b : pv (with_next a x h) b = pv h b.
Proof.
  unfold pv, with_next. case_match eqn:E; [|done].
  destruct (decide (a = b)) as [->|]; [by rewrite lookup_insert_eq, E|by rewrite lookup_insert_ne].
Qed.
Lemma pv_with_prev h a x b : a ≠ b → pv (with_prev a x h) b = pv h b.
Proof. intros Hab. unfold pv, with_prev. case_match; [|done]. by rewrite lookup_insert_ne. Qed.
Lemma pv_with_prev_eq h a x : is_Some (h !! a) → pv (with_prev a x h) a = Some x.
Proof. intros [e E]. unfold pv, with_prev. by rewrite E, lookup_insert_eq. Qed.
Lemma nx_with_prev h a x b : nx (with_prev a x h) b = nx h b.
Proof.
  unfold nx, with_prev. case_match eqn:E; [|done].
  destruct (decide (a = b)) as [->|]; [by rewrite lookup_insert_eq, E|by rewrite lookup_insert_ne].
Qed.
Lemma dom_with_next a x h : dom (with_next a x h) = dom h.
Proof. unfold with_next. case_match eqn:E; [|done]. apply dom_insert_lookup_L. by eexists. Qed.
Lemma dom_with_prev a x h : dom (with_prev a x h) = dom h.
Proof. unfold with_prev. case_match eqn:E; [|done]. apply dom_insert_lookup_L. by eexists. Qed.
Lemma is_Some_with_next a x h b : is_Some (with_next a x h !! b) ↔ is_Some (h !! b).
Proof. rewrite <- !elem_of_dom. by rewrite dom_with_next. Qed.
Lemma is_Some_with_prev a x h b : is_Some (with_prev a x h !! b) ↔ is_Some (h !! b).
Proof. rewrite <- !elem_of_dom. by rewrite dom_with_prev. Qed.

Lemma set_next_run h a x : is_Some (h !! a) → set_next a x h = (Done tt, with_next a x h).
Proof. intros [e E]. unfold set_next, with_next, fl_get, mbind, prog_bind. by rewrite E. Qed.
Lemma set_prev_run h a x : is_Some (h !! a) → set_prev a x h = (Done tt, with_prev a x h).
Proof. intros [e E]. unfold set_prev, with_prev, fl_get, mbind, prog_bind. by rewrite E. Qed.
Lemma fl_get_next {A} (k : Z → flprog A) h a x :
  nx h a = Some x → (e ← fl_get a; k (fl_next e)) h = k x h.
Proof. unfold nx. destruct (h !! a) as [e|] eqn:E; [|done]. intros [= <-].
  unfold fl_get, mbind, prog_bind. by rewrite E. Qed.
Lemma fl_get_prev {A} (k : Z → flprog A) h a x :
  pv h a = Some x → (e ← fl_get a; k (fl_prev e)) h = k x h.
Proof. unfold pv. destruct (h !! a) as [e|] eqn:E; [|done]. intros [= <-].
  unfold fl_get, mbind, prog_bind. by rewrite E. Qed.
Lemma nx_is_Some h a x : nx h a = Some x → is_Some (h !! a).
Proof. unfold nx. destruct (h !! a); [by eexists|done]. Qed.
Lemma pv_is_Some h a x : pv h a = Some x → is_Some (h !! a).
Proof. unfold pv. destruct (h !! a); [by eexists|done]. Qed.

Definition first_of (l : list Z) (b : Z) : Z := match l with [] => b | x :: _ => x end.
Fixpoint last_of (a : Z) (l : list Z) : Z := match l with [] => a | x :: l => last_of x l end.

Lemma last_of_in a l : last_of a l ∈ a :: l.
Proof. revert a. induction l as [|x l IH]; intros a; simpl; [set_solver|]. specialize (IH x). set_solver. Qed.
Lemma first_of_in l b : first_of l b ∈ l ++ [b].
Proof. destruct l; simpl; set_solver. Qed.

Lemma seg_frame h h' a l b :
  seg h a l b → (∀ x, x ∈ a :: l → nx h' x = nx h x) → (∀ x, x ∈ l ++ [b] → pv h' x = pv h x) →
  seg h' a l b.
Proof.
  revert a. induction l as [|x l IH]; intros a; simpl.
  - intros [H1 H2] Hn Hp. by rewrite Hn, Hp by set_solver.
  - intros (H1 & H2 & H3) Hn Hp. rewrite Hn, Hp by set_solver. split_and!; [done..|].
    apply IH; [done|set_solver..].
Qed.
Lemma seg_app h a l1 x l2 b : seg h a (l1 ++ x :: l2) b ↔ seg h a l1 x ∧ seg h x l2 b.
Proof. revert a. induction l1 as [|y l1 IH]; intros a; simpl; [tauto|]. rewrite IH. tauto. Qed.
Lemma seg_first h a l b : seg h a l b → nx h a = Some (first_of l b).
Proof. destruct l; simpl; tauto. Qed.
Lemma seg_last h a l b : seg h a l b → pv h b = Some (last_of a l).
Proof. revert a. induction l as [|x l IH]; intros a; simpl; [tauto|]. intros (_ & _ & H). by apply IH. Qed.
Lemma seg_in h a l b x : seg h a l b → x ∈ a :: l → is_Some (h !! x).
Proof.
  revert a. induction l as [|y l IH]; intros a H Hx.
  - apply list_elem_of_singleton in Hx as ->. destruct H as [H _]. by eapply nx_is_Some.
  - destruct H as (H1 & _ & H3). apply elem_of_cons in Hx as [->|Hx]; [by eapply nx_is_Some|]. by eapply IH.
Qed.

(** An entry comes between two neighbours. *)
Lemma seg_insert h h' a l1 l2 b new :
  seg h a (l1 ++ l2) b → NoDup (a :: l1 ++ l2) → NoDup (l1 ++ l2 ++ [b]) →
  new ∉ a :: l1 ++ l2 ++ [b] →
  nx h' (last_of a l1) = Some new → pv h' new = Some (last_of a l1) →
  nx h' new = Some (first_of l2 b) → pv h' (first_of l2 b) = Some new →
  (∀ y, y ≠ last_of a l1 → y ≠ new → nx h' y = nx h y) →
  (∀ y, y ≠ first_of l2 b → y ≠ new → pv h' y = pv h y) →
  seg h' a (l1 ++ new :: l2) b.
Proof.
  revert a. induction l1 as [|x l1 IH]; intros a Hs Hn1 Hn2 Hnew H1 H2 H3 H4 H5 H6; simpl in *.
  - split_and!; [done..|]. destruct l2 as [|y l2]; simpl in *; [done|].
    destruct Hs as (_ & _ & Hs). split_and!; [done..|].
    rewrite !NoDup_cons in Hn1. rewrite NoDup_cons in Hn2.
    eapply seg_frame; [exact Hs|..]; intros z Hz; [apply H5|apply H6]; set_solver.
  - destruct Hs as (Ha & Hx & Hs). rewrite !NoDup_cons in Hn1. rewrite NoDup_cons in Hn2.
    pose proof (last_of_in x l1). pose proof (first_of_in l2 b).
    split_and!.
    + rewrite H5; [done|set_solver..].
    + rewrite H6; [done|set_solver..].
    + apply IH; [done|apply NoDup_cons; tauto|tauto|set_solver|done..].
Qed.

(** An entry leaves. *)
Lemma seg_remove h h' a l1 e l2 b :
  seg h a (l1 ++ e :: l2) b → NoDup (a :: l1 ++ e :: l2) → NoDup (l1 ++ e :: l2 ++ [b]) →
  nx h' (last_of a l1) = Some (first_of l2 b) → pv h' (first_of l2 b) = Some (last_of a l1) →
  (∀ y, y ≠ last_of a l1 → y ≠ e → nx h' y = nx h y) →
  (∀ y, y ≠ first_of l2 b → y ≠ e → pv h' y = pv h y) →
  seg h' a (l1 ++ l2) b.
Proof.
  revert a. induction l1 as [|x l1 IH]; intros a Hs Hn1 Hn2 H1 H2 H5 H6; simpl in *.
  - destruct Hs as (_ & _ & Hs). rewrite !NoDup_cons in Hn1. rewrite NoDup_cons in Hn2.
    destruct l2 as [|y l2]; simpl in *; [done|].
    destruct Hs as (_ & _ & Hs). split_and!; [done..|]. rewrite !NoDup_cons in *.
    eapply seg_frame; [exact Hs|..]; intros z Hz; [apply H5|apply H6]; set_solver.
  - destruct Hs as (Ha & Hx & Hs). rewrite !NoDup_cons in Hn1. rewrite NoDup_cons in Hn2.
    pose proof (last_of_in x l1). pose proof (first_of_in l2 b).
    split_and!.
    + rewrite H5; [done|set_solver..].
    + rewrite H6; [done|set_solver..].
    + apply IH; [done|apply NoDup_cons; tauto|tauto|done..].
Qed.

(** ** Specifications *)

Ltac fl_side :=
  first [done | by apply not_eq_sym
        | by repeat first [apply is_Some_with_next | apply is_Some_with_prev]].

Lemma ring_nodup h hd l : ring h hd l → NoDup (l ++ [hd]).
Proof. intros [_ H]. by rewrite Permutation_app_comm. Qed.

Lemma flist_empty_run h hd l : ring h hd l → flist_empty hd h = (Done (bool_decide (l = [])), h).
Proof.
  intros [Hs Hnd]. unfold flist_empty. rewrite (fl_get_next (λ x, mret (x =? hd)) _ _ _ (seg_first _ _ _ _ Hs)).
  destruct l as [|x l]; simpl; [by rewrite Z.eqb_refl|].
  rewrite (proj2 (Z.eqb_neq x hd)); [done|]. apply NoDup_cons in Hnd. set_solver.
Qed.
Lemma flist_first_run h hd l : ring h hd l → flist_first hd h = (Done (first_of l hd), h).
Proof. intros [Hs _]. unfold flist_first. by rewrite (fl_get_next mret _ _ _ (seg_first _ _ _ _ Hs)). Qed.

Lemma init_run h a :
  is_Some (h !! a) → ∃ h', INIT_FLIST_HEAD a h = (Done tt, h') ∧ ring h' a [] ∧ dom h' = dom h ∧
    ∀ b, b ≠ a → h' !! b = h !! b.
Proof.
  intros Ha. unfold INIT_FLIST_HEAD. rewrite (bind_done _ _ _ _ _ (set_next_run h a a Ha)).
  rewrite set_prev_run by (by apply is_Some_with_next). eexists. split; [done|]. split_and!.
  - split; [|apply NoDup_singleton]. simpl. rewrite nx_with_prev, nx_with_next_eq, pv_with_prev_eq; [done|..|done].
    by apply is_Some_with_next.
  - by rewrite dom_with_prev, dom_with_next.
  - intros b Hb. unfold with_prev, with_next. repeat case_match; by rewrite ?lookup_insert_ne by fl_side.
Qed.

(** [__flist_add] between neighbours. *)
Lemma add_between h hd l1 l2 new :
  ring h hd (l1 ++ l2) → new ∉ hd :: l1 ++ l2 → is_Some (h !! new) →
  ∃ h', __flist_add new (last_of hd l1) (first_of l2 hd) h = (Done tt, h') ∧
    ring h' hd (l1 ++ new :: l2) ∧ dom h' = dom h ∧
    ∀ b, b ∉ hd :: l1 ++ new :: l2 → h' !! b = h !! b.
Proof.
  intros [Hs Hnd] Hnew Hin. set (p := last_of hd l1). set (n := first_of l2 hd).
  assert (p ∈ hd :: l1 ++ l2) as Hp by (pose proof (last_of_in hd l1); set_solver).
  assert (n ∈ hd :: l1 ++ l2) as Hn by (pose proof (first_of_in l2 hd); set_solver).
  pose proof (seg_in _ _ _ _ _ Hs Hp) as Hpi. pose proof (seg_in _ _ _ _ _ Hs Hn) as Hni.
  assert (new ≠ p ∧ new ≠ n) as [Hnp Hnn] by set_solver.
  unfold __flist_add.
  rewrite (bind_done _ _ _ _ _ (set_prev_run h n new Hni)).
  rewrite (bind_done _ _ _ _ _ (set_next_run _ new n ltac:(by apply is_Some_with_prev))).
  rewrite (bind_done _ _ _ _ _ (set_prev_run _ new p
    ltac:(by apply is_Some_with_next, is_Some_with_prev))).
  rewrite (set_next_run _ p new) by (by apply is_Some_with_prev, is_Some_with_next, is_Some_with_prev).
  eexists. split; [done|]. split_and!.
  - split; [|rewrite <- Permutation_middle, Permutation_swap; by apply NoDup_cons].
    eapply seg_insert; [exact Hs|done|by rewrite app_assoc; apply ring_nodup with h|set_solver|..].
    + by rewrite nx_with_next_eq by fl_side.
    + by rewrite pv_with_next, pv_with_prev_eq by fl_side.
    + by rewrite nx_with_next, nx_with_prev, nx_with_next_eq by fl_side.
    + by rewrite pv_with_next, pv_with_prev, pv_with_next, pv_with_prev_eq by fl_side.
    + intros y H1 H2. by rewrite nx_with_next, nx_with_prev, nx_with_next, nx_with_prev by fl_side.
    + intros y H1 H2. by rewrite pv_with_next, pv_with_prev, pv_with_next, pv_with_prev by fl_side.
  - by rewrite dom_with_next, dom_with_prev, dom_with_next, dom_with_prev.
  - intros b Hb. assert (b ≠ p ∧ b ≠ n ∧ b ≠ new) as (? & ? & ?) by set_solver.
    unfold with_next, with_prev. repeat case_match; by rewrite ?lookup_insert_ne by fl_side.
Qed.

Lemma flist_add_run h hd l new :
  ring h hd l → new ∉ hd :: l → is_Some (h !! new) →
  ∃ h', flist_add new hd h = (Done tt, h') ∧ ring h' hd (new :: l) ∧ dom h' = dom h ∧
    ∀ b, b ∉ hd :: new :: l → h' !! b = h !! b.
Proof.
  intros Hr Hn Hi. unfold flist_add.
  rewrite (fl_get_next (__flist_add new hd) _ _ _ (seg_first _ _ _ _ (proj1 Hr))).
  by apply (add_between h hd []).
Qed.
Lemma flist_add_tail_run h hd l new :
  ring h hd l → new ∉ hd :: l → is_Some (h !! new) →
  ∃ h', flist_add_tail new hd h = (Done tt, h') ∧ ring h' hd (l ++ [new]) ∧ dom h' = dom h ∧
    ∀ b, b ∉ hd :: l ++ [new] → h' !! b = h !! b.
Proof.
  intros Hr Hn Hi. unfold flist_add_tail.
  rewrite (fl_get_prev (λ p, __flist_add new p hd) _ _ _ (seg_last _ _ _ _ (proj1 Hr))).
  apply (add_between h hd l []); by rewrite ?app_nil_r.
Qed.

(** [__flist_del] of the neighbours of an entry. *)
Lemma del_between h hd l1 e l2 :
  ring h hd (l1 ++ e :: l2) →
  pv h e = Some (last_of hd l1) ∧ nx h e = Some (first_of l2 hd) ∧
  ∃ h', __flist_del (last_of hd l1) (first_of l2 hd) h = (Done tt, h') ∧
    ring h' hd (l1 ++ l2) ∧ dom h' = dom h ∧
    (∀ b, b ∉ hd :: l1 ++ l2 → h' !! b = h !! b).
Proof.
  intros Hring. pose proof Hring as [Hs Hnd]. pose proof (ring_nodup _ _ _ Hring) as Hnd2.
  rewrite <- app_assoc, <- app_comm_cons in Hnd2.
  set (p := last_of hd l1). set (n := first_of l2 hd).
  pose proof (proj1 (seg_app _ _ _ _ _ _) Hs) as [Hs1 Hs2].
  split; [by apply seg_last|]. split; [by apply seg_first|].
  assert (p ∈ hd :: l1 ++ l2) as Hp by (pose proof (last_of_in hd l1); set_solver).
  assert (n ∈ hd :: l1 ++ l2) as Hn by (pose proof (first_of_in l2 hd); set_solver).
  assert (is_Some (h !! p)) as Hpi by (eapply seg_in; [exact Hs|]; set_solver).
  assert (is_Some (h !! n)) as Hni by (eapply seg_in; [exact Hs|]; set_solver).
  unfold __flist_del. rewrite (bind_done _ _ _ _ _ (set_prev_run h n p Hni)).
  rewrite (set_next_run _ p n) by (by apply is_Some_with_prev).
  eexists. split; [done|]. split_and!.
  - split.
    + eapply seg_remove; [exact Hs|done|done|..].
      * by rewrite nx_with_next_eq by fl_side.
      * by rewrite pv_with_next, pv_with_prev_eq by fl_side.
      * intros y H1 _. by rewrite nx_with_next, nx_with_prev by fl_side.
      * intros y H1 _. by rewrite pv_with_next, pv_with_prev by fl_side.
    + revert Hnd. rewrite <- Permutation_middle, Permutation_swap. intros [_ ?]%NoDup_cons. done.
  - by rewrite dom_with_next, dom_with_prev.
  - intros b Hb. assert (b ≠ p ∧ b ≠ n) as (? & ?) by set_solver.
    unfold with_next, with_prev. repeat case_match; by rewrite ?lookup_insert_ne by fl_side.
Qed.

(** Entries outside of a ring do not matter to it. *)
Lemma ring_frame h h' hd l :
  ring h hd l → (∀ b, b ∈ hd :: l → h' !! b = h !! b) → ring h' hd l.
Proof.
  intros [Hs Hnd] Hb. split; [|done]. eapply seg_frame; [exact Hs|..]; intros x Hx;
    unfold nx, pv; rewrite Hb; set_solver.
Qed.

Lemma ring_split h hd l1 e l2 : ring h hd (l1 ++ e :: l2) → e ∉ hd :: l1 ++ l2.
Proof.
  intros [_ Hnd]. revert Hnd. rewrite <- Permutation_middle, Permutation_swap.
  by intros [? _]%NoDup_cons.
Qed.

Lemma flist_del_run h hd l1 e l2 :
  ring h hd (l1 ++ e :: l2) →
  ∃ h', flist_del e h = (Done tt, h') ∧ ring h' hd (l1 ++ l2) ∧ dom h' = dom h ∧
    h' !! e = Some (FlistHead 0 0) ∧ ∀ b, b ∉ hd :: l1 ++ e :: l2 → h' !! b = h !! b.
Proof.
  intros Hr. pose proof (ring_split _ _ _ _ _ Hr) as He.
  destruct (del_between h hd l1 e l2 Hr) as (Hpv & Hnx & h1 & E & Hr1 & Hdom & Hout).
  assert (is_Some (h !! e)) as [ee Hee] by (by eapply nx_is_Some).
  unfold flist_del, fl_get at 1, mbind at 1, prog_bind at 1. unfold pv, nx in *. rewrite Hee in *.
  simpl in Hpv, Hnx. injection Hpv as ->. injection Hnx as ->. rewrite (bind_done _ _ _ _ _ E).
  assert (h1 !! e = Some ee) as He1 by (by rewrite Hout).
  rewrite (bind_done _ _ _ _ _ (set_next_run h1 e 0 ltac:(by eexists))).
  rewrite set_prev_run by (apply is_Some_with_next; by eexists). eexists. split; [done|].
  split_and!.
  - eapply ring_frame; [exact Hr1|]. intros b Hb. assert (b ≠ e) by set_solver.
    unfold with_next, with_prev. repeat case_match; by rewrite ?lookup_insert_ne by fl_side.
  - by rewrite dom_with_prev, dom_with_next.
  - unfold with_prev, with_next. by rewrite He1, !lookup_insert_eq.
  - intros b Hb. assert (b ≠ e) by set_solver. rewrite <- Hout by set_solver.
    unfold with_next, with_prev. repeat case_match; by rewrite ?lookup_insert_ne by fl_side.
Qed.

Lemma flist_del_init_run h hd l1 e l2 :
  ring h hd (l1 ++ e :: l2) →
  ∃ h', flist_del_init e h = (Done tt, h') ∧ ring h' hd (l1 ++ l2) ∧ ring h' e [] ∧ dom h' = dom h ∧
    ∀ b, b ∉ hd :: l1 ++ e :: l2 → h' !! b = h !! b.
Proof.
  intros Hr. pose proof (ring_split _ _ _ _ _ Hr) as He.
  destruct (del_between h hd l1 e l2 Hr) as (Hpv & Hnx & h1 & E & Hr1 & Hdom & Hout).
  assert (is_Some (h !! e)) as [ee Hee] by (by eapply nx_is_Some).
  unfold flist_del_init, fl_get at 1, mbind at 1, prog_bind at 1. unfold pv, nx in *. rewrite Hee in *.
  simpl in Hpv, Hnx. injection Hpv as ->. injection Hnx as ->. rewrite (bind_done _ _ _ _ _ E).
  destruct (init_run h1 e) as (h2 & E2 & Hr2 & Hdom2 & Hout2); [rewrite Hout by done; by eexists|].
  exists h2. split_and!; [done| |done|by rewrite Hdom2|].
  - eapply ring_frame; [exact Hr1|]. intros b Hb. apply Hout2. set_solver.
  - intros b Hb. rewrite Hout2, Hout by set_solver. done.
Qed.

Lemma for_each_run fuel h hd a l1 l2 :
  seg h a l2 hd → NoDup (hd :: l1 ++ a :: l2) → (length l2 < fuel)%nat →
  flist_for_each fuel (first_of l2 hd) hd h = (Done l2, h).
Proof.
  revert a l1 l2. induction fuel as [|fuel IH]; intros a l1 l2 Hs Hnd Hf; [lia|].
  destruct l2 as [|x l2]; simpl; [by rewrite Z.eqb_refl|].
  rewrite (proj2 (Z.eqb_neq x hd)) by (apply NoDup_cons in Hnd; set_solver).
  destruct Hs as (_ & _ & Hs).
  rewrite (fl_get_next (λ y, l ← flist_for_each fuel y hd; mret (x :: l)) _ _ _ (seg_first _ _ _ _ Hs)).
  rewrite (bind_done _ _ _ _ _ (IH x (l1 ++ [a]) l2 Hs
    ltac:(by rewrite <- app_assoc) ltac:(simpl in Hf; lia))). done.
Qed.
