(* ===== verification/FioIolog.v ===== *)
(** * fio: the history of writes to verify (iolog.c, verify.c, trim.c, trim.h)

    Every write is logged before it is issued, as a piece that is on one of two
    structures: a red-black tree sorted by file and offset, in which a new write
    replaces an older one of the same block, or a list in the order of the
    writes.  A piece may also be on the list of blocks to trim.  Verification
    takes the pieces off again, one at a time.

    The members of a piece are kept in one map each, at the address of the piece:
    the tree node, the list entry (which share their memory in the source; a piece
    is on one of the two), the entry of the trim list, and the rest.  The address
    that [malloc] returns is an argument; [free] takes an address out of all
    maps.  Addresses of files are compared as numbers. *)
From Stdlib Require Import ZArith Lia.
From stdpp Require Import base numbers gmap list sorting.
From S2P Require Import Prelude FioRbtree FioRbtreeShape FioRbtreeErase FioRbtreeSpec FioFlist.

(** ** Data *)

Definition IP_F_ONRB : Z := 1.
Definition IP_F_ONLIST : Z := 2.
Definition IP_F_TRIMMED : Z := 4.
Definition IP_F_IN_FLIGHT : Z := 8.

Record io_piece := IoPiece {
  ip_file : Z; ip_offset : Z; ip_len : Z; ip_numberio : Z; ip_flags : Z
}.

(** The addresses of the heads [td->io_hist_list] and [td->trim_list]. *)
Class HistHeads := { io_hist_list : Z; trim_list : Z }.

(** The part of [struct thread_data] that is the history. *)
Record hist := Hist {
  io_hist_tree : rb_root; lists : fheap; trims : fheap; pieces : gmap Z io_piece;
  io_hist_len : Z; trim_entries : Z
}.
Abbreviation hprog := (prog fault hist).

(** The options the history depends on: [td->o.verifysort], [td_random(td)],
    [td->o.overwrite], [td->o.verify == VERIFY_NONE], [file_randommap(td, f)] and
    [td->o.trim_zero]. *)
Record hist_opts := HistOpts {
  verifysort : bool; random : bool; overwrite : bool; verify_none : bool;
  file_randommap : Z → bool; trim_zero : bool
}.

Definition set_tree (t : rb_root) (s : hist) : hist :=
  Hist t (lists s) (trims s) (pieces s) (io_hist_len s) (trim_entries s).
Definition set_lists (l : fheap) (s : hist) : hist :=
  Hist (io_hist_tree s) l (trims s) (pieces s) (io_hist_len s) (trim_entries s).
Definition set_trims (l : fheap) (s : hist) : hist :=
  Hist (io_hist_tree s) (lists s) l (pieces s) (io_hist_len s) (trim_entries s).
Definition set_pieces (p : gmap Z io_piece) (s : hist) : hist :=
  Hist (io_hist_tree s) (lists s) (trims s) p (io_hist_len s) (trim_entries s).
Definition set_len (n : Z) (s : hist) : hist :=
  Hist (io_hist_tree s) (lists s) (trims s) (pieces s) n (trim_entries s).
Definition set_entries (n : Z) (s : hist) : hist :=
  Hist (io_hist_tree s) (lists s) (trims s) (pieces s) (io_hist_len s) n.

Definition on_tree {A} (m : rbprog A) : hprog A := zoom io_hist_tree set_tree m.
Definition on_lists {A} (m : flprog A) : hprog A := zoom lists set_lists m.
Definition on_trims {A} (m : flprog A) : hprog A := zoom trims set_trims m.
Definition add_len (d : Z) : hprog unit := modS (λ s, set_len (u64 (io_hist_len s + d)) s).
Definition add_entries (d : Z) : hprog unit := modS (λ s, set_entries (u64 (trim_entries s + d)) s).

(** ** Memory *)

Definition get_piece (a : Z) : hprog io_piece := λ s,
  match pieces s !! a with
  | Some p => (Done p, s)
  | None => (Leave (Undefined BadPointer), s)
  end.
Definition upd_piece (a : Z) (f : io_piece → io_piece) : hprog unit :=
  p ← get_piece a; modS (λ s, set_pieces (<[a := f p]> (pieces s)) s).
Definition with_flags (f : Z → Z) (p : io_piece) : io_piece :=
  IoPiece (ip_file p) (ip_offset p) (ip_len p) (ip_numberio p) (f (ip_flags p)).
Definition has_flag (f : Z) (p : io_piece) : bool := negb (Z.land (ip_flags p) f =? 0).

(** [malloc] with the [memset] of [init_ipo]. *)
Definition malloc_piece (a : Z) : hprog unit := modS (λ s,
  Hist (RbRoot (<[a := RbNode 0 0 0]> (nodes (io_hist_tree s))) (root (io_hist_tree s)))
    (<[a := FlistHead 0 0]> (lists s)) (<[a := FlistHead 0 0]> (trims s))
    (<[a := IoPiece 0 0 0 0 0]> (pieces s)) (io_hist_len s) (trim_entries s)).
Definition free_piece (a : Z) : hprog unit :=
  get_piece a;;
  modS (λ s,
    Hist (RbRoot (delete a (nodes (io_hist_tree s))) (root (io_hist_tree s)))
      (delete a (lists s)) (delete a (trims s)) (delete a (pieces s)) (io_hist_len s)
      (trim_entries s)).

Section iolog.
Context {Hd : HistHeads}.

(** ** Logging *)

Definition remove_trim_entry (ipo : Z) : hprog unit :=
  e ← on_trims (flist_empty ipo);
  if e : bool then mret tt
  else on_trims (flist_del_init ipo);; add_entries (-1).

(** The search for the place of a piece: the link where it ends and the last node
    on the way, or the node of the same block. *)
Inductive place := Gap (parent : Z) (p : link) | Same (node : Z).
Fixpoint seek (fuel : nat) (file offset : Z) (parent : Z) (p : link) : hprog place :=
  match fuel with
  | O => leave OutOfFuel
  | S fuel =>
      x ← on_tree (get_link p);
      if x =? 0 then mret (Gap parent p)
      else
        q ← get_piece x;
        if file <? ip_file q then seek fuel file offset x (LinkChild L x)
        else if ip_file q <? file then seek fuel file offset x (LinkChild R x)
        else if offset <? ip_offset q then seek fuel file offset x (LinkChild L x)
        else if ip_offset q <? offset then seek fuel file offset x (LinkChild R x)
        else mret (Same x)
  end.

(** From the label [restart] on. *)
Fixpoint restart (fuel : nat) (ipo file offset : Z) : hprog unit :=
  match fuel with
  | O => leave OutOfFuel
  | S fuel =>
      deep ← readS (λ s, heap_fuel (io_hist_tree s));
      r ← seek deep file offset 0 LinkRoot;
      match r with
      | Gap parent p =>
          on_tree (rb_link_node ipo parent p);;
          on_tree (rb_insert_color ipo);;
          upd_piece ipo (with_flags (λ f, Z.lor f IP_F_ONRB));;
          add_len 1
      | Same other =>
          add_len (-1);;
          on_tree (rb_erase other);;
          remove_trim_entry other;;
          free_piece other;;
          restart fuel ipo file offset
      end
  end.

Definition on_list_mode (o : hist_opts) (file : Z) : bool :=
  (negb (verifysort o) || negb (random o) || negb (overwrite o)) &&
  (file_randommap o file || verify_none o).

(** [ipo] is what [malloc] returns, [trim] what [io_u_should_trim] decides. *)
Definition log_io_piece (o : hist_opts) (ipo : Z) (trim : bool)
    (file offset buflen numberio : Z) : hprog unit :=
  malloc_piece ipo;;
  on_trims (INIT_FLIST_HEAD ipo);;
  upd_piece ipo (λ _, IoPiece file offset buflen numberio IP_F_IN_FLIGHT);;
  (if trim then on_trims (flist_add_tail ipo trim_list);; add_entries 1 else mret tt);;
  if on_list_mode o file then
    on_lists (INIT_FLIST_HEAD ipo);;
    on_lists (flist_add_tail ipo io_hist_list);;
    upd_piece ipo (with_flags (λ f, Z.lor f IP_F_ONLIST));;
    add_len 1
  else
    on_tree (rb_clear_node ipo);;
    fuel ← readS (λ s, S (size (pieces s)));
    restart fuel ipo file offset.

(** [io_u->ipo] is [ipo], null if there is none. *)
Definition unlog_io_piece (ipo : Z) : hprog unit :=
  if ipo =? 0 then mret tt
  else
    p ← get_piece ipo;
    (if has_flag IP_F_ONRB p then on_tree (rb_erase ipo)
     else if has_flag IP_F_ONLIST p then on_lists (flist_del ipo)
     else mret tt);;
    free_piece ipo;;
    add_len (-1).

Definition trim_io_piece (ipo xfer_buflen resid : Z) : hprog unit :=
  if ipo =? 0 then mret tt
  else upd_piece ipo (λ p, IoPiece (ip_file p) (ip_offset p) (u64 (xfer_buflen - resid))
                        (ip_numberio p) (ip_flags p)).

(** [io_completed], the part on the piece. *)
Definition complete_piece (ipo : Z) (error : bool) : hprog unit :=
  if ipo =? 0 then mret tt
  else if error then unlog_io_piece ipo
  else upd_piece ipo (with_flags (λ f, Z.land f (Z.lnot IP_F_IN_FLIGHT))).

Fixpoint prune_tree (fuel : nat) : hprog unit :=
  match fuel with
  | O => leave OutOfFuel
  | S fuel =>
      n ← on_tree rb_first;
      if n =? 0 then mret tt
      else
        on_tree (rb_erase n);; remove_trim_entry n;; add_len (-1);; free_piece n;; prune_tree fuel
  end.
(** The second loop takes [flist_entry] of the head, not of its first entry. *)
Fixpoint prune_list (fuel : nat) : hprog unit :=
  match fuel with
  | O => leave OutOfFuel
  | S fuel =>
      e ← on_lists (flist_empty io_hist_list);
      if e : bool then mret tt
      else
        let ipo := io_hist_list in
        on_lists (flist_del ipo);; remove_trim_entry ipo;; add_len (-1);; free_piece ipo;;
        prune_list fuel
  end.
Definition prune_io_piece_log : hprog unit :=
  fuel ← readS (λ s, S (size (pieces s)));
  prune_tree fuel;;
  prune_list fuel.

(** ** Verification and trimming *)

(** The piece taken off by [get_next_verify]; [None] is [nothing]. *)
Definition next_piece : hprog (option Z) :=
  r ← readS (λ s, root (io_hist_tree s));
  if negb (r =? 0) then
    n ← on_tree rb_first;
    p ← get_piece n;
    if has_flag IP_F_IN_FLIGHT p then mret None
    else
      on_tree (rb_erase n);;
      (if has_flag IP_F_ONRB p then mret tt else leave Abort);;
      upd_piece n (with_flags (λ f, Z.land f (Z.lnot IP_F_ONRB)));;
      mret (Some n)
  else
    e ← on_lists (flist_empty io_hist_list);
    if e : bool then mret None
    else
      n ← on_lists (flist_first io_hist_list);
      p ← get_piece n;
      if has_flag IP_F_IN_FLIGHT p then mret None
      else
        on_lists (flist_del n);;
        (if has_flag IP_F_ONLIST p then mret tt else leave Abort);;
        upd_piece n (with_flags (λ f, Z.land f (Z.lnot IP_F_ONLIST)));;
        mret (Some n).

(** For a request without a file.  The read that is set up (file, offset, length,
    number and whether the block was trimmed), or [None] with the result 1;
    [opened]: the file is open or can be opened. *)
Definition get_next_verify (opened : Z → bool) : hprog (option (Z * Z * Z * Z * bool)) :=
  n ← next_piece;
  match n with
  | None => mret None
  | Some n =>
      add_len (-1);;
      p ← get_piece n;
      if opened (ip_file p) then
        remove_trim_entry n;;
        free_piece n;;
        mret (Some (ip_file p, ip_offset p, ip_len p, ip_numberio p, has_flag IP_F_TRIMMED p))
      else mret None
  end.

(** The trim that is set up (file, offset, length), for a request without one. *)
Definition get_next_trim (o : hist_opts) (opened : Z → bool) : hprog (option (Z * Z * Z)) :=
  e ← on_trims (flist_empty trim_list);
  if e : bool then mret None
  else
    n ← readS trim_entries;
    (if n =? 0 then leave Abort else mret tt);;
    ipo ← on_trims (flist_first trim_list);
    remove_trim_entry ipo;;
    p ← get_piece ipo;
    (if trim_zero o then upd_piece ipo (with_flags (λ f, Z.lor f IP_F_TRIMMED))
     else
       (if has_flag IP_F_ONLIST p then on_lists (flist_del ipo)
        else if has_flag IP_F_ONRB p then on_tree (rb_erase ipo) else leave Abort);;
       add_len (-1);;
       free_piece ipo);;
    if opened (ip_file p) then mret (Some (ip_file p, ip_offset p, ip_len p)) else mret None.
End iolog.
