(* ===== verification/FioIologInv.v ===== *)
(** * fio: what holds of the history between its steps

    The pieces are on the tree, on the list, or loose (allocated and on neither);
    the tree is sorted by file and offset; a piece that is not on the trim list has
    a trim entry of its own. *)
From Stdlib Require Import ZArith Lia.
From stdpp Require Import base numbers gmap list sorting.
From S2P Require Import Prelude FioRbtree FioRbtreeShape FioRbtreeInsert FioRbtreeErase FioRbtreeSpec FioFlist.
From S2P Require Import FioIolog.

(** ** Blocks *)

Definition key (p : io_piece) : Z * Z := (ip_file p, ip_offset p).
Definition klt (k1 k2 : Z * Z) : Prop := k1.1 < k2.1 ∨ k1.1 = k2.1 ∧ k1.2 < k2.2.
#[export] Instance klt_dec k1 k2 : Decision (klt k1 k2).
Proof. unfold klt. apply _. Defined.
Lemma klt_trans k1 k2 k3 : klt k1 k2 → klt k2 k3 → klt k1 k3.
Proof. unfold klt. lia. Qed.
Lemma klt_irrefl k : ¬ klt k k.
Proof. unfold klt. lia. Qed.
Lemma klt_total k1 k2 : klt k1 k2 ∨ k1 = k2 ∨ klt k2 k1.
Proof.
  unfold klt. destruct k1 as [a b], k2 as [c d]; simpl.
  destruct (Z.lt_trichotomy a c) as [|[->|]], (Z.lt_trichotomy b d) as [|[->|]]; auto.
Qed.

(** Orders on addresses, by what the pieces there say. *)
Definition below (P : gmap Z io_piece) (k : Z * Z) (a : Z) : Prop :=
  ∃ p, P !! a = Some p ∧ klt (key p) k.
Definition above (P : gmap Z io_piece) (k : Z * Z) (a : Z) : Prop :=
  ∃ p, P !! a = Some p ∧ klt k (key p).
Definition sorted (P : gmap Z io_piece) (l : list Z) : Prop :=
  StronglySorted (λ a b, ∃ p q, P !! a = Some p ∧ P !! b = Some q ∧ klt (key p) (key q)) l.

(** ** The invariant *)

Section inv.
Context {Hd : HistHeads}.

Record hist_ok (s : hist) (tl ll xs rl : list Z) : Prop := HistOk {
  ok_tree : is_rbtree (io_hist_tree s) tl;
  ok_list : ring (lists s) io_hist_list ll;
  ok_trim : ring (trims s) trim_list rl;
  ok_self : ∀ a, a ∈ tl ++ ll ++ xs → a ∉ rl → ring (trims s) a [];
  ok_nodup : NoDup (tl ++ ll ++ xs);
  ok_good : Forall good (tl ++ ll ++ xs);
  ok_heads : io_hist_list ∉ tl ++ ll ++ xs ∧ trim_list ∉ tl ++ ll ++ xs;
  ok_pieces : ∀ a, is_Some (pieces s !! a) ↔ a ∈ tl ++ ll ++ xs;
  ok_nodes : ∀ a, is_Some (nodes (io_hist_tree s) !! a) ↔ a ∈ tl ++ ll ++ xs;
  ok_lists : ∀ a, is_Some (lists s !! a) ↔ a = io_hist_list ∨ a ∈ tl ++ ll ++ xs;
  ok_trims : ∀ a, is_Some (trims s !! a) ↔ a = trim_list ∨ a ∈ tl ++ ll ++ xs;
  ok_sub : ∀ a, a ∈ rl → a ∈ tl ++ ll ++ xs;
  ok_entries : trim_entries s = u64 (Z.of_nat (length rl));
  ok_sorted : sorted (pieces s) tl;
  ok_onrb : ∀ a p, a ∈ tl → pieces s !! a = Some p →
    has_flag IP_F_ONRB p = true ∧ has_flag IP_F_ONLIST p = false;
  ok_onlist : ∀ a p, a ∈ ll → pieces s !! a = Some p →
    has_flag IP_F_ONLIST p = true ∧ has_flag IP_F_ONRB p = false
}.

(** ** Running the parts *)

Lemma on_tree_run {A} (m : rbprog A) s x t :
  m (io_hist_tree s) = (Done x, t) → on_tree m s = (Done x, set_tree t s).
Proof. intros E. unfold on_tree. by rewrite (zoom_run _ _ _ _ _ _ E). Qed.
Lemma on_lists_run {A} (m : flprog A) s x h :
  m (lists s) = (Done x, h) → on_lists m s = (Done x, set_lists h s).
Proof. intros E. unfold on_lists. by rewrite (zoom_run _ _ _ _ _ _ E). Qed.
Lemma on_trims_run {A} (m : flprog A) s x h :
  m (trims s) = (Done x, h) → on_trims m s = (Done x, set_trims h s).
Proof. intros E. unfold on_trims. by rewrite (zoom_run _ _ _ _ _ _ E). Qed.
Lemma get_piece_run s a p : pieces s !! a = Some p → get_piece a s = (Done p, s).
Proof. unfold get_piece. by intros ->. Qed.
Lemma upd_piece_run s a p f :
  pieces s !! a = Some p → upd_piece a f s = (Done tt, set_pieces (<[a := f p]> (pieces s)) s).
Proof. intros E. unfold upd_piece. by rewrite (bind_done _ _ _ _ _ (get_piece_run _ _ _ E)). Qed.

(** ** Changing what a piece says *)

Lemma sorted_upd P a p q l : P !! a = Some p → key q = key p → sorted P l → sorted (<[a := q]> P) l.
Proof.
  intros Ha Hk Hs. unfold sorted in *. induction Hs as [|x l Hs IH Hx]; constructor; [done|].
  eapply Forall_impl; [exact Hx|]. simpl. intros b (p1 & p2 & H1 & H2 & Hlt).
  assert (∀ y r, P !! y = Some r → ∃ r', <[a := q]> P !! y = Some r' ∧ key r' = key r) as Hup.
  { intros y r Hy. destruct (decide (a = y)) as [->|].
    - rewrite lookup_insert_eq. eexists. split; [done|]. congruence.
    - rewrite lookup_insert_ne by done. eauto. }
  destruct (Hup _ _ H1) as (r1 & ? & E1), (Hup _ _ H2) as (r2 & ? & E2).
  exists r1, r2. by rewrite E1, E2.
Qed.

Lemma upd_ok s tl ll xs rl a p q :
  hist_ok s tl ll xs rl → pieces s !! a = Some p → (a ∈ tl → key q = key p) →
  (a ∈ tl → has_flag IP_F_ONRB q = true ∧ has_flag IP_F_ONLIST q = false) →
  (a ∈ ll → has_flag IP_F_ONLIST q = true ∧ has_flag IP_F_ONRB q = false) →
  hist_ok (set_pieces (<[a := q]> (pieces s)) s) tl ll xs rl.
Proof.
  intros Hok Hp Hk H1 H2. destruct Hok as [? ? ? ? ? ? ? Hpc ? ? ? ? ? Hs Ht Hl]. constructor; try done; simpl.
  - intros b. rewrite <- Hpc. rewrite lookup_insert_is_Some'. destruct (decide (a = b)) as [->|]; naive_solver.
  - destruct (decide (a ∈ tl)) as [Hin|Hout]; [by eapply sorted_upd; eauto|].
    unfold sorted in *. clear -Hs Hout. induction Hs as [|x l Hs IH Hx]; constructor; [set_solver|].
    apply Forall_forall. intros b Hb. rewrite Forall_forall in Hx.
    rewrite !lookup_insert_ne by set_solver. by apply Hx.
  - intros b r Hb. destruct (decide (a = b)) as [->|]; [rewrite lookup_insert_eq|rewrite lookup_insert_ne by done]; naive_solver.
  - intros b r Hb. destruct (decide (a = b)) as [->|]; [rewrite lookup_insert_eq|rewrite lookup_insert_ne by done]; naive_solver.
Qed.

(** ** Moving pieces *)

Lemma tree_ok s tl ll xs rl tl' xs' t :
  hist_ok s tl ll xs rl → tl' ++ ll ++ xs' ≡ₚ tl ++ ll ++ xs → is_rbtree t tl' →
  dom (nodes t) = dom (nodes (io_hist_tree s)) → sorted (pieces s) tl' →
  (∀ a p, a ∈ tl' → pieces s !! a = Some p →
     has_flag IP_F_ONRB p = true ∧ has_flag IP_F_ONLIST p = false) →
  hist_ok (set_tree t s) tl' ll xs' rl.
Proof.
  intros Hok Hp Ht Hdm Hs Hf. destruct Hok as [? ? ? Hself Hnd Hg Hh Hpc Hn Hli Htr Hsub ? _ _ ?].
  constructor; try done; simpl.
  - intros a. rewrite Hp. apply Hself.
  - by rewrite Hp.
  - by rewrite Hp.
  - by rewrite Hp.
  - intros a. rewrite Hp. apply Hpc.
  - intros a. rewrite Hp. rewrite <- Hn, <- !elem_of_dom. by rewrite Hdm.
  - intros a. rewrite Hp. apply Hli.
  - intros a. rewrite Hp. apply Htr.
  - intros a. rewrite Hp. apply Hsub.
Qed.

Lemma lists_ok s tl ll xs rl ll' xs' h :
  hist_ok s tl ll xs rl → tl ++ ll' ++ xs' ≡ₚ tl ++ ll ++ xs → ring h io_hist_list ll' →
  dom h = dom (lists s) →
  (∀ a p, a ∈ ll' → pieces s !! a = Some p →
     has_flag IP_F_ONLIST p = true ∧ has_flag IP_F_ONRB p = false) →
  hist_ok (set_lists h s) tl ll' xs' rl.
Proof.
  intros Hok Hp Ht Hdm Hf. destruct Hok as [? ? ? Hself Hnd Hg Hh Hpc Hn Hli Htr Hsub ? ? ? _].
  constructor; try done; simpl.
  - intros a. rewrite Hp. apply Hself.
  - by rewrite Hp.
  - by rewrite Hp.
  - by rewrite Hp.
  - intros a. rewrite Hp. apply Hpc.
  - intros a. rewrite Hp. apply Hn.
  - intros a. rewrite Hp, <- Hli, <- !elem_of_dom. by rewrite Hdm.
  - intros a. rewrite Hp. apply Htr.
  - intros a. rewrite Hp. apply Hsub.
Qed.

Lemma trims_ok s tl ll xs rl rl' h n :
  hist_ok s tl ll xs rl → ring h trim_list rl' → dom h = dom (trims s) →
  (∀ a, a ∈ tl ++ ll ++ xs → a ∉ rl' → ring h a []) → (∀ a, a ∈ rl' → a ∈ tl ++ ll ++ xs) →
  n = u64 (Z.of_nat (length rl')) →
  hist_ok (set_entries n (set_trims h s)) tl ll xs rl'.
Proof.
  intros Hok Hr Hdm Hself' Hsub' Hn. destruct Hok as [? ? ? Hself Hnd Hg Hh Hpc Hno Hli Htr Hsub ? ? ? ?].
  constructor; try done; simpl. intros a. rewrite <- Htr, <- !elem_of_dom. by rewrite Hdm.
Qed.

Lemma filter_ne_perm (l : list Z) a : NoDup l → a ∈ l → a :: filter (λ b, b ≠ a) l ≡ₚ l.
Proof.
  intros Hnd Ha. apply list_elem_of_split in Ha as (l1 & l2 & ->). rewrite filter_mid by done.
  by rewrite Permutation_middle.
Qed.
Lemma sorted_filter P (l : list Z) a : sorted P l → sorted P (filter (λ b, b ≠ a) l).
Proof.
  intros Hs. unfold sorted in *. induction Hs as [|x l Hs IH Hx]; [constructor|].
  rewrite filter_cons. case_decide; [|done]. constructor; [done|].
  apply Forall_forall. intros b [_ Hb]%list_elem_of_filter. rewrite Forall_forall in Hx. by apply Hx.
Qed.

Lemma tree_erase_run s tl ll xs rl a :
  hist_ok s tl ll xs rl → a ∈ tl →
  ∃ t, on_tree (rb_erase a) s = (Done tt, set_tree t s) ∧
    hist_ok (set_tree t s) (filter (λ b, b ≠ a) tl) ll (a :: xs) rl.
Proof.
  intros Hok Ha. destruct (rb_erase_spec _ _ a (ok_tree _ _ _ _ _ Hok) Ha) as (t & E & Ht & Hdm).
  exists t. split; [by apply on_tree_run|]. eapply tree_ok; [done| |done|done|by apply sorted_filter, (ok_sorted _ _ _ _ _ Hok)|].
  - rewrite (app_assoc (filter _ _)), <- Permutation_middle, <- app_assoc, app_comm_cons, filter_ne_perm; [done| |done].
    pose proof (ok_nodup _ _ _ _ _ Hok) as Hnd. by apply NoDup_app in Hnd as [? _].
  - intros b p [_ Hb]%list_elem_of_filter. by apply (ok_onrb _ _ _ _ _ Hok).
Qed.

Lemma free_run s tl ll xs rl a :
  hist_ok s tl ll (a :: xs) rl → a ∉ rl →
  ∃ s', free_piece a s = (Done tt, s') ∧ hist_ok s' tl ll xs rl ∧
    pieces s' = delete a (pieces s) ∧ io_hist_len s' = io_hist_len s.
Proof.
  intros Hok Hrl. destruct Hok as [Ht Hr Htr Hself Hnd Hg [Hh1 Hh2] Hpc Hno Hli Htm Hsub He Hs Hf1 Hf2].
  assert (tl ++ ll ++ a :: xs ≡ₚ a :: tl ++ ll ++ xs) as Hperm.
  { rewrite app_assoc, <- Permutation_middle. by rewrite <- app_assoc. }
  assert (∀ b, b ∈ tl ++ ll ++ a :: xs ↔ b = a ∨ b ∈ tl ++ ll ++ xs) as Hin.
  { intros b. rewrite Hperm. set_solver. }
  rewrite Hperm in Hnd, Hg, Hh1, Hh2. apply NoDup_cons in Hnd as [Hout Hnd].
  apply Forall_cons in Hg as [_ Hg].
  destruct (proj2 (Hpc a)) as [p Hp]; [apply Hin; by left|].
  eexists. split; [unfold free_piece; by rewrite (bind_done _ _ _ _ _ (get_piece_run _ _ _ Hp))|].
  assert (∀ b, b ≠ a ∧ (b = a ∨ b ∈ tl ++ ll ++ xs) ↔ b ∈ tl ++ ll ++ xs) as Hne.
  { intros b. split; [naive_solver|]. intros Hb. split; [|by right]. by intros ->. }
  split; [|done]. constructor; simpl.
  - apply (is_rbtree_frame (io_hist_tree s)); [done|]. intros b Hb. apply lookup_delete_ne. set_solver.
  - eapply ring_frame; [done|]. intros b Hb. apply lookup_delete_ne. set_solver.
  - eapply ring_frame; [done|]. intros b Hb. apply lookup_delete_ne. set_solver.
  - intros b Hb Hb'. eapply ring_frame; [apply Hself; [apply Hin; by right|done]|].
    intros c Hc. apply lookup_delete_ne. set_solver.
  - done.
  - done.
  - set_solver.
  - intros b. rewrite lookup_delete_is_Some, Hpc, Hin. rewrite <- Hne. naive_solver.
  - intros b. rewrite lookup_delete_is_Some, Hno, Hin. rewrite <- Hne. naive_solver.
  - intros b. rewrite lookup_delete_is_Some, Hli, Hin. set_solver.
  - intros b. rewrite lookup_delete_is_Some, Htm, Hin. set_solver.
  - intros b Hb. specialize (Hsub b Hb). rewrite Hin in Hsub. destruct Hsub as [->|]; done.
  - done.
  - unfold sorted in *. clear -Hs Hout. induction Hs as [|x l Hs IH Hx]; constructor; [set_solver|].
    apply Forall_forall. intros b Hb. rewrite Forall_forall in Hx.
    rewrite !lookup_delete_ne by set_solver. by apply Hx.
  - intros b q Hb. rewrite lookup_delete_ne by set_solver. by apply Hf1.
  - intros b q Hb. rewrite lookup_delete_ne by set_solver. by apply Hf2.
Qed.

(** A new piece is loose. *)
Lemma alloc_run s tl ll xs rl a p :
  hist_ok s tl ll xs rl → good a → a ∉ tl ++ ll ++ xs → a ≠ io_hist_list → a ≠ trim_list →
  ∃ s', hist_ok s' tl ll (a :: xs) rl ∧ pieces s' = <[a := p]> (pieces s) ∧
    io_hist_len s' = io_hist_len s ∧
    ∀ A (k : hprog A),
      (malloc_piece a;; on_trims (INIT_FLIST_HEAD a);; upd_piece a (λ _, p);; k) s = k s'.
Proof.
  intros Hok Hga Hout Hn1 Hn2.
  destruct Hok as [Ht Hr Htr Hself Hnd Hg [Hh1 Hh2] Hpc Hno Hli Htm Hsub He Hs Hf1 Hf2].
  assert (tl ++ ll ++ a :: xs ≡ₚ a :: tl ++ ll ++ xs) as Hperm.
  { rewrite app_assoc, <- Permutation_middle. by rewrite <- app_assoc. }
  assert (∀ b, b ∈ tl ++ ll ++ a :: xs ↔ b = a ∨ b ∈ tl ++ ll ++ xs) as Hin.
  { intros b. rewrite Hperm. set_solver. }
  set (s0 := (malloc_piece a s).2).
  destruct (init_run (trims s0) a) as (h & E & Hra & Hdm & Hother).
  { simpl. rewrite lookup_insert_eq. by eexists. }
  assert (∀ b, b ≠ a → h !! b = trims s !! b) as Hh.
  { intros b Hb. rewrite Hother by done. simpl. by rewrite lookup_insert_ne. }
  assert (pieces (set_trims h s0) !! a = Some (IoPiece 0 0 0 0 0)) as Hpa by apply lookup_insert_eq.
  exists (set_pieces (<[a := p]> (pieces (set_trims h s0))) (set_trims h s0)).
  split; [|split; [simpl; apply insert_insert_eq|split; [done|]]].
  - constructor; simpl.
    + apply (is_rbtree_frame (io_hist_tree s)); [done|]. intros b Hb. apply lookup_insert_ne. set_solver.
    + eapply ring_frame; [done|]. intros b Hb. apply lookup_insert_ne. set_solver.
    + eapply ring_frame; [done|]. intros b Hb. apply Hh. set_solver.
    + intros b Hb Hb'. apply Hin in Hb as [->|Hb]; [done|].
      eapply ring_frame; [by apply Hself|]. intros c Hc. apply Hh. set_solver.
    + rewrite Hperm. by apply NoDup_cons.
    + rewrite Hperm. by apply Forall_cons.
    + rewrite Hperm. set_solver.
    + intros b. rewrite Hin. rewrite !lookup_insert_is_Some', Hpc. naive_solver.
    + intros b. rewrite Hin. rewrite !lookup_insert_is_Some', Hno. naive_solver.
    + intros b. rewrite Hin. rewrite !lookup_insert_is_Some', Hli. naive_solver.
    + intros b. rewrite Hin. rewrite <- elem_of_dom, Hdm, elem_of_dom. simpl.
      rewrite !lookup_insert_is_Some', Htm. naive_solver.
    + intros b Hb. apply Hin. right. by apply Hsub.
    + done.
    + unfold sorted in *. clear -Hs Hout. induction Hs as [|x l Hs IH Hx]; constructor; [set_solver|].
      apply Forall_forall. intros b Hb. rewrite Forall_forall in Hx.
      rewrite !lookup_insert_ne by set_solver. by apply Hx.
    + intros b q Hb. rewrite !lookup_insert_ne by set_solver. by apply Hf1.
    + intros b q Hb. rewrite !lookup_insert_ne by set_solver. by apply Hf2.
  - intros A k. rewrite (bind_done (malloc_piece a) _ s s0 tt eq_refl).
    rewrite (bind_done _ _ _ _ _ (on_trims_run _ s0 _ _ E)).
    by rewrite (bind_done _ _ _ _ _ (upd_piece_run _ a _ (λ _, p) Hpa)).
Qed.

(** A piece goes on the trim list. *)
Lemma u64_succ (n : nat) : u64 (u64 (Z.of_nat n) + 1) = u64 (Z.of_nat (S n)).
Proof. unfold u64. rewrite Zplus_mod_idemp_l. f_equal. lia. Qed.
Lemma u64_pred (n : nat) : (0 < n)%nat → u64 (u64 (Z.of_nat n) + -1) = u64 (Z.of_nat (n - 1)).
Proof. intros Hn. unfold u64. rewrite Zplus_mod_idemp_l. f_equal. lia. Qed.

Lemma trim_add_run s tl ll xs rl a :
  hist_ok s tl ll xs rl → a ∈ tl ++ ll ++ xs → a ∉ rl →
  ∃ s', (on_trims (flist_add_tail a trim_list);; add_entries 1) s = (Done tt, s') ∧
    hist_ok s' tl ll xs (rl ++ [a]) ∧ pieces s' = pieces s ∧ io_hist_len s' = io_hist_len s.
Proof.
  intros Hok Ha Hrl. pose proof (ok_heads _ _ _ _ _ Hok) as [_ Hh].
  destruct (flist_add_tail_run (trims s) trim_list rl a) as (h & E & Hr & Hdm & Hother).
  - by apply (ok_trim _ _ _ _ _ Hok).
  - set_solver.
  - apply (ok_trims _ _ _ _ _ Hok). by right.
  - eexists. split; [by rewrite (bind_done _ _ _ _ _ (on_trims_run _ s _ _ E))|].
    split; [|done]. eapply trims_ok; [done|done|done| | |].
    + intros b Hb Hb'. eapply ring_frame; [apply (ok_self _ _ _ _ _ Hok b Hb); set_solver|].
      intros c Hc. apply Hother. set_solver.
    + intros b Hb. pose proof (ok_sub _ _ _ _ _ Hok b). set_solver.
    + simpl. rewrite (ok_entries _ _ _ _ _ Hok), u64_succ, length_app. simpl. f_equal. lia.
Qed.

(** A piece leaves the trim list, if it is on it. *)
Lemma trim_remove_run s tl ll xs rl a :
  hist_ok s tl ll xs rl → a ∈ tl ++ ll ++ xs →
  ∃ s', remove_trim_entry a s = (Done tt, s') ∧
    hist_ok s' tl ll xs (filter (λ b, b ≠ a) rl) ∧ pieces s' = pieces s ∧ io_hist_len s' = io_hist_len s.
Proof.
  intros Hok Ha. pose proof (ok_heads _ _ _ _ _ Hok) as [_ Hh]. pose proof (ok_trim _ _ _ _ _ Hok) as Htr.
  unfold remove_trim_entry. destruct (decide (a ∈ rl)) as [Hin|Hout].
  - apply list_elem_of_split in Hin as (l1 & l2 & ->).
    pose proof (ring_split _ _ _ _ _ Htr) as Hsp.
    rewrite filter_mid by (destruct Htr as [_ Hnd]; by apply NoDup_cons in Hnd as [_ ?]).
    assert (on_trims (flist_empty a) s = (Done false, s)) as E0.
    { destruct s as [t0 l0 h0 p0 n0 m0]. rewrite (on_trims_run _ _ false h0); [done|]. simpl in *.
      destruct Htr as [Hs _]. apply seg_app in Hs as [_ Hs]. unfold flist_empty.
      rewrite (fl_get_next (λ x, mret (x =? a)) _ _ _ (seg_first _ _ _ _ Hs)).
      rewrite (proj2 (Z.eqb_neq _ _)); [done|]. pose proof (first_of_in l2 trim_list). set_solver. }
    rewrite (bind_done _ _ _ _ _ E0).
    destruct (flist_del_init_run _ _ _ _ _ Htr) as (h & E & Hr & Hra & Hdm & Hother).
    eexists. split; [by rewrite (bind_done _ _ _ _ _ (on_trims_run _ s _ _ E))|].
    split; [|done]. eapply trims_ok; [done|done|done| | |].
    + intros b Hb Hb'. destruct (decide (b = a)) as [->|]; [done|].
      eapply ring_frame; [apply (ok_self _ _ _ _ _ Hok b Hb); set_solver|]. intros c Hc. apply Hother. set_solver.
    + intros b Hb. apply (ok_sub _ _ _ _ _ Hok). set_solver.
    + simpl. rewrite (ok_entries _ _ _ _ _ Hok), u64_pred; rewrite !length_app; simpl; [|lia]. f_equal. lia.
  - assert (filter (λ b, b ≠ a) rl = rl) as ->.
    { clear -Hout. induction rl as [|x l IH]; [done|]. rewrite filter_cons_True by set_solver.
      rewrite IH; [done|set_solver]. }
    exists s. split; [|done]. destruct s as [t0 l0 h0 p0 n0 m0].
    rewrite (bind_done _ _ _ _ _ (on_trims_run _ _ true h0 (flist_empty_run _ _ [] (ok_self _ _ _ _ _ Hok a Ha Hout)))).
    done.
Qed.

(** ** The search *)

Lemma height_le t : (height t ≤ length (addrs t))%nat.
Proof. induction t as [|c l IHl a r IHr]; simpl; [lia|]. rewrite length_app. simpl. lia. Qed.

Lemma get_link_run s K t : rep s K t → get_link (link_of K) s = (Done (ptr t), s).
Proof.
  intros [_ HK _]. destruct K as [|f K]; simpl in *; [by rewrite <- HK|].
  destruct HK as (Hf & _ & _). rewrite (bind_done _ _ _ _ _ (rb_get_run _ _ _ Hf)). by rewrite child_cell.
Qed.

Lemma set_tree_same s : set_tree (io_hist_tree s) s = s.
Proof. by destruct s. Qed.

Lemma sorted_mid P l1 a l2 q :
  sorted P (l1 ++ a :: l2) → P !! a = Some q → Forall (below P (key q)) l1 ∧ Forall (above P (key q)) l2.
Proof.
  intros Hs Hq. unfold sorted in Hs. induction l1 as [|x l1 IH]; simpl in *.
  - apply StronglySorted_inv in Hs as [_ Hs]. split; [constructor|].
    eapply Forall_impl; [exact Hs|]. intros b (p & r & Hp & Hr & Hlt). exists r. split; [done|].
    by rewrite Hq in Hp; injection Hp as ->.
  - apply StronglySorted_inv in Hs as [Hs Hx]. destruct (IH Hs) as [H1 H2]. split; [|done].
    constructor; [|done]. rewrite Forall_forall in Hx. destruct (Hx a) as (p & r & Hp & Hr & Hlt); [set_solver|].
    exists p. split; [done|]. by rewrite Hq in Hr; injection Hr as ->.
Qed.

(** What the search finds in a tree with the nodes [l]. *)
Definition sought (s : hist) (k : Z * Z) (l : list Z) (r : place) : Prop :=
  match r with
  | Gap parent p => ∃ l1 l2, is_gap (io_hist_tree s) parent p l1 l2 ∧ l = l1 ++ l2 ∧
      Forall (below (pieces s) k) l1 ∧ Forall (above (pieces s) k) l2
  | Same x => ∃ q l1 l2, pieces s !! x = Some q ∧ key q = k ∧ l = l1 ++ x :: l2 ∧
      Forall (below (pieces s) k) l1 ∧ Forall (above (pieces s) k) l2
  end.

Lemma seek_run fuel s K t file offset :
  rep (io_hist_tree s) K t → (∃ n, rb Black n (plug K t)) → (height t < fuel)%nat →
  (∀ a, a ∈ addrs t → is_Some (pieces s !! a)) → sorted (pieces s) (addrs (plug K t)) →
  Forall (below (pieces s) (file, offset)) (before K) →
  Forall (above (pieces s) (file, offset)) (after K) →
  ∃ r, seek fuel file offset (par K) (link_of K) s = (Done r, s) ∧
    sought s (file, offset) (addrs (plug K t)) r.
Proof.
  set (k := (file, offset)).
  revert fuel K. induction t as [|c l IHl a r IHr]; intros fuel K Hr Hrb Hf Hin Hs Hb Ha;
    (destruct fuel as [|fuel]; [lia|]); cbn [seek];
    rewrite (bind_done _ _ _ _ _ (on_tree_run _ _ _ _ (get_link_run _ _ _ Hr))), set_tree_same.
  - simpl. eexists. split; [done|]. exists (before K), (after K). destruct Hrb as [n Hrb].
    split_and!; [|by rewrite addrs_plug_eq|done..].
    exists (plug K Leaf), n, K. split_and!; try done. by rewrite <- rep_plug.
  - cbn [ptr]. rewrite (rep_nonzero _ _ L _ _ _ _ Hr).
    destruct (Hin a) as [q Hq]; [simpl; set_solver|].
    rewrite (bind_done _ _ _ _ _ (get_piece_run _ _ _ Hq)).
    assert (addrs (plug K (Node c l a r)) = (before K ++ addrs l) ++ a :: addrs r ++ after K) as Haddr.
    { rewrite addrs_plug_eq. simpl. by rewrite <- !app_assoc. }
    pose proof Hs as Hs'. rewrite Haddr in Hs'. destruct (sorted_mid _ _ _ _ _ Hs' Hq) as [Hlow Hhigh].
    apply Forall_app in Hlow as [_ Hlow]. apply Forall_app in Hhigh as [Hhigh _]. simpl in Hf.
    assert (klt k (key q) → ∃ res, seek fuel file offset a (LinkChild L a) s = (Done res, s) ∧
      sought s k (addrs (plug K (Node c l a r))) res) as HL.
    { intros Hlt. apply (IHl fuel (Frame L a c r :: K)); [by apply (rep_down _ _ L)|done|lia| |done|done|].
      - intros b Hb'. apply Hin. simpl. set_solver.
      - simpl. apply Forall_cons. split; [by exists q|]. apply Forall_app. split; [|done].
        eapply Forall_impl; [exact Hhigh|]. intros b (p & Hp & Hkp). exists p. split; [done|]. by eapply klt_trans. }
    assert (klt (key q) k → ∃ res, seek fuel file offset a (LinkChild R a) s = (Done res, s) ∧
      sought s k (addrs (plug K (Node c l a r))) res) as HR.
    { intros Hlt. apply (IHr fuel (Frame R a c l :: K)); [by apply (rep_down_other _ _ L)|done|lia| |done| |done].
      - intros b Hb'. apply Hin. simpl. set_solver.
      - simpl. apply Forall_app. split; [done|]. apply Forall_app. split; [|by apply Forall_cons; split; [exists q|]].
        eapply Forall_impl; [exact Hlow|]. intros b (p & Hp & Hkp). exists p. split; [done|]. by eapply klt_trans. }
    unfold klt, key, k in HL, HR. simpl in HL, HR.
    destruct (Z.ltb_spec file (ip_file q)); [apply HL; lia|].
    destruct (Z.ltb_spec (ip_file q) file); [apply HR; lia|].
    destruct (Z.ltb_spec offset (ip_offset q)); [apply HL; lia|].
    destruct (Z.ltb_spec (ip_offset q) offset); [apply HR; lia|].
    assert (key q = k) as Hk by (unfold key, k; f_equal; lia).
    eexists. split; [done|]. exists q, (before K ++ addrs l), (addrs r ++ after K). rewrite Hk in *.
    split_and!; try done; by apply Forall_app.
Qed.
End inv.
