(* ===== verification/FioIologCorrect.v ===== *)
(** * fio: the history of writes, as its users see it

    The operations on the history, each with what it does to the pieces: a write
    is recorded in its place, replacing an older one of the same block, or at the
    end of the list; verification takes the pieces in order. *)
From Stdlib Require Import ZArith Lia.
From stdpp Require Import base numbers gmap list sorting.
From S2P Require Import Prelude FioRbtree FioRbtreeShape FioRbtreeInsert FioRbtreeErase FioRbtreeSpec FioFlist.
From S2P Require Import FioIolog FioIologInv.

(** ** The abstract history *)

(** A write takes its place among writes sorted by block, where it replaces one of
    the same block. *)
Fixpoint record_write (p : io_piece) (l : list io_piece) : list io_piece :=
  match l with
  | [] => [p]
  | q :: l =>
      if decide (klt (key p) (key q)) then p :: q :: l
      else if decide (key p = key q) then p :: l
      else q :: record_write p l
  end.

(** The pieces at some addresses. *)
Definition at_addrs (P : gmap Z io_piece) (l : list Z) : list io_piece := omap (λ a, P !! a) l.

Lemma at_addrs_app P l k : at_addrs P (l ++ k) = at_addrs P l ++ at_addrs P k.
Proof. apply omap_app. Qed.
Lemma at_addrs_step P a l :
  at_addrs P (a :: l) = match P !! a with Some p => p :: at_addrs P l | None => at_addrs P l end.
Proof. done. Qed.
Lemma at_addrs_cons P a p l : P !! a = Some p → at_addrs P (a :: l) = p :: at_addrs P l.
Proof. rewrite at_addrs_step. by intros ->. Qed.
Lemma at_addrs_ext P P' l : (∀ a, a ∈ l → P' !! a = P !! a) → at_addrs P' l = at_addrs P l.
Proof.
  intros H. induction l as [|a l IH]; [done|].
  rewrite !at_addrs_step, H by set_solver. rewrite IH; [done|set_solver].
Qed.
Lemma at_addrs_length P l : (∀ a, a ∈ l → is_Some (P !! a)) → length (at_addrs P l) = length l.
Proof.
  intros H. induction l as [|a l IH]; [done|]. destruct (H a) as [p Hp]; [set_solver|].
  rewrite (at_addrs_cons _ _ _ _ Hp). simpl. rewrite IH; [done|set_solver].
Qed.

Lemma record_write_in P k p l1 mid l2 :
  key p = k → Forall (below P k) l1 → Forall (above P k) l2 →
  (mid = [] ∨ ∃ x q, mid = [x] ∧ P !! x = Some q ∧ key q = k) →
  record_write p (at_addrs P (l1 ++ mid ++ l2)) = at_addrs P l1 ++ p :: at_addrs P l2.
Proof.
  intros Hk H1 H2 Hmid. induction H1 as [|a l1 (q & Hq & Hlt) _ IH].
  - rewrite app_nil_l, at_addrs_app. change (at_addrs P []) with (@nil io_piece).
    destruct Hmid as [->|(x & q & -> & Hq & Hkq)].
    + destruct H2 as [|b l2 (r & Hr & Hlt) _]; [done|]. rewrite (at_addrs_cons _ _ _ _ Hr). simpl.
      rewrite Hk. by rewrite decide_True.
    + rewrite (at_addrs_cons P x q []) by done. simpl. rewrite decide_False, decide_True; [done|congruence|].
      rewrite Hk, Hkq. apply klt_irrefl.
  - rewrite <- !app_comm_cons, !(at_addrs_cons _ _ _ _ Hq). simpl. rewrite IH.
    rewrite decide_False, decide_False; [done|..]; rewrite Hk.
    + intros E. rewrite <- E in Hlt. by apply klt_irrefl in Hlt.
    + intros Hlt'. by apply (klt_irrefl (key q)), (klt_trans _ k).
Qed.

Section correct.
Context {Hd : HistHeads}.

(** The history, with its counter. *)
Definition history (s : hist) (tl ll xs rl : list Z) : Prop :=
  hist_ok s tl ll xs rl ∧ io_hist_len s = u64 (Z.of_nat (length tl + length ll)).

(** ** The search from the root *)

Lemma seek_hist s tl ll xs rl file offset :
  hist_ok s tl ll xs rl →
  ∃ r, seek (heap_fuel (io_hist_tree s)) file offset 0 LinkRoot s = (Done r, s) ∧
    sought s (file, offset) tl r.
Proof.
  intros Hok. destruct (ok_tree _ _ _ _ _ Hok) as (T & n & Hr & Hrb & <-).
  apply (seek_run _ s [] T file offset); [done|by exists n| | | |constructor|constructor].
  - pose proof (rep_size _ _ _ Hr) as H. simpl in H. rewrite app_nil_r in H. pose proof (height_le T).
    unfold heap_fuel. lia.
  - intros a Ha. apply (ok_pieces _ _ _ _ _ Hok). set_solver.
  - by apply (ok_sorted _ _ _ _ _ Hok).
Qed.

Lemma sorted_join P l1 a p l2 :
  sorted P (l1 ++ l2) → P !! a = Some p → Forall (below P (key p)) l1 → Forall (above P (key p)) l2 →
  sorted P (l1 ++ a :: l2).
Proof.
  intros Hs Ha H1 H2. unfold sorted in *. induction H1 as [|x l1 (q & Hq & Hlt) H1 IH]; simpl in *.
  - constructor; [done|]. eapply Forall_impl; [exact H2|]. intros b (r & Hr & Hlt). by exists p, r.
  - apply StronglySorted_inv in Hs as [Hs Hx]. constructor; [by apply IH|].
    apply Forall_app in Hx as [Hx1 Hx2]. apply Forall_app. split; [done|]. constructor; [|done]. by exists q, p.
Qed.

(** ** Logging a write *)

Lemma below_upd P P' k l :
  (∀ b, b ∈ l → P' !! b = P !! b) → Forall (below P k) l → Forall (below P' k) l.
Proof.
  intros Hb H. rewrite Forall_forall in *. intros b Hin. destruct (H b Hin) as (r & Hr & Hlt).
  exists r. by rewrite Hb.
Qed.
Lemma above_upd P P' k l :
  (∀ b, b ∈ l → P' !! b = P !! b) → Forall (above P k) l → Forall (above P' k) l.
Proof.
  intros Hb H. rewrite Forall_forall in *. intros b Hin. destruct (H b Hin) as (r & Hr & Hlt).
  exists r. by rewrite Hb.
Qed.

(** The end of [log_io_piece] when there is a place for the piece. *)
Lemma restart_gap fuel s tl ll xs rl a p l1 l2 file offset parent pl :
  hist_ok s tl ll (a :: xs) rl → pieces s !! a = Some p → key p = (file, offset) →
  seek (heap_fuel (io_hist_tree s)) file offset 0 LinkRoot s = (Done (Gap parent pl), s) →
  is_gap (io_hist_tree s) parent pl l1 l2 → tl = l1 ++ l2 →
  Forall (below (pieces s) (key p)) l1 → Forall (above (pieces s) (key p)) l2 →
  let q := with_flags (λ f, Z.lor f IP_F_ONRB) p in
  has_flag IP_F_ONRB q = true ∧ has_flag IP_F_ONLIST q = false →
  ∃ s', restart (S fuel) a file offset s = (Done tt, s') ∧
    hist_ok s' (l1 ++ a :: l2) ll xs rl ∧ pieces s' = <[a := q]> (pieces s) ∧
    io_hist_len s' = u64 (io_hist_len s + 1).
Proof.
  intros Hok Hp Hk Hseek Hgap -> H1 H2 q Hq.
  pose proof (ok_nodup _ _ _ _ _ Hok) as Hnd. pose proof (ok_good _ _ _ _ _ Hok) as Hg.
  assert (a ∉ l1 ++ l2 ∧ a ∉ ll) as [Hout Hll].
  { rewrite app_assoc, <- Permutation_middle in Hnd. apply NoDup_cons in Hnd. set_solver. }
  destruct (rb_insert_spec (io_hist_tree s) parent pl l1 l2 a) as (t & E & Ht & Hdm); [done| |done| |].
  { rewrite Forall_forall in Hg. apply Hg. set_solver. }
  { apply (ok_nodes _ _ _ _ _ Hok). set_solver. }
  cbn [restart]. rewrite (bind_done (readS _) _ s s _ eq_refl), (bind_done _ _ _ _ _ Hseek).
  unfold mbind in E at 1. unfold prog_bind in E at 1.
  destruct (rb_link_node a parent pl (io_hist_tree s)) as [[[]|] t1] eqn:E1; [|done].
  rewrite (bind_done _ _ _ _ _ (on_tree_run _ _ _ _ E1)).
  rewrite (bind_done _ _ _ _ _ (on_tree_run _ (set_tree t1 s) _ _ E)).
  assert (pieces (set_tree t (set_tree t1 s)) !! a = Some p) as Hp' by done.
  rewrite (bind_done _ _ _ _ _ (upd_piece_run _ _ _ _ Hp')). fold q.
  eexists. split; [done|]. split; [|done].
  assert (hist_ok (set_pieces (<[a := q]> (pieces s)) s) (l1 ++ l2) ll (a :: xs) rl) as Hok1.
  { eapply upd_ok; [done|done|done|done|done]. }
  apply (tree_ok _ _ _ _ _ (l1 ++ a :: l2) xs t) in Hok1; [|..].
  - destruct Hok1. constructor; try done.
  - rewrite <- !app_assoc. simpl. apply Permutation_app_head.
    rewrite (app_assoc l2 ll (a :: xs)), <- Permutation_middle. by rewrite <- app_assoc.
  - done.
  - done.
  - assert (key q = key p) as Hkq by done. simpl. apply (sorted_join _ _ _ q).
    + eapply sorted_upd; [done|done|]. by apply (ok_sorted _ _ _ _ _ Hok).
    + apply lookup_insert_eq.
    + rewrite Hkq. eapply below_upd; [|exact H1]. intros b Hb. apply lookup_insert_ne. set_solver.
    + rewrite Hkq. eapply above_upd; [|exact H2]. intros b Hb. apply lookup_insert_ne. set_solver.
  - simpl. intros b r Hb. destruct (decide (a = b)) as [<-|]; [rewrite lookup_insert_eq; by intros [= <-]|].
    rewrite lookup_insert_ne by done. apply (ok_onrb _ _ _ _ _ Hok). set_solver.
Qed.

(** The piece of a write that is on the tree. *)
Definition on_rb (file offset len numberio : Z) : io_piece :=
  IoPiece file offset len numberio (Z.lor IP_F_IN_FLIGHT IP_F_ONRB).
Definition on_list (file offset len numberio : Z) : io_piece :=
  IoPiece file offset len numberio (Z.lor IP_F_IN_FLIGHT IP_F_ONLIST).

(** What logging a write with a piece at [a] does to the tree. *)
Definition logged (s s' : hist) (tl ll xs rl tl' rl' : list Z) (a : Z) (p : io_piece) : Prop :=
  history s' tl' ll xs rl' ∧
  (∀ q, key q = key p →
     at_addrs (<[a := q]> (pieces s')) tl' = record_write q (at_addrs (pieces s) tl)) ∧
  pieces s' !! a = Some p ∧ a ∈ tl' ∧ (∀ b, b ∈ tl' → b = a ∨ b ∈ tl) ∧
  (∀ b, b ∈ rl' → b = a ∨ b ∈ rl) ∧
  ∀ b, b ∈ tl' ++ ll ++ xs → b ≠ a → pieces s' !! b = pieces s !! b.

Lemma restart_gap_run fuel s tl ll xs rl a file offset len numberio parent pl :
  hist_ok s tl ll (a :: xs) rl → pieces s !! a = Some (IoPiece file offset len numberio IP_F_IN_FLIGHT) →
  io_hist_len s = u64 (Z.of_nat (length tl + length ll)) →
  seek (heap_fuel (io_hist_tree s)) file offset 0 LinkRoot s = (Done (Gap parent pl), s) →
  sought s (file, offset) tl (Gap parent pl) →
  ∃ s' tl', restart (S fuel) a file offset s = (Done tt, s') ∧
    logged s s' tl ll xs rl tl' rl a (on_rb file offset len numberio).
Proof.
  intros Hok Hp Hlen E (l1 & l2 & Hgap & -> & H1 & H2).
  destruct (restart_gap fuel s (l1 ++ l2) ll xs rl a (IoPiece file offset len numberio IP_F_IN_FLIGHT)
    l1 l2 file offset parent pl) as (s' & Er & Hok' & Hp' & Hl'); [done..|].
  assert (a ∉ l1 ++ l2) as Hout.
  { pose proof (ok_nodup _ _ _ _ _ Hok) as Hnd. rewrite app_assoc, <- Permutation_middle in Hnd.
    apply NoDup_cons in Hnd. set_solver. }
  exists s', (l1 ++ a :: l2). split; [done|]. split_and!; [| | |set_solver|set_solver|by right|].
  - split; [done|]. rewrite Hl', Hlen, u64_succ, !length_app. simpl. f_equal. lia.
  - intros q Hq. rewrite (record_write_in (pieces s) (file, offset) _ l1 [] l2) by (try done; by left).
    rewrite Hp', insert_insert_eq, at_addrs_app, (at_addrs_cons _ a q) by apply lookup_insert_eq.
    f_equal; [|f_equal]; apply at_addrs_ext; intros b Hb; apply lookup_insert_ne; set_solver.
  - rewrite Hp'. apply lookup_insert_eq.
  - intros b Hb Hne. rewrite Hp'. by apply lookup_insert_ne.
Qed.

Lemma hist_ok_len s n tl ll xs rl : hist_ok s tl ll xs rl → hist_ok (set_len n s) tl ll xs rl.
Proof. by intros []. Qed.

(** From [restart] on, whether the block is there or not. *)
Lemma restart_run fuel s tl ll xs rl a file offset len numberio :
  hist_ok s tl ll (a :: xs) rl → pieces s !! a = Some (IoPiece file offset len numberio IP_F_IN_FLIGHT) →
  (1 < fuel)%nat → io_hist_len s = u64 (Z.of_nat (length tl + length ll)) →
  ∃ s' tl' rl', restart fuel a file offset s = (Done tt, s') ∧
    logged s s' tl ll xs rl tl' rl' a (on_rb file offset len numberio).
Proof.
  intros Hok Hp Hf Hlen. destruct (seek_hist s tl ll (a :: xs) rl file offset Hok) as ([parent pl|x] & E & Hs).
  { destruct fuel as [|fuel]; [lia|]. destruct (restart_gap_run fuel s tl ll xs rl a file offset len numberio
      parent pl Hok Hp Hlen E Hs) as (s' & tl' & H). by exists s', tl', rl. }
  destruct Hs as (q & l1 & l2 & Hq & Hkq & -> & H1 & H2).
  destruct fuel as [|[|fuel]]; [lia..|]. set (n := u64 (io_hist_len s + -1)).
  assert (NoDup (l1 ++ x :: l2)) as Hnd.
  { pose proof (ok_nodup _ _ _ _ _ Hok) as Hnd. by apply NoDup_app in Hnd as [? _]. }
  destruct (tree_erase_run (set_len n s) (l1 ++ x :: l2) ll (a :: xs) rl x) as (t & E1 & Hok1);
    [by apply hist_ok_len|set_solver|]. rewrite filter_mid in Hok1 by done.
  destruct (trim_remove_run _ _ _ _ _ x Hok1) as (s2 & E2 & Hok2 & Hp2 & Hl2); [set_solver|].
  destruct (free_run _ _ _ _ _ _ Hok2) as (s3 & E3 & Hok3 & Hp3 & Hl3).
  { rewrite list_elem_of_filter. naive_solver. }
  assert (a ≠ x) as Hax.
  { pose proof (ok_nodup _ _ _ _ _ Hok) as Hnd'. rewrite app_assoc, <- Permutation_middle in Hnd'.
    apply NoDup_cons in Hnd'. set_solver. }
  assert (pieces s3 = delete x (pieces s)) as Hps by (by rewrite Hp3, Hp2).
  assert (x ∉ l1 ++ l2) as Hx by (rewrite <- Permutation_middle in Hnd; apply NoDup_cons in Hnd; tauto).
  assert (Forall (below (pieces s3) (file, offset)) l1 ∧ Forall (above (pieces s3) (file, offset)) l2) as [G1 G2].
  { rewrite Hps. split; [eapply below_upd; [|exact H1]|eapply above_upd; [|exact H2]];
      intros b Hb; apply lookup_delete_ne; set_solver. }
  destruct (seek_hist s3 _ _ _ _ file offset Hok3) as ([parent pl|y] & E4 & Hs4).
  2:{ destruct Hs4 as (r & k1 & k2 & Hr & Hkr & Hl & _). exfalso.
      assert (y ∈ l1 ++ l2) as [Hy|Hy]%elem_of_app by (rewrite Hl; set_solver).
      - rewrite Forall_forall in G1. destruct (G1 y Hy) as (r' & Hr' & Hlt).
        rewrite Hr in Hr'. injection Hr' as <-. rewrite Hkr in Hlt. by apply klt_irrefl in Hlt.
      - rewrite Forall_forall in G2. destruct (G2 y Hy) as (r' & Hr' & Hlt).
        rewrite Hr in Hr'. injection Hr' as <-. rewrite Hkr in Hlt. by apply klt_irrefl in Hlt. }
  destruct (restart_gap_run fuel s3 (l1 ++ l2) ll xs _ a file offset len numberio parent pl Hok3)
    as (s' & tl' & E5 & Hh & Hc & Hpa & Hin & Hsub & _ & Hrest); [| |done|done|].
  { rewrite Hps. by rewrite lookup_delete_ne. }
  { rewrite Hl3, Hl2. unfold n. simpl. unfold n. rewrite Hlen, u64_pred; rewrite !length_app; simpl; [|lia]. f_equal. lia. }
  exists s', tl', (filter (λ b, b ≠ x) rl). split; [|split_and!; [done| |done|done| | |]].
  - cbn [restart]. rewrite (bind_done (readS _) _ s s _ eq_refl), (bind_done _ _ _ _ _ E).
    rewrite (bind_done (add_len (-1)) _ s (set_len n s) tt eq_refl), (bind_done _ _ _ _ _ E1).
    rewrite (bind_done _ _ _ _ _ E2), (bind_done _ _ _ _ _ E3). exact E5.
  - intros q' Hq'. rewrite Hc, Hps by done. rewrite (at_addrs_ext (pieces s)) by (intros b Hb; apply lookup_delete_ne; set_solver).
    rewrite (record_write_in (pieces s) (file, offset) _ l1 [] l2) by (try done; by left).
    rewrite <- (record_write_in (pieces s) (file, offset) _ l1 [x] l2); [done|done|done|done|].
    right. by exists x, q.
  - intros b Hb. destruct (Hsub b Hb) as [|?]; [by left|right; set_solver].
  - intros b [_ ?]%list_elem_of_filter. by right.
  - intros b Hb Hne. rewrite Hrest, Hps by done. apply lookup_delete_ne. intros <-.
    pose proof (ok_nodup _ _ _ _ _ Hok) as Hnd'. apply NoDup_app in Hnd' as (_ & Hd' & _).
    specialize (Hd' x ltac:(set_solver)). apply elem_of_app in Hb as [Hb|Hb]; [|set_solver].
    destruct (Hsub x Hb); [done|set_solver].
Qed.

(** ** Logging *)

(** What [malloc] may return. *)
Definition malloc_ok (s : hist) (a : Z) : Prop :=
  good a ∧ pieces s !! a = None ∧ a ≠ io_hist_list ∧ a ≠ trim_list.

Lemma malloc_fresh s tl ll xs rl a :
  hist_ok s tl ll xs rl → malloc_ok s a → good a ∧ a ∉ tl ++ ll ++ xs ∧ a ≠ io_hist_list ∧ a ≠ trim_list.
Proof.
  intros Hok (Hg & Hn & H1 & H2). split_and!; [done| |done|done]. intros Hin.
  apply (ok_pieces _ _ _ _ _ Hok) in Hin as [p Hp]. by rewrite Hn in Hp.
Qed.

(** The piece is allocated and perhaps put on the trim list. *)
Lemma prepare_run s tl ll xs rl a trim p :
  history s tl ll xs rl → malloc_ok s a →
  ∃ s1 rl1, hist_ok s1 tl ll (a :: xs) rl1 ∧ pieces s1 = <[a := p]> (pieces s) ∧
    io_hist_len s1 = io_hist_len s ∧ (∀ b, b ∈ rl1 → b = a ∨ b ∈ rl) ∧
    ∀ A (k : hprog A),
      (malloc_piece a;; on_trims (INIT_FLIST_HEAD a);; upd_piece a (λ _, p);;
       (if trim : bool then on_trims (flist_add_tail a trim_list);; add_entries 1 else mret tt);; k) s = k s1.
Proof.
  intros [Hok Hlen] Hm. destruct (malloc_fresh _ _ _ _ _ _ Hok Hm) as (Hg & Hout & H1 & H2).
  destruct (alloc_run s tl ll xs rl a p Hok Hg Hout H1 H2) as (s1 & Hok1 & Hp1 & Hl1 & Hrun).
  destruct trim.
  - destruct (trim_add_run s1 tl ll (a :: xs) rl a Hok1) as (s2 & E2 & Hok2 & Hp2 & Hl2); [set_solver| |].
    { intros Hin. by apply Hout, (ok_sub _ _ _ _ _ Hok). }
    exists s2, (rl ++ [a]). split_and!; [done|by rewrite Hp2|by rewrite Hl2|set_solver|].
    intros A k. rewrite Hrun. by rewrite (bind_done _ _ _ _ _ E2).
  - exists s1, rl. split_and!; [done|done|done|by right|]. intros A k. by rewrite Hrun.
Qed.

Lemma log_tree_run o s tl ll xs rl a trim file offset len numberio :
  history s tl ll xs rl → malloc_ok s a → on_list_mode o file = false →
  ∃ s' tl' rl', log_io_piece o a trim file offset len numberio s = (Done tt, s') ∧
    logged s s' tl ll xs rl tl' rl' a (on_rb file offset len numberio).
Proof.
  intros Hh Hm Hmode.
  destruct (prepare_run s tl ll xs rl a trim (IoPiece file offset len numberio IP_F_IN_FLIGHT) Hh Hm)
    as (s1 & rl1 & Hok1 & Hp1 & Hl1 & Hrl & Hrun).
  destruct Hh as [Hok Hlen]. destruct (malloc_fresh _ _ _ _ _ _ Hok Hm) as (Hg & Hout & _).
  unfold log_io_piece. rewrite Hrun, Hmode.
  destruct (proj2 (ok_nodes _ _ _ _ _ Hok1 a)) as [na Hna]; [set_solver|].
  pose proof (rb_upd_run (io_hist_tree s1) a na (with_pc (λ pc, Z.lor (Z.land pc 3) a)) Hna) as Ec.
  set (t1 := RbRoot _ _) in Ec. rewrite (bind_done _ _ _ _ _ (on_tree_run (rb_clear_node a) s1 _ _ Ec)).
  assert (hist_ok (set_tree t1 s1) tl ll (a :: xs) rl1) as Hok2.
  { eapply tree_ok; [done|done| | |by apply (ok_sorted _ _ _ _ _ Hok1)|by apply (ok_onrb _ _ _ _ _ Hok1)].
    - apply is_rbtree_frame; [by apply (ok_tree _ _ _ _ _ Hok1)|]. intros b Hb. apply lookup_insert_ne. set_solver.
    - apply dom_insert_lookup_L. by eexists. }
  rewrite (bind_done (readS _) _ _ _ _ eq_refl).
  destruct (restart_run (S (size (pieces s1))) (set_tree t1 s1) tl ll xs rl1 a file offset len numberio)
    as (s' & tl' & rl' & E & Hlog); [done|simpl; rewrite Hp1; apply lookup_insert_eq| |simpl; congruence|].
  { rewrite Hp1, map_size_insert. destruct Hm as (_ & -> & _). lia. }
  exists s', tl', rl'. split; [exact E|].
  destruct Hlog as (H1 & H2 & H3 & H4 & H5 & H6 & H7). split_and!; [done| |done|done|done| |].
  - intros q Hq. rewrite H2 by done. simpl. rewrite Hp1. f_equal. apply at_addrs_ext. intros b Hb. apply lookup_insert_ne. set_solver.
  - intros b [|Hb]%H6; [by left|]. by apply Hrl.
  - intros b Hb Hne. rewrite H7 by done. simpl. rewrite Hp1. by apply lookup_insert_ne.
Qed.

Lemma log_list_run o s tl ll xs rl a trim file offset len numberio :
  history s tl ll xs rl → malloc_ok s a → on_list_mode o file = true →
  ∃ s' rl', log_io_piece o a trim file offset len numberio s = (Done tt, s') ∧
    history s' tl (ll ++ [a]) xs rl' ∧ (∀ b, b ∈ rl' → b = a ∨ b ∈ rl) ∧
    pieces s' = <[a := on_list file offset len numberio]> (pieces s).
Proof.
  intros Hh Hm Hmode.
  destruct (prepare_run s tl ll xs rl a trim (IoPiece file offset len numberio IP_F_IN_FLIGHT) Hh Hm)
    as (s1 & rl1 & Hok1 & Hp1 & Hl1 & Hrl & Hrun).
  destruct Hh as [Hok Hlen]. destruct (malloc_fresh _ _ _ _ _ _ Hok Hm) as (Hg & Hout & Hn1 & _).
  unfold log_io_piece. rewrite Hrun, Hmode.
  destruct (init_run (lists s1) a) as (h1 & E1 & _ & Hdm1 & Hot1).
  { apply (ok_lists _ _ _ _ _ Hok1). right. set_solver. }
  rewrite (bind_done _ _ _ _ _ (on_lists_run _ s1 _ _ E1)).
  assert (ring h1 io_hist_list ll) as Hr1.
  { eapply ring_frame; [by apply (ok_list _ _ _ _ _ Hok1)|]. intros b Hb. apply Hot1. set_solver. }
  destruct (flist_add_tail_run h1 io_hist_list ll a Hr1) as (h2 & E2 & Hr2 & Hdm2 & _); [set_solver| |].
  { rewrite <- elem_of_dom, Hdm1, elem_of_dom. apply (ok_lists _ _ _ _ _ Hok1). right. set_solver. }
  rewrite (bind_done _ _ _ _ _ (on_lists_run _ (set_lists h1 s1) _ _ E2)).
  assert (pieces (set_lists h2 (set_lists h1 s1)) !! a =
    Some (IoPiece file offset len numberio IP_F_IN_FLIGHT)) as Hpa.
  { simpl. rewrite Hp1. apply lookup_insert_eq. }
  rewrite (bind_done _ _ _ _ _ (upd_piece_run _ _ _ _ Hpa)).
  eexists _, rl1. split; [done|]. simpl. rewrite Hp1, insert_insert_eq. split_and!; [|done|done].
  split.
  - apply hist_ok_len.
    assert (hist_ok (set_pieces (<[a := on_list file offset len numberio]> (pieces s1)) s1) tl ll (a :: xs) rl1) as Hok2.
    { eapply upd_ok; [done|rewrite Hp1; apply lookup_insert_eq|set_solver..]. }
    apply (lists_ok _ _ _ _ _ (ll ++ [a]) xs h2) in Hok2.
    + rewrite Hp1, insert_insert_eq in Hok2. by destruct Hok2.
    + apply Permutation_app_head. by rewrite <- app_assoc.
    + done.
    + simpl. by rewrite Hdm2, Hdm1.
    + simpl. intros b r Hb. rewrite Hp1, insert_insert_eq.
      destruct (decide (a = b)) as [<-|]; [rewrite lookup_insert_eq; by intros [= <-]|].
      rewrite lookup_insert_ne by done. apply (ok_onlist _ _ _ _ _ Hok). set_solver.
  - simpl. rewrite Hl1, Hlen, u64_succ, length_app. simpl. f_equal. lia.
Qed.

(** ** Completion *)

Definition completed (p : io_piece) : io_piece := with_flags (λ f, Z.land f (Z.lnot IP_F_IN_FLIGHT)) p.

Lemma flag_other p f g :
  Z.land (Z.lnot g) f = f → has_flag f (with_flags (λ x, Z.land x (Z.lnot g)) p) = has_flag f p.
Proof. intros H. unfold has_flag, with_flags. simpl. by rewrite <- Z.land_assoc, H. Qed.
Lemma flag_cleared p : has_flag IP_F_IN_FLIGHT (completed p) = false.
Proof.
  unfold has_flag, completed, with_flags. simpl. rewrite <- Z.land_assoc.
  change (Z.land (Z.lnot IP_F_IN_FLIGHT) IP_F_IN_FLIGHT) with 0. by rewrite Z.land_0_r.
Qed.

Lemma complete_run s tl ll xs rl a p :
  history s tl ll xs rl → pieces s !! a = Some p → a ≠ 0 →
  ∃ s', complete_piece a false s = (Done tt, s') ∧ history s' tl ll xs rl ∧
    pieces s' = <[a := completed p]> (pieces s).
Proof.
  intros [Hok Hlen] Hp Ha. unfold complete_piece. rewrite (proj2 (Z.eqb_neq a 0)) by done.
  rewrite (upd_piece_run _ _ _ _ Hp). eexists. split; [done|]. split; [|done]. split; [|done].
  eapply upd_ok; [done|done|done|..].
  - intros Hin. unfold completed. rewrite !flag_other by done. by apply (ok_onrb _ _ _ _ _ Hok a).
  - intros Hin. unfold completed. rewrite !flag_other by done. by apply (ok_onlist _ _ _ _ _ Hok a).
Qed.

(** ** Verification *)

(** The read that is set up for a piece. *)
Definition read_of (p : io_piece) : Z * Z * Z * Z * bool :=
  (ip_file p, ip_offset p, ip_len p, ip_numberio p, has_flag IP_F_TRIMMED p).

(** A piece that was taken off is loose, counted no more, and goes. *)
Lemma take_run s tl ll xs rl n p opened :
  hist_ok s tl ll (n :: xs) rl → io_hist_len s = u64 (Z.of_nat (S (length tl + length ll))) →
  pieces s !! n = Some p → opened (ip_file p) = true →
  ∃ s' rl', (add_len (-1);; p ← get_piece n;
     if opened (ip_file p) then
       remove_trim_entry n;; free_piece n;;
       mret (Some (ip_file p, ip_offset p, ip_len p, ip_numberio p, has_flag IP_F_TRIMMED p))
     else mret None) s = (Done (Some (read_of p)), s') ∧
    history s' tl ll xs rl' ∧ pieces s' = delete n (pieces s).
Proof.
  intros Hok Hlen Hp Ho. set (m := u64 (io_hist_len s + -1)).
  rewrite (bind_done (add_len (-1)) _ s (set_len m s) tt eq_refl).
  rewrite (bind_done _ _ _ _ _ (get_piece_run (set_len m s) _ _ Hp)), Ho.
  destruct (trim_remove_run (set_len m s) tl ll (n :: xs) rl n) as (s1 & E1 & Hok1 & Hp1 & Hl1);
    [by apply hist_ok_len|set_solver|].
  rewrite (bind_done _ _ _ _ _ E1). destruct (free_run _ _ _ _ _ _ Hok1) as (s2 & E2 & Hok2 & Hp2 & Hl2).
  { rewrite list_elem_of_filter. naive_solver. }
  rewrite (bind_done _ _ _ _ _ E2). eexists s2, _. split; [done|]. split; [|by rewrite Hp2, Hp1].
  split; [done|]. rewrite Hl2, Hl1. simpl. unfold m. rewrite Hlen, u64_pred by lia. f_equal. lia.
Qed.

Lemma is_rbtree_first s a tl : is_rbtree s (a :: tl) → rb_first s = (Done a, s) ∧ root s ≠ 0.
Proof.
  intros Hs. split; [by rewrite (rb_first_spec _ _ Hs)|]. intros H0.
  by apply (is_rbtree_root _ _ Hs) in H0.
Qed.
Lemma filter_head (a : Z) tl : NoDup (a :: tl) → filter (λ b, b ≠ a) (a :: tl) = tl.
Proof. intros H. by apply (filter_mid [] tl a). Qed.

Lemma verify_tree_run s a tl ll xs rl p opened :
  history s (a :: tl) ll xs rl → pieces s !! a = Some p →
  (has_flag IP_F_IN_FLIGHT p = true → get_next_verify opened s = (Done None, s)) ∧
  (has_flag IP_F_IN_FLIGHT p = false → opened (ip_file p) = true →
   ∃ s' rl', get_next_verify opened s = (Done (Some (read_of p)), s') ∧ history s' tl ll xs rl' ∧
     pieces s' = delete a (pieces s)).
Proof.
  intros [Hok Hlen] Hp. destruct (is_rbtree_first _ _ _ (ok_tree _ _ _ _ _ Hok)) as [Ef H0].
  assert (∀ A (k : Z → hprog A), (r ← readS (λ s, root (io_hist_tree s)); k r) s = k (root (io_hist_tree s)) s) as Er by done.
  assert (on_tree rb_first s = (Done a, s)) as Ef'.
  { rewrite (on_tree_run _ _ _ _ Ef). by rewrite set_tree_same. }
  unfold get_next_verify. split; intros Hfl.
  - unfold mbind at 1, prog_bind at 1. unfold next_piece. rewrite Er.
    rewrite (proj2 (Z.eqb_neq _ 0)) by done. cbn [negb].
    by rewrite (bind_done _ _ _ _ _ Ef'), (bind_done _ _ _ _ _ (get_piece_run _ _ _ Hp)), Hfl.
  - intros Ho. assert (NoDup (a :: tl)) as Hnd.
    { pose proof (ok_nodup _ _ _ _ _ Hok) as Hnd. by apply NoDup_app in Hnd as [? _]. }
    destruct (tree_erase_run s (a :: tl) ll xs rl a Hok) as (t & Ee & Hok1); [set_solver|].
    rewrite filter_head in Hok1 by done.
    assert (has_flag IP_F_ONRB p = true) as Honrb by (eapply (ok_onrb _ _ _ _ _ Hok a); [set_solver|done]).
    set (q := with_flags (λ f, Z.land f (Z.lnot IP_F_ONRB)) p).
    set (s2 := set_pieces (<[a := q]> (pieces (set_tree t s))) (set_tree t s)).
    assert (next_piece s = (Done (Some a), s2)) as En.
    { unfold next_piece. rewrite Er, (proj2 (Z.eqb_neq _ 0)) by done. cbn [negb].
      rewrite (bind_done _ _ _ _ _ Ef'), (bind_done _ _ _ _ _ (get_piece_run _ _ _ Hp)), Hfl.
      rewrite (bind_done _ _ _ _ _ Ee), Honrb.
      rewrite (bind_done (mret tt) _ (set_tree t s) (set_tree t s) tt eq_refl).
      assert (pieces (set_tree t s) !! a = Some p) as Hp' by done.
      by rewrite (bind_done _ _ _ _ _ (upd_piece_run _ _ _ _ Hp')). }
    rewrite (bind_done _ _ _ _ _ En).
    destruct (take_run s2 tl ll xs rl a q opened) as (s' & rl' & E & Hh & Hps).
    + assert (a ∉ tl ++ ll) as Hout.
      { pose proof (ok_nodup _ _ _ _ _ Hok) as Hnd'. rewrite <- app_comm_cons in Hnd'.
        apply NoDup_cons in Hnd'. set_solver. }
      eapply upd_ok; [done|done|set_solver..].
    + simpl. by rewrite Hlen.
    + apply lookup_insert_eq.
    + done.
    + exists s', rl'. split; [|split; [done|]].
      * rewrite E. unfold read_of, q. simpl. rewrite flag_other by done. done.
      * rewrite Hps. simpl. by rewrite delete_insert_eq.
Qed.

Lemma is_rbtree_nil s : is_rbtree s [] → root s = 0.
Proof. intros Hs. by apply (is_rbtree_root _ _ Hs). Qed.

Lemma verify_list_run s a ll xs rl p opened :
  history s [] (a :: ll) xs rl → pieces s !! a = Some p →
  (has_flag IP_F_IN_FLIGHT p = true → get_next_verify opened s = (Done None, s)) ∧
  (has_flag IP_F_IN_FLIGHT p = false → opened (ip_file p) = true →
   ∃ s' rl', get_next_verify opened s = (Done (Some (read_of p)), s') ∧ history s' [] ll xs rl' ∧
     pieces s' = delete a (pieces s)).
Proof.
  intros [Hok Hlen] Hp. pose proof (is_rbtree_nil _ (ok_tree _ _ _ _ _ Hok)) as H0.
  pose proof (ok_list _ _ _ _ _ Hok) as Hring.
  assert (∀ A (k : Z → hprog A), (r ← readS (λ s, root (io_hist_tree s)); k r) s = k (root (io_hist_tree s)) s) as Er by done.
  assert (set_lists (lists s) s = s) as Hsame by (by destruct s).
  pose proof (on_lists_run _ s _ _ (flist_empty_run _ _ _ Hring)) as Ee. rewrite Hsame in Ee. simpl in Ee.
  pose proof (on_lists_run _ s _ _ (flist_first_run _ _ _ Hring)) as Ef. rewrite Hsame in Ef. simpl in Ef.
  unfold get_next_verify. split; intros Hfl.
  - unfold mbind at 1, prog_bind at 1. unfold next_piece. rewrite Er, H0. cbn [negb Z.eqb].
    by rewrite (bind_done _ _ _ _ _ Ee), (bind_done _ _ _ _ _ Ef),
      (bind_done _ _ _ _ _ (get_piece_run _ _ _ Hp)), Hfl.
  - intros Ho. destruct (flist_del_run (lists s) io_hist_list [] a ll Hring) as (h & Ed & Hr & Hdm & _).
    destruct (ok_onlist _ _ _ _ _ Hok a p) as [Hol Hrb]; [set_solver|done|].
    set (q := with_flags (λ f, Z.land f (Z.lnot IP_F_ONLIST)) p).
    set (s2 := set_pieces (<[a := q]> (pieces (set_lists h s))) (set_lists h s)).
    assert (next_piece s = (Done (Some a), s2)) as En.
    { unfold next_piece. rewrite Er, H0. cbn [negb Z.eqb].
      rewrite (bind_done _ _ _ _ _ Ee), (bind_done _ _ _ _ _ Ef),
        (bind_done _ _ _ _ _ (get_piece_run _ _ _ Hp)), Hfl.
      rewrite (bind_done _ _ _ _ _ (on_lists_run _ s _ _ Ed)), Hol.
      rewrite (bind_done (mret tt) _ (set_lists h s) (set_lists h s) tt eq_refl).
      assert (pieces (set_lists h s) !! a = Some p) as Hp' by done.
      by rewrite (bind_done _ _ _ _ _ (upd_piece_run _ _ _ _ Hp')). }
    rewrite (bind_done _ _ _ _ _ En).
    destruct (take_run s2 [] ll xs rl a q opened) as (s' & rl' & E & Hh & Hps).
    + assert (a ∉ ll) as Hout.
      { pose proof (ok_nodup _ _ _ _ _ Hok) as Hnd'. simpl in Hnd'. apply NoDup_cons in Hnd'. set_solver. }
      eapply upd_ok; [|done|set_solver..].
      eapply lists_ok; [done| |done|done|].
      * simpl. by rewrite <- Permutation_middle.
      * intros b r Hb. apply (ok_onlist _ _ _ _ _ Hok). set_solver.
    + simpl. by rewrite Hlen.
    + apply lookup_insert_eq.
    + done.
    + exists s', rl'. split; [|split; [done|]].
      * rewrite E. unfold read_of, q. simpl. rewrite flag_other by done. done.
      * rewrite Hps. simpl. by rewrite delete_insert_eq.
Qed.

Lemma verify_empty_run s xs rl opened :
  history s [] [] xs rl → get_next_verify opened s = (Done None, s).
Proof.
  intros [Hok _]. pose proof (is_rbtree_nil _ (ok_tree _ _ _ _ _ Hok)) as H0.
  pose proof (on_lists_run _ s _ _ (flist_empty_run _ _ _ (ok_list _ _ _ _ _ Hok))) as Ee.
  assert (set_lists (lists s) s = s) as Hsame by (by destruct s). rewrite Hsame in Ee.
  unfold get_next_verify, mbind at 1, prog_bind at 1. unfold next_piece.
  rewrite (bind_done (readS _) _ s s _ eq_refl), H0. cbn [negb Z.eqb].
  by rewrite (bind_done _ _ _ _ _ Ee).
Qed.

(** Nothing is left behind. *)
Lemma history_empty s rl : history s [] [] [] rl → pieces s = ∅ ∧ io_hist_len s = 0.
Proof.
  intros [Hok Hlen]. split; [|done]. apply map_empty. intros a.
  destruct (pieces s !! a) eqn:E; [|done]. exfalso.
  assert (a ∈ [] ++ [] ++ []) as H; [|set_solver]. apply (ok_pieces _ _ _ _ _ Hok). by eexists.
Qed.
End correct.
