(* ===== verification/FioVerifyHistory.v ===== *)
(** * fio: what is verified is what was written last

    Writes that are logged, issued and completed one after the other, and the reads
    that verification then sets up. *)
From Stdlib Require Import ZArith Lia.
From stdpp Require Import base numbers gmap list sorting.
From S2P Require Import Prelude FioRbtree FioRbtreeShape FioRbtreeErase FioRbtreeSpec FioFlist.
From S2P Require Import FioIolog FioIologInv FioIologCorrect.

Record write := Write { w_trim : bool; w_file : Z; w_offset : Z; w_len : Z; w_number : Z }.

(** [malloc], and what its callers rely on: memory of its own, aligned. *)
Class Malloc := malloc : hist → Z.
Class MallocOk {Hd : HistHeads} {Ma : Malloc} := malloc_fresh_ok : ∀ s, malloc_ok s (malloc s).

Section history.
Context {Hd : HistHeads} {Ma : Malloc}.

Definition do_write (o : hist_opts) (w : write) : hprog unit :=
  a ← readS malloc;
  log_io_piece o a (w_trim w) (w_file w) (w_offset w) (w_len w) (w_number w);;
  complete_piece a false.
Fixpoint do_writes (o : hist_opts) (ws : list write) : hprog unit :=
  match ws with
  | [] => mret tt
  | w :: ws => do_write o w;; do_writes o ws
  end.
Fixpoint verify_all (fuel : nat) (opened : Z → bool) : hprog (list (Z * Z * Z * Z * bool)) :=
  match fuel with
  | O => leave OutOfFuel
  | S fuel =>
      r ← get_next_verify opened;
      match r with
      | None => mret []
      | Some x => l ← verify_all fuel opened; mret (x :: l)
      end
  end.

(** ** The last write of every block *)

Definition read_back (w : write) : Z * Z * Z * Z * bool :=
  (w_file w, w_offset w, w_len w, w_number w, false).
Definition block (w : write) : Z * Z := (w_file w, w_offset w).

Definition tree_piece (w : write) : io_piece :=
  IoPiece (w_file w) (w_offset w) (w_len w) (w_number w) IP_F_ONRB.
Definition list_piece (w : write) : io_piece :=
  IoPiece (w_file w) (w_offset w) (w_len w) (w_number w) IP_F_ONLIST.
Definition recorded (ws : list write) : list io_piece :=
  foldl (λ l w, record_write (tree_piece w) l) [] ws.

(** [w] is the last of [ws] that writes its block. *)
Definition last_of_block (w : write) (ws : list write) : Prop :=
  ∃ ws1 ws2, ws = ws1 ++ w :: ws2 ∧ Forall (λ w', block w' ≠ block w) ws2.

Lemma recorded_snoc ws w : recorded (ws ++ [w]) = record_write (tree_piece w) (recorded ws).
Proof. unfold recorded. by rewrite foldl_app. Qed.

Definition by_key : list io_piece → Prop := StronglySorted (λ p q, klt (key p) (key q)).

Lemma record_write_in_iff p l q :
  by_key l → q ∈ record_write p l ↔ q = p ∨ q ∈ l ∧ key q ≠ key p.
Proof.
  intros Hs. induction Hs as [|x l Hs IH Hx]; simpl; [set_solver|].
  rewrite Forall_forall in Hx.
  destruct (decide (klt (key p) (key x))) as [Hlt|Hge]; [|destruct (decide (key p = key x)) as [He|Hne]].
  - rewrite !elem_of_cons. split; [|intros [->|[[->|Hq] _]]; auto]. intros [->|[->|Hq]]; [by left|right..].
    + split; [by left|]. intros E. rewrite E in Hlt. by apply klt_irrefl in Hlt.
    + split; [by right|]. intros E. specialize (Hx q Hq). rewrite E in Hx.
      by apply (klt_irrefl (key p)), (klt_trans _ (key x)).
  - rewrite !elem_of_cons. split; [|intros [->|[[->|Hq] Hk]]; [auto|by destruct Hk|auto]].
    intros [->|Hq]; [by left|right]. split; [by right|]. intros E.
    specialize (Hx q Hq). rewrite E, He in Hx. by apply klt_irrefl in Hx.
  - rewrite !elem_of_cons, IH. split.
    + intros [->|[->|[Hq Hk]]]; [right; split; [by left|congruence]|by left|right; split; [by right|done]].
    + intros [->|[[->|Hq] Hk]]; auto.
Qed.
Lemma record_write_sorted p l : by_key l → by_key (record_write p l).
Proof.
  intros Hs. unfold by_key in *. induction Hs as [|x l Hs IH Hx]; simpl; [repeat constructor|].
  pose proof Hx as Hx'. rewrite Forall_forall in Hx'.
  destruct (decide (klt (key p) (key x))) as [Hlt|Hge]; [|destruct (decide (key p = key x)) as [He|Hne]].
  - constructor; [by constructor|]. constructor; [done|]. eapply Forall_impl; [exact Hx|].
    intros q Hq. by eapply klt_trans.
  - constructor; [done|]. by rewrite He.
  - constructor; [done|]. apply Forall_forall. intros q Hq.
    apply record_write_in_iff in Hq as [->|[Hq _]]; [|by apply Hx'|done].
    destruct (klt_total (key p) (key x)) as [|[|]]; [done|done|done].
Qed.

Lemma recorded_spec ws :
  by_key (recorded ws) ∧ ∀ p, p ∈ recorded ws ↔ ∃ w, p = tree_piece w ∧ last_of_block w ws.
Proof.
  induction ws as [|w ws [Hs Hin]] using rev_ind.
  { split; [constructor|]. intros p. split; [set_solver|]. intros (w & _ & ws1 & ws2 & E & _).
    by destruct ws1. }
  rewrite recorded_snoc. split; [by apply record_write_sorted|]. intros p.
  rewrite record_write_in_iff, Hin by done. split.
  - intros [->|[(w' & -> & ws1 & ws2 & -> & Hl) Hk]].
    + exists w. split; [done|]. by exists ws, [].
    + exists w'. split; [done|]. exists ws1, (ws2 ++ [w]). rewrite <- app_assoc. split; [done|].
      apply Forall_app. split; [done|]. constructor; [|done]. intros E. by apply Hk.
  - intros (w' & -> & ws1 & ws2 & E & Hl). destruct ws2 as [|x ws2 _] using rev_ind.
    + apply app_inj_tail in E as [-> ->]. by left.
    + rewrite app_comm_cons, app_assoc in E. apply app_inj_tail in E as [-> ->].
      apply Forall_app in Hl as [Hl Hx]. right. split; [exists w'; split; [done|by exists ws1, ws2]|].
      apply Forall_cons in Hx as [Hx _]. intros E. by apply Hx.
Qed.

(** ** Writing *)

Context {Mok : MallocOk}.

Lemma malloc_nonzero s : malloc s ≠ 0.
Proof. destruct (malloc_fresh_ok s) as ([? _] & _). lia. Qed.

Lemma do_write_tree o w s tl rl :
  history s tl [] [] rl → on_list_mode o (w_file w) = false →
  ∃ s' tl' rl', do_write o w s = (Done tt, s') ∧ history s' tl' [] [] rl' ∧
    at_addrs (pieces s') tl' = record_write (tree_piece w) (at_addrs (pieces s) tl).
Proof.
  intros Hh Hm. unfold do_write. rewrite (bind_done (readS malloc) _ s s _ eq_refl).
  destruct (log_tree_run o s tl [] [] rl (malloc s) (w_trim w) (w_file w) (w_offset w) (w_len w)
    (w_number w) Hh (malloc_fresh_ok s) Hm) as (s1 & tl' & rl' & E1 & Hh1 & Hc & Hp & _).
  rewrite (bind_done _ _ _ _ _ E1).
  destruct (complete_run s1 tl' [] [] rl' (malloc s) _ Hh1 Hp (malloc_nonzero s)) as (s2 & E2 & Hh2 & Hp2).
  exists s2, tl', rl'. split_and!; [done|done|]. rewrite Hp2. by apply Hc.
Qed.

Lemma do_write_list o w s ll rl :
  history s [] ll [] rl → on_list_mode o (w_file w) = true →
  ∃ s' ll' rl', do_write o w s = (Done tt, s') ∧ history s' [] ll' [] rl' ∧
    at_addrs (pieces s') ll' = at_addrs (pieces s) ll ++ [list_piece w].
Proof.
  intros Hh Hm. unfold do_write. rewrite (bind_done (readS malloc) _ s s _ eq_refl).
  destruct (log_list_run o s [] ll [] rl (malloc s) (w_trim w) (w_file w) (w_offset w) (w_len w)
    (w_number w) Hh (malloc_fresh_ok s) Hm) as (s1 & rl' & E1 & Hh1 & _ & Hp).
  rewrite (bind_done _ _ _ _ _ E1).
  destruct (complete_run s1 [] (ll ++ [malloc s]) [] rl' (malloc s) (on_list (w_file w) (w_offset w)
    (w_len w) (w_number w)) Hh1 ltac:(by rewrite Hp, lookup_insert_eq) (malloc_nonzero s)) as (s2 & E2 & Hh2 & Hp2).
  exists s2, (ll ++ [malloc s]), rl'. split_and!; [done|done|].
  rewrite Hp2, Hp, insert_insert_eq, at_addrs_app, (at_addrs_cons _ _ (list_piece w)) by apply lookup_insert_eq.
  f_equal. apply at_addrs_ext. intros b Hb. apply lookup_insert_ne. intros <-.
  destruct Hh as [Hok _]. destruct (malloc_fresh _ _ _ _ _ _ Hok (malloc_fresh_ok s)) as (_ & H & _). set_solver.
Qed.

Lemma do_writes_tree o ws s tl rl l :
  history s tl [] [] rl → (∀ f, on_list_mode o f = false) → at_addrs (pieces s) tl = l →
  ∃ s' tl' rl', do_writes o ws s = (Done tt, s') ∧ history s' tl' [] [] rl' ∧
    at_addrs (pieces s') tl' = foldl (λ l w, record_write (tree_piece w) l) l ws.
Proof.
  intros Hh Hm. revert s tl rl l Hh. induction ws as [|w ws IH]; intros s tl rl l Hh Hl; simpl; [eauto 10|].
  destruct (do_write_tree o w s tl rl Hh (Hm _)) as (s1 & tl1 & rl1 & E & Hh1 & Hc).
  rewrite (bind_done _ _ _ _ _ E). apply (IH s1 tl1 rl1); [done|]. by rewrite Hc, Hl.
Qed.
Lemma do_writes_list o ws s ll rl :
  history s [] ll [] rl → (∀ f, on_list_mode o f = true) →
  ∃ s' ll' rl', do_writes o ws s = (Done tt, s') ∧ history s' [] ll' [] rl' ∧
    at_addrs (pieces s') ll' = at_addrs (pieces s) ll ++ (list_piece <$> ws).
Proof.
  intros Hh Hm. revert s ll rl Hh. induction ws as [|w ws IH]; intros s ll rl Hh; simpl.
  { exists s, ll, rl. by rewrite app_nil_r. }
  destruct (do_write_list o w s ll rl Hh (Hm _)) as (s1 & ll1 & rl1 & E & Hh1 & Hc).
  rewrite (bind_done _ _ _ _ _ E). destruct (IH s1 ll1 rl1 Hh1) as (s2 & ll2 & rl2 & E2 & Hh2 & Hc2).
  exists s2, ll2, rl2. rewrite Hc2, Hc, <- app_assoc. done.
Qed.

(** ** Verifying *)

Definition settled (l : list io_piece) : Prop := Forall (λ p, has_flag IP_F_IN_FLIGHT p = false) l.

Lemma verify_all_tree fuel opened s tl rl :
  history s tl [] [] rl → settled (at_addrs (pieces s) tl) → (∀ f, opened f = true) →
  (length tl < fuel)%nat →
  ∃ s' rl', verify_all fuel opened s = (Done (read_of <$> at_addrs (pieces s) tl), s') ∧
    history s' [] [] [] rl'.
Proof.
  revert s tl rl. induction fuel as [|fuel IH]; intros s tl rl Hh Hs Ho Hf; [lia|]. cbn [verify_all].
  destruct tl as [|a tl].
  { rewrite (bind_done _ _ _ _ _ (verify_empty_run s [] rl opened Hh)). eauto. }
  destruct (proj2 (ok_pieces _ _ _ _ _ (proj1 Hh) a)) as [p Hp]; [set_solver|].
  rewrite (at_addrs_cons _ _ _ _ Hp) in Hs |- *. apply Forall_cons in Hs as [Hp0 Hs].
  destruct (verify_tree_run s a tl [] [] rl p opened Hh Hp) as [_ H].
  destruct (H Hp0 (Ho _)) as (s1 & rl1 & E & Hh1 & Hps). rewrite (bind_done _ _ _ _ _ E).
  assert (at_addrs (pieces s1) tl = at_addrs (pieces s) tl) as Heq.
  { rewrite Hps. apply at_addrs_ext. intros b Hb. apply lookup_delete_ne. intros <-.
    destruct Hh as [Hok _]. pose proof (ok_nodup _ _ _ _ _ Hok) as Hnd. simpl in Hnd. apply NoDup_cons in Hnd. set_solver. }
  destruct (IH s1 tl rl1 Hh1) as (s2 & rl2 & E2 & Hh2); [by rewrite Heq|done|simpl in Hf; lia|].
  rewrite (bind_done _ _ _ _ _ E2), Heq. eauto.
Qed.
Lemma verify_all_list fuel opened s ll rl :
  history s [] ll [] rl → settled (at_addrs (pieces s) ll) → (∀ f, opened f = true) →
  (length ll < fuel)%nat →
  ∃ s' rl', verify_all fuel opened s = (Done (read_of <$> at_addrs (pieces s) ll), s') ∧
    history s' [] [] [] rl'.
Proof.
  revert s ll rl. induction fuel as [|fuel IH]; intros s ll rl Hh Hs Ho Hf; [lia|]. cbn [verify_all].
  destruct ll as [|a ll].
  { rewrite (bind_done _ _ _ _ _ (verify_empty_run s [] rl opened Hh)). eauto. }
  destruct (proj2 (ok_pieces _ _ _ _ _ (proj1 Hh) a)) as [p Hp]; [set_solver|].
  rewrite (at_addrs_cons _ _ _ _ Hp) in Hs |- *. apply Forall_cons in Hs as [Hp0 Hs].
  destruct (verify_list_run s a ll [] rl p opened Hh Hp) as [_ H].
  destruct (H Hp0 (Ho _)) as (s1 & rl1 & E & Hh1 & Hps). rewrite (bind_done _ _ _ _ _ E).
  assert (at_addrs (pieces s1) ll = at_addrs (pieces s) ll) as Heq.
  { rewrite Hps. apply at_addrs_ext. intros b Hb. apply lookup_delete_ne. intros <-.
    destruct Hh as [Hok _]. pose proof (ok_nodup _ _ _ _ _ Hok) as Hnd. simpl in Hnd. apply NoDup_cons in Hnd. set_solver. }
  destruct (IH s1 ll rl1 Hh1) as (s2 & rl2 & E2 & Hh2); [by rewrite Heq|done|simpl in Hf; lia|].
  rewrite (bind_done _ _ _ _ _ E2), Heq. eauto.
Qed.

Lemma record_write_length p l : (length (record_write p l) ≤ S (length l))%nat.
Proof. induction l as [|q l IH]; simpl; [lia|]. repeat case_decide; simpl; lia. Qed.
Lemma recorded_length ws : (length (recorded ws) ≤ length ws)%nat.
Proof.
  induction ws as [|w ws IH] using rev_ind; [done|]. rewrite recorded_snoc, length_app. simpl.
  pose proof (record_write_length (tree_piece w) (recorded ws)). lia.
Qed.

Definition read_block (r : Z * Z * Z * Z * bool) : Z * Z := (r.1.1.1.1, r.1.1.1.2).

(** C14: With the sorted history (random overwrites with a verify sort, or without a
    random map), whatever was written, verification then sets up exactly one read
    for every block, with the length and the number of the last write of the
    block, in the order of files and offsets; nothing is left in the history,
    whose count is zero again, and no memory is used after it was freed. *)
Theorem verifies_last_writes o opened ws s :
  history s [] [] [] [] → (∀ f, on_list_mode o f = false) → (∀ f, opened f = true) →
  ∃ reads s', (do_writes o ws;; verify_all (S (length ws)) opened) s = (Done reads, s') ∧
    (∀ r, r ∈ reads ↔ ∃ w, r = read_back w ∧ last_of_block w ws) ∧
    StronglySorted (λ r1 r2, klt (read_block r1) (read_block r2)) reads ∧
    pieces s' = ∅ ∧ io_hist_len s' = 0.
Proof.
  intros Hh Hm Ho. destruct (do_writes_tree o ws s [] [] [] Hh Hm eq_refl) as (s1 & tl & rl & E1 & Hh1 & Hc).
  change (foldl _ [] ws) with (recorded ws) in Hc. destruct (recorded_spec ws) as [Hsort Hin].
  assert (length tl = length (recorded ws)) as Hlen.
  { rewrite <- Hc, at_addrs_length; [done|]. intros a Ha. apply (ok_pieces _ _ _ _ _ (proj1 Hh1)). set_solver. }
  destruct (verify_all_tree (S (length ws)) opened s1 tl rl Hh1) as (s2 & rl2 & E2 & Hh2); [|done| |].
  { rewrite Hc. apply Forall_forall. intros p (w & -> & _)%Hin. done. }
  { rewrite Hlen. pose proof (recorded_length ws). lia. }
  exists (read_of <$> recorded ws), s2. rewrite <- Hc in *. split_and!; [by rewrite (bind_done _ _ _ _ _ E1)|..].
  - intros r. rewrite list_elem_of_fmap. split.
    + intros (p & -> & Hp). apply Hin in Hp as (w & -> & Hw). by exists w.
    + intros (w & -> & Hw). exists (tree_piece w). split; [done|]. apply Hin. by exists w.
  - clear -Hsort. unfold by_key in Hsort. induction Hsort as [|p l Hs IH Hp]; simpl; constructor; [done|].
    apply Forall_fmap. eapply Forall_impl; [exact Hp|]. done.
  - by apply (history_empty s2 rl2).
  - by apply (history_empty s2 rl2).
Qed.

(** With the unsorted history verification sets up a read for every write, in
    the order of the writes, and nothing is left. *)
Theorem verifies_in_write_order o opened ws s :
  history s [] [] [] [] → (∀ f, on_list_mode o f = true) → (∀ f, opened f = true) →
  ∃ s', (do_writes o ws;; verify_all (S (length ws)) opened) s = (Done (read_back <$> ws), s') ∧
    pieces s' = ∅ ∧ io_hist_len s' = 0.
Proof.
  intros Hh Hm Ho. destruct (do_writes_list o ws s [] [] Hh Hm) as (s1 & ll & rl & E1 & Hh1 & Hc).
  simpl in Hc. assert (length ll = length ws) as Hlen.
  { rewrite <- (length_fmap list_piece ws), <- Hc, at_addrs_length; [done|].
    intros a Ha. apply (ok_pieces _ _ _ _ _ (proj1 Hh1)). set_solver. }
  destruct (verify_all_list (S (length ws)) opened s1 ll rl Hh1) as (s2 & rl2 & E2 & Hh2); [|done|lia|].
  { rewrite Hc. apply Forall_fmap. by apply Forall_true. }
  exists s2. rewrite (bind_done _ _ _ _ _ E1), E2, Hc. split; [|by apply (history_empty s2 rl2)].
  by rewrite <- list_fmap_compose.
Qed.
End history.

(** ** A machine *)

#[local] Instance heads : HistHeads := {| io_hist_list := 4; trim_list := 8 |}.
Definition top (s : hist) : Z := foldr (λ kv acc, Z.max (Z.abs kv.1) acc) 0 (map_to_list (pieces s)).
#[local] Instance top_malloc : Malloc := λ s, 16 + 4 * top s.

Lemma top_spec s a p : pieces s !! a = Some p → a ≤ top s.
Proof.
  intros Ha%elem_of_map_to_list. unfold top. induction (map_to_list (pieces s)) as [|[k q] l IH]; [set_solver|].
  apply elem_of_cons in Ha as [[= <- <-]|Ha]; simpl; [lia|]. specialize (IH Ha). lia.
Qed.
Lemma top_nonneg s : 0 ≤ top s.
Proof. unfold top. induction (map_to_list (pieces s)); simpl; lia. Qed.
#[local] Instance top_malloc_ok : MallocOk.
Proof.
  intros s. pose proof (top_nonneg s). unfold malloc, top_malloc. split_and!.
  - split; [lia|]. replace (16 + 4 * top s) with ((4 + top s) * 4) by lia. by apply Z_mod_mult.
  - destruct (pieces s !! (16 + 4 * top s)) eqn:E; [|done]. apply top_spec in E. lia.
  - simpl. lia.
  - simpl. lia.
Qed.

Definition no_history : hist :=
  Hist (RbRoot ∅ 0) {[4 := FlistHead 4 4]} {[8 := FlistHead 8 8]} ∅ 0 0.
Lemma no_history_ok : history no_history [] [] [] [].
Proof.
  split; [|done]. constructor; simpl.
  - apply is_rbtree_empty.
  - split; [done|apply NoDup_singleton].
  - split; [done|apply NoDup_singleton].
  - set_solver.
  - constructor.
  - constructor.
  - set_solver.
  - intros a. rewrite lookup_empty. split; [by intros []|set_solver].
  - intros a. rewrite lookup_empty. split; [by intros []|set_solver].
  - intros a. rewrite lookup_singleton_is_Some. set_solver.
  - intros a. rewrite lookup_singleton_is_Some. set_solver.
  - set_solver.
  - done.
  - constructor.
  - set_solver.
  - set_solver.
Qed.

Definition sort_opts : hist_opts := HistOpts true true true false (λ _, true) false.
Definition list_opts : hist_opts := HistOpts false true false false (λ _, true) false.
Definition sample_writes : list write :=
  [Write false 64 4096 512 1; Write true 64 0 512 2; Write false 64 4096 1024 3].

Lemma verifies_last_writes_witness :
  ∃ reads s', (do_writes sort_opts sample_writes;; verify_all 4 (λ _, true)) no_history =
      (Done reads, s') ∧
    (∀ r, r ∈ reads ↔ ∃ w, r = read_back w ∧ last_of_block w sample_writes) ∧
    StronglySorted (λ r1 r2, klt (read_block r1) (read_block r2)) reads ∧
    pieces s' = ∅ ∧ io_hist_len s' = 0.
Proof.
  apply (verifies_last_writes sort_opts (λ _, true) sample_writes no_history no_history_ok);
    intros f; reflexivity.
Defined.

Lemma verifies_in_write_order_witness :
  ∃ s', (do_writes list_opts sample_writes;; verify_all 4 (λ _, true)) no_history =
      (Done (read_back <$> sample_writes), s') ∧ pieces s' = ∅ ∧ io_hist_len s' = 0.
Proof.
  apply (verifies_in_write_order list_opts (λ _, true) sample_writes no_history no_history_ok);
    intros f; reflexivity.
Defined.

Example sorted_reads :
  ((do_writes sort_opts sample_writes;; verify_all 4 (λ _, true)) no_history).1 =
  Done [(64, 0, 512, 2, false); (64, 4096, 1024, 3, false)].
Proof. vm_compute. reflexivity. Qed.
