(* ===== verification/FioIologErrors.v ===== *)
(** * fio: pruning the history, and where the history goes wrong

    [prune_io_piece_log] empties the tree but not the list; a piece that a newer
    write replaces is freed although its own write may still complete; a piece
    that is freed because its write failed stays on the trim list. *)
From Stdlib Require Import ZArith Lia.
From stdpp Require Import base numbers gmap list sorting.
From S2P Require Import Prelude FioRbtree FioRbtreeShape FioRbtreeErase FioRbtreeSpec FioFlist.
From S2P Require Import FioIolog FioIologInv FioIologCorrect FioVerifyHistory.

Section errors.
Context {Hd : HistHeads}.

(** ** Pruning *)

Lemma prune_tree_run fuel s tl ll rl :
  history s tl ll [] rl → (length tl < fuel)%nat →
  ∃ s' rl', prune_tree fuel s = (Done tt, s') ∧ history s' [] ll [] rl'.
Proof.
  revert s tl rl. induction fuel as [|fuel IH]; intros s tl rl [Hok Hlen] Hf; [lia|]. cbn [prune_tree].
  rewrite (bind_done _ _ _ _ _ (on_tree_run _ _ _ _ (rb_first_spec _ _ (ok_tree _ _ _ _ _ Hok)))), set_tree_same.
  destruct tl as [|a tl]; simpl; [by exists s, rl|].
  pose proof (ok_good _ _ _ _ _ Hok) as Hg. apply Forall_cons in Hg as [[Ha _] _].
  rewrite (proj2 (Z.eqb_neq a 0)) by lia.
  destruct (tree_erase_run s (a :: tl) ll [] rl a Hok) as (t & E1 & Hok1); [set_solver|].
  rewrite filter_head in Hok1.
  2:{ pose proof (ok_nodup _ _ _ _ _ Hok) as Hnd. by apply NoDup_app in Hnd as [? _]. }
  rewrite (bind_done _ _ _ _ _ E1).
  destruct (trim_remove_run _ _ _ _ _ a Hok1) as (s2 & E2 & Hok2 & Hp2 & Hl2); [set_solver|].
  rewrite (bind_done _ _ _ _ _ E2). set (n := u64 (io_hist_len s2 + -1)).
  rewrite (bind_done (add_len (-1)) _ s2 (set_len n s2) tt eq_refl).
  destruct (free_run (set_len n s2) tl ll [] _ a (hist_ok_len _ _ _ _ _ _ Hok2)) as (s3 & E3 & Hok3 & Hp3 & Hl3).
  { rewrite list_elem_of_filter. naive_solver. }
  rewrite (bind_done _ _ _ _ _ E3). eapply (IH s3 tl); [|simpl in Hf; lia]. split; [done|].
  rewrite Hl3. simpl. unfold n. rewrite Hl2. simpl. rewrite Hlen. simpl. rewrite u64_pred by lia. f_equal. lia.
Qed.

Lemma pieces_length s tl ll xs rl : hist_ok s tl ll xs rl → (length tl ≤ size (pieces s))%nat.
Proof.
  intros Hok. rewrite <- size_dom, <- (size_list_to_set (C := gset Z) tl).
  - apply subseteq_size. intros a Ha%elem_of_list_to_set. apply elem_of_dom, (ok_pieces _ _ _ _ _ Hok). set_solver.
  - pose proof (ok_nodup _ _ _ _ _ Hok) as Hnd. by apply NoDup_app in Hnd as [? _].
Qed.

(** [flist_del] of the head of a list that has entries. *)
Lemma flist_del_head h hd a l : ring h hd (a :: l) → ∃ h', flist_del hd h = (Done tt, h').
Proof.
  intros [Hs Hnd]. destruct (seg_in _ _ _ _ hd Hs) as [e He]; [set_solver|].
  pose proof (seg_first _ _ _ _ Hs) as Hn. pose proof (seg_last _ _ _ _ Hs) as Hp.
  unfold nx, pv in Hn, Hp. rewrite He in Hn, Hp. injection Hn as Hn. injection Hp as Hp.
  assert (is_Some (h !! fl_next e)) as Hin by (rewrite Hn; eapply seg_in; [exact Hs|simpl; set_solver]).
  assert (is_Some (h !! fl_prev e)) as Hip.
  { rewrite Hp. eapply seg_in; [exact Hs|]. pose proof (last_of_in a l). simpl. set_solver. }
  assert (∃ h1, __flist_del (fl_prev e) (fl_next e) h = (Done tt, h1) ∧ is_Some (h1 !! hd)) as (h1 & E1 & H1).
  { unfold __flist_del. rewrite (bind_done _ _ _ _ _ (set_prev_run h _ _ Hin)).
    rewrite set_next_run by (by apply is_Some_with_prev). eexists. split; [done|].
    apply is_Some_with_next, is_Some_with_prev. by eexists. }
  unfold flist_del. unfold fl_get at 1, mbind at 1, prog_bind at 1. rewrite He.
  rewrite (bind_done _ _ _ _ _ E1), (bind_done _ _ _ _ _ (set_next_run _ hd 0 H1)).
  rewrite set_prev_run by (by apply is_Some_with_next).
  by eexists.
Qed.

Lemma prune_list_bad fuel s tl a ll rl :
  hist_ok s tl (a :: ll) [] rl → io_hist_list ≠ trim_list →
  ∃ s', prune_list (S fuel) s = (Leave (Undefined BadPointer), s').
Proof.
  intros Hok Hne. pose proof (ok_list _ _ _ _ _ Hok) as Hr. cbn [prune_list].
  assert (set_lists (lists s) s = s) as Hsame by (by destruct s).
  pose proof (on_lists_run _ s _ _ (flist_empty_run _ _ _ Hr)) as Ee. rewrite Hsame in Ee.
  rewrite (bind_done _ _ _ _ _ Ee). rewrite bool_decide_eq_false_2 by done.
  destruct (flist_del_head _ _ _ _ Hr) as (h & Ed).
  rewrite (bind_done _ _ _ _ _ (on_lists_run _ s _ _ Ed)).
  eexists. apply bind_leave. unfold remove_trim_entry, on_trims. apply bind_leave.
  apply zoom_run. unfold flist_empty. apply bind_leave. unfold fl_get. simpl.
  destruct (trims s !! io_hist_list) eqn:E; [|done]. exfalso.
  destruct (proj1 (ok_trims _ _ _ _ _ Hok io_hist_list)) as [|Hin]; [by eexists|done|].
  by apply (ok_heads _ _ _ _ _ Hok) in Hin.
Qed.

(** C16: [prune_io_piece_log] frees a sorted history completely: no piece and no
    trim entry is left and the count is zero.  With any piece on the list it
    takes the head of the list for a piece: it unlinks the head, and then uses
    memory that is no piece. *)
Theorem prune_frees_the_tree_only s tl ll rl :
  history s tl ll [] rl → io_hist_list ≠ trim_list →
  match ll with
  | [] => ∃ s', prune_io_piece_log s = (Done tt, s') ∧ pieces s' = ∅ ∧ io_hist_len s' = 0 ∧
      trim_entries s' = 0
  | _ :: _ => ∃ s', prune_io_piece_log s = (Leave (Undefined BadPointer), s')
  end.
Proof.
  intros Hh Hne. unfold prune_io_piece_log. rewrite (bind_done (readS _) _ s s _ eq_refl).
  destruct (prune_tree_run (S (size (pieces s))) s tl ll rl Hh) as (s1 & rl1 & E1 & Hh1).
  { pose proof (pieces_length _ _ _ _ _ (proj1 Hh)). lia. }
  rewrite (bind_done _ _ _ _ _ E1). destruct ll as [|a ll].
  - exists s1. destruct (history_empty s1 rl1 Hh1) as [Hp Hl]. destruct Hh1 as [Hok1 _]. split_and!; [|done|done|].
    + cbn [prune_list]. assert (set_lists (lists s1) s1 = s1) as Hsame by (by destruct s1).
      pose proof (on_lists_run _ s1 _ _ (flist_empty_run _ _ _ (ok_list _ _ _ _ _ Hok1))) as Ee.
      rewrite Hsame in Ee. by rewrite (bind_done _ _ _ _ _ Ee).
    + rewrite (ok_entries _ _ _ _ _ Hok1). destruct rl1 as [|x rl1]; [done|].
      pose proof (ok_sub _ _ _ _ _ Hok1 x ltac:(set_solver)). set_solver.
  - by eapply prune_list_bad; [apply Hh1|].
Qed.

(** ** A piece that is replaced *)

Lemma sorted_key_inj P l a b p q :
  sorted P l → a ∈ l → b ∈ l → P !! a = Some p → P !! b = Some q → key p = key q → a = b.
Proof.
  intros Hs Ha Hb Hp Hq Hk. destruct (decide (a = b)) as [|Hne]; [done|]. exfalso.
  apply list_elem_of_split in Ha as (l1 & l2 & ->). destruct (sorted_mid _ _ _ _ _ Hs Hp) as [H1 H2].
  rewrite Forall_forall in H1, H2. apply elem_of_app in Hb as [Hb|[->|Hb]%elem_of_cons]; [|done|].
  - destruct (H1 b Hb) as (r & Hr & Hlt). rewrite Hq in Hr. injection Hr as <-. rewrite Hk in Hlt. by apply klt_irrefl in Hlt.
  - destruct (H2 b Hb) as (r & Hr & Hlt). rewrite Hq in Hr. injection Hr as <-. rewrite Hk in Hlt. by apply klt_irrefl in Hlt.
Qed.

(** While a write is in flight its piece may be replaced: a second write of
    the block, logged before the first completes, frees the piece of the first,
    and the completion of the first then writes to freed memory. *)
Theorem overwrite_frees_in_flight o s tl ll rl a b trim trim' file offset len len' n n' :
  history s tl ll [] rl → on_list_mode o file = false → malloc_ok s a →
  ∃ s1, log_io_piece o a trim file offset len n s = (Done tt, s1) ∧
    (malloc_ok s1 b →
     ∃ s2, log_io_piece o b trim' file offset len' n' s1 = (Done tt, s2) ∧
       complete_piece a false s2 = (Leave (Undefined BadPointer), s2)).
Proof.
  intros Hh Hm Ha. destruct (log_tree_run o s tl ll [] rl a trim file offset len n Hh Ha Hm)
    as (s1 & tl1 & rl1 & E1 & Hh1 & _ & Hp1 & Hin1 & _). exists s1. split; [done|]. intros Hb.
  destruct (log_tree_run o s1 tl1 ll [] rl1 b trim' file offset len' n' Hh1 Hb Hm)
    as (s2 & tl2 & rl2 & E2 & Hh2 & _ & Hp2 & Hin2 & _ & _ & Hsame). exists s2. split; [done|].
  assert (a ≠ b) as Hab by (destruct Hb as (_ & Hn & _); congruence).
  assert (pieces s2 !! a = None) as Hgone.
  { destruct (pieces s2 !! a) as [p|] eqn:E; [|done]. exfalso.
    pose proof (proj1 (ok_pieces _ _ _ _ _ (proj1 Hh2) a) ltac:(by eexists)) as Hin.
    pose proof (Hsame a Hin Hab) as Hs. rewrite E, Hp1 in Hs. injection Hs as ->.
    apply elem_of_app in Hin as [Hin|Hin].
    - apply Hab. by eapply (sorted_key_inj _ _ _ _ _ _ (ok_sorted _ _ _ _ _ (proj1 Hh2))).
    - pose proof (ok_nodup _ _ _ _ _ (proj1 Hh1)) as Hnd. apply NoDup_app in Hnd as (_ & Hd' & _). by eapply Hd'. }
  unfold complete_piece. rewrite (proj2 (Z.eqb_neq a 0)) by (destruct Ha as ([? _] & _); lia).
  unfold upd_piece. apply bind_leave. unfold get_piece. by rewrite Hgone.
Qed.
(** ** Trimming *)

Lemma filter_out (l : list Z) a : a ∉ l → filter (λ b, b ≠ a) l = l.
Proof.
  induction l as [|x l IH]; [done|]. intros H. rewrite filter_cons_True by set_solver.
  f_equal. apply IH. set_solver.
Qed.
Lemma filter_length (l : list Z) a :
  NoDup l → a ∈ l → S (length (filter (λ b, b ≠ a) l)) = length l.
Proof. intros Hnd Ha. by rewrite <- (filter_ne_perm l a Hnd Ha) at 2. Qed.

(** The structure a piece is on, and the structures without it. *)
Definition without (a : Z) (tl ll tl' ll' : list Z) : Prop :=
  tl' = filter (λ b, b ≠ a) tl ∧ ll' = filter (λ b, b ≠ a) ll ∧
  S (length tl' + length ll') = (length tl + length ll)%nat.

Lemma drop_tree s tl ll rl a :
  hist_ok s tl ll [] rl → a ∈ tl →
  ∃ s' tl' ll', on_tree (rb_erase a) s = (Done tt, s') ∧ hist_ok s' tl' ll' [a] rl ∧
    without a tl ll tl' ll' ∧ pieces s' = pieces s ∧ io_hist_len s' = io_hist_len s.
Proof.
  intros Hok Ha. destruct (tree_erase_run s tl ll [] rl a Hok Ha) as (t & E & Hok').
  pose proof (ok_nodup _ _ _ _ _ Hok) as Hnd. apply NoDup_app in Hnd as (Hnd & Hdis & _).
  rewrite app_nil_r in Hdis.
  exists (set_tree t s), (filter (λ b, b ≠ a) tl), ll. split_and!; [done|done| |done|done].
  split_and!; [done|by rewrite filter_out by (by apply Hdis)|].
  rewrite <- (filter_length tl a) by done. lia.
Qed.
Lemma drop_list s tl ll rl a :
  hist_ok s tl ll [] rl → a ∈ ll →
  ∃ s' tl' ll', on_lists (flist_del a) s = (Done tt, s') ∧ hist_ok s' tl' ll' [a] rl ∧
    without a tl ll tl' ll' ∧ pieces s' = pieces s ∧ io_hist_len s' = io_hist_len s.
Proof.
  intros Hok Ha. pose proof (ok_nodup _ _ _ _ _ Hok) as Hnd. rewrite app_nil_r in Hnd.
  apply NoDup_app in Hnd as (_ & Hdis & Hnd).
  assert (a ∉ tl) as Hout by (intros H; by eapply Hdis).
  pose proof (filter_length ll a Hnd Ha) as Hlen.
  apply list_elem_of_split in Ha as (l1 & l2 & ->). rewrite filter_mid in Hlen by done.
  destruct (flist_del_run _ _ _ _ _ (ok_list _ _ _ _ _ Hok)) as (h & E & Hr & Hdm & _).
  exists (set_lists h s), tl, (l1 ++ l2). split_and!; [by apply on_lists_run| | |done|done].
  - eapply lists_ok; [done| |done|done|].
    + apply Permutation_app_head. rewrite app_nil_r. symmetry. rewrite <- Permutation_middle.
      by rewrite Permutation_cons_append.
    + intros b q Hb. apply (ok_onlist _ _ _ _ _ Hok). set_solver.
  - split_and!; [by rewrite filter_out|by rewrite filter_mid|]. lia.
Qed.

(** Which of the two it is, by the flags. *)
Lemma piece_place s tl ll rl a p :
  hist_ok s tl ll [] rl → pieces s !! a = Some p →
  (a ∈ tl ∧ has_flag IP_F_ONRB p = true ∧ has_flag IP_F_ONLIST p = false) ∨
  (a ∈ ll ∧ has_flag IP_F_ONRB p = false ∧ has_flag IP_F_ONLIST p = true).
Proof.
  intros Hok Hp. pose proof (proj1 (ok_pieces _ _ _ _ _ Hok a) ltac:(by eexists)) as Hin.
  rewrite app_nil_r in Hin. apply elem_of_app in Hin as [Hin|Hin]; [left|right]; (split; [done|]).
  - by apply (ok_onrb _ _ _ _ _ Hok a).
  - destruct (ok_onlist _ _ _ _ _ Hok a p Hin Hp). done.
Qed.
(** Taking it off, the way [unlog_io_piece] and the way [get_next_trim] do it. *)
Lemma drop_run s tl ll rl a p :
  hist_ok s tl ll [] rl → pieces s !! a = Some p →
  ∃ s' tl' ll',
    (if has_flag IP_F_ONRB p then on_tree (rb_erase a)
     else if has_flag IP_F_ONLIST p then on_lists (flist_del a) else mret tt) s = (Done tt, s') ∧
    (if has_flag IP_F_ONLIST p then on_lists (flist_del a)
     else if has_flag IP_F_ONRB p then on_tree (rb_erase a) else leave Abort) s = (Done tt, s') ∧
    hist_ok s' tl' ll' [a] rl ∧ without a tl ll tl' ll' ∧ pieces s' = pieces s ∧
    io_hist_len s' = io_hist_len s.
Proof.
  intros Hok Hp. destruct (piece_place s tl ll rl a p Hok Hp) as [(Hin & -> & ->)|(Hin & -> & ->)].
  - destruct (drop_tree s tl ll rl a Hok Hin) as (s' & tl' & ll' & H & ?). by exists s', tl', ll'.
  - destruct (drop_list s tl ll rl a Hok Hin) as (s' & tl' & ll' & H & ?). by exists s', tl', ll'.
Qed.

Lemma trims_first s a :
  nx (trims s) trim_list = Some a → a ≠ trim_list →
  on_trims (flist_empty trim_list) s = (Done false, s) ∧ on_trims (flist_first trim_list) s = (Done a, s).
Proof.
  intros Hn Ha. assert (set_trims (trims s) s = s) as Hsame by (by destruct s).
  split; rewrite <- Hsame at 2; apply on_trims_run.
  - unfold flist_empty. rewrite (fl_get_next (λ x, mret (x =? trim_list)) _ _ _ Hn).
    by rewrite (proj2 (Z.eqb_neq _ _)).
  - unfold flist_first. by rewrite (fl_get_next mret _ _ _ Hn).
Qed.
Lemma entries_nonzero s tl ll xs a rl :
  hist_ok s tl ll xs (a :: rl) → Z.of_nat (S (length rl)) < 2 ^ 64 → (trim_entries s =? 0) = false.
Proof.
  intros Hok Hl. rewrite (ok_entries _ _ _ _ _ Hok). simpl length. unfold u64.
  rewrite Z.mod_small by lia. apply Z.eqb_neq. lia.
Qed.
Lemma trim_front s tl ll xs a rl :
  hist_ok s tl ll xs (a :: rl) → nx (trims s) trim_list = Some a ∧ a ≠ trim_list ∧ a ∉ rl.
Proof.
  intros Hok. destruct (ok_trim _ _ _ _ _ Hok) as [Hs Hnd]. split; [by apply (seg_first _ _ _ _ Hs)|].
  rewrite !NoDup_cons in Hnd. set_solver.
Qed.

(** The count goes down with the piece. *)
Lemma uncount_free s tl ll tl' ll' rl a :
  hist_ok s tl' ll' [a] rl → without a tl ll tl' ll' → a ∉ rl →
  io_hist_len s = u64 (Z.of_nat (length tl + length ll)) →
  ∃ s', (add_len (-1);; free_piece a) s = (Done tt, s') ∧ history s' tl' ll' [] rl ∧
    pieces s' = delete a (pieces s).
Proof.
  intros Hok (_ & _ & Hw) Hout Hlen. set (n := u64 (io_hist_len s + -1)).
  rewrite (bind_done (add_len (-1)) _ s (set_len n s) tt eq_refl).
  destruct (free_run (set_len n s) tl' ll' [] rl a (hist_ok_len _ _ _ _ _ _ Hok) Hout)
    as (s' & E & Hok' & Hp & Hl). exists s'. split_and!; [done| |done]. split; [done|].
  rewrite Hl. simpl. unfold n. rewrite Hlen, <- Hw, u64_pred by lia. f_equal. lia.
Qed.

(** Marking a piece as trimmed. *)
Lemma flag_lor p f g : Z.land g f = 0 → has_flag f (with_flags (λ x, Z.lor x g) p) = has_flag f p.
Proof. intros H. unfold has_flag, with_flags. simpl. by rewrite Z.land_lor_distr_l, H, Z.lor_0_r. Qed.
Lemma mark_ok s tl ll xs rl a p :
  hist_ok s tl ll xs rl → pieces s !! a = Some p →
  hist_ok (set_pieces (<[a := with_flags (λ f, Z.lor f IP_F_TRIMMED) p]> (pieces s)) s) tl ll xs rl.
Proof.
  intros Hok Hp. eapply upd_ok; [done|done|done| |]; intros Hin; rewrite !flag_lor by done.
  - by apply (ok_onrb _ _ _ _ _ Hok a).
  - by apply (ok_onlist _ _ _ _ _ Hok a).
Qed.

(** [get_next_trim] takes the block that was put on the trim list first and
    sets up its trim.  If trimmed blocks are verified to be zero the piece stays
    in the history, marked; otherwise it leaves the tree or the list, is freed,
    and is not verified any more. *)
Theorem trims_oldest_block o opened s tl ll a rl p :
  history s tl ll [] (a :: rl) → Z.of_nat (S (length rl)) < 2 ^ 64 →
  pieces s !! a = Some p → opened (ip_file p) = true →
  ∃ s', get_next_trim o opened s = (Done (Some (ip_file p, ip_offset p, ip_len p)), s') ∧
    if trim_zero o then
      history s' tl ll [] rl ∧
      pieces s' = <[a := with_flags (λ f, Z.lor f IP_F_TRIMMED) p]> (pieces s)
    else
      history s' (filter (λ b, b ≠ a) tl) (filter (λ b, b ≠ a) ll) [] rl ∧
      pieces s' = delete a (pieces s).
Proof.
  intros [Hok Hlen] Hl Hp Ho. destruct (trim_front _ _ _ _ _ _ Hok) as (Hn & Hne & Hout).
  destruct (trims_first s a Hn Hne) as [E1 E3].
  destruct (trim_remove_run s tl ll [] (a :: rl) a Hok) as (s1 & E4 & Hok1 & Hp1 & Hl1).
  { apply (ok_pieces _ _ _ _ _ Hok). by eexists. }
  rewrite filter_head in Hok1 by (destruct (ok_trim _ _ _ _ _ Hok) as [_ Hnd]; by apply NoDup_cons in Hnd as [_ ?]).
  unfold get_next_trim. rewrite (bind_done _ _ _ _ _ E1), (bind_done (readS trim_entries) _ s s _ eq_refl).
  rewrite (entries_nonzero _ _ _ _ _ _ Hok Hl), (bind_done (mret tt) _ s s tt eq_refl).
  rewrite (bind_done _ _ _ _ _ E3), (bind_done _ _ _ _ _ E4). rewrite <- Hp1 in Hp. rewrite <- Hl1 in Hlen.
  rewrite (bind_done _ _ _ _ _ (get_piece_run _ _ _ Hp)), <- Hp1. rewrite Ho.
  destruct (trim_zero o).
  { rewrite (bind_done _ _ _ _ _ (upd_piece_run _ _ _ _ Hp)). eexists. split; [done|].
    split; [split; [by apply mark_ok|done]|done]. }
  destruct (drop_run s1 tl ll rl a p Hok1 Hp) as (s2 & tl' & ll' & _ & E5 & Hok2 & Hw & Hp2 & Hl2).
  destruct (uncount_free s2 tl ll tl' ll' rl a Hok2 Hw Hout) as (s3 & E6 & Hh & Hp3); [by rewrite Hl2|].
  exists s3. split; [|destruct Hw as (<- & <- & _); rewrite <- Hp2; by split].
  unfold mbind at 1, prog_bind at 1. by rewrite (bind_done _ _ _ _ _ E5), E6.
Qed.
(** ** A write that fails *)

Lemma free_piece_run s a p :
  pieces s !! a = Some p →
  ∃ s', free_piece a s = (Done tt, s') ∧ trims s' = delete a (trims s) ∧ trim_entries s' = trim_entries s.
Proof.
  intros Hp. eexists. unfold free_piece. by rewrite (bind_done _ _ _ _ _ (get_piece_run _ _ _ Hp)).
Qed.

Lemma unlog_run s tl ll rl a p :
  history s tl ll [] rl → pieces s !! a = Some p → a ∉ rl →
  ∃ s', unlog_io_piece a s = (Done tt, s') ∧
    history s' (filter (λ b, b ≠ a) tl) (filter (λ b, b ≠ a) ll) [] rl ∧ pieces s' = delete a (pieces s).
Proof.
  intros [Hok Hlen] Hp Hout. assert (a ≠ 0) as Ha.
  { pose proof (ok_good _ _ _ _ _ Hok) as Hg. rewrite Forall_forall in Hg.
    destruct (Hg a) as [? _]; [|lia]. apply (ok_pieces _ _ _ _ _ Hok). by eexists. }
  unfold unlog_io_piece. rewrite (proj2 (Z.eqb_neq a 0)) by done.
  rewrite (bind_done _ _ _ _ _ (get_piece_run _ _ _ Hp)).
  destruct (drop_run s tl ll rl a p Hok Hp) as (s1 & tl' & ll' & E1 & _ & Hok1 & (-> & -> & Hw) & Hp1 & Hl1).
  rewrite (bind_done _ _ _ _ _ E1).
  destruct (free_run _ _ _ _ _ _ Hok1 Hout) as (s2 & E2 & Hok2 & Hp2 & Hl2). rewrite (bind_done _ _ _ _ _ E2).
  eexists. split; [done|]. simpl. split; [|by rewrite Hp2, Hp1]. split; [by apply hist_ok_len|].
  simpl. rewrite Hl2, Hl1, Hlen, <- Hw, u64_pred by lia. f_equal. lia.
Qed.

(** A write that fails takes its piece out of the history, which is then as it
    was without the write, unless the piece is on the trim list: it is freed and
    stays on that list, and when it is first there the next trim uses it. *)
Theorem failed_write_on_trim_list o opened s tl ll rl a p :
  history s tl ll [] rl → Z.of_nat (length rl) < 2 ^ 64 → pieces s !! a = Some p →
  ∃ s1, complete_piece a true s = (Done tt, s1) ∧
    (a ∉ rl → history s1 (filter (λ b, b ≠ a) tl) (filter (λ b, b ≠ a) ll) [] rl ∧
              pieces s1 = delete a (pieces s)) ∧
    (head rl = Some a → get_next_trim o opened s1 = (Leave (Undefined BadPointer), s1)).
Proof.
  intros Hh Hl Hp. assert (a ≠ 0) as Ha.
  { pose proof (ok_good _ _ _ _ _ (proj1 Hh)) as Hg. rewrite Forall_forall in Hg.
    destruct (Hg a) as [? _]; [|lia]. apply (ok_pieces _ _ _ _ _ (proj1 Hh)). by eexists. }
  unfold complete_piece. rewrite (proj2 (Z.eqb_neq a 0)) by done.
  destruct (decide (a ∈ rl)) as [Hin|Hout].
  2:{ destruct (unlog_run s tl ll rl a p Hh Hp Hout) as (s1 & E & Hh1 & Hp1). exists s1.
      split_and!; [done|done|]. intros E'. destruct rl; [done|]. injection E' as ->. set_solver. }
  destruct Hh as [Hok Hlen].
  destruct (drop_run s tl ll rl a p Hok Hp) as (s1 & tl' & ll' & E1 & _ & Hok1 & _ & Hp1 & Hl1).
  unfold unlog_io_piece. rewrite (proj2 (Z.eqb_neq a 0)) by done.
  rewrite (bind_done _ _ _ _ _ (get_piece_run _ _ _ Hp)), (bind_done _ _ _ _ _ E1).
  rewrite <- Hp1 in Hp. destruct (free_piece_run s1 a p Hp) as (s1' & E4 & Ht & He).
  rewrite (bind_done _ _ _ _ _ E4). eexists. split; [done|]. split; [done|].
  intros E. destruct rl as [|a' rl]; [done|]. injection E as ->. set (s2 := set_len (u64 (io_hist_len s1' + -1)) s1').
  destruct (trim_front _ _ _ _ _ _ Hok1) as (Hn & Hne & _).
  assert (nx (trims s2) trim_list = Some a) as Hn2.
  { unfold nx. simpl. rewrite Ht, lookup_delete_ne by done. exact Hn. }
  destruct (trims_first s2 a Hn2 Hne) as [E2 E3]. unfold get_next_trim.
  rewrite (bind_done _ _ _ _ _ E2), (bind_done (readS trim_entries) _ s2 s2 _ eq_refl).
  change (trim_entries s2) with (trim_entries s1'). rewrite He, (entries_nonzero _ _ _ _ _ _ Hok1 Hl).
  rewrite (bind_done (mret tt) _ s2 s2 tt eq_refl), (bind_done _ _ _ _ _ E3).
  apply bind_leave. unfold remove_trim_entry. apply bind_leave. unfold on_trims.
  assert (set_trims (trims s2) s2 = s2) as Hsame by (by destruct s1'). rewrite <- Hsame at 2. apply zoom_run.
  unfold flist_empty. apply bind_leave. unfold fl_get. simpl. by rewrite Ht, lookup_delete_eq.
Qed.
End errors.

(** ** One write *)

#[local] Existing Instance heads.

(** The history after a first write of 512 bytes, in write order, to be trimmed. *)
Definition one_write : hist :=
  Hist (RbRoot {[16 := RbNode 0 0 0]} 0)
    (<[16 := FlistHead 4 4]> {[4 := FlistHead 16 16]})
    (<[16 := FlistHead 8 8]> {[8 := FlistHead 16 16]})
    {[16 := IoPiece 64 0 512 1 (Z.lor IP_F_IN_FLIGHT IP_F_ONLIST)]} 1 1.
Example one_write_logged : log_io_piece list_opts 16 true 64 0 512 1 no_history = (Done tt, one_write).
Proof. vm_compute. reflexivity. Qed.

Lemma one_write_ok : history one_write [] [16] [] [16].
Proof.
  split; [|done]. constructor; simpl.
  - apply (is_rbtree_frame (RbRoot ∅ 0)); [apply is_rbtree_empty|set_solver].
  - split; [vm_compute; done|repeat constructor; set_solver].
  - split; [vm_compute; done|repeat constructor; set_solver].
  - set_solver.
  - apply NoDup_singleton.
  - repeat constructor; done.
  - set_solver.
  - intros a. rewrite lookup_singleton_is_Some. set_solver.
  - intros a. rewrite lookup_singleton_is_Some. set_solver.
  - intros a. rewrite lookup_insert_is_Some', lookup_singleton_is_Some. set_solver.
  - intros a. rewrite lookup_insert_is_Some', lookup_singleton_is_Some. set_solver.
  - done.
  - done.
  - constructor.
  - set_solver.
  - intros a p ->%list_elem_of_singleton. rewrite lookup_singleton_eq. by intros [= <-].
Qed.

Lemma prune_frees_the_tree_only_witness :
  (∃ s', prune_io_piece_log one_write = (Leave (Undefined BadPointer), s')) ∧
  ∃ s', prune_io_piece_log no_history = (Done tt, s') ∧ pieces s' = ∅ ∧ io_hist_len s' = 0 ∧
    trim_entries s' = 0.
Proof.
  split.
  - apply (prune_frees_the_tree_only one_write [] [16] [16] one_write_ok). done.
  - apply (prune_frees_the_tree_only no_history [] [] [] no_history_ok). done.
Defined.

Lemma overwrite_frees_in_flight_witness :
  ∃ s1, log_io_piece sort_opts 16 false 64 0 512 1 no_history = (Done tt, s1) ∧
    (malloc_ok s1 32 →
     ∃ s2, log_io_piece sort_opts 32 false 64 0 512 2 s1 = (Done tt, s2) ∧
       complete_piece 16 false s2 = (Leave (Undefined BadPointer), s2)).
Proof.
  apply (overwrite_frees_in_flight sort_opts no_history [] [] []).
  - exact no_history_ok.
  - reflexivity.
  - split_and!; [done|done|done|done].
Defined.
(** The address of the second piece is free at that point. *)
Example second_malloc :
  malloc_ok (log_io_piece sort_opts 16 false 64 0 512 1 no_history).2 32.
Proof. split_and!; [done|vm_compute; done|done|done]. Qed.

Lemma trims_oldest_block_witness :
  ∃ s', get_next_trim list_opts (λ _, true) one_write = (Done (Some (64, 0, 512)), s') ∧
    history s' [] [] [] [] ∧ pieces s' = delete 16 (pieces one_write).
Proof.
  apply (trims_oldest_block list_opts (λ _, true) one_write [] [16] 16 []
    (IoPiece 64 0 512 1 (Z.lor IP_F_IN_FLIGHT IP_F_ONLIST)) one_write_ok); [done|vm_compute; done|done].
Defined.

Lemma failed_write_on_trim_list_witness :
  ∃ s1, complete_piece 16 true one_write = (Done tt, s1) ∧
    get_next_trim list_opts (λ _, true) s1 = (Leave (Undefined BadPointer), s1).
Proof.
  destruct (failed_write_on_trim_list list_opts (λ _, true) one_write [] [16] [16] 16
    (IoPiece 64 0 512 1 (Z.lor IP_F_IN_FLIGHT IP_F_ONLIST)) one_write_ok) as (s1 & E & _ & H);
    [done|vm_compute; done|]. exists s1. split; [done|]. by apply H.
Defined.
