(* ===== verification/FioStat.v ===== *)
(** * fio: run statistics (stat.c, stat.h, and the marks of io_u.c)

    Latencies are counted in buckets whose width grows with the latency, so that a
    percentile can be reported with a bounded relative error; depths and latencies
    are also counted in a few classes; running minimum, maximum, mean and variance
    are kept per direction and merged for a report. *)
From Stdlib Require Import ZArith Lia SpecFloat.
From stdpp Require Import base numbers list sorting.
From S2P Require Import Prelude CFloat.

(** ** Constants *)

Definition FIO_IO_U_MAP_NR : Z := 7.
Definition FIO_IO_U_LAT_U_NR : Z := 10.
Definition FIO_IO_U_LAT_M_NR : Z := 12.
Definition FIO_IO_U_PLAT_BITS : Z := 6.
Definition FIO_IO_U_PLAT_VAL : Z := Z.shiftl 1 FIO_IO_U_PLAT_BITS.
Definition FIO_IO_U_PLAT_GROUP_NR : Z := 19.
Definition FIO_IO_U_PLAT_NR : Z := FIO_IO_U_PLAT_GROUP_NR * FIO_IO_U_PLAT_VAL.
Definition FIO_IO_U_LIST_MAX_LEN : nat := 20.
Definition DDIR_READ : Z := 0.
Definition DDIR_WRITE : Z := 1.
Definition DDIR_TRIM : Z := 2.
Definition DDIR_RWDIR_CNT : Z := 3.
Definition ddir_rw (ddir : Z) : bool :=
  (ddir =? DDIR_READ) || (ddir =? DDIR_WRITE) || (ddir =? DDIR_TRIM).

(** ** Data *)

Record io_stat := IoStat {
  max_val : Z; min_val : Z; samples : Z; mean : float64; var_S : float64
}.

(** System usage. *)
Record rusage := Rusage { usr_time : Z; sys_time : Z; ctx : Z; minf : Z; majf : Z }.

Record thread_stat := ThreadStat {
  clat_stat : list io_stat; slat_stat : list io_stat; lat_stat : list io_stat;
  bw_stat : list io_stat; iops_stat : list io_stat; usage : rusage;
  clat_percentiles : bool; unified_rw_rep : bool;
  io_u_map : list Z; io_u_submit : list Z; io_u_complete : list Z;
  io_u_lat_u : list Z; io_u_lat_m : list Z; io_u_plat : list (list Z);
  total_io_u : list Z; short_io_u : list Z; total_submit : Z; total_complete : Z;
  io_bytes : list Z; runtime : list Z; total_run_time : Z
}.
Abbreviation tsprog := (prog fault thread_stat).

Definition assert {S} (b : bool) : prog fault S unit := if b then mret tt else leave Abort.

(** ** Buckets *)

Definition plat_val_to_idx (val : Z) : Z :=
  let msb := if val =? 0 then 0 else Z.log2 val in
  if msb <=? FIO_IO_U_PLAT_BITS then val
  else
    let error_bits := msb - FIO_IO_U_PLAT_BITS in
    let base := Z.shiftl (error_bits + 1) FIO_IO_U_PLAT_BITS in
    let offset := Z.land (FIO_IO_U_PLAT_VAL - 1) (Z.shiftr val error_bits) in
    if base + offset <? FIO_IO_U_PLAT_NR - 1 then base + offset else FIO_IO_U_PLAT_NR - 1.

(** Conversion of a [double] to [unsigned int]. *)
Definition f_to_uint {S} (x : float64) : prog fault S Z :=
  match f_trunc x with
  | Some z => if (0 <=? z) && (z <? 2 ^ 32) then mret z else leave (Undefined BadConversion)
  | None => leave (Undefined BadConversion)
  end.
Definition half : float64 := binary_normalize 53 1024 1 (-1) false.

Definition plat_idx_to_val {S} (idx : Z) : prog fault S Z :=
  assert (idx <? FIO_IO_U_PLAT_NR);;
  if idx <? Z.shiftl FIO_IO_U_PLAT_VAL 1 then mret idx
  else
    let error_bits := Z.shiftr idx FIO_IO_U_PLAT_BITS - 1 in
    let base := Z.shiftl 1 (error_bits + FIO_IO_U_PLAT_BITS) in
    let k := idx mod FIO_IO_U_PLAT_VAL in
    f_to_uint (f64_add (f64_of_Z base)
      (f64_mul (f64_add (f64_of_Z k) half) (f64_of_Z (Z.shiftl 1 error_bits)))).

(** ** Samples *)

Definition f_nonzero (x : spec_float) : bool := match x with S754_zero _ => false | _ => true end.

Definition add_stat_sample (data : Z) (st : io_stat) : io_stat :=
  let val := f64_of_Z data in
  let delta := f64_sub val (mean st) in
  let mean' := if f_nonzero delta
    then f64_add (mean st) (f64_div delta (f64_add (f64_of_Z (samples st)) (f64_of_Z 1)))
    else mean st in
  let var_S' := if f_nonzero delta
    then f64_add (var_S st) (f64_mul delta (f64_sub val mean')) else var_S st in
  IoStat (if max_val st <? data then data else max_val st)
    (if data <? min_val st then data else min_val st) (u64 (samples st + 1)) mean' var_S'.

Definition set_clat (l : list io_stat) (t : thread_stat) : thread_stat :=
  ThreadStat l (slat_stat t) (lat_stat t) (bw_stat t) (iops_stat t) (usage t) (clat_percentiles t)
    (unified_rw_rep t) (io_u_map t) (io_u_submit t) (io_u_complete t) (io_u_lat_u t) (io_u_lat_m t)
    (io_u_plat t) (total_io_u t) (short_io_u t) (total_submit t) (total_complete t) (io_bytes t)
    (runtime t) (total_run_time t).
Definition set_slat (l : list io_stat) (t : thread_stat) : thread_stat :=
  ThreadStat (clat_stat t) l (lat_stat t) (bw_stat t) (iops_stat t) (usage t) (clat_percentiles t)
    (unified_rw_rep t) (io_u_map t) (io_u_submit t) (io_u_complete t) (io_u_lat_u t) (io_u_lat_m t)
    (io_u_plat t) (total_io_u t) (short_io_u t) (total_submit t) (total_complete t) (io_bytes t)
    (runtime t) (total_run_time t).
Definition set_lat (l : list io_stat) (t : thread_stat) : thread_stat :=
  ThreadStat (clat_stat t) (slat_stat t) l (bw_stat t) (iops_stat t) (usage t) (clat_percentiles t)
    (unified_rw_rep t) (io_u_map t) (io_u_submit t) (io_u_complete t) (io_u_lat_u t) (io_u_lat_m t)
    (io_u_plat t) (total_io_u t) (short_io_u t) (total_submit t) (total_complete t) (io_bytes t)
    (runtime t) (total_run_time t).
Definition set_plat (l : list (list Z)) (t : thread_stat) : thread_stat :=
  ThreadStat (clat_stat t) (slat_stat t) (lat_stat t) (bw_stat t) (iops_stat t) (usage t) (clat_percentiles t)
    (unified_rw_rep t) (io_u_map t) (io_u_submit t) (io_u_complete t) (io_u_lat_u t) (io_u_lat_m t)
    l (total_io_u t) (short_io_u t) (total_submit t) (total_complete t) (io_bytes t)
    (runtime t) (total_run_time t).
(** The counts of depths, submissions, completions and latencies. *)
Definition set_marks (m s c u ms : list Z) (ns nc : Z) (t : thread_stat) : thread_stat :=
  ThreadStat (clat_stat t) (slat_stat t) (lat_stat t) (bw_stat t) (iops_stat t) (usage t) (clat_percentiles t)
    (unified_rw_rep t) m s c u ms (io_u_plat t) (total_io_u t) (short_io_u t) ns nc (io_bytes t)
    (runtime t) (total_run_time t).

Definition add_clat_percentile_sample (usec ddir : Z) : tsprog unit :=
  let idx := plat_val_to_idx (u32 usec) in
  assert (idx <? FIO_IO_U_PLAT_NR);;
  plat ← readS io_u_plat;
  row ← arr_get plat ddir;
  x ← arr_get row idx;
  row ← arr_set row idx (u32 (x + 1));
  plat ← arr_set plat ddir row;
  modS (set_plat plat).

(** One entry of one of the arrays. *)
Definition sample_at (get : thread_stat → list io_stat) (set : list io_stat → thread_stat → thread_stat)
    (ddir data : Z) : tsprog unit :=
  l ← readS get;
  st ← arr_get l ddir;
  l ← arr_set l ddir (add_stat_sample data st);
  modS (set l).

(** Without a log of the samples. *)
Definition add_clat_sample (ddir usec : Z) : tsprog unit :=
  if negb (ddir_rw ddir) then mret tt
  else
    sample_at clat_stat set_clat ddir usec;;
    p ← readS clat_percentiles;
    if p : bool then add_clat_percentile_sample usec ddir else mret tt.
Definition add_slat_sample (ddir usec : Z) : tsprog unit :=
  if negb (ddir_rw ddir) then mret tt else sample_at slat_stat set_slat ddir usec.
Definition add_lat_sample (ddir usec : Z) : tsprog unit :=
  if negb (ddir_rw ddir) then mret tt else sample_at lat_stat set_lat ddir usec.

(** ** Marks *)

(** [case lo ... hi]. *)
Definition within (lo hi x : Z) : bool := (lo <=? x) && (x <=? hi).

Definition map_class (nr : Z) : Z :=
  if within 33 64 nr then 5 else if within 17 32 nr then 4 else if within 9 16 nr then 3
  else if within 5 8 nr then 2 else if within 1 4 nr then 1 else if nr =? 0 then 0 else 6.
Definition __io_u_mark_map (map : list Z) (nr : Z) : tsprog (list Z) :=
  x ← arr_get map (map_class nr); arr_set map (map_class nr) (u32 (x + 1)).
Definition io_u_mark_submit (nr : Z) : tsprog unit :=
  t ← readS (λ t, t);
  m ← __io_u_mark_map (io_u_submit t) nr;
  modS (set_marks (io_u_map t) m (io_u_complete t) (io_u_lat_u t) (io_u_lat_m t)
    (u64 (total_submit t + 1)) (total_complete t)).
Definition io_u_mark_complete (nr : Z) : tsprog unit :=
  t ← readS (λ t, t);
  m ← __io_u_mark_map (io_u_complete t) nr;
  modS (set_marks (io_u_map t) (io_u_submit t) m (io_u_lat_u t) (io_u_lat_m t)
    (total_submit t) (u64 (total_complete t + 1))).

Definition depth_class (cur_depth : Z) : Z :=
  if within 32 63 cur_depth then 5 else if within 16 31 cur_depth then 4
  else if within 8 15 cur_depth then 3 else if within 4 7 cur_depth then 2
  else if within 2 3 cur_depth then 1 else if cur_depth =? 1 then 0 else 6.
Definition io_u_mark_depth (cur_depth nr : Z) : tsprog unit :=
  t ← readS (λ t, t);
  x ← arr_get (io_u_map t) (depth_class cur_depth);
  m ← arr_set (io_u_map t) (depth_class cur_depth) (u32 (x + nr));
  modS (set_marks m (io_u_submit t) (io_u_complete t) (io_u_lat_u t) (io_u_lat_m t)
    (total_submit t) (total_complete t)).

Definition usec_class (usec : Z) : Z :=
  if within 750 999 usec then 9 else if within 500 749 usec then 8 else if within 250 499 usec then 7
  else if within 100 249 usec then 6 else if within 50 99 usec then 5 else if within 20 49 usec then 4
  else if within 10 19 usec then 3 else if within 4 9 usec then 2 else if within 2 3 usec then 1 else 0.
Definition io_u_mark_lat_usec (usec : Z) : tsprog unit :=
  assert (usec <? 1000);;
  assert (usec_class usec <? FIO_IO_U_LAT_U_NR);;
  t ← readS (λ t, t);
  x ← arr_get (io_u_lat_u t) (usec_class usec);
  m ← arr_set (io_u_lat_u t) (usec_class usec) (u32 (x + 1));
  modS (set_marks (io_u_map t) (io_u_submit t) (io_u_complete t) m (io_u_lat_m t)
    (total_submit t) (total_complete t)).

Definition msec_class (msec : Z) : Z :=
  if within 1000 1999 msec then 10 else if within 750 999 msec then 9
  else if within 500 749 msec then 8 else if within 250 499 msec then 7
  else if within 100 249 msec then 6 else if within 50 99 msec then 5 else if within 20 49 msec then 4
  else if within 10 19 msec then 3 else if within 4 9 msec then 2 else if within 2 3 msec then 1
  else if within 0 1 msec then 0 else 11.
Definition io_u_mark_lat_msec (msec : Z) : tsprog unit :=
  assert (msec_class msec <? FIO_IO_U_LAT_M_NR);;
  t ← readS (λ t, t);
  x ← arr_get (io_u_lat_m t) (msec_class msec);
  m ← arr_set (io_u_lat_m t) (msec_class msec) (u32 (x + 1));
  modS (set_marks (io_u_map t) (io_u_submit t) (io_u_complete t) (io_u_lat_u t) m
    (total_submit t) (total_complete t)).

Definition io_u_mark_latency (usec : Z) : tsprog unit :=
  if usec <? 1000 then io_u_mark_lat_usec usec else io_u_mark_lat_msec (usec / 1000).

(** ** Reset *)

Definition reset_io_stat : io_stat := IoStat 0 0 0 (f64_of_Z 0) (f64_of_Z 0).
(** [for (i = 0; i < n; i++) l[i] = v]; the loops of [reset_io_stats] write several
    arrays in a turn. *)
Definition clear {S A} (n : Z) (v : A) (l : list A) : prog fault S (list A) :=
  for_lt 0 n (λ i l, arr_set l i v) l.

Definition reset_io_stats : tsprog unit :=
  t ← readS (λ t, t);
  clat ← clear DDIR_RWDIR_CNT reset_io_stat (clat_stat t);
  slat ← clear DDIR_RWDIR_CNT reset_io_stat (slat_stat t);
  lat ← clear DDIR_RWDIR_CNT reset_io_stat (lat_stat t);
  bw ← clear DDIR_RWDIR_CNT reset_io_stat (bw_stat t);
  iops ← clear DDIR_RWDIR_CNT reset_io_stat (iops_stat t);
  bytes ← clear DDIR_RWDIR_CNT 0 (io_bytes t);
  run ← clear DDIR_RWDIR_CNT 0 (runtime t);
  plat ← for_lt 0 DDIR_RWDIR_CNT (λ i p,
    row ← arr_get p i; row ← clear FIO_IO_U_PLAT_NR 0 row; arr_set p i row) (io_u_plat t);
  map ← clear FIO_IO_U_MAP_NR 0 (io_u_map t);
  submit ← clear FIO_IO_U_MAP_NR 0 (io_u_submit t);
  complete ← clear FIO_IO_U_MAP_NR 0 (io_u_complete t);
  lat_u ← clear FIO_IO_U_MAP_NR 0 (io_u_lat_u t);
  lat_m ← clear FIO_IO_U_MAP_NR 0 (io_u_lat_m t);
  total ← clear 3 0 (total_io_u t);
  short ← clear 3 0 (short_io_u t);
  modS (λ t, ThreadStat clat slat lat bw iops (usage t) (clat_percentiles t) (unified_rw_rep t)
    map submit complete lat_u lat_m plat total short 0 0 bytes run (total_run_time t)).

(** ** Merging *)

(** [pow] of the mathematical library. *)
Class Pow := pow : float64 → float64 → float64.

Section merge.
Context {Po : Pow}.

Definition sum_stat (dst src : io_stat) (nr : Z) : io_stat :=
  if samples src =? 0 then dst
  else
    let n := u64 (samples dst + samples src) in
    let delta := f64_sub (mean src) (mean dst) in
    let mean' := if nr =? 1 then mean src
      else f64_div (f64_add (f64_mul (mean src) (f64_of_Z (samples src)))
                      (f64_mul (mean dst) (f64_of_Z (samples dst)))) (f64_of_Z n) in
    let var_S' := if nr =? 1 then var_S src
      else f64_add (f64_add (var_S src) (var_S dst))
             (f64_div (f64_mul (pow delta (f64_of_Z 2)) (f64_of_Z (u64 (samples dst * samples src))))
                (f64_of_Z n)) in
    IoStat (Z.max (max_val dst) (max_val src)) (Z.min (min_val dst) (min_val src)) n mean' var_S'.

(** The entry of the target for the entry [l] of the source. *)
Definition into (unified : bool) (l : Z) : Z := if unified then 0 else l.

(** [dst[l] = f(dst[l], src[l])], or [dst[0] = f(dst[0], src[l])], for all [l < n]. *)
Definition merge_arr {S A} (unified : bool) (n : Z) (f : A → A → A) (dst src : list A)
    : prog fault S (list A) :=
  for_lt 0 n (λ l d,
    a ← arr_get d (into unified l);
    b ← arr_get src l;
    arr_set d (into unified l) (f a b)) dst.

Definition sum_usage (d s : rusage) : rusage :=
  Rusage (u64 (usr_time d + usr_time s)) (u64 (sys_time d + sys_time s)) (u64 (ctx d + ctx s))
    (u64 (minf d + minf s)) (u64 (majf d + majf s)).

Definition add32 (a b : Z) : Z := u32 (a + b).
Definition add64 (a b : Z) : Z := u64 (a + b).

Definition sum_thread_stats (src : thread_stat) (nr : Z) : tsprog unit :=
  dst ← readS (λ t, t);
  let u := unified_rw_rep dst in
  let merge_stats := λ d s, merge_arr u DDIR_RWDIR_CNT (λ a b, sum_stat a b nr) d s in
  clat ← merge_stats (clat_stat dst) (clat_stat src);
  slat ← merge_stats (slat_stat dst) (slat_stat src);
  lat ← merge_stats (lat_stat dst) (lat_stat src);
  bw ← merge_stats (bw_stat dst) (bw_stat src);
  bytes ← merge_arr u DDIR_RWDIR_CNT add64 (io_bytes dst) (io_bytes src);
  run ← merge_arr u DDIR_RWDIR_CNT (λ a b, if a <? b then b else a) (runtime dst) (runtime src);
  map ← merge_arr false FIO_IO_U_MAP_NR add32 (io_u_map dst) (io_u_map src);
  submit ← merge_arr false FIO_IO_U_MAP_NR add32 (io_u_submit dst) (io_u_submit src);
  complete ← merge_arr false FIO_IO_U_MAP_NR add32 (io_u_complete dst) (io_u_complete src);
  lat_u ← merge_arr false FIO_IO_U_LAT_U_NR add32 (io_u_lat_u dst) (io_u_lat_u src);
  lat_m ← merge_arr false FIO_IO_U_LAT_M_NR add32 (io_u_lat_m dst) (io_u_lat_m src);
  total ← merge_arr u DDIR_RWDIR_CNT add64 (total_io_u dst) (total_io_u src);
  short ← merge_arr u DDIR_RWDIR_CNT add64 (short_io_u dst) (short_io_u src);
  plat ← for_lt 0 DDIR_RWDIR_CNT (λ k p,
    d ← arr_get p (into u k);
    s ← arr_get (io_u_plat src) k;
    d ← merge_arr false FIO_IO_U_PLAT_NR add32 d s;
    arr_set p (into u k) d) (io_u_plat dst);
  modS (λ t, ThreadStat clat slat lat bw (iops_stat t) (sum_usage (usage t) (usage src))
    (clat_percentiles t) u map submit complete lat_u lat_m plat total short
    (add64 (total_submit t) (total_submit src)) (add64 (total_complete t) (total_complete src))
    bytes run (add64 (total_run_time t) (total_run_time src))).
End merge.

(** [init_thread_stat] of an object of a new report. *)
Definition init_io_stat (with_min : bool) : io_stat :=
  IoStat 0 (if with_min then 2 ^ 64 - 1 else 0) 0 (f64_of_Z 0) (f64_of_Z 0).
Definition init_thread_stat : thread_stat :=
  let stats := replicate 3 (init_io_stat true) in
  let zeros := λ n, replicate (Z.to_nat n) 0 in
  ThreadStat stats stats stats stats (replicate 3 (init_io_stat false)) (Rusage 0 0 0 0 0) false false
    (zeros FIO_IO_U_MAP_NR) (zeros FIO_IO_U_MAP_NR) (zeros FIO_IO_U_MAP_NR) (zeros FIO_IO_U_LAT_U_NR)
    (zeros FIO_IO_U_LAT_M_NR) (replicate 3 (zeros FIO_IO_U_PLAT_NR)) (zeros 3) (zeros 3) 0 0 (zeros 3)
    (zeros 3) 0.

(** ** Percentiles *)

(** [double_cmp(a, b) <= 0]. *)
Definition double_le (a b : float64) : Prop := f_lt b a = false.
#[export] Instance double_le_dec a b : Decision (double_le a b).
Proof. unfold double_le. apply _. Defined.

(** [plist[j].u.f / 100.0 * nr], and [sum >= ] it. *)
Definition rank_of (p : float64) (nr : Z) : float64 :=
  f64_mul (f64_div p (f64_of_Z 100)) (f64_of_Z nr).
Definition reaches (p : float64) (nr sum : Z) : bool := f_ge (f64_of_Z sum) (rank_of p nr).

(** The percentiles up to the first zero. *)
Fixpoint plist_len (n : nat) (plist : list float64) : nat :=
  match n, plist with
  | S n, p :: plist => if f_nonzero p then S (plist_len n plist) else O
  | _, _ => O
  end.

(** The loop over the percentiles that a bucket satisfies: [ps] are those from
    [plist[j]] on, [out] the values so far.  What is left is [None] after the last
    percentile. *)
Record clat_out := ClatOut { ovals : list Z; minv : Z; maxv : Z }.
Fixpoint emit {St} (nr sum i : Z) (p : float64) (ps : list float64) (out : clat_out)
    : prog fault St (option (float64 * list float64) * clat_out) :=
  if reaches p nr sum then
    assert (f_ge (f64_of_Z 100) p);;
    v ← plat_idx_to_val i;
    let out := ClatOut (ovals out ++ [v]) (if v <? minv out then v else minv out)
                 (if maxv out <? v then v else maxv out) in
    match ps with
    | [] => mret (None, out)
    | q :: ps => emit nr sum i q ps out
    end
  else mret (Some (p, ps), out).

Fixpoint clat_buckets {St} (plat : list Z) (nr sum i : Z) (p : float64) (ps : list float64)
    (out : clat_out) : prog fault St clat_out :=
  match plat with
  | [] => mret out
  | c :: plat =>
      let sum := u64 (sum + c) in
      r ← emit nr sum i p ps out;
      match r.1 with
      | None => mret r.2
      | Some (p, ps) => clat_buckets plat nr sum (i + 1) p ps r.2
      end
  end.

(** The number of percentiles and the values that were found for them; [plat] has
    [FIO_IO_U_PLAT_NR] entries. *)
Definition calc_clat_percentiles {St} (plat : list Z) (nr : Z) (plist : list float64)
    : prog fault St (nat * clat_out) :=
  let len := plist_len FIO_IO_U_LIST_MAX_LEN plist in
  match merge_sort double_le (take len plist) with
  | [] => mret (O, ClatOut [] (2 ^ 32 - 1) 0)
  | p :: ps =>
      out ← clat_buckets plat nr 0 0 p ps (ClatOut [] (2 ^ 32 - 1) 0);
      mret (len, out)
  end.
