(* ===== verification/FioBuckets.v ===== *)
(** * fio: the error of a latency bucket, and percentiles from buckets *)
From Stdlib Require Import ZArith Lia SpecFloat.
From stdpp Require Import base numbers list sorting.
From S2P Require Import Prelude CFloat.
From S2P Require Import FioStat.

(** ** Buckets *)

(** The middle of a bucket, in integers. *)
Definition mid_val (idx : Z) : Z :=
  if idx <? 128 then idx
  else 2 ^ (idx / 64 + 5) + (idx mod 64) * 2 ^ (idx / 64 - 1) + 2 ^ (idx / 64 - 2).

(** All buckets, checked by evaluation: the arithmetic in [double] is exact. *)
Definition bucket_ok (idx : Z) : bool :=
  match plat_idx_to_val idx tt with
  | (Done v, _) => (v =? mid_val idx) && (plat_val_to_idx v =? idx)
  | _ => false
  end.
Lemma buckets_ok : forallb bucket_ok (seqZ 0 1216) = true.
Proof. vm_compute. reflexivity. Qed.

Lemma plat_idx_stateless {S} idx v (s : S) :
  plat_idx_to_val idx tt = (Done v, tt) → plat_idx_to_val idx s = (Done v, s).
Proof.
  unfold plat_idx_to_val, assert, mbind, prog_bind. destruct (_ <? FIO_IO_U_PLAT_NR); [|done]. simpl.
  destruct (_ <? _); [by intros [= ->]|]. unfold f_to_uint. destruct (f_trunc _); [|done].
  destruct (_ && _); [|done]. by intros [= ->].
Qed.
Lemma bucket_run {S} idx (s : S) :
  0 ≤ idx < 1216 → plat_idx_to_val idx s = (Done (mid_val idx), s) ∧ plat_val_to_idx (mid_val idx) = idx.
Proof.
  intros Hi. pose proof buckets_ok as H. rewrite forallb_forall in H. specialize (H idx).
  unfold bucket_ok in H. destruct (plat_idx_to_val idx tt) as [[v|] []] eqn:E.
  - apply andb_true_iff in H as [H1%Z.eqb_eq H2%Z.eqb_eq]; [|by apply list_elem_of_In, elem_of_seqZ].
    subst v. split; [|done]. by apply plat_idx_stateless.
  - exfalso. by apply diff_false_true, H, list_elem_of_In, elem_of_seqZ.
Qed.

(** The index in closed form, with the number [e] of bits that are dropped. *)
Lemma idx_small val : 0 ≤ val < 128 → plat_val_to_idx val = val.
Proof.
  intros H. unfold plat_val_to_idx. assert ((if val =? 0 then 0 else Z.log2 val) ≤ 6) as Hm.
  { destruct (Z.eqb_spec val 0); [lia|]. assert (Z.log2 val < 7); [|lia]. apply Z.log2_lt_pow2; lia. }
  rewrite (proj2 (Z.leb_le _ _)); [done|]. exact Hm.
Qed.
Lemma idx_large val e :
  0 < e → 64 * 2 ^ e ≤ val < 128 * 2 ^ e → plat_val_to_idx val = Z.min 1215 (64 * e + val / 2 ^ e).
Proof.
  intros He Hv. assert (0 < 2 ^ e) as Hp by (apply Z.pow_pos_nonneg; lia).
  assert (Z.log2 val = e + 6) as Hl.
  { apply Z.log2_unique; [lia|]. rewrite Z.pow_succ_r, Z.pow_add_r by lia. lia. }
  unfold plat_val_to_idx. rewrite (proj2 (Z.eqb_neq val 0)), Hl by lia.
  rewrite (proj2 (Z.leb_gt _ _)) by (unfold FIO_IO_U_PLAT_BITS; lia).
  change FIO_IO_U_PLAT_BITS with 6. replace (e + 6 - 6) with e by lia.
  change (FIO_IO_U_PLAT_VAL - 1) with (Z.ones 6). change (FIO_IO_U_PLAT_NR - 1) with 1215.
  rewrite Z.land_comm, Z.land_ones, Z.shiftr_div_pow2, Z.shiftl_mul_pow2 by lia.
  change (2 ^ 6) with 64.
  assert (64 ≤ val / 2 ^ e < 128) as Hq.
  { split; [apply Z.div_le_lower_bound|apply Z.div_lt_upper_bound]; lia. }
  assert ((val / 2 ^ e) mod 64 = val / 2 ^ e - 64) as ->.
  { symmetry. apply (Z.mod_unique_pos _ _ 1); lia. }
  destruct (Z.ltb_spec ((e + 1) * 64 + (val / 2 ^ e - 64)) 1215); lia.
Qed.
Lemma bits_of val : 128 ≤ val → ∃ e, 0 < e ∧ 64 * 2 ^ e ≤ val < 128 * 2 ^ e.
Proof.
  intros H. exists (Z.log2 val - 6). pose proof (Z.log2_spec val ltac:(lia)) as Hs.
  assert (7 ≤ Z.log2 val) by (apply Z.log2_le_pow2; lia). split; [lia|].
  rewrite Z.pow_succ_r in Hs by lia.
  assert (2 ^ Z.log2 val = 64 * 2 ^ (Z.log2 val - 6)) as Hp.
  { change 64 with (2 ^ 6). rewrite <- Z.pow_add_r by lia. f_equal. lia. }
  lia.
Qed.

Lemma idx_range val : 0 ≤ val → 0 ≤ plat_val_to_idx val < 1216.
Proof.
  intros H. destruct (Z.lt_ge_cases val 128); [rewrite idx_small; lia|].
  destruct (bits_of val) as (e & He & Hv); [done|]. rewrite (idx_large val e) by done.
  assert (0 ≤ val / 2 ^ e) by (apply Z.div_pos; [lia|apply Z.pow_pos_nonneg; lia]). lia.
Qed.

Lemma idx_mono v w : 0 ≤ v ≤ w → plat_val_to_idx v ≤ plat_val_to_idx w.
Proof.
  intros H. destruct (Z.lt_ge_cases w 128); [rewrite !idx_small; lia|].
  destruct (bits_of w) as (f & Hf & Hw); [done|]. rewrite (idx_large w f) by done.
  assert (0 < 2 ^ f) by (apply Z.pow_pos_nonneg; lia).
  assert (64 ≤ w / 2 ^ f) by (apply Z.div_le_lower_bound; lia).
  destruct (Z.lt_ge_cases v 128); [rewrite idx_small by lia; lia|].
  destruct (bits_of v) as (e & He & Hv); [done|]. rewrite (idx_large v e) by done.
  assert (0 < 2 ^ e) by (apply Z.pow_pos_nonneg; lia).
  assert (v / 2 ^ e < 128) by (apply Z.div_lt_upper_bound; lia).
  destruct (Z.lt_trichotomy e f) as [|[->|Hgt]]; [lia| |].
  - pose proof (Z.div_le_mono v w (2 ^ f)). lia.
  - assert (2 * 2 ^ f ≤ 2 ^ e); [|lia]. rewrite <- Z.pow_succ_r by lia. apply Z.pow_le_mono_r; lia.
Qed.

Lemma mid_close val : 0 ≤ val < 2 ^ 24 → 128 * Z.abs (mid_val (plat_val_to_idx val) - val) ≤ val.
Proof.
  intros H. destruct (Z.lt_ge_cases val 128) as [Hs|Hl].
  { rewrite idx_small by lia. unfold mid_val. rewrite (proj2 (Z.ltb_lt _ _)) by lia. lia. }
  destruct (bits_of val) as (e & He & Hv); [done|]. rewrite (idx_large val e) by done.
  assert (e ≤ 17).
  { destruct (Z.lt_ge_cases 17 e); [|done]. assert (2 ^ 18 ≤ 2 ^ e) by (apply Z.pow_le_mono_r; lia). lia. }
  assert (0 < 2 ^ e) by (apply Z.pow_pos_nonneg; lia).
  set (q := val / 2 ^ e). assert (64 ≤ q < 128).
  { split; [apply Z.div_le_lower_bound|apply Z.div_lt_upper_bound]; lia. }
  rewrite Z.min_r by lia. unfold mid_val. rewrite (proj2 (Z.ltb_ge _ _)) by lia.
  replace (64 * e + q) with ((e + 1) * 64 + (q - 64)) by lia.
  rewrite Z.div_add_l, (Z.div_small (q - 64)) by lia.
  assert (((e + 1) * 64 + (q - 64)) mod 64 = q - 64) as ->.
  { symmetry. apply (Z.mod_unique_pos _ _ (e + 1)); lia. }
  replace (e + 1 + 0 + 5) with (6 + e) by lia. replace (e + 1 + 0 - 1) with e by lia.
  replace (e + 1 + 0 - 2) with (e - 1) by lia. rewrite Z.pow_add_r by lia.
  assert (2 ^ e = 2 * 2 ^ (e - 1)) as Hh by (rewrite <- Z.pow_succ_r by lia; f_equal; lia).
  pose proof (Z.div_mod val (2 ^ e)) as Hd. pose proof (Z.mod_pos_bound val (2 ^ e)). fold q in Hd.
  change (2 ^ 6) with 64. rewrite Hh in *. nia.
Qed.

