(* ===== verification/FioPercentiles.v ===== *)
(** * fio: percentiles of completion latencies

    Latencies are counted in buckets as they come; a percentile is then found by
    adding up the buckets.  What is reported is close to a latency that was
    measured and has the rank that the percentile asks for. *)
From Stdlib Require Import ZArith Lia SpecFloat.
From stdpp Require Import base numbers gmap list sorting.
From S2P Require Import Prelude CFloat.
From S2P Require Import FioStat FioBuckets.

(** ** The order of doubles *)

Lemma f_ge_trans x y z : f_ge x y = true → f_ge y z = true → f_ge x z = true.
Proof.
  unfold f_ge, SFleb, SFcompare.
  destruct x as [[]|[]| |[] mx ex], y as [[]|[]| |[] my ey], z as [[]|[]| |[] mz ez]; simpl; try done.
  all: destruct (Z.compare_spec ez ey), (Z.compare_spec ey ex), (Z.compare_spec ez ex); try lia; try done.
  all: change (Pos.compare_cont Eq) with Pos.compare.
  all: destruct (Pos.compare_spec mz my), (Pos.compare_spec my mx), (Pos.compare_spec mz mx);
    simpl; try lia; done.
Qed.

(** ** Counting *)

Definition at_most (xs : list Z) (i : Z) : Z :=
  Z.of_nat (length (filter (λ x, plat_val_to_idx x ≤ i) xs)).
Definition in_bucket (xs : list Z) (i : Z) : Z :=
  Z.of_nat (length (filter (λ x, plat_val_to_idx x = i) xs)).
Definition counted (xs : list Z) (plat : list Z) : Prop := plat = in_bucket xs <$> seqZ 0 FIO_IO_U_PLAT_NR.

Lemma upto_step xs i : at_most xs i = at_most xs (i - 1) + in_bucket xs i.
Proof.
  unfold at_most, in_bucket. induction xs as [|x xs IH]; [done|].
  rewrite !filter_cons. repeat case_decide; simpl; lia.
Qed.
Lemma upto_none xs k : Forall (λ x, 0 ≤ x) xs → k < 0 → at_most xs k = 0.
Proof.
  intros H Hk. unfold at_most. induction H as [|x xs Hx _ IH]; [done|]. rewrite filter_cons_False; [done|].
  pose proof (idx_range x Hx). lia.
Qed.
Lemma upto_all xs i : Forall (λ x, 0 ≤ x) xs → FIO_IO_U_PLAT_NR - 1 ≤ i → at_most xs i = Z.of_nat (length xs).
Proof.
  intros H Hi. change (FIO_IO_U_PLAT_NR - 1) with 1215 in Hi. unfold at_most.
  induction H as [|x xs Hx _ IH]; [done|]. rewrite filter_cons_True; [simpl; lia|].
  pose proof (idx_range x Hx). lia.
Qed.
Lemma upto_le xs i : 0 ≤ at_most xs i ≤ Z.of_nat (length xs).
Proof. unfold at_most. pose proof (length_filter (λ x, plat_val_to_idx x ≤ i) xs). lia. Qed.
Lemma in_bucket_snoc xs x i :
  in_bucket (xs ++ [x]) i = in_bucket xs i + if decide (plat_val_to_idx x = i) then 1 else 0.
Proof. unfold in_bucket. rewrite filter_app, length_app, filter_cons, filter_nil. case_decide; simpl; lia. Qed.
Lemma in_bucket_le xs i : 0 ≤ in_bucket xs i ≤ Z.of_nat (length xs).
Proof. unfold in_bucket. pose proof (length_filter (λ x, plat_val_to_idx x = i) xs). lia. Qed.
Lemma in_bucket_pos xs i : in_bucket xs i ≠ 0 → ∃ x, x ∈ xs ∧ plat_val_to_idx x = i.
Proof.
  unfold in_bucket. destruct (filter _ xs) as [|x l] eqn:E; [done|]. intros _. exists x.
  assert (x ∈ filter (λ x, plat_val_to_idx x = i) xs) as [? ?]%list_elem_of_filter by (rewrite E; set_solver).
  done.
Qed.

Lemma counted_lookup xs plat i :
  counted xs plat → 0 ≤ i < FIO_IO_U_PLAT_NR → plat !! Z.to_nat i = Some (in_bucket xs i).
Proof.
  intros -> Hi. rewrite list_lookup_fmap, lookup_seqZ_lt by lia. simpl. do 2 f_equal. lia.
Qed.
Lemma counted_snoc xs plat x :
  counted xs plat → 0 ≤ x →
  counted (xs ++ [x]) (<[Z.to_nat (plat_val_to_idx x) := in_bucket xs (plat_val_to_idx x) + 1]> plat).
Proof.
  intros Hc Hx. pose proof (idx_range x Hx) as Hr. unfold counted in *. subst plat.
  apply list_eq. intros i. rewrite list_lookup_fmap.
  destruct (decide (i = Z.to_nat (plat_val_to_idx x))) as [->|Hne].
  - rewrite list_lookup_insert_eq by (rewrite length_fmap, length_seqZ; change FIO_IO_U_PLAT_NR with 1216; lia).
    rewrite lookup_seqZ_lt by (change FIO_IO_U_PLAT_NR with 1216; lia). simpl. f_equal.
    rewrite in_bucket_snoc, decide_True by lia. rewrite Z2Nat.id by lia. done.
  - rewrite list_lookup_insert_ne, list_lookup_fmap by done.
    destruct (seqZ 0 FIO_IO_U_PLAT_NR !! i) as [k|] eqn:E; [|done]. simpl. f_equal.
    apply lookup_seqZ in E as [-> ?]. rewrite in_bucket_snoc, decide_False by lia. lia.
Qed.

(** ** Adding samples *)

Fixpoint add_clat_samples (ddir : Z) (xs : list Z) : tsprog unit :=
  match xs with
  | [] => mret tt
  | x :: xs => add_clat_sample ddir x;; add_clat_samples ddir xs
  end.

(** The buckets of the direction [ddir] count the latencies [xs]. *)
Record clat_counts (ddir : Z) (xs : list Z) (t : thread_stat) : Prop := ClatCounts {
  cc_on : clat_percentiles t = true;
  cc_rw : ddir_rw ddir = true;
  cc_stat : is_Some (clat_stat t !! Z.to_nat ddir);
  cc_plat : ∃ row, io_u_plat t !! Z.to_nat ddir = Some row ∧ counted xs row
}.

Lemma arr_get_run {F S A} `{HasUB F} (l : list A) i x (s : S) :
  0 ≤ i → l !! Z.to_nat i = Some x → arr_get l i s = (Done x, s).
Proof. intros Hi E. unfold arr_get. rewrite (proj2 (Z.ltb_ge i 0)) by done. by rewrite E. Qed.
Lemma arr_set_run {F S A} `{HasUB F} (l : list A) i x y (s : S) :
  0 ≤ i → l !! Z.to_nat i = Some y → arr_set l i x s = (Done (<[Z.to_nat i := x]> l), s).
Proof. intros Hi E. apply lookup_lt_Some in E. by rewrite arr_set_ok by lia. Qed.

Lemma clat_sample_run ddir xs t x :
  clat_counts ddir xs t → 0 ≤ x < 2 ^ 32 → Z.of_nat (length xs) + 1 < 2 ^ 32 →
  ∃ t', add_clat_sample ddir x t = (Done tt, t') ∧ clat_counts ddir (xs ++ [x]) t'.
Proof.
  intros [Hon Hrw [st Hst] (row & Hrow & Hc)] Hx Hl. pose proof (idx_range x ltac:(lia)) as Hr.
  assert (0 ≤ ddir) as Hd by (unfold ddir_rw, DDIR_READ, DDIR_WRITE, DDIR_TRIM in Hrw; lia).
  unfold add_clat_sample, sample_at. rewrite Hrw. cbn [negb].
  set (t1 := set_clat (<[Z.to_nat ddir := add_stat_sample x st]> (clat_stat t)) t).
  assert ((l ← readS clat_stat; st ← arr_get l ddir; l ← arr_set l ddir (add_stat_sample x st);
    modS (set_clat l)) t = (Done tt, t1)) as E1.
  { rewrite (bind_done (readS clat_stat) _ t t _ eq_refl).
    rewrite (bind_done _ _ _ _ _ (arr_get_run _ _ _ t Hd Hst)).
    by rewrite (bind_done _ _ _ _ _ (arr_set_run _ _ _ _ t Hd Hst)). }
  rewrite (bind_done _ _ _ _ _ E1), (bind_done (readS clat_percentiles) _ t1 t1 _ eq_refl).
  change (clat_percentiles t1) with (clat_percentiles t). rewrite Hon. unfold add_clat_percentile_sample.
  assert (u32 x = x) as -> by (unfold u32; by rewrite Z.mod_small). set (i := plat_val_to_idx x) in *.
  unfold assert at 1. rewrite (proj2 (Z.ltb_lt _ _)) by (exact (proj2 Hr)).
  rewrite (bind_done (mret tt) _ t1 t1 tt eq_refl), (bind_done (readS io_u_plat) _ t1 t1 _ eq_refl).
  assert (io_u_plat t1 !! Z.to_nat ddir = Some row) as Hrow1 by done.
  pose proof (counted_lookup _ _ i Hc Hr) as Hri.
  rewrite (bind_done _ _ _ _ _ (arr_get_run _ _ _ t1 Hd Hrow1)).
  rewrite (bind_done _ _ _ _ _ (arr_get_run _ _ _ t1 (proj1 Hr) Hri)).
  rewrite (bind_done _ _ _ _ _ (arr_set_run _ _ _ _ t1 (proj1 Hr) Hri)).
  rewrite (bind_done _ _ _ _ _ (arr_set_run _ _ _ _ t1 Hd Hrow1)).
  eexists. split; [done|]. constructor; simpl; [done|done| |].
  - rewrite list_lookup_insert_eq by (by eapply lookup_lt_Some). by eexists.
  - rewrite list_lookup_insert_eq by (by eapply lookup_lt_Some). eexists. split; [done|].
    assert (u32 (in_bucket xs i + 1) = in_bucket xs i + 1) as ->.
    { unfold u32. pose proof (in_bucket_le xs i). rewrite Z.mod_small; lia. }
    apply counted_snoc; [done|lia].
Qed.

Lemma clat_samples_run ddir ys xs t :
  clat_counts ddir xs t → Forall (λ x, 0 ≤ x < 2 ^ 32) ys → Z.of_nat (length (xs ++ ys)) < 2 ^ 32 →
  ∃ t', add_clat_samples ddir ys t = (Done tt, t') ∧ clat_counts ddir (xs ++ ys) t'.
Proof.
  intros Hc Hy. revert xs t Hc. induction Hy as [|y ys Hy _ IH]; intros xs t Hc Hl; simpl.
  { exists t. by rewrite app_nil_r. }
  rewrite length_app in Hl. simpl in Hl.
  destruct (clat_sample_run ddir xs t y Hc Hy) as (t1 & E1 & Hc1); [lia|].
  rewrite (bind_done _ _ _ _ _ E1). destruct (IH _ _ Hc1) as (t2 & E2 & Hc2).
  { rewrite !length_app. simpl. lia. }
  exists t2. by rewrite <- app_assoc in Hc2.
Qed.

(** ** Finding percentiles *)

Section find.
Context (xs : list Z).
Let nr := Z.of_nat (length xs).

(** [v] stands for a latency whose bucket is the first with the rank of [p]. *)
Definition percentile_of (p : float64) (v : Z) : Prop :=
  ∃ i, v = mid_val i ∧ (∃ x, x ∈ xs ∧ plat_val_to_idx x = i) ∧ reaches p nr (at_most xs i) = true ∧
    ∀ k, k < i → reaches p nr (at_most xs k) = false.

Lemma emit_run {S} i p ps out (s : S) :
  0 ≤ i < FIO_IO_U_PLAT_NR → Forall (λ q, f_ge (f64_of_Z 100) q = true) (p :: ps) →
  Forall (λ q, ∀ k, k < i → reaches q nr (at_most xs k) = false) (p :: ps) →
  ∃ l1 rest out', p :: ps = l1 ++ rest ∧
    emit nr (at_most xs i) i p ps out s =
      (Done (match rest with [] => None | q :: qs => Some (q, qs) end, out'), s) ∧
    (∃ vs, ovals out' = ovals out ++ vs ∧ Forall2 percentile_of l1 vs) ∧
    match rest with [] => True | q :: qs => reaches q nr (at_most xs i) = false end.
Proof.
  intros Hi. revert p out. induction ps as [|q ps IH]; intros p out Hp Hk; cbn [emit];
    (destruct (reaches p nr (at_most xs i)) eqn:E; [|by eexists [], _, out; split_and!; [done|done|exists []; rewrite app_nil_r|]]);
    (assert (percentile_of p (mid_val i)) as Hv;
      [exists i; split_and!; [done| |done|by apply Forall_cons in Hk as [? _]];
       apply in_bucket_pos; intros H0; apply Forall_cons in Hk as [Hk _];
       specialize (Hk (i - 1) ltac:(lia)); rewrite upto_step, H0, Z.add_0_r in E; congruence|]);
    apply Forall_cons in Hp as [Hp Hps]; unfold assert at 1; rewrite Hp;
    rewrite (bind_done (mret tt) _ s s tt eq_refl), (bind_done _ _ _ _ _ (proj1 (bucket_run i s Hi))).
  - eexists [p], [], _. split_and!; [done|done| |done]. exists [mid_val i]. split; [done|]. by constructor.
  - apply Forall_cons in Hk as [_ Hk].
    destruct (IH q (ClatOut (ovals out ++ [mid_val i]) (if mid_val i <? minv out then mid_val i else minv out)
      (if maxv out <? mid_val i then mid_val i else maxv out)) Hps Hk) as (l1 & rest & out' & El & Er & (vs & Ev & Hvs) & Hrest).
    exists (p :: l1), rest, out'. split_and!; [simpl; by rewrite El|exact Er| |done].
    exists (mid_val i :: vs). split; [|by constructor]. rewrite Ev. simpl. by rewrite <- app_assoc.
Qed.

Definition in_order : list float64 → Prop := StronglySorted (λ p q, f_ge (rank_of q nr) (rank_of p nr) = true).

(** Later percentiles are not reached before. *)
Lemma in_order_reaches p ps n :
  in_order (p :: ps) → reaches p nr n = false → Forall (λ q, reaches q nr n = false) (p :: ps).
Proof.
  intros [_ Hs]%StronglySorted_inv Hp. constructor; [done|]. eapply Forall_impl; [exact Hs|].
  intros q Hq. simpl in Hq. destruct (reaches q nr n) eqn:E; [|done]. unfold reaches in *.
  by rewrite (f_ge_trans _ _ _ E Hq) in Hp.
Qed.

Lemma clat_buckets_run {St} n i p ps out (s : St) :
  0 ≤ i → i + Z.of_nat n = FIO_IO_U_PLAT_NR → Forall (λ x, 0 ≤ x) xs → nr < 2 ^ 32 →
  Forall (λ q, f_ge (f64_of_Z 100) q = true) (p :: ps) →
  Forall (λ q, ∀ k, k < i → reaches q nr (at_most xs k) = false) (p :: ps) →
  in_order (p :: ps) → Forall (λ q, reaches q nr nr = true) (p :: ps) →
  ∃ out' vs, clat_buckets (in_bucket xs <$> seqZ i (Z.of_nat n)) nr (at_most xs (i - 1)) i p ps out s =
      (Done out', s) ∧ ovals out' = ovals out ++ vs ∧ Forall2 percentile_of (p :: ps) vs.
Proof.
  intros Hi Hn Hx Hnr. revert i p ps out Hi Hn. induction n as [|n IH]; intros i p ps out Hi Hn Hp Hk Ho Hr.
  { exfalso. apply Forall_cons in Hk as [Hk _]. apply Forall_cons in Hr as [Hr _].
    specialize (Hk (i - 1) ltac:(lia)). rewrite upto_all in Hk by (done || lia). fold nr in Hk. congruence. }
  rewrite seqZ_cons by lia. cbn [fmap list_fmap clat_buckets].
  assert (u64 (at_most xs (i - 1) + in_bucket xs i) = at_most xs i) as ->.
  { rewrite <- upto_step. unfold u64. pose proof (upto_le xs i). fold nr in H. rewrite Z.mod_small; lia. }
  destruct (emit_run i p ps out s ltac:(lia) Hp Hk) as (l1 & rest & out1 & El & E & (vs & Ev & Hvs) & Hrest).
  rewrite (bind_done _ _ _ _ _ E). cbn [fst snd]. rewrite El in *.
  destruct rest as [|q qs].
  { exists out1, vs. by rewrite app_nil_r. }
  apply Forall_app in Hp as [_ Hp]. apply Forall_app in Hk as [_ Hk]. apply Forall_app in Hr as [_ Hr].
  assert (in_order (q :: qs)) as Ho' by (by apply StronglySorted_app_1_r in Ho).
  replace (Z.pred (Z.of_nat (S n))) with (Z.of_nat n) by lia. replace (Z.succ i) with (i + 1) by lia.
  destruct (IH (i + 1) q qs out1 ltac:(lia) ltac:(lia) Hp) as (out' & vs' & E' & Ev' & Hvs'); [|done|done|].
  { pose proof (in_order_reaches q qs _ Ho' Hrest) as Hn'. apply Forall_forall. intros r Hin k Hlt.
    rewrite Forall_forall in Hk, Hn'. destruct (decide (k = i)) as [->|]; [by apply Hn'|]. apply Hk; [done|lia]. }
  replace (i + 1 - 1) with i in E' by lia. exists out', (vs ++ vs'). rewrite E', Ev', Ev, <- app_assoc.
  split_and!; [done|done|by apply Forall2_app].
Qed.
End find.

Lemma plist_len_le n l : (plist_len n l ≤ length l)%nat.
Proof. revert l. induction n as [|n IH]; intros [|p l]; simpl; [lia..|]. case_match; [|lia]. specialize (IH l). lia. Qed.


(** ** Five latencies *)

Definition with_percentiles : thread_stat :=
  let t := init_thread_stat in
  ThreadStat (clat_stat t) (slat_stat t) (lat_stat t) (bw_stat t) (iops_stat t) (usage t) true false
    (io_u_map t) (io_u_submit t) (io_u_complete t) (io_u_lat_u t) (io_u_lat_m t) (io_u_plat t)
    (total_io_u t) (short_io_u t) 0 0 (io_bytes t) (runtime t) 0.
Lemma with_percentiles_ok : clat_counts DDIR_READ [] with_percentiles.
Proof.
  constructor; [done|done|by eexists|]. exists (replicate 1216 0). split; [reflexivity|].
  unfold counted. vm_compute. reflexivity.
Qed.

(** The median and the 99th percentile of five latencies. *)
Definition five : list Z := [100; 200; 5000; 1000; 20].
Definition two_percentiles : list float64 := [f64_of_Z 99; f64_of_Z 50; f64_of_Z 0].


Example five_percentiles :
  (add_clat_samples DDIR_READ five;; row ← readS io_u_plat; l ← arr_get row 0;
   r ← calc_clat_percentiles l 5 two_percentiles; mret (ovals r.2)) with_percentiles =
  (Done [201; 5024], (add_clat_samples DDIR_READ five with_percentiles).2).
Proof. vm_compute. reflexivity. Qed.

