(* ===== verification/FioStatCorrect.v ===== *)
(** * fio: resetting and merging the statistics *)
From Stdlib Require Import ZArith Lia SpecFloat.
From stdpp Require Import base numbers gmap list sorting.
From S2P Require Import Prelude CFloat.
From S2P Require Import FioStat FioBuckets FioPercentiles.

(** ** Loops over arrays *)

(** A loop that writes the entry [i] in the turn [i]. *)
Lemma each_run {St A} (r l : list A) (body : Z → list A → prog fault St (list A)) (s : St) :
  (length r ≤ length l)%nat →
  (∀ i k x, r !! i = Some x → length k = length l → k !! i = l !! i →
     body (Z.of_nat i) k s = (Done (<[i := x]> k), s)) →
  for_n (length r) 0 body l s = (Done (r ++ drop (length r) l), s).
Proof.
  intros Hn Hb.
  destruct (for_n_run (λ i k t, t = s ∧ k = take (Z.to_nat i) r ++ drop (Z.to_nat i) l) body (length r) 0 l s)
    as (k & t & E & -> & ->); [done| |by rewrite E, Z.add_0_l, Nat2Z.id, firstn_all].
  intros i k t Hi [-> ->]. set (m := Z.to_nat i).
  destruct (lookup_lt_is_Some_2 r m ltac:(lia)) as [x Hx].
  assert (length (take m r) = m) as Hlm by (rewrite length_take; lia).
  replace i with (Z.of_nat m) by lia. replace (Z.to_nat (Z.of_nat m + 1)) with (S m) by lia.
  eexists _, s. split; [apply Hb; [done| |]|split; [done|]].
  - rewrite length_app, length_drop. lia.
  - rewrite lookup_app_r, Hlm, Nat.sub_diag, lookup_drop by lia. f_equal. lia.
  - rewrite insert_app_r_alt, Hlm, Nat.sub_diag by lia.
    destruct (drop m l) as [|y l'] eqn:Ed.
    { apply (f_equal length) in Ed. rewrite length_drop in Ed. simpl in Ed. lia. }
    rewrite (take_S_r _ _ x Hx), <- app_assoc. simpl. do 2 f_equal.
    replace (S m) with (m + 1)%nat by lia. by rewrite <- drop_drop, Ed.
Qed.

Lemma clear_part_run {St A} (n : nat) (v : A) (l : list A) (s : St) :
  (n ≤ length l)%nat → clear (Z.of_nat n) v l s = (Done (replicate n v ++ drop n l), s).
Proof.
  intros Hn. unfold clear, for_lt. rewrite Z.sub_0_r, Nat2Z.id.
  pose proof (each_run (replicate n v) l (λ i l, arr_set l i v) s) as H. rewrite length_replicate in H.
  apply H; [done|]. intros i k x [-> Hi]%lookup_replicate Hl _. by rewrite arr_set_ok, Nat2Z.id by lia.
Qed.

(** The sizes of the arrays. *)
Record ts_shape (t : thread_stat) : Prop := TsShape {
  sh_clat : length (clat_stat t) = 3%nat; sh_slat : length (slat_stat t) = 3%nat;
  sh_lat : length (lat_stat t) = 3%nat; sh_bw : length (bw_stat t) = 3%nat;
  sh_iops : length (iops_stat t) = 3%nat;
  sh_map : length (io_u_map t) = 7%nat; sh_submit : length (io_u_submit t) = 7%nat;
  sh_complete : length (io_u_complete t) = 7%nat; sh_lat_u : length (io_u_lat_u t) = 10%nat;
  sh_lat_m : length (io_u_lat_m t) = 12%nat; sh_plat : length (io_u_plat t) = 3%nat;
  sh_rows : Forall (λ row, length row = 1216%nat) (io_u_plat t);
  sh_total : length (total_io_u t) = 3%nat; sh_short : length (short_io_u t) = 3%nat;
  sh_bytes : length (io_bytes t) = 3%nat; sh_run : length (runtime t) = 3%nat
}.

(** ** Marks *)

(** The first latency of every class, in microseconds. *)
Definition usec_from : list Z := [0; 2; 4; 10; 20; 50; 100; 250; 500; 750; 1000].
Definition msec_from : list Z :=
  [1000; 2000; 4000; 10000; 20000; 50000; 100000; 250000; 500000; 750000; 1000000; 2000000].

Lemma within_spec a b x : reflect (a ≤ x ≤ b) (within a b x).
Proof. apply iff_reflect. unfold within. rewrite andb_true_iff, !Z.leb_le. lia. Qed.
(** Go through the cases of a switch, [tac] proving each. *)
Ltac switch tac :=
  repeat lazymatch goal with
  | |- ∃ _, (0 ≤ (if within ?a ?b ?x then _ else _) < _) ∧ _ => destruct (within_spec a b x); [tac|]
  | |- ∃ _ _, (0 ≤ (if within ?a ?b ?x then _ else _) < _) ∧ _ => destruct (within_spec a b x); [tac|]
  end; tac.

Lemma usec_class_spec x :
  0 ≤ x < 1000 → ∃ lo hi, 0 ≤ usec_class x < 10 ∧ usec_from !! Z.to_nat (usec_class x) = Some lo ∧
    usec_from !! S (Z.to_nat (usec_class x)) = Some hi ∧ lo ≤ x < hi.
Proof.
  intros Hx. unfold usec_class. switch ltac:(eexists _, _; (split; [lia|]); (split; [reflexivity|]);
    (split; [reflexivity|]); lia).
Qed.
Lemma msec_class_spec x :
  1000 ≤ x → ∃ lo, 0 ≤ msec_class (x / 1000) < 12 ∧
    msec_from !! Z.to_nat (msec_class (x / 1000)) = Some lo ∧ lo ≤ x ∧
    ∀ hi, msec_from !! S (Z.to_nat (msec_class (x / 1000))) = Some hi → x < hi.
Proof.
  intros Hx. pose proof (Z.div_mod x 1000 ltac:(lia)). pose proof (Z.mod_pos_bound x 1000 ltac:(lia)).
  set (y := x / 1000) in *. unfold msec_class. switch ltac:(eexists; (split; [lia|]); (split; [reflexivity|]); (split; [lia|]);
    intros hi Hhi; try discriminate Hhi; injection Hhi as <-; lia).
Qed.

(** A latency is counted once, in the class it belongs to. *)
Theorem latency_counted_once t x :
  ts_shape t → 0 ≤ x →
  ∃ t', io_u_mark_latency x t = (Done tt, t') ∧
    if x <? 1000 then
      io_u_lat_m t' = io_u_lat_m t ∧ ∃ i n lo hi, io_u_lat_u t !! i = Some n ∧
        io_u_lat_u t' = <[i := u32 (n + 1)]> (io_u_lat_u t) ∧
        usec_from !! i = Some lo ∧ usec_from !! S i = Some hi ∧ lo ≤ x < hi
    else
      io_u_lat_u t' = io_u_lat_u t ∧ ∃ i n lo, io_u_lat_m t !! i = Some n ∧
        io_u_lat_m t' = <[i := u32 (n + 1)]> (io_u_lat_m t) ∧
        msec_from !! i = Some lo ∧ lo ≤ x ∧ ∀ hi, msec_from !! S i = Some hi → x < hi.
Proof.
  intros Hs Hx. unfold io_u_mark_latency. destruct (Z.ltb_spec x 1000) as [Hlt|Hge].
  - destruct (usec_class_spec x) as (lo & hi & Hr & Hlo & Hhi & Hb); [lia|]. set (c := usec_class x) in *.
    destruct (lookup_lt_is_Some_2 (io_u_lat_u t) (Z.to_nat c)) as [n Hn]; [rewrite (sh_lat_u _ Hs); lia|].
    unfold io_u_mark_lat_usec. fold c. unfold assert. rewrite (proj2 (Z.ltb_lt x 1000)) by lia.
    rewrite (proj2 (Z.ltb_lt c FIO_IO_U_LAT_U_NR)) by (unfold FIO_IO_U_LAT_U_NR; lia).
    rewrite (bind_done (mret tt) _ t t tt eq_refl), (bind_done (mret tt) _ t t tt eq_refl).
    rewrite (bind_done (readS (λ t, t)) _ t t t eq_refl).
    rewrite (bind_done _ _ _ _ _ (arr_get_run _ _ _ t (proj1 Hr) Hn)).
    rewrite (bind_done _ _ _ _ _ (arr_set_run _ _ _ _ t (proj1 Hr) Hn)).
    eexists. split; [done|]. split; [done|]. by exists (Z.to_nat c), n, lo, hi.
  - destruct (msec_class_spec x Hge) as (lo & Hr & Hlo & Hb & Hhi). set (c := msec_class (x / 1000)) in *.
    destruct (lookup_lt_is_Some_2 (io_u_lat_m t) (Z.to_nat c)) as [n Hn]; [rewrite (sh_lat_m _ Hs); lia|].
    unfold io_u_mark_lat_msec. fold c. unfold assert.
    rewrite (proj2 (Z.ltb_lt c FIO_IO_U_LAT_M_NR)) by (unfold FIO_IO_U_LAT_M_NR; lia).
    rewrite (bind_done (mret tt) _ t t tt eq_refl), (bind_done (readS (λ t, t)) _ t t t eq_refl).
    rewrite (bind_done _ _ _ _ _ (arr_get_run _ _ _ t (proj1 Hr) Hn)).
    rewrite (bind_done _ _ _ _ _ (arr_set_run _ _ _ _ t (proj1 Hr) Hn)).
    eexists. split; [done|]. split; [done|]. by exists (Z.to_nat c), n, lo.
Qed.

(** ** Reset *)

Lemma clear_all {St A} (n : nat) (v : A) (l : list A) (s : St) :
  length l = n → clear (Z.of_nat n) v l s = (Done (replicate n v), s).
Proof. intros Hl. rewrite clear_part_run by lia. by rewrite drop_ge, app_nil_r by lia. Qed.

Lemma clear_rows {St} (p : list (list Z)) (s : St) :
  length p = 3%nat → Forall (λ row, length row = 1216%nat) p →
  for_lt 0 DDIR_RWDIR_CNT (λ i p, row ← arr_get p i; row ← clear FIO_IO_U_PLAT_NR 0 row; arr_set p i row) p s =
  (Done (replicate 3 (replicate 1216 0)), s).
Proof.
  intros Hl Hr. unfold for_lt. change (Z.to_nat (DDIR_RWDIR_CNT - 0)) with 3%nat.
  pose proof (each_run (replicate 3 (replicate 1216 0)) p
    (λ i p, row ← arr_get p i; row ← clear FIO_IO_U_PLAT_NR 0 row; arr_set p i row) s) as H.
  rewrite length_replicate, drop_ge, app_nil_r in H by lia. apply H; [lia|]. clear H.
  intros i k x [-> Hi]%lookup_replicate Hlk Hk. destruct (lookup_lt_is_Some_2 p i ltac:(lia)) as [row Hrow]. rewrite Hrow in Hk.
  rewrite (bind_done _ _ _ _ _ (arr_get_run k (Z.of_nat i) row s ltac:(lia) ltac:(by rewrite Nat2Z.id))).
  change FIO_IO_U_PLAT_NR with (Z.of_nat 1216).
  rewrite (bind_done _ _ _ _ _ (clear_all 1216 0 row s ltac:(rewrite Forall_lookup in Hr; by eapply Hr))).
  by rewrite arr_set_ok, Nat2Z.id by lia.
Qed.

Ltac step_clear n :=
  lazymatch goal with
  | |- context [(clear ?k ?v ?l ≫= _) ?t] =>
      rewrite (bind_done (clear k v l) _ t t (replicate n v) (clear_all n v l t ltac:(eassumption)))
  end.
Ltac step_clear_part n :=
  lazymatch goal with
  | |- context [(clear ?k ?v ?l ≫= _) ?t] =>
      rewrite (bind_done (clear k v l) _ t t (replicate n v ++ drop n l) (clear_part_run n v l t ltac:(lia)))
  end.

(** A reset, as before the final run at the depth that meets a latency target, clears everything but the counts of
    latencies from 250 microseconds to a millisecond and from 250 milliseconds on:
    the loop has the bound of the depth map.  The minimum it sets, 0, then stays
    whatever is measured. *)
Theorem reset_keeps_slow_latencies t xs :
  ts_shape t → Forall (λ x, 0 ≤ x) xs →
  ∃ t', reset_io_stats t = (Done tt, t') ∧
    (clat_stat t' = replicate 3 reset_io_stat ∧ slat_stat t' = replicate 3 reset_io_stat ∧
     lat_stat t' = replicate 3 reset_io_stat ∧ bw_stat t' = replicate 3 reset_io_stat ∧
     iops_stat t' = replicate 3 reset_io_stat ∧ io_u_plat t' = replicate 3 (replicate 1216 0) ∧
     io_u_map t' = replicate 7 0 ∧ io_u_submit t' = replicate 7 0 ∧ io_u_complete t' = replicate 7 0 ∧
     total_io_u t' = replicate 3 0 ∧ short_io_u t' = replicate 3 0 ∧ io_bytes t' = replicate 3 0 ∧
     runtime t' = replicate 3 0 ∧ total_submit t' = 0 ∧ total_complete t' = 0) ∧
    io_u_lat_u t' = replicate 7 0 ++ drop 7 (io_u_lat_u t) ∧
    io_u_lat_m t' = replicate 7 0 ++ drop 7 (io_u_lat_m t) ∧
    min_val (foldl (λ st x, add_stat_sample x st) reset_io_stat xs) = 0.
Proof.
  intros [] Hxs. unfold reset_io_stats. rewrite (bind_done (readS (λ t, t)) _ t t t eq_refl).
  do 7 step_clear 3%nat.
  rewrite (bind_done _ _ _ _ _ (clear_rows _ t ltac:(eassumption) ltac:(eassumption))).
  do 3 step_clear 7%nat. do 2 step_clear_part 7%nat. do 2 step_clear 3%nat.
  eexists. split; [done|]. split; [done|]. split; [done|]. split; [done|].
  assert (∀ st, min_val st = 0 → min_val (foldl (λ st x, add_stat_sample x st) st xs) = 0) as H; [|by apply H].
  induction Hxs as [|x xs Hx _ IH]; intros st Hst; [done|]. simpl. apply IH. simpl.
  rewrite Hst. destruct (Z.ltb_spec x 0); lia.
Qed.

(** ** Merging *)

Lemma merge_run {St A} (n : nat) (f : A → A → A) (dst src : list A) (s : St) :
  length dst = n → length src = n → merge_arr false (Z.of_nat n) f dst src s = (Done (zip_with f dst src), s).
Proof.
  intros Hd Hs. unfold merge_arr, for_lt. rewrite Z.sub_0_r, Nat2Z.id. cbn [into].
  pose proof (each_run (zip_with f dst src) dst
    (λ l d, a ← arr_get d l; b ← arr_get src l; arr_set d l (f a b)) s) as H.
  rewrite length_zip_with_l_eq, drop_ge, app_nil_r, Hd in H by lia. apply H; [lia|]. clear H.
  intros i k x (a & b & -> & Ha & Hb)%lookup_zip_with_Some Hl Hk. rewrite Ha in Hk.
  pose proof (lookup_lt_Some _ _ _ Ha).
  rewrite (bind_done _ _ _ _ _ (arr_get_run k (Z.of_nat i) a s ltac:(lia) ltac:(by rewrite Nat2Z.id))).
  rewrite (bind_done _ _ _ _ _ (arr_get_run src (Z.of_nat i) b s ltac:(lia) ltac:(by rewrite Nat2Z.id))).
  by rewrite arr_set_ok, Nat2Z.id by lia.
Qed.

(** What a running statistic says of the values it was given. *)
Definition summarises (st : io_stat) (xs : list Z) : Prop :=
  samples st = Z.of_nat (length xs) ∧ max_val st = foldr Z.max 0 xs ∧
  min_val st = foldr Z.min (2 ^ 64 - 1) xs.

Lemma foldr_max_snoc xs x : 0 ≤ x → foldr Z.max 0 (xs ++ [x]) = Z.max (foldr Z.max 0 xs) x.
Proof. intros Hx. induction xs as [|y xs IH]; simpl; lia. Qed.
Lemma foldr_min_snoc xs x : x < 2 ^ 64 → foldr Z.min (2 ^ 64 - 1) (xs ++ [x]) = Z.min (foldr Z.min (2 ^ 64 - 1) xs) x.
Proof. intros Hx. induction xs as [|y xs IH]; simpl; lia. Qed.
Lemma foldr_max_app xs ys : foldr Z.max 0 (xs ++ ys) = Z.max (foldr Z.max 0 xs) (foldr Z.max 0 ys).
Proof. induction xs as [|y xs IH]; simpl; [|lia]. induction ys; simpl; lia. Qed.
Lemma foldr_min_app xs ys :
  foldr Z.min (2 ^ 64 - 1) (xs ++ ys) = Z.min (foldr Z.min (2 ^ 64 - 1) xs) (foldr Z.min (2 ^ 64 - 1) ys).
Proof. induction xs as [|y xs IH]; simpl; [|lia]. induction ys; simpl; lia. Qed.

Lemma add_stat_summary st xs x :
  summarises st xs → 0 ≤ x < 2 ^ 64 → Z.of_nat (length xs) + 1 < 2 ^ 64 →
  summarises (add_stat_sample x st) (xs ++ [x]).
Proof.
  intros (Hs & Hm & Hn) Hx Hl. unfold summarises. cbn [samples max_val min_val add_stat_sample].
  rewrite foldr_max_snoc, foldr_min_snoc, length_app, Hs, Hm, Hn by lia. simpl.
  unfold u64. rewrite Z.mod_small by lia. split_and!; [lia|..]; case_match; lia.
Qed.

Section merging.
Context {Po : Pow}.

Lemma sum_stat_summary d s xs ys nr :
  summarises d xs → summarises s ys → Z.of_nat (length (xs ++ ys)) < 2 ^ 64 →
  summarises (sum_stat d s nr) (xs ++ ys).
Proof.
  intros (Hd & Hdm & Hdn) (Hs & Hsm & Hsn) Hl. unfold sum_stat. rewrite length_app in Hl.
  destruct (Z.eqb_spec (samples s) 0) as [H0|H0].
  - destruct ys; [|rewrite Hs in H0; simpl in H0; lia]. by rewrite app_nil_r.
  - unfold summarises. cbn [samples max_val min_val].
    rewrite foldr_max_app, foldr_min_app, length_app, Hd, Hs, Hdm, Hsm, Hdn, Hsn.
    unfold u64. rewrite Z.mod_small by lia. split_and!; lia.
Qed.

Lemma counted_merge xs ys r1 r2 :
  counted xs r1 → counted ys r2 → Z.of_nat (length (xs ++ ys)) < 2 ^ 32 →
  counted (xs ++ ys) (zip_with add32 r1 r2).
Proof.
  unfold counted. intros -> -> Hl. rewrite zip_with_fmap_l, zip_with_fmap_r, zip_with_diag.
  apply list_fmap_ext. intros i k _. unfold add32, u32.
  pose proof (in_bucket_le xs k). pose proof (in_bucket_le ys k). rewrite length_app in Hl.
  rewrite Z.mod_small by lia. unfold in_bucket. rewrite filter_app, length_app. lia.
Qed.

(** The latencies and rates that were measured in the three directions. *)
Record measured := Measured { m_clat : list (list Z); m_slat : list (list Z); m_lat : list (list Z); m_bw : list (list Z) }.
Definition m_none : measured := let e := replicate 3 [] in Measured e e e e.
Definition m_app (a b : measured) : measured :=
  Measured (zip_with app (m_clat a) (m_clat b)) (zip_with app (m_slat a) (m_slat b))
    (zip_with app (m_lat a) (m_lat b)) (zip_with app (m_bw a) (m_bw b)).
Record reports (m : measured) (t : thread_stat) : Prop := Reports {
  rp_shape : ts_shape t;
  rp_clat : Forall2 summarises (clat_stat t) (m_clat m);
  rp_slat : Forall2 summarises (slat_stat t) (m_slat m);
  rp_lat : Forall2 summarises (lat_stat t) (m_lat m);
  rp_bw : Forall2 summarises (bw_stat t) (m_bw m);
  rp_plat : Forall2 (λ row xs, counted xs row) (io_u_plat t) (m_clat m)
}.
(** The numbers of values fit. *)
Definition few (m : measured) : Prop :=
  Forall (λ xs, Z.of_nat (length xs) < 2 ^ 32) (m_clat m ++ m_slat m ++ m_lat m ++ m_bw m).

Lemma Forall2_merge {A} (P : A → list Z → Prop) f dst src xss yss :
  (∀ a b xs ys, P a xs → P b ys → Z.of_nat (length (xs ++ ys)) < 2 ^ 32 → P (f a b) (xs ++ ys)) →
  Forall2 P dst xss → Forall2 P src yss → Forall (λ xs, Z.of_nat (length xs) < 2 ^ 32) (zip_with app xss yss) →
  Forall2 P (zip_with f dst src) (zip_with app xss yss).
Proof.
  intros Hf Hd. revert src yss. induction Hd as [|a xs dst xss Ha _ IH]; intros src yss Hs Hl; [constructor|].
  destruct Hs as [|b ys src yss Hb Hs]; [constructor|]. simpl in *. apply Forall_cons in Hl as [Hl1 Hl2].
  constructor; [by apply Hf|by apply IH].
Qed.

Lemma merge_rows {St} (p q : list (list Z)) (s : St) :
  length p = 3%nat → length q = 3%nat → Forall (λ row, length row = 1216%nat) p →
  Forall (λ row, length row = 1216%nat) q →
  for_lt 0 DDIR_RWDIR_CNT (λ k p, d ← arr_get p (into false k); s ← arr_get q k;
    d ← merge_arr false FIO_IO_U_PLAT_NR add32 d s; arr_set p (into false k) d) p s =
  (Done (zip_with (zip_with add32) p q), s).
Proof.
  intros Hp Hq Fp Fq. unfold for_lt. change (Z.to_nat (DDIR_RWDIR_CNT - 0)) with 3%nat. cbn [into].
  pose proof (each_run (zip_with (zip_with add32) p q) p (λ k p, d ← arr_get p k; s ← arr_get q k;
    d ← merge_arr false FIO_IO_U_PLAT_NR add32 d s; arr_set p k d) s) as H.
  rewrite length_zip_with_l_eq, drop_ge, app_nil_r, Hp in H by lia. apply H; [lia|]. clear H.
  intros i k x (a & b & -> & Ha & Hb)%lookup_zip_with_Some Hl Hk. rewrite Ha in Hk.
  pose proof (lookup_lt_Some _ _ _ Ha). rewrite Forall_lookup in Fp, Fq.
  rewrite (bind_done _ _ _ _ _ (arr_get_run k (Z.of_nat i) a s ltac:(lia) ltac:(by rewrite Nat2Z.id))).
  rewrite (bind_done _ _ _ _ _ (arr_get_run q (Z.of_nat i) b s ltac:(lia) ltac:(by rewrite Nat2Z.id))).
  change FIO_IO_U_PLAT_NR with (Z.of_nat 1216).
  rewrite (bind_done _ _ _ _ _ (merge_run 1216 add32 a b s (Fp _ _ Ha) (Fq _ _ Hb))).
  by rewrite arr_set_ok, Nat2Z.id by lia.
Qed.
Ltac step_merge n :=
  lazymatch goal with
  | |- context [(merge_arr false ?k ?f ?d ?l ≫= _) ?t] =>
      rewrite (bind_done (merge_arr false k f d l) _ t t (zip_with f d l)
        (merge_run n f d l t ltac:(eassumption) ltac:(eassumption)))
  end.

Lemma length_merge {A} (n : nat) (f : A → A → A) (d l : list A) :
  length d = n → length l = n → length (zip_with f d l) = n.
Proof. intros. rewrite length_zip_with_l_eq; lia. Qed.
Lemma rows_merge (p q : list (list Z)) :
  Forall (λ row, length row = 1216%nat) p → Forall (λ row, length row = 1216%nat) q →
  Forall (λ row, length row = 1216%nat) (zip_with (zip_with add32) p q).
Proof.
  intros Hp. revert q. induction Hp as [|a p Ha _ IH]; intros q Hq; [constructor|].
  destruct Hq as [|b q Hb Hq]; [constructor|]. constructor; [by apply length_merge|by apply IH].
Qed.

Lemma sum_thread_run m m' dst src nr :
  reports m dst → reports m' src → unified_rw_rep dst = false → few (m_app m m') →
  ∃ t, sum_thread_stats src nr dst = (Done tt, t) ∧ reports (m_app m m') t ∧ unified_rw_rep t = false.
Proof.
  intros [Hsd D1 D2 D3 D4 D5] [Hss S1 S2 S3 S4 S5] Hu Hf.
  unfold few in Hf. rewrite !Forall_app in Hf. destruct Hf as (F1 & F2 & F3 & F4).
  destruct Hsd, Hss. unfold sum_thread_stats. rewrite (bind_done (readS (λ t, t)) _ dst dst dst eq_refl), Hu.
  do 6 step_merge 3%nat. do 3 step_merge 7%nat. step_merge 10%nat. step_merge 12%nat. do 2 step_merge 3%nat.
  rewrite (bind_done _ _ _ _ _ (merge_rows (io_u_plat dst) (io_u_plat src) dst ltac:(eassumption)
    ltac:(eassumption) ltac:(eassumption) ltac:(eassumption))).
  eexists. split; [done|]. split; [|done]. constructor; simpl.
  - constructor; simpl; try (by apply length_merge); [done|by apply rows_merge].
  - eapply Forall2_merge; [|exact D1|exact S1|exact F1]. intros. apply sum_stat_summary; [done|done|lia].
  - eapply Forall2_merge; [|exact D2|exact S2|exact F2]. intros. apply sum_stat_summary; [done|done|lia].
  - eapply Forall2_merge; [|exact D3|exact S3|exact F3]. intros. apply sum_stat_summary; [done|done|lia].
  - eapply Forall2_merge; [|exact D4|exact S4|exact F4]. intros. apply sum_stat_summary; [done|done|lia].
  - eapply (Forall2_merge (λ row xs, counted xs row)); [|exact D5|exact S5|exact F1]. intros. by apply counted_merge.
Qed.

Fixpoint sum_all (srcs : list thread_stat) (nr : Z) : tsprog unit :=
  match srcs with
  | [] => mret tt
  | src :: srcs => sum_thread_stats src nr;; sum_all srcs (nr + 1)
  end.

(** The counts of a report grow with every thread. *)
Lemma few_app_l a b : few (m_app a b) → length (m_clat a) = length (m_clat b) →
  length (m_slat a) = length (m_slat b) → length (m_lat a) = length (m_lat b) →
  length (m_bw a) = length (m_bw b) → few a.
Proof.
  unfold few. rewrite !Forall_app. intros (F1 & F2 & F3 & F4) L1 L2 L3 L4.
  assert (∀ xs ys : list (list Z), length xs = length ys →
    Forall (λ l, Z.of_nat (length l) < 2 ^ 32) (zip_with app xs ys) → Forall (λ l, Z.of_nat (length l) < 2 ^ 32) xs) as H.
  { induction xs as [|x xs IH]; intros [|y ys] Hl Hf; [done..|]. simpl in *.
    apply Forall_cons in Hf as [Hf1 Hf2]. rewrite length_app in Hf1. constructor; [lia|]. apply (IH ys); [lia|done]. }
  split_and!; eapply H; eassumption.
Qed.
Definition sized (m : measured) : Prop :=
  length (m_clat m) = 3%nat ∧ length (m_slat m) = 3%nat ∧ length (m_lat m) = 3%nat ∧ length (m_bw m) = 3%nat.
Lemma reports_sized m t : reports m t → sized m.
Proof.
  intros [[] D1 D2 D3 D4 _]. split_and!; etrans; [symmetry; by eapply Forall2_length|done
    |symmetry; by eapply Forall2_length|done|symmetry; by eapply Forall2_length|done|symmetry; by eapply Forall2_length|done].
Qed.
Lemma sized_app a b : sized a → sized b → sized (m_app a b).
Proof. intros (?&?&?&?) (?&?&?&?). split_and!; simpl; rewrite length_zip_with_l_eq; lia. Qed.
Lemma few_prefix a b : sized a → sized b → few (m_app a b) → few a.
Proof. intros (?&?&?&?) (?&?&?&?) Hf. eapply few_app_l; [exact Hf|..]; congruence. Qed.
Lemma sized_foldl ms a : sized a → Forall sized ms → sized (foldl m_app a ms).
Proof. intros Ha Hms. revert a Ha. induction Hms; intros a Ha; simpl; [done|]. apply IHHms. by apply sized_app. Qed.
Lemma few_foldl ms a : sized a → Forall sized ms → few (foldl m_app a ms) → few a.
Proof.
  intros Ha Hms. revert a Ha. induction Hms as [|m ms Hm Hms IH]; intros a Ha Hf; simpl in *; [done|].
  apply (few_prefix a m Ha Hm). apply IH; [by apply sized_app|done].
Qed.

Lemma sum_all_run ms srcs a dst nr :
  reports a dst → unified_rw_rep dst = false → Forall2 reports ms srcs → few (foldl m_app a ms) →
  ∃ t, sum_all srcs nr dst = (Done tt, t) ∧ reports (foldl m_app a ms) t.
Proof.
  intros Ha Hu Hs. revert a dst nr Ha Hu. induction Hs as [|m src ms srcs Hm Hs IH]; intros a dst nr Ha Hu Hf; simpl in *; [eauto|].
  assert (Forall sized ms) as Hms.
  { clear -Hs. induction Hs; constructor; [by eapply reports_sized|done]. }
  destruct (sum_thread_run a m dst src nr Ha Hm Hu) as (t & E & Ht & Hut).
  { eapply few_foldl; [|exact Hms|done]. apply sized_app; by eapply reports_sized. }
  rewrite (bind_done _ _ _ _ _ E). by apply IH.
Qed.

Lemma init_reports : reports m_none init_thread_stat.
Proof.
  constructor; try (by repeat constructor).
Qed.

(** C26: The report of a group: merging the statistics of its threads gives, in every
    direction, the number, the least and the greatest of all latencies and rates
    measured by all of them, and buckets that count the completion latencies of
    all, from which the percentiles of the group are found. *)
Theorem report_covers_threads ms srcs :
  Forall2 reports ms srcs → few (foldl m_app m_none ms) →
  ∃ t, sum_all srcs 1 init_thread_stat = (Done tt, t) ∧ reports (foldl m_app m_none ms) t.
Proof. intros Hs Hf. by apply sum_all_run; [apply init_reports| | |]. Qed.

(** A unified report adds all directions to the first entry. *)
Lemma merge_unified {St A} (f : A → A → A) (dst src : list A) (s : St) :
  length dst = 3%nat → length src = 3%nat →
  ∃ d l, dst = d :: l ∧
    merge_arr true DDIR_RWDIR_CNT f dst src s = (Done (foldl f d src :: l), s).
Proof.
  intros Hd Hs. destruct dst as [|d0 [|d1 [|d2 [|]]]]; try done. destruct src as [|s0 [|s1 [|s2 [|]]]]; try done.
  by exists d0, [d1; d2].
Qed.
Lemma merge_rows_unified {St} (p q : list (list Z)) (s : St) :
  length p = 3%nat → length q = 3%nat → Forall (λ row, length row = 1216%nat) p →
  Forall (λ row, length row = 1216%nat) q →
  ∃ r, for_lt 0 DDIR_RWDIR_CNT (λ k p, d ← arr_get p (into true k); s ← arr_get q k;
    d ← merge_arr false FIO_IO_U_PLAT_NR add32 d s; arr_set p (into true k) d) p s = (Done r, s).
Proof.
  intros Hp Hq Fp Fq.
  destruct (for_n_run (λ i k t, t = s ∧ length k = 3%nat ∧ Forall (λ row, length row = 1216%nat) k)
    (λ k p, d ← arr_get p (into true k); s ← arr_get q k; d ← merge_arr false FIO_IO_U_PLAT_NR add32 d s;
     arr_set p (into true k) d) 3 0 p s) as (r & t & E & -> & _); [done| |by exists r].
  intros i k t Hi (-> & Hl & Hk). cbn [into]. destruct k as [|d k]; [done|].
  apply Forall_cons in Hk as [Hd Hk]. destruct (lookup_lt_is_Some_2 q (Z.to_nat i) ltac:(lia)) as [b Hb].
  rewrite (bind_done _ _ _ _ _ (arr_get_run (d :: k) 0 d s ltac:(lia) eq_refl)).
  rewrite (bind_done _ _ _ _ _ (arr_get_run q i b s ltac:(lia) Hb)).
  assert (length b = 1216%nat) as Hlb by (rewrite Forall_lookup in Fq; by eapply Fq).
  change FIO_IO_U_PLAT_NR with (Z.of_nat 1216).
  rewrite (bind_done _ _ _ _ _ (merge_run 1216 add32 d b s Hd Hlb)). rewrite arr_set_ok by (simpl; lia).
  eexists _, s. split; [done|]. split_and!; [done|done|]. constructor; [|done]. by apply length_merge.
Qed.

Ltac step_unified :=
  lazymatch goal with
  | |- context [(merge_arr true DDIR_RWDIR_CNT ?f ?d ?l ≫= _) ?t] =>
      let E := fresh "E" in
      destruct (merge_unified f d l t ltac:(eassumption) ltac:(eassumption)) as (? & ? & ? & E);
      rewrite (bind_done _ _ _ _ _ E); clear E
  end.

Lemma fold_sum_stat st r w tr :
  samples r ≠ 0 → samples w ≠ 0 → samples tr = 0 →
  let st' := foldl (λ a b, sum_stat a b 1) st [r; w; tr] in
  samples st' = u64 (u64 (samples st + samples r) + samples w) ∧ mean st' = mean w ∧ var_S st' = var_S w.
Proof.
  intros Hr Hw Ht. cbn [foldl].
  assert (∀ d, sum_stat d tr 1 = d) as -> by (intros d; unfold sum_stat; by rewrite Ht).
  assert (∀ d s, samples s ≠ 0 → samples (sum_stat d s 1) = u64 (samples d + samples s) ∧
    mean (sum_stat d s 1) = mean s ∧ var_S (sum_stat d s 1) = var_S s) as H.
  { intros d s Hs. unfold sum_stat. by rewrite (proj2 (Z.eqb_neq _ _) Hs). }
  destruct (H (sum_stat st r 1) w Hw) as (-> & -> & ->). by destruct (H st r Hr) as (-> & _).
Qed.

(** With a unified report of reads and writes the mean and the variance of the
    first thread of a group are those of its writes alone, although the numbers of
    both are added: every direction is merged as if it were the first. *)
Theorem unified_mean_of_writes dst src r w tr :
  ts_shape dst → ts_shape src → unified_rw_rep dst = true → clat_stat src = [r; w; tr] →
  samples r ≠ 0 → samples w ≠ 0 → samples tr = 0 →
  ∃ t st st' l, sum_thread_stats src 1 dst = (Done tt, t) ∧ clat_stat dst = st :: l ∧
    clat_stat t = st' :: l ∧ samples st' = u64 (u64 (samples st + samples r) + samples w) ∧
    mean st' = mean w ∧ var_S st' = var_S w.
Proof.
  intros Hsd Hss Hu Es Hr Hw Ht. destruct Hsd, Hss. unfold sum_thread_stats.
  rewrite (bind_done (readS (λ t, t)) _ dst dst dst eq_refl), Hu.
  destruct (merge_unified (λ a b, sum_stat a b 1) (clat_stat dst) (clat_stat src) dst ltac:(done) ltac:(done))
    as (st & l & Ed & E). rewrite (bind_done _ _ _ _ _ E). clear E. do 5 step_unified.
  do 3 step_merge 7%nat. step_merge 10%nat. step_merge 12%nat. do 2 step_unified.
  destruct (merge_rows_unified (io_u_plat dst) (io_u_plat src) dst ltac:(done) ltac:(done) ltac:(done) ltac:(done))
    as (p & E). rewrite (bind_done _ _ _ _ _ E).
  eexists _, st, _, l. split; [done|]. split; [done|]. split; [reflexivity|]. rewrite Es. by apply fold_sum_stat.
Qed.
End merging.

(** ** Two threads *)

(** [pow] for an exponent of 2. *)
#[local] Instance square : Pow := λ x _, f64_mul x x.

Definition reader : thread_stat := (add_clat_samples DDIR_READ [100; 300] with_percentiles).2.
Definition mixed : thread_stat :=
  (add_clat_samples DDIR_WRITE [50] (add_clat_samples DDIR_READ [70] with_percentiles).2).2.
Definition slow : thread_stat := (io_u_mark_latency 300 with_percentiles).2.
Definition unified : thread_stat :=
  let t := init_thread_stat in
  ThreadStat (clat_stat t) (slat_stat t) (lat_stat t) (bw_stat t) (iops_stat t) (usage t) true true
    (io_u_map t) (io_u_submit t) (io_u_complete t) (io_u_lat_u t) (io_u_lat_m t) (io_u_plat t)
    (total_io_u t) (short_io_u t) 0 0 (io_bytes t) (runtime t) 0.

Ltac shape_tac := constructor; vm_compute; [reflexivity..|repeat constructor|reflexivity|reflexivity|reflexivity|reflexivity].
Lemma slow_shape : ts_shape slow.
Proof. shape_tac. Qed.
Lemma mixed_shape : ts_shape mixed.
Proof. shape_tac. Qed.
Lemma reader_shape : ts_shape reader.
Proof. shape_tac. Qed.
Lemma unified_shape : ts_shape unified.
Proof. shape_tac. Qed.

Lemma reset_keeps_slow_latencies_witness :
  ∃ t', reset_io_stats slow = (Done tt, t') ∧
    io_u_lat_u t' = replicate 7 0 ++ drop 7 (io_u_lat_u slow) ∧
    min_val (foldl (λ st x, add_stat_sample x st) reset_io_stat [500]) = 0.
Proof.
  destruct (reset_keeps_slow_latencies slow [500] slow_shape) as (t' & E & _ & Hu & _ & Hm);
    [repeat constructor; lia|]. exists t'. exact (conj E (conj Hu Hm)).
Defined.
Example slow_latency_left : drop 7 (io_u_lat_u slow) = [1; 0; 0].
Proof. vm_compute. reflexivity. Qed.

Definition only_clat (l : list (list Z)) : measured := let e := replicate 3 [] in Measured l e e e.
(** A thread of which all statistics are known. *)
Definition stat_of (xs : list Z) : io_stat := foldl (λ st x, add_stat_sample x st) (init_io_stat true) xs.
Lemma stat_of_summary xs :
  Forall (λ x, 0 ≤ x < 2 ^ 64) xs → Z.of_nat (length xs) < 2 ^ 64 → summarises (stat_of xs) xs.
Proof.
  induction xs as [|x xs IH] using rev_ind; intros Hx Hl; [done|].
  apply Forall_app in Hx as [Hx Hy]. apply Forall_cons in Hy as [Hy _]. rewrite length_app in Hl. simpl in Hl.
  unfold stat_of. rewrite foldl_app. apply add_stat_summary; [apply IH; [done|lia]|done|lia].
Qed.
Lemma only_clat_reports t a b c :
  ts_shape t → Forall (Forall (λ x, 0 ≤ x < 2 ^ 64)) [a; b; c] → few (only_clat [a; b; c]) →
  clat_stat t = stat_of <$> [a; b; c] → slat_stat t = replicate 3 (init_io_stat true) →
  lat_stat t = replicate 3 (init_io_stat true) → bw_stat t = replicate 3 (init_io_stat true) →
  io_u_plat t = (λ xs, in_bucket xs <$> seqZ 0 FIO_IO_U_PLAT_NR) <$> [a; b; c] →
  reports (only_clat [a; b; c]) t.
Proof.
  intros Hs Hx Hf E1 E2 E3 E4 E5. unfold few in Hf. simpl in Hf. rewrite !Forall_cons in Hf, Hx.
  assert (summarises (init_io_stat true) []) as H0 by done.
  constructor; [done|rewrite E1|rewrite E2|rewrite E3|rewrite E4|rewrite E5]; [|by repeat constructor..].
  repeat (constructor; [apply stat_of_summary; [tauto|]; lia|]). constructor.
Qed.
Lemma reader_reports : reports (only_clat [[100; 300]; []; []]) reader.
Proof.
  apply only_clat_reports; [exact reader_shape|repeat constructor; lia|repeat constructor; simpl; lia|..];
    vm_compute; reflexivity.
Qed.
Lemma mixed_reports : reports (only_clat [[70]; [50]; []]) mixed.
Proof.
  apply only_clat_reports; [exact mixed_shape|repeat constructor; lia|repeat constructor; simpl; lia|..];
    vm_compute; reflexivity.
Qed.

Lemma report_covers_threads_witness :
  ∃ t, sum_all [reader; mixed] 1 init_thread_stat = (Done tt, t) ∧
    reports (only_clat [[100; 300; 70]; [50]; []]) t.
Proof.
  apply (report_covers_threads [only_clat [[100; 300]; []; []]; only_clat [[70]; [50]; []]]).
  - constructor; [exact reader_reports|]. constructor; [exact mixed_reports|constructor].
  - repeat constructor; simpl; lia.
Defined.

Lemma unified_mean_of_writes_witness :
  ∃ t st st' l, sum_thread_stats mixed 1 unified = (Done tt, t) ∧ clat_stat unified = st :: l ∧
    clat_stat t = st' :: l ∧ samples st' = u64 (u64 (samples st + 1) + 1) ∧
    mean st' = f64_of_Z 50 ∧ var_S st' = f64_of_Z 0.
Proof.
  apply (unified_mean_of_writes unified mixed (add_stat_sample 70 (init_io_stat true))
    (add_stat_sample 50 (init_io_stat true)) (init_io_stat true) unified_shape mixed_shape);
    vm_compute; (reflexivity || discriminate).
Defined.
