(* ===== verification/FioStatTypes.v ===== *)
(** * fio: the statistics stay well formed

    The arrays keep their sizes and the counters their widths in any use of the
    statistics; nothing is accessed outside an array and no assertion fails. *)
From Stdlib Require Import ZArith Lia SpecFloat.
From stdpp Require Import base numbers gmap list sorting.
From S2P Require Import Prelude CFloat.
From S2P Require Import FioStat FioBuckets FioPercentiles FioStatCorrect.

Definition in32 (x : Z) : Prop := 0 ≤ x < 2 ^ 32.
Definition in64 (x : Z) : Prop := 0 ≤ x < 2 ^ 64.
(** An array of [n] entries. *)
Definition cells {A} (n : nat) (P : A → Prop) (l : list A) : Prop := length l = n ∧ Forall P l.

Record stat_typed (st : io_stat) : Prop := StatTyped {
  st_max : in64 (max_val st); st_min : in64 (min_val st); st_samples : in64 (samples st)
}.
Record usage_typed (u : rusage) : Prop := UsageTyped {
  us_usr : in64 (usr_time u); us_sys : in64 (sys_time u); us_ctx : in64 (ctx u);
  us_minf : in64 (minf u); us_majf : in64 (majf u)
}.
Record ts_typed (t : thread_stat) : Prop := TsTyped {
  ty_clat : cells 3 stat_typed (clat_stat t); ty_slat : cells 3 stat_typed (slat_stat t);
  ty_lat : cells 3 stat_typed (lat_stat t); ty_bw : cells 3 stat_typed (bw_stat t);
  ty_iops : cells 3 stat_typed (iops_stat t); ty_usage : usage_typed (usage t);
  ty_map : cells 7 in32 (io_u_map t); ty_submit : cells 7 in32 (io_u_submit t);
  ty_complete : cells 7 in32 (io_u_complete t); ty_lat_u : cells 10 in32 (io_u_lat_u t);
  ty_lat_m : cells 12 in32 (io_u_lat_m t); ty_plat : cells 3 (cells 1216 in32) (io_u_plat t);
  ty_total : cells 3 in64 (total_io_u t); ty_short : cells 3 in64 (short_io_u t);
  ty_nsubmit : in64 (total_submit t); ty_ncomplete : in64 (total_complete t);
  ty_bytes : cells 3 in64 (io_bytes t); ty_run : cells 3 in64 (runtime t);
  ty_time : in64 (total_run_time t)
}.

(** ** Arrays *)

Lemma in32_u32 x : in32 (u32 x).
Proof. unfold in32, u32. apply Z.mod_pos_bound. lia. Qed.
Lemma in64_u64 x : in64 (u64 x).
Proof. unfold in64, u64. apply Z.mod_pos_bound. lia. Qed.

Section arrays.
Context {St A : Type} (n : nat) (P : A → Prop).

Lemma cells_get l i (s : St) :
  cells n P l → 0 ≤ i < Z.of_nat n → ∃ x, arr_get (F := fault) l i s = (Done x, s) ∧ P x.
Proof.
  intros [Hl HP] Hi. destruct (lookup_lt_is_Some_2 l (Z.to_nat i) ltac:(lia)) as [x Hx].
  exists x. split; [apply arr_get_run; [lia|done]|]. rewrite Forall_lookup in HP. by eapply HP.
Qed.
Lemma cells_set l i x (s : St) :
  cells n P l → 0 ≤ i < Z.of_nat n → P x → ∃ k, arr_set (F := fault) l i x s = (Done k, s) ∧ cells n P k.
Proof.
  intros [Hl HP] Hi Hx. exists (<[Z.to_nat i := x]> l). rewrite arr_set_ok by lia. split; [done|].
  split; [by rewrite length_insert|]. by apply Forall_insert.
Qed.
Lemma cells_clear l m v (s : St) :
  cells n P l → (m ≤ n)%nat → P v → ∃ k, clear (Z.of_nat m) v l s = (Done k, s) ∧ cells n P k.
Proof.
  intros [Hl HP] Hm Hv. eexists. split; [apply clear_part_run; lia|]. split.
  - rewrite length_app, length_replicate, length_drop. lia.
  - apply Forall_app. split; [by apply Forall_replicate|by apply Forall_drop].
Qed.
(** A loop in which every turn keeps the array. *)
Lemma cells_loop l (m : nat) (body : Z → list A → prog fault St (list A)) (s : St) :
  cells n P l →
  (∀ i k, 0 ≤ i < Z.of_nat m → cells n P k → ∃ k', body i k s = (Done k', s) ∧ cells n P k') →
  ∃ k, for_lt 0 (Z.of_nat m) body l s = (Done k, s) ∧ cells n P k.
Proof.
  intros Hl Hb.
  destruct (for_lt_run (λ _ k t, t = s ∧ cells n P k) body 0 (Z.of_nat m) l s) as (k & t & E & -> & Hk);
    [lia|done| |by exists k].
  intros i k t Hi [-> Hk]. destruct (Hb i k Hi Hk) as (k' & E & Hk'). by exists k', s.
Qed.
Lemma cells_merge u (f : A → A → A) d l (s : St) :
  cells n P d → cells n P l → (u = true → (0 < n)%nat) → (∀ a b, P a → P b → P (f a b)) →
  ∃ k, merge_arr u (Z.of_nat n) f d l s = (Done k, s) ∧ cells n P k.
Proof.
  intros Hd Hl Hu Hf. apply cells_loop; [done|]. intros i k Hi Hk.
  assert (0 ≤ into u i < Z.of_nat n) as Hin by (destruct u; simpl; [specialize (Hu eq_refl)|]; lia).
  destruct (cells_get k (into u i) s Hk Hin) as (a & Ea & Ha).
  destruct (cells_get l i s Hl Hi) as (b & Eb & Hb).
  rewrite (bind_done _ _ _ _ _ Ea), (bind_done _ _ _ _ _ Eb). apply cells_set; [done|done|by apply Hf].
Qed.
End arrays.

(** ** Samples and merging *)

Lemma add_stat_typed x st : in64 x → stat_typed st → stat_typed (add_stat_sample x st).
Proof.
  intros Hx []. constructor; simpl; [by destruct (_ <? _)|by destruct (_ <? _)|apply in64_u64].
Qed.
Lemma reset_typed : stat_typed reset_io_stat.
Proof. by constructor. Qed.

Section types.
Context {Po : Pow}.

Lemma sum_stat_typed nr d s : stat_typed d → stat_typed s → stat_typed (sum_stat d s nr).
Proof.
  intros Hd Hs. unfold sum_stat. destruct (_ =? 0); [done|]. destruct Hd, Hs.
  unfold in64 in *. constructor; simpl; [unfold in64; lia|unfold in64; lia|apply in64_u64].
Qed.

(** ** Operations *)

Inductive stat_op : Type :=
  | ClatSample (ddir usec : Z) | SlatSample (ddir usec : Z) | LatSample (ddir usec : Z)
  | MarkSubmit (nr : Z) | MarkComplete (nr : Z) | MarkDepth (cur_depth nr : Z) | MarkLatency (usec : Z)
  | ResetStats | SumStats (src : thread_stat) (nr : Z).
Definition stat_do (op : stat_op) : tsprog unit :=
  match op with
  | ClatSample ddir usec => add_clat_sample ddir usec
  | SlatSample ddir usec => add_slat_sample ddir usec
  | LatSample ddir usec => add_lat_sample ddir usec
  | MarkSubmit nr => io_u_mark_submit nr
  | MarkComplete nr => io_u_mark_complete nr
  | MarkDepth cur nr => io_u_mark_depth cur nr
  | MarkLatency usec => io_u_mark_latency usec
  | ResetStats => reset_io_stats
  | SumStats src nr => sum_thread_stats src nr
  end.
(** The types of the arguments. *)
Definition op_typed (op : stat_op) : Prop :=
  match op with
  | ClatSample _ usec | SlatSample _ usec | LatSample _ usec | MarkLatency usec => in64 usec
  | SumStats src _ => ts_typed src
  | _ => True
  end.
Fixpoint stat_run (ops : list stat_op) : tsprog unit :=
  match ops with
  | [] => mret tt
  | op :: ops => stat_do op;; stat_run ops
  end.

Definition keeps_types (p : tsprog unit) : Prop :=
  ∀ t, ts_typed t → ∃ t', p t = (Done tt, t') ∧ ts_typed t'.

Lemma ddir_rw_range d : ddir_rw d = true → 0 ≤ d < Z.of_nat 3.
Proof. unfold ddir_rw, DDIR_READ, DDIR_WRITE, DDIR_TRIM. rewrite !orb_true_iff, !Z.eqb_eq. lia. Qed.

(** Take an array access, the clearing of an array or a merge. *)
Ltac step_with lem :=
  let x := fresh "x" in let E := fresh "E" in let Hx := fresh "Hx" in
  destruct lem as (x & E & Hx); [..|rewrite (bind_done _ _ _ _ _ E); clear E].

Lemma sample_at_typed get set d x :
  (∀ t, ts_typed t → cells 3 stat_typed (get t)) →
  (∀ t l, ts_typed t → cells 3 stat_typed l → ts_typed (set l t)) →
  ddir_rw d = true → in64 x → keeps_types (sample_at get set d x).
Proof.
  intros Hg Hs Hd%ddir_rw_range Hx t Ht. unfold sample_at.
  rewrite (bind_done (readS get) _ t t (get t) eq_refl).
  step_with (cells_get 3 stat_typed (get t) d t (Hg t Ht) Hd).
  step_with (cells_set 3 stat_typed (get t) d _ t (Hg t Ht) Hd (add_stat_typed x _ Hx Hx0)).
  eexists. split; [done|]. by apply Hs.
Qed.

Lemma percentile_sample_typed d x : ddir_rw d = true → keeps_types (add_clat_percentile_sample x d).
Proof.
  intros Hd%ddir_rw_range t Ht. unfold add_clat_percentile_sample.
  pose proof (idx_range (u32 x) (proj1 (in32_u32 x))) as Hi. set (i := plat_val_to_idx (u32 x)) in *.
  unfold assert. rewrite (proj2 (Z.ltb_lt i FIO_IO_U_PLAT_NR)) by apply Hi. rewrite (bind_done (mret tt) _ t t tt eq_refl).
  rewrite (bind_done (readS io_u_plat) _ t t _ eq_refl).
  step_with (cells_get 3 _ (io_u_plat t) d t (ty_plat _ Ht) Hd). rename x0 into row.
  step_with (cells_get 1216 in32 row i t Hx Hi).
  step_with (cells_set 1216 in32 row i (u32 (x0 + 1)) t Hx Hi (in32_u32 _)).
  step_with (cells_set 3 _ (io_u_plat t) d x1 t (ty_plat _ Ht) Hd Hx1).
  eexists. split; [done|]. by destruct Ht.
Qed.
Lemma bind_typed (p q : tsprog unit) : keeps_types p → keeps_types q → keeps_types (p;; q).
Proof.
  intros Hp Hq t Ht. destruct (Hp t Ht) as (t1 & E & Ht1). rewrite (bind_done _ _ _ _ _ E). by apply Hq.
Qed.
Lemma ret_typed : keeps_types (mret tt).
Proof. intros t Ht. by exists t. Qed.

Lemma clat_sample_typed d x : in64 x → keeps_types (add_clat_sample d x).
Proof.
  intros Hx. unfold add_clat_sample. destruct (ddir_rw d) eqn:Hd; simpl; [|apply ret_typed].
  apply bind_typed.
  - apply sample_at_typed; [apply ty_clat|by intros ? ? [] ?|done|done].
  - intros t Ht. rewrite (bind_done (readS clat_percentiles) _ t t _ eq_refl).
    destruct (clat_percentiles t); [by apply percentile_sample_typed|by apply ret_typed].
Qed.
Lemma slat_sample_typed d x : in64 x → keeps_types (add_slat_sample d x).
Proof.
  intros Hx. unfold add_slat_sample. destruct (ddir_rw d) eqn:Hd; simpl; [|apply ret_typed].
  apply sample_at_typed; [apply ty_slat|by intros ? ? [] ?|done|done].
Qed.
Lemma lat_sample_typed d x : in64 x → keeps_types (add_lat_sample d x).
Proof.
  intros Hx. unfold add_lat_sample. destruct (ddir_rw d) eqn:Hd; simpl; [|apply ret_typed].
  apply sample_at_typed; [apply ty_lat|by intros ? ? [] ?|done|done].
Qed.

(** Counting in one of the classes. *)
Lemma count_typed n l c k (t : thread_stat) :
  cells n in32 l → 0 ≤ c < Z.of_nat n →
  ∃ m, (x ← arr_get l c; arr_set (F := fault) l c (u32 (x + k))) t = (Done m, t) ∧ cells n in32 m.
Proof.
  intros Hl Hc. destruct (cells_get n in32 l c t Hl Hc) as (x & E & _). rewrite (bind_done _ _ _ _ _ E).
  apply cells_set; [done|done|apply in32_u32].
Qed.
Lemma map_class_range nr : 0 ≤ map_class nr < Z.of_nat 7.
Proof. unfold map_class. repeat (case_match; [done|]); done. Qed.
Lemma depth_class_range nr : 0 ≤ depth_class nr < Z.of_nat 7.
Proof. unfold depth_class. repeat (case_match; [done|]); done. Qed.

Lemma mark_submit_typed nr : keeps_types (io_u_mark_submit nr).
Proof.
  intros t Ht. unfold io_u_mark_submit. rewrite (bind_done (readS (λ t, t)) _ t t t eq_refl).
  step_with (count_typed 7 _ _ 1 t (ty_submit _ Ht) (map_class_range nr)).
  eexists. split; [done|]. destruct Ht. constructor; simpl; try done. apply in64_u64.
Qed.
Lemma mark_complete_typed nr : keeps_types (io_u_mark_complete nr).
Proof.
  intros t Ht. unfold io_u_mark_complete. rewrite (bind_done (readS (λ t, t)) _ t t t eq_refl).
  step_with (count_typed 7 _ _ 1 t (ty_complete _ Ht) (map_class_range nr)).
  eexists. split; [done|]. destruct Ht. constructor; simpl; try done. apply in64_u64.
Qed.
Lemma mark_depth_typed cur nr : keeps_types (io_u_mark_depth cur nr).
Proof.
  intros t Ht. unfold io_u_mark_depth. rewrite (bind_done (readS (λ t, t)) _ t t t eq_refl).
  pose proof (depth_class_range cur) as Hc.
  step_with (cells_get 7 in32 _ _ t (ty_map _ Ht) Hc).
  step_with (cells_set 7 in32 _ _ (u32 (x + nr)) t (ty_map _ Ht) Hc (in32_u32 _)).
  eexists. split; [done|]. by destruct Ht.
Qed.

Lemma mark_latency_typed x : in64 x → keeps_types (io_u_mark_latency x).
Proof.
  intros [Hx _] t Ht. unfold io_u_mark_latency. destruct (Z.ltb_spec x 1000) as [Hlt|Hge].
  - destruct (usec_class_spec x) as (_ & _ & Hr & _); [lia|]. unfold io_u_mark_lat_usec.
    set (c := usec_class x) in *. unfold assert. rewrite (proj2 (Z.ltb_lt x 1000)) by lia.
    rewrite (proj2 (Z.ltb_lt c FIO_IO_U_LAT_U_NR)) by apply Hr.
    do 2 rewrite (bind_done (mret tt) _ t t tt eq_refl).
    rewrite (bind_done (readS (λ t, t)) _ t t t eq_refl).
    step_with (cells_get 10 in32 _ _ t (ty_lat_u _ Ht) Hr).
    step_with (cells_set 10 in32 _ _ (u32 (x0 + 1)) t (ty_lat_u _ Ht) Hr (in32_u32 _)).
    eexists. split; [done|]. by destruct Ht.
  - destruct (msec_class_spec x Hge) as (_ & Hr & _). unfold io_u_mark_lat_msec.
    set (c := msec_class (x / 1000)) in *. unfold assert.
    rewrite (proj2 (Z.ltb_lt c FIO_IO_U_LAT_M_NR)) by apply Hr.
    rewrite (bind_done (mret tt) _ t t tt eq_refl), (bind_done (readS (λ t, t)) _ t t t eq_refl).
    step_with (cells_get 12 in32 _ _ t (ty_lat_m _ Ht) Hr).
    step_with (cells_set 12 in32 _ _ (u32 (x0 + 1)) t (ty_lat_m _ Ht) Hr (in32_u32 _)).
    eexists. split; [done|]. by destruct Ht.
Qed.

Lemma reset_keeps : keeps_types reset_io_stats.
Proof.
  intros t Ht. unfold reset_io_stats. rewrite (bind_done (readS (λ t, t)) _ t t t eq_refl).
  assert (in64 0 ∧ in32 0) as [Z64 Z32] by done.
  step_with (cells_clear 3 _ _ 3 _ t (ty_clat _ Ht) ltac:(lia) reset_typed).
  step_with (cells_clear 3 _ _ 3 _ t (ty_slat _ Ht) ltac:(lia) reset_typed).
  step_with (cells_clear 3 _ _ 3 _ t (ty_lat _ Ht) ltac:(lia) reset_typed).
  step_with (cells_clear 3 _ _ 3 _ t (ty_bw _ Ht) ltac:(lia) reset_typed).
  step_with (cells_clear 3 _ _ 3 _ t (ty_iops _ Ht) ltac:(lia) reset_typed).
  step_with (cells_clear 3 _ _ 3 _ t (ty_bytes _ Ht) ltac:(lia) Z64).
  step_with (cells_clear 3 _ _ 3 _ t (ty_run _ Ht) ltac:(lia) Z64).
  step_with (cells_loop 3 (cells 1216 in32) (io_u_plat t) 3 (λ i p,
    row ← arr_get p i; row ← clear FIO_IO_U_PLAT_NR 0 row; arr_set p i row) t (ty_plat _ Ht)).
  { intros i p Hi Hp. step_with (cells_get 3 _ p i t Hp Hi). rename x6 into row.
    step_with (cells_clear 1216 in32 row 1216 0 t ltac:(done) ltac:(lia) Z32). by apply cells_set. }
  step_with (cells_clear 7 _ _ 7 _ t (ty_map _ Ht) ltac:(lia) Z32).
  step_with (cells_clear 7 _ _ 7 _ t (ty_submit _ Ht) ltac:(lia) Z32).
  step_with (cells_clear 7 _ _ 7 _ t (ty_complete _ Ht) ltac:(lia) Z32).
  step_with (cells_clear 10 _ _ 7 _ t (ty_lat_u _ Ht) ltac:(lia) Z32).
  step_with (cells_clear 12 _ _ 7 _ t (ty_lat_m _ Ht) ltac:(lia) Z32).
  step_with (cells_clear 3 _ _ 3 _ t (ty_total _ Ht) ltac:(lia) Z64).
  step_with (cells_clear 3 _ _ 3 _ t (ty_short _ Ht) ltac:(lia) Z64).
  eexists. split; [done|]. destruct Ht. by constructor.
Qed.

Lemma add32_typed a b : in32 a → in32 b → in32 (add32 a b).
Proof. intros _ _. apply in32_u32. Qed.
Lemma add64_typed a b : in64 a → in64 b → in64 (add64 a b).
Proof. intros _ _. apply in64_u64. Qed.
Lemma longer_typed (a b : Z) : in64 a → in64 b → in64 (if a <? b then b else a).
Proof. intros Ha Hb. by destruct (a <? b). Qed.

(** Merge the field [F] of [n] entries. *)
Ltac step_merging n F Ht Hs H :=
  lazymatch goal with
  | |- context [(merge_arr ?u _ ?f ?d ?l ≫= _) ?t] =>
      step_with (cells_merge n _ u f d l t (F _ Ht) (F _ Hs) ltac:(intros _; lia) H)
  end.

Lemma merge_rows_typed u p q (s : thread_stat) :
  cells 3 (cells 1216 in32) p → cells 3 (cells 1216 in32) q →
  ∃ r, for_lt 0 DDIR_RWDIR_CNT (λ k p, d ← arr_get p (into u k); s ← arr_get q k;
    d ← merge_arr false FIO_IO_U_PLAT_NR add32 d s; arr_set p (into u k) d) p s = (Done r, s) ∧
    cells 3 (cells 1216 in32) r.
Proof.
  intros Hp Hq. apply (cells_loop 3 (cells 1216 in32) p 3); [done|]. intros i k Hi Hk.
  assert (0 ≤ into u i < Z.of_nat 3) as Hin by (destruct u; simpl; lia).
  step_with (cells_get 3 _ k (into u i) s Hk Hin). step_with (cells_get 3 _ q i s Hq Hi).
  step_with (cells_merge 1216 in32 false add32 x x0 s Hx Hx0 ltac:(intros _; lia) add32_typed).
  by apply cells_set.
Qed.

Lemma sum_keeps src nr : ts_typed src → keeps_types (sum_thread_stats src nr).
Proof.
  intros Hs t Ht. unfold sum_thread_stats. rewrite (bind_done (readS (λ t, t)) _ t t t eq_refl).
  step_merging 3%nat ty_clat Ht Hs (sum_stat_typed nr). step_merging 3%nat ty_slat Ht Hs (sum_stat_typed nr).
  step_merging 3%nat ty_lat Ht Hs (sum_stat_typed nr). step_merging 3%nat ty_bw Ht Hs (sum_stat_typed nr).
  step_merging 3%nat ty_bytes Ht Hs add64_typed. step_merging 3%nat ty_run Ht Hs longer_typed.
  step_merging 7%nat ty_map Ht Hs add32_typed. step_merging 7%nat ty_submit Ht Hs add32_typed.
  step_merging 7%nat ty_complete Ht Hs add32_typed. step_merging 10%nat ty_lat_u Ht Hs add32_typed.
  step_merging 12%nat ty_lat_m Ht Hs add32_typed. step_merging 3%nat ty_total Ht Hs add64_typed.
  step_merging 3%nat ty_short Ht Hs add64_typed.
  step_with (merge_rows_typed (unified_rw_rep t) _ _ t (ty_plat _ Ht) (ty_plat _ Hs)).
  eexists. split; [done|]. destruct Ht.
  constructor; simpl; try done; [constructor|..]; apply in64_u64.
Qed.

(** C25: The statistics of a thread stay well formed in any use: after any sequence of
    samples, marks, resets and merges, whatever their directions, depths and
    numbers, every array has its size and every counter its width (a sum wraps
    around), and on the way nothing is accessed outside an array and no assertion
    of the code fails. *)
Theorem statistics_stay_typed ops t :
  ts_typed t → Forall op_typed ops → ∃ t', stat_run ops t = (Done tt, t') ∧ ts_typed t'.
Proof.
  intros Ht Ho. revert t Ht. induction Ho as [|op ops Hop _ IH]; intros t Ht; [by exists t|].
  simpl. apply (bind_typed (stat_do op)); [|exact IH|done]. destruct op; simpl in *.
  - by apply clat_sample_typed.
  - by apply slat_sample_typed.
  - by apply lat_sample_typed.
  - apply mark_submit_typed.
  - apply mark_complete_typed.
  - apply mark_depth_typed.
  - by apply mark_latency_typed.
  - apply reset_keeps.
  - by apply sum_keeps.
Qed.
End types.

(** ** Witness *)

Definition some_use : list stat_op :=
  [ClatSample DDIR_READ (2 ^ 64 - 1); ClatSample 5 1; LatSample DDIR_WRITE 70; MarkSubmit 40; MarkDepth 0 1;
   MarkLatency 3000000; SumStats init_thread_stat 2; ResetStats; SlatSample DDIR_TRIM 1].
Lemma init_typed : ts_typed init_thread_stat.
Proof.
  assert (∀ A n (P : A → Prop) x, P x → cells n P (replicate n x)) as Hc.
  { intros A n P x Hx. split; [apply length_replicate|by apply Forall_replicate]. }
  constructor; try done; repeat (apply Hc); done.
Qed.
Lemma statistics_stay_typed_witness :
  ts_typed init_thread_stat ∧ Forall op_typed some_use ∧
  ∃ t', stat_run (Po := λ x _, x) some_use init_thread_stat = (Done tt, t') ∧ ts_typed t'.
Proof.
  assert (Forall op_typed some_use) as Ho.
  { repeat constructor; try done; apply init_typed. }
  split; [exact init_typed|]. split; [exact Ho|].
  exact (statistics_stay_typed (Po := λ x _, x) some_use init_thread_stat init_typed Ho).
Defined.
