(* ===== verification/Dbt2Queue.v ===== *)
(** * The nodes of the dbt2 client: transaction queue and free list

    Models transaction_queue.c and the node pool of listener.c.  Both keep nodes
    of type [transaction_queue_node_t] in a singly linked list with a head, a tail
    and a semaphore that counts its nodes.  The nodes live in a heap; a pointer is
    [None] when null.

    The code between [pthread_mutex_lock] and [pthread_mutex_unlock] is one step:
    the variables it uses are only used under that mutex.  [sem_wait] and the
    updates of the counters, which take mutexes of their own, are separate steps.
    [mutex_node] is a variable of the state, because [get_node] returns without
    releasing it when it finds the list empty. *)
From Stdlib Require Import ZArith Lia.
From stdpp Require Import base numbers gmap list.
From S2P Require Import Prelude.

(** ** Data *)

Abbreviation addr := positive.

(** [union transaction_data_t], as its bytes. *)
Abbreviation bytes := (list Z).

(** [struct transaction_queue_node_t] with its [struct client_transaction_t]. *)
Record node := Node {
  n_s : Z;             (* the socket of the terminal *)
  n_id : Z;
  n_status : Z;        (* client_data.status *)
  n_transaction : Z;   (* client_data.transaction *)
  n_data : bytes;      (* client_data.transaction_data *)
  n_next : option addr
}.

Definition TRANSACTION_MAX : Z := 5.
Definition INTEGRITY : Z := 10.
Definition REQ_QUEUED : Z := 0.
Definition REQ_EXECUTING : Z := 1.

(** The variables the threads of the client share. *)
Record client := Client {
  heap : gmap addr node;
  transaction_head : option addr;
  transaction_tail : option addr;
  queue_length : Z;                    (* a semaphore, as its value *)
  transaction_id : Z;
  transaction_counter : list (list Z);
  node_head : option addr;
  node_tail : option addr;
  free_count : Z;                      (* a semaphore *)
  mutex_node : bool;                   (* held for good *)
  listener_worker_count : Z;           (* a semaphore *)
  worker_count : list Z;
  last_txn : list Z;
  exiting : bool
}.

Definition set_heap (h : gmap addr node) (c : client) : client :=
  Client h (transaction_head c) (transaction_tail c) (queue_length c) (transaction_id c)
    (transaction_counter c) (node_head c) (node_tail c) (free_count c) (mutex_node c)
    (listener_worker_count c) (worker_count c) (last_txn c) (exiting c).
Definition set_queue (hd tl : option addr) (c : client) : client :=
  Client (heap c) hd tl (queue_length c) (transaction_id c)
    (transaction_counter c) (node_head c) (node_tail c) (free_count c) (mutex_node c)
    (listener_worker_count c) (worker_count c) (last_txn c) (exiting c).
Definition set_queue_length (v : Z) (c : client) : client :=
  Client (heap c) (transaction_head c) (transaction_tail c) v (transaction_id c)
    (transaction_counter c) (node_head c) (node_tail c) (free_count c) (mutex_node c)
    (listener_worker_count c) (worker_count c) (last_txn c) (exiting c).
Definition set_transaction_id (v : Z) (c : client) : client :=
  Client (heap c) (transaction_head c) (transaction_tail c) (queue_length c) v
    (transaction_counter c) (node_head c) (node_tail c) (free_count c) (mutex_node c)
    (listener_worker_count c) (worker_count c) (last_txn c) (exiting c).
Definition set_counter (v : list (list Z)) (c : client) : client :=
  Client (heap c) (transaction_head c) (transaction_tail c) (queue_length c) (transaction_id c)
    v (node_head c) (node_tail c) (free_count c) (mutex_node c)
    (listener_worker_count c) (worker_count c) (last_txn c) (exiting c).
Definition set_pool (hd tl : option addr) (c : client) : client :=
  Client (heap c) (transaction_head c) (transaction_tail c) (queue_length c) (transaction_id c)
    (transaction_counter c) hd tl (free_count c) (mutex_node c)
    (listener_worker_count c) (worker_count c) (last_txn c) (exiting c).
Definition set_free_count (v : Z) (c : client) : client :=
  Client (heap c) (transaction_head c) (transaction_tail c) (queue_length c) (transaction_id c)
    (transaction_counter c) (node_head c) (node_tail c) v (mutex_node c)
    (listener_worker_count c) (worker_count c) (last_txn c) (exiting c).
Definition set_mutex_node (v : bool) (c : client) : client :=
  Client (heap c) (transaction_head c) (transaction_tail c) (queue_length c) (transaction_id c)
    (transaction_counter c) (node_head c) (node_tail c) (free_count c) v
    (listener_worker_count c) (worker_count c) (last_txn c) (exiting c).
Definition set_listener_workers (v : Z) (c : client) : client :=
  Client (heap c) (transaction_head c) (transaction_tail c) (queue_length c) (transaction_id c)
    (transaction_counter c) (node_head c) (node_tail c) (free_count c) (mutex_node c)
    v (worker_count c) (last_txn c) (exiting c).
Definition set_worker (counts times : list Z) (c : client) : client :=
  Client (heap c) (transaction_head c) (transaction_tail c) (queue_length c) (transaction_id c)
    (transaction_counter c) (node_head c) (node_tail c) (free_count c) (mutex_node c)
    (listener_worker_count c) counts times (exiting c).
Definition set_exiting (c : client) : client :=
  Client (heap c) (transaction_head c) (transaction_tail c) (queue_length c) (transaction_id c)
    (transaction_counter c) (node_head c) (node_tail c) (free_count c) (mutex_node c)
    (listener_worker_count c) (worker_count c) (last_txn c) true.

Definition set_next (p : option addr) (n : node) : node :=
  Node (n_s n) (n_id n) (n_status n) (n_transaction n) (n_data n) p.
Definition set_id (i : Z) (n : node) : node :=
  Node (n_s n) i (n_status n) (n_transaction n) (n_data n) (n_next n).
Definition set_client_data (st t : Z) (d : bytes) (n : node) : node :=
  Node (n_s n) (n_id n) st t d (n_next n).

(** ** Memory *)

Definition load (p : option addr) : prog fault client node :=
  c ← getS;
  match p ≫= λ a, heap c !! a with
  | Some n => mret n
  | None => leave (Undefined BadPointer)
  end.

Definition store (p : option addr) (n : node) : prog fault client unit :=
  load p;;
  match p with
  | Some a => modS (λ c, set_heap (<[a := n]> (heap c)) c)
  | None => mret tt
  end.

(** ** The queue *)

(** [init_transaction_queue], and the variables that start at zero; [listener.c]
    starts its own list in [init_listener]. *)
Definition init_client (db_connections : nat) (now : Z) : client :=
  Client ∅ None None 0 0 [[0; 0; 0; 0; 0]; [0; 0; 0; 0; 0]] None None 0 false 0
    (replicate db_connections 0) (replicate db_connections now) false.

(** One update of a counter: [transaction_counter[row][node->client_data.transaction]
    += d] under its mutex. *)
Definition count_request (row d : Z) (node : addr) : prog fault client unit :=
  n ← load (Some node);
  c ← getS;
  counters ← arr_get (transaction_counter c) row;
  v ← arr_get counters (n_transaction n);
  v' ← int_add v d;
  counters' ← arr_set counters (n_transaction n) v';
  tc ← arr_set (transaction_counter c) row counters';
  modS (set_counter tc).

(** [enqueue_transaction], under [mutex_queue]. *)
Definition enqueue_link (node : addr) : prog fault client unit :=
  n ← load (Some node);
  store (Some node) (set_next None n);;
  c ← getS;
  id ← int_add (transaction_id c) 1;
  modS (set_transaction_id id);;
  n ← load (Some node);
  store (Some node) (set_id id n);;
  match transaction_tail c with
  | Some _ =>
      t ← load (transaction_tail c);
      store (transaction_tail c) (set_next (Some node) t);;
      modS (set_queue (transaction_head c) (Some node))
  | None => modS (set_queue (Some node) (Some node))
  end;;
  modS (λ c, set_queue_length (queue_length c + 1) c).

(** [dequeue_transaction], under [mutex_queue]. *)
Definition dequeue_pop : prog fault client (option addr) :=
  c ← getS;
  match transaction_head c with
  | None => mret None
  | Some _ =>
      n ← load (transaction_head c);
      match n_next n with
      | None => modS (set_queue None None)
      | Some _ => modS (set_queue (n_next n) (transaction_tail c))
      end;;
      mret (transaction_head c)
  end.

(** ** The node pool *)

(** [get_node], under [mutex_node]; the mutex is not released when the list is
    empty. *)
Definition get_node_pop : prog fault client (option addr) :=
  c ← getS;
  match node_head c with
  | None => modS (set_mutex_node true);; mret None
  | Some _ =>
      n ← load (node_head c);
      match n_next n with
      | None => modS (set_pool None None)
      | Some _ => modS (set_pool (n_next n) (node_tail c))
      end;;
      mret (node_head c)
  end.

Definition recycle_node (node : addr) : prog fault client unit :=
  n ← load (Some node);
  store (Some node) (set_next None n);;
  c ← getS;
  match node_tail c with
  | Some _ =>
      t ← load (node_tail c);
      store (node_tail c) (set_next (Some node) t);;
      modS (set_pool (node_head c) (Some node))
  | None => modS (set_pool (Some node) (Some node))
  end;;
  modS (λ c, set_free_count (free_count c + 1) c).

(** ** What the pointers represent

    [chain h p l]: following [next] from [p] visits the nodes [l] and ends in a
    null pointer. *)
Fixpoint chain (h : gmap addr node) (p : option addr) (l : list addr) : Prop :=
  match l with
  | [] => p = None
  | a :: l => p = Some a ∧ ∃ n, h !! a = Some n ∧ chain h (n_next n) l
  end.

Definition fifo (h : gmap addr node) (hd tl : option addr) (l : list addr) : Prop :=
  chain h hd l ∧ tl = list.last l.

(** The contents of the nodes, without the links. *)
Definition core (n : node) : node := set_next None n.
Definition cores (h : gmap addr node) : gmap addr node := core <$> h.

Section chains.
Implicit Types h : gmap addr node.

Lemma chain_agree h h' p l :
  (∀ a, a ∈ l → n_next <$> h !! a = n_next <$> h' !! a) → chain h p l → chain h' p l.
Proof.
  revert p; induction l as [|a l IH]; intros p Hag; simpl; [done|].
  intros [-> (n & Hn & Hc)]. split; [done|].
  pose proof (Hag a ltac:(left)) as Ha. rewrite Hn in Ha. simpl in Ha.
  destruct (h' !! a) as [n'|] eqn:Hn'; [|done]. exists n'. split; [done|].
  simpl in Ha. injection Ha as <-. apply IH; [|done]. intros b Hb. apply Hag. by right.
Qed.

Lemma chain_insert h p l a n : a ∉ l → chain h p l → chain (<[a := n]> h) p l.
Proof.
  intros Ha. apply chain_agree. intros b Hb.
  rewrite lookup_insert_ne by (intros ->; done). done.
Qed.

Lemma chain_delete h p l a : a ∉ l → chain h p l → chain (delete a h) p l.
Proof.
  intros Ha. apply chain_agree. intros b Hb.
  rewrite lookup_delete_ne by (intros ->; done). done.
Qed.

(** New contents keep the links. *)
Lemma chain_update h p l a n n' :
  h !! a = Some n → n_next n' = n_next n → chain h p l → chain (<[a := n']> h) p l.
Proof.
  intros Hn Hnx. apply chain_agree. intros b Hb. destruct (decide (b = a)) as [->|].
  - by rewrite Hn, lookup_insert_eq; simpl; rewrite Hnx.
  - by rewrite lookup_insert_ne.
Qed.

Lemma chain_lookup h p l a : chain h p l → a ∈ l → is_Some (h !! a).
Proof.
  revert p; induction l as [|b l IH]; intros p Hc Ha; [by apply elem_of_nil in Ha|].
  destruct Hc as [-> (n & Hn & Hc)]. apply elem_of_cons in Ha as [->|Ha]; eauto.
Qed.

Lemma chain_snoc h p l t nt a na :
  chain h p (l ++ [t]) → NoDup (l ++ [t]) → a ∉ l ++ [t] →
  h !! t = Some nt → n_next na = None →
  chain (<[t := set_next (Some a) nt]> (<[a := na]> h)) p (l ++ [t; a]).
Proof.
  revert p; induction l as [|b l IH]; intros p Hc Hnd Ha Ht Hna; simpl in *.
  - destruct Hc as [-> _]. split; [done|]. exists (set_next (Some a) nt).
    rewrite lookup_insert_eq. split; [done|]. split; [done|]. exists na.
    rewrite lookup_insert_ne by set_solver. by rewrite lookup_insert_eq.
  - destruct Hc as [-> (n & Hn & Hc)]. apply NoDup_cons in Hnd as [Hb Hnd].
    split; [done|]. exists n. split; [|apply IH; set_solver].
    rewrite !lookup_insert_ne by set_solver. done.
Qed.

(** Appending a node at the tail, for an empty list and for the others. *)
Lemma fifo_push_empty h hd l a na :
  fifo h hd None l → n_next na = None → l = [] ∧ fifo (<[a := na]> h) (Some a) (Some a) [a].
Proof.
  intros [Hc Hl] Hna. destruct l as [|b l _] using rev_ind; [|by rewrite last_snoc in Hl].
  split; [done|]. split; [|done]. split; [done|]. exists na. by rewrite lookup_insert_eq.
Qed.

Lemma fifo_push h hd t l a na :
  fifo h hd (Some t) l → NoDup l → a ∉ l → n_next na = None →
  t ∈ l ∧ ∃ nt, h !! t = Some nt ∧
    fifo (<[t := set_next (Some a) nt]> (<[a := na]> h)) hd (Some a) (l ++ [a]).
Proof.
  intros [Hc Hl] Hnd Ha Hna. destruct l as [|b l _] using rev_ind; [done|].
  rewrite last_snoc in Hl. injection Hl as <-. split; [set_solver|].
  destruct (chain_lookup _ _ _ t Hc) as [nt Hnt]; [set_solver|].
  exists nt. split; [done|]. split; [|by rewrite last_snoc].
  rewrite <- app_assoc. by apply chain_snoc.
Qed.

(** Removing the node at the head. *)
Lemma fifo_pop h hd tl a l :
  fifo h hd tl (a :: l) → hd = Some a ∧ ∃ n, h !! a = Some n ∧
    fifo h (n_next n) (match n_next n with None => None | Some _ => tl end) l.
Proof.
  intros [[-> (n & Hn & Hc)] ->]. split; [done|]. exists n. split; [done|].
  split; [done|]. destruct l as [|b l]; simpl in Hc; [by rewrite Hc|].
  destruct Hc as [-> _]. done.
Qed.

Lemma fifo_frame h h' hd tl l :
  (∀ p, chain h p l → chain h' p l) → fifo h hd tl l → fifo h' hd tl l.
Proof. intros H [Hc Hl]. split; auto. Qed.

Lemma cores_insert h a n : cores (<[a := n]> h) = <[a := core n]> (cores h).
Proof. apply fmap_insert. Qed.
Lemma cores_delete h a : cores (delete a h) = delete a (cores h).
Proof. apply fmap_delete. Qed.
Lemma cores_lookup h a n : h !! a = Some n → cores h !! a = Some (core n).
Proof. intros H. unfold cores. by rewrite lookup_fmap, H. Qed.
Lemma cores_lookup_inv h a m : cores h !! a = Some m → ∃ n, h !! a = Some n ∧ m = core n.
Proof. unfold cores. rewrite lookup_fmap. destruct (h !! a); naive_solver. Qed.

(** A change of links leaves the contents alone. *)
Lemma cores_relink h a n p : h !! a = Some n → cores (<[a := set_next p n]> h) = cores h.
Proof.
  intros Hn. rewrite cores_insert. apply insert_id. by rewrite (cores_lookup _ _ _ Hn).
Qed.
End chains.

(** ** The operations on representations *)

Lemma load_run c a n : heap c !! a = Some n → load (Some a) c = (Done n, c).
Proof. intros Hn. unfold load, mbind, prog_bind, getS. simpl. by rewrite Hn. Qed.

Lemma store_run c a n m :
  heap c !! a = Some m → store (Some a) n c = (Done tt, set_heap (<[a := n]> (heap c)) c).
Proof. intros Hm. unfold store. by rewrite (bind_done _ _ _ _ _ (load_run _ _ _ Hm)). Qed.

(** Lists that share no node with what an operation changes are kept. *)
Definition keeps_chains (h h' : gmap addr node) (l : list addr) : Prop :=
  ∀ l' p, l' ## l → chain h p l' → chain h' p l'.

Lemma keeps_chains_insert h a n l : a ∈ l → keeps_chains h (<[a := n]> h) l.
Proof. intros Ha l' p Hd. apply chain_insert. set_solver. Qed.
Lemma keeps_chains_trans h1 h2 h3 l :
  keeps_chains h1 h2 l → keeps_chains h2 h3 l → keeps_chains h1 h3 l.
Proof. intros H1 H2 l' p Hd Hc. by apply H2, H1. Qed.

(** Linking the node [a], whose contents become [core na], behind the tail. *)
Definition linked (h h' : gmap addr node) (hd : option addr) (l : list addr)
    (a : addr) (na : node) : Prop :=
  fifo h' hd (Some a) (l ++ [a]) ∧ cores h' = <[a := core na]> (cores h) ∧
  keeps_chains h h' (a :: l).

Lemma linked_empty h hd l a na :
  fifo h hd None l → n_next na = None → linked h (<[a := na]> h) (Some a) l a na.
Proof.
  intros Hf Hna. destruct (fifo_push_empty h hd l a na Hf Hna) as [-> Hf'].
  split; [done|]. split; [apply cores_insert|]. apply keeps_chains_insert. set_solver.
Qed.

Lemma linked_tail h hd t l a na :
  fifo h hd (Some t) l → NoDup l → a ∉ l → n_next na = None →
  ∃ nt, (<[a := na]> h) !! t = Some nt ∧
    linked h (<[t := set_next (Some a) nt]> (<[a := na]> h)) hd l a na.
Proof.
  intros Hf Hnd Ha Hna. destruct (fifo_push h hd t l a na Hf Hnd Ha Hna) as (Ht & nt & Hnt & Hf').
  exists nt. assert ((<[a := na]> h) !! t = Some nt) as Hnt'.
  { rewrite lookup_insert_ne; [done|]. by intros ->. }
  split; [done|]. split; [done|]. split.
  - rewrite cores_relink by done. apply cores_insert.
  - eapply keeps_chains_trans; apply keeps_chains_insert; set_solver.
Qed.

(** Run a function as far as its loads and stores are known. *)
Ltac cstep := unfold mbind, prog_bind, getS, modS, mret, prog_ret; cbn beta iota.
Ltac crun := repeat first
  [ progress cstep
  | erewrite load_run by (simpl; first [eassumption | apply lookup_insert_eq])
  | erewrite store_run by (simpl; first [eassumption | apply lookup_insert_eq]) ]; simpl.

Lemma enqueue_link_run c q a n :
  fifo (heap c) (transaction_head c) (transaction_tail c) q → NoDup q → a ∉ q →
  heap c !! a = Some n → INT_MIN ≤ transaction_id c < INT_MAX →
  ∃ h' hd', linked (heap c) h' hd' q a (set_id (transaction_id c + 1) (core n)) ∧
    enqueue_link a c = (Done tt,
      set_queue_length (queue_length c + 1) (set_queue hd' (Some a)
        (set_transaction_id (transaction_id c + 1) (set_heap h' c)))).
Proof.
  intros Hf Hnd Ha Hn Hid. unfold enqueue_link, int_add. crun.
  rewrite int_of_ok by (simpl; lia). crun. rewrite !insert_insert_eq.
  change (set_id _ (set_next None n)) with (set_id (transaction_id c + 1) (core n)).
  destruct (transaction_tail c) as [t|] eqn:Ht.
  - destruct (linked_tail (heap c) (transaction_head c) t q a
      (set_id (transaction_id c + 1) (core n)) Hf Hnd Ha) as (nt & Hnt & Hl); [done|].
    eexists _, _. split; [exact Hl|]. by crun.
  - eexists _, _. split; [by eapply linked_empty|]. done.
Qed.

Lemma recycle_node_run c f a n :
  fifo (heap c) (node_head c) (node_tail c) f → NoDup f → a ∉ f →
  heap c !! a = Some n →
  ∃ h' hd', linked (heap c) h' hd' f a (core n) ∧
    recycle_node a c = (Done tt,
      set_free_count (free_count c + 1) (set_pool hd' (Some a) (set_heap h' c))).
Proof.
  intros Hf Hnd Ha Hn. unfold recycle_node. crun. destruct (node_tail c) as [t|] eqn:Ht.
  - destruct (linked_tail (heap c) (node_head c) t f a (core n) Hf Hnd Ha)
      as (nt & Hnt & Hl); [done|].
    eexists _, _. split; [exact Hl|]. by crun.
  - eexists _, _. split; [by eapply linked_empty|]. done.
Qed.

Lemma dequeue_pop_run c a q :
  fifo (heap c) (transaction_head c) (transaction_tail c) (a :: q) →
  ∃ hd' tl', fifo (heap c) hd' tl' q ∧
    dequeue_pop c = (Done (Some a), set_queue hd' tl' c).
Proof.
  intros (Hhd & n & Hn & Hf)%fifo_pop. unfold dequeue_pop. crun. rewrite Hhd. crun.
  destruct (n_next n) as [b|] eqn:Hb; eexists _, _; (split; [exact Hf|done]).
Qed.

Lemma get_node_pop_run c a f :
  fifo (heap c) (node_head c) (node_tail c) (a :: f) →
  ∃ hd' tl', fifo (heap c) hd' tl' f ∧
    get_node_pop c = (Done (Some a), set_pool hd' tl' c).
Proof.
  intros (Hhd & n & Hn & Hf)%fifo_pop. unfold get_node_pop. crun. rewrite Hhd. crun.
  destruct (n_next n) as [b|] eqn:Hb; eexists _, _; (split; [exact Hf|done]).
Qed.

(** A counter update: the cell of the node's transaction changes by [d]. *)
Definition bump_counter (tc : list (list Z)) (row t : nat) (d : Z) : list (list Z) :=
  alter (alter (λ v, v + d) t) row tc.

Lemma count_request_run c a n (row : nat) d counters v :
  heap c !! a = Some n → transaction_counter c !! row = Some counters →
  0 ≤ n_transaction n → counters !! Z.to_nat (n_transaction n) = Some v →
  INT_MIN ≤ v + d ≤ INT_MAX →
  count_request (Z.of_nat row) d a c =
    (Done tt, set_counter (bump_counter (transaction_counter c) row
                             (Z.to_nat (n_transaction n)) d) c).
Proof.
  intros Hn Hrow Ht Hv Hd. unfold count_request, int_add.
  rewrite (bind_done _ _ _ _ _ (load_run c a n Hn)).
  rewrite (bind_done getS _ c c c eq_refl).
  rewrite (arr_get_ok _ _ counters), bind_ret by (rewrite ?Nat2Z.id; done || lia).
  rewrite (arr_get_ok _ _ v), bind_ret by done. rewrite int_of_ok, bind_ret by done.
  pose proof (lookup_lt_Some _ _ _ Hv). pose proof (lookup_lt_Some _ _ _ Hrow).
  rewrite arr_set_ok, bind_ret by lia. rewrite arr_set_ok, bind_ret by lia.
  unfold modS, bump_counter. rewrite Nat2Z.id.
  rewrite (list_alter_as_insert _ _ row counters Hrow).
  by rewrite (list_alter_as_insert _ counters _ v Hv).
Qed.

(** A transaction number without a counter is an access outside the array. *)
Lemma count_request_overruns c a n (row : nat) d counters :
  heap c !! a = Some n → transaction_counter c !! row = Some counters →
  Z.of_nat (length counters) ≤ n_transaction n →
  count_request (Z.of_nat row) d a c = (Leave (Undefined OutOfBounds), c).
Proof.
  intros Hn Hrow Ht. unfold count_request.
  rewrite (bind_done _ _ _ _ _ (load_run c a n Hn)).
  rewrite (bind_done getS _ c c c eq_refl).
  rewrite (arr_get_ok _ _ counters), bind_ret by (rewrite ?Nat2Z.id; done || lia).
  apply bind_leave. unfold arr_get. rewrite (proj2 (Z.ltb_ge _ 0)) by lia.
  by rewrite lookup_ge_None_2 by lia.
Qed.

Lemma count_request_done c c' a (row : nat) d :
  count_request (Z.of_nat row) d a c = (Done tt, c') →
  ∃ n counters v, heap c !! a = Some n ∧ transaction_counter c !! row = Some counters ∧
    0 ≤ n_transaction n ∧ counters !! Z.to_nat (n_transaction n) = Some v ∧
    c' = set_counter (bump_counter (transaction_counter c) row
                        (Z.to_nat (n_transaction n)) d) c.
Proof.
  intros Hrun. pose proof Hrun as Hrun'. unfold count_request in Hrun'.
  apply bind_inv in Hrun' as (n & c1 & E & Hrun'). unfold load in E.
  apply bind_inv in E as (? & ? & [= <- <-] & E). simpl in E.
  destruct (heap c !! a) as [m|] eqn:Hn; [|done]. injection E as <- <-.
  apply bind_inv in Hrun' as (? & ? & [= <- <-] & Hrun').
  apply bind_inv in Hrun' as (counters & c2 & E & Hrun').
  pose proof (yields_arr_get (F:=fault) (transaction_counter c) (Z.of_nat row) c) as [Hs Hy].
  rewrite E in Hs, Hy. simpl in Hs. subst c2. destruct (Hy _ eq_refl) as [_ Hrow].
  rewrite Nat2Z.id in Hrow.
  apply bind_inv in Hrun' as (v & c2 & E' & Hrun').
  pose proof (yields_arr_get (F:=fault) counters (n_transaction m) c) as [Hs' Hy'].
  rewrite E' in Hs', Hy'. simpl in Hs'. subst c2. destruct (Hy' _ eq_refl) as [Ht Hv].
  apply bind_inv in Hrun' as (v' & c2 & E'' & _).
  pose proof (yields_int_range (F:=fault) (v + d) c) as [Hs'' Hy''].
  unfold int_add in E''. rewrite E'' in Hs'', Hy''. simpl in Hs''. subst c2.
  destruct (Hy'' _ eq_refl) as [_ Hr].
  exists m, counters, v. rewrite (count_request_run c a m row d counters v) in Hrun by done.
  by injection Hrun as <-.
Qed.

(** The number of a transaction does not go beyond [INT_MAX]. *)
Lemma enqueue_link_overflows c a n :
  heap c !! a = Some n → INT_MAX ≤ transaction_id c →
  ∃ c', enqueue_link a c = (Leave (Undefined SignedOverflow), c').
Proof.
  intros Hn Hid. unfold enqueue_link, int_add, int_of. crun.
  assert (is_int (transaction_id c + 1) = false) as ->.
  { apply not_true_is_false. rewrite is_int_spec. lia. }
  eexists. reflexivity.
Qed.
