(* ===== verification/Dbt2Client.v ===== *)
(** * The threads of the dbt2 client

    Models listener.c ([init_listener], [listener_worker]) and the loop of
    db_threadpool.c's [db_worker] over the shared variables of Dbt2Queue: one
    acceptor, one listener per terminal connection and the database workers.

    A thread is a point in its function with the local variable [node]; a step
    runs it to its next point, and the threads take steps in any order.  What the
    outside gives a step (memory, connections, messages, results of
    [process_transaction], the clock) is its [input].  The [log] lists what the
    client does to the outside: requests, results and the order of the queue.

    Not modelled: messages to the error log, the semaphore [db_worker_count] and
    the connection to the database, which only the start and the end of a worker
    use. *)
From Stdlib Require Import ZArith Lia.
From stdpp Require Import base numbers gmap list.
From S2P Require Import Prelude Dbt2Queue.

(** ** Threads *)

Inductive acceptor_pc :=
| ATop                   (* while (!exiting) *)
| APost.                 (* sem_post(&listener_worker_count) *)

Inductive listener_pc :=
| LTop (node : addr)     (* while (!exiting) *)
| LReceive (node : addr) (* receive_transaction_data *)
| LClosed (node : addr)  (* sem_wait(&listener_worker_count) *)
| LCount (node : addr)   (* enqueue_transaction: the counter *)
| LLink (node : addr)    (* enqueue_transaction: the queue *)
| LWait                  (* get_node: sem_wait(&free_count) *)
| LTake.                 (* get_node: the list *)

Inductive worker_pc :=
| WTop                     (* while (!exiting) *)
| WWait                    (* dequeue_transaction: sem_wait(&queue_length) *)
| WPop                     (* dequeue_transaction: the queue *)
| WUnqueue (node : addr)   (* dequeue_transaction: the first counter *)
| WExecute (node : addr)   (* dequeue_transaction: the second counter *)
| WProcess (node : addr)   (* process_transaction *)
| WSend (node : addr)      (* send_transaction_data *)
| WFinish (node : addr)    (* the counter *)
| WRecycle (node : addr)   (* recycle_node *)
| WCount.                  (* worker_count, last_txn *)

Inductive thread :=
| Acceptor (pc : acceptor_pc)
| Listener (pc : listener_pc)
| Worker (id : Z) (pc : worker_pc)
| Ended.

(** How starting a listener goes. *)
Inductive start :=
| Started
| CreateFailed    (* pthread_create *)
| AttrFailed.     (* pthread_attr_init or pthread_attr_setstacksize *)

Inductive input :=
| Nothing
| Accepted (mem : option (addr * node)) (s : Z) (st : start)
      (* what malloc returned, with the contents it happens to have, what _accept
         returned, and how starting the thread went *)
| Message (st t : Z) (d : bytes)      (* a whole client_transaction_t arrived *)
| BadMessage (st t : Z) (d : bytes)   (* an error; what is in the structure now *)
| Hangup (st t : Z) (d : bytes)       (* the terminal closed the socket *)
| Processed (st : Z) (d : bytes)      (* what process_transaction returned and wrote *)
| Clock (now : Z).

Inductive event :=
| EAccept (s : Z)
| EClose (s : Z)
| EReceived (s t : Z) (d : bytes)
| EQueued (n : node)
| EDequeued (n : node)
| EProcessed (s t : Z) (d : bytes) (st : Z) (d' : bytes)
| ESent (s st t : Z) (d : bytes).

(** ** Steps

    A step gives the thread's next point, the threads it starts and what it
    logs; it gives nothing when the thread waits. *)
Definition turn : Type := thread * list thread * list event.
Definition go (th : thread) : prog fault client (option turn) := mret (Some (th, [], [])).
Definition go_log (th : thread) (ev : list event) : prog fault client (option turn) :=
  mret (Some (th, [], ev)).
Definition wait : prog fault client (option turn) := mret None.

(** The body of [init_listener]'s loop up to [pthread_create]. *)
Definition accept_turn (inp : input) : prog fault client (option turn) :=
  match inp with
  | Accepted None _ _ => leave (Undefined BadPointer)
  | Accepted (Some (a, junk)) s st =>
      c ← getS;
      if decide (is_Some (heap c !! a)) then wait
      else
        modS (set_heap (<[a := Node s (n_id junk) (n_status junk) (n_transaction junk)
                                 (n_data junk) (n_next junk)]> (heap c)));;
        if s =? -1 then go (Acceptor ATop)
        else match st with
             | Started => mret (Some (Acceptor APost, [Listener (LTop a)], [EAccept s]))
             | CreateFailed => go_log (Acceptor ATop) [EAccept s; EClose s]
             | AttrFailed => go_log Ended [EAccept s]
             end
  | _ => wait
  end.

Definition acceptor_step (inp : input) (pc : acceptor_pc) : prog fault client (option turn) :=
  match pc with
  | ATop =>
      c ← getS;
      if exiting c then go Ended else accept_turn inp
  | APost =>
      modS (λ c, set_listener_workers (listener_worker_count c + 1) c);;
      go (Acceptor ATop)
  end.

(** [receive_transaction_data] into the node. *)
Definition receive_into (a : addr) (st t : Z) (d : bytes) : prog fault client Z :=
  n ← load (Some a);
  store (Some a) (set_client_data st t d n);;
  mret (n_s n).

Definition listener_step (inp : input) (pc : listener_pc) : prog fault client (option turn) :=
  c ← getS;
  match pc with
  | LTop a => if exiting c then go Ended else go (Listener (LReceive a))
  | LReceive a =>
      match inp with
      | Message st t d =>
          s ← receive_into a st t d;
          go_log (Listener (LCount a)) [EReceived s t d]
      | BadMessage st t d => receive_into a st t d;; go (Listener (LTop a))
      | Hangup st t d => receive_into a st t d;; go (Listener (LClosed a))
      | _ => wait
      end
  | LClosed a =>
      if 0 <? listener_worker_count c then
        modS (set_listener_workers (listener_worker_count c - 1));;
        load (Some a);;
        modS (λ c, set_heap (delete a (heap c)) c);;
        go Ended
      else wait
  | LCount a => count_request REQ_QUEUED 1 a;; go (Listener (LLink a))
  | LLink a =>
      enqueue_link a;;
      n ← load (Some a);
      go_log (Listener LWait) [EQueued (set_next None n)]
  | LWait =>
      if 0 <? free_count c then
        modS (set_free_count (free_count c - 1));; go (Listener LTake)
      else wait
  | LTake =>
      if mutex_node c then wait
      else
        p ← get_node_pop;
        match p with
        | Some a => go (Listener (LTop a))
        | None => leave (ExitCode 1)
        end
  end.

Definition worker_step (inp : input) (id : Z) (pc : worker_pc)
  : prog fault client (option turn) :=
  c ← getS;
  match pc with
  | WTop => if exiting c then go Ended else go (Worker id WWait)
  | WWait =>
      if 0 <? queue_length c then
        modS (set_queue_length (queue_length c - 1));; go (Worker id WPop)
      else wait
  | WPop =>
      p ← dequeue_pop;
      match p with
      | Some a =>
          n ← load (Some a);
          go_log (Worker id (WUnqueue a)) [EDequeued (set_next None n)]
      | None => go (Worker id WTop)
      end
  | WUnqueue a => count_request REQ_QUEUED (-1) a;; go (Worker id (WExecute a))
  | WExecute a => count_request REQ_EXECUTING 1 a;; go (Worker id (WProcess a))
  | WProcess a =>
      match inp with
      | Processed st d =>
          n ← load (Some a);
          store (Some a) (set_client_data st (n_transaction n) d n);;
          go_log (Worker id (WSend a))
            [EProcessed (n_s n) (n_transaction n) (n_data n) st d]
      | _ => wait
      end
  | WSend a =>
      n ← load (Some a);
      go_log (Worker id (WFinish a)) [ESent (n_s n) (n_status n) (n_transaction n) (n_data n)]
  | WFinish a => count_request REQ_EXECUTING (-1) a;; go (Worker id (WRecycle a))
  | WRecycle a =>
      if mutex_node c then wait else recycle_node a;; go (Worker id WCount)
  | WCount =>
      match inp with
      | Clock now =>
          v ← arr_get (worker_count c) id;
          v' ← int_add v 1;
          counts ← arr_set (worker_count c) id v';
          times ← arr_set (last_txn c) id now;
          modS (set_worker counts times);;
          go (Worker id WTop)
      | _ => wait
      end
  end.

Definition thread_step (inp : input) (th : thread) : prog fault client (option turn) :=
  match th with
  | Acceptor pc => acceptor_step inp pc
  | Listener pc => listener_step inp pc
  | Worker id pc => worker_step inp id pc
  | Ended => wait
  end.

(** ** The client *)

Record system := Sys { sh : client; threads : list thread; log : list event }.

(** The descriptors that are open: [accept] returns one that is not. *)
Definition open_step (s : Z) (b : bool) (e : event) : bool :=
  match e with
  | EAccept s' => if s' =? s then true else b
  | EClose s' => if s' =? s then false else b
  | _ => b
  end.
Definition open_socket (s : Z) (l : list event) : bool := fold_left (open_step s) l false.

Definition input_fits (inp : input) (l : list event) : Prop :=
  match inp with
  | Accepted _ s _ => s = -1 ∨ open_socket s l = false
  | _ => True
  end.

Inductive step : system → system → Prop :=
| step_thread c c' t1 th t2 th' new ev inp l :
    input_fits inp l →
    thread_step inp th c = (Done (Some (th', new, ev)), c') →
    step (Sys c (t1 ++ th :: t2) l) (Sys c' (t1 ++ th' :: t2 ++ new) (l ++ ev))
| step_exit c ths l :   (* parse_command: exit or quit *)
    step (Sys c ths l) (Sys (set_exiting c) ths l).

(** After [startup]: the acceptor and the workers, numbered from 0. *)
Definition startup (db_connections : nat) (now : Z) : system :=
  Sys (init_client db_connections now)
    (Acceptor ATop :: ((λ i, Worker i WTop) <$> seqZ 0 (Z.of_nat db_connections))) [].

Inductive reachable (n : nat) (now : Z) : system → Prop :=
| reach_start : reachable n now (startup n now)
| reach_step σ σ' : reachable n now σ → step σ σ' → reachable n now σ'.
