(* ===== verification/Dbt2Ledger.v ===== *)
(** * Where the nodes of the dbt2 client are

    Every node in use is in one place: with a listener, in the queue, with a
    worker or in the free list.  [ledger] relates the places to the counters and
    to the conversations with the terminals; its lemmas say how a node may move.
    Dbt2Invariant shows that the threads make only such moves. *)
From Stdlib Require Import ZArith Lia.
From stdpp Require Import base numbers gmap list.
From S2P Require Import Prelude Dbt2Queue Dbt2Client.

(** ** Places *)

Inductive place :=
| PTerminal     (* a listener waits for the next request *)
| PArrived      (* the request arrived *)
| PQueued       (* counted as queued *)
| PDequeued     (* no longer counted as queued *)
| PExecuting    (* counted as executing *)
| PAnswered     (* executed *)
| PSent         (* the answer is sent *)
| PFree.        (* no longer counted *)

#[export] Instance place_eq_dec : EqDecision place.
Proof. solve_decision. Defined.

Definition listener_place (pc : listener_pc) : option (addr * place) :=
  match pc with
  | LTop a | LReceive a | LClosed a => Some (a, PTerminal)
  | LCount a => Some (a, PArrived)
  | LLink a => Some (a, PQueued)
  | LWait | LTake => None
  end.
Definition worker_place (pc : worker_pc) : option (addr * place) :=
  match pc with
  | WTop | WWait | WPop | WCount => None
  | WUnqueue a => Some (a, PQueued)
  | WExecute a => Some (a, PDequeued)
  | WProcess a => Some (a, PExecuting)
  | WSend a => Some (a, PAnswered)
  | WFinish a => Some (a, PSent)
  | WRecycle a => Some (a, PFree)
  end.
Definition thread_place (th : thread) : option (addr * place) :=
  match th with
  | Listener pc => listener_place pc
  | Worker _ pc => worker_place pc
  | Acceptor _ | Ended => None
  end.

(** The places of all nodes, for a queue [q] and a free list [f]. *)
Definition places (q f : list addr) (ths : list thread) : list (addr * place) :=
  ((λ a, (a, PQueued)) <$> q) ++ ((λ a, (a, PFree)) <$> f) ++ omap thread_place ths.

(** ** Conversations

    What the client owes the terminal at a socket. *)
Inductive phase :=
| Idle
| Asked (t : Z) (d : bytes)
| Answered (t st : Z) (d : bytes).

(** One event of a conversation; [None] when it is out of order. *)
Definition talk_step (s : Z) (p : option phase) (e : event) : option phase :=
  match e with
  | EReceived s' t d =>
      if s' =? s then match p with Some Idle => Some (Asked t d) | _ => None end else p
  | EProcessed s' t d st d' =>
      if s' =? s then
        match p with
        | Some (Asked t0 d0) =>
            if bool_decide (t0 = t ∧ d0 = d) then Some (Answered t st d') else None
        | _ => None
        end
      else p
  | ESent s' st t d =>
      if s' =? s then
        match p with
        | Some (Answered t0 st0 d0) =>
            if bool_decide (t0 = t ∧ st0 = st ∧ d0 = d) then Some Idle else None
        | _ => None
        end
      else p
  | _ => p
  end.
Definition talk (s : Z) (l : list event) : option phase := fold_left (talk_step s) l (Some Idle).

Definition place_phase (pl : place) (n : node) : phase :=
  match pl with
  | PTerminal | PSent | PFree => Idle
  | PArrived | PQueued | PDequeued | PExecuting => Asked (n_transaction n) (n_data n)
  | PAnswered => Answered (n_transaction n) (n_status n) (n_data n)
  end.

(** ** Counters *)

Definition in_row (row : nat) (pl : place) : bool :=
  match row, pl with
  | O, PQueued => true
  | S O, PExecuting | S O, PAnswered | S O, PSent => true
  | _, _ => false
  end.

(** A transaction number is checked by no one; it has a counter. *)
Definition has_counter (n : node) : bool := (0 <=? n_transaction n) && (n_transaction n <? 5).
Definition needs_counter (pl : place) : bool :=
  match pl with PTerminal | PArrived | PFree => false | _ => true end.

Definition weighs (D : gmap addr node) (row t : nat) (x : addr * place) : nat :=
  match D !! x.1 with
  | Some n => if in_row row x.2 && (n_transaction n =? Z.of_nat t) then 1 else 0
  | None => 0
  end.
Definition tally (D : gmap addr node) (pos : list (addr * place)) (row t : nat) : nat :=
  sum_list_with (weighs D row t) pos.

Definition counter_at (tc : list (list Z)) (row t : nat) : option Z := tc !! row ≫= (.!! t).

(** ** The ledger *)

Definition entry (D : gmap addr node) (l : list event) (x : addr * place) : Prop :=
  ∃ n, D !! x.1 = Some n ∧ talk (n_s n) l = Some (place_phase x.2 n) ∧
    open_socket (n_s n) l = true ∧ (needs_counter x.2 = true → has_counter n = true).

Definition socket (D : gmap addr node) (x : addr * place) : option Z := n_s <$> D !! x.1.

Record ledger (D : gmap addr node) (pos : list (addr * place)) (tc : list (list Z))
    (l : list event) : Prop := {
  l_nodup : NoDup pos.*1;
  l_entries : Forall (entry D l) pos;
  l_sockets : NoDup (socket D <$> pos);
  l_others : ∀ s, Some s ∉ socket D <$> pos → talk s l = Some Idle;
  l_cells : ∀ row t, (row < 2)%nat → (t < 5)%nat →
    counter_at tc row t = Some (Z.of_nat (tally D pos row t));
  l_shape : ∀ row t, is_Some (counter_at tc row t) → (row < 2)%nat ∧ (t < 5)%nat
}.

(** ** Lemmas *)

Lemma talk_app s l e : talk s (l ++ [e]) = talk_step s (talk s l) e.
Proof. unfold talk. by rewrite fold_left_app. Qed.
Lemma open_socket_app s l e : open_socket s (l ++ [e]) = open_step s (open_socket s l) e.
Proof. unfold open_socket. by rewrite fold_left_app. Qed.

Lemma sum_list_with_agree {A} (g g' : A → nat) (l : list A) :
  (∀ x, x ∈ l → g x = g' x) → sum_list_with g l = sum_list_with g' l.
Proof.
  induction l as [|x l IH]; intros H; [done|]. simpl.
  rewrite (H x) by left. rewrite IH; [done|]. intros y Hy. apply H. by right.
Qed.

Lemma socket_elem D (pos : list (addr * place)) b n pl :
  (b, pl) ∈ pos → D !! b = Some n → Some (n_s n) ∈ socket D <$> pos.
Proof.
  intros Hb Hn. apply list_elem_of_fmap. exists (b, pl). split; [|done].
  unfold socket. simpl. by rewrite Hn.
Qed.

(** Contents of a node that no place names do not matter. *)
Lemma weighs_insert_ne D row t x a n : x.1 ≠ a → weighs (<[a := n]> D) row t x = weighs D row t x.
Proof. intros Hx. unfold weighs. by rewrite lookup_insert_ne. Qed.
Lemma socket_insert_ne D x a n : x.1 ≠ a → socket (<[a := n]> D) x = socket D x.
Proof. intros Hx. unfold socket. by rewrite lookup_insert_ne. Qed.

Lemma tally_insert_ne D (pos : list (addr * place)) row t a n :
  a ∉ pos.*1 → tally (<[a := n]> D) pos row t = tally D pos row t.
Proof.
  intros Ha. apply sum_list_with_agree. intros x Hx. apply weighs_insert_ne. intros <-.
  apply Ha. by apply list_elem_of_fmap_2.
Qed.
Lemma sockets_insert_ne D (pos : list (addr * place)) a n :
  a ∉ pos.*1 → socket (<[a := n]> D) <$> pos = socket D <$> pos.
Proof.
  intros Ha. apply list_fmap_ext. intros i x Hx. apply socket_insert_ne. intros <-.
  apply Ha. apply list_elem_of_fmap_2. by eapply list_elem_of_lookup_2.
Qed.

Lemma ledger_perm D pos pos' tc l : pos ≡ₚ pos' → ledger D pos tc l → ledger D pos' tc l.
Proof.
  intros Hp [H1 H2 H3 H4 H5 H6]. split.
  - by rewrite <- Hp.
  - by rewrite <- Hp.
  - by rewrite <- Hp.
  - intros s. rewrite <- Hp. apply H4.
  - intros row t Hr Ht. unfold tally. rewrite <- Hp. by apply H5.
  - done.
Qed.

Definition weight (row t : nat) (pl : place) (n : node) : Z :=
  if in_row row pl && (n_transaction n =? Z.of_nat t) then 1 else 0.

Lemma weighs_weight D row t a pl n :
  D !! a = Some n → Z.of_nat (weighs D row t (a, pl)) = weight row t pl n.
Proof. intros Hn. unfold weighs, weight. simpl. rewrite Hn. by destruct (_ && _). Qed.

Lemma entry_frame D l l' x (P : Z → Prop) a n :
  x.1 ≠ a → (∀ n, D !! x.1 = Some n → P (n_s n)) →
  (∀ s, P s → talk s l' = talk s l) → (∀ s, P s → open_socket s l' = open_socket s l) →
  entry D l x → entry (<[a := n]> D) l' x.
Proof.
  intros Hx HP Ht Ho (m & Hm & Htalk & Hopen & Hc). exists m.
  rewrite lookup_insert_ne by done. rewrite Ht, Ho by eauto. done.
Qed.

(** A node goes from one place to another: the events concern its own
    conversation, and the counters follow. *)
Lemma ledger_move D pos tc tc' l ev a pl pl' n n' :
  ledger D ((a, pl) :: pos) tc l → D !! a = Some n → n_s n' = n_s n →
  (∀ s, s ≠ n_s n → talk s (l ++ ev) = talk s l) →
  (∀ s, open_socket s (l ++ ev) = open_socket s l) →
  talk (n_s n) (l ++ ev) = Some (place_phase pl' n') →
  (needs_counter pl' = true → has_counter n' = true) →
  (∀ row t v, (row < 2)%nat → (t < 5)%nat → counter_at tc row t = Some v →
     counter_at tc' row t = Some (v - weight row t pl n + weight row t pl' n')) →
  (∀ row t, is_Some (counter_at tc' row t) → is_Some (counter_at tc row t)) →
  ledger (<[a := n']> D) ((a, pl') :: pos) tc' (l ++ ev).
Proof.
  intros [H1 H2 H3 H4 H5 H6] Hn Hs Htalk Hopen Hphase Hneeds Hcells Hshape.
  apply list.Forall_cons in H2 as [(m & Hm & Ht & Ho & Hc) H2]. simpl in *.
  rewrite Hn in Hm. injection Hm as <-.
  apply NoDup_cons in H1 as [Ha H1]. apply NoDup_cons in H3 as [Hsa H3].
  assert (socket D (a, pl) = Some (n_s n)) as Hsock by (unfold socket; simpl; by rewrite Hn).
  assert (socket (<[a := n']> D) (a, pl') = Some (n_s n)) as Hsock'.
  { unfold socket. simpl. rewrite lookup_insert_eq. simpl. by rewrite Hs. }
  rewrite Hsock in *.
  assert (∀ x m, x ∈ pos → D !! x.1 = Some m → n_s m ≠ n_s n) as Hother.
  { intros [b pb] m Hx Hm' E. apply Hsa. rewrite <- E. by eapply socket_elem. }
  split.
  - by apply NoDup_cons.
  - apply list.Forall_cons. split.
    + exists n'. simpl. rewrite lookup_insert_eq, Hs, Hopen. done.
    + apply list.Forall_forall. intros x Hx.
      eapply (entry_frame D l _ x (λ s, s ≠ n_s n)); [|naive_solver|done|done|].
      * intros <-. apply Ha. by apply list_elem_of_fmap_2.
      * by eapply list.Forall_forall in H2.
  - simpl. rewrite sockets_insert_ne by done. rewrite Hsock'. by apply NoDup_cons.
  - intros s. simpl. rewrite sockets_insert_ne by done. rewrite Hsock'. intros Hns.
    rewrite Htalk by set_solver. apply H4. rewrite ?Hsock. done.
  - intros row t Hr Hlt. specialize (H5 row t Hr Hlt).
    rewrite (Hcells _ _ _ Hr Hlt H5). unfold tally in *. simpl in *.
    f_equal. rewrite !Nat2Z.inj_add. rewrite (weighs_weight D _ _ _ _ _ Hn).
    rewrite (weighs_weight (<[a := n']> D) _ _ _ _ n') by apply lookup_insert_eq.
    fold (tally D pos row t) (tally (<[a := n']> D) pos row t).
    rewrite tally_insert_ne by done. lia.
  - auto.
Qed.

(** A node in an idle place is given up, its memory is not read again. *)
Lemma ledger_drop D D' pos tc l a pl :
  (∀ b, b ≠ a → D' !! b = D !! b) → place_phase pl = (λ _, Idle) →
  (∀ row, in_row row pl = false) →
  ledger D ((a, pl) :: pos) tc l → ledger D' pos tc l.
Proof.
  intros HD Hidle Hrow [H1 H2 H3 H4 H5 H6]. apply NoDup_cons in H1 as [Ha H1].
  apply list.Forall_cons in H2 as [(m & Hm & Ht & Ho & Hc) H2]. apply NoDup_cons in H3 as [Hsa H3]. simpl in Ha, Hm.
  assert (∀ x, x ∈ pos → x.1 ≠ a) as Hne.
  { intros x Hx <-. apply Ha. by apply list_elem_of_fmap_2. }
  assert (socket D' <$> pos = socket D <$> pos) as Hsock.
  { apply list_fmap_ext. intros i x Hx. unfold socket. rewrite HD; [done|].
    apply Hne. by eapply list_elem_of_lookup_2. }
  split.
  - done.
  - apply list.Forall_forall. intros x Hx. unfold entry. rewrite HD by auto.
    by eapply list.Forall_forall in H2.
  - by rewrite Hsock.
  - intros s. rewrite Hsock. intros Hs. destruct (decide (socket D (a, pl) = Some s)) as [E|E].
    + unfold socket in E. simpl in *. rewrite Hm in E. injection E as <-. by rewrite Ht, Hidle.
    + apply H4. simpl. set_solver.
  - intros row t Hr Hlt. rewrite (H5 row t Hr Hlt). do 2 f_equal. unfold tally. simpl.
    replace (weighs D row t (a, pl)) with 0%nat.
    2:{ unfold weighs. simpl. rewrite Hm, Hrow. done. }
    apply sum_list_with_agree. intros x Hx. unfold weighs. by rewrite HD by auto.
  - done.
Qed.

(** Memory that no place names, and events that change no conversation. *)
Lemma ledger_fresh D pos tc l l' a n :
  D !! a = None → (∀ s, talk s l' = talk s l) →
  (∀ s, open_socket s l = true → open_socket s l' = true) →
  ledger D pos tc l → a ∉ pos.*1 ∧ ledger (<[a := n]> D) pos tc l'.
Proof.
  intros Ha Ht Ho [H1 H2 H3 H4 H5 H6]. assert (a ∉ pos.*1) as Hpos.
  { intros (x & -> & Hx)%list_elem_of_fmap. eapply list.Forall_forall in H2; [|done].
    destruct H2 as (m & Hm & _). congruence. }
  split; [done|]. split.
  - done.
  - apply list.Forall_forall. intros x Hx. eapply list.Forall_forall in H2; [|done].
    destruct H2 as (m & Hm & Hp & Hop & Hc). exists m. rewrite lookup_insert_ne by congruence.
    rewrite Ht. auto.
  - by rewrite sockets_insert_ne.
  - intros s. rewrite sockets_insert_ne, Ht by done. apply H4.
  - intros row t Hr Hlt. rewrite tally_insert_ne by done. by apply H5.
  - done.
Qed.

(** A connection is accepted: a new node for a socket that was not open. *)
Lemma ledger_accept D pos tc l a n :
  D !! a = None → open_socket (n_s n) l = false →
  ledger D pos tc l → ledger (<[a := n]> D) ((a, PTerminal) :: pos) tc (l ++ [EAccept (n_s n)]).
Proof.
  intros Ha Hopen HL.
  assert (∀ s, talk s (l ++ [EAccept (n_s n)]) = talk s l) as Ht.
  { intros s. by rewrite talk_app. }
  assert (Some (n_s n) ∉ socket D <$> pos) as Hns.
  { intros (x & Hx & Hin)%list_elem_of_fmap. pose proof (l_entries _ _ _ _ HL) as HE.
    eapply list.Forall_forall in HE as (m & Hm & _ & Ho & _); [|done].
    unfold socket in Hx. rewrite Hm in Hx. simpl in Hx. congruence. }
  destruct (ledger_fresh D pos tc l (l ++ [EAccept (n_s n)]) a n) as [Hpos HL']; [done|done| |done|].
  { intros s Hs. rewrite open_socket_app. simpl. by destruct (_ =? _). }
  pose proof (l_others _ _ _ _ HL _ Hns) as Hidle.
  destruct HL' as [H1 H2 H3 H4 H5 H6].
  assert (socket (<[a := n]> D) (a, PTerminal) = Some (n_s n)) as Hsock.
  { unfold socket. simpl. by rewrite lookup_insert_eq. }
  split.
  - simpl. by apply NoDup_cons.
  - apply list.Forall_cons. split; [|done]. exists n. simpl. rewrite lookup_insert_eq, Ht, Hidle.
    split; [done|]. split; [done|]. split; [|done].
    rewrite open_socket_app. simpl. by rewrite Z.eqb_refl.
  - rewrite fmap_cons, Hsock. apply NoDup_cons. split; [|done]. by rewrite sockets_insert_ne.
  - intros s. rewrite fmap_cons. intros Hs. apply H4. set_solver.
  - intros row t Hr Hlt. rewrite (H5 row t Hr Hlt). do 2 f_equal. unfold tally. simpl.
    unfold weighs at 2. simpl. rewrite lookup_insert_eq. by destruct row as [|[|]].
  - done.
Qed.

(** A counter changes by [d]. *)
Lemma cell_bump tc row t d row' t' :
  counter_at (bump_counter tc row t d) row' t' =
    if decide (row = row' ∧ t = t') then (λ v, v + d) <$> counter_at tc row' t' else counter_at tc row' t'.
Proof.
  unfold counter_at, bump_counter. destruct (decide (row = row')) as [<-|Hr].
  - rewrite list_lookup_alter_eq. destruct (tc !! row) as [r|]; simpl; [|by destruct (decide _)].
    destruct (decide (t = t')) as [<-|Ht].
    + rewrite list_lookup_alter_eq, decide_True by done. done.
    + rewrite list_lookup_alter_ne, decide_False by (done || tauto). done.
  - rewrite list_lookup_alter_ne, decide_False by (done || tauto). done.
Qed.

Lemma ledger_count D pos tc l a pl pl' n row d :
  ledger D ((a, pl) :: pos) tc l → D !! a = Some n → has_counter n = true →
  place_phase pl' n = place_phase pl n →
  (∀ r t, weight r t pl' n = weight r t pl n +
     if decide (row = r ∧ Z.to_nat (n_transaction n) = t) then d else 0) →
  ledger D ((a, pl') :: pos) (bump_counter tc row (Z.to_nat (n_transaction n)) d) l.
Proof.
  intros HL Hn Hc Hph Hw.
  pose proof (l_entries _ _ _ _ HL) as HE.
  apply list.Forall_cons in HE as [(m & Hm & Htk & Ho & _) _].
  simpl in *. rewrite Hn in Hm. injection Hm as <-.
  rewrite <- (insert_id D a n Hn), <- (app_nil_r l). eapply ledger_move; try done.
  - intros s _. by rewrite app_nil_r.
  - intros s. by rewrite app_nil_r.
  - by rewrite app_nil_r, Hph.
  - intros r t v _ _ Hv. rewrite cell_bump, Hv, Hw. case_decide; simpl; f_equal; lia.
  - intros r t. rewrite cell_bump. case_decide; [|done]. by rewrite fmap_is_Some.
Qed.

(** No counter exceeds the number of nodes. *)
Lemma tally_le D pos row t : (tally D pos row t ≤ length pos)%nat.
Proof.
  unfold tally. induction pos as [|x pos IH]; simpl; [done|].
  assert (weighs D row t x ≤ 1)%nat; [|lia]. unfold weighs. repeat case_match; lia.
Qed.
