(* ===== verification/Dbt2Invariant.v ===== *)
(** * The invariant of the dbt2 client

    What holds between any two steps of the threads of Dbt2Client: the linked
    lists represent a queue and a free list, the semaphores count them, every
    node is in one place and the ledger is kept. *)
From Stdlib Require Import ZArith Lia.
From stdpp Require Import base numbers gmap list.
From S2P Require Import Prelude Dbt2Queue Dbt2Client Dbt2Ledger.

(** ** What the log and the threads add up to *)

Definition queued (l : list event) : list node :=
  omap (λ e, match e with EQueued n => Some n | _ => None end) l.
Definition dequeued (l : list event) : list node :=
  omap (λ e, match e with EDequeued n => Some n | _ => None end) l.

Definition is_listener (th : thread) : nat :=
  match th with Listener _ => 1 | _ => 0 end.
(** Past the [sem_wait] of the queue and of the free list. *)
Definition is_popping (th : thread) : nat :=
  match th with Worker _ WPop => 1 | _ => 0 end.
Definition is_taking (th : thread) : nat :=
  match th with Listener LTake => 1 | _ => 0 end.
(** Between dequeuing a transaction and counting it. *)
Definition is_busy (th : thread) : nat :=
  match th with
  | Worker _ (WTop | WWait | WPop) => 0
  | Worker _ _ => 1
  | _ => 0
  end.
Definition total (g : thread → nat) (ths : list thread) : Z := Z.of_nat (sum_list_with g ths).

Definition worker_ok (n : nat) (th : thread) : Prop :=
  match th with Worker id _ => 0 ≤ id < Z.of_nat n | _ => True end.

(** ** The invariant *)

Record inv (c : client) (ths : list thread) (l : list event) (q f : list addr) : Prop := {
  i_queue : fifo (heap c) (transaction_head c) (transaction_tail c) q;
  i_free : fifo (heap c) (node_head c) (node_tail c) f;
  i_mutex : mutex_node c = false;
  i_ledger : ledger (cores (heap c)) (places q f ths) (transaction_counter c) l;
  i_qsem : 0 ≤ queue_length c ∧ queue_length c + total is_popping ths = Z.of_nat (length q);
  i_fsem : 0 ≤ free_count c ∧ free_count c + total is_taking ths = Z.of_nat (length f);
  i_nodes : total is_listener ths = Z.of_nat (length (places q f ths));
  i_order : ∃ rest, queued l = dequeued l ++ rest ∧
    (λ a, cores (heap c) !! a) <$> q = Some <$> rest;
  i_ids : n_id <$> queued l = seqZ 1 (transaction_id c) ∧ 0 ≤ transaction_id c ≤ INT_MAX;
  i_done : zsum (worker_count c) + total is_busy ths = Z.of_nat (length (dequeued l)) ∧
    Forall (λ v, 0 ≤ v) (worker_count c);
  i_workers : Forall (worker_ok (length (worker_count c))) ths ∧
    length (last_txn c) = length (worker_count c)
}.

(** ** Lemmas *)

Lemma total_perm g ths ths' : ths ≡ₚ ths' → total g ths = total g ths'.
Proof. intros Hp. unfold total. by rewrite Hp. Qed.
Lemma total_cons g th ths : total g (th :: ths) = Z.of_nat (g th) + total g ths.
Proof. unfold total. simpl. lia. Qed.
Lemma total_nonneg g ths : 0 ≤ total g ths.
Proof. unfold total. lia. Qed.

Lemma places_perm q f ths ths' : ths ≡ₚ ths' → places q f ths ≡ₚ places q f ths'.
Proof. intros Hp. unfold places. by rewrite Hp. Qed.

(** The order of the threads does not matter. *)
Lemma inv_perm c ths ths' l q f : ths ≡ₚ ths' → inv c ths l q f → inv c ths' l q f.
Proof.
  intros Hp [H1 H2 H3 H4 H5 H6 H7 H8 H9 H10 [H11 H12]].
  pose proof (places_perm q f _ _ Hp) as Hpl.
  split; rewrite <- ?(total_perm _ _ _ Hp); try done.
  - by eapply ledger_perm.
  - by rewrite <- Hpl.
  - split; [|done]. by rewrite <- Hp.
Qed.

(** The place of the first thread's node comes first. *)
Lemma places_cons q f th ths :
  places q f (th :: ths) ≡ₚ option_list (thread_place th) ++ places q f ths.
Proof.
  unfold places. simpl. destruct (thread_place th) as [x|]; simpl; [|done].
  by rewrite <- !Permutation_middle.
Qed.

Lemma places_enqueue q f ths a : places (q ++ [a]) f ths ≡ₚ (a, PQueued) :: places q f ths.
Proof.
  unfold places. rewrite fmap_app. simpl. rewrite <- app_assoc. simpl.
  by rewrite <- Permutation_middle.
Qed.
Lemma places_dequeue q f ths a : places (a :: q) f ths = (a, PQueued) :: places q f ths.
Proof. done. Qed.
Lemma places_recycle q f ths a : places q (f ++ [a]) ths ≡ₚ (a, PFree) :: places q f ths.
Proof.
  unfold places. rewrite fmap_app. simpl. rewrite <- !app_assoc. simpl.
  by rewrite <- Permutation_middle, <- Permutation_middle.
Qed.
Lemma places_take q f ths a : places q (a :: f) ths ≡ₚ (a, PFree) :: places q f ths.
Proof. unfold places. simpl. by rewrite <- Permutation_middle. Qed.

(** Lists and nodes that a thread holds share nothing. *)
Lemma inv_apart c th ths l q f a pl :
  inv c (th :: ths) l q f → thread_place th = Some (a, pl) →
  NoDup (q ++ f) ∧ a ∉ q ∧ a ∉ f ∧ a ∉ (places q f ths).*1 ∧ q ## f ∧
  ∃ n, heap c !! a = Some n ∧ entry (cores (heap c)) l (a, pl).
Proof.
  intros HI Hth. pose proof (i_ledger _ _ _ _ _ HI) as HL.
  eapply ledger_perm in HL; [|apply places_cons]. rewrite Hth in HL. simpl in HL.
  destruct HL as [H1 H2 _ _ _ _]. simpl in H1. apply NoDup_cons in H1 as [Ha H1].
  apply list.Forall_cons in H2 as [He H2].
  unfold places in Ha, H1. rewrite !fmap_app in Ha, H1.
  rewrite <- !list_fmap_compose in Ha, H1.
  assert (∀ (k : list addr) pl', @fst addr place ∘ (λ a : addr, (a, pl')) <$> k = k) as Hid.
  { intros k pl'. by rewrite <- (list_fmap_id k) at 2. }
  rewrite !Hid in Ha, H1. rewrite app_assoc in H1. apply list.NoDup_app in H1 as (H1 & _ & _).
  split; [done|]. rewrite !elem_of_app in Ha. repeat split; [tauto|tauto| | |].
  - unfold places. rewrite !fmap_app, <- !list_fmap_compose, !Hid, !elem_of_app. tauto.
  - apply list.NoDup_app in H1 as (_ & H1 & _). set_solver.
  - destruct He as (m & Hm & He). apply cores_lookup_inv in Hm as Hm'. simpl in Hm'.
    destruct Hm' as (n & Hn & ->). exists n. split; [done|]. by exists (core n).
Qed.

(** ** Steps that keep the lists *)

Definition counts (th : thread) : nat * nat * nat * nat :=
  (is_listener th, is_popping th, is_taking th, is_busy th).
Definition same_id (th th' : thread) : Prop := ∀ n, worker_ok n th → worker_ok n th'.
Lemma same_worker id pc pc' : same_id (Worker id pc) (Worker id pc').
Proof. by intros n. Qed.
#[local] Hint Resolve same_worker : core.

(** The shared variables outside the heap, the counters and the flags. *)
Record same_lists (c c' : client) : Prop := {
  s_head : transaction_head c' = transaction_head c;
  s_tail : transaction_tail c' = transaction_tail c;
  s_length : queue_length c' = queue_length c;
  s_id : transaction_id c' = transaction_id c;
  s_nhead : node_head c' = node_head c;
  s_ntail : node_tail c' = node_tail c;
  s_free : free_count c' = free_count c;
  s_mutex : mutex_node c' = mutex_node c;
  s_count : worker_count c' = worker_count c;
  s_times : last_txn c' = last_txn c
}.
#[local] Hint Constructors same_lists : core.

Lemma inv_quiet c c' th th' ths l q f :
  inv c (th :: ths) l q f → same_lists c c' → heap c' = heap c →
  transaction_counter c' = transaction_counter c →
  thread_place th' = thread_place th → counts th' = counts th → same_id th th' →
  inv c' (th' :: ths) l q f.
Proof.
  intros [H1 H2 H3 H4 H5 H6 H7 H8 H9 H10 [H11 H12]] [] Hh Hc Hp Hn Hid.
  unfold counts in Hn. injection Hn as E1 E2 E3 E4.
  apply list.Forall_cons in H11 as [Hw H11].
  assert (places q f (th' :: ths) = places q f (th :: ths)) as Hpl.
  { unfold places. simpl. by rewrite Hp. }
  split; rewrite ?total_cons, ?E1, ?E2, ?E3, ?E4, ?Hpl, ?s_head0, ?s_tail0, ?s_length0,
    ?s_id0, ?s_nhead0, ?s_ntail0, ?s_free0, ?s_mutex0, ?s_count0, ?s_times0, ?Hh, ?Hc in *;
    try done.
  split; [|done]. apply list.Forall_cons. split; [by apply Hid|done].
Qed.

(** A thread's node moves to another place, its contents may change. *)
Lemma inv_place c c' th th' ths l ev q f a pl pl' n n' :
  inv c (th :: ths) l q f →
  thread_place th = Some (a, pl) → thread_place th' = Some (a, pl') →
  counts th' = counts th → same_id th th' →
  heap c !! a = Some n → heap c' = <[a := n']> (heap c) → n_next n' = n_next n →
  same_lists c c' → queued (l ++ ev) = queued l → dequeued (l ++ ev) = dequeued l →
  ledger (<[a := core n']> (cores (heap c))) ((a, pl') :: places q f ths)
    (transaction_counter c') (l ++ ev) →
  inv c' (th' :: ths) (l ++ ev) q f.
Proof.
  intros HI Hp Hp' Hn Hid Hna Hh Hnx [] Hq Hd HL.
  destruct (inv_apart _ _ _ _ _ _ _ _ HI Hp) as (_ & Haq & Haf & _).
  destruct HI as [H1 H2 H3 H4 H5 H6 H7 H8 H9 H10 [H11 H12]].
  unfold counts in Hn. injection Hn as E1 E2 E3 E4.
  apply list.Forall_cons in H11 as [Hw H11].
  assert (length (places q f (th' :: ths)) = length (places q f (th :: ths))) as Hlen.
  { rewrite !places_cons, Hp, Hp'. done. }
  split; rewrite ?total_cons, ?E1, ?E2, ?E3, ?E4, ?Hq, ?Hd, ?Hlen, ?s_head0, ?s_tail0,
    ?s_length0, ?s_id0, ?s_nhead0, ?s_ntail0, ?s_free0, ?s_mutex0, ?s_count0, ?s_times0, ?Hh
    in *; try done.
  - eapply fifo_frame; [|done]. intros p. by apply chain_insert.
  - eapply fifo_frame; [|done]. intros p. by apply chain_insert.
  - rewrite cores_insert. eapply ledger_perm; [|exact HL].
    by rewrite (places_cons q f th' ths), Hp'.
  - destruct H8 as (rest & E & Hr). exists rest. split; [done|]. rewrite <- Hr, cores_insert.
    apply list_fmap_ext. intros i b Hb. apply lookup_insert_ne. intros <-.
    apply Haq. by eapply list_elem_of_lookup_2.
  - split; [|done]. apply list.Forall_cons. split; [by apply Hid|done].
Qed.

(** ** Steps on the lists *)

Lemma workers_cons n th th' ths :
  same_id th th' → Forall (worker_ok n) (th :: ths) → Forall (worker_ok n) (th' :: ths).
Proof. intros Hid [Hw H]%list.Forall_cons. apply list.Forall_cons. split; [by apply Hid|done]. Qed.
Ltac keep_workers H := split; [|done]; eapply workers_cons; [|exact H]; by intros ?.

Lemma queued_app l l' : queued (l ++ l') = queued l ++ queued l'.
Proof. apply omap_app. Qed.
Lemma dequeued_app l l' : dequeued (l ++ l') = dequeued l ++ dequeued l'.
Proof. apply omap_app. Qed.

(** Other lists are not touched when a node is linked. *)
Lemma linked_other h h' hd l a na hd2 tl2 l2 :
  linked h h' hd l a na → a ∉ l2 → l ## l2 → fifo h hd2 tl2 l2 → fifo h' hd2 tl2 l2.
Proof.
  intros (_ & _ & Hk) Ha Hd. apply fifo_frame. intros p. apply Hk. set_solver.
Qed.
Lemma linked_here h h' hd l a na :
  linked h h' hd l a na → ∃ n', h' !! a = Some n' ∧ core n' = core na.
Proof.
  intros (_ & Hc & _). assert (cores h' !! a = Some (core na)) as H
    by (rewrite Hc; apply lookup_insert_eq).
  apply cores_lookup_inv in H as (n' & Hn' & ->). eauto.
Qed.

(** The contents of a node change in a way no place and no counter depends on. *)
Lemma ledger_same D pos tc l ev a pl pl' n n' :
  ledger D ((a, pl) :: pos) tc l → D !! a = Some n → n_s n' = n_s n →
  n_transaction n' = n_transaction n → place_phase pl' n' = place_phase pl n →
  (needs_counter pl' = true → needs_counter pl = true) →
  (∀ row, in_row row pl' = in_row row pl) →
  (∀ s, talk s (l ++ ev) = talk s l) → (∀ s, open_socket s (l ++ ev) = open_socket s l) →
  ledger (<[a := n']> D) ((a, pl') :: pos) tc (l ++ ev).
Proof.
  intros HL Hn Hs Ht Hph Hneed Hrow Htalk Hopen.
  pose proof (l_entries _ _ _ _ HL) as HE. apply list.Forall_cons in HE as [(m & Hm & Htk & Ho & Hc) _].
  simpl in *. rewrite Hn in Hm. injection Hm as <-.
  eapply ledger_move; eauto.
  - by rewrite Htalk, Hph.
  - intros Hnd. unfold has_counter in *. rewrite Ht. auto.
  - intros row t v _ _ ->. f_equal. unfold weight. rewrite Hrow, Ht. lia.
Qed.

Lemma inv_link c ths l q f a :
  inv c (Listener (LLink a) :: ths) l q f → transaction_id c < INT_MAX →
  ∃ c' n', enqueue_link a c = (Done tt, c') ∧ heap c' !! a = Some n' ∧
    inv c' (Listener LWait :: ths) (l ++ [EQueued (core n')]) (q ++ [a]) f.
Proof.
  intros HI Hid. destruct (inv_apart _ _ _ _ _ _ a PQueued HI eq_refl)
    as (Hnd & Haq & Haf & Hap & Hqf & n & Hn & _).
  apply list.NoDup_app in Hnd as (Hnq & _ & Hnf).
  destruct HI as [H1 H2 H3 H4 H5 H6 H7 H8 [H9 H9'] H10 [H11 H12]].
  destruct (enqueue_link_run c q a n) as (h' & hd' & Hl & Hrun); [done..|unfold INT_MIN; lia|].
  destruct (linked_here _ _ _ _ _ _ Hl) as (n' & Hn' & Hcn').
  eexists _, n'. split; [exact Hrun|]. split; [done|].
  pose proof Hl as (Hf' & Hcores & _).
  rewrite !total_cons in *. simpl in *.
  split; simpl; rewrite ?total_cons, ?queued_app, ?dequeued_app, ?app_nil_r; simpl; try done.
  - by eapply linked_other; [| | |exact H2].
  - rewrite Hcores. eapply ledger_perm; [by rewrite places_enqueue|].
    change (places q f (Listener LWait :: ths)) with (places q f ths).
    apply (ledger_same _ _ _ _ _ a PQueued PQueued (core n)); try done.
    + exact (ledger_perm _ _ _ _ _ (places_cons _ _ _ _) H4).
    + by apply cores_lookup.
    + intros s. by rewrite talk_app.
    + intros s. by rewrite open_socket_app.
  - rewrite length_app. simpl. lia.
  - rewrite H7, places_enqueue, places_cons. simpl. done.
  - destruct H8 as (rest & E & Hr). exists (rest ++ [core n']). rewrite E, app_assoc.
    split; [done|]. rewrite !fmap_app, <- Hr, Hcores. f_equal.
    + apply list_fmap_ext. intros i b Hb. apply lookup_insert_ne. intros <-.
      apply Haq. by eapply list_elem_of_lookup_2.
    + simpl. by rewrite lookup_insert_eq, Hcn'.
  - split; [|lia]. rewrite fmap_app, H9. simpl. rewrite seqZ_app by lia. f_equal.
    rewrite seqZ_cons by lia. apply (f_equal n_id) in Hcn'. simpl in Hcn'. rewrite Hcn'.
    by rewrite Z.add_comm.
  - keep_workers H11.
Qed.

Lemma inv_recycle c ths l q f id a :
  inv c (Worker id (WRecycle a) :: ths) l q f →
  ∃ c', recycle_node a c = (Done tt, c') ∧
    inv c' (Worker id WCount :: ths) l q (f ++ [a]).
Proof.
  intros HI. destruct (inv_apart _ _ _ _ _ _ a PFree HI eq_refl)
    as (Hnd & Haq & Haf & Hap & Hqf & n & Hn & _).
  apply list.NoDup_app in Hnd as (Hnq & _ & Hnf).
  destruct HI as [H1 H2 H3 H4 H5 H6 H7 H8 H9 H10 [H11 H12]].
  destruct (recycle_node_run c f a n) as (h' & hd' & Hl & Hrun); [done..|].
  eexists _. split; [exact Hrun|]. pose proof Hl as (Hf' & Hcores & _).
  assert (cores h' = cores (heap c)) as Hsame.
  { rewrite Hcores. apply insert_id. by rewrite (cores_lookup _ _ _ Hn). }
  rewrite !total_cons in *. simpl in *.
  split; simpl; rewrite ?total_cons, ?Hsame; simpl; try done.
  - eapply linked_other; [done|done| |exact H1]. set_solver.
  - eapply ledger_perm; [|exact H4]. by rewrite places_recycle, !places_cons.
  - rewrite length_app. simpl. lia.
  - rewrite H7, places_recycle, !places_cons. done.
  - keep_workers H11.
Qed.

Lemma inv_take c ths l q f a :
  inv c (Listener LTake :: ths) l q (a :: f) →
  ∃ c', get_node_pop c = (Done (Some a), c') ∧
    inv c' (Listener (LTop a) :: ths) l q f.
Proof.
  intros [H1 H2 H3 H4 H5 H6 H7 H8 H9 H10 [H11 H12]].
  destruct (get_node_pop_run c a f H2) as (hd' & tl' & Hf' & Hrun).
  eexists _. split; [exact Hrun|]. rewrite !total_cons in *. simpl in *.
  split; simpl; rewrite ?total_cons; simpl; try done.
  - eapply ledger_perm in H4; [|by rewrite places_take].
    change (places q f (Listener LTake :: ths)) with (places q f ths) in H4.
    eapply ledger_perm; [by rewrite places_cons|]. simpl.
    pose proof (l_entries _ _ _ _ H4) as HE. apply list.Forall_cons in HE as [(m & Hm & _) _].
    rewrite <- (insert_id (cores (heap c)) a m Hm), <- (app_nil_r l).
    eapply ledger_same; [exact H4|exact Hm|..]; try done.
    + intros s. by rewrite app_nil_r.
    + intros s. by rewrite app_nil_r.
  - lia.
  - rewrite H7, places_take, !places_cons. done.
  - keep_workers H11.
Qed.

Lemma inv_pop c ths l q f id a :
  inv c (Worker id WPop :: ths) l (a :: q) f →
  ∃ c' n, dequeue_pop c = (Done (Some a), c') ∧ heap c' !! a = Some n ∧
    inv c' (Worker id (WUnqueue a) :: ths) (l ++ [EDequeued (core n)]) q f.
Proof.
  intros [H1 H2 H3 H4 H5 H6 H7 H8 H9 H10 [H11 H12]].
  destruct (dequeue_pop_run c a q H1) as (hd' & tl' & Hf' & Hrun).
  destruct (chain_lookup _ _ _ a (proj1 H1)) as [n Hn]; [left|].
  eexists _, n. split; [exact Hrun|]. split; [done|].
  rewrite !total_cons in *. simpl in *.
  split; simpl; rewrite ?total_cons, ?queued_app, ?dequeued_app, ?app_nil_r; simpl; try done.
  - rewrite places_dequeue in H4.
    change (places q f (Worker id WPop :: ths)) with (places q f ths) in H4.
    eapply ledger_perm; [by rewrite places_cons|]. simpl.
    rewrite <- (insert_id (cores (heap c)) a (core n)) by by apply cores_lookup.
    eapply ledger_same; [exact H4|by apply cores_lookup|..]; try done.
    + intros s. by rewrite talk_app.
    + intros s. by rewrite open_socket_app.
  - lia.
  - rewrite H7, (places_cons q f (Worker id (WUnqueue a))). done.
  - destruct H8 as ([|m rest] & E & Hr); [done|]. simpl in Hr. injection Hr as Hm Hr.
    rewrite (cores_lookup _ _ _ Hn) in Hm. injection Hm as <-.
    exists rest. by rewrite E, <- app_assoc.
  - rewrite length_app. simpl. split; [lia|tauto].
  - keep_workers H11.
Qed.

(** ** Steps on the counters *)

Lemma weight_count row r d pl pl' n t :
  has_counter n = true →
  (∀ r, Z.b2z (in_row r pl') = Z.b2z (in_row r pl) + if decide (row = r) then d else 0) →
  weight r t pl' n =
    weight r t pl n + if decide (row = r ∧ Z.to_nat (n_transaction n) = t) then d else 0.
Proof.
  intros Hc Hrow. specialize (Hrow r). unfold has_counter in Hc.
  apply andb_true_iff in Hc as [H0%Z.leb_le _]. unfold weight.
  destruct (Z.eqb_spec (n_transaction n) (Z.of_nat t)) as [E|E].
  - rewrite E, Nat2Z.id, !andb_true_r in *.
    destruct (in_row r pl), (in_row r pl'), (decide (row = r)); simpl in Hrow;
      [rewrite decide_True by done|rewrite decide_False by tauto|..]; try lia;
      try (rewrite decide_True by done; lia); rewrite decide_False by tauto; lia.
  - rewrite !andb_false_r, decide_False; [done|]. intros [_ <-]. lia.
Qed.

Lemma inv_count c c' th th' ths l q f a pl pl' row d :
  inv c (th :: ths) l q f →
  thread_place th = Some (a, pl) → thread_place th' = Some (a, pl') →
  counts th' = counts th → same_id th th' →
  (∀ n, place_phase pl' n = place_phase pl n) →
  (∀ r, Z.b2z (in_row r pl') = Z.b2z (in_row r pl) + if decide (row = r) then d else 0) →
  count_request (Z.of_nat row) d a c = (Done tt, c') → inv c' (th' :: ths) l q f.
Proof.
  intros HI Hp Hp' Hn Hid Hph Hw Hrun.
  destruct (count_request_done _ _ _ _ _ Hrun) as (n & counters & v & Hh & Hrow & Ht & Hv & ->).
  pose proof (i_ledger _ _ _ _ _ HI) as HL. eapply ledger_perm in HL; [|apply places_cons].
  rewrite Hp in HL. simpl in HL.
  assert (has_counter n = true) as Hc.
  { destruct (l_shape _ _ _ _ HL row (Z.to_nat (n_transaction n))) as [_ H5].
    { unfold counter_at. rewrite Hrow. simpl. by rewrite Hv. }
    unfold has_counter. apply andb_true_iff. split; [by apply Z.leb_le|apply Z.ltb_lt; lia]. }
  rewrite <- (app_nil_r l).
  eapply (inv_place _ _ _ _ _ _ _ _ _ _ pl pl' n n); try done.
  - simpl. by rewrite insert_id.
  - by rewrite app_nil_r.
  - by rewrite app_nil_r.
  - simpl. rewrite app_nil_r, insert_id by by apply cores_lookup.
    apply (ledger_count _ _ _ _ _ _ _ (core n) row d HL); [by apply cores_lookup|done|apply Hph|].
    intros r t. by apply (weight_count row r d pl pl' (core n) t).
Qed.

Lemma inv_count_runs c th ths l q f a pl n (row : nat) d :
  inv c (th :: ths) l q f → thread_place th = Some (a, pl) → heap c !! a = Some n →
  has_counter n = true → (row < 2)%nat →
  Z.of_nat (length (places q f (th :: ths))) ≤ INT_MAX →
  (d = 1 ∧ in_row row pl = false ∨ d = -1) →
  ∃ c', count_request (Z.of_nat row) d a c = (Done tt, c').
Proof.
  intros HI Hp Hn Hc Hrow Hlen Hd. pose proof (i_ledger _ _ _ _ _ HI) as HL.
  rewrite places_cons, Hp in Hlen. eapply ledger_perm in HL; [|apply places_cons].
  rewrite Hp in HL. simpl in HL, Hlen. unfold has_counter in Hc.
  apply andb_true_iff in Hc as [H0%Z.leb_le H5%Z.ltb_lt].
  pose proof (l_cells _ _ _ _ HL row (Z.to_nat (n_transaction n)) Hrow ltac:(lia)) as Hcell.
  unfold counter_at in Hcell. destruct (transaction_counter c !! row) as [counters|] eqn:Hr; [|done].
  simpl in Hcell. unfold tally in Hcell. simpl in Hcell.
  pose proof (tally_le (cores (heap c)) (places q f ths) row (Z.to_nat (n_transaction n))) as Hle.
  unfold tally in Hle. pose proof (weighs_weight _ row (Z.to_nat (n_transaction n)) a pl _
    (cores_lookup _ _ _ Hn)) as Hwt. unfold weight in Hwt.
  eexists. eapply count_request_run; [done..|exact Hcell|].
  unfold INT_MIN, INT_MAX in *.
  destruct Hd as [[-> E] | ->]; [rewrite E in Hwt; simpl in Hwt; lia|].
  destruct (_ && _); lia.
Qed.

(** ** Conversations *)

(** The events of a conversation do not change another. *)
Lemma talk_other s s' l e :
  s ≠ s' →
  match e with
  | EReceived s0 _ _ | EProcessed s0 _ _ _ _ | ESent s0 _ _ _ => s0 = s'
  | _ => True
  end → talk s (l ++ [e]) = talk s l.
Proof.
  intros Hne He. rewrite talk_app. destruct e; simpl; try done; subst;
    rewrite (proj2 (Z.eqb_neq _ _)); done.
Qed.

(** Changing a node that no counter counts. *)
Lemma weight_uncounted pl n row t :
  (∀ r, in_row r pl = false) → weight row t pl n = 0.
Proof. intros H. unfold weight. by rewrite H. Qed.
Lemma weight_transaction pl pl' n n' row t :
  n_transaction n' = n_transaction n → (∀ r, in_row r pl' = in_row r pl) →
  weight row t pl' n' = weight row t pl n.
Proof. intros Ht Hr. unfold weight. by rewrite Ht, Hr. Qed.

Lemma inv_entry c th ths l q f a pl :
  inv c (th :: ths) l q f → thread_place th = Some (a, pl) →
  ∃ n, heap c !! a = Some n ∧ talk (n_s n) l = Some (place_phase pl n) ∧
    (needs_counter pl = true → has_counter n = true) ∧
    ledger (cores (heap c)) ((a, pl) :: places q f ths) (transaction_counter c) l.
Proof.
  intros HI Hp. destruct (inv_apart _ _ _ _ _ _ _ _ HI Hp) as (_ & _ & _ & _ & _ & n & Hn & m & Hm & Hm').
  simpl in Hm. rewrite (cores_lookup _ _ _ Hn) in Hm. injection Hm as <-. exists n.
  destruct Hm' as (Htk & _ & Hc). split; [done|]. split; [by destruct pl|]. split; [by destruct pl|].
  pose proof (i_ledger _ _ _ _ _ HI) as HL. eapply ledger_perm in HL; [|apply places_cons].
  by rewrite Hp in HL.
Qed.

(** A step that writes the thread's node and logs an event of its conversation. *)
Lemma inv_talk c th th' ths l e q f a pl pl' n n' :
  inv c (th :: ths) l q f →
  thread_place th = Some (a, pl) → thread_place th' = Some (a, pl') →
  counts th' = counts th → same_id th th' →
  heap c !! a = Some n → n_next n' = n_next n → n_s n' = n_s n →
  (match e with
   | EReceived s _ _ | EProcessed s _ _ _ _ | ESent s _ _ _ => s = n_s n
   | _ => False
   end) →
  talk_step (n_s n) (Some (place_phase pl n)) e = Some (place_phase pl' n') →
  (needs_counter pl' = true → has_counter n' = true) →
  (∀ row t, weight row t pl' n' = weight row t pl n) →
  inv (set_heap (<[a := n']> (heap c)) c) (th' :: ths) (l ++ [e]) q f.
Proof.
  intros HI Hp Hp' Hcn Hid Hn Hnx Hs He Htk Hc Hw.
  destruct (inv_entry _ _ _ _ _ _ _ _ HI Hp) as (m & Hm & Hph & _ & HL).
  rewrite Hn in Hm. injection Hm as <-.
  eapply inv_place; try done.
  - rewrite queued_app. destruct e; simpl; try done; by rewrite app_nil_r.
  - rewrite dequeued_app. destruct e; simpl; try done; by rewrite app_nil_r.
  - eapply ledger_move; [exact HL|by apply cores_lookup|done|..].
    + intros s Hne. apply (talk_other s (n_s n)); [done|]. by destruct e.
    + intros s. rewrite open_socket_app. by destruct e.
    + simpl. rewrite talk_app, Hph, Htk. by destruct pl'.
    + exact Hc.
    + intros row t v _ _ Hv. cbn [transaction_counter set_heap]. rewrite Hv. f_equal.
      change (weight row t pl' (core n')) with (weight row t pl' n').
      change (weight row t pl (core n)) with (weight row t pl n). rewrite Hw. lia.
    + done.
Qed.

Lemma inv_received c ths l q f a n st t d :
  inv c (Listener (LReceive a) :: ths) l q f → heap c !! a = Some n →
  inv (set_heap (<[a := set_client_data st t d n]> (heap c)) c)
    (Listener (LCount a) :: ths) (l ++ [EReceived (n_s n) t d]) q f.
Proof.
  intros HI Hn. eapply inv_talk; try done.
  - simpl. by rewrite Z.eqb_refl.
  - intros row r. rewrite !weight_uncounted; [done|by intros [|[|]]..].
Qed.

(** A message that did not arrive whole leaves the node with the listener. *)
Lemma inv_not_received c ths l q f a n st t d pc :
  inv c (Listener (LReceive a) :: ths) l q f → heap c !! a = Some n →
  pc = LTop a ∨ pc = LClosed a →
  inv (set_heap (<[a := set_client_data st t d n]> (heap c)) c) (Listener pc :: ths) l q f.
Proof.
  intros HI Hn Hpc. destruct (inv_entry _ _ _ _ _ _ _ _ HI eq_refl) as (m & Hm & Hph & _ & HL).
  rewrite Hn in Hm. injection Hm as <-. rewrite <- (app_nil_r l).
  eapply (inv_place _ _ _ _ _ _ _ _ _ _ PTerminal PTerminal n); try done;
    try (by destruct Hpc as [-> | ->]); rewrite ?app_nil_r; try done.
  rewrite <- (app_nil_r l).
  eapply ledger_move; [exact HL|by apply cores_lookup|done|..]; rewrite ?app_nil_r; try done.
  intros row r v _ _ Hv. cbn [transaction_counter set_heap]. rewrite Hv. f_equal. rewrite !weight_uncounted by (by intros [|[|]]). lia.
Qed.

Lemma inv_processed c ths l q f id a n st d :
  inv c (Worker id (WProcess a) :: ths) l q f → heap c !! a = Some n →
  inv (set_heap (<[a := set_client_data st (n_transaction n) d n]> (heap c)) c)
    (Worker id (WSend a) :: ths)
    (l ++ [EProcessed (n_s n) (n_transaction n) (n_data n) st d]) q f.
Proof.
  intros HI Hn. destruct (inv_entry _ _ _ _ _ _ _ _ HI eq_refl) as (m & Hm & _ & Hc & _).
  rewrite Hn in Hm. injection Hm as <-. eapply inv_talk; try done.
  simpl. by rewrite Z.eqb_refl, bool_decide_true.
Qed.

Lemma inv_sent c ths l q f id a n :
  inv c (Worker id (WSend a) :: ths) l q f → heap c !! a = Some n →
  inv c (Worker id (WFinish a) :: ths)
    (l ++ [ESent (n_s n) (n_status n) (n_transaction n) (n_data n)]) q f.
Proof.
  intros HI Hn. destruct (inv_entry _ _ _ _ _ _ _ _ HI eq_refl) as (m & Hm & _ & Hc & _).
  rewrite Hn in Hm. injection Hm as <-.
  replace c with (set_heap (<[a := n]> (heap c)) c) by (rewrite insert_id by done; by destruct c).
  eapply inv_talk; try done.
  simpl. by rewrite Z.eqb_refl, bool_decide_true.
Qed.

(** ** Semaphores, new and leaving threads *)

Lemma inv_wait_free c ths l q f :
  inv c (Listener LWait :: ths) l q f → 0 < free_count c →
  inv (set_free_count (free_count c - 1) c) (Listener LTake :: ths) l q f.
Proof.
  intros [H1 H2 H3 H4 H5 H6 H7 H8 H9 H10 [H11 H12]] Hf. rewrite !total_cons in *. simpl in *.
  split; simpl; rewrite ?total_cons; simpl; try done; [lia|]. keep_workers H11.
Qed.

Lemma inv_wait_queue c ths l q f id :
  inv c (Worker id WWait :: ths) l q f → 0 < queue_length c →
  inv (set_queue_length (queue_length c - 1) c) (Worker id WPop :: ths) l q f.
Proof.
  intros [H1 H2 H3 H4 H5 H6 H7 H8 H9 H10 [H11 H12]] Hf. rewrite !total_cons in *. simpl in *.
  split; simpl; rewrite ?total_cons; simpl; try done; [lia|]. keep_workers H11.
Qed.

(** A worker counts a transaction. *)
Lemma inv_counted c ths l q f id v now :
  inv c (Worker id WCount :: ths) l q f → worker_count c !! Z.to_nat id = Some v →
  inv (set_worker (<[Z.to_nat id := v + 1]> (worker_count c)) (<[Z.to_nat id := now]> (last_txn c)) c)
    (Worker id WTop :: ths) l q f.
Proof.
  intros [H1 H2 H3 H4 H5 H6 H7 H8 H9 [H10 H10'] [H11 H12]] Hv. rewrite !total_cons in *. simpl in *.
  split; simpl; rewrite ?total_cons, ?length_insert; simpl; try done.
  - rewrite (zsum_insert _ _ _ _ Hv). split; [lia|]. apply Forall_insert; [done|].
    eapply Forall_lookup_1 in H10'; [|done]. simpl in H10'. lia.
  - keep_workers H11.
Qed.

(** A listener ends with its node. *)
Lemma inv_drop c c' th ths l q f a :
  inv c (th :: ths) l q f → thread_place th = Some (a, PTerminal) →
  counts th = (1%nat, 0%nat, 0%nat, 0%nat) → same_lists c c' →
  transaction_counter c' = transaction_counter c →
  (heap c' = heap c ∨ heap c' = delete a (heap c)) → inv c' (Ended :: ths) l q f.
Proof.
  intros HI Hp Hn [] Hc Hh. destruct (inv_entry _ _ _ _ _ _ _ _ HI Hp) as (n & Hna & _ & _ & HL).
  destruct (inv_apart _ _ _ _ _ _ _ _ HI Hp) as (_ & Haq & Haf & _).
  destruct HI as [H1 H2 H3 H4 H5 H6 H7 H8 H9 H10 [H11 H12]].
  unfold counts in Hn. injection Hn as E1 E2 E3 E4.
  assert (∀ b, b ≠ a → heap c' !! b = heap c !! b) as Hne.
  { intros b Hb. destruct Hh as [-> | ->]; [done|]. by rewrite lookup_delete_ne. }
  assert (∀ p k, a ∉ k → chain (heap c) p k → chain (heap c') p k) as Hch.
  { intros p k Hk. apply chain_agree. intros b Hb. rewrite Hne; [done|]. by intros ->. }
  rewrite (places_cons q f th), Hp in H7. simpl in H7.
  split; rewrite ?total_cons, ?E1, ?E2, ?E3, ?E4, ?s_head0, ?s_tail0,
    ?s_length0, ?s_id0, ?s_nhead0, ?s_ntail0, ?s_free0, ?s_mutex0, ?s_count0, ?s_times0, ?Hc
    in *; simpl; try done.
  - eapply fifo_frame; [|done]. intros p. by apply Hch.
  - eapply fifo_frame; [|done]. intros p. by apply Hch.
  - change (places q f (Ended :: ths)) with (places q f ths).
    eapply ledger_drop; [|..|exact HL]; [|done|by intros [|[|]]].
    intros b Hb. unfold cores. by rewrite !lookup_fmap, Hne.
  - change (places q f (Ended :: ths)) with (places q f ths). lia.
  - destruct H8 as (rest & E & Hr). exists rest. split; [done|]. rewrite <- Hr.
    apply list_fmap_ext. intros i b Hb. unfold cores. rewrite !lookup_fmap, Hne; [done|].
    intros <-. apply Haq. by eapply list_elem_of_lookup_2.
  - split; [|done]. by eapply workers_cons; [|exact H11].
Qed.

(** The acceptor has memory for a node, and perhaps a thread for it. *)
Lemma fifo_fresh h hd tl k a n : h !! a = None → fifo h hd tl k → a ∉ k ∧ fifo (<[a := n]> h) hd tl k.
Proof.
  intros Ha [Hc Hl]. assert (a ∉ k) as Hk.
  { intros Hin. destruct (chain_lookup _ _ _ _ Hc Hin). congruence. }
  split; [done|]. split; [by apply chain_insert|done].
Qed.

Lemma inv_memory c ths ths' l l' q f a n :
  inv c (Acceptor ATop :: ths) l q f → heap c !! a = None →
  (queued l' = queued l ∧ dequeued l' = dequeued l) →
  ledger (<[a := core n]> (cores (heap c))) (places q f ths') (transaction_counter c) l' →
  (∀ g, g = is_popping ∨ g = is_taking ∨ g = is_busy → total g ths' = total g ths) →
  total is_listener ths' = Z.of_nat (length (places q f ths')) →
  (∀ m, Forall (worker_ok m) ths → Forall (worker_ok m) ths') →
  inv (set_heap (<[a := n]> (heap c)) c) ths' l' q f.
Proof.
  intros [H1 H2 H3 H4 H5 H6 H7 H8 H9 H10 [H11 H12]] Ha [Hq Hd] HL Htot Hlis Hw.
  destruct (fifo_fresh _ _ _ _ a n Ha H1) as [Haq H1'].
  destruct (fifo_fresh _ _ _ _ a n Ha H2) as [_ H2'].
  apply list.Forall_cons in H11 as [_ H11].
  rewrite !total_cons in *. simpl in *. rewrite !Z.add_0_l in *.
  split; simpl; rewrite ?Hq, ?Hd, ?cores_insert, ?Htot by tauto; try done.
  - destruct H8 as (rest & E & Hr). exists rest. split; [done|]. rewrite <- Hr.
    apply list_fmap_ext. intros i b Hb. apply lookup_insert_ne. intros <-.
    apply Haq. by eapply list_elem_of_lookup_2.
  - split; [by apply Hw|done].
Qed.

Lemma inv_accepted c ths l q f a n :
  inv c (Acceptor ATop :: ths) l q f → heap c !! a = None → open_socket (n_s n) l = false →
  inv (set_heap (<[a := n]> (heap c)) c) (Acceptor APost :: Listener (LTop a) :: ths)
    (l ++ [EAccept (n_s n)]) q f.
Proof.
  intros HI Ha Ho.
  assert (cores (heap c) !! a = None) as Ha' by (unfold cores; by rewrite lookup_fmap, Ha).
  pose proof (ledger_accept _ _ _ _ a (core n) Ha' Ho (i_ledger _ _ _ _ _ HI)) as HL.
  change (places q f (Acceptor ATop :: ths)) with (places q f ths) in HL.
  eapply inv_memory; [exact HI|done| | | | |].
  - by rewrite queued_app, dequeued_app, !app_nil_r.
  - eapply ledger_perm; [|exact HL].
    change (places q f (Acceptor APost :: Listener (LTop a) :: ths))
      with (places q f (Listener (LTop a) :: ths)). by rewrite places_cons.
  - intros g [-> | [-> | ->]]; by rewrite !total_cons.
  - pose proof (i_nodes _ _ _ _ _ HI) as Hn. rewrite !total_cons in *. simpl in *.
    change (places q f (Acceptor APost :: Listener (LTop a) :: ths))
      with (places q f (Listener (LTop a) :: ths)). rewrite places_cons.
    change (places q f (Acceptor ATop :: ths)) with (places q f ths) in Hn. simpl. lia.
  - intros m Hm. by do 2 (apply list.Forall_cons; split; [done|]).
Qed.

(** A node for which no thread was started is never used. *)
Lemma inv_leak c ths l l' q f a n th :
  inv c (Acceptor ATop :: ths) l q f → heap c !! a = None → th = Acceptor ATop ∨ th = Ended →
  (queued l' = queued l ∧ dequeued l' = dequeued l) → (∀ s, talk s l' = talk s l) →
  (∀ s, open_socket s l = true → open_socket s l' = true) →
  inv (set_heap (<[a := n]> (heap c)) c) (th :: ths) l' q f.
Proof.
  intros HI Ha Hth Hq Ht Ho.
  assert (cores (heap c) !! a = None) as Ha' by (unfold cores; by rewrite lookup_fmap, Ha).
  assert (inv (set_heap (<[a := n]> (heap c)) c) (Acceptor ATop :: ths) l' q f) as HI'.
  { eapply inv_memory; try done.
    - by apply (ledger_fresh _ _ _ l l' a (core n) Ha' Ht Ho (i_ledger _ _ _ _ _ HI)).
    - intros g [-> | [-> | ->]]; by rewrite !total_cons.
    - exact (i_nodes _ _ _ _ _ HI).
    - intros m Hm. by apply list.Forall_cons. }
  destruct Hth as [-> | ->]; [done|]. by eapply inv_quiet.
Qed.

(** ** Every step keeps the invariant *)

(** What the threads have left to do before they need the outside: nothing
    gets done twice. *)
Definition work_left (th : thread) : nat :=
  match th with
  | Acceptor ATop => 1
  | Acceptor APost => 2
  | Listener (LTop _) | Listener (LClosed _) => 1
  | Listener (LCount _) => 40
  | Listener (LLink _) => 39
  | Listener LTake => 2
  | Worker _ WTop => 1
  | Worker _ WPop => 21
  | Worker _ (WUnqueue _) => 20
  | Worker _ (WExecute _) => 19
  | Worker _ (WProcess _) => 18
  | Worker _ (WSend _) => 17
  | Worker _ (WFinish _) => 16
  | Worker _ (WRecycle _) => 15
  | Worker _ WCount => 2
  | _ => 0
  end.
Definition work (c : client) (ths : list thread) : Z :=
  22 * queue_length c + 3 * free_count c + total work_left ths.

(** The inputs that are not requests or connections. *)
Definition internal_input (inp : input) : bool :=
  match inp with Nothing | Processed _ _ | Clock _ => true | _ => false end.

(** Threads that will queue a transaction without a new request. *)
Definition is_pending (th : thread) : nat :=
  match th with Listener (LCount _) | Listener (LLink _) => 1 | _ => 0 end.

Definition is_worker (th : thread) : nat := match th with Worker _ _ => 1 | _ => 0 end.

(** What an internal step does to the sizes. *)
Definition settles (c : client) (ths : list thread) (l : list event) (c' : client)
    (ths' : list thread) (l' : list event) : Prop :=
  work c' ths' < work c ths ∧ total is_listener ths' ≤ total is_listener ths ∧
  Z.of_nat (length (queued l')) + total is_pending ths' ≤
    Z.of_nat (length (queued l)) + total is_pending ths ∧
  (exiting c = false → total is_worker ths ≤ total is_worker ths') ∧
  (∀ s t d, EReceived s t d ∈ l' → EReceived s t d ∈ l).
Ltac settle := intros _; unfold settles, work; rewrite ?queued_app, ?length_app, ?total_cons;
  simpl; split_and!;
  [lia|lia|lia|intros ?; first [congruence|lia]|
   intros ? ? ?; rewrite ?elem_of_app, ?list_elem_of_singleton; naive_solver].
(** The semaphores are known from the lists. *)
Ltac settle_inv HI HI' :=
  pose proof (i_qsem _ _ _ _ _ HI); pose proof (i_qsem _ _ _ _ _ HI');
  pose proof (i_fsem _ _ _ _ _ HI); pose proof (i_fsem _ _ _ _ _ HI');
  rewrite !total_cons, ?length_app in *; simpl in *; settle.

Lemma acceptor_inv c c' ths l q f inp pc th' new ev :
  inv c (Acceptor pc :: ths) l q f → input_fits inp l →
  acceptor_step inp pc c = (Done (Some (th', new, ev)), c') →
  inv c' (th' :: new ++ ths) (l ++ ev) q f ∧
  (internal_input inp = true →
   settles c (Acceptor pc :: ths) l c' (th' :: new ++ ths) (l ++ ev)).
Proof.
  intros HI Hfit H. destruct pc as [|]; unfold acceptor_step in H.
  - unfold mbind, prog_bind, getS in H. destruct (exiting c) eqn:Hex.
    { injection H as <- <- <- <-. rewrite app_nil_r. split; [by eapply inv_quiet|settle]. }
    unfold accept_turn in H. destruct inp as [|[[a junk]|] s st| | | | |]; try done.
    unfold mbind, prog_bind, getS, modS in H. case_decide as Hfresh; [done|].
    assert (heap c !! a = None) as Ha by (by apply eq_None_not_Some).
    set (n := Node s _ _ _ _ _) in H. destruct (Z.eqb_spec s (-1)) as [Es|Es].
    { injection H as <- <- <- <-. rewrite app_nil_r. split; [apply (inv_leak c ths l); auto|done]. }
    simpl in Hfit. destruct Hfit as [?|Hopen]; [done|].
    split; [|done]. destruct st; injection H as <- <- <- <-; simpl.
    + change s with (n_s n). by apply inv_accepted.
    + change (l ++ [EAccept s; EClose s]) with (l ++ [EAccept s] ++ [EClose s]).
      rewrite app_assoc. apply (inv_leak c ths l); auto.
      * by rewrite !queued_app, !dequeued_app, !app_nil_r.
      * intros s'. by rewrite !talk_app.
      * intros s' Hs'. rewrite !open_socket_app. simpl.
        destruct (Z.eqb_spec s s') as [<-|]; [congruence|done].
    + apply (inv_leak c ths l); auto.
      * by rewrite queued_app, dequeued_app, !app_nil_r.
      * intros s'. by rewrite talk_app.
      * intros s' Hs'. rewrite open_socket_app. simpl. by destruct (_ =? _).
  - injection H as <- <- <- <-. rewrite app_nil_r. split; [by eapply inv_quiet|settle].
Qed.

(** What a thread finds behind the [sem_wait]. *)
Lemma inv_take_some c ths l q f : inv c (Listener LTake :: ths) l q f → ∃ a f', f = a :: f'.
Proof.
  intros HI. pose proof (i_fsem _ _ _ _ _ HI) as H. rewrite total_cons in H. simpl in H.
  pose proof (total_nonneg is_taking ths). destruct f as [|a f]; [simpl in H; lia|eauto].
Qed.
Lemma inv_pop_some c ths l q f id : inv c (Worker id WPop :: ths) l q f → ∃ a q', q = a :: q'.
Proof.
  intros HI. pose proof (i_qsem _ _ _ _ _ HI) as H. rewrite total_cons in H. simpl in H.
  pose proof (total_nonneg is_popping ths). destruct q as [|a q]; [simpl in H; lia|eauto].
Qed.

Lemma receive_run c a n st t d :
  heap c !! a = Some n →
  receive_into a st t d c =
    (Done (n_s n), set_heap (<[a := set_client_data st t d n]> (heap c)) c).
Proof.
  intros Hn. unfold receive_into. rewrite (bind_done _ _ _ _ _ (load_run _ _ _ Hn)).
  by rewrite (bind_done _ _ _ _ _ (store_run _ _ _ _ Hn)).
Qed.

Lemma listener_inv c c' ths l q f inp pc th' new ev :
  inv c (Listener pc :: ths) l q f →
  listener_step inp pc c = (Done (Some (th', new, ev)), c') →
  (∃ q' f', inv c' (th' :: new ++ ths) (l ++ ev) q' f') ∧
  (internal_input inp = true →
   settles c (Listener pc :: ths) l c' (th' :: new ++ ths) (l ++ ev)).
Proof.
  intros HI H. unfold listener_step in H. rewrite (bind_done getS _ c c c eq_refl) in H.
  destruct pc as [a|a|a|a|a| |].
  - destruct (exiting c) eqn:Hex; injection H as <- <- <- <-; rewrite app_nil_r; (split; [|settle]);
      exists q, f.
    + eapply inv_drop; try done. by left.
    + by eapply inv_quiet.
  - destruct (inv_entry _ _ _ _ _ _ _ _ HI eq_refl) as (n & Hn & _).
    destruct inp as [|?|st t d|st t d|st t d|?|?]; try done; (split; [|done]); exists q, f;
      rewrite (bind_done _ _ _ _ _ (receive_run _ _ _ st t d Hn)) in H;
      injection H as <- <- <- <-; rewrite ?app_nil_r.
    + by apply inv_received.
    + eapply inv_not_received; auto.
    + eapply inv_not_received; auto.
  - destruct (inv_entry _ _ _ _ _ _ _ _ HI eq_refl) as (n & Hn & _).
    destruct (0 <? listener_worker_count c); [|done].
    unfold mbind at 1, prog_bind at 1, modS at 1 in H.
    rewrite (bind_done _ _ _ _ _ (load_run (set_listener_workers _ c) a n Hn)) in H.
    injection H as <- <- <- <-. rewrite app_nil_r. split; [|settle].
    exists q, f. eapply inv_drop; try done. by right.
  - apply bind_inv in H as ([] & c1 & Hc & H). injection H as <- <- <- <-.
    rewrite app_nil_r. split; [exists q, f|].
    2:{ destruct (count_request_done _ _ _ 0 _ Hc) as (? & ? & ? & _ & _ & _ & _ & ->). settle. }
    eapply (inv_count _ _ _ _ _ _ _ _ _ _ _ 0); try done.
    by intros [|[|]].
  - apply bind_inv in H as ([] & c1 & Hl & H).
    assert (transaction_id c < INT_MAX) as Hid.
    { destruct (inv_entry _ _ _ _ _ _ _ _ HI eq_refl) as (n & Hn & _).
      apply Z.nle_gt. intros Hle. destruct (enqueue_link_overflows _ _ _ Hn Hle). congruence. }
    destruct (inv_link _ _ _ _ _ _ HI Hid) as (c2 & n' & Hrun & Hn' & HI').
    rewrite Hrun in Hl. injection Hl as ->.
    rewrite (bind_done _ _ _ _ _ (load_run _ _ _ Hn')) in H. injection H as <- <- <- <-.
    split; [eauto|]. settle_inv HI HI'.
  - destruct (Z.ltb_spec 0 (free_count c)); [|done]. injection H as <- <- <- <-.
    rewrite app_nil_r. split; [eauto using inv_wait_free|settle].
  - rewrite (i_mutex _ _ _ _ _ HI) in H. destruct (inv_take_some _ _ _ _ _ HI) as (a & f' & ->).
    destruct (inv_take _ _ _ _ _ _ HI) as (c1 & Hrun & HI').
    rewrite (bind_done _ _ _ _ _ Hrun) in H. injection H as <- <- <- <-. rewrite app_nil_r.
    split; [eauto|]. settle_inv HI HI'.
Qed.

Lemma worker_inv c c' ths l q f inp id pc th' new ev :
  inv c (Worker id pc :: ths) l q f →
  worker_step inp id pc c = (Done (Some (th', new, ev)), c') →
  (∃ q' f', inv c' (th' :: new ++ ths) (l ++ ev) q' f') ∧
  (internal_input inp = true →
   settles c (Worker id pc :: ths) l c' (th' :: new ++ ths) (l ++ ev)).
Proof.
  intros HI H. unfold worker_step in H. rewrite (bind_done getS _ c c c eq_refl) in H.
  destruct pc as [| | |a|a|a|a|a|a|].
  - destruct (exiting c) eqn:Hex; injection H as <- <- <- <-; rewrite app_nil_r; (split; [|settle]);
      exists q, f; by eapply inv_quiet.
  - destruct (Z.ltb_spec 0 (queue_length c)); [|done]. injection H as <- <- <- <-.
    rewrite app_nil_r. split; [eauto using inv_wait_queue|settle].
  - destruct (inv_pop_some _ _ _ _ _ _ HI) as (a & q' & ->).
    destruct (inv_pop _ _ _ _ _ _ _ HI) as (c1 & n & Hrun & Hn & HI').
    rewrite (bind_done _ _ _ _ _ Hrun), (bind_done _ _ _ _ _ (load_run _ _ _ Hn)) in H.
    injection H as <- <- <- <-. split; [eauto|settle_inv HI HI'].
  - apply bind_inv in H as ([] & c1 & Hc & H). injection H as <- <- <- <-.
    rewrite app_nil_r. split; [exists q, f|].
    + eapply (inv_count _ _ _ _ _ _ _ _ _ _ _ 0); try done. by intros [|[|]].
    + destruct (count_request_done _ _ _ 0 _ Hc) as (? & ? & ? & _ & _ & _ & _ & ->). settle.
  - apply bind_inv in H as ([] & c1 & Hc & H). injection H as <- <- <- <-.
    rewrite app_nil_r. split; [exists q, f|].
    + eapply (inv_count _ _ _ _ _ _ _ _ _ _ _ 1); try done. by intros [|[|]].
    + destruct (count_request_done _ _ _ 1 _ Hc) as (? & ? & ? & _ & _ & _ & _ & ->). settle.
  - destruct (inv_entry _ _ _ _ _ _ _ _ HI eq_refl) as (n & Hn & _).
    destruct inp as [| | | | |st d|]; try done.
    rewrite (bind_done _ _ _ _ _ (load_run _ _ _ Hn)) in H.
    rewrite (bind_done _ _ _ _ _ (store_run _ _ _ _ Hn)) in H. injection H as <- <- <- <-.
    split; [exists q, f; by apply inv_processed|settle].
  - destruct (inv_entry _ _ _ _ _ _ _ _ HI eq_refl) as (n & Hn & _).
    rewrite (bind_done _ _ _ _ _ (load_run _ _ _ Hn)) in H. injection H as <- <- <- <-.
    split; [exists q, f; by apply inv_sent|settle].
  - apply bind_inv in H as ([] & c1 & Hc & H). injection H as <- <- <- <-.
    rewrite app_nil_r. split; [exists q, f|].
    + eapply (inv_count _ _ _ _ _ _ _ _ _ _ _ 1); try done. by intros [|[|]].
    + destruct (count_request_done _ _ _ 1 _ Hc) as (? & ? & ? & _ & _ & _ & _ & ->). settle.
  - rewrite (i_mutex _ _ _ _ _ HI) in H. destruct (inv_recycle _ _ _ _ _ _ _ HI) as (c1 & Hrun & HI').
    rewrite (bind_done _ _ _ _ _ Hrun) in H. injection H as <- <- <- <-. rewrite app_nil_r.
    split; [eauto|settle_inv HI HI'].
  - destruct inp as [| | | | | |now]; try done.
    destruct (i_workers _ _ _ _ _ HI) as [Hw Hlen]. apply list.Forall_cons in Hw as [Hid _].
    simpl in Hid. destruct (arr_get_lookup (F:=fault) (S:=client) _ _ Hid) as (v & Hv & Hget).
    rewrite Hget, bind_ret in H. unfold int_add, int_of in H. destruct (is_int (v + 1)); [|done].
    rewrite bind_ret in H. cbv beta in H. rewrite (arr_set_ok (worker_count c)), bind_ret in H by lia.
    rewrite arr_set_ok, bind_ret in H by lia. injection H as <- <- <- <-. rewrite app_nil_r.
    split; [exists q, f; by apply inv_counted|settle].
Qed.

(** The invariant for the state of the system. *)
Definition good (σ : system) : Prop := ∃ q f, inv (sh σ) (threads σ) (log σ) q f.

Lemma thread_inv c c' ths l q f inp th th' new ev :
  inv c (th :: ths) l q f → input_fits inp l →
  thread_step inp th c = (Done (Some (th', new, ev)), c') →
  (∃ q' f', inv c' (th' :: new ++ ths) (l ++ ev) q' f') ∧
  (internal_input inp = true → settles c (th :: ths) l c' (th' :: new ++ ths) (l ++ ev)).
Proof.
  intros HI Hfit H. destruct th as [pc|pc|id pc|]; simpl in H; [|by eapply listener_inv|by eapply worker_inv|done].
  edestruct acceptor_inv; eauto.
Qed.

(** The threads of a step, the one that takes it in front. *)
Lemma turn_perm (t1 t2 new : list thread) th th' :
  t1 ++ th :: t2 ≡ₚ th :: t1 ++ t2 ∧ th' :: new ++ t1 ++ t2 ≡ₚ t1 ++ th' :: t2 ++ new.
Proof. split; solve_Permutation. Qed.

Lemma step_good σ σ' : step σ σ' → good σ → good σ'.
Proof.
  intros Hst (q & f & HI). destruct Hst as [c c' t1 th t2 th' new ev inp l Hfit H|c ths l]; simpl in *.
  - destruct (turn_perm t1 t2 new th th') as [Hp Hp'].
    apply (inv_perm _ _ _ _ _ _ Hp) in HI.
    destruct (thread_inv _ _ _ _ _ _ _ _ _ _ _ HI Hfit H) as [(q' & f' & HI') _].
    exists q', f'. simpl. by eapply inv_perm.
  - exists q, f. simpl. destruct HI as [? ? ? ? ? ? ? ? ? ? ?]. by split.
Qed.

Lemma start_good n now : good (startup n now).
Proof.
  exists [], []. unfold startup. simpl.
  set (ws := (λ i, Worker i WTop) <$> seqZ 0 (Z.of_nat n)).
  assert (∀ g, (∀ i, g (Worker i WTop) = 0%nat) → total g ws = 0) as Htot.
  { intros g Hg. unfold total, ws. generalize (seqZ 0 (Z.of_nat n)). intros k.
    induction k as [|i k IH]; [done|]. rewrite fmap_cons. simpl. by rewrite Hg. }
  assert (places [] [] (Acceptor ATop :: ws) = []) as Hpl.
  { unfold places, ws. simpl. generalize (seqZ 0 (Z.of_nat n)). by induction l. }
  split; simpl; rewrite ?Hpl, ?total_cons, ?Htot by done; try done.
  - split; simpl; try done.
    + apply NoDup_nil_2.
    + apply NoDup_nil_2.
    + intros [|[|row]] [|[|[|[|[|t]]]]] Hr Ht; try done; lia.
    + intros [|[|row]] [|[|[|[|[|t]]]]]; intros [v Hv]; try done; lia.
  - by exists [].
  - rewrite zsum_replicate_0. split; [done|]. by apply Forall_replicate.
  - rewrite !length_replicate. split; [|done]. apply list.Forall_cons. split; [done|].
    apply list.Forall_forall. intros th (i & -> & Hi%elem_of_seqZ)%list_elem_of_fmap. simpl. lia.
Qed.

Lemma reachable_good n now σ : reachable n now σ → good σ.
Proof. induction 1; [apply start_good|by eapply step_good]. Qed.
