(* ===== verification/Dbt2Correct.v ===== *)
(** * Theorems about the dbt2 client

    The theorems on the threads of Dbt2Client, from the invariant of
    Dbt2Invariant: memory safety, the order of the queue, the counters, the
    conversations with the terminals, and that every request is answered. *)
From Stdlib Require Import ZArith Lia.
From stdpp Require Import base numbers gmap list relations.
From S2P Require Import Prelude Dbt2Queue Dbt2Client Dbt2Ledger Dbt2Invariant.

(** The requests that arrived are of a type that has a counter. *)
Definition requests_valid (l : list event) : Prop :=
  ∀ s t d, EReceived s t d ∈ l → 0 ≤ t < TRANSACTION_MAX.

Lemma talk_asked s l t d : talk s l = Some (Asked t d) → EReceived s t d ∈ l.
Proof.
  induction l as [|e l IH] using rev_ind; [done|]. rewrite talk_app, elem_of_app. intros H.
  destruct e; simpl in H; try (left; by apply IH);
    (destruct (Z.eqb_spec s0 s) as [->|]; [|left; by apply IH]); repeat case_match; try done.
  injection H as <- <-. right. by apply list_elem_of_singleton.
Qed.

Lemma arrived_counter c ths l q f a n :
  inv c (Listener (LCount a) :: ths) l q f → requests_valid l → heap c !! a = Some n →
  has_counter n = true.
Proof.
  intros HI Hv Hn. destruct (inv_entry _ _ _ _ _ _ _ _ HI eq_refl) as (m & Hm & Ht & _).
  rewrite Hn in Hm. injection Hm as <-. apply talk_asked, Hv in Ht. unfold TRANSACTION_MAX in Ht.
  unfold has_counter. apply andb_true_iff. split; [apply Z.leb_le|apply Z.ltb_lt]; lia.
Qed.

(** ** Steps complete

    A step ends, or the thread waits for what [waits] says. *)
Definition waits (inp : input) (c : client) (th : thread) : bool :=
  match th with
  | Acceptor ATop => negb (exiting c)
  | Listener (LReceive _) =>
      match inp with Message _ _ _ | BadMessage _ _ _ | Hangup _ _ _ => false | _ => true end
  | Listener (LClosed _) => listener_worker_count c <=? 0
  | Listener LWait => free_count c <=? 0
  | Worker _ WWait => queue_length c <=? 0
  | Worker _ (WProcess _) => match inp with Processed _ _ => false | _ => true end
  | Worker _ WCount => match inp with Clock _ => false | _ => true end
  | Ended => true
  | _ => false
  end.

Definition completes (m : prog fault client (option turn)) (c : client) (b : bool) : Prop :=
  ∃ r c', m c = (Done r, c') ∧ (r = None → b = true).

Lemma completes_some m c b r c' : m c = (Done (Some r), c') → completes m c b.
Proof. intros H. by exists (Some r), c'. Qed.
Lemma completes_wait c : completes wait c true.
Proof. by exists None, c. Qed.
#[local] Hint Resolve completes_some completes_wait : core.

(** A worker's count has room: it has counted fewer than were dequeued. *)
Lemma worker_count_room c ths l q f id :
  inv c (Worker id WCount :: ths) l q f →
  ∃ v, worker_count c !! Z.to_nat id = Some v ∧
    0 ≤ id < Z.of_nat (length (worker_count c)) ∧ length (last_txn c) = length (worker_count c) ∧
    0 ≤ v < INT_MAX.
Proof.
  intros HI. destruct (i_workers _ _ _ _ _ HI) as [Hw Hlen].
  apply list.Forall_cons in Hw as [Hid _]. simpl in Hid.
  destruct (i_done _ _ _ _ _ HI) as [Hsum Hpos]. rewrite total_cons in Hsum. simpl in Hsum.
  destruct (i_ids _ _ _ _ _ HI) as [Hids Hmax]. apply (f_equal length) in Hids.
  rewrite length_fmap, length_seqZ in Hids.
  destruct (i_order _ _ _ _ _ HI) as (rest & Hq & _). apply (f_equal length) in Hq.
  rewrite length_app in Hq. pose proof (total_nonneg is_busy ths).
  destruct (lookup_lt_is_Some_2 (worker_count c) (Z.to_nat id)) as [v Hv]; [lia|].
  exists v. pose proof (zsum_bound _ _ _ Hpos Hv). eapply Forall_lookup_1 in Hpos; [|done].
  simpl in Hpos. repeat split; try done; lia.
Qed.

Section completion.
Context (c : client) (ths : list thread) (l : list event) (q f : list addr).
Hypothesis Hvalid : requests_valid l.

Lemma count_completes th a pl n (row : nat) d th' b :
  inv c (th :: ths) l q f → total is_listener (th :: ths) ≤ INT_MAX →
  thread_place th = Some (a, pl) → heap c !! a = Some n → has_counter n = true →
  (row < 2)%nat → (d = 1 ∧ in_row row pl = false ∨ d = -1) →
  completes (count_request (Z.of_nat row) d a;; go th') c b.
Proof.
  intros HI Hmax Hp Hn Hc Hrow Hd. rewrite (i_nodes _ _ _ _ _ HI) in Hmax.
  destruct (inv_count_runs _ _ _ _ _ _ _ _ _ row d HI Hp Hn Hc Hrow Hmax Hd) as [c' Hrun].
  eapply completes_some. by rewrite (bind_done _ _ _ _ _ Hrun).
Qed.

Lemma acceptor_completes inp pc :
  (∀ s b, inp ≠ Accepted None s b) →
  completes (acceptor_step inp pc) c (waits inp c (Acceptor pc)).
Proof.
  intros Hmem. destruct pc; unfold acceptor_step; [|by eapply completes_some].
  unfold completes. rewrite (bind_done getS _ c c c eq_refl). simpl.
  destruct (exiting c); [by eapply completes_some|].
  destruct inp as [|[[a junk]|] s st| | | | |]; try apply completes_wait;
    [|by edestruct Hmem].
  simpl. rewrite (bind_done getS _ c c c eq_refl). case_decide; [apply completes_wait|].
  unfold mbind, prog_bind, modS. destruct (s =? -1), st; by eapply completes_some.
Qed.

Lemma listener_completes inp pc :
  inv c (Listener pc :: ths) l q f → total is_listener (Listener pc :: ths) ≤ INT_MAX →
  (∀ a, pc = LLink a → transaction_id c < INT_MAX) →
  completes (listener_step inp pc) c (waits inp c (Listener pc)).
Proof.
  intros HI Hmax Hid. unfold listener_step, completes. rewrite (bind_done getS _ c c c eq_refl).
  destruct pc as [a|a|a|a|a| |]; simpl.
  - destruct (exiting c); by eapply completes_some.
  - destruct (inv_entry _ _ _ _ _ _ _ _ HI eq_refl) as (n & Hn & _).
    destruct inp as [|?|st t d|st t d|st t d|?|?]; try apply completes_wait;
      rewrite (bind_done _ _ _ _ _ (receive_run _ _ _ st t d Hn)); by eapply completes_some.
  - destruct (inv_entry _ _ _ _ _ _ _ _ HI eq_refl) as (n & Hn & _).
    destruct (Z.ltb_spec 0 (listener_worker_count c)).
    + unfold mbind at 1, prog_bind at 1, modS at 1.
      rewrite (bind_done _ _ _ _ _ (load_run (set_listener_workers _ c) a n Hn)).
      by eapply completes_some.
    + rewrite (proj2 (Z.leb_le _ _)) by lia. apply completes_wait.
  - destruct (inv_entry _ _ _ _ _ _ _ _ HI eq_refl) as (n & Hn & _).
    eapply (count_completes _ _ _ _ 0); try done; [by eapply arrived_counter|lia|by left].
  - destruct (inv_link _ _ _ _ _ _ HI (Hid a eq_refl)) as (c2 & n' & Hrun & Hn' & _).
    eapply completes_some. rewrite (bind_done _ _ _ _ _ Hrun).
    by rewrite (bind_done _ _ _ _ _ (load_run _ _ _ Hn')).
  - destruct (Z.ltb_spec 0 (free_count c)); [by eapply completes_some|].
    rewrite (proj2 (Z.leb_le _ _)) by lia. apply completes_wait.
  - rewrite (i_mutex _ _ _ _ _ HI). destruct (inv_take_some _ _ _ _ _ HI) as (a & f' & Hf).
    rewrite Hf in HI. destruct (inv_take _ _ _ _ _ _ HI) as (c1 & Hrun & HI').
    eapply completes_some. by rewrite (bind_done _ _ _ _ _ Hrun).
Qed.

Lemma worker_completes inp id pc :
  inv c (Worker id pc :: ths) l q f → total is_listener (Worker id pc :: ths) ≤ INT_MAX →
  completes (worker_step inp id pc) c (waits inp c (Worker id pc)).
Proof.
  intros HI Hmax. unfold worker_step, completes. rewrite (bind_done getS _ c c c eq_refl).
  destruct pc as [| | |a|a|a|a|a|a|]; simpl.
  - destruct (exiting c); by eapply completes_some.
  - destruct (Z.ltb_spec 0 (queue_length c)); [by eapply completes_some|].
    rewrite (proj2 (Z.leb_le _ _)) by lia. apply completes_wait.
  - destruct (inv_pop_some _ _ _ _ _ _ HI) as (a & q' & Hq). rewrite Hq in HI.
    destruct (inv_pop _ _ _ _ _ _ _ HI) as (c1 & n & Hrun & Hn & HI').
    eapply completes_some. rewrite (bind_done _ _ _ _ _ Hrun).
    by rewrite (bind_done _ _ _ _ _ (load_run _ _ _ Hn)).
  - destruct (inv_entry _ _ _ _ _ _ _ _ HI eq_refl) as (n & Hn & _ & Hc & _).
    eapply (count_completes _ _ _ _ 0); try done; [by apply Hc|lia|by right].
  - destruct (inv_entry _ _ _ _ _ _ _ _ HI eq_refl) as (n & Hn & _ & Hc & _).
    eapply (count_completes _ _ _ _ 1); try done; [by apply Hc|lia|by left].
  - destruct (inv_entry _ _ _ _ _ _ _ _ HI eq_refl) as (n & Hn & _).
    destruct inp as [| | | | |st d|]; try apply completes_wait.
    rewrite (bind_done _ _ _ _ _ (load_run _ _ _ Hn)).
    rewrite (bind_done _ _ _ _ _ (store_run _ _ _ _ Hn)). by eapply completes_some.
  - destruct (inv_entry _ _ _ _ _ _ _ _ HI eq_refl) as (n & Hn & _).
    rewrite (bind_done _ _ _ _ _ (load_run _ _ _ Hn)). by eapply completes_some.
  - destruct (inv_entry _ _ _ _ _ _ _ _ HI eq_refl) as (n & Hn & _ & Hc & _).
    eapply (count_completes _ _ _ _ 1); try done; [by apply Hc|lia|by right].
  - rewrite (i_mutex _ _ _ _ _ HI). destruct (inv_recycle _ _ _ _ _ _ _ HI) as (c1 & Hrun & HI').
    eapply completes_some. by rewrite (bind_done _ _ _ _ _ Hrun).
  - destruct inp as [| | | | | |now]; try apply completes_wait.
    destruct (worker_count_room _ _ _ _ _ _ HI) as (v & Hv & Hid & Hlen & Hroom).
    rewrite (arr_get_ok _ _ v), bind_ret by (done || lia). unfold int_add.
    rewrite int_of_ok, bind_ret by (unfold INT_MIN; lia).
    rewrite (arr_set_ok (worker_count c)), bind_ret by lia.
    rewrite arr_set_ok, bind_ret by lia. by eapply completes_some.
Qed.
End completion.

Lemma thread_completes c th ths l q f inp :
  requests_valid l → inv c (th :: ths) l q f → total is_listener (th :: ths) ≤ INT_MAX →
  (∀ s b, inp ≠ Accepted None s b) →
  (∀ a, th = Listener (LLink a) → transaction_id c < INT_MAX) →
  completes (thread_step inp th) c (waits inp c th).
Proof.
  intros Hv HI Hmax Hmem Hid. destruct th as [pc|pc|id pc|]; simpl.
  - by apply acceptor_completes.
  - eapply listener_completes; eauto. naive_solver.
  - by eapply worker_completes.
  - apply completes_wait.
Qed.

(** A thread of a good state, brought to the front. *)
Lemma good_thread σ th :
  good σ → th ∈ threads σ →
  ∃ t1 t2 q f, threads σ = t1 ++ th :: t2 ∧ inv (sh σ) (th :: t1 ++ t2) (log σ) q f.
Proof.
  intros (q & f & HI) (t1 & t2 & Hth)%list_elem_of_split. exists t1, t2, q, f.
  split; [done|]. eapply inv_perm; [|exact HI]. rewrite Hth. by rewrite Permutation_middle.
Qed.

(** ** The theorems *)


(** C11: The queue is first in, first out: the transactions come out in the order
    in which they went in, numbered 1, 2, 3, ..., and what has not come out is
    exactly what the list from [transaction_head] holds. *)
Theorem queue_is_fifo n now σ :
  reachable n now σ →
  ∃ q rest, fifo (heap (sh σ)) (transaction_head (sh σ)) (transaction_tail (sh σ)) q ∧
    queued (log σ) = dequeued (log σ) ++ rest ∧
    (λ a, core <$> heap (sh σ) !! a) <$> q = Some <$> rest ∧
    n_id <$> queued (log σ) = seqZ 1 (transaction_id (sh σ)).
Proof.
  intros (q & f & HI)%reachable_good. destruct (i_order _ _ _ _ _ HI) as (rest & Hq & Hr).
  exists q, rest. split; [apply (i_queue _ _ _ _ _ HI)|]. split; [done|].
  split; [|apply (i_ids _ _ _ _ _ HI)]. rewrite <- Hr. apply list_fmap_ext. intros i a _.
  unfold cores. by rewrite lookup_fmap.
Qed.

(** C10: Although nodes wander between the threads, every terminal is served in
    turn: at each socket a request is received, processed as it was received, and
    what processing it gave is sent to the same socket, before the next request. *)
Theorem terminals_served n now σ s :
  reachable n now σ → ∃ p, talk s (log σ) = Some p.
Proof.
  intros (q & f & HI)%reachable_good. pose proof (i_ledger _ _ _ _ _ HI) as HL.
  destruct (decide (Some s ∈ socket (cores (heap (sh σ))) <$> places q f (threads σ)))
    as [([a pl] & Hs & Hin)%list_elem_of_fmap|Hno]; [|eauto using l_others].
  pose proof (l_entries _ _ _ _ HL) as HE. eapply list.Forall_forall in HE as (m & Hm & Ht & _); [|done].
  unfold socket in Hs. rewrite Hm in Hs. injection Hs as ->. eauto.
Qed.

(** C39: The driver's integrity check asks for transaction 10.  The listener that
    receives it indexes the counters of the five types with it. *)
Theorem integrity_request_overruns n now σ a st d :
  reachable n now σ → Listener (LReceive a) ∈ threads σ →
  ∃ s c', thread_step (Message st INTEGRITY d) (Listener (LReceive a)) (sh σ) =
      (Done (Some (Listener (LCount a), [], [EReceived s INTEGRITY d])), c') ∧
    thread_step Nothing (Listener (LCount a)) c' = (Leave (Undefined OutOfBounds), c').
Proof.
  intros Hr Hth. apply reachable_good in Hr.
  destruct (good_thread _ _ Hr Hth) as (t1 & t2 & q & f & Heq & HI).
  destruct (inv_entry _ _ _ _ _ _ _ _ HI eq_refl) as (m & Hm & _ & _ & HL).
  eexists (n_s m), _. split.
  - simpl. unfold listener_step. rewrite (bind_done getS _ _ _ _ eq_refl).
    by rewrite (bind_done _ _ _ _ _ (receive_run _ _ _ st INTEGRITY d Hm)).
  - pose proof (l_cells _ _ _ _ HL 0 4 ltac:(lia) ltac:(lia)) as Hc. unfold counter_at in Hc.
    destruct (transaction_counter (sh σ) !! 0%nat) as [r|] eqn:Hr0; [|done].
    assert (r !! 5%nat = None) as H5.
    { apply eq_None_not_Some. intros Hs. destruct (l_shape _ _ _ _ HL 0 5) as [_ ?]; [|lia].
      unfold counter_at. by rewrite Hr0. }
    simpl. unfold listener_step. rewrite (bind_done getS _ _ _ _ eq_refl). apply bind_leave.
    eapply (count_request_overruns _ _ _ 0); [apply lookup_insert_eq|exact Hr0|].
    apply lookup_ge_None in H5. simpl. unfold INTEGRITY. lia.
Qed.

(** ** The counters of the status display *)

Definition of_type (h : gmap addr node) (t : nat) (a : addr) : nat :=
  match h !! a with Some n => if n_transaction n =? Z.of_nat t then 1 else 0 | None => 0 end.
(** Threads between the counter and the list, and the other way round. *)
Definition queued_by (h : gmap addr node) (t : nat) (th : thread) : nat :=
  match th with
  | Listener (LLink a) | Worker _ (WUnqueue a) => of_type h t a
  | _ => 0
  end.
Definition executed_by (h : gmap addr node) (t : nat) (th : thread) : nat :=
  match th with
  | Worker _ (WProcess a) | Worker _ (WSend a) | Worker _ (WFinish a) => of_type h t a
  | _ => 0
  end.

Lemma sum_list_with_fmap {A B} (g : B → nat) (k : A → B) (l : list A) :
  sum_list_with g (k <$> l) = sum_list_with (g ∘ k) l.
Proof. induction l as [|x l IH]; [done|]. simpl. by rewrite <- IH. Qed.
Lemma sum_list_with_omap {A B} (g : B → nat) (k : A → option B) (l : list A) :
  sum_list_with g (omap k l) = sum_list_with (λ x, from_option g 0%nat (k x)) l.
Proof.
  induction l as [|x l IH]; [done|]. simpl. rewrite <- IH. by destruct (k x).
Qed.
Lemma sum_list_with_0 {A} (l : list A) : sum_list_with (λ _, 0%nat) l = 0%nat.
Proof. by induction l. Qed.

Lemma weighs_of_type h row t a pl :
  weighs (cores h) row t (a, pl) = if in_row row pl then of_type h t a else 0%nat.
Proof.
  unfold weighs, of_type, cores. simpl. rewrite lookup_fmap.
  destruct (h !! a); simpl; by destruct (in_row row pl).
Qed.

Lemma tally_places h q f ths row t :
  tally (cores h) (places q f ths) row t =
    ((if in_row row PQueued then sum_list_with (of_type h t) q else 0) +
     sum_list_with (λ th, from_option (weighs (cores h) row t) 0 (thread_place th)) ths)%nat.
Proof.
  unfold tally, places. rewrite !sum_list_with_app, !sum_list_with_fmap, sum_list_with_omap.
  rewrite (sum_list_with_agree (weighs (cores h) row t ∘ λ a, (a, PFree)) (λ _, 0%nat) f).
  2:{ intros a _. simpl. rewrite weighs_of_type. by destruct row as [|[|]]. }
  rewrite sum_list_with_0.
  rewrite (sum_list_with_agree (weighs (cores h) row t ∘ λ a, (a, PQueued))
    (λ a, if in_row row PQueued then of_type h t a else 0%nat) q).
  2:{ intros a _. simpl. apply weighs_of_type. }
  destruct (in_row row PQueued); [done|]. by rewrite sum_list_with_0.
Qed.

(** What the status display shows: the counters hold exactly the transactions
    of their type that are queued and executed, counting a thread from where it
    updates the counter, and the semaphore counts the queue, so that no counter is
    negative and all are zero when nothing is under way. *)
Theorem counters_exact n now σ :
  reachable n now σ →
  ∃ q, fifo (heap (sh σ)) (transaction_head (sh σ)) (transaction_tail (sh σ)) q ∧
    queue_length (sh σ) + total is_popping (threads σ) = Z.of_nat (length q) ∧
    ∀ t, (t < 5)%nat →
      counter_at (transaction_counter (sh σ)) 0 t =
        Some (Z.of_nat (sum_list_with (of_type (heap (sh σ)) t) q) +
              total (queued_by (heap (sh σ)) t) (threads σ)) ∧
      counter_at (transaction_counter (sh σ)) 1 t =
        Some (total (executed_by (heap (sh σ)) t) (threads σ)).
Proof.
  intros (q & f & HI)%reachable_good. exists q. split; [apply (i_queue _ _ _ _ _ HI)|].
  split; [apply (i_qsem _ _ _ _ _ HI)|]. intros t Ht.
  pose proof (i_ledger _ _ _ _ _ HI) as HL. unfold total.
  rewrite (l_cells _ _ _ _ HL 0 t), (l_cells _ _ _ _ HL 1 t), !tally_places by lia. simpl.
  rewrite <- Nat2Z.inj_add. split; do 2 f_equal; [f_equal|]; apply sum_list_with_agree;
    intros [pc|pc|id pc|] _; try done; destruct pc; try done; simpl; by rewrite weighs_of_type.
Qed.

(** ** Every request is answered *)

(** Steps without connections, requests and commands. *)
Inductive internal : system → system → Prop :=
| internal_thread c c' t1 th t2 th' new ev inp l :
    internal_input inp = true →
    thread_step inp th c = (Done (Some (th', new, ev)), c') →
    internal (Sys c (t1 ++ th :: t2) l) (Sys c' (t1 ++ th' :: t2 ++ new) (l ++ ev)).

(** The client runs, with at least one worker and room in the counters. *)
Record running (σ : system) : Prop := {
  r_good : good σ;
  r_going : exiting (sh σ) = false;
  r_worker : 0 < total is_worker (threads σ);
  r_room : total is_listener (threads σ) ≤ INT_MAX;
  r_ids : transaction_id (sh σ) + total is_pending (threads σ) ≤ INT_MAX;
  r_valid : requests_valid (log σ)
}.

Lemma good_id σ : good σ → transaction_id (sh σ) = Z.of_nat (length (queued (log σ))).
Proof.
  intros (q & f & HI). destruct (i_ids _ _ _ _ _ HI) as [Hids Hmax].
  apply (f_equal length) in Hids. rewrite length_fmap, length_seqZ in Hids. lia.
Qed.
Lemma good_work σ : good σ → 0 ≤ work (sh σ) (threads σ).
Proof.
  intros (q & f & HI). pose proof (i_qsem _ _ _ _ _ HI). pose proof (i_fsem _ _ _ _ _ HI).
  unfold work. pose proof (total_nonneg work_left (threads σ)). lia.
Qed.

(** No step but the command changes [exiting]. *)
Lemma keeps_getS {F S} (P : S → Prop) : keeps (F:=F) P getS.
Proof. by intros s H. Qed.
Lemma keeps_modS {F S} (P : S → Prop) (g : S → S) :
  (∀ s, P s → P (g s)) → keeps (F:=F) P (modS g).
Proof. intros Hg s H. by apply Hg. Qed.
#[local] Hint Resolve keeps_getS keeps_modS : keepdb.

Lemma exiting_kept b inp th : keeps (λ c, exiting c = b) (thread_step inp th).
Proof.
  destruct th as [pc|pc|id pc|]; simpl; [destruct pc|destruct pc|destruct pc|];
    unfold acceptor_step, accept_turn, listener_step, worker_step, receive_into, count_request,
      enqueue_link, dequeue_pop, get_node_pop, recycle_node, store, load, go, go_log, wait;
    solve_keeps.
Qed.

Lemma internal_running σ σ' :
  running σ → internal σ σ' →
  running σ' ∧ work (sh σ') (threads σ') < work (sh σ) (threads σ).
Proof.
  intros [Hg He Hw Hr Hi Hv] Hst. pose proof (good_id _ Hg) as Hid.
  assert (good σ') as Hg'.
  { destruct Hst as [c c' t1 th t2 th' new ev inp l Hint H]. eapply step_good; [|done].
    eapply step_thread; [|done]. by destruct inp. }
  pose proof (good_id _ Hg') as Hid'.
  destruct Hst as [c c' t1 th t2 th' new ev inp l Hint H]. simpl in *.
  destruct (turn_perm t1 t2 new th th') as [Hp Hp']. destruct Hg as (q & f & HI). simpl in HI.
  apply (inv_perm _ _ _ _ _ _ Hp) in HI.
  assert (input_fits inp l) as Hfit by (by destruct inp).
  destruct (thread_inv _ _ _ _ _ _ _ _ _ _ _ HI Hfit H) as [_ Hset].
  destruct (Hset Hint) as (S1 & S2 & S3 & S4 & S5). unfold work in *.
  rewrite !(total_perm _ _ _ Hp) in *. rewrite <- !(total_perm _ _ _ Hp') in *.
  pose proof (exiting_kept false inp th c He) as He'. rewrite H in He'. specialize (S4 He).
  split; [|done]. split; simpl; rewrite <- ?(total_perm _ _ _ Hp'); try done; try lia.
  intros s t d Hin. by eapply Hv, S5.
Qed.

(** A thread of a running client that cannot step rests. *)
Definition rests (c : client) (th : thread) : bool :=
  match th with
  | Acceptor ATop | Listener (LReceive _) | Ended => true
  | Listener (LClosed _) => listener_worker_count c <=? 0
  | Listener LWait => free_count c <=? 0
  | Worker _ WWait => queue_length c <=? 0
  | _ => false
  end.

Definition next_input (th : thread) : input :=
  match th with
  | Worker _ (WProcess _) => Processed 0 []
  | Worker _ WCount => Clock 0
  | _ => Nothing
  end.

Lemma settled_rests σ th :
  running σ → nf internal σ → th ∈ threads σ → rests (sh σ) th = true.
Proof.
  intros [Hg He Hw Hr Hi Hv] Hnf Hth.
  destruct (good_thread _ _ Hg Hth) as (t1 & t2 & q & f & Heq & HI).
  rewrite Heq, !(total_perm _ _ _ (proj1 (turn_perm t1 t2 [] th th))) in *.
  edestruct (thread_completes _ _ _ _ _ _ (next_input th) Hv HI Hr) as (r & c' & Hrun & Hwait).
  { by destruct th as [| |? []|]. }
  { intros a ->. rewrite total_cons in Hi. simpl in Hi.
    pose proof (total_nonneg is_pending (t1 ++ t2)). lia. }
  destruct r as [[[th' new] ev]|].
  - exfalso. apply Hnf. destruct σ as [c ths l]. simpl in *. subst ths.
    eexists. eapply internal_thread; [|exact Hrun]. by destruct th as [| |? []|].
  - specialize (Hwait eq_refl). destruct th as [[]|[]|id []|]; simpl in *; try done.
Qed.

Lemma total_rest (g : thread → nat) ths : (∀ th, th ∈ ths → g th = 0%nat) → total g ths = 0.
Proof.
  intros H. unfold total. rewrite (sum_list_with_agree g (λ _, 0%nat)) by done.
  by rewrite sum_list_with_0.
Qed.
Lemma total_worker_in ths : 0 < total is_worker ths → ∃ id pc, Worker id pc ∈ ths.
Proof.
  unfold total. induction ths as [|th ths IH]; simpl; [lia|]. intros H.
  destruct th as [| |id pc|]; simpl in H; [| |exists id, pc; left|];
    destruct IH as (i & p & Hin); try lia; exists i, p; by right.
Qed.

Lemma held_by_listeners c ths :
  (∀ th, th ∈ ths → rests c th = true) →
  Z.of_nat (length (omap thread_place ths)) ≤ total is_listener ths.
Proof.
  induction ths as [|th ths IH]; intros H; [done|]. rewrite total_cons.
  specialize (IH ltac:(intros th' Hth'; apply H; by right)).
  pose proof (H th ltac:(left)) as Hth. simpl.
  destruct th as [|[]|? []|]; simpl in *; try done; unfold omap in IH; lia.
Qed.

Lemma settled_answered σ :
  running σ → nf internal σ →
  (∀ s, talk s (log σ) = Some Idle) ∧ transaction_head (sh σ) = None ∧
  Listener LWait ∉ threads σ.
Proof.
  intros HR Hnf. pose proof HR as [Hg He Hw Hr Hi Hv].
  assert (∀ th, th ∈ threads σ → rests (sh σ) th = true) as Hrest by eauto using settled_rests.
  destruct (total_worker_in _ Hw) as (id & pc & Hin). pose proof (Hrest _ Hin) as Hq0.
  destruct Hg as (q & f & HI). destruct (i_qsem _ _ _ _ _ HI) as [Hq Hqsum].
  destruct (i_fsem _ _ _ _ _ HI) as [Hf Hfsum]. pose proof (i_nodes _ _ _ _ _ HI) as Hnodes.
  rewrite (total_rest is_popping) in Hqsum.
  2:{ intros th Hth%Hrest. by destruct th as [| |? []|]. }
  rewrite (total_rest is_taking) in Hfsum.
  2:{ intros th Hth%Hrest. by destruct th as [|[]| |]. }
  assert (q = []) as ->.
  { apply nil_length_inv. destruct pc; simpl in Hq0; try done. apply Z.leb_le in Hq0. lia. }
  assert (∀ x, x ∈ places [] f (threads σ) → place_phase x.2 = λ _, Idle) as Hidle.
  { intros x. unfold places. simpl. rewrite elem_of_app. intros [Hx|Hx].
    - by apply list_elem_of_fmap in Hx as (a & -> & _).
    - apply list_elem_of_omap in Hx as (th & Hth%Hrest & Hx).
      destruct th as [|[]|? []|]; simpl in *; try done; by injection Hx as <-. }
  split_and!.
  - intros s. pose proof (i_ledger _ _ _ _ _ HI) as HL.
    destruct (decide (Some s ∈ socket (cores (heap (sh σ))) <$> places [] f (threads σ)))
      as [(x & Hs & Hx)%list_elem_of_fmap|Hno]; [|by eapply l_others].
    pose proof (l_entries _ _ _ _ HL) as HE.
    eapply list.Forall_forall in HE as (m & Hm & Ht & _); [|done].
    unfold socket in Hs. rewrite Hm in Hs. injection Hs as ->. by rewrite Ht, Hidle.
  - apply (i_queue _ _ _ _ _ HI).
  - intros Hwait. pose proof (Hrest _ Hwait) as Hf0. simpl in Hf0. apply Z.leb_le in Hf0.
    assert (f = []) as -> by (apply nil_length_inv; lia).
    apply list_elem_of_split in Hwait as (t1 & t2 & Heq). rewrite Heq in *.
    rewrite (total_perm _ _ _ (proj1 (turn_perm t1 t2 [] (Listener LWait) Ended))), total_cons in Hnodes.
    rewrite (places_perm _ _ _ _ (proj1 (turn_perm t1 t2 [] (Listener LWait) Ended))) in Hnodes.
    change (places [] [] (Listener LWait :: t1 ++ t2)) with (omap thread_place (t1 ++ t2)) in Hnodes.
    enough (Z.of_nat (length (omap thread_place (t1 ++ t2))) ≤ total is_listener (t1 ++ t2))
      by (simpl in Hnodes; lia).
    apply (held_by_listeners (sh σ)). intros th Hth. apply Hrest. set_solver.
Qed.


(** ** A run of the client *)

Definition fitsb (inp : input) (l : list event) : bool :=
  match inp with Accepted _ s _ => (s =? -1) || negb (open_socket s l) | _ => true end.

(** Thread [i] takes a step. *)
Definition turn_of (σ : system) (i : nat) (inp : input) : option system :=
  match threads σ !! i with
  | Some th =>
      if fitsb inp (log σ) then
        match thread_step inp th (sh σ) with
        | (Done (Some (th', new, ev)), c') =>
            Some (Sys c' (take i (threads σ) ++ th' :: drop (S i) (threads σ) ++ new) (log σ ++ ev))
        | _ => None
        end
      else None
  | None => None
  end.
Definition schedule (l : list (nat * input)) (σ : system) : option system :=
  foldl (λ r x, match r with Some σ => turn_of σ x.1 x.2 | None => None end) (Some σ) l.

Lemma turn_of_step σ i inp σ' : turn_of σ i inp = Some σ' → step σ σ'.
Proof.
  unfold turn_of. destruct (threads σ !! i) as [th|] eqn:Hth; [|done].
  destruct (fitsb inp (log σ)) eqn:Hfit; [|done].
  destruct (thread_step inp th (sh σ)) as [[[[[th' new] ev]|]|] c'] eqn:Hrun; try done.
  intros [= <-]. destruct σ as [c ths l]. simpl in *.
  rewrite <- (take_drop_middle ths i th Hth) at 1. apply (step_thread _ _ _ _ _ _ _ _ inp); [|done].
  destruct inp; simpl in *; try done. apply orb_true_iff in Hfit as [?%Z.eqb_eq|?%negb_true_iff]; auto.
Qed.

Lemma schedule_reachable n now l σ σ' :
  reachable n now σ → schedule l σ = Some σ' → reachable n now σ'.
Proof.
  intros Hr. revert σ'. induction l as [|[i inp] l IH] using rev_ind; intros σ'; unfold schedule.
  - by intros [= <-].
  - rewrite foldl_app. simpl. fold (schedule l σ). destruct (schedule l σ) as [σ1|] eqn:H1; [|done].
    intros H2. eapply reach_step; [|by eapply turn_of_step]. by apply IH.
Qed.

(** One worker; terminals 5 and 6 connect, both send a request and both are
    queued, the second one first; the worker takes the first transaction. *)
Definition sample_run : list (nat * input) :=
  [(0%nat, Accepted (Some (1%positive, Node 0 0 0 0 [] None)) 5 Started); (0%nat, Nothing);
   (0%nat, Accepted (Some (2%positive, Node 0 0 0 0 [] None)) 6 Started); (0%nat, Nothing);
   (2%nat, Nothing); (2%nat, Message 0 1 [7]); (3%nat, Nothing); (3%nat, Message 0 3 [8]);
   (2%nat, Nothing); (3%nat, Nothing); (3%nat, Nothing); (2%nat, Nothing);
   (1%nat, Nothing); (1%nat, Nothing); (1%nat, Nothing)].
Definition sample : option system := schedule sample_run (startup 1 0).

Example sample_state :
  (λ σ, (threads σ, queued (log σ), dequeued (log σ))) <$> sample =
  Some ([Acceptor ATop; Worker 0 (WUnqueue 2); Listener LWait; Listener LWait],
    [Node 6 1 0 3 [8] None; Node 5 2 0 1 [7] None], [Node 6 1 0 3 [8] None]).
Proof. vm_compute. reflexivity. Qed.

(** The system a schedule leads to. *)
Definition after (l : list (nat * input)) : system :=
  default (startup 1 0) (schedule l (startup 1 0)).
Lemma after_reachable l : reachable 1 0 (after l).
Proof.
  unfold after. destruct (schedule l (startup 1 0)) as [σ|] eqn:H; [|apply reach_start].
  eapply schedule_reachable; [apply reach_start|done].
Qed.

Lemma sample_valid : requests_valid (log (after sample_run)).
Proof.
  assert (log (after sample_run) = [EAccept 5; EAccept 6; EReceived 5 1 [7]; EReceived 6 3 [8];
    EQueued (Node 6 1 0 3 [8] None); EQueued (Node 5 2 0 1 [7] None);
    EDequeued (Node 6 1 0 3 [8] None)]) as -> by (vm_compute; reflexivity).
  intros s t d Hin. rewrite !elem_of_cons in Hin. unfold TRANSACTION_MAX.
  destruct_or! Hin; try done; try (injection Hin as -> -> ->; lia). by apply elem_of_nil in Hin.
Qed.


Lemma queue_is_fifo_witness :
  ∃ q rest, fifo (heap (sh (after sample_run))) (transaction_head (sh (after sample_run)))
      (transaction_tail (sh (after sample_run))) q ∧
    queued (log (after sample_run)) = dequeued (log (after sample_run)) ++ rest ∧
    (λ a, core <$> heap (sh (after sample_run)) !! a) <$> q = Some <$> rest ∧
    n_id <$> queued (log (after sample_run)) = seqZ 1 (transaction_id (sh (after sample_run))).
Proof. apply (queue_is_fifo 1 0), after_reachable. Defined.

Lemma terminals_served_witness : ∃ p, talk 6 (log (after sample_run)) = Some p.
Proof. apply (terminals_served 1 0), after_reachable. Defined.

Lemma integrity_request_overruns_witness :
  ∃ s c', thread_step (Message 0 INTEGRITY [9]) (Listener (LReceive 1))
        (sh (after (take 5 sample_run))) =
      (Done (Some (Listener (LCount 1), [], [EReceived s INTEGRITY [9]])), c') ∧
    thread_step Nothing (Listener (LCount 1)) c' = (Leave (Undefined OutOfBounds), c').
Proof.
  apply (integrity_request_overruns 1 0 (after (take 5 sample_run))).
  - apply after_reachable.
  - vm_compute. do 2 right. left.
Defined.

Lemma counters_exact_witness :
  ∃ q, fifo (heap (sh (after sample_run))) (transaction_head (sh (after sample_run)))
      (transaction_tail (sh (after sample_run))) q ∧
    queue_length (sh (after sample_run)) + total is_popping (threads (after sample_run)) =
      Z.of_nat (length q) ∧
    ∀ t, (t < 5)%nat →
      counter_at (transaction_counter (sh (after sample_run))) 0 t =
        Some (Z.of_nat (sum_list_with (of_type (heap (sh (after sample_run))) t) q) +
              total (queued_by (heap (sh (after sample_run))) t) (threads (after sample_run))) ∧
      counter_at (transaction_counter (sh (after sample_run))) 1 t =
        Some (total (executed_by (heap (sh (after sample_run))) t) (threads (after sample_run))).
Proof. apply (counters_exact 1 0), after_reachable. Defined.

