(* ===== verification/Dbt2Socket.v ===== *)
(** * Sending and receiving whole structures: _socket.c, client_interface.c

    [recv] and [send] move part of what they are asked for: what arrives at a
    socket comes in pieces ([arrival]), and the network takes pieces of any size
    of what is sent ([offer]).  [_receive] and [_send] loop over them. *)
From Stdlib Require Import ZArith Lia.
From stdpp Require Import base numbers gmap list.
From S2P Require Import Prelude Dbt2Queue.

(** ** The calls of the C library *)

Inductive arrival :=
| Piece (b : bytes)      (* bytes that arrive together; the end of the list is the end of input *)
| Reset.                 (* an error *)

Record sock := Sock {
  incoming : list arrival;
  offers : list (option Z);   (* how much the next calls of send take; None: an error *)
  outgoing : bytes            (* what was sent *)
}.

(** [recv(s, data, remaining, 0)]: the result and the bytes. *)
Definition recv (remaining : Z) : prog fault sock (Z * bytes) :=
  k ← getS;
  match incoming k with
  | [] => mret (0, [])
  | Reset :: r => putS (Sock r (offers k) (outgoing k));; mret (-1, [])
  | Piece b :: r =>
      let got := take (Z.to_nat remaining) b in
      let left := drop (Z.to_nat remaining) b in
      putS (Sock (match left with [] => r | _ => Piece left :: r end) (offers k) (outgoing k));;
      mret (Z.of_nat (length got), got)
  end.

(** [send(s, data, remaining, 0)]; without an offer everything is taken. *)
Definition send (data : bytes) (remaining : Z) : prog fault sock Z :=
  k ← getS;
  match offers k with
  | None :: r => putS (Sock (incoming k) r (outgoing k));; mret (-1)
  | Some n :: r =>
      let m := Z.min (Z.max 1 n) remaining in
      putS (Sock (incoming k) r (outgoing k ++ take (Z.to_nat m) data));; mret m
  | [] =>
      putS (Sock (incoming k) [] (outgoing k ++ take (Z.to_nat remaining) data));;
      mret remaining
  end.

(** ** The loops *)

(** [_receive]; [data] is what was received so far. *)
Fixpoint receive_loop (fuel : nat) (length total remaining : Z) (data : bytes)
  : prog fault sock (Z * bytes) :=
  match fuel with
  | O => leave OutOfFuel
  | S fuel =>
      x ← recv remaining;
      let '(received, got) := x in
      if received =? -1 then mret (-1, data)
      else if received =? 0 then mret (0, data)
      else
        let total := total + received in
        let data := data ++ got in
        let remaining := remaining - received in
        if negb (total =? length) then receive_loop fuel length total remaining data
        else mret (total, data)
  end.
Definition _receive (fuel : nat) (length : Z) : prog fault sock (Z * bytes) :=
  receive_loop fuel length 0 length [].

(** [_send]; the loop compares the last piece with the whole length. *)
Fixpoint send_loop (fuel : nat) (length remaining : Z) (data : bytes) : prog fault sock Z :=
  match fuel with
  | O => leave OutOfFuel
  | S fuel =>
      sent ← send data remaining;
      if sent =? -1 then mret (-1)
      else if sent =? 0 then mret 0
      else
        let data := drop (Z.to_nat sent) data in
        let remaining := remaining - sent in
        if negb (sent =? length) then send_loop fuel length remaining data
        else mret sent
  end.
Definition _send (fuel : nat) (data : bytes) (length : Z) : prog fault sock Z :=
  send_loop fuel length length data.

Definition ERROR : Z := 0.
Definition ERROR_SOCKET_CLOSED : Z := 3.

(** [receive_transaction_data] and [send_transaction_data] for a structure of
    [size] bytes. *)
Definition receive_transaction_data (fuel : nat) (size : Z) : prog fault sock (Z * bytes) :=
  x ← _receive fuel size;
  let '(length, data) := x in
  if length =? -1 then mret (ERROR, data)
  else if length =? 0 then mret (ERROR_SOCKET_CLOSED, data)
  else if negb (length =? size) then mret (ERROR, data)
  else mret (length, data).

Definition send_transaction_data (fuel : nat) (size : Z) (data : bytes) : prog fault sock Z :=
  length ← _send fuel data size;
  if length =? -1 then mret ERROR
  else if length =? 0 then mret ERROR_SOCKET_CLOSED
  else if negb (length =? size) then mret ERROR
  else mret length.

(** ** Receiving *)

(** Pieces that hold the bytes [b]. *)
Definition pieces (l : list bytes) (k : sock) : Prop :=
  incoming k = Piece <$> l ∧ Forall (λ p, p ≠ []) l.

Lemma recv_piece k p l n :
  pieces (p :: l) k → 0 < n →
  ∃ k' l', recv n k = (Done (Z.of_nat (length (take (Z.to_nat n) p)), take (Z.to_nat n) p), k') ∧
    pieces l' k' ∧ concat l' = drop (Z.to_nat n) p ++ concat l ∧
    outgoing k' = outgoing k ∧ offers k' = offers k.
Proof.
  intros [Hin Hne] Hn. apply list.Forall_cons in Hne as [Hp Hne].
  unfold recv. rewrite (bind_done getS _ k k k eq_refl), Hin. simpl.
  destruct (drop (Z.to_nat n) p) as [|x r] eqn:Hd.
  - eexists _, l. by split_and!.
  - eexists _, ((x :: r) :: l). split_and!; try done. split; [done|]. by apply list.Forall_cons.
Qed.

Lemma receive_loop_run fuel size total remaining data l k :
  pieces l k → 0 < remaining ≤ Z.of_nat (length (concat l)) → size = total + remaining →
  (Z.to_nat remaining ≤ fuel)%nat →
  ∃ k' l', receive_loop fuel size total remaining data k =
      (Done (size, data ++ take (Z.to_nat remaining) (concat l)), k') ∧
    pieces l' k' ∧ concat l' = drop (Z.to_nat remaining) (concat l) ∧
    outgoing k' = outgoing k ∧ offers k' = offers k.
Proof.
  revert total remaining data l k. induction fuel as [|fuel IH];
    intros total remaining data l k Hp Hr Hsize Hfuel; [lia|].
  destruct l as [|p l]; [simpl in Hr; lia|]. simpl in Hr. rewrite length_app in Hr.
  destruct (recv_piece k p l remaining Hp) as (k1 & l1 & Hrecv & Hp1 & Hc1 & Ho1 & Hf1); [lia|].
  pose proof (proj1 (proj1 (list.Forall_cons _ _ _) (proj2 Hp))) as Hne.
  assert (0 < Z.of_nat (length p)) as Hlp by (destruct p; simpl in *; [done|lia]).
  set (n := Z.to_nat remaining) in *. rewrite length_take in Hrecv.
  set (m := Z.of_nat (n `min` length p)) in *.
  assert (0 < m ≤ remaining) as Hm by lia.
  simpl. rewrite (bind_done _ _ _ _ _ Hrecv).
  rewrite (proj2 (Z.eqb_neq m (-1))), (proj2 (Z.eqb_neq m 0)) by lia.
  destruct (Z.eqb_spec (total + m) size) as [E|E]; simpl.
  - exists k1, l1. assert (n ≤ length p)%nat as Hle by lia.
    rewrite E, take_app_le, drop_app_le by lia. done.
  - assert (length p < n)%nat as Hlt by lia.
    assert (m = Z.of_nat (length p)) as Hmp by lia.
    rewrite take_ge, drop_ge in * by lia. simpl in Hc1.
    destruct (IH (total + m) (remaining - m) (data ++ p) l1 k1) as (k2 & l2 & Hrun & H2);
      [done|rewrite Hc1; lia|lia|lia|].
    exists k2, l2. rewrite Hrun, Hc1 in *. destruct H2 as (Hp2 & Hc2 & Ho2 & Hf2).
    replace n with (length p + Z.to_nat (remaining - m))%nat by lia.
    rewrite take_app_add, drop_app_add, app_assoc, Ho2, Hf2. done.
Qed.

(** ** Sending *)

Lemma send_once k data n :
  Forall is_Some (offers k) → 0 ≤ n →
  ∃ m k', send data n k = (Done m, k') ∧ Forall is_Some (offers k') ∧
    outgoing k' = outgoing k ++ take (Z.to_nat m) data ∧
    (n = 0 → m = 0) ∧ (0 < n → 0 < m ≤ n) ∧ (offers k = [] → m = n) ∧
    (∀ x r, offers k = Some x :: r → m = Z.min (Z.max 1 x) n).
Proof.
  intros Ho Hn. unfold send. rewrite (bind_done getS _ k k k eq_refl).
  destruct (offers k) as [|[x|] r].
  - eexists _, _. split_and!; try done; lia.
  - apply list.Forall_cons in Ho as [_ Ho]. eexists _, _. split_and!; try done; try lia.
    intros x' r' [= <- <-]. done.
  - apply list.Forall_cons in Ho as [[? [=]] _].
Qed.

(** Once a piece was sent, the loop runs on until there is nothing left to send. *)
Lemma send_loop_partial fuel size data k :
  Forall is_Some (offers k) → Z.of_nat (length data) < size → (length data < fuel)%nat →
  ∃ k', send_loop fuel size (Z.of_nat (length data)) data k = (Done 0, k') ∧
    outgoing k' = outgoing k ++ data.
Proof.
  revert data k. induction fuel as [|fuel IH]; intros data k Ho Hlt Hfuel; [lia|].
  destruct (send_once k data (Z.of_nat (length data)) Ho) as
    (m & k1 & Hs & Ho1 & Hout & H0 & Hpos & _); [lia|].
  cbn [send_loop]. rewrite (bind_done _ _ _ _ _ Hs). destruct data as [|b data].
  - rewrite H0 in * by done. exists k1. by rewrite Hout.
  - assert (0 < m ≤ Z.of_nat (length (b :: data))) as Hm by (apply Hpos; simpl; lia).
    rewrite (proj2 (Z.eqb_neq m (-1))), (proj2 (Z.eqb_neq m 0)), (proj2 (Z.eqb_neq m size)) by lia.
    cbn [negb]. set (rest := drop (Z.to_nat m) (b :: data)).
    assert (length rest = length (b :: data) - Z.to_nat m)%nat as Hrest by apply length_drop.
    replace (Z.of_nat (length (b :: data)) - m) with (Z.of_nat (length rest)) by lia.
    destruct (IH rest k1 Ho1) as (k2 & Hrun & Hout2); [lia|lia|].
    exists k2. split; [done|]. rewrite Hout2, Hout, <- app_assoc. unfold rest. by rewrite take_drop.
Qed.

(** C38: A structure that the network takes in one piece arrives as it was sent,
    in however many pieces it arrives, and what follows it is left for the next
    call. *)
Theorem structure_roundtrip size data k k2 l more :
  Z.of_nat (length data) = size → 0 < size →
  (offers k = [] ∨ ∃ n r, offers k = Some n :: r ∧ size ≤ n) → Forall is_Some (offers k) →
  pieces l k2 → concat l = data ++ more →
  ∃ k' k2' l', send_transaction_data (S (length data)) size data k = (Done size, k') ∧
    outgoing k' = outgoing k ++ data ∧
    receive_transaction_data (length data) size k2 = (Done (size, data), k2') ∧
    pieces l' k2' ∧ concat l' = more.
Proof.
  intros Hsize Hpos Hoff Hall Hp Hc.
  destruct (send_once k data size Hall) as (m & k1 & Hs & _ & Hout & _ & _ & Hall1 & Hfirst); [lia|].
  assert (m = size) as ->.
  { destruct Hoff as [Hnil|(n & r & Hn & Hle)]; [by apply Hall1|]. rewrite (Hfirst n r Hn). lia. }
  destruct (receive_loop_run (length data) size 0 size [] l k2 Hp) as
    (k3 & l3 & Hrun & Hp3 & Hc3 & _); [rewrite Hc, length_app; lia|lia|lia|].
  rewrite <- Hsize, Nat2Z.id in *. exists k1, k3, l3. split_and!.
  - unfold send_transaction_data, _send. cbn [send_loop].
    erewrite bind_done.
    2:{ rewrite (bind_done _ _ _ _ _ Hs).
        rewrite (proj2 (Z.eqb_neq _ (-1))), (proj2 (Z.eqb_neq _ 0)), Z.eqb_refl by lia. done. }
    rewrite (proj2 (Z.eqb_neq _ (-1))), (proj2 (Z.eqb_neq _ 0)), Z.eqb_refl by lia. done.
  - by rewrite Hout, take_ge.
  - unfold receive_transaction_data, _receive. rewrite (bind_done _ _ _ _ _ Hrun).
    rewrite (proj2 (Z.eqb_neq _ (-1))), (proj2 (Z.eqb_neq _ 0)), Z.eqb_refl by lia.
    simpl. by rewrite Hc, take_app_length.
  - done.
  - by rewrite Hc3, Hc, drop_app_length.
Qed.

(** When the network takes only a part of the structure at first, the whole
    structure is sent, and the sender is told that the socket was closed: the loop
    compares the size of the last piece with the size of the structure. *)
Theorem partial_send_reports_closed size data k n r :
  Z.of_nat (length data) = size → offers k = Some n :: r → n < size → 1 < size →
  Forall is_Some (offers k) →
  ∃ k', send_transaction_data (S (length data)) size data k = (Done ERROR_SOCKET_CLOSED, k') ∧
    outgoing k' = outgoing k ++ data.
Proof.
  intros Hsize Hoff Hn Hpos Hall.
  destruct (send_once k data size Hall) as (m & k1 & Hs & Ho1 & Hout & _ & Hm & _ & Hfirst); [lia|].
  specialize (Hfirst n r Hoff). set (rest := drop (Z.to_nat m) data).
  assert (length rest = length data - Z.to_nat m)%nat as Hrest by apply length_drop.
  destruct (send_loop_partial (length data) size rest k1 Ho1) as (k2 & Hrun & Hout2); [lia|lia|].
  exists k2. split.
  - unfold send_transaction_data, _send. cbn [send_loop]. erewrite bind_done.
    2:{ rewrite (bind_done _ _ _ _ _ Hs).
        rewrite (proj2 (Z.eqb_neq m (-1))), (proj2 (Z.eqb_neq m 0)), (proj2 (Z.eqb_neq m size)) by lia.
        cbn [negb]. replace (size - m) with (Z.of_nat (length rest)) by lia. exact Hrun. }
    done.
  - rewrite Hout2, Hout, <- app_assoc. unfold rest. by rewrite take_drop.
Qed.

Lemma structure_roundtrip_witness :
  ∃ k' k2' l',
    send_transaction_data 4 3 [1; 2; 3] (Sock [] [Some 10] []) = (Done 3, k') ∧
    outgoing k' = [] ++ [1; 2; 3] ∧
    receive_transaction_data 3 3 (Sock [Piece [1]; Piece [2; 3; 4]] [] []) =
      (Done (3, [1; 2; 3]), k2') ∧ pieces l' k2' ∧ concat l' = [4].
Proof.
  apply (structure_roundtrip 3 [1; 2; 3] (Sock [] [Some 10] [])
    (Sock [Piece [1]; Piece [2; 3; 4]] [] []) [[1]; [2; 3; 4]] [4]).
  - reflexivity.
  - lia.
  - right. exists 10, []. split; [reflexivity|lia].
  - repeat constructor. by eexists.
  - split; [reflexivity|]. by repeat constructor.
  - reflexivity.
Defined.

Lemma partial_send_reports_closed_witness :
  ∃ k', send_transaction_data 4 3 [1; 2; 3] (Sock [] [Some 2] []) =
      (Done ERROR_SOCKET_CLOSED, k') ∧ outgoing k' = [] ++ [1; 2; 3].
Proof.
  apply (partial_send_reports_closed 3 [1; 2; 3] (Sock [] [Some 2] []) 2 []).
  - reflexivity.
  - reflexivity.
  - lia.
  - lia.
  - repeat constructor. by eexists.
Defined.
