(* ===== verification/SysbenchTimer.v ===== *)
(** * sysbench: timers (sb_timer.c, sb_timer.h)

    A timer measures events and keeps their number, sum, least and greatest time
    in 64 bit unsigned nanoseconds.  The clock a call reads is its argument
    [now]; warnings are not modelled.  [queue_time] is set by the event loop of
    sysbench.c. *)
From Stdlib Require Import ZArith Lia.
From stdpp Require Import base numbers list.
From S2P Require Import Prelude.

(** ** Data *)

Record timespec := Timespec { tv_sec : Z; tv_nsec : Z }.

Inductive timer_state := TIMER_UNINITIALIZED | TIMER_INITIALIZED | TIMER_STOPPED | TIMER_RUNNING.

Record timer := Timer {
  time_start : timespec; time_end : timespec; time_split : timespec;
  elapsed : Z; min_time : Z; max_time : Z; sum_time : Z; events : Z; queue_time : Z;
  state : timer_state
}.

Abbreviation tprog := (prog fault timer).

Definition NS : Z := 1000000000.
Definition ULLONG_MAX : Z := 2 ^ 64 - 1.

(** The difference of the seconds is signed, the rest unsigned. *)
Definition TIMESPEC_DIFF (a b : timespec) : Z :=
  u64 (u64 ((tv_sec a - tv_sec b) * NS) + (tv_nsec a - tv_nsec b)).

Definition t_zero : timespec := Timespec 0 0.

(** ** Operations *)

Definition sb_timer_reset : tprog unit :=
  modS (λ t, Timer (time_start t) (time_end t) (time_split t) 0 ULLONG_MAX 0 0 0 0 (state t)).

Definition sb_timer_init : tprog unit :=
  modS (λ t, Timer t_zero t_zero t_zero (elapsed t) (min_time t) (max_time t) (sum_time t)
               (events t) (queue_time t) (state t));;
  sb_timer_reset;;
  modS (λ t, Timer (time_start t) (time_end t) (time_split t) (elapsed t) (min_time t)
               (max_time t) (sum_time t) (events t) (queue_time t) TIMER_INITIALIZED).

Definition sb_timer_initialized (t : timer) : bool :=
  match state t with TIMER_UNINITIALIZED => false | _ => true end.
Definition sb_timer_running (t : timer) : bool :=
  match state t with TIMER_RUNNING => true | _ => false end.

Definition sb_timer_start (now : timespec) : tprog unit :=
  t ← getS;
  match state t with
  | TIMER_UNINITIALIZED => leave Abort
  | _ => modS (λ t, Timer now (time_end t) now (elapsed t) (min_time t) (max_time t)
                      (sum_time t) (events t) (queue_time t) TIMER_RUNNING)
  end.

Definition sb_timer_update (now : timespec) : tprog unit :=
  modS (λ t, Timer (time_start t) now (time_split t)
               (u64 (TIMESPEC_DIFF now (time_start t) + queue_time t)) (min_time t) (max_time t)
               (sum_time t) (events t) (queue_time t) (state t)).

Definition sb_timer_stop (now : timespec) : tprog unit :=
  t ← getS;
  match state t with
  | TIMER_UNINITIALIZED => leave Abort
  | _ =>
      sb_timer_update now;;
      modS (λ t,
        Timer (time_start t) (time_end t) (time_split t) (elapsed t)
          (if elapsed t <? min_time t then elapsed t else min_time t)
          (if max_time t <? elapsed t then elapsed t else max_time t)
          (u64 (sum_time t + elapsed t)) (u64 (events t + 1)) (queue_time t) TIMER_STOPPED)
  end.

Definition sb_timer_value (now : timespec) : tprog Z :=
  t ← getS;
  match state t with
  | TIMER_UNINITIALIZED => leave Abort
  | TIMER_INITIALIZED => mret 0
  | TIMER_STOPPED => mret (elapsed t)
  | TIMER_RUNNING => sb_timer_update now;; readS elapsed
  end.

Definition set_split (s : timespec) (t : timer) : timer :=
  Timer (time_start t) (time_end t) s (elapsed t) (min_time t) (max_time t) (sum_time t)
    (events t) (queue_time t) (state t).
Definition set_elapsed (e : Z) (t : timer) : timer :=
  Timer (time_start t) (time_end t) (time_split t) e (min_time t) (max_time t) (sum_time t)
    (events t) (queue_time t) (state t).
Definition set_queue_time (q : Z) (t : timer) : timer :=
  Timer (time_start t) (time_end t) (time_split t) (elapsed t) (min_time t) (max_time t)
    (sum_time t) (events t) q (state t).

Definition sb_timer_split (now : timespec) : tprog Z :=
  t ← getS;
  match state t with
  | TIMER_UNINITIALIZED => leave Abort
  | TIMER_INITIALIZED => mret 0
  | TIMER_STOPPED =>
      let res := TIMESPEC_DIFF (time_end t) (time_split t) in
      modS (set_split (time_end t));;
      mret res
  | TIMER_RUNNING =>
      modS (set_elapsed (TIMESPEC_DIFF now (time_start t)));;
      let res := TIMESPEC_DIFF now (time_split t) in
      modS (set_split now);;
      mret res
  end.

Definition get_avg_time (t : timer) : Z := if events t =? 0 then 0 else sum_time t / events t.

Definition merge_timers (t1 t2 : timer) : timer :=
  Timer t_zero t_zero t_zero
    (u64 (elapsed t1 + elapsed t2))
    (if min_time t1 <? min_time t2 then min_time t1 else min_time t2)
    (if max_time t2 <? max_time t1 then max_time t1 else max_time t2)
    (u64 (sum_time t1 + sum_time t2)) (u64 (events t1 + events t2)) 0 TIMER_UNINITIALIZED.

(** [long] and [long long] arithmetic. *)
Definition i64_of {S} (z : Z) : prog fault S Z :=
  if (- 2 ^ 63 <=? z) && (z <? 2 ^ 63) then mret z else leave (Undefined SignedOverflow).

(** The nanoseconds and the seconds they carry; C truncates. *)
Definition add_ns_to_timespec (delta : Z) : prog fault timespec unit :=
  dest ← getS;
  x ← i64_of (tv_nsec dest + delta);
  if NS <? x then
    sec ← i64_of (tv_sec dest + Z.quot x NS);
    putS (Timespec sec (Z.rem x NS))
  else if x <? 0 then
    sec ← i64_of (tv_sec dest - 1);
    sec ← i64_of (sec + Z.quot x NS);
    putS (Timespec sec (Z.rem x NS + NS))
  else putS (Timespec (tv_sec dest) x).

(** ** What a timer stands for

    The times of the events it measured. *)
Definition summary (l : list Z) (t : timer) : Prop :=
  events t = u64 (Z.of_nat (length l)) ∧ sum_time t = u64 (zsum l) ∧
  min_time t = foldr Z.min ULLONG_MAX l ∧ max_time t = foldr Z.max 0 l.

(** The uses of a timer between two resets. *)
Inductive timer_op :=
| OpStart (now : timespec)
| OpStop (now : timespec)
| OpValue (now : timespec)
| OpSplit (now : timespec)
| OpQueued (ns : Z).   (* sysbench.c: the time the event waited in the queue *)

Definition timer_do (o : timer_op) : tprog unit :=
  match o with
  | OpStart now => sb_timer_start now
  | OpStop now => sb_timer_stop now
  | OpValue now => sb_timer_value now;; mret tt
  | OpSplit now => sb_timer_split now;; mret tt
  | OpQueued ns => modS (set_queue_time (u64 ns))
  end.
Fixpoint timer_run (l : list timer_op) : tprog unit :=
  match l with
  | [] => mret tt
  | o :: l => timer_do o;; timer_run l
  end.

(** The times of the events: from the last start to the stop, with the time in
    the queue. *)
Fixpoint event_times (start : timespec) (queued : Z) (l : list timer_op) : list Z :=
  match l with
  | [] => []
  | OpStart now :: l => event_times now queued l
  | OpStop now :: l => u64 (TIMESPEC_DIFF now start + queued) :: event_times start queued l
  | OpQueued ns :: l => event_times start (u64 ns) l
  | _ :: l => event_times start queued l
  end.

(** ** Lemmas *)

Lemma u64_range z : 0 ≤ u64 z < 2 ^ 64.
Proof. unfold u64. apply Z.mod_pos_bound. done. Qed.
Lemma u64_id z : 0 ≤ z < 2 ^ 64 → u64 z = z.
Proof. intros H. unfold u64. by rewrite Z.mod_small. Qed.
Lemma u64_add_l a b : u64 (u64 a + b) = u64 (a + b).
Proof. unfold u64. by rewrite Zplus_mod_idemp_l. Qed.
Lemma u64_add_r a b : u64 (a + u64 b) = u64 (a + b).
Proof. unfold u64. by rewrite Zplus_mod_idemp_r. Qed.

Lemma fold_min_app l k :
  Forall (λ x, 0 ≤ x ≤ ULLONG_MAX) l →
  foldr Z.min ULLONG_MAX (l ++ k) = Z.min (foldr Z.min ULLONG_MAX l) (foldr Z.min ULLONG_MAX k).
Proof.
  intros Hl. rewrite foldr_app. induction Hl as [|x l Hx Hl IH]; simpl.
  - assert (foldr Z.min ULLONG_MAX k ≤ ULLONG_MAX); [|lia]. induction k; simpl; lia.
  - rewrite IH. lia.
Qed.
Lemma fold_max_app l k :
  Forall (λ x, 0 ≤ x ≤ ULLONG_MAX) l →
  foldr Z.max 0 (l ++ k) = Z.max (foldr Z.max 0 l) (foldr Z.max 0 k).
Proof.
  intros Hl. rewrite foldr_app. induction Hl as [|x l Hx Hl IH]; simpl.
  - assert (0 ≤ foldr Z.max 0 k); [|lia]. induction k; simpl; lia.
  - rewrite IH. lia.
Qed.

Definition times_ok (l : list Z) : Prop := Forall (λ x, 0 ≤ x ≤ ULLONG_MAX) l.

(** Stopping adds one event. *)
Lemma summary_snoc l e t st en sp el q s :
  times_ok l → summary l t → 0 ≤ e ≤ ULLONG_MAX →
  summary (l ++ [e])
    (Timer st en sp el (if e <? min_time t then e else min_time t)
       (if max_time t <? e then e else max_time t) (u64 (sum_time t + e)) (u64 (events t + 1)) q s).
Proof.
  intros Hl (H1 & H2 & H3 & H4) He. split_and!; simpl.
  - rewrite H1, length_app, u64_add_l. simpl. f_equal. lia.
  - rewrite H2, zsum_app, u64_add_l. unfold zsum at 3. simpl. f_equal. lia.
  - rewrite H3, fold_min_app by done. simpl. destruct (Z.ltb_spec e (foldr Z.min ULLONG_MAX l)); lia.
  - rewrite H4, fold_max_app by done. simpl. destruct (Z.ltb_spec (foldr Z.max 0 l) e); lia.
Qed.

(** Two histories side by side. *)
Lemma summary_merge l1 l2 t1 t2 :
  times_ok l1 → summary l1 t1 → summary l2 t2 → summary (l1 ++ l2) (merge_timers t1 t2).
Proof.
  intros Hl (H1 & H2 & H3 & H4) (G1 & G2 & G3 & G4). split_and!; simpl.
  - rewrite H1, G1, u64_add_l, u64_add_r, length_app. f_equal. lia.
  - rewrite H2, G2, u64_add_l, u64_add_r, zsum_app. done.
  - rewrite H3, G3, fold_min_app by done.
    destruct (Z.ltb_spec (foldr Z.min ULLONG_MAX l1) (foldr Z.min ULLONG_MAX l2)); lia.
  - rewrite H4, G4, fold_max_app by done.
    destruct (Z.ltb_spec (foldr Z.max 0 l2) (foldr Z.max 0 l1)); lia.
Qed.

Lemma timer_do_run o l t :
  state t ≠ TIMER_UNINITIALIZED → times_ok l → summary l t →
  ∃ t', timer_do o t = (Done tt, t') ∧ state t' ≠ TIMER_UNINITIALIZED ∧
    ∃ e, times_ok e ∧ summary (l ++ e) t' ∧
      ∀ k, event_times (time_start t) (queue_time t) (o :: k) =
             e ++ event_times (time_start t') (queue_time t') k.
Proof.
  intros Hs Hl Hsum.
  destruct o as [now|now|now|now|ns]; simpl; unfold timer_do, sb_timer_start, sb_timer_stop,
    sb_timer_value, sb_timer_split, mbind, prog_bind, getS.
  - destruct (state t) eqn:E; [done|..]; (eexists; split; [reflexivity|]; split; [done|]);
      exists []; by rewrite app_nil_r; split_and!; [constructor|..].
  - set (e := u64 (TIMESPEC_DIFF now (time_start t) + queue_time t)).
    assert (0 ≤ e ≤ ULLONG_MAX) as He.
    { unfold e, ULLONG_MAX. pose proof (u64_range (TIMESPEC_DIFF now (time_start t) + queue_time t)). lia. }
    destruct (state t) eqn:E; [done|..]; (eexists; split; [reflexivity|]; split; [done|]);
      exists [e]; (split; [by apply list.Forall_singleton|]; split; [|done]); by apply summary_snoc.
  - destruct (state t) eqn:E; [done|..]; (eexists; split; [reflexivity|]);
      (split; [simpl; by rewrite ?E|]); exists []; rewrite app_nil_r; by split_and!; [constructor|..].
  - destruct (state t) eqn:E; [done|..]; (eexists; split; [reflexivity|]);
      (split; [simpl; by rewrite ?E|]); exists []; rewrite app_nil_r; by split_and!; [constructor|..].
  - eexists. split; [reflexivity|]. split; [done|]. exists []. rewrite app_nil_r.
    by split_and!; [constructor|..].
Qed.

Lemma timer_run_summary ops l t :
  state t ≠ TIMER_UNINITIALIZED → times_ok l → summary l t →
  ∃ t', timer_run ops t = (Done tt, t') ∧
    times_ok (event_times (time_start t) (queue_time t) ops) ∧
    summary (l ++ event_times (time_start t) (queue_time t) ops) t'.
Proof.
  revert l t. induction ops as [|o ops IH]; intros l t Hs Hl Hsum; simpl timer_run.
  - eexists. split; [reflexivity|]. rewrite app_nil_r. by split; [constructor|].
  - destruct (timer_do_run o l t Hs Hl Hsum) as (t1 & Hrun & Hs1 & e & He & Hsum1 & Hev).
    rewrite (bind_done _ _ _ _ _ Hrun), Hev, app_assoc.
    destruct (IH (l ++ e) t1) as (t2 & Hrun2 & Hok2 & Hsum2); [done|by apply Forall_app|done|].
    exists t2. split; [done|]. split; [by apply Forall_app|done].
Qed.

Lemma timer_init_run t :
  ∃ t', sb_timer_init t = (Done tt, t') ∧ state t' = TIMER_INITIALIZED ∧
    time_start t' = t_zero ∧ queue_time t' = 0 ∧ summary [] t'.
Proof. eexists. split; [reflexivity|]. by repeat split. Qed.

Lemma merge_all l t ts ls :
  times_ok l → summary l t → Forall2 (λ k x, times_ok k ∧ summary k x) ls ts →
  summary (l ++ concat ls) (foldl merge_timers t ts).
Proof.
  revert l t ls. induction ts as [|x ts IH]; intros l t ls Hl Ht Hall.
  - apply Forall2_nil_inv_r in Hall as ->. simpl. by rewrite app_nil_r.
  - apply Forall2_cons_inv_r in Hall as (k & ls' & [Hk Hx] & Hall & ->). simpl.
    rewrite app_assoc. apply IH; [by apply Forall_app|by apply summary_merge|done].
Qed.

(** Least, average and greatest. *)
Lemma summary_average l t :
  times_ok l → summary l t → l ≠ [] → zsum l < 2 ^ 64 → Z.of_nat (length l) < 2 ^ 64 →
  min_time t ≤ get_avg_time t ≤ max_time t.
Proof.
  intros Hl (H1 & H2 & H3 & H4) Hne Hsum Hlen.
  assert (Z.of_nat (length l) * foldr Z.min ULLONG_MAX l ≤ zsum l ≤
          Z.of_nat (length l) * foldr Z.max 0 l) as Hb.
  { clear -Hl. induction Hl as [|x l Hx Hl IH]; [unfold zsum; simpl; lia|].
    assert (0 ≤ foldr Z.max 0 l) by (clear; induction l; simpl; lia).
    change (zsum (x :: l)) with (x + zsum l). cbn [foldr length].
    rewrite Nat2Z.inj_succ. nia. }
  pose proof (zsum_nonneg l) as Hpos.
  assert (0 ≤ zsum l) by (apply Hpos; eapply list.Forall_impl; [exact Hl|]; simpl; lia).
  assert (0 < Z.of_nat (length l)) by (destruct l; [done|simpl; lia]).
  unfold get_avg_time. rewrite H1, H2, H3, H4, !u64_id by lia.
  rewrite (proj2 (Z.eqb_neq _ 0)) by lia. split.
  - apply Z.div_le_lower_bound; lia.
  - apply Z.div_le_upper_bound; lia.
Qed.

(** C40: The timers of the threads, each initialised and used in any way, merged
    into a fresh timer as the reports do, hold the number, the sum, the least and
    the greatest of the times of all the events of all threads, in 64 bit
    arithmetic; when there are events and their sum fits, the average lies
    between the least and the greatest. *)
Theorem merged_timers_summarise (opss : list (list timer_op)) (ts : list timer) (t0 t : timer) :
  Forall2 (λ ops x, ∃ t0, (sb_timer_init;; timer_run ops) t0 = (Done tt, x)) opss ts →
  sb_timer_init t0 = (Done tt, t) →
  let all := concat (event_times t_zero 0 <$> opss) in
  summary all (foldl merge_timers t ts) ∧
  (all ≠ [] → zsum all < 2 ^ 64 → Z.of_nat (length all) < 2 ^ 64 →
   min_time (foldl merge_timers t ts) ≤ get_avg_time (foldl merge_timers t ts)
     ≤ max_time (foldl merge_timers t ts)).
Proof.
  intros Hts Hinit all.
  destruct (timer_init_run t0) as (t' & Hrun & _ & _ & _ & Hsum). rewrite Hinit in Hrun.
  injection Hrun as <-.
  assert (Forall2 (λ k x, times_ok k ∧ summary k x) (event_times t_zero 0 <$> opss) ts) as Hall.
  { apply Forall2_fmap_l. eapply Forall2_impl; [exact Hts|]. intros ops x [t1 Hx].
    destruct (timer_init_run t1) as (t2 & Hrun2 & Hs & Hst & Hq & Hsum2).
    rewrite (bind_done _ _ _ _ _ Hrun2) in Hx.
    destruct (timer_run_summary ops [] t2) as (t3 & Hrun3 & Hok & Hsum3);
      [by rewrite Hs|by constructor|done|].
    rewrite Hst, Hq in *. rewrite Hrun3 in Hx. injection Hx as <-. done. }
  assert (times_ok all) as Hok.
  { unfold all, times_ok. apply Forall_concat. clear -Hall. induction Hall as [|k x ks xs [Hk _] _ IH];
      by constructor. }
  pose proof (merge_all [] t ts _ ltac:(by constructor) Hsum Hall) as Hm. simpl in Hm.
  split; [done|]. intros. by eapply summary_average.
Qed.

(** ** Splits *)

Fixpoint splits (l : list timespec) : tprog (list Z) :=
  match l with
  | [] => mret []
  | now :: l => r ← sb_timer_split now; rs ← splits l; mret (r :: rs)
  end.

Lemma diff_chain a b c : u64 (TIMESPEC_DIFF b a + TIMESPEC_DIFF c b) = TIMESPEC_DIFF c a.
Proof.
  unfold TIMESPEC_DIFF. rewrite u64_add_l, u64_add_r.
  replace (u64 ((tv_sec b - tv_sec a) * NS) + (tv_nsec b - tv_nsec a) +
    (u64 ((tv_sec c - tv_sec b) * NS) + (tv_nsec c - tv_nsec b)))
    with (u64 ((tv_sec b - tv_sec a) * NS) + (u64 ((tv_sec c - tv_sec b) * NS) +
      (tv_nsec c - tv_nsec a))) by lia.
  rewrite !u64_add_l. rewrite (Z.add_comm ((tv_sec b - tv_sec a) * NS)), <- Z.add_assoc, u64_add_l.
  f_equal. lia.
Qed.

(** C0: On a running timer the results of successive splits add up, in 64 bit
    arithmetic, to the time from the start to the last one, and leave the timer
    running. *)
Theorem splits_add_up (l : list timespec) (s now : timespec) (t : timer) :
  state t ≠ TIMER_UNINITIALIZED →
  ∃ rs t', (sb_timer_start s;; splits (l ++ [now])) t = (Done rs, t') ∧
    length rs = length (l ++ [now]) ∧ u64 (zsum rs) = TIMESPEC_DIFF now s ∧
    state t' = TIMER_RUNNING.
Proof.
  intros Hs. unfold sb_timer_start. unfold mbind at 1 2, prog_bind at 1 2, getS.
  set (t1 := Timer s (time_end t) s (elapsed t) (min_time t) (max_time t) (sum_time t) (events t)
    (queue_time t) TIMER_RUNNING).
  assert ((match state t with TIMER_UNINITIALIZED => leave Abort | _ => modS (λ t, Timer s
    (time_end t) s (elapsed t) (min_time t) (max_time t) (sum_time t) (events t) (queue_time t)
    TIMER_RUNNING) end) t = (Done tt, t1)) as -> by (by destruct (state t)).
  assert (∀ t1 a, time_split t1 = a → state t1 = TIMER_RUNNING →
    ∃ rs t', splits (l ++ [now]) t1 = (Done rs, t') ∧ length rs = length (l ++ [now]) ∧
      u64 (zsum rs) = TIMESPEC_DIFF now a ∧ state t' = TIMER_RUNNING) as H.
  { clear t1 Hs t. induction l as [|x l IH]; intros t a Ha Hrun; simpl.
    - unfold mbind, prog_bind, sb_timer_split, mbind, prog_bind, getS. rewrite Hrun. simpl.
      eexists _, _. split; [reflexivity|]. rewrite Ha. split; [done|]. split; [|done].
      unfold zsum, TIMESPEC_DIFF. simpl. by rewrite Z.add_0_r, u64_id by apply u64_range.
    - destruct (IH (set_split x (set_elapsed (TIMESPEC_DIFF x (time_start t)) t)) x)
        as (rs & t' & Hrs & Hlen & Hsum & Ht'); [done|done|].
      eexists (TIMESPEC_DIFF x a :: rs), t'. split.
      + erewrite bind_done; [by erewrite bind_done by exact Hrs|].
        unfold sb_timer_split, mbind, prog_bind, getS. by rewrite Hrun, Ha.
      + split; [simpl; by rewrite Hlen|]. split; [|done].
        change (zsum (TIMESPEC_DIFF x a :: rs)) with (TIMESPEC_DIFF x a + zsum rs).
        rewrite <- u64_add_r, Hsum. apply diff_chain. }
  by apply H.
Qed.

(** ** Adding nanoseconds *)

Definition ns_of (t : timespec) : Z := tv_sec t * NS + tv_nsec t.

Lemma i64_of_ok {S} (z : Z) : - 2 ^ 63 ≤ z < 2 ^ 63 → i64_of (S:=S) z = mret z.
Proof.
  intros Hz. unfold i64_of. rewrite (proj2 (Z.leb_le _ _)), (proj2 (Z.ltb_lt _ _)) by lia. done.
Qed.

(** Where the new time is within 64 bits, [add_ns_to_timespec] moves it by
    exactly [delta].  Its nanoseconds are at most a whole second, and are one,
    which is not a valid [tv_nsec], exactly when the new nanoseconds come to one
    full second or to a whole number of seconds before. *)
Theorem add_ns_exact (t : timespec) (delta : Z) :
  0 ≤ tv_nsec t < NS → - 2 ^ 62 ≤ tv_sec t < 2 ^ 62 → - 2 ^ 62 ≤ delta < 2 ^ 62 →
  ∃ t', add_ns_to_timespec delta t = (Done tt, t') ∧
    ns_of t' = ns_of t + delta ∧ 0 ≤ tv_nsec t' ≤ NS ∧
    (tv_nsec t' = NS ↔
       tv_nsec t + delta = NS ∨ tv_nsec t + delta < 0 ∧ (tv_nsec t + delta) mod NS = 0).
Proof.
  intros Ht Hs Hd. unfold add_ns_to_timespec, ns_of. rewrite (bind_done getS _ t t t eq_refl).
  unfold NS in *. rewrite (i64_of_ok (tv_nsec t + delta)), bind_ret by lia. set (x := tv_nsec t + delta).
  pose proof (Z.quot_rem x 1000000000 ltac:(done)) as Hqr.
  destruct (Z.ltb_spec 1000000000 x) as [H1|H1]; [|destruct (Z.ltb_spec x 0) as [H2|H2]].
  - pose proof (Z.rem_bound_pos x 1000000000 ltac:(lia) ltac:(done)).
    rewrite i64_of_ok, bind_ret by (unfold x in *; lia). eexists. split; [reflexivity|]. simpl.
    split; [unfold x in *; lia|]. lia.
  - pose proof (Z.rem_bound_pos_neg x 1000000000 ltac:(done) ltac:(lia)).
    rewrite (i64_of_ok (tv_sec t - 1)) by lia. rewrite bind_ret.
    rewrite i64_of_ok by (unfold x in *; lia). rewrite bind_ret.
    eexists. split; [reflexivity|]. simpl. split; [unfold x in *; lia|].
    split; [lia|]. assert (Z.rem x 1000000000 = 0 ↔ x mod 1000000000 = 0) as Hz.
    { rewrite Z.rem_divide, Z.mod_divide by done. done. }
    lia.
  - eexists. split; [reflexivity|]. simpl. split; [unfold x in *; lia|]. lia.
Qed.

Definition sample_ops : list timer_op :=
  [OpStart (Timespec 5 999999990); OpStop (Timespec 6 10); OpQueued 5; OpStart (Timespec 7 0);
   OpStop (Timespec 7 100)].

Definition fresh_timer : timer :=
  Timer t_zero t_zero t_zero 0 0 0 0 0 0 TIMER_UNINITIALIZED.
Definition used_timer (ops : list timer_op) : timer :=
  ((sb_timer_init;; timer_run ops) fresh_timer).2.

Lemma merged_timers_summarise_witness :
  let all := concat (event_times t_zero 0 <$> [sample_ops; sample_ops]) in
  let m := foldl merge_timers (sb_timer_init fresh_timer).2
             [used_timer sample_ops; used_timer sample_ops] in
  summary all m ∧
  (all ≠ [] → zsum all < 2 ^ 64 → Z.of_nat (length all) < 2 ^ 64 →
   min_time m ≤ get_avg_time m ≤ max_time m).
Proof.
  apply (merged_timers_summarise [sample_ops; sample_ops]
    [used_timer sample_ops; used_timer sample_ops] fresh_timer (sb_timer_init fresh_timer).2).
  - repeat constructor; exists fresh_timer; vm_compute; reflexivity.
  - vm_compute. reflexivity.
Defined.

Lemma splits_add_up_witness :
  ∃ rs t', (sb_timer_start (Timespec 1 0);; splits ([Timespec 1 500] ++ [Timespec 2 0]))
      (used_timer []) = (Done rs, t') ∧
    length rs = length ([Timespec 1 500] ++ [Timespec 2 0]) ∧
    u64 (zsum rs) = TIMESPEC_DIFF (Timespec 2 0) (Timespec 1 0) ∧ state t' = TIMER_RUNNING.
Proof.
  apply (splits_add_up [Timespec 1 500] (Timespec 1 0) (Timespec 2 0) (used_timer [])).
  vm_compute. discriminate.
Defined.

Lemma add_ns_exact_witness :
  ∃ t', add_ns_to_timespec 1 (Timespec 3 999999999) = (Done tt, t') ∧
    ns_of t' = ns_of (Timespec 3 999999999) + 1 ∧ 0 ≤ tv_nsec t' ≤ NS ∧
    (tv_nsec t' = NS ↔ 999999999 + 1 = NS ∨ 999999999 + 1 < 0 ∧ (999999999 + 1) mod NS = 0).
Proof.
  apply (add_ns_exact (Timespec 3 999999999) 1); vm_compute; (split; [discriminate|reflexivity]).
Defined.
