(* ===== verification/SysbenchPercentile.v ===== *)
(** * sysbench: percentiles of response times (sb_percentile.c)

    Response times are counted in buckets on a logarithmic scale.  [log] and
    [exp] of the C library are the class [Libm]; the mutex makes the counting one
    step. *)
From Stdlib Require Import ZArith Lia SpecFloat.
From stdpp Require Import base numbers list.
From S2P Require Import Prelude CFloat SysbenchTimer.

Class Libm := { c_log : float64 → float64; c_exp : float64 → float64 }.

Record percentile := Percentile {
  values : list Z; tmp : list Z; p_total : Z; p_size : Z;
  range_min : float64; range_max : float64; range_deduct : float64; range_mult : float64
}.

Abbreviation pprog := (prog fault percentile).

Definition f64_half : float64 := f64_div (f64_of_Z 1) (f64_of_Z 2).

(** [floor], as the integer it is. *)
Definition f_floor (x : float64) : option Z :=
  match x with
  | S754_zero _ => Some 0
  | S754_finite s m e =>
      Some (if 0 <=? e then cond_Zopp s (Zpos m) * 2 ^ e else cond_Zopp s (Zpos m) / 2 ^ (- e))
  | _ => None
  end.
(** The conversion of a [floor] to an unsigned type of [bits] bits. *)
Definition floor_to (bits : Z) (x : float64) : pprog Z :=
  match f_floor x with
  | Some z => if (0 <=? z) && (z <? 2 ^ bits) then mret z else leave (Undefined BadConversion)
  | None => leave (Undefined BadConversion)
  end.

Section percentile.
Context {Lm : Libm}.

(** [calloc] gives zeros; [None] when one of the two fails. *)
Definition sb_percentile_init (mem1 mem2 : bool) (size : Z) (rmin rmax : float64)
    : option percentile :=
  if negb mem1 || negb mem2 then None
  else
    let deduct := c_log rmin in
    let mult := f64_div (f64_of_Z (u32 (size - 1))) (f64_sub (c_log rmax) deduct) in
    Some (Percentile (replicate (Z.to_nat size) 0) (replicate (Z.to_nat size) 0) 0 size rmin rmax
            deduct mult).

(** The place of a time on the scale: clamped to the range, and its logarithm in
    steps. *)
Definition scale (p : percentile) (value : float64) : float64 :=
  let value := if f_lt value (range_min p) then range_min p
               else if f_lt (range_max p) value then range_max p else value in
  f64_add (f64_mul (f64_sub (c_log value) (range_deduct p)) (range_mult p)) f64_half.

Definition sb_percentile_update (value : float64) : pprog unit :=
  p ← getS;
  n ← floor_to 32 (scale p value);
  v ← arr_get (values p) n;
  vs ← arr_set (values p) n (u64 (v + 1));
  putS (Percentile vs (tmp p) (u64 (p_total p + 1)) (p_size p) (range_min p) (range_max p)
          (range_deduct p) (range_mult p)).

(** The loop of [sb_percentile_calculate]: [i] when it ends. *)
Fixpoint reach (fuel : nat) (size nmax i ncur : Z) : pprog Z :=
  match fuel with
  | O => mret i
  | S fuel =>
      if i <? size then
        p ← getS;
        v ← arr_get (tmp p) i;
        let ncur := u64 (ncur + v) in
        if nmax <=? ncur then mret i else reach fuel size nmax (i + 1) ncur
      else mret i
  end.

(** [total * percent / 100 + 0.5]. *)
Definition rank (total : Z) (percent : float64) : float64 :=
  f64_add (f64_div (f64_mul (f64_of_Z total) percent) (f64_of_Z 100)) f64_half.

(** The time a bucket stands for. *)
Definition time_of (p : percentile) (i : Z) : float64 :=
  c_exp (f64_add (f64_div (f64_of_Z i) (range_mult p)) (range_deduct p)).

Definition sb_percentile_calculate (percent : float64) : pprog float64 :=
  p ← getS;
  if p_total p =? 0 then mret (S754_zero false)
  else
    putS (Percentile (values p) (values p) (p_total p) (p_size p) (range_min p) (range_max p)
            (range_deduct p) (range_mult p));;
    nmax ← floor_to 64 (rank (p_total p) percent);
    ncur ← arr_get (values p) 0;
    i ← reach (Z.to_nat (p_size p)) (p_size p) nmax 1 ncur;
    mret (time_of p i).

Definition sb_percentile_reset : pprog unit :=
  modS (λ p, Percentile (replicate (Z.to_nat (p_size p)) 0) (tmp p) 0 (p_size p) (range_min p)
               (range_max p) (range_deduct p) (range_mult p)).

Fixpoint updates (l : list float64) : pprog unit :=
  match l with
  | [] => mret tt
  | v :: l => sb_percentile_update v;; updates l
  end.

(** ** The counts *)

(** How many of the buckets [bs] are at most [i]. *)
Definition at_most (i : Z) (bs : list Z) : Z := Z.of_nat (length (filter (λ b, b ≤ i) bs)).

(** The state [p] after times in the buckets [bs] were counted in [p0]. *)
Definition counted (p0 : percentile) (bs : list Z) (p : percentile) : Prop :=
  Z.of_nat (length (values p)) = p_size p0 ∧ p_size p = p_size p0 ∧
  range_min p = range_min p0 ∧ range_max p = range_max p0 ∧
  range_deduct p = range_deduct p0 ∧ range_mult p = range_mult p0 ∧
  p_total p = Z.of_nat (length bs) ∧ Forall (λ v, 0 ≤ v) (values p) ∧
  ∀ i, 0 ≤ i < p_size p0 → zsum (take (Z.to_nat (i + 1)) (values p)) = at_most i bs.

Lemma at_most_le i bs : 0 ≤ at_most i bs ≤ Z.of_nat (length bs).
Proof. unfold at_most. pose proof (length_filter (λ b, b ≤ i) bs). lia. Qed.
Lemma at_most_snoc i bs b : at_most i (bs ++ [b]) = at_most i bs + (if b <=? i then 1 else 0).
Proof.
  unfold at_most. rewrite filter_app, length_app, Nat2Z.inj_add. f_equal.
  rewrite filter_cons, filter_nil. destruct (Z.leb_spec b i), (decide (b ≤ i)); simpl; lia.
Qed.

Lemma at_most_all i bs : Forall (λ b, b ≤ i) bs → at_most i bs = Z.of_nat (length bs).
Proof.
  unfold at_most. induction 1 as [|b bs Hb _ IH]; [done|]. rewrite filter_cons_True by done.
  simpl. lia.
Qed.
Lemma at_most_mono i j bs : i ≤ j → at_most i bs ≤ at_most j bs.
Proof.
  unfold at_most. intros Hij. induction bs as [|b bs IH]; [done|]. rewrite !filter_cons.
  repeat case_decide; simpl; lia.
Qed.

Lemma zsum_take_incr (l : list Z) n k v :
  l !! n = Some v →
  zsum (take k (<[n:=v + 1]> l)) = zsum (take k l) + (if (n <? k)%nat then 1 else 0).
Proof.
  intros Hn. destruct (Nat.ltb_spec n k) as [H|H].
  - rewrite take_insert_lt by done. erewrite zsum_insert by (by rewrite lookup_take_lt). lia.
  - rewrite take_insert_ge by done. lia.
Qed.

Lemma floor_to_run bits x z p :
  f_floor x = Some z → 0 ≤ z < 2 ^ bits → floor_to bits x p = (Done z, p).
Proof.
  intros Hz Hr. unfold floor_to. rewrite Hz, (proj2 (Z.leb_le _ _)), (proj2 (Z.ltb_lt _ _)) by lia.
  done.
Qed.

(** Counting one time. *)
Lemma update_counts p0 bs p v b :
  counted p0 bs p → f_floor (scale p0 v) = Some b → 0 ≤ b < p_size p0 → p_size p0 < 2 ^ 32 →
  Z.of_nat (length bs) + 1 < 2 ^ 64 →
  ∃ p', sb_percentile_update v p = (Done tt, p') ∧ counted p0 (bs ++ [b]) p'.
Proof.
  intros (Hlen & Hsz & H1 & H2 & H3 & H4 & Htot & Hpos & Hsum) Hb Hr Hs Hn.
  destruct (arr_get_lookup (F:=fault) (S:=percentile) (values p) b) as (c & Hc & Hget); [lia|].
  assert (0 ≤ c) as Hc0 by (eapply (Forall_lookup_1 _ _ _ _ Hpos Hc)).
  pose proof (zsum_take_S _ _ _ Hc) as HS. replace (S (Z.to_nat b)) with (Z.to_nat (b + 1)) in HS by lia.
  rewrite Hsum in HS by lia. pose proof (at_most_le b bs).
  pose proof (zsum_nonneg _ (Forall_take _ (Z.to_nat b) _ Hpos)) as H0.
  unfold sb_percentile_update. rewrite (bind_done getS _ p p p eq_refl).
  assert (scale p v = scale p0 v) as -> by (unfold scale; by rewrite H1, H2, H3, H4).
  rewrite (bind_done _ _ _ _ _ (floor_to_run 32 _ b p Hb ltac:(lia))), Hget, bind_ret.
  rewrite arr_set_ok, bind_ret by lia. eexists. split; [reflexivity|].
  rewrite !u64_id by lia. unfold counted. simpl. rewrite length_insert, length_app, Htot.
  split_and!; [done..|simpl; lia|apply Forall_insert; [done|lia]|].
  intros i Hi. rewrite zsum_take_incr, Hsum, at_most_snoc by done. f_equal.
  destruct (Z.leb_spec b i), (Nat.ltb_spec (Z.to_nat b) (Z.to_nat (i + 1))); lia.
Qed.

Lemma updates_count p0 vs bs bs0 p :
  counted p0 bs0 p → p_size p0 < 2 ^ 32 →
  Forall2 (λ v b, f_floor (scale p0 v) = Some b ∧ 0 ≤ b < p_size p0) vs bs →
  Z.of_nat (length (bs0 ++ bs)) < 2 ^ 64 →
  ∃ p', updates vs p = (Done tt, p') ∧ counted p0 (bs0 ++ bs) p'.
Proof.
  intros Hp Hs Hall. revert bs0 p Hp. induction Hall as [|v b vs bs [Hb Hr] _ IH];
    intros bs0 p Hp Hn; simpl.
  - rewrite app_nil_r. eauto.
  - rewrite length_app in Hn. simpl in Hn.
    destruct (update_counts p0 bs0 p v b) as (p1 & Hrun & H1); [done..|lia|].
    rewrite (bind_done _ _ _ _ _ Hrun), (cons_middle b), app_assoc.
    apply IH; [done|]. rewrite !length_app. simpl. lia.
Qed.

Lemma init_counted size rmin rmax p :
  0 ≤ size → sb_percentile_init true true size rmin rmax = Some p → counted p [] p.
Proof.
  intros Hs [= <-]. split_and!; simpl; rewrite ?length_replicate; try done; [lia| |].
  - by apply Forall_replicate.
  - intros i Hi. rewrite take_replicate, zsum_replicate_0. done.
Qed.

(** The search: it ends at the first bucket from 1 on that reaches the rank. *)
Lemma reach_run fuel nmax i ncur p0 bs p :
  tmp p = values p → counted p0 bs p → Z.of_nat (length bs) < 2 ^ 64 → 1 ≤ i ≤ p_size p →
  ncur = at_most (i - 1) bs → p_size p - i ≤ Z.of_nat fuel →
  ∃ j, reach fuel (p_size p) nmax i ncur p = (Done j, p) ∧ i ≤ j ≤ p_size p ∧
    (j < p_size p → nmax ≤ at_most j bs) ∧ ∀ m, i ≤ m < j → at_most m bs < nmax.
Proof.
  intros Ht (Hlen & Hsz & _ & _ & _ & _ & Htot & Hpos & Hsum) Hmax. revert i ncur.
  induction fuel as [|fuel IH]; intros i ncur Hi Hn Hfuel; simpl.
  - exists i. split; [done|]. split; [lia|]. split; [lia|]. intros m Hm. lia.
  - destruct (Z.ltb_spec i (p_size p)) as [Hlt|Hge].
    2:{ exists i. split; [done|]. split; [lia|]. split; [lia|]. intros m Hm. lia. }
    rewrite (bind_done getS _ p p p eq_refl), Ht.
    destruct (arr_get_lookup (F:=fault) (S:=percentile) (values p) i) as (v & Hv & ->); [lia|].
    rewrite bind_ret. pose proof (zsum_take_S _ _ _ Hv) as HS.
    replace (S (Z.to_nat i)) with (Z.to_nat (i + 1)) in HS by lia.
    pose proof (Hsum (i - 1) ltac:(lia)) as Hprev.
    replace (Z.to_nat (i - 1 + 1)) with (Z.to_nat i) in Hprev by lia.
    rewrite Hsum, Hprev in HS by lia. rewrite Hn, <- HS. pose proof (at_most_le i bs).
    rewrite u64_id by lia.
    destruct (Z.leb_spec nmax (at_most i bs)) as [Hr|Hr].
    + exists i. split; [done|]. split; [lia|]. split; [done|]. intros m Hm. lia.
    + destruct (IH (i + 1) (at_most i bs)) as (j & Hj & Hij & H1 & H2);
        [lia|f_equal; lia|lia|].
      exists j. split; [done|]. split; [lia|]. split; [done|]. intros m Hm.
      destruct (decide (m = i)) as [->|]; [done|]. apply H2. lia.
Qed.

Lemma calculate_run p0 bs p percent nmax :
  counted p0 bs p → bs ≠ [] → Z.of_nat (length bs) < 2 ^ 64 → 2 ≤ p_size p0 →
  f_floor (rank (Z.of_nat (length bs)) percent) = Some nmax → 0 ≤ nmax < 2 ^ 64 →
  ∃ i p', sb_percentile_calculate percent p = (Done (time_of p0 i), p') ∧
    1 ≤ i ≤ p_size p0 ∧ (i < p_size p0 → nmax ≤ at_most i bs) ∧
    (∀ m, 1 ≤ m < i → at_most m bs < nmax).
Proof.
  intros Hp Hne Hlt Hs Hn Hr. pose proof Hp as (Hlen & Hsz & _ & _ & Hd & Hm & Htot & Hpos & Hsum).
  set (p1 := Percentile (values p) (values p) (p_total p) (p_size p) (range_min p) (range_max p)
    (range_deduct p) (range_mult p)).
  assert (counted p0 bs p1) as Hp1 by exact Hp.
  destruct (arr_get_lookup (F:=fault) (S:=percentile) (values p) 0) as (v & Hv & Hget); [lia|].
  destruct (reach_run (Z.to_nat (p_size p)) nmax 1 v p0 bs p1) as (i & Hi & Hri & H1 & H2);
    [done..|simpl; lia| |simpl; lia|].
  { pose proof (zsum_take_S _ _ _ Hv) as HS. change (1 - 1) with 0. rewrite <- (Hsum 0) by lia.
    change (Z.to_nat (0 + 1)) with (S (Z.to_nat 0)). rewrite HS. done. }
  exists i, p1. simpl in Hri, H1. rewrite Hsz in Hri, H1. split; [|done].
  assert (0 < Z.of_nat (length bs)) by (destruct bs; [done|simpl; lia]).
  unfold sb_percentile_calculate. rewrite (bind_done getS _ p p p eq_refl), Htot.
  rewrite (proj2 (Z.eqb_neq _ 0)) by lia. fold p1. rewrite <- Htot. fold p1. rewrite Htot.
  rewrite (bind_done (putS p1) _ p p1 tt eq_refl).
  rewrite (bind_done _ _ _ _ _ (floor_to_run 64 _ _ p1 Hn Hr)), Hget, bind_ret.
  rewrite (bind_done _ _ _ _ _ Hi). unfold time_of. by rewrite Hd, Hm.
Qed.

(** After any times were counted, each in the bucket of its place on the
    scale, [sb_percentile_calculate] returns the time of a bucket: the first from
    1 on such that the times in it and below are at least the wanted rank (the
    share of the total, rounded).  It stops inside the array whenever the rank is
    not more than the number of times.  The buckets start at 0, but the search
    does not: times all in bucket 0 are reported as bucket 1. *)
Theorem percentile_reports size rmin rmax vs bs percent nmax p :
  2 ≤ size < 2 ^ 32 → sb_percentile_init true true size rmin rmax = Some p →
  Forall2 (λ v b, f_floor (scale p v) = Some b ∧ 0 ≤ b < size) vs bs →
  vs ≠ [] → Z.of_nat (length vs) < 2 ^ 64 →
  f_floor (rank (Z.of_nat (length vs)) percent) = Some nmax → 0 ≤ nmax < 2 ^ 64 →
  ∃ i p', (updates vs;; sb_percentile_calculate percent) p = (Done (time_of p i), p') ∧
    1 ≤ i ≤ size ∧ (i < size → nmax ≤ at_most i bs) ∧
    (∀ m, 1 ≤ m < i → at_most m bs < nmax) ∧
    (nmax ≤ Z.of_nat (length vs) → i < size) ∧
    (nmax ≤ at_most 0 bs → i = 1).
Proof.
  intros Hs Hinit Hall Hne Hlt Hn Hr. pose proof (Forall2_length _ _ _ Hall) as Hlen.
  assert (p_size p = size) as Hsz by (unfold sb_percentile_init in Hinit; by simplify_eq/=).
  destruct (updates_count p vs bs [] p) as (p1 & Hrun & Hp1);
    [eapply init_counted; [|done]; lia|lia|by rewrite Hsz|simpl; lia|].
  rewrite Hlen in *.
  destruct (calculate_run p bs p1 percent nmax) as (i & p' & Hc & Hi & H1 & H2);
    [done|by destruct bs; [destruct vs|]|lia|lia|done|done|].
  exists i, p'. rewrite (bind_done _ _ _ _ _ Hrun), Hsz in *. split_and!; [done|lia|lia|done|done| |].
  - intros Hle. destruct (decide (i = size)) as [->|]; [|lia].
    specialize (H2 (size - 1) ltac:(lia)).
    assert (at_most (size - 1) bs = Z.of_nat (length bs)) as Ha; [|lia].
    apply at_most_all. clear -Hall.
    induction Hall as [|v b vs bs [_ Hb] _ IH]; constructor; [lia|done].
  - intros Hle. destruct (decide (i = 1)); [done|]. specialize (H2 1 ltac:(lia)).
    pose proof (at_most_mono 0 1 bs). lia.
Qed.

End percentile.

(** ** An instance: a scale that is linear *)

Definition linear : Libm := {| c_log := id; c_exp := id |}.

Lemma percentile_reports_witness :
  let f := f64_of_Z in
  ∃ i p', (@updates linear [f 2; f 2; f 5; f 100];; @sb_percentile_calculate linear (f 75))
      (Percentile (replicate 10 0) (replicate 10 0) 0 10 (f 1) (f 10) (f 1) (f 1))
      = (Done (@time_of linear
           (Percentile (replicate 10 0) (replicate 10 0) 0 10 (f 1) (f 10) (f 1) (f 1)) i), p') ∧
    1 ≤ i ≤ 10 ∧ (i < 10 → 3 ≤ at_most i [1; 1; 4; 9]) ∧
    (∀ m, 1 ≤ m < i → at_most m [1; 1; 4; 9] < 3) ∧
    (3 ≤ Z.of_nat (length [f 2; f 2; f 5; f 100]) → i < 10) ∧
    (3 ≤ at_most 0 [1; 1; 4; 9] → i = 1).
Proof.
  intros f.
  apply (@percentile_reports linear 10 (f 1) (f 10) [f 2; f 2; f 5; f 100] [1; 1; 4; 9] (f 75) 3).
  - lia.
  - vm_compute. reflexivity.
  - repeat constructor; vm_compute; congruence.
  - discriminate.
  - vm_compute. reflexivity.
  - vm_compute. reflexivity.
  - vm_compute. split; congruence.
Defined.

(** Two times in bucket 0 are reported as the time of bucket 1. *)
Example bucket_0_not_reported :
  (@updates linear [f64_of_Z 1; f64_of_Z 1];; @sb_percentile_calculate linear (f64_of_Z 50))
    (Percentile (replicate 10 0) (replicate 10 0) 0 10 (f64_of_Z 1) (f64_of_Z 10) (f64_of_Z 1)
       (f64_of_Z 1)) =
  (Done (f64_of_Z 2),
   Percentile (2 :: replicate 9 0) (2 :: replicate 9 0) 2 10 (f64_of_Z 1) (f64_of_Z 10)
     (f64_of_Z 1) (f64_of_Z 1)).
Proof. vm_compute. reflexivity. Qed.
