(* ===== verification/FioFlistSort.v ===== *)
(** * fio: sorting a linked list (lib/flist_sort.c)

    A merge sort from below.  The entries lose their [prev] pointers and become
    chains that end in a null pointer; [part] has at index [lev] a sorted chain of
    about [2^lev] entries, or none; the last merge restores the ring. *)
From Stdlib Require Import ZArith Lia.
From stdpp Require Import base numbers gmap list sorting.
From S2P Require Import Prelude FioFlist.

Definition MAX_LIST_LENGTH_BITS : nat := 20.

Section sort.
(** The comparison; [priv] and what it reads of the entries do not change. *)
Context (cmp : Z → Z → Z).

(** ** Operations *)

(** [head] is a local variable; [tail] is null while it points to that variable. *)
Definition put_next (tail x head_next : Z) : flprog Z :=
  if tail =? 0 then mret x else set_next tail x;; mret head_next.
Fixpoint merge_loop (fuel : nat) (head_next tail a b : Z) : flprog Z :=
  match fuel with
  | O => leave OutOfFuel
  | S fuel =>
      if negb (a =? 0) && negb (b =? 0) then
        if cmp a b <=? 0 then
          head_next ← put_next tail a head_next;
          e ← fl_get a;
          merge_loop fuel head_next a (fl_next e) b
        else
          head_next ← put_next tail b head_next;
          e ← fl_get b;
          merge_loop fuel head_next b a (fl_next e)
      else put_next tail (if negb (a =? 0) then a else b) head_next
  end.
Definition merge (a b : Z) : flprog Z :=
  fuel ← readS (λ h : fheap, S (size h));
  merge_loop fuel 0 0 a b.

(** The loop of the last merge, then the [do] loop. *)
Fixpoint back_merge (fuel : nat) (tail a b : Z) : flprog Z :=
  match fuel with
  | O => leave OutOfFuel
  | S fuel =>
      if negb (a =? 0) && negb (b =? 0) then
        if cmp a b <=? 0 then
          set_next tail a;; set_prev a tail;;
          e ← fl_get a;
          back_merge fuel a (fl_next e) b
        else
          set_next tail b;; set_prev b tail;;
          e ← fl_get b;
          back_merge fuel b a (fl_next e)
      else set_next tail (if negb (a =? 0) then a else b);; mret tail
  end.
Fixpoint back_links (fuel : nat) (tail : Z) : flprog Z :=
  match fuel with
  | O => leave OutOfFuel
  | S fuel =>
      t ← fl_get tail;
      set_prev (fl_next t) tail;;
      e ← fl_get (fl_next t);
      if fl_next e =? 0 then mret (fl_next t) else back_links fuel (fl_next t)
  end.
Definition merge_and_restore_back_links (head a b : Z) : flprog unit :=
  fuel ← readS (λ h : fheap, S (size h));
  tail ← back_merge fuel head a b;
  tail ← back_links fuel tail;
  set_next tail head;;
  set_prev head tail.

(** [for (lev = 0; part[lev]; lev++)]. *)
Fixpoint carry (fuel : nat) (part : list Z) (lev : Z) (cur : Z) : flprog (list Z * Z * Z) :=
  match fuel with
  | O => leave OutOfFuel
  | S fuel =>
      p ← arr_get part lev;
      if p =? 0 then mret (part, lev, cur)
      else
        cur ← merge p cur;
        part ← arr_set part lev 0;
        carry fuel part (lev + 1) cur
  end.

(** The loop that takes the entries. *)
Fixpoint distribute (fuel : nat) (part : list Z) (max_lev list_ : Z) : flprog (list Z * Z) :=
  match fuel with
  | O => leave OutOfFuel
  | S fuel =>
      if list_ =? 0 then mret (part, max_lev)
      else
        let cur := list_ in
        e ← fl_get list_;
        set_next cur 0;;
        r ← carry (S (length part)) part 0 cur;
        let '(part, lev, cur) := r in
        let lev := if (max_lev <? lev) && (Z.of_nat MAX_LIST_LENGTH_BITS <=? lev) then lev - 1 else lev in
        let max_lev := if max_lev <? lev then lev else max_lev in
        part ← arr_set part lev cur;
        distribute fuel part max_lev (fl_next e)
  end.

Definition flist_sort (head : Z) : flprog unit :=
  empty ← flist_empty head;
  if empty : bool then mret tt
  else
    let part := replicate (S MAX_LIST_LENGTH_BITS) 0 in
    h ← fl_get head;
    set_next (fl_prev h) 0;;
    h ← fl_get head;
    fuel ← readS (λ h : fheap, S (size h));
    r ← distribute fuel part 0 (fl_next h);
    let '(part, max_lev) := r in
    list_ ← for_lt 0 max_lev (λ lev list_,
      p ← arr_get part lev;
      if p =? 0 then mret list_ else merge p list_) 0;
    p ← arr_get part max_lev;
    merge_and_restore_back_links head p list_.
End sort.
