(* ===== verification/FioFlistSortSpec.v ===== *)
(** * fio: flist_sort sorts, and keeps the order of equal entries *)
From Stdlib Require Import ZArith Lia.
From stdpp Require Import base numbers gmap list sorting.
From S2P Require Import Prelude FioFlist FioFlistSort.

(** ** Stable merging of lists *)

Section stable.
Context (R : Z → Z → Prop) `{!∀ x y, Decision (R x y)} `{Transitive0 : !Transitive R, !Total R}.

Definition same (x y : Z) : Prop := R x y ∧ R y x.
(** [k] has the entries of [l], and entries that compare equal are in the same order. *)
Definition stable (l k : list Z) : Prop :=
  k ≡ₚ l ∧ ∀ x, filter (same x) k = filter (same x) l.

Lemma stable_refl l : stable l l.
Proof using. done. Qed.
Lemma stable_trans l1 l2 l3 : stable l1 l2 → stable l2 l3 → stable l1 l3.
Proof using. intros [P1 F1] [P2 F2]. split; [by rewrite P2|]. intros x. by rewrite F2. Qed.
Lemma stable_app l l' k k' : stable l l' → stable k k' → stable (l ++ k) (l' ++ k').
Proof using. intros [P1 F1] [P2 F2]. split; [by rewrite P1, P2|]. intros x. by rewrite !filter_app, F1, F2. Qed.

Lemma not_R x y : ¬ R x y → R y x.
Proof. intros Hxy. by destruct (total R x y). Qed.

Lemma list_merge_sorted l1 l2 :
  StronglySorted R l1 → StronglySorted R l2 → StronglySorted R (list_merge R l1 l2).
Proof.
  intros H1 H2. apply Sorted.Sorted_StronglySorted; [exact Transitive0|].
  apply (Sorted_list_merge R); by apply StronglySorted_Sorted.
Qed.

Lemma list_merge_stable l1 l2 :
  StronglySorted R l1 → StronglySorted R l2 → stable (l1 ++ l2) (list_merge R l1 l2).
Proof.
  intros H1 H2. split; [apply merge_Permutation|]. intros x. rewrite filter_app.
  revert l2 H2. induction H1 as [|a l1 H1 IH1 Ha]; intros l2 H2; [by destruct l2|].
  induction H2 as [|b l2 H2 IH2 Hb]; [by rewrite filter_nil, app_nil_r|].
  rewrite list_merge_cons. destruct (decide (R a b)) as [Hab|Hab].
  - rewrite !(filter_cons _ a). specialize (IH1 (b :: l2) ltac:(by constructor)).
    case_decide; simpl; by rewrite IH1.
  - rewrite !(filter_cons _ b), IH2. destruct (decide (same x b)) as [Hxb|]; [|done].
    assert (filter (same x) (a :: l1) = []) as ->; [|done].
    destruct (filter (same x) (a :: l1)) as [|y l] eqn:E; [done|]. exfalso.
    assert (y ∈ filter (same x) (a :: l1)) as [[Hxy Hyx] Hy]%list_elem_of_filter by (rewrite E; set_solver).
    apply Hab. destruct Hxb as [Hxb Hbx]. apply elem_of_cons in Hy as [->|Hy].
    + by etrans.
    + rewrite Forall_forall in Ha. specialize (Ha y Hy). etrans; [exact Ha|]. by etrans.
Qed.
End stable.

(** ** Chains *)

(** [l] are the entries from [a] on, up to a null pointer. *)
Fixpoint chain (h : fheap) (a : Z) (l : list Z) : Prop :=
  match l with
  | [] => a = 0
  | x :: l => a = x ∧ x ≠ 0 ∧ ∃ n, nx h x = Some n ∧ chain h n l
  end.

Lemma chain_frame h h' a l : chain h a l → (∀ x, x ∈ l → h' !! x = h !! x) → chain h' a l.
Proof.
  revert a. induction l as [|x l IH]; intros a; simpl; [done|]. intros (-> & Hx & n & Hn & Hc) Hf.
  split_and!; [done|done|]. exists n. unfold nx in *. rewrite Hf by set_solver. split; [done|].
  apply IH; [done|set_solver].
Qed.
Lemma chain_dom h a l x : chain h a l → x ∈ l → x ∈ dom h.
Proof.
  revert a. induction l as [|y l IH]; intros a; simpl; [set_solver|]. intros (-> & _ & n & Hn & Hc) [->|Hx]%elem_of_cons.
  - apply elem_of_dom. by eapply nx_is_Some.
  - by eapply IH.
Qed.
Lemma chain_nil h a l : chain h a l → (a =? 0) = bool_decide (l = []).
Proof.
  destruct l as [|x l]; simpl; [by intros ->|]. intros (-> & Hx & _). by apply Z.eqb_neq.
Qed.
Lemma chain_size h l a : chain h a l → NoDup l → (length l ≤ size h)%nat.
Proof.
  intros Hc Hnd. rewrite <- size_dom, <- (size_list_to_set (C := gset Z) l) by done.
  apply subseteq_size. intros x Hx%elem_of_list_to_set. by eapply chain_dom.
Qed.
Lemma size_two h la lb a b :
  chain h a la → chain h b lb → NoDup (la ++ lb) → (length la + length lb ≤ size h)%nat.
Proof.
  intros Ha Hb Hnd. rewrite <- length_app, <- size_dom, <- (size_list_to_set (C := gset Z) (la ++ lb)) by done.
  apply subseteq_size. intros x [Hx|Hx]%elem_of_list_to_set%elem_of_app; [by apply (chain_dom h a la)|by apply (chain_dom h b lb)].
Qed.

(** Setting the [next] of an entry. *)
Lemma set_next_lookup h a x b : a ≠ b → with_next a x h !! b = h !! b.
Proof. intros Hab. unfold with_next. case_match; [|done]. by apply lookup_insert_ne. Qed.
Lemma set_prev_lookup h a x b : a ≠ b → with_prev a x h !! b = h !! b.
Proof. intros Hab. unfold with_prev. case_match; [|done]. by apply lookup_insert_ne. Qed.

Section run.
Context (cmp : Z → Z → Z).
Definition le_by (a b : Z) : Prop := cmp a b ≤ 0.
#[export] Instance le_by_dec a b : Decision (le_by a b).
Proof. unfold le_by. apply _. Defined.

(** ** merge *)

Lemma put_next_run h hn tail y :
  (tail ≠ 0 → is_Some (h !! tail)) →
  ∃ h1 hn1, put_next tail y hn h = (Done hn1, h1) ∧ dom h1 = dom h ∧
    (∀ x, x ≠ tail → h1 !! x = h !! x) ∧ (if tail =? 0 then hn1 = y else hn1 = hn ∧ nx h1 tail = Some y).
Proof.
  intros Hti. unfold put_next. destruct (Z.eqb_spec tail 0) as [|Hne]; [by exists h, y|].
  exists (with_next tail y h), hn. rewrite (bind_done _ _ _ _ _ (set_next_run _ _ _ (Hti Hne))).
  split_and!; [done|apply dom_with_next|intros x Hx; by apply set_next_lookup|done|].
  by apply nx_with_next_eq, Hti.
Qed.

(** After the step to [y], with the chains [l1] and [l2] left of the entries [l]. *)
Lemma merge_step (h h1 h' : fheap) hn hn1 r m tail y l1 l2 l :
  y ∈ l → y ≠ 0 → (∀ x, x ∈ l1 ++ l2 → x ∈ l) → y ∉ l1 ++ l2 → tail ∉ l →
  dom h1 = dom h → (∀ x, x ≠ tail → h1 !! x = h !! x) →
  (if tail =? 0 then hn1 = y else hn1 = hn ∧ nx h1 tail = Some y) →
  dom h' = dom h1 → (∀ x, x ∉ y :: l1 ++ l2 → h' !! x = h1 !! x) → chain h' m (list_merge le_by l1 l2) →
  r = hn1 ∧ nx h' y = Some m →
  dom h' = dom h ∧ (∀ x, x ∉ tail :: l → h' !! x = h !! x) ∧
  chain h' y (y :: list_merge le_by l1 l2) ∧ (if tail =? 0 then r = y else r = hn ∧ nx h' tail = Some y).
Proof.
  intros Hy Hy0 Hsub Hout Ht Hd1 Hf1 Hr1 Hd Hfr Hm [-> Hny].
  assert (∀ x, x ∉ l → h' !! x = h1 !! x) as Hfr'.
  { intros x Hx. apply Hfr. intros [->|Hin]%elem_of_cons; [done|]. by apply Hx, Hsub. }
  split_and!.
  - by rewrite Hd.
  - intros z [Hz Hz']%not_elem_of_cons. rewrite Hfr' by done. by apply Hf1.
  - split_and!; [done|done|]. eauto.
  - destruct (tail =? 0); [done|]. destruct Hr1 as [-> Hnt]. split; [done|]. unfold nx in *.
    by rewrite Hfr'.
Qed.

(** Writing outside of a chain. *)
Lemma chain_outside (h h1 : fheap) tail a l :
  chain h a l → tail ∉ l → (∀ x, x ≠ tail → h1 !! x = h !! x) → chain h1 a l.
Proof. intros Hc Ht Hf. eapply chain_frame; [done|]. intros x Hx. apply Hf. by intros ->. Qed.

Lemma merge_loop_run fuel h hn tail a b la lb :
  chain h a la → chain h b lb → NoDup (la ++ lb) → tail ∉ la ++ lb →
  (tail ≠ 0 → is_Some (h !! tail)) → (length la + length lb < fuel)%nat →
  ∃ h' r m, merge_loop cmp fuel hn tail a b h = (Done r, h') ∧ dom h' = dom h ∧
    (∀ x, x ∉ tail :: la ++ lb → h' !! x = h !! x) ∧ chain h' m (list_merge le_by la lb) ∧
    (if tail =? 0 then r = m else r = hn ∧ nx h' tail = Some m).
Proof.
  revert h hn tail a b la lb. induction fuel as [|fuel IH]; intros h hn tail a b la lb Ha Hb Hnd Ht Hti Hf; [lia|].
  cbn [merge_loop]. rewrite (chain_nil _ _ _ Ha), (chain_nil _ _ _ Hb).
  pose proof (λ y, put_next_run h hn tail y Hti) as Hput.
  assert (∀ h1 : fheap, (∀ x, x ≠ tail → h1 !! x = h !! x) → ∀ z, z ∉ tail :: la ++ lb → h1 !! z = h !! z) as Hout.
  { intros h1 Hf1 z [Hz _]%not_elem_of_cons. by apply Hf1. }
  pose proof Ht as [Hta Htb]%not_elem_of_app.
  destruct la as [|x la], lb as [|y lb].
  - simpl in Ha, Hb. subst a b. simpl. destruct (Hput 0) as (h1 & hn1 & E1 & Hd1 & Hf1 & Hr1).
    exists h1, hn1, 0. split_and!; [done|done|by apply Hout|done|done].
  - simpl in Ha. subst a. pose proof Hb as (-> & Hy0 & _). rewrite andb_false_l. simpl negb. cbn match.
    destruct (Hput y) as (h2 & hn2 & E2 & Hd2 & Hf2 & Hr2). exists h2, hn2, y.
    split_and!; [done|done|by apply Hout| |done]. by eapply chain_outside.
  - simpl in Hb. subst b. pose proof Ha as (-> & Hx0 & _). rewrite andb_false_r. simpl negb. cbn match.
    destruct (Hput x) as (h2 & hn2 & E2 & Hd2 & Hf2 & Hr2). exists h2, hn2, x.
    split_and!; [done|done|by apply Hout| |done]. destruct la; by eapply chain_outside.
  - rewrite !bool_decide_eq_false_2 by done. cbn [negb andb].
    destruct Ha as (-> & Hx0 & n & Hn & Hla), Hb as (-> & Hy0 & k & Hk & Hlb).
    apply not_elem_of_cons in Hta as [Htx Hta]. apply not_elem_of_cons in Htb as [Hty Htb].
    rewrite list_merge_cons. unfold le_by at 2. destruct (Z.leb_spec (cmp x y) 0) as [Hle|Hgt].
    + rewrite decide_True by done. destruct (Hput x) as (h1 & hn1 & E1 & Hd1 & Hf1 & Hr1).
      rewrite (bind_done _ _ _ _ _ E1).
      assert (nx h1 x = Some n) as Hn1 by (unfold nx in *; by rewrite Hf1).
      rewrite (fl_get_next (λ n, merge_loop cmp fuel hn1 x n y) _ _ _ Hn1).
      assert (chain h y (y :: lb)) as Hb by (split_and!; eauto).
      simpl in Hnd. apply NoDup_cons in Hnd as [Hxout Hnd]. simpl in Hf.
      destruct (IH h1 hn1 x n y la (y :: lb)) as (h' & r & m & E & Hd & Hfr & Hm & Hr);
        [by eapply chain_outside| |done|done| |simpl; lia|].
      { eapply chain_outside; [done| |done]. by apply not_elem_of_cons. }
      { intros _. by eapply nx_is_Some. }
      rewrite (proj2 (Z.eqb_neq x 0)) in Hr by done. exists h', r, x. split; [done|].
      apply (merge_step h h1 h' hn hn1 r m tail x la (y :: lb) ((x :: la) ++ y :: lb)); try done.
      * by left.
      * intros z Hz. by right.
    + rewrite decide_False by lia. destruct (Hput y) as (h1 & hn1 & E1 & Hd1 & Hf1 & Hr1).
      rewrite (bind_done _ _ _ _ _ E1).
      assert (nx h1 y = Some k) as Hk1 by (unfold nx in *; by rewrite Hf1).
      rewrite (fl_get_next (λ n, merge_loop cmp fuel hn1 y x n) _ _ _ Hk1).
      assert (chain h x (x :: la)) as Ha by (split_and!; eauto).
      rewrite <- Permutation_middle in Hnd. apply NoDup_cons in Hnd as [Hyout Hnd]. simpl in Hf.
      destruct (IH h1 hn1 y x k (x :: la) lb) as (h' & r & m & E & Hd & Hfr & Hm & Hr);
        [|by eapply chain_outside|done|done| |simpl; lia|].
      { eapply chain_outside; [done| |done]. by apply not_elem_of_cons. }
      { intros _. by eapply nx_is_Some. }
      rewrite (proj2 (Z.eqb_neq y 0)) in Hr by done. exists h', r, y. split; [done|].
      apply (merge_step h h1 h' hn hn1 r m tail y (x :: la) lb ((x :: la) ++ y :: lb)); try done.
      * apply elem_of_app. right. by left.
      * intros z [Hz|Hz]%elem_of_app; apply elem_of_app; [by left|right; by right].
Qed.

Lemma chain_nonzero h a l : chain h a l → 0 ∉ l.
Proof.
  revert a. induction l as [|x l IH]; intros a; simpl; [set_solver|]. intros (-> & Hx & n & _ & Hc).
  specialize (IH _ Hc). set_solver.
Qed.

Lemma merge_chains h a b la lb :
  chain h a la → chain h b lb → NoDup (la ++ lb) →
  ∃ h' m, merge cmp a b h = (Done m, h') ∧ dom h' = dom h ∧
    (∀ x, x ≠ 0 → x ∉ la ++ lb → h' !! x = h !! x) ∧ chain h' m (list_merge le_by la lb).
Proof.
  intros Ha Hb Hnd. pose proof (size_two _ _ _ _ _ Ha Hb Hnd) as Hsz.
  destruct (merge_loop_run (S (size h)) h 0 0 a b la lb) as (h' & r & m & E & Hd & Hf & Hm & Hr);
    [done|done|done| |done|lia|].
  { pose proof (chain_nonzero _ _ _ Ha). pose proof (chain_nonzero _ _ _ Hb). set_solver. }
  simpl in Hr. subst r. exists h', m. split_and!; [done|done| |done]. intros x Hx Hx'. apply Hf. set_solver.
Qed.

(** ** The levels *)

Context {Htr : Transitive le_by} {Hto : Total le_by}.
Abbreviation sorted := (StronglySorted le_by).

Lemma chains_frame h h' part parts :
  Forall2 (chain h) part parts → (∀ x, x ∈ concat parts → h' !! x = h !! x) → Forall2 (chain h') part parts.
Proof.
  intros H. induction H as [|a l part parts Ha _ IH]; intros Hf; simpl in *; constructor.
  - eapply chain_frame; [done|]. set_solver.
  - apply IH. set_solver.
Qed.
Lemma chains_nonzero h part parts : Forall2 (chain h) part parts → 0 ∉ concat parts.
Proof. induction 1 as [|a l part parts Ha _ IH]; simpl; [set_solver|]. pose proof (chain_nonzero _ _ _ Ha). set_solver. Qed.

(** The entry of a level. *)
Lemma level_split h part pre p hi :
  Forall2 (chain h) part (pre ++ p :: hi) →
  ∃ p1 a p2, part = p1 ++ a :: p2 ∧ length p1 = length pre ∧ Forall2 (chain h) p1 pre ∧ chain h a p ∧
    Forall2 (chain h) p2 hi ∧
    (∀ A (k : Z → flprog A), (x ← arr_get part (Z.of_nat (length pre)); k x) h = k a h) ∧
    ∀ y (h' : fheap), arr_set (F := fault) part (Z.of_nat (length pre)) y h' = (Done (p1 ++ y :: p2), h').
Proof.
  intros H. apply Forall2_app_inv_r in H as (p1 & p2' & H1 & H2 & ->).
  apply Forall2_cons_inv_r in H2 as (a & p2 & Ha & H2 & ->).
  pose proof (Forall2_length _ _ _ H1) as Hl. exists p1, a, p2. split_and!; [done|done|done|done|done|..].
  - intros A k. unfold arr_get. rewrite (proj2 (Z.ltb_ge _ 0)), Nat2Z.id, <- Hl by lia.
    by rewrite list_lookup_middle.
  - intros y h'. rewrite arr_set_ok, Nat2Z.id, <- Hl by (rewrite length_app; simpl; lia).
    unfold mret. by rewrite insert_app_r_alt, Nat.sub_diag by lia.
Qed.

Lemma carry_run fuel h part lev hi cur lc :
  Forall2 (chain h) part (replicate lev [] ++ hi) → last hi = Some [] → chain h cur lc → lc ≠ [] →
  NoDup (concat hi ++ lc) → Forall sorted hi → sorted lc → (length hi < fuel)%nat →
  ∃ h' part' lo hi' cur' lc', hi = lo ++ [] :: hi' ∧
    carry cmp fuel part (Z.of_nat lev) cur h = (Done (part', Z.of_nat (lev + length lo), cur'), h') ∧
    Forall2 (chain h') part' (replicate (lev + length lo) [] ++ [] :: hi') ∧ chain h' cur' lc' ∧
    sorted lc' ∧ lc' ≠ [] ∧ stable le_by (concat (rev lo) ++ lc) lc' ∧ dom h' = dom h ∧
    ∀ x, x ≠ 0 → x ∉ concat lo ++ lc → h' !! x = h !! x.
Proof.
  revert h part lev hi cur lc. induction fuel as [|fuel IH]; intros h part lev hi cur lc Hp Hlast Hc Hne Hnd Hs Hsc Hf; [lia|].
  destruct hi as [|lp hi]; [done|]. cbn [carry].
  destruct (level_split _ _ _ _ _ Hp) as (p1 & a & p2 & -> & Hl & H1 & Ha & H2 & Hget & Hset).
  rewrite length_replicate in Hget, Hset, Hl. rewrite Hget, (chain_nil _ _ _ Ha).
  destruct (decide (lp = [])) as [->|Hlp].
  { simpl. exists h, (p1 ++ a :: p2), [], hi, cur, lc. simpl. rewrite !Nat.add_0_r. split_and!; try done. }
  rewrite bool_decide_eq_false_2 by done. rename lp into l0.
  simpl in Hnd. rewrite <- app_assoc in Hnd. pose proof Hnd as (Hnd1 & Hdis & Hnd2)%NoDup_app.
  assert (NoDup (l0 ++ lc)) as Hnd0.
  { apply NoDup_app in Hnd2 as (_ & _ & ?). apply NoDup_app. split_and!; [done|set_solver|done]. }
  destruct (merge_chains h a cur l0 lc Ha Hc Hnd0) as (h1 & m & E1 & Hd1 & Hf1 & Hm).
  rewrite (bind_done _ _ _ _ _ E1), (bind_done _ _ _ _ _ (Hset 0 h1)).
  set (lc1 := list_merge le_by l0 lc) in *. apply Forall_cons in Hs as [Hs0 Hs].
  destruct (list_merge_stable le_by l0 lc Hs0 Hsc) as [Hperm Hfilter]. fold lc1 in Hperm, Hfilter.
  assert (Forall2 (chain h1) (p1 ++ 0 :: p2) (replicate (S lev) [] ++ hi)) as Hp1.
  { rewrite replicate_S_end, <- app_assoc. apply Forall2_app; [|constructor; [done|]].
    - eapply chains_frame; [done|]. intros y Hy. exfalso. clear -Hy. induction lev; simpl in *; set_solver.
    - eapply chains_frame; [done|]. intros y Hy. pose proof (chains_nonzero _ _ _ H2). apply Hf1; [set_solver|].
      apply NoDup_app in Hnd2 as (_ & Hd2 & _). specialize (Hd2 y Hy). set_solver. }
  destruct (IH h1 (p1 ++ 0 :: p2) (S lev) hi m lc1) as (h' & part' & lo & hi' & cur' & lc' & -> & E & Hp' & Hc' & Hs' & Hne' & Hst & Hd & Hfr).
  - done.
  - destruct hi as [|l hi]; [by injection Hlast as ->|]. rewrite last_cons_cons in Hlast; exact Hlast.
  - done.
  - intros E. apply (f_equal length) in E. apply Permutation_length in Hperm. rewrite Hperm, length_app in E. destruct l0; simpl in E; [done|lia].
  - by rewrite Hperm, app_assoc, (Permutation_app_comm (concat hi) l0), <- app_assoc.
  - done.
  - by apply list_merge_sorted.
  - simpl in Hf. lia.
  - exists h', part', (l0 :: lo), hi', cur', lc'. replace (lev + length (l0 :: lo))%nat with (S lev + length lo)%nat by (simpl; lia).
    replace (Z.of_nat lev + 1) with (Z.of_nat (S lev)) by lia.
    split_and!; [done|done|done|done|done|done| |by rewrite Hd|].
    + simpl. rewrite concat_app. simpl. rewrite app_nil_r, <- app_assoc. eapply stable_trans; [|exact Hst].
      apply stable_app; [apply stable_refl|]. by split.
    + intros y Hy0 Hy. rewrite Hfr by (rewrite ?Hperm; set_solver). apply Hf1; [done|set_solver].
Qed.

Record levels (h : fheap) (part : list Z) (parts : list (list Z)) (max : nat) : Prop := Levels {
  lv_chain : Forall2 (chain h) part parts;
  lv_len : length parts = 21%nat;
  lv_last : last parts = Some [];
  lv_sorted : Forall sorted parts;
  lv_max : (max ≤ 19)%nat;
  lv_top : ∀ i l, (max < i)%nat → parts !! i = Some l → l = []
}.

Lemma concat_nils n (l : list (list Z)) : concat (rev (replicate n [] ++ l)) = concat (rev l).
Proof.
  induction n as [|n IH]; simpl; [done|]. by rewrite concat_app, IH, app_nil_r.
Qed.

(** Storing the merged chain at a level with nothing up to it. *)
Lemma store_level h part n hi cur lc i :
  Forall2 (chain h) part (replicate n [] ++ [] :: hi) → chain h cur lc → (i ≤ n)%nat →
  ∃ part', arr_set (F := fault) part (Z.of_nat i) cur h = (Done part', h) ∧
    Forall2 (chain h) part' (replicate i [] ++ lc :: replicate (n - i) [] ++ hi).
Proof.
  intros Hp Hc Hi. assert (replicate n [] ++ [] :: hi = replicate i (@nil Z) ++ [] :: replicate (n - i) [] ++ hi) as E.
  { rewrite !(app_comm_cons _ _ []). change ([] :: replicate (n - i) []) with (replicate (S (n - i)) (@nil Z)).
    rewrite app_assoc, <- replicate_add. replace (i + S (n - i))%nat with (S n) by lia.
    by rewrite replicate_S_end, <- app_assoc. }
  rewrite E in Hp. destruct (level_split _ _ _ _ _ Hp) as (p1 & a & p2 & -> & Hl & H1 & Ha & H2 & _ & Hset).
  rewrite length_replicate in Hset. exists (p1 ++ cur :: p2). split; [apply Hset|].
  apply Forall2_app; [done|]. by constructor.
Qed.

Lemma store_levels h part parts max lo hi cur lc i h' part' :
  levels h part parts max → parts = lo ++ [] :: hi →
  Forall2 (chain h') part' (replicate i [] ++ lc :: replicate (length lo - i) [] ++ hi) →
  (i ≤ length lo)%nat → (i ≤ 19)%nat → sorted lc → chain h' cur lc →
  levels h' part' (replicate i [] ++ lc :: replicate (length lo - i) [] ++ hi) (Nat.max max i).
Proof.
  intros [Hch Hlen Hlast Hs Hmax Htop] -> Hp Hi Hi' Hsc _. rewrite length_app in Hlen. simpl in Hlen.
  apply Forall_app in Hs as [_ Hs]. apply Forall_cons in Hs as [_ Hs].
  constructor; [done| | | |lia|].
  - rewrite length_app, length_replicate. simpl. rewrite length_app, length_replicate. lia.
  - rewrite last_app_cons in Hlast. rewrite last_app_cons.
    destruct hi as [|l hi].
    + rewrite app_nil_r. simpl in Hlen. replace (length lo - i)%nat with (S (length lo - i - 1))%nat by lia.
      rewrite replicate_S_end, app_comm_cons, last_snoc. done.
    + rewrite app_comm_cons, last_app_cons. rewrite last_cons_cons in Hlast. done.
  - apply Forall_app. split; [apply Forall_replicate; constructor|]. constructor; [done|].
    apply Forall_app. split; [apply Forall_replicate; constructor|done].
  - intros j l Hj Hl. rewrite lookup_app_r in Hl by (rewrite length_replicate; lia).
    rewrite length_replicate, lookup_cons_ne_0 in Hl by lia.
    apply lookup_app_Some in Hl as [[? _]%lookup_replicate|[Hge Hl]]; [done|].
    rewrite length_replicate in Hge, Hl. apply (Htop j); [lia|].
    rewrite lookup_app_r by lia. rewrite lookup_cons_ne_0 by lia. rewrite <- Hl. f_equal. lia.
Qed.

Lemma flatten_store (lc : list Z) i n hi :
  concat (rev (replicate i [] ++ lc :: replicate n [] ++ hi)) = concat (rev hi) ++ lc.
Proof.
  rewrite concat_nils. simpl. rewrite concat_app, concat_nils. simpl. by rewrite app_nil_r.
Qed.
Lemma flatten_split (lo hi : list (list Z)) :
  concat (rev (lo ++ [] :: hi)) = concat (rev hi) ++ concat (rev lo).
Proof. rewrite rev_app_distr, concat_app. simpl. by rewrite concat_app, app_nil_r. Qed.
Lemma concat_rev_perm (l : list (list Z)) : concat (rev l) ≡ₚ concat l.
Proof. induction l as [|x l IH]; simpl; [done|]. by rewrite concat_app, IH, Permutation_app_comm; simpl; rewrite app_nil_r. Qed.

Lemma distribute_run fuel h part parts max list_ rest :
  levels h part parts max → chain h list_ rest → NoDup (concat parts ++ rest) → (length rest < fuel)%nat →
  ∃ h' part' parts' max', distribute cmp fuel part (Z.of_nat max) list_ h = (Done (part', Z.of_nat max'), h') ∧
    levels h' part' parts' max' ∧ stable le_by (concat (rev parts) ++ rest) (concat (rev parts')) ∧
    dom h' = dom h ∧ ∀ x, x ≠ 0 → x ∉ concat parts ++ rest → h' !! x = h !! x.
Proof.
  revert h part parts max list_ rest.
  induction fuel as [|fuel IH]; intros h part parts max list_ rest Hlv Hc Hnd Hf; [lia|].
  cbn [distribute]. rewrite (chain_nil _ _ _ Hc). destruct rest as [|x rest].
  { simpl. exists h, part, parts, max. rewrite app_nil_r. split_and!; try done. }
  rewrite bool_decide_eq_false_2 by done. destruct Hc as (-> & Hx0 & n & Hn & Hc).
  assert (x ∉ concat parts ++ rest ∧ NoDup (concat parts ++ rest)) as [Hxout Hnd'].
  { rewrite <- Permutation_middle in Hnd. by apply NoDup_cons in Hnd. }
  rewrite (fl_get_next (λ n, set_next x 0;; r ← carry cmp (S (length part)) part 0 x;
    (let '(part, lev, cur) := r in
     let lev := if (Z.of_nat max <? lev) && (Z.of_nat MAX_LIST_LENGTH_BITS <=? lev) then lev - 1 else lev in
     let max_lev := if Z.of_nat max <? lev then lev else Z.of_nat max in
     part ← arr_set part lev cur; distribute cmp fuel part max_lev n)) _ _ _ Hn).
  assert (is_Some (h !! x)) as Hx by (by eapply nx_is_Some).
  rewrite (bind_done _ _ _ _ _ (set_next_run h x 0 Hx)). set (h1 := with_next x 0 h).
  assert (∀ y, y ≠ x → h1 !! y = h !! y) as Hf1 by (intros; by apply set_next_lookup).
  pose proof Hlv as [Hch Hlen Hlast Hs Hmax Htop].
  assert (length part = 21%nat) as Hlp by (by rewrite (Forall2_length _ _ _ Hch)).
  destruct (carry_run (S (length part)) h1 part 0 parts x [x]) as (h2 & part2 & lo & hi & cur & lc & Epar & E2 & Hp2 & Hc2 & Hs2 & Hne2 & Hst2 & Hd2 & Hf2).
  { simpl. eapply chains_frame; [done|]. intros y Hy. apply Hf1. set_solver. }
  { done. }
  { split_and!; [done|done|]. exists 0. split; [by apply nx_with_next_eq|done]. }
  { done. }
  { apply NoDup_app in Hnd' as (? & _ & _). apply NoDup_app. split_and!; [done|set_solver|apply NoDup_singleton]. }
  { done. }
  { repeat constructor. }
  { lia. }
  simpl in E2, Hp2. change 0 with (Z.of_nat 0). rewrite (bind_done _ _ _ _ _ E2). cbn beta iota zeta.
  assert (length lo + S (length hi) = 21)%nat as Hll by (rewrite Epar, length_app in Hlen; simpl in Hlen; lia).
  (* where the chain goes *)
  set (i := if decide (length lo = 20%nat) then 19%nat else length lo).
  assert ((if (Z.of_nat max <? Z.of_nat (length lo)) && (Z.of_nat MAX_LIST_LENGTH_BITS <=? Z.of_nat (length lo))
    then Z.of_nat (length lo) - 1 else Z.of_nat (length lo)) = Z.of_nat i) as ->.
  { unfold i, MAX_LIST_LENGTH_BITS. destruct (Z.ltb_spec (Z.of_nat max) (Z.of_nat (length lo))),
      (Z.leb_spec (Z.of_nat 20) (Z.of_nat (length lo))), (decide (length lo = 20%nat)); simpl; lia. }
  assert ((if Z.of_nat max <? Z.of_nat i then Z.of_nat i else Z.of_nat max) = Z.of_nat (Nat.max max i)) as ->.
  { destruct (Z.ltb_spec (Z.of_nat max) (Z.of_nat i)); lia. }
  assert (i ≤ length lo ∧ i ≤ 19)%nat as [Hi Hi'] by (unfold i; case_decide; lia).
  destruct (store_level h2 part2 (length lo) hi cur lc i Hp2 Hc2 Hi) as (part3 & E3 & Hp3).
  rewrite (bind_done _ _ _ _ _ E3).
  pose proof (store_levels h part parts max lo hi cur lc i h2 part3 Hlv Epar Hp3 Hi Hi' Hs2 Hc2) as Hlv3.
  set (parts3 := replicate i [] ++ lc :: replicate (length lo - i) [] ++ hi) in *.
  pose proof (flatten_store lc i (length lo - i) hi) as Hfl. fold parts3 in Hfl.
  assert (concat parts3 ≡ₚ concat parts ++ [x]) as Hperm3.
  { rewrite <- concat_rev_perm, Hfl, (proj1 Hst2), Epar, <- (concat_rev_perm (lo ++ _)), flatten_split.
    by rewrite app_assoc. }
  destruct (IH h2 part3 parts3 (Nat.max max i) n rest Hlv3) as (h' & part' & parts' & max' & E & Hlv' & Hst & Hd & Hfr).
  { assert (chain h1 n rest) as Hc1 by (eapply chain_frame; [done|]; intros y Hy; apply Hf1; set_solver).
    eapply chain_frame; [done|]. intros y Hy. apply Hf2; [pose proof (chain_nonzero _ _ _ Hc); set_solver|].
    apply NoDup_app in Hnd' as (_ & Hdis & _). intros [Hy'|Hy']%elem_of_app; [|set_solver].
    apply (Hdis y); [|done]. rewrite Epar, concat_app. set_solver. }
  { rewrite Hperm3, <- app_assoc. simpl. done. }
  { simpl in Hf. lia. }
  exists h', part', parts', max'. split_and!; [done|done| | |].
  - eapply stable_trans; [|exact Hst]. rewrite Hfl, Epar, flatten_split, <- (app_assoc (concat (rev hi))), <- app_assoc.
    apply stable_app; [apply stable_refl|]. rewrite (cons_middle x (concat (rev lo)) rest), app_assoc.
    apply stable_app; [done|apply stable_refl].
  - rewrite Hd, Hd2. apply dom_with_next.
  - intros y Hy0 Hy. rewrite Hfr by (rewrite ?Hperm3; set_solver).
    rewrite Hf2, Hf1; [done|set_solver|done|]. intros [Hy'|Hy']%elem_of_app; [|set_solver].
    apply Hy. rewrite Epar, concat_app. set_solver.
Qed.

(** ** The last merges *)

Lemma gather_run h part parts max :
  levels h part parts max → NoDup (concat parts) →
  ∃ h' a la, for_lt 0 (Z.of_nat max) (λ lev list_,
      p ← arr_get part lev; if p =? 0 then mret list_ else merge cmp p list_) 0 h = (Done a, h') ∧
    chain h' a la ∧ sorted la ∧ stable le_by (concat (rev (take max parts))) la ∧ dom h' = dom h ∧
    ∀ x, x ≠ 0 → x ∉ concat (take max parts) → h' !! x = h !! x.
Proof.
  intros [Hch Hlen _ Hs Hmax _] Hnd. unfold for_lt. rewrite Z.sub_0_r, Nat2Z.id.
  destruct (for_n_run (λ i a t, ∃ la, chain t a la ∧ sorted la ∧
      stable le_by (concat (rev (take (Z.to_nat i) parts))) la ∧ dom t = dom h ∧
      ∀ x, x ≠ 0 → x ∉ concat (take (Z.to_nat i) parts) → t !! x = h !! x)
    (λ lev list_, p ← arr_get part lev; if p =? 0 then mret list_ else merge cmp p list_) max 0 0 h)
    as (a & h' & E & la & H); [| |rewrite Z.add_0_l, Nat2Z.id in H; by exists h', a, la].
  { exists []. split_and!; try done. constructor. }
  intros i a t Hi (la & Ha & Hsa & Hst & Hd & Hf). set (m := Z.to_nat i) in *.
  destruct (lookup_lt_is_Some_2 parts m ltac:(lia)) as [lp Hlp].
  destruct (Forall2_lookup_r _ _ _ _ _ Hch Hlp) as (p & Hp & Hcp).
  rewrite (arr_get_ok part i p) by (lia || done). rewrite bind_ret, (chain_nil _ _ _ Hcp).
  replace (Z.to_nat (i + 1)) with (S m) by lia. rewrite (take_S_r _ _ _ Hlp).
  rewrite rev_app_distr, concat_app, !concat_app. simpl. rewrite !app_nil_r.
  destruct (decide (lp = [])) as [->|Hne].
  { rewrite bool_decide_eq_true_2 by done. exists a, t. split; [done|]. exists la. by rewrite app_nil_r. }
  rewrite bool_decide_eq_false_2 by done.
  assert (NoDup (lp ++ concat (take m parts))) as Hnd'.
  { rewrite <- (take_drop_middle _ _ _ Hlp), concat_app in Hnd. simpl in Hnd. rewrite app_assoc in Hnd.
    apply NoDup_app in Hnd as [Hnd _]. by rewrite Permutation_app_comm. }
  assert (la ≡ₚ concat (take m parts)) as Hperm by (by rewrite (proj1 Hst), concat_rev_perm).
  assert (chain t p lp) as Hcp'.
  { eapply chain_frame; [done|]. intros x Hx. apply Hf; [pose proof (chain_nonzero _ _ _ Hcp); set_solver|].
    apply NoDup_app in Hnd' as (_ & Hdis & _). by apply Hdis. }
  destruct (merge_chains t p a lp la Hcp' Ha ltac:(by rewrite Hperm)) as (t' & r & E & Hd' & Hf' & Hr).
  rewrite Forall_lookup in Hs. pose proof (Hs _ _ Hlp) as Hsp.
  exists r, t'. split; [done|]. exists (list_merge le_by lp la). split_and!; [done|by apply list_merge_sorted| |congruence|].
  - eapply stable_trans; [|by apply list_merge_stable]. apply stable_app; [apply stable_refl|done].
  - intros x Hx0 Hx. rewrite Hf' by (rewrite ?Hperm; set_solver). apply Hf; [done|set_solver].
Qed.

(** [l] follows [a], in both directions. *)
Fixpoint linked (h : fheap) (a : Z) (l : list Z) : Prop :=
  match l with
  | [] => True
  | x :: l => nx h a = Some x ∧ pv h x = Some a ∧ linked h x l
  end.
Lemma linked_seg h a l b :
  linked h a l → nx h (last_of a l) = Some b → pv h b = Some (last_of a l) → seg h a l b.
Proof. revert a. induction l as [|x l IH]; intros a; simpl; [done|]. intros (? & ? & ?) ? ?. split_and!; [done..|by apply IH]. Qed.
Lemma linked_app h a l1 l2 : linked h a l1 → linked h (last_of a l1) l2 → linked h a (l1 ++ l2).
Proof. revert a. induction l1 as [|x l1 IH]; intros a; simpl; [done|]. intros (? & ? & ?) ?. split_and!; [done..|by apply IH]. Qed.
Lemma last_of_app a l1 l2 : last_of a (l1 ++ l2) = last_of (last_of a l1) l2.
Proof. revert a. induction l1 as [|x l1 IH]; intros a; simpl; [done|]. apply IH. Qed.
Lemma linked_frame h h' a l :
  linked h a l → (∀ x, x ∈ l → pv h' x = pv h x) → (∀ l1 x l2, a :: l = l1 ++ x :: l2 → l2 ≠ [] → nx h' x = nx h x) →
  linked h' a l.
Proof.
  revert a. induction l as [|x l IH]; intros a; simpl; [done|]. intros (Hn & Hp & Hl) Hpv Hnx. split_and!.
  - by rewrite (Hnx [] a (x :: l)).
  - rewrite Hpv; [done|]. by left.
  - apply IH; [done| |].
    + intros y Hy. apply Hpv. by right.
    + intros l1 y l2 E. apply (Hnx (a :: l1) y l2). simpl. by rewrite E.
Qed.

Lemma back_merge_run fuel h tail a b la lb :
  chain h a la → chain h b lb → NoDup (tail :: la ++ lb) → la ++ lb ≠ [] → is_Some (h !! tail) →
  (length la + length lb < fuel)%nat →
  ∃ h' l1 l2 m, back_merge cmp fuel tail a b h = (Done (last_of tail l1), h') ∧
    list_merge le_by la lb = l1 ++ l2 ∧ l2 ≠ [] ∧ linked h' tail l1 ∧ nx h' (last_of tail l1) = Some m ∧
    chain h' m l2 ∧ dom h' = dom h ∧ pv h' tail = pv h tail ∧ ∀ x, x ∉ tail :: la ++ lb → h' !! x = h !! x.
Proof.
  revert h tail a b la lb. induction fuel as [|fuel IH]; intros h tail a b la lb Ha Hb Hnd Hne Ht Hf; [lia|].
  cbn [back_merge]. rewrite (chain_nil _ _ _ Ha), (chain_nil _ _ _ Hb).
  (* the end of the loop, with the chain [l] at [y] left *)
  assert (∀ y l, chain h y l → list_merge le_by la lb = l → l ≠ [] → tail ∉ l →
    ∃ h' l1 l2 m, (set_next tail y;; mret tail) h = (Done (last_of tail l1), h') ∧
    list_merge le_by la lb = l1 ++ l2 ∧ l2 ≠ [] ∧ linked h' tail l1 ∧ nx h' (last_of tail l1) = Some m ∧
    chain h' m l2 ∧ dom h' = dom h ∧ pv h' tail = pv h tail ∧ ∀ x, x ∉ tail :: la ++ lb → h' !! x = h !! x) as Hend.
  { intros y l Hy El Hl Htl. exists (with_next tail y h), [], l, y. rewrite (bind_done _ _ _ _ _ (set_next_run _ _ _ Ht)).
    split_and!; [done|done|done|done|by apply nx_with_next_eq| |apply dom_with_next|apply pv_with_next|].
    - eapply chain_outside; [done|done|]. intros z Hz. by apply set_next_lookup.
    - intros z [Hz _]%not_elem_of_cons. by apply set_next_lookup. }
  (* a turn, with [y] taken and [n] next *)
  assert (∀ y n, y ≠ tail → is_Some (h !! y) → nx h y = Some n →
    ∃ h1, (∀ A (k : Z → flprog A), (set_next tail y;; set_prev y tail;; e ← fl_get y; k (fl_next e)) h = k n h1) ∧
      dom h1 = dom h ∧ nx h1 tail = Some y ∧ pv h1 y = Some tail ∧ pv h1 tail = pv h tail ∧
      (∀ x, x ≠ tail → nx h1 x = nx h x) ∧ ∀ x, x ≠ tail → x ≠ y → h1 !! x = h !! x) as Hturn.
  { intros y n Hyt Hy Hn. exists (with_prev y tail (with_next tail y h)). split_and!.
    - intros A k. rewrite (bind_done _ _ _ _ _ (set_next_run _ _ _ Ht)).
      rewrite (bind_done _ _ _ _ _ (set_prev_run _ y tail ltac:(by apply is_Some_with_next))).
      apply fl_get_next. by rewrite nx_with_prev, nx_with_next by done.
    - by rewrite dom_with_prev, dom_with_next.
    - by rewrite nx_with_prev, nx_with_next_eq.
    - rewrite pv_with_prev_eq; [done|]. by apply is_Some_with_next.
    - by rewrite pv_with_prev, pv_with_next.
    - intros x Hx. by rewrite nx_with_prev, nx_with_next.
    - intros x Hx Hx'. by rewrite set_prev_lookup, set_next_lookup. }
  apply NoDup_cons in Hnd as [Htout Hnd].
  (* what is known after the rest of the loop *)
  assert (∀ h1 h' y l1 l2 m l k, nx h1 tail = Some y → pv h1 y = Some tail → pv h1 tail = pv h tail →
    dom h1 = dom h → (∀ x, x ≠ tail → x ≠ y → h1 !! x = h !! x) → tail ∉ y :: k → (∀ x, x ∈ y :: k → x ∈ la ++ lb) →
    l = l1 ++ l2 ∧ l2 ≠ [] ∧ linked h' y l1 ∧ nx h' (last_of y l1) = Some m ∧ chain h' m l2 ∧
      dom h' = dom h1 ∧ pv h' y = pv h1 y ∧ (∀ x, x ∉ y :: k → h' !! x = h1 !! x) →
    y :: l = (y :: l1) ++ l2 ∧ l2 ≠ [] ∧ linked h' tail (y :: l1) ∧ nx h' (last_of tail (y :: l1)) = Some m ∧
      chain h' m l2 ∧ dom h' = dom h ∧ pv h' tail = pv h tail ∧ ∀ x, x ∉ tail :: la ++ lb → h' !! x = h !! x) as Hfin.
  { intros h1 h' y l1 l2 m l k Hn Hp Hpt Hd1 Hf1 Htk Hsub (-> & Hl2 & Hl & Hm & Hc & Hd & Hpy & Hfr).
    split_and!; [done|done|split_and!|done|done|congruence| |].
    - unfold nx in *. by rewrite Hfr.
    - by rewrite Hpy.
    - done.
    - rewrite <- Hpt. unfold pv. by rewrite Hfr.
    - intros x [Hx Hx']%not_elem_of_cons. rewrite Hfr; [apply Hf1; [done|]|].
      + intros ->. apply Hx', Hsub. by left.
      + intros Hin. by apply Hx', Hsub. }
  destruct la as [|x la], lb as [|y lb]; [done|..].
  - simpl in Ha. subst a. pose proof Hb as (-> & _). simpl. apply (Hend y (y :: lb)); done.
  - simpl in Hb. subst b. pose proof Ha as (-> & Hx0 & _). rewrite bool_decide_eq_false_2 by done. simpl.
    rewrite app_nil_r in Htout. by apply (Hend x (x :: la)).
  - rewrite !bool_decide_eq_false_2 by done. cbn [negb andb].
    destruct Ha as (-> & Hx0 & n & Hn & Hla), Hb as (-> & Hy0 & k & Hk & Hlb).
    assert (x ≠ tail) as Hxt by (intros ->; apply Htout; by left).
    assert (y ≠ tail) as Hyt by (intros ->; apply Htout, elem_of_app; right; by left).
    rewrite list_merge_cons. unfold le_by at 2. destruct (Z.leb_spec (cmp x y) 0) as [Hle|Hgt].
    + rewrite decide_True by done. destruct (Hturn x n Hxt ltac:(by eapply nx_is_Some) Hn) as (h1 & E1 & Hd1 & H1 & H2 & H3 & H4 & H5).
      rewrite (E1 Z (λ n, back_merge cmp fuel x n y)). clear Hturn Hend.
      pose proof Hnd as [Hxout Hnd0]%NoDup_cons.
      destruct (IH h1 x n y la (y :: lb)) as (h' & l1 & l2 & m & E & Hrest); [| |done|by destruct la| |simpl in Hf |- *; lia|].
      { eapply chain_frame; [done|]. intros z Hz. apply H5; intros ->; [apply Htout|apply Hxout]; clear -Hz; set_solver. }
      { eapply chain_frame; [split_and!; eauto|]. intros z Hz. apply H5; intros ->; [apply Htout|apply Hxout]; clear -Hz; set_solver. }
      { rewrite <- elem_of_dom, Hd1, elem_of_dom. by eapply nx_is_Some. }
      exists h', (x :: l1), l2, m. split; [exact E|].
      apply (Hfin h1 h' x l1 l2 m _ (la ++ y :: lb)); try done.
    + rewrite decide_False by lia. destruct (Hturn y k Hyt ltac:(by eapply nx_is_Some) Hk) as (h1 & E1 & Hd1 & H1 & H2 & H3 & H4 & H5).
      rewrite (E1 Z (λ n, back_merge cmp fuel y x n)). clear Hturn Hend.
      pose proof Hnd as Hnd'. rewrite <- Permutation_middle in Hnd'. pose proof Hnd' as [Hyout Hnd0]%NoDup_cons.
      destruct (IH h1 y x k (x :: la) lb) as (h' & l1 & l2 & m & E & Hrest); [| |done|done| |simpl in Hf |- *; lia|].
      { eapply chain_frame; [split_and!; eauto|]. intros z Hz. apply H5; intros ->; [apply Htout|apply Hyout]; clear -Hz; set_solver. }
      { eapply chain_frame; [done|]. intros z Hz. apply H5; intros ->; [apply Htout|apply Hyout]; clear -Hz; set_solver. }
      { rewrite <- elem_of_dom, Hd1, elem_of_dom. by eapply nx_is_Some. }
      exists h', (y :: l1), l2, m. split; [exact E|].
      apply (Hfin h1 h' y l1 l2 m _ ((x :: la) ++ lb)); try done.
      * rewrite <- Permutation_middle in Htout. done.
      * intros z. by rewrite <- Permutation_middle.
Qed.

Lemma back_links_run fuel h tail m l :
  nx h tail = Some m → chain h m l → l ≠ [] → NoDup (tail :: l) → (length l ≤ fuel)%nat →
  ∃ h', back_links fuel tail h = (Done (last_of tail l), h') ∧ linked h' tail l ∧ dom h' = dom h ∧
    (∀ x, nx h' x = nx h x) ∧ ∀ x, x ∉ l → h' !! x = h !! x.
Proof.
  revert fuel h tail m. induction l as [|x l IH]; intros fuel h tail m Hm Hc Hne Hnd Hf; [done|].
  destruct fuel as [|fuel]; [simpl in Hf; lia|]. cbn [back_links].
  destruct Hc as (-> & Hx0 & n & Hn & Hc).
  rewrite (fl_get_next (λ y, set_prev y tail;; e ← fl_get y;
    if fl_next e =? 0 then mret y else back_links fuel y) _ _ _ Hm).
  assert (is_Some (h !! x)) as Hx by (by eapply nx_is_Some).
  rewrite (bind_done _ _ _ _ _ (set_prev_run h x tail Hx)). set (h1 := with_prev x tail h).
  assert (nx h1 x = Some n) as Hn1 by (unfold h1; by rewrite nx_with_prev).
  rewrite (fl_get_next (λ n, if n =? 0 then mret x else back_links fuel x) _ _ _ Hn1).
  apply NoDup_cons in Hnd as [Htout Hnd]. apply not_elem_of_cons in Htout as [Htx Htl].
  assert (chain h1 n l) as Hc1.
  { eapply (chain_outside h h1 x); [done|by apply NoDup_cons in Hnd as [? _]|].
    intros y Hy. by apply set_prev_lookup. }
  assert (pv h1 x = Some tail) as Hp1 by (by apply pv_with_prev_eq).
  assert (nx h1 tail = Some x) as Ht1 by (unfold h1; by rewrite nx_with_prev).
  rewrite (chain_nil _ _ _ Hc1). destruct (decide (l = [])) as [->|Hl].
  - exists h1. simpl. split_and!; try done; [apply dom_with_prev|intros; apply nx_with_prev|].
    intros y [Hy _]%not_elem_of_cons. by apply set_prev_lookup.
  - rewrite bool_decide_eq_false_2 by done.
    destruct (IH fuel h1 x n Hn1 Hc1 Hl Hnd ltac:(simpl in Hf; lia)) as (h' & E & Hlk & Hd & Hnx & Hfr).
    exists h'. split_and!; [done|split_and!|..].
    + by rewrite Hnx.
    + apply NoDup_cons in Hnd as [Hxl _]. unfold pv in *. by rewrite Hfr.
    + done.
    + rewrite Hd. apply dom_with_prev.
    + intros y. rewrite Hnx. apply nx_with_prev.
    + intros y [Hy Hy']%not_elem_of_cons. rewrite Hfr by done. by apply set_prev_lookup.
Qed.

Lemma restore_run h head a b la lb :
  chain h a la → chain h b lb → NoDup (head :: la ++ lb) → la ++ lb ≠ [] → is_Some (h !! head) →
  ∃ h', merge_and_restore_back_links cmp head a b h = (Done tt, h') ∧ ring h' head (list_merge le_by la lb) ∧
    dom h' = dom h ∧ ∀ x, x ∉ head :: la ++ lb → h' !! x = h !! x.
Proof.
  intros Ha Hb Hnd Hne Hh. pose proof Hnd as [Hhout Hnd']%NoDup_cons.
  pose proof (size_two _ _ _ _ _ Ha Hb Hnd') as Hsz.
  destruct (back_merge_run (S (size h)) h head a b la lb Ha Hb Hnd Hne Hh ltac:(lia))
    as (h1 & l1 & l2 & m & E1 & El & Hl2 & Hlk1 & Hm & Hc & Hd1 & _ & Hf1).
  unfold merge_and_restore_back_links. rewrite (bind_done (readS _) _ h h _ eq_refl), (bind_done _ _ _ _ _ E1).
  set (l := list_merge le_by la lb) in *. assert (l ≡ₚ la ++ lb) as Hperm by apply merge_Permutation.
  assert (NoDup (head :: l)) as Hndl by (by rewrite Hperm). rewrite El in Hndl.
  set (t1 := last_of head l1) in *. assert (t1 ∈ head :: l1) as Ht1 by apply last_of_in.
  pose proof Hndl as Hnd2. rewrite app_comm_cons in Hnd2. apply NoDup_app in Hnd2 as (_ & Hdis & Hnd2).
  destruct (back_links_run (S (size h)) h1 t1 m l2 Hm Hc Hl2) as (h2 & E2 & Hlk2 & Hd2 & Hnx2 & Hf2).
  { apply NoDup_cons. split; [by apply Hdis|done]. }
  { apply Permutation_length in Hperm. rewrite El, !length_app in Hperm. lia. }
  rewrite (bind_done _ _ _ _ _ E2). 
  assert (last_of t1 l2 = last_of head l) as -> by (by rewrite El, last_of_app). set (t := last_of head l).
  assert (t ∈ l) as Ht.
  { unfold t. rewrite El, last_of_app. destruct l2 as [|y l2]; [done|]. apply elem_of_app. right.
    exact (last_of_in y l2). }
  rewrite <- El in Hndl. pose proof Hndl as [Hhl Hndl']%NoDup_cons.
  assert (is_Some (h2 !! t)) as Hti.
  { rewrite <- elem_of_dom, Hd2, Hd1. rewrite Hperm in Ht. apply elem_of_app in Ht as [Ht|Ht].
    - by apply (chain_dom h a la). - by apply (chain_dom h b lb). }
  rewrite (bind_done _ _ _ _ _ (set_next_run h2 t head Hti)).
  assert (is_Some (with_next t head h2 !! head)) as Hhi.
  { apply is_Some_with_next. by rewrite <- elem_of_dom, Hd2, Hd1, elem_of_dom. }
  rewrite (set_prev_run _ head t Hhi). eexists. split; [done|]. split_and!.
  - split; [|done]. apply linked_seg.
    + apply (linked_frame h2).
      * rewrite El. apply linked_app; [|done]. eapply linked_frame; [done| |intros; by rewrite Hnx2].
        intros x Hx. unfold pv. rewrite Hf2; [done|]. apply Hdis. by right.
      * intros x Hx. rewrite pv_with_prev, pv_with_next; [done|]. by intros ->.
      * intros k1 x k2 Ek Hk2. rewrite nx_with_prev, nx_with_next; [done|]. intros <-.
        assert (t = last_of head l) as Et by done. clearbody t. rewrite Ek in Hndl. clear -Ek Hndl Hk2 Et.
        destruct k1 as [|y k1]; injection Ek as <- ->.
        { destruct k2 as [|z k2]; [done|]. apply NoDup_cons in Hndl as [Hout _]. apply Hout.
          rewrite Et. exact (last_of_in z k2). }
        rewrite last_of_app in Et. simpl in Et. destruct k2 as [|z k2]; [done|]. simpl in Et.
        simpl in Hndl. apply NoDup_cons in Hndl as [_ Hndl]. apply NoDup_app in Hndl as (_ & _ & Hndl).
        apply NoDup_cons in Hndl as [Hout _]. apply Hout. rewrite Et. exact (last_of_in z k2).
    + fold t. by rewrite nx_with_prev, nx_with_next_eq.
    + fold t. by apply pv_with_prev_eq.
  - by rewrite dom_with_prev, dom_with_next, Hd2.
  - intros x Hx. apply not_elem_of_cons in Hx as [Hxh Hx].
    rewrite set_prev_lookup, set_next_lookup by (try congruence; intros ->; apply Hx; by rewrite <- Hperm).
    rewrite Hf2, Hf1; [done|by apply not_elem_of_cons|]. intros Hin. apply Hx. rewrite <- Hperm, El. apply elem_of_app. by right.
Qed.

(** ** Sorting *)

Lemma seg_chain h a l b :
  seg h a l b → NoDup l → l ≠ [] → Forall (.≠ 0) l → chain (with_next (last_of a l) 0 h) (first_of l b) l.
Proof.
  revert a. induction l as [|x l IH]; intros a Hs Hnd Hne Hnz; [done|].
  simpl in Hs. destruct Hs as (_ & _ & Hs). apply NoDup_cons in Hnd as [Hx Hnd].
  apply Forall_cons in Hnz as [Hx0 Hnz]. simpl. split_and!; [done|done|].
  destruct l as [|y l].
  - exists 0. split; [|done]. apply nx_with_next_eq. apply (nx_is_Some h x b). by destruct Hs.
  - exists y. split; [|by apply (IH x)]. rewrite nx_with_next; [by destruct Hs|].
    intros E. apply Hx. rewrite <- E. exact (last_of_in y l).
Qed.

Lemma no_levels h : levels h (replicate (S MAX_LIST_LENGTH_BITS) 0) (replicate (S MAX_LIST_LENGTH_BITS) []) 0.
Proof.
  constructor; [|done|done| |lia|].
  - by apply Forall2_replicate.
  - apply Forall_replicate. constructor.
  - intros i l _ [-> _]%lookup_replicate. done.
Qed.

(** Nothing is above the top level. *)
Lemma concat_top h part parts max lp :
  levels h part parts max → parts !! max = Some lp → concat (rev parts) = lp ++ concat (rev (take max parts)).
Proof.
  intros Hlv Hlp. rewrite <- (take_drop_middle _ _ _ Hlp) at 1. 
  assert (concat (rev (drop (S max) parts)) = []) as E.
  { apply concat_nil_Forall, Forall_rev, Forall_lookup. intros i l. rewrite lookup_drop.
    apply (lv_top _ _ _ _ Hlv). lia. }
  rewrite rev_app_distr. simpl. by rewrite !concat_app, E; simpl; rewrite app_nil_r.
Qed.

(** C27: sorting a list of non-null entries by a comparison that is a total
    preorder leaves a well-formed ring through the head with the same entries:
    in order, entries that compare equal in the order they had (also when the
    list is longer than the levels provide for), and nothing else is written. *)
Theorem flist_sort_sorts h hd l :
  ring h hd l → Forall (.≠ 0) l →
  ∃ h' k, flist_sort cmp hd h = (Done tt, h') ∧ ring h' hd k ∧ sorted k ∧ stable le_by l k ∧
    dom h' = dom h ∧ ∀ x, x ≠ 0 → x ∉ hd :: l → h' !! x = h !! x.
Proof.
  intros Hr Hnz. unfold flist_sort. rewrite (bind_done _ _ _ _ _ (flist_empty_run _ _ _ Hr)).
  destruct (decide (l = [])) as [->|Hne].
  { rewrite bool_decide_eq_true_2 by done. exists h, []. split_and!; try done. constructor. }
  rewrite bool_decide_eq_false_2 by done. pose proof Hr as [Hs Hnd].
  pose proof Hnd as [Hhd Hndl]%NoDup_cons.
  rewrite (fl_get_prev (λ p, set_next p 0;; _) _ _ _ (seg_last _ _ _ _ Hs)).
  set (t := last_of hd l). assert (t ∈ hd :: l) as Ht by apply last_of_in.
  pose proof (seg_chain _ _ _ _ Hs Hndl Hne Hnz) as Hc. fold t in Hc.
  rewrite (bind_done _ _ _ _ _ (set_next_run h t 0 (seg_in _ _ _ _ _ Hs Ht))).
  set (h1 := with_next t 0 h) in *. assert (t ≠ hd) as Hthd.
  { intros E. apply Hhd. rewrite <- E. unfold t. destruct l as [|y l]; [done|]. exact (last_of_in y l). }
  rewrite (fl_get_next (λ n, fuel ← readS _; r ← distribute cmp fuel _ 0 n; _) h1 hd (first_of l hd))
    by (unfold h1; rewrite nx_with_next by done; by apply (seg_first _ _ _ _ Hs)).
  rewrite (bind_done (readS _) _ h1 h1 _ eq_refl).
  pose proof (chain_size _ _ _ Hc Hndl) as Hsz.
  destruct (distribute_run (S (size h1)) h1 _ _ 0 _ l (no_levels h1) Hc Hndl ltac:(lia))
    as (h2 & part & parts & max & E2 & Hlv & Hst & Hd2 & Hf2).
  change (concat (rev (replicate (S MAX_LIST_LENGTH_BITS) [])) ++ l) with l in Hst.
  change (concat (replicate (S MAX_LIST_LENGTH_BITS) []) ++ l) with l in Hf2.
  rewrite (bind_done _ _ _ _ _ E2). cbn beta iota.
  assert (NoDup (concat parts)) as Hndp by (by rewrite <- concat_rev_perm, (proj1 Hst)).
  destruct (gather_run h2 part parts max Hlv Hndp) as (h3 & a & la & E3 & Ha & Hsa & Hsta & Hd3 & Hf3).
  rewrite (bind_done _ _ _ _ _ E3).
  pose proof Hlv as [Hch Hlen _ Hso Hmax _].
  destruct (lookup_lt_is_Some_2 parts max ltac:(lia)) as [lp Hlp].
  destruct (Forall2_lookup_r _ _ _ _ _ Hch Hlp) as (p & Hp & Hcp).
  rewrite (arr_get_ok part _ p) by (lia || by rewrite Nat2Z.id). rewrite bind_ret.
  rewrite (concat_top _ _ _ _ _ Hlv Hlp) in Hst.
  assert (stable le_by l (lp ++ la)) as Hst'.
  { eapply stable_trans; [exact Hst|]. apply stable_app; [apply stable_refl|done]. }
  assert (chain h3 p lp) as Hcp3.
  { eapply chain_frame; [done|]. intros x Hx. apply Hf3; [pose proof (chain_nonzero _ _ _ Hcp); set_solver|].
    rewrite <- (take_drop_middle _ _ _ Hlp), concat_app in Hndp. apply NoDup_app in Hndp as (_ & Hdis & _).
    intros Hx'. apply (Hdis x Hx'). simpl. apply elem_of_app. by left. }
  rewrite <- (proj1 Hst') in Hndl, Hhd.
  assert (lp ++ la ≠ []) as Hne' by (intros E; apply Hne; apply Permutation_nil_r; by rewrite <- (proj1 Hst'), E).
  destruct (restore_run h3 hd p a lp la Hcp3 Ha) as (h4 & E4 & Hr4 & Hd4 & Hf4); [by apply NoDup_cons|done| |].
  { rewrite <- elem_of_dom, Hd3, Hd2. unfold h1. rewrite dom_with_next, elem_of_dom.
    apply (seg_in _ _ _ _ _ Hs). by left. }
  rewrite Forall_lookup in Hso. pose proof (Hso _ _ Hlp) as Hsp.
  exists h4, (list_merge le_by lp la). split_and!; [done|done|by apply list_merge_sorted| | |].
  - eapply stable_trans; [exact Hst'|]. by apply list_merge_stable.
  - rewrite Hd4, Hd3, Hd2. apply dom_with_next.
  - intros x Hx0 Hx. rewrite Hf4 by (by rewrite (proj1 Hst')).
    apply not_elem_of_cons in Hx as [Hxh Hx].
    rewrite Hf3, Hf2; [|done|done|done|].
    + apply set_next_lookup. intros <-. apply elem_of_cons in Ht as [Ht|Ht]; congruence.
    + intros Hin. apply Hx. rewrite <- (proj1 Hst'). apply elem_of_app. right.
      rewrite (proj1 Hsta), concat_rev_perm. done.
Qed.
End run.

(** ** Witness *)

(** Eight entries, ordered by their last digit. *)
Definition by_digit (a b : Z) : Z := a mod 10 - b mod 10.
Definition digits_ring : fheap :=
  list_to_map [(1000, FlistHead 5 73); (5, FlistHead 13 1000); (13, FlistHead 17 5); (17, FlistHead 25 13);
               (25, FlistHead 33 17); (33, FlistHead 42 25); (42, FlistHead 61 33); (61, FlistHead 73 42);
               (73, FlistHead 1000 61)].
Definition digit_entries : list Z := [5; 13; 17; 25; 33; 42; 61; 73].

Lemma by_digit_trans : Transitive (le_by by_digit).
Proof. intros x y z. unfold le_by, by_digit. lia. Qed.
Lemma by_digit_total : Total (le_by by_digit).
Proof. intros x y. unfold le_by, by_digit. lia. Qed.

Lemma flist_sort_sorts_witness :
  ring digits_ring 1000 digit_entries ∧ Forall (.≠ 0) digit_entries ∧
  fst (flist_sort by_digit 1000 digits_ring) = Done tt ∧
  fst (flist_for_each 9 61 1000 (snd (flist_sort by_digit 1000 digits_ring))) = Done [61; 42; 13; 33; 73; 5; 25; 17] ∧
  ∃ h' k, flist_sort by_digit 1000 digits_ring = (Done tt, h') ∧ ring h' 1000 k ∧
    StronglySorted (le_by by_digit) k ∧ stable (le_by by_digit) digit_entries k ∧
    dom h' = dom digits_ring ∧ ∀ x, x ≠ 0 → x ∉ 1000 :: digit_entries → h' !! x = digits_ring !! x.
Proof.
  assert (ring digits_ring 1000 digit_entries) as Hr by (split; [vm_compute; tauto|apply (bool_decide_unpack _); by vm_compute]).
  assert (Forall (.≠ 0) digit_entries) as Hz by (apply (bool_decide_unpack _); by vm_compute).
  split; [exact Hr|]. split; [exact Hz|]. split; [by vm_compute|]. split; [by vm_compute|].
  exact (@flist_sort_sorts by_digit by_digit_trans by_digit_total digits_ring 1000 digit_entries Hr Hz).
Defined.
