(* ===== verification/FioHash.v ===== *)
(** * fio: hashes (crc/md5.c, sha1.c, sha256.c, sha512.c, xxhash.c)

    The hashes that blocks are verified with, on messages given as lists of bytes.
    Words are read from memory as on a little endian machine. *)
From Stdlib Require Import ZArith Lia.
From stdpp Require Import base numbers list.
From S2P Require Import Prelude FioBits FioCrc.

(** ** Words *)

Definition le_word (bs : list Z) : Z := foldr (λ b w, b + 256 * w) 0 bs.
Definition be_word (bs : list Z) : Z := foldl (λ w b, 256 * w + b) 0 bs.
(** The word [i] of [n] bytes. *)
Definition word_at (load : list Z → Z) (n : nat) (bs : list Z) (i : Z) : Z :=
  load (take n (drop (Z.to_nat i * n) bs)).

(** [(x << r) | (x >> (w - r))] and [(x >> r) | (x << (w - r))]. *)
Definition rol32 (x r : Z) : Z := Z.lor (u32 (Z.shiftl x r)) (Z.shiftr x (32 - r)).
Definition ror32 (x r : Z) : Z := Z.lor (Z.shiftr x r) (u32 (Z.shiftl x (32 - r))).
Definition ror64 (x r : Z) : Z := Z.lor (Z.shiftr x r) (u64 (Z.shiftl x (64 - r))).

(** [while (len >= n) { h = f(h, p); p += n; len -= n; }]. *)
Fixpoint each_block {H} (n : nat) (f : H → list Z → H) (fuel : nat) (h : H) (p : list Z) : H * list Z :=
  match fuel with
  | O => (h, p)
  | S fuel =>
      if (n <=? length p)%nat then each_block n f fuel (f h (take n p)) (drop n p) else (h, p)
  end.

(** [memcpy(&buf[i], data, len)]. *)
Definition memcpy_at (i : nat) (data buf : list Z) : list Z :=
  take i buf ++ data ++ drop (i + length data) buf.

(** ** md5.c *)

Definition F1 (x y z : Z) : Z := Z.lxor z (Z.land x (Z.lxor y z)).
Definition F2 (x y z : Z) : Z := F1 z x y.
Definition F3 (x y z : Z) : Z := Z.lxor (Z.lxor x y) z.
Definition F4 (x y z : Z) : Z := Z.lxor y (Z.lor x (Z.lxor z (2 ^ 32 - 1))).
Definition MD5STEP (f : Z → Z → Z → Z) (w x y z in_ s : Z) : Z :=
  u32 (rol32 (u32 (w + f x y z + in_)) s + x).

(** The function, the index into [in], the constant and the shift of every line. *)
Definition md5_steps : list ((Z → Z → Z → Z) * Z * Z * Z) :=
  [(F1, 0, 0xd76aa478, 7); (F1, 1, 0xe8c7b756, 12); (F1, 2, 0x242070db, 17); (F1, 3, 0xc1bdceee, 22);
   (F1, 4, 0xf57c0faf, 7); (F1, 5, 0x4787c62a, 12); (F1, 6, 0xa8304613, 17); (F1, 7, 0xfd469501, 22);
   (F1, 8, 0x698098d8, 7); (F1, 9, 0x8b44f7af, 12); (F1, 10, 0xffff5bb1, 17); (F1, 11, 0x895cd7be, 22);
   (F1, 12, 0x6b901122, 7); (F1, 13, 0xfd987193, 12); (F1, 14, 0xa679438e, 17); (F1, 15, 0x49b40821, 22);
   (F2, 1, 0xf61e2562, 5); (F2, 6, 0xc040b340, 9); (F2, 11, 0x265e5a51, 14); (F2, 0, 0xe9b6c7aa, 20);
   (F2, 5, 0xd62f105d, 5); (F2, 10, 0x02441453, 9); (F2, 15, 0xd8a1e681, 14); (F2, 4, 0xe7d3fbc8, 20);
   (F2, 9, 0x21e1cde6, 5); (F2, 14, 0xc33707d6, 9); (F2, 3, 0xf4d50d87, 14); (F2, 8, 0x455a14ed, 20);
   (F2, 13, 0xa9e3e905, 5); (F2, 2, 0xfcefa3f8, 9); (F2, 7, 0x676f02d9, 14); (F2, 12, 0x8d2a4c8a, 20);
   (F3, 5, 0xfffa3942, 4); (F3, 8, 0x8771f681, 11); (F3, 11, 0x6d9d6122, 16); (F3, 14, 0xfde5380c, 23);
   (F3, 1, 0xa4beea44, 4); (F3, 4, 0x4bdecfa9, 11); (F3, 7, 0xf6bb4b60, 16); (F3, 10, 0xbebfbc70, 23);
   (F3, 13, 0x289b7ec6, 4); (F3, 0, 0xeaa127fa, 11); (F3, 3, 0xd4ef3085, 16); (F3, 6, 0x04881d05, 23);
   (F3, 9, 0xd9d4d039, 4); (F3, 12, 0xe6db99e5, 11); (F3, 15, 0x1fa27cf8, 16); (F3, 2, 0xc4ac5665, 23);
   (F4, 0, 0xf4292244, 6); (F4, 7, 0x432aff97, 10); (F4, 14, 0xab9423a7, 15); (F4, 5, 0xfc93a039, 21);
   (F4, 12, 0x655b59c3, 6); (F4, 3, 0x8f0ccc92, 10); (F4, 10, 0xffeff47d, 15); (F4, 1, 0x85845dd1, 21);
   (F4, 8, 0x6fa87e4f, 6); (F4, 15, 0xfe2ce6e0, 10); (F4, 6, 0xa3014314, 15); (F4, 13, 0x4e0811a1, 21);
   (F4, 4, 0xf7537e82, 6); (F4, 11, 0xbd3af235, 10); (F4, 2, 0x2ad7d2bb, 15); (F4, 9, 0xeb86d391, 21)].

(** The lines name the variables in turn [a b c d], [d a b c], [c d a b], [b c d a]. *)
Definition md5_line (in_ : list Z) (v : Z * Z * Z * Z) (s : (Z → Z → Z → Z) * Z * Z * Z) : Z * Z * Z * Z :=
  let '(w, x, y, z) := v in
  let '(f, i, k, r) := s in
  (z, MD5STEP f w x y z (u32 (word_at le_word 4 in_ i + k)) r, x, y).
Definition md5_transform (hash in_ : list Z) : list Z :=
  match hash with
  | [a0; b0; c0; d0] =>
      let '(a, b, c, d) := foldl (md5_line in_) (a0, b0, c0, d0) md5_steps in
      [u32 (a0 + a); u32 (b0 + b); u32 (c0 + c); u32 (d0 + d)]
  | _ => hash
  end.

Record md5_ctx := Md5Ctx { md5_hash : list Z; md5_block : list Z; byte_count : Z }.
(** [hash] and [block] are the words [init] does not set. *)
Definition fio_md5_init (c : md5_ctx) : md5_ctx :=
  Md5Ctx [0x67452301; 0xefcdab89; 0x98badcfe; 0x10325476] (md5_block c) (byte_count c).
Definition fio_md5_update (c : md5_ctx) (data : list Z) : md5_ctx :=
  let len := length data in
  let used := Z.to_nat (Z.land (byte_count c) 0x3f) in
  let avail := (64 - used)%nat in
  let count := u64 (byte_count c + Z.of_nat len) in
  if (len <? avail)%nat then Md5Ctx (md5_hash c) (memcpy_at used data (md5_block c)) count
  else
    let block := memcpy_at used (take avail data) (md5_block c) in
    let hash := md5_transform (md5_hash c) block in
    let '(hash, block, rest) :=
      each_block 64 (λ hb p, (md5_transform hb.1 p, p)) len (hash, block) (drop avail data) in
    Md5Ctx hash (memcpy_at 0 rest block) count.

(** ** sha1.c *)

Definition SHA_SRC (data : list Z) (t : Z) : Z := word_at be_word 4 data t.
Definition SHA_MIX (array : list Z) (t : Z) : Z :=
  let W := λ x, tab array (Z.land x 15) in
  rol32 (Z.lxor (Z.lxor (Z.lxor (W (t + 13)) (W (t + 8))) (W (t + 2))) (W t)) 1.
(** [fn] and [constant] of the round [t]. *)
Definition sha1_fn (t b c d : Z) : Z :=
  if t <? 20 then u32 (Z.lxor (Z.land (Z.lxor c d) b) d + 0x5a827999)
  else if t <? 40 then u32 (Z.lxor (Z.lxor b c) d + 0x6ed9eba1)
  else if t <? 60 then u32 (Z.land b c + Z.land d (Z.lxor b c) + 0x8f1bbcdc)
  else u32 (Z.lxor (Z.lxor b c) d + 0xca62c1d6).
(** [SHA_ROUND], and the naming of the variables in the next line. *)
Definition SHA_ROUND (data : list Z) (s : list Z * (Z * Z * Z * Z * Z)) (t : Z)
    : list Z * (Z * Z * Z * Z * Z) :=
  let '(array, (A, B, C, D, E)) := s in
  let TEMP := if t <? 16 then SHA_SRC data t else SHA_MIX array t in
  let array := <[Z.to_nat (Z.land t 15) := TEMP]> array in
  let E := u32 (E + (TEMP + rol32 A 5 + sha1_fn t B C D)) in
  (array, (E, A, ror32 B 2, C, D)).
Definition blk_SHA1Block (H data : list Z) : list Z :=
  match H with
  | [a; b; c; d; e] =>
      let '(_, (A, B, C, D, E)) :=
        foldl (SHA_ROUND data) (replicate 16 0, (a, b, c, d, e)) (seqZ 0 80) in
      [u32 (a + A); u32 (b + B); u32 (c + C); u32 (d + D); u32 (e + E)]
  | _ => H
  end.

Record sha1_ctx := Sha1Ctx { sha1_H : list Z; sha1_W : list Z; sha1_size : Z }.
Definition fio_sha1_init (c : sha1_ctx) : sha1_ctx :=
  Sha1Ctx [0x67452301; 0xefcdab89; 0x98badcfe; 0x10325476; 0xc3d2e1f0] (sha1_W c) 0.
Definition sha1_blocks (H W data : list Z) (size : Z) : sha1_ctx :=
  let '(H, rest) := each_block 64 blk_SHA1Block (length data) H data in
  Sha1Ctx H (memcpy_at 0 rest W) size.
Definition fio_sha1_update (c : sha1_ctx) (data : list Z) : sha1_ctx :=
  let lenW := Z.to_nat (Z.land (sha1_size c) 63) in
  let size := u64 (sha1_size c + Z.of_nat (length data)) in
  if (lenW =? 0)%nat then sha1_blocks (sha1_H c) (sha1_W c) data size
  else
    let left := Nat.min (length data) (64 - lenW) in
    let W := memcpy_at lenW (take left data) (sha1_W c) in
    if negb ((lenW + left) mod 64 =? 0)%nat then Sha1Ctx (sha1_H c) W size
    else sha1_blocks (blk_SHA1Block (sha1_H c) W) W (drop left data) size.

Definition be_bytes (n : nat) (x : Z) : list Z :=
  map (λ i, Z.land (Z.shiftr x (8 * Z.of_nat (n - 1 - i))) 0xff) (seq 0 n).
(** The hash as the bytes of [hashout]. *)
Definition fio_sha1_final (c : sha1_ctx) : list Z * sha1_ctx :=
  let pad := 0x80 :: replicate 63 0 in
  let padlen := be_bytes 4 (u32 (Z.shiftr (sha1_size c) 29)) ++ be_bytes 4 (u32 (Z.shiftl (sha1_size c) 3)) in
  let i := Z.land (sha1_size c) 63 in
  let c := fio_sha1_update c (take (Z.to_nat (1 + Z.land 63 (55 - i))) pad) in
  let c := fio_sha1_update c padlen in
  (concat (map (be_bytes 4) (sha1_H c)), c).

(** ** sha256.c *)

Definition Ch (x y z : Z) : Z := Z.lxor z (Z.land x (Z.lxor y z)).
Definition Maj (x y z : Z) : Z := Z.lor (Z.land x y) (Z.land z (Z.lor x y)).
Definition sha256_e0 (x : Z) : Z := Z.lxor (Z.lxor (ror32 x 2) (ror32 x 13)) (ror32 x 22).
Definition sha256_e1 (x : Z) : Z := Z.lxor (Z.lxor (ror32 x 6) (ror32 x 11)) (ror32 x 25).
Definition sha256_s0 (x : Z) : Z := Z.lxor (Z.lxor (ror32 x 7) (ror32 x 18)) (Z.shiftr x 3).
Definition sha256_s1 (x : Z) : Z := Z.lxor (Z.lxor (ror32 x 17) (ror32 x 19)) (Z.shiftr x 10).
(** The index into [W] and the constant of every pair of lines. *)
Definition sha256_lines : list (Z * Z) :=
  [(0, 0x428a2f98); (1, 0x71374491); (2, 0xb5c0fbcf); (3, 0xe9b5dba5);
   (4, 0x3956c25b); (5, 0x59f111f1); (6, 0x923f82a4); (7, 0xab1c5ed5);
   (8, 0xd807aa98); (9, 0x12835b01); (10, 0x243185be); (11, 0x550c7dc3);
   (12, 0x72be5d74); (13, 0x80deb1fe); (14, 0x9bdc06a7); (15, 0xc19bf174);
   (16, 0xe49b69c1); (17, 0xefbe4786); (18, 0x0fc19dc6); (19, 0x240ca1cc);
   (20, 0x2de92c6f); (21, 0x4a7484aa); (22, 0x5cb0a9dc); (23, 0x76f988da);
   (24, 0x983e5152); (25, 0xa831c66d); (26, 0xb00327c8); (27, 0xbf597fc7);
   (28, 0xc6e00bf3); (29, 0xd5a79147); (30, 0x06ca6351); (31, 0x14292967);
   (32, 0x27b70a85); (33, 0x2e1b2138); (34, 0x4d2c6dfc); (35, 0x53380d13);
   (36, 0x650a7354); (37, 0x766a0abb); (38, 0x81c2c92e); (39, 0x92722c85);
   (40, 0xa2bfe8a1); (41, 0xa81a664b); (42, 0xc24b8b70); (43, 0xc76c51a3);
   (44, 0xd192e819); (45, 0xd6990624); (46, 0xf40e3585); (47, 0x106aa070);
   (48, 0x19a4c116); (49, 0x1e376c08); (50, 0x2748774c); (51, 0x34b0bcb5);
   (52, 0x391c0cb3); (53, 0x4ed8aa4a); (54, 0x5b9cca4f); (55, 0x682e6ff3);
   (56, 0x748f82ee); (57, 0x78a5636f); (58, 0x84c87814); (59, 0x8cc70208);
   (60, 0x90befffa); (61, 0xa4506ceb); (62, 0xbef9a3f7); (63, 0xc67178f2)].

(** [BLEND_OP] for [W[i]], where [W] has the entries below [i]. *)
Definition sha256_blend (W : list Z) (i : Z) : list Z :=
  W ++ [u32 (sha256_s1 (tab W (i - 2)) + tab W (i - 7) + sha256_s0 (tab W (i - 15)) + tab W (i - 16))].
Definition sha256_W (input : list Z) : list Z :=
  foldl sha256_blend (map (word_at be_word 4 input) (seqZ 0 16)) (seqZ 16 48).

Abbreviation regs := (Z * Z * Z * Z * Z * Z * Z * Z)%type.
(** Two lines of the iteration; the next ones have the variables renamed by one place. *)
Definition sha256_step (W : list Z) (v : regs) (ik : Z * Z) : regs :=
  let '(a, b, c, d, e, f, g, h) := v in
  let t1 := u32 (h + sha256_e1 e + Ch e f g + ik.2 + tab W ik.1) in
  let t2 := u32 (sha256_e0 a + Maj a b c) in
  (u32 (t1 + t2), a, b, c, u32 (d + t1), e, f, g).
Definition sha_add (wrap : Z → Z) (s : list Z) (v : regs) : list Z :=
  let '(a, b, c, d, e, f, g, h) := v in
  zip_with (λ x y, wrap (x + y)) s [a; b; c; d; e; f; g; h].
Definition sha256_transform (state input : list Z) : list Z :=
  match state with
  | [a; b; c; d; e; f; g; h] =>
      sha_add u32 state (foldl (sha256_step (sha256_W input)) (a, b, c, d, e, f, g, h) sha256_lines)
  | _ => state
  end.

(** [count] and [state]; [buf] points to the caller's array. *)
Record sha_ctx := ShaCtx { sha_count : list Z; sha_state : list Z; sha_buf : list Z }.
Definition fio_sha256_init (c : sha_ctx) : sha_ctx :=
  ShaCtx [0; 0] [0x6a09e667; 0xbb67ae85; 0x3c6ef372; 0xa54ff53a; 0x510e527f; 0x9b05688c; 0x1f83d9ab; 0x5be0cd19] (sha_buf c).
(** The part of the updates that both share: [n] is the size of a block. *)
Definition sha_update (n : nat) (transform : list Z → list Z → list Z) (count : list Z) (idx : nat)
    (c : sha_ctx) (data : list Z) : sha_ctx :=
  let part_len := (n - idx)%nat in
  if (part_len <=? length data)%nat then
    let buf := memcpy_at idx (take part_len data) (sha_buf c) in
    let '(state, rest) :=
      each_block n transform (length data) (transform (sha_state c) buf) (drop part_len data) in
    ShaCtx count state (memcpy_at 0 rest buf)
  else ShaCtx count (sha_state c) (memcpy_at idx data (sha_buf c)).
Definition sha256_count (count : list Z) (len : Z) : list Z :=
  let bits := u32 (Z.shiftl len 3) in
  let c0 := u32 (tab count 0 + bits) in
  if c0 <? bits then [c0; u32 (u32 (tab count 1 + 1) + Z.shiftr len 29)] else [c0; tab count 1].
Definition fio_sha256_update (c : sha_ctx) (data : list Z) : sha_ctx :=
  let idx := Z.land (Z.shiftr (tab (sha_count c) 0) 3) 0x3f in
  sha_update 64 sha256_transform (sha256_count (sha_count c) (Z.of_nat (length data))) (Z.to_nat idx) c data.

(** ** sha512.c *)

Definition sha512_e0 (x : Z) : Z := Z.lxor (Z.lxor (ror64 x 28) (ror64 x 34)) (ror64 x 39).
Definition sha512_e1 (x : Z) : Z := Z.lxor (Z.lxor (ror64 x 14) (ror64 x 18)) (ror64 x 41).
Definition sha512_s0 (x : Z) : Z := Z.lxor (Z.lxor (ror64 x 1) (ror64 x 8)) (Z.shiftr x 7).
Definition sha512_s1 (x : Z) : Z := Z.lxor (Z.lxor (ror64 x 19) (ror64 x 61)) (Z.shiftr x 6).
Definition sha512_K : list Z :=
  [0x428a2f98d728ae22; 0x7137449123ef65cd; 0xb5c0fbcfec4d3b2f; 0xe9b5dba58189dbbc;
   0x3956c25bf348b538; 0x59f111f1b605d019; 0x923f82a4af194f9b; 0xab1c5ed5da6d8118;
   0xd807aa98a3030242; 0x12835b0145706fbe; 0x243185be4ee4b28c; 0x550c7dc3d5ffb4e2;
   0x72be5d74f27b896f; 0x80deb1fe3b1696b1; 0x9bdc06a725c71235; 0xc19bf174cf692694;
   0xe49b69c19ef14ad2; 0xefbe4786384f25e3; 0x0fc19dc68b8cd5b5; 0x240ca1cc77ac9c65;
   0x2de92c6f592b0275; 0x4a7484aa6ea6e483; 0x5cb0a9dcbd41fbd4; 0x76f988da831153b5;
   0x983e5152ee66dfab; 0xa831c66d2db43210; 0xb00327c898fb213f; 0xbf597fc7beef0ee4;
   0xc6e00bf33da88fc2; 0xd5a79147930aa725; 0x06ca6351e003826f; 0x142929670a0e6e70;
   0x27b70a8546d22ffc; 0x2e1b21385c26c926; 0x4d2c6dfc5ac42aed; 0x53380d139d95b3df;
   0x650a73548baf63de; 0x766a0abb3c77b2a8; 0x81c2c92e47edaee6; 0x92722c851482353b;
   0xa2bfe8a14cf10364; 0xa81a664bbc423001; 0xc24b8b70d0f89791; 0xc76c51a30654be30;
   0xd192e819d6ef5218; 0xd69906245565a910; 0xf40e35855771202a; 0x106aa07032bbd1b8;
   0x19a4c116b8d2d0c8; 0x1e376c085141ab53; 0x2748774cdf8eeb99; 0x34b0bcb5e19b48a8;
   0x391c0cb3c5c95a63; 0x4ed8aa4ae3418acb; 0x5b9cca4f7763e373; 0x682e6ff3d6b2b8a3;
   0x748f82ee5defb2fc; 0x78a5636f43172f60; 0x84c87814a1f0ab72; 0x8cc702081a6439ec;
   0x90befffa23631e28; 0xa4506cebde82bde9; 0xbef9a3f7b2c67915; 0xc67178f2e372532b;
   0xca273eceea26619c; 0xd186b8c721c0c207; 0xeada7dd6cde0eb1e; 0xf57d4f7fee6ed178;
   0x06f067aa72176fba; 0x0a637dc5a2c898a6; 0x113f9804bef90dae; 0x1b710b35131c471b;
   0x28db77f523047d84; 0x32caab7b40c72493; 0x3c9ebe0a15c9bebc; 0x431d67c49c100d4c;
   0x4cc5d4becb3e42b6; 0x597f299cfc657e2a; 0x5fcb6fab3ad6faec; 0x6c44198c4a475817].

Definition sha512_blend (W : list Z) (i : Z) : list Z :=
  W ++ [u64 (sha512_s1 (tab W (i - 2)) + tab W (i - 7) + sha512_s0 (tab W (i - 15)) + tab W (i - 16))].
Definition sha512_W (input : list Z) : list Z :=
  foldl sha512_blend (map (word_at be_word 8 input) (seqZ 0 16)) (seqZ 16 64).
Definition sha512_step (v : regs) (kw : Z * Z) : regs :=
  let '(a, b, c, d, e, f, g, h) := v in
  let t1 := u64 (h + sha512_e1 e + Ch e f g + kw.1 + kw.2) in
  let t2 := u64 (sha512_e0 a + Maj a b c) in
  (u64 (t1 + t2), a, b, c, u64 (d + t1), e, f, g).
Definition sha512_transform (state input : list Z) : list Z :=
  match state with
  | [a; b; c; d; e; f; g; h] =>
      sha_add u64 state (foldl sha512_step (a, b, c, d, e, f, g, h) (combine sha512_K (sha512_W input)))
  | _ => state
  end.
Definition fio_sha512_init (c : sha_ctx) : sha_ctx :=
  ShaCtx [0; 0; 0; 0]
   [0x6a09e667f3bcc908; 0xbb67ae8584caa73b; 0x3c6ef372fe94f82b; 0xa54ff53a5f1d36f1;
   0x510e527fade682d1; 0x9b05688c2b3e6c1f; 0x1f83d9abfb41bd6b; 0x5be0cd19137e2179] (sha_buf c).
Definition sha512_count (count : list Z) (len : Z) : list Z :=
  let bits := u32 (Z.shiftl len 3) in
  let c0 := u32 (tab count 0 + bits) in
  if c0 <? bits then
    let c1 := u32 (tab count 1 + 1) in
    let c2 := if c1 <? 1 then u32 (tab count 2 + 1) else tab count 2 in
    let c3 := if (c1 <? 1) && (c2 <? 1) then u32 (tab count 3 + 1) else tab count 3 in
    [c0; u32 (c1 + Z.shiftr len 29); c2; c3]
  else [c0; tab count 1; tab count 2; tab count 3].
Definition fio_sha512_update (c : sha_ctx) (data : list Z) : sha_ctx :=
  let idx := Z.land (Z.shiftr (tab (sha_count c) 0) 3) 0x7f in
  sha_update 128 sha512_transform (sha512_count (sha_count c) (Z.of_nat (length data))) (Z.to_nat idx) c data.

(** ** xxhash.c *)

Definition PRIME32_1 : Z := 2654435761.
Definition PRIME32_2 : Z := 2246822519.
Definition PRIME32_3 : Z := 3266489917.
Definition PRIME32_4 : Z := 668265263.
Definition PRIME32_5 : Z := 374761393.

(** [v += word * PRIME32_2; v = rotl(v, 13); v *= PRIME32_1]. *)
Definition xxh_round (v word : Z) : Z := u32 (rol32 (u32 (v + word * PRIME32_2)) 13 * PRIME32_1).
(** Four words of the input. *)
Definition xxh_stripe (v : Z * Z * Z * Z) (p : list Z) : Z * Z * Z * Z :=
  let '(v1, v2, v3, v4) := v in
  let w := word_at le_word 4 p in
  (xxh_round v1 (w 0), xxh_round v2 (w 1), xxh_round v3 (w 2), xxh_round v4 (w 3)).
Definition xxh_start (seed : Z) : Z * Z * Z * Z :=
  (u32 (seed + PRIME32_1 + PRIME32_2), u32 (seed + PRIME32_2), seed, u32 (seed - PRIME32_1)).
Definition xxh_join (v : Z * Z * Z * Z) : Z :=
  let '(v1, v2, v3, v4) := v in u32 (rol32 v1 1 + rol32 v2 7 + rol32 v3 12 + rol32 v4 18).
(** The two loops over what is left, and the mixing at the end. *)
Definition xxh_word (h : Z) (p : list Z) : Z :=
  u32 (rol32 (u32 (h + word_at le_word 4 p 0 * PRIME32_3)) 17 * PRIME32_4).
Definition xxh_byte (h b : Z) : Z := u32 (rol32 (u32 (h + b * PRIME32_5)) 11 * PRIME32_1).
Definition xxh_avalanche (h : Z) : Z :=
  let h := u32 (Z.lxor h (Z.shiftr h 15) * PRIME32_2) in
  let h := u32 (Z.lxor h (Z.shiftr h 13) * PRIME32_3) in
  Z.lxor h (Z.shiftr h 16).
Definition xxh_finish (h : Z) (p : list Z) : Z :=
  let '(h, p) := each_block 4 xxh_word (length p) h p in xxh_avalanche (foldl xxh_byte h p).

(** One call. *)
Definition XXH32 (input : list Z) (seed : Z) : Z :=
  let len := length input in
  let '(h32, p) :=
    if (16 <=? len)%nat then
      let '(v, p) := each_block 16 xxh_stripe len (xxh_start seed) input in (xxh_join v, p)
    else (u32 (seed + PRIME32_5), input) in
  xxh_finish (u32 (h32 + Z.of_nat len)) p.

Record xxh_state := XxhState {
  xxh_total_len : Z; xxh_seed : Z; xxh_v : Z * Z * Z * Z; memsize : nat; memory : list Z
}.
(** [malloc] leaves [memory] as it is. *)
Definition XXH32_init (seed : Z) (memory : list Z) : xxh_state := XxhState 0 seed (xxh_start seed) 0 memory.
Definition XXH32_update (s : xxh_state) (input : list Z) : xxh_state :=
  let len := length input in
  let total := u64 (xxh_total_len s + Z.of_nat len) in
  if (memsize s + len <? 16)%nat then
    XxhState total (xxh_seed s) (xxh_v s) (memsize s + len) (memcpy_at (memsize s) input (memory s))
  else
    let '(v, mem, p) :=
      if (memsize s =? 0)%nat then (xxh_v s, memory s, input)
      else
        let mem := memcpy_at (memsize s) (take (16 - memsize s) input) (memory s) in
        (xxh_stripe (xxh_v s) mem, mem, drop (16 - memsize s) input) in
    let '(v, p) := each_block 16 xxh_stripe len v p in
    if (length p =? 0)%nat then XxhState total (xxh_seed s) v 0 mem
    else XxhState total (xxh_seed s) v (length p) (memcpy_at 0 p mem).
Definition XXH32_digest (s : xxh_state) : Z :=
  let h32 := if 16 <=? xxh_total_len s then xxh_join (xxh_v s) else u32 (xxh_seed s + PRIME32_5) in
  xxh_finish (u32 (h32 + u32 (xxh_total_len s))) (take (memsize s) (memory s)).
