(* ===== verification/FioHashCorrect.v ===== *)
(** * fio: the hashes on messages in pieces *)
From Stdlib Require Import ZArith Lia.
From stdpp Require Import base numbers list.
From S2P Require Import Prelude FioBits FioCrc FioHash.

(** ** Blocks *)

Section blocks.
Context {H : Type} (n : nat) (f : H → list Z → H).

(** The first [k] blocks, and what is left after all full blocks. *)
Definition chunks (k : nat) (p : list Z) : list (list Z) := map (λ i, take n (drop (i * n) p)) (seq 0 k).
Definition full (h : H) (p : list Z) : H := foldl f h (chunks (length p / n) p).
Definition tail (p : list Z) : list Z := drop (length p / n * n) p.

Lemma chunks_S k p : chunks (S k) p = take n p :: chunks k (drop n p).
Proof.
  unfold chunks. simpl. f_equal. rewrite <- seq_shift, map_map.
  apply map_ext. intros i. by rewrite drop_drop.
Qed.
Lemma chunks_app k m p q : length p = (k * n)%nat → chunks (k + m) (p ++ q) = chunks k p ++ chunks m q.
Proof.
  revert p. induction k as [|k IH]; intros p Hp; simpl plus.
  - apply nil_length_inv in Hp as ->. done.
  - rewrite !chunks_S. simpl in Hp. rewrite take_app_le, drop_app_le by lia. simpl. f_equal.
    apply IH. rewrite length_drop. lia.
Qed.

Context (Hn : (0 < n)%nat).

Lemma full_short h p : (length p < n)%nat → full h p = h.
Proof. intros Hp. unfold full. by rewrite Nat.div_small by lia. Qed.
Lemma tail_short p : (length p < n)%nat → tail p = p.
Proof. intros Hp. unfold tail. by rewrite Nat.div_small by lia. Qed.
Lemma div_drop k : (n ≤ k)%nat → (k / n = S ((k - n) / n))%nat.
Proof.
  intros Hk. replace k with (k - n + 1 * n)%nat at 1 by lia. rewrite Nat.div_add by lia. lia.
Qed.
Lemma full_cons h p : (n ≤ length p)%nat → full h p = full (f h (take n p)) (drop n p).
Proof.
  intros Hp. unfold full. by rewrite length_drop, (div_drop (length p)), chunks_S by lia.
Qed.
Lemma tail_cons p : (n ≤ length p)%nat → tail p = tail (drop n p).
Proof.
  intros Hp. unfold tail. rewrite length_drop, (div_drop (length p)), drop_drop by lia.
  done.
Qed.

(** The loop over the blocks. *)
Lemma each_block_run fuel h p : (length p ≤ fuel)%nat → each_block n f fuel h p = (full h p, tail p).
Proof.
  revert h p. induction fuel as [|fuel IH]; intros h p Hp; simpl.
  - apply Nat.le_0_r, nil_length_inv in Hp as ->. unfold full, tail. simpl. rewrite Nat.Div0.div_0_l. done.
  - destruct (Nat.leb_spec n (length p)) as [Hle|Hlt].
    + rewrite IH by (rewrite length_drop; lia). by rewrite (full_cons h p), (tail_cons p).
    + by rewrite full_short, tail_short.
Qed.

Lemma length_tail p : length (tail p) = (length p mod n)%nat.
Proof. unfold tail. rewrite length_drop, Nat.Div0.mod_eq. lia. Qed.
Lemma tail_lt p : (length (tail p) < n)%nat.
Proof. rewrite length_tail. by apply Nat.mod_upper_bound; lia. Qed.
Lemma split_tail p : p = take (length p / n * n) p ++ tail p.
Proof. unfold tail. by rewrite take_drop. Qed.

(** A message in two pieces. *)
Lemma full_blocks h p q : (length p mod n = 0)%nat → full h (p ++ q) = full (full h p) q ∧ tail (p ++ q) = tail q.
Proof.
  intros Hp. assert (length p = length p / n * n)%nat as Hl by (rewrite (Nat.Div0.div_mod (length p) n) at 1; lia).
  assert ((length (p ++ q) / n = length p / n + length q / n)%nat) as Hd.
  { rewrite length_app, Hl at 1. rewrite Nat.add_comm, Nat.div_add by lia. lia. }
  unfold full at 1, tail at 1. rewrite Hd. split.
  - by rewrite chunks_app, foldl_app.
  - rewrite Nat.mul_add_distr_r, <- Hl, drop_app_ge by lia. unfold tail. f_equal. lia.
Qed.
Lemma full_app h p q : full h (p ++ q) = full (full h p) (tail p ++ q) ∧ tail (p ++ q) = tail (tail p ++ q).
Proof.
  set (b := take (length p / n * n) p).
  assert (length b = length p / n * n)%nat as Hb.
  { unfold b. rewrite length_take. pose proof (Nat.Div0.mul_div_le (length p) n). lia. }
  assert (length b mod n = 0)%nat as Hm by (rewrite Hb; apply Nat.Div0.mod_mul).
  assert (p = b ++ tail p) as Ep by apply split_tail.
  assert (p ++ q = b ++ (tail p ++ q)) as Eq by (rewrite app_assoc; by f_equal).
  destruct (full_blocks h b (tail p ++ q) Hm) as [E1 E2]. destruct (full_blocks h b (tail p) Hm) as [E3 _].
  rewrite <- Ep, (full_short _ (tail p)) in E3 by apply tail_lt. by rewrite Eq, E1, E2, E3.
Qed.
(** The first block completed. *)
Lemma full_complete h t q :
  (length t < n)%nat → (n ≤ length t + length q)%nat →
  full h (t ++ q) = full (f h (t ++ take (n - length t) q)) (drop (n - length t) q) ∧
  tail (t ++ q) = tail (drop (n - length t) q).
Proof.
  intros Ht Hq. rewrite full_cons, tail_cons by (rewrite length_app; lia).
  by rewrite take_app_ge, drop_app_ge by lia.
Qed.
(** The blocks that count, and the end that does not. *)
Lemma full_prefix h p q t t' :
  (length p mod n = 0)%nat → (length t < n)%nat → length t = length t' →
  q = p ++ t → full h q = full h (p ++ t').
Proof.
  intros Hp Ht Hl ->. destruct (full_blocks h p t Hp) as [-> _], (full_blocks h p t' Hp) as [-> _].
  by rewrite (full_short _ t), (full_short _ t') by lia.
Qed.
End blocks.

(** ** Buffers *)

Lemma memcpy_0 data buf : memcpy_at 0 data buf = data ++ drop (length data) buf.
Proof. done. Qed.
Lemma length_memcpy i data buf : (i + length data ≤ length buf)%nat → length (memcpy_at i data buf) = length buf.
Proof. intros Hi. unfold memcpy_at. rewrite !length_app, length_take, length_drop. lia. Qed.
Lemma take_memcpy i data buf :
  (i ≤ length buf)%nat → take (i + length data) (memcpy_at i data buf) = take i buf ++ data.
Proof.
  intros Hi. unfold memcpy_at. rewrite app_assoc, take_app_length'; [done|].
  rewrite length_app, length_take. lia.
Qed.

(** [buf] begins with the bytes that wait for the rest of their block. *)
Definition waits (n : nat) (buf p : list Z) : Prop := length buf = n ∧ take (length (tail n p)) buf = tail n p.

Section waits.
Context (n : nat) (Hn : (0 < n)%nat).

Lemma waits_add p q buf :
  waits n buf p → (length (tail n p) + length q < n)%nat → waits n (memcpy_at (length (tail n p)) q buf) (p ++ q).
Proof.
  intros [Hl Ht] Hq. split; [by rewrite length_memcpy by lia|].
  assert (tail n (p ++ q) = tail n p ++ q) as ->.
  { destruct (full_app n (λ (_ : unit) _, tt) Hn tt p q) as [_ ->]. apply tail_short; rewrite ?length_app; lia. }
  rewrite length_app, take_memcpy by lia. by rewrite Ht.
Qed.
Lemma waits_block p q buf :
  waits n buf p → (n ≤ length (tail n p) + length q)%nat →
  memcpy_at (length (tail n p)) (take (n - length (tail n p)) q) buf = tail n p ++ take (n - length (tail n p)) q.
Proof.
  intros [Hl Ht] Hq. unfold memcpy_at. rewrite Ht, drop_ge; [by rewrite app_nil_r|].
  rewrite length_take, Hl. lia.
Qed.
Lemma waits_rest p buf : length buf = n → waits n (memcpy_at 0 (tail n p) buf) p.
Proof.
  intros Hl. pose proof (tail_lt n Hn p) as Ht. split; [by rewrite length_memcpy by lia|].
  rewrite memcpy_0. by rewrite take_app_length.
Qed.
End waits.

Lemma used_mod (x : Z) (n k : nat) :
  Z.of_nat n = 2 ^ Z.of_nat k → 0 ≤ x → Z.to_nat (Z.land x (Z.ones (Z.of_nat k))) = (Z.to_nat x mod n)%nat.
Proof.
  intros Hn Hx. rewrite Z.land_ones by lia. rewrite <- Hn. rewrite Z2Nat.inj_mod by lia. by rewrite Nat2Z.id.
Qed.

(** The position in the block, from a counter of bytes. *)
Lemma used_tail (x : Z) (n k : nat) (p : list Z) :
  Z.of_nat n = 2 ^ Z.of_nat k → (0 < n)%nat → 0 ≤ x → Z.of_nat n * (x / Z.of_nat n) + Z.of_nat (length p mod n) = x →
  Z.to_nat (Z.land x (Z.ones (Z.of_nat k))) = length (tail n p).
Proof.
  intros Hn Hn0 Hx E. rewrite Z.land_ones, length_tail, <- Hn by lia.
  rewrite <- E, Z.add_comm, Z.mul_comm, Z.mod_add by lia. rewrite Z.mod_small; [lia|].
  pose proof (Nat.mod_upper_bound (length p) n). lia.
Qed.
Lemma count_used (m l : Z) (n : nat) :
  (0 < n)%nat → (Z.of_nat n | m) → 0 < m → 0 ≤ l →
  Z.of_nat n * (l mod m / Z.of_nat n) + Z.of_nat (Z.to_nat l mod n) = l mod m.
Proof.
  intros Hn Hd Hm Hl. rewrite Nat2Z.inj_mod, Z2Nat.id by lia.
  rewrite (Znumtheory.Zmod_div_mod (Z.of_nat n) m l) by (lia || done).
  symmetry. apply Z.div_mod. lia.
Qed.

(** ** md5 *)

Lemma full_pair {H} n (f : H → list Z → H) h b p :
  (0 < n)%nat → length b = n →
  ∃ b', full n (λ hb q, (f hb.1 q, q)) (h, b) p = (full n f h p, b') ∧ length b' = n.
Proof.
  intros Hn. unfold full. assert (∀ k h b p, length b = n → (k * n ≤ length p)%nat →
    ∃ b', foldl (λ hb q, (f hb.1 q, q)) (h, b) (chunks n k p) = (foldl f h (chunks n k p), b') ∧ length b' = n) as Hk.
  { clear. induction k as [|k IH]; intros h b p Hb Hk; [by exists b|].
    rewrite chunks_S. simpl. apply IH; rewrite ?length_take, ?length_drop; lia. }
  intros Hb. apply Hk; [done|]. pose proof (Nat.Div0.mul_div_le (length p) n). lia.
Qed.

Definition md5_H0 : list Z := [0x67452301; 0xefcdab89; 0x98badcfe; 0x10325476].
Record md5_ok (c : md5_ctx) (p : list Z) : Prop := Md5Ok {
  m5_hash : md5_hash c = full 64 md5_transform md5_H0 p;
  m5_block : waits 64 (md5_block c) p;
  m5_count : byte_count c = u64 (Z.of_nat (length p))
}.
Lemma md5_init_ok c : length (md5_block c) = 64%nat → byte_count c = 0 → md5_ok (fio_md5_init c) [].
Proof. intros Hb Hc. constructor; [done| |done]. split; [done|done]. Qed.

Lemma count_add (m a : Z) (p q : list Z) :
  0 < m → a = Z.of_nat (length p) mod m → (a + Z.of_nat (length q)) mod m = Z.of_nat (length (p ++ q)) mod m.
Proof. intros Hm ->. by rewrite length_app, Nat2Z.inj_add, Z.add_mod_idemp_l by lia. Qed.

Lemma md5_update_ok c p q : md5_ok c p → md5_ok (fio_md5_update c q) (p ++ q).
Proof.
  intros [Hh Hb Hc]. unfold fio_md5_update.
  assert (Z.to_nat (Z.land (byte_count c) 0x3f) = length (tail 64 p)) as ->.
  { rewrite Hc. apply (used_tail _ 64 6); [done|lia|apply Z.mod_pos_bound; lia|].
    rewrite <- (Nat2Z.id (length p)) at 2. apply count_used; [lia| |done|lia]. by exists (2 ^ 58). }
  pose proof (tail_lt 64 ltac:(lia) p) as Ht.
  destruct (full_app 64 md5_transform ltac:(lia) md5_H0 p q) as [Ef Et].
  destruct (Nat.ltb_spec (length q) (64 - length (tail 64 p))) as [Hlt|Hge].
  - constructor; simpl.
    + rewrite Ef, full_short by (rewrite ?length_app; lia). done.
    + apply waits_add; [lia|done|lia].
    + by apply count_add.
  - rewrite (waits_block 64 ltac:(lia) p q _ Hb) by lia.
    destruct (full_complete 64 md5_transform ltac:(lia) (md5_hash c) (tail 64 p) q) as [Ec Ect]; [lia|lia|].
    set (r := drop (64 - length (tail 64 p)) q) in *. set (blk := tail 64 p ++ take (64 - length (tail 64 p)) q) in *.
    rewrite each_block_run by (unfold r; rewrite ?length_drop; lia).
    destruct (full_pair 64 md5_transform (md5_transform (md5_hash c) blk) blk r) as (b' & -> & Hb'); [lia| |].
    { unfold blk. rewrite length_app, length_take. lia. }
    constructor; simpl.
    + by rewrite Ef, <- Hh, Ec.
    + rewrite <- Ect, <- Et. apply waits_rest; [lia|done].
    + by apply count_add.
Qed.

(** ** sha1 *)

Definition sha1_H0 : list Z := [0x67452301; 0xefcdab89; 0x98badcfe; 0x10325476; 0xc3d2e1f0].
Record sha1_ok (c : sha1_ctx) (p : list Z) : Prop := Sha1Ok {
  s1_hash : sha1_H c = full 64 blk_SHA1Block sha1_H0 p;
  s1_W : waits 64 (sha1_W c) p;
  s1_size : sha1_size c = u64 (Z.of_nat (length p))
}.
Lemma sha1_init_ok c : length (sha1_W c) = 64%nat → sha1_ok (fio_sha1_init c) [].
Proof. intros Hw. by constructor. Qed.

Lemma sha1_blocks_ok H W p q size :
  H = full 64 blk_SHA1Block sha1_H0 p → length W = 64%nat → tail 64 p = [] →
  size = u64 (Z.of_nat (length (p ++ q))) → sha1_ok (sha1_blocks H W q size) (p ++ q).
Proof.
  intros HH HW Ht Hs. unfold sha1_blocks. rewrite each_block_run by lia.
  destruct (full_app 64 blk_SHA1Block ltac:(lia) sha1_H0 p q) as [Ef Et]. rewrite Ht in Ef, Et. simpl in Ef, Et.
  constructor; simpl; [by rewrite HH, Ef|rewrite <- Et; apply waits_rest; [lia|done]|done].
Qed.
Lemma sha1_update_ok c p q : sha1_ok c p → sha1_ok (fio_sha1_update c q) (p ++ q).
Proof.
  intros [Hh Hw Hc]. unfold fio_sha1_update.
  assert (Z.to_nat (Z.land (sha1_size c) 63) = length (tail 64 p)) as ->.
  { rewrite Hc. apply (used_tail _ 64 6); [done|lia|apply Z.mod_pos_bound; lia|].
    rewrite <- (Nat2Z.id (length p)) at 2. apply count_used; [lia| |done|lia]. by exists (2 ^ 58). }
  assert (u64 (sha1_size c + Z.of_nat (length q)) = u64 (Z.of_nat (length (p ++ q)))) as -> by (by apply count_add).
  pose proof (tail_lt 64 ltac:(lia) p) as Ht. destruct Hw as [Hl Hw].
  destruct (Nat.eqb_spec (length (tail 64 p)) 0) as [H0|H0].
  { apply sha1_blocks_ok; [done|done|by apply nil_length_inv|done]. }
  set (left := Nat.min (length q) (64 - length (tail 64 p))).
  destruct (Nat.eqb_spec ((length (tail 64 p) + left) mod 64) 0) as [Hz|Hz]; simpl.
  - assert (left = 64 - length (tail 64 p))%nat as El.
    { unfold left in *. destruct (decide (length q < 64 - length (tail 64 p))%nat); [|lia].
      rewrite Nat.mod_small in Hz by lia. lia. }
    rewrite El, waits_block by (split || lia; done || lia).
    set (b := tail 64 p ++ take (64 - length (tail 64 p)) q).
    assert (p ++ q = (p ++ take (64 - length (tail 64 p)) q) ++ drop (64 - length (tail 64 p)) q) as Eq
      by (by rewrite <- app_assoc, take_drop).
    rewrite Eq. destruct (full_app 64 blk_SHA1Block ltac:(lia) sha1_H0 p (take (64 - length (tail 64 p)) q)) as [Ef Et].
    fold b in Ef, Et. assert (length b = 64%nat) as Hb by (unfold b; rewrite length_app, length_take; lia).
    apply sha1_blocks_ok; [|done| |done].
    + rewrite Ef, Hh, (full_cons 64 _ ltac:(lia) _ b), drop_ge, take_ge by lia. done.
    + rewrite Et, (tail_cons 64 ltac:(lia) b), drop_ge by lia. done.
  - assert (length q < 64 - length (tail 64 p))%nat as Hq.
    { destruct (decide (length q < 64 - length (tail 64 p))%nat); [done|]. exfalso. apply Hz.
      unfold left. by replace (length (tail 64 p) + _)%nat with 64%nat by lia. }
    rewrite take_ge by lia. destruct (full_app 64 blk_SHA1Block ltac:(lia) sha1_H0 p q) as [Ef _].
    constructor; simpl; [|apply waits_add; [lia|done|lia]|done].
    by rewrite Ef, full_short by (rewrite ?length_app; lia).
Qed.

(** ** sha256 and sha512 *)

Record sha_ok (n : nat) (f : list Z → list Z → list Z) (H0 : list Z) (c : sha_ctx) (p : list Z) : Prop := ShaOk {
  sh_state : sha_state c = full n f H0 p;
  sh_wait : waits n (sha_buf c) p;
  sh_count : tab (sha_count c) 0 = u32 (8 * Z.of_nat (length p))
}.
Lemma sha_update_ok n k f H0 c p q count :
  Z.of_nat n = 2 ^ Z.of_nat k → (k ≤ 29)%nat → tab count 0 = u32 (8 * Z.of_nat (length (p ++ q))) →
  sha_ok n f H0 c p →
  sha_ok n f H0 (sha_update n f count (Z.to_nat (Z.land (Z.shiftr (tab (sha_count c) 0) 3) (Z.ones (Z.of_nat k)))) c q) (p ++ q).
Proof.
  intros Hn Hk Hcount [Hh Hw Hc]. assert (0 < n)%nat as Hn0 by (pose proof (Z.pow_pos_nonneg 2 (Z.of_nat k)); lia).
  assert (Z.to_nat (Z.land (Z.shiftr (tab (sha_count c) 0) 3) (Z.ones (Z.of_nat k))) = length (tail n p)) as ->.
  { rewrite Hc. apply used_tail; [done|done|apply Z.shiftr_nonneg, Z.mod_pos_bound; lia|].
    assert (Z.shiftr (u32 (8 * Z.of_nat (length p))) 3 = Z.of_nat (length p) mod 2 ^ 29) as ->.
    { rewrite Z.shiftr_div_pow2 by lia. unfold u32. change (2 ^ 32) with (8 * 2 ^ 29). change (2 ^ 3) with 8.
      rewrite Z.mul_mod_distr_l by lia. rewrite Z.mul_comm. apply Z.div_mul. lia. }
    rewrite <- (Nat2Z.id (length p)) at 2. apply count_used; [lia| |done|lia].
    rewrite Hn. exists (2 ^ (29 - Z.of_nat k)). rewrite <- Z.pow_add_r by lia. f_equal. lia. }
  pose proof (tail_lt n Hn0 p) as Ht. destruct (full_app n f Hn0 H0 p q) as [Ef Et].
  unfold sha_update. destruct (Nat.leb_spec (n - length (tail n p)) (length q)) as [Hle|Hlt].
  - rewrite waits_block by (done || lia).
    destruct (full_complete n f Hn0 (sha_state c) (tail n p) q) as [Ec Ect]; [lia|lia|].
    set (r := drop (n - length (tail n p)) q) in *. set (blk := tail n p ++ take (n - length (tail n p)) q) in *.
    rewrite each_block_run by (unfold r; rewrite ?length_drop; lia).
    constructor; simpl; [by rewrite Ef, <- Hh, Ec| |done].
    rewrite <- Ect, <- Et. apply waits_rest; [lia|]. unfold blk. rewrite length_app, length_take. lia.
  - constructor; simpl; [|apply waits_add; [lia|done|lia]|done].
    by rewrite Ef, full_short by (rewrite ?length_app; lia).
Qed.

Lemma bits_add (a : Z) (p q : list Z) :
  a = u32 (8 * Z.of_nat (length p)) →
  u32 (a + u32 (Z.shiftl (Z.of_nat (length q)) 3)) = u32 (8 * Z.of_nat (length (p ++ q))).
Proof.
  intros ->. unfold u32. rewrite Z.shiftl_mul_pow2 by lia. change (2 ^ 3) with 8.
  rewrite Z.add_mod_idemp_l, Z.add_mod_idemp_r by lia. f_equal. rewrite length_app. lia.
Qed.
Definition sha256_H0 : list Z := sha_state (fio_sha256_init (ShaCtx [] [] [])).
Definition sha512_H0 : list Z := sha_state (fio_sha512_init (ShaCtx [] [] [])).
Abbreviation sha256_ok := (sha_ok 64 sha256_transform sha256_H0).
Abbreviation sha512_ok := (sha_ok 128 sha512_transform sha512_H0).
Lemma sha256_init_ok c : length (sha_buf c) = 64%nat → sha256_ok (fio_sha256_init c) [].
Proof. intros Hb. by constructor. Qed.
Lemma sha512_init_ok c : length (sha_buf c) = 128%nat → sha512_ok (fio_sha512_init c) [].
Proof. intros Hb. by constructor. Qed.
Lemma sha256_update_ok c p q : sha256_ok c p → sha256_ok (fio_sha256_update c q) (p ++ q).
Proof.
  intros Hc. apply (sha_update_ok 64 6); [done|lia| |done].
  unfold sha256_count. rewrite <- (bits_add _ p q (sh_count _ _ _ _ _ Hc)). by destruct (_ <? _).
Qed.
Lemma sha512_update_ok c p q : sha512_ok c p → sha512_ok (fio_sha512_update c q) (p ++ q).
Proof.
  intros Hc. apply (sha_update_ok 128 7); [done|lia| |done].
  unfold sha512_count. rewrite <- (bits_add _ p q (sh_count _ _ _ _ _ Hc)). by destruct (_ <? _).
Qed.

(** ** xxhash *)

Record xxh_ok (seed : Z) (c : xxh_state) (p : list Z) : Prop := XxhOk {
  xx_v : xxh_v c = full 16 xxh_stripe (xxh_start seed) p;
  xx_mem : waits 16 (memory c) p;
  xx_size : memsize c = length (tail 16 p);
  xx_seed : xxh_seed c = seed;
  xx_total : xxh_total_len c = u64 (Z.of_nat (length p))
}.
Lemma xxh_init_ok seed mem : length mem = 16%nat → xxh_ok seed (XXH32_init seed mem) [].
Proof. intros Hm. by constructor. Qed.

Lemma xxh_update_ok seed c p q : xxh_ok seed c p → xxh_ok seed (XXH32_update c q) (p ++ q).
Proof.
  intros [Hv Hm Hs Hseed Ht]. unfold XXH32_update. rewrite Hs.
  assert (u64 (xxh_total_len c + Z.of_nat (length q)) = u64 (Z.of_nat (length (p ++ q)))) as -> by (by apply count_add).
  pose proof (tail_lt 16 ltac:(lia) p) as Hlt.
  destruct (full_app 16 xxh_stripe ltac:(lia) (xxh_start seed) p q) as [Ef Et].
  destruct (Nat.ltb_spec (length (tail 16 p) + length q) 16) as [Hsm|Hge].
  { assert (length (tail 16 p ++ q) < 16)%nat as Hsm' by (by rewrite length_app).
    constructor; simpl; [|apply waits_add; [lia|done|lia]| |done|done].
    - rewrite Ef, full_short by (done || lia). done.
    - rewrite Et, (tail_short 16 ltac:(lia) (tail 16 p ++ q)) by done. by rewrite length_app. }
  assert (∀ v mem r, length mem = 16%nat → (length r ≤ length q)%nat →
      full 16 xxh_stripe v r = full 16 xxh_stripe (xxh_start seed) (p ++ q) → tail 16 r = tail 16 (p ++ q) →
      xxh_ok seed (let '(v, p0) := each_block 16 xxh_stripe (length q) v r in
        if (length p0 =? 0)%nat then XxhState (u64 (Z.of_nat (length (p ++ q)))) (xxh_seed c) v 0 mem
        else XxhState (u64 (Z.of_nat (length (p ++ q)))) (xxh_seed c) v (length p0) (memcpy_at 0 p0 mem)) (p ++ q)) as Hfin.
  { intros v mem r Hmem Hr Efr Etr. rewrite each_block_run by lia. rewrite Efr, Etr.
    destruct (Nat.eqb_spec (length (tail 16 (p ++ q))) 0) as [H0|H0].
    - constructor; simpl; try done. split; [done|]. by rewrite (nil_length_inv _ H0).
    - constructor; simpl; try done. apply waits_rest; [lia|done]. }
  destruct (Nat.eqb_spec (length (tail 16 p)) 0) as [H0|H0].
  - apply nil_length_inv in H0. rewrite H0 in Ef, Et. simpl in Ef, Et. destruct Hm.
    apply Hfin; [done|done|by rewrite Ef, Hv|by rewrite Et].
  - rewrite waits_block by (done || lia).
    destruct (full_complete 16 xxh_stripe ltac:(lia) (xxh_v c) (tail 16 p) q) as [Ec Ect]; [lia|lia|].
    apply Hfin; rewrite ?length_app, ?length_take, ?length_drop; [lia|lia|by rewrite Ef, <- Hv, Ec|by rewrite Et, Ect].
Qed.

Lemma xxh_digest_ok seed c p :
  xxh_ok seed c p → Z.of_nat (length p) < 2 ^ 64 → XXH32_digest c = XXH32 p seed.
Proof.
  intros [Hv [Hl Hw] Hs Hseed Ht] Hp. unfold XXH32_digest, XXH32. rewrite Hs, Hw, Hseed, Hv, Ht.
  assert (u64 (Z.of_nat (length p)) = Z.of_nat (length p)) as -> by (apply Z.mod_small; lia).
  assert (∀ h, u32 (h + u32 (Z.of_nat (length p))) = u32 (h + Z.of_nat (length p))) as E
    by (intros h; unfold u32; by rewrite Z.add_mod_idemp_r by lia).
  rewrite E. destruct (Nat.leb_spec 16 (length p)) as [Hle|Hlt].
  - rewrite each_block_run by lia. by rewrite (proj2 (Z.leb_le 16 _)) by lia.
  - by rewrite tail_short, (proj2 (Z.leb_gt 16 _)) by lia.
Qed.

(** ** In pieces *)

Lemma foldl_ok {C} (ok : C → list Z → Prop) update c0 p0 pieces :
  (∀ c p q, ok c p → ok (update c q) (p ++ q)) → ok c0 p0 → ok (foldl update c0 pieces) (p0 ++ concat pieces).
Proof.
  intros Hu. revert c0 p0. induction pieces as [|q pieces IH]; intros c0 p0 Hc; simpl; [by rewrite app_nil_r|].
  rewrite app_assoc. by apply IH, Hu.
Qed.

(** C22: A message hashed in pieces, of any sizes, gives the state of its full blocks,
    taken one after the other, for md5, sha1, sha256 and sha512 alike; the state
    does not depend on what the buffers held. *)
Theorem updates_stream pieces block words buf64 buf128 :
  length block = 64%nat → length words = 64%nat → length buf64 = 64%nat → length buf128 = 128%nat →
  md5_hash (foldl fio_md5_update (fio_md5_init (Md5Ctx [] block 0)) pieces) =
    full 64 md5_transform md5_H0 (concat pieces) ∧
  sha1_H (foldl fio_sha1_update (fio_sha1_init (Sha1Ctx [] words 0)) pieces) =
    full 64 blk_SHA1Block sha1_H0 (concat pieces) ∧
  sha_state (foldl fio_sha256_update (fio_sha256_init (ShaCtx [] [] buf64)) pieces) =
    full 64 sha256_transform sha256_H0 (concat pieces) ∧
  sha_state (foldl fio_sha512_update (fio_sha512_init (ShaCtx [] [] buf128)) pieces) =
    full 128 sha512_transform sha512_H0 (concat pieces).
Proof.
  intros H1 H2 H3 H4. split_and!.
  - apply (m5_hash _ _ (foldl_ok md5_ok _ _ [] pieces md5_update_ok (md5_init_ok (Md5Ctx [] block 0) H1 eq_refl))).
  - apply (s1_hash _ _ (foldl_ok sha1_ok _ _ [] pieces sha1_update_ok (sha1_init_ok (Sha1Ctx [] words 0) H2))).
  - apply (sh_state _ _ _ _ _ (foldl_ok sha256_ok _ _ [] pieces sha256_update_ok (sha256_init_ok (ShaCtx [] [] buf64) H3))).
  - apply (sh_state _ _ _ _ _ (foldl_ok sha512_ok _ _ [] pieces sha512_update_ok (sha512_init_ok (ShaCtx [] [] buf128) H4))).
Qed.

(** The xxhash of a message that is passed in pieces of any sizes is the one of
    a single call on the whole message. *)
Theorem xxh32_pieces pieces seed mem :
  length mem = 16%nat → Z.of_nat (length (concat pieces)) < 2 ^ 64 →
  XXH32_digest (foldl XXH32_update (XXH32_init seed mem) pieces) = XXH32 (concat pieces) seed.
Proof.
  intros Hm Hp. apply xxh_digest_ok; [|done].
  apply (foldl_ok (xxh_ok seed) _ _ [] pieces (xxh_update_ok seed)), xxh_init_ok, Hm.
Qed.

(** ** Published values

    The padding is the standard's, which the callers leave out; [abc]. *)
Definition abc : list Z := [97; 98; 99].
Definition padded (n : nat) (len : list Z) : list Z := abc ++ 0x80 :: replicate (n - 4 - length len) 0 ++ len.
Lemma test_vectors :
  full 64 md5_transform md5_H0 (padded 64 [24; 0; 0; 0; 0; 0; 0; 0]) =
    [0x98500190; 0xb04fd23c; 0x7d3f96d6; 0x727fe128] ∧
  (fio_sha1_final (fio_sha1_update (fio_sha1_init (Sha1Ctx [] (replicate 64 0) 0)) abc)).1 =
    [0xa9; 0x99; 0x3e; 0x36; 0x47; 0x6; 0x81; 0x6a; 0xba; 0x3e; 0x25; 0x71; 0x78; 0x50; 0xc2; 0x6c; 0x9c; 0xd0; 0xd8; 0x9d] ∧
  full 64 sha256_transform sha256_H0 (padded 64 [0; 24]) =
    [0xba7816bf; 0x8f01cfea; 0x414140de; 0x5dae2223;
     0xb00361a3; 0x96177a9c; 0xb410ff61; 0xf20015ad] ∧
  full 128 sha512_transform sha512_H0 (padded 128 [0; 24]) =
    [0xddaf35a193617aba; 0xcc417349ae204131; 0x12e6fa4e89a97ea2; 0xa9eeee64b55d39a;
     0x2192992a274fc1a8; 0x36ba3c23a3feebbd; 0x454d4423643ce80e; 0x2a9ac94fa54ca49f] ∧
  XXH32 abc 0 = 0x32d153ff.
Proof. by vm_compute. Qed.

(** ** Witnesses *)

Lemma updates_stream_witness :
  let zeros n := replicate n 0 in
  let pieces := [abc; replicate 100 7; abc] in
  md5_hash (foldl fio_md5_update (fio_md5_init (Md5Ctx [] (zeros 64%nat) 0)) pieces) =
    full 64 md5_transform md5_H0 (concat pieces) ∧
  sha1_H (foldl fio_sha1_update (fio_sha1_init (Sha1Ctx [] (zeros 64%nat) 0)) pieces) =
    full 64 blk_SHA1Block sha1_H0 (concat pieces) ∧
  sha_state (foldl fio_sha256_update (fio_sha256_init (ShaCtx [] [] (zeros 64%nat))) pieces) =
    full 64 sha256_transform sha256_H0 (concat pieces) ∧
  sha_state (foldl fio_sha512_update (fio_sha512_init (ShaCtx [] [] (zeros 128%nat))) pieces) =
    full 128 sha512_transform sha512_H0 (concat pieces).
Proof.
  exact (updates_stream [abc; replicate 100 7; abc] (replicate 64 0) (replicate 64 0) (replicate 64 0)
    (replicate 128 0) eq_refl eq_refl eq_refl eq_refl).
Defined.
Lemma xxh32_pieces_witness :
  length (replicate 16 0) = 16%nat ∧
  XXH32_digest (foldl XXH32_update (XXH32_init 1 (replicate 16 0)) [abc; replicate 40 9]) =
    XXH32 (abc ++ replicate 40 9) 1.
Proof. split; [done|]. exact (xxh32_pieces [abc; replicate 40 9] 1 (replicate 16 0) eq_refl eq_refl). Defined.
