(* ===== verification/FioHashDetect.v ===== *)
(** * fio: which changes of a block its checksum shows *)
From Stdlib Require Import ZArith Lia.
From stdpp Require Import base numbers list.
From S2P Require Import Prelude FioBits FioCrc FioHash FioHashCorrect.

(** [f] tells apart messages that differ in at most [n] bytes in a row. *)
Definition detects (n : nat) (f : list Z → Z) : Prop :=
  ∀ p b b' s, Forall is_byte (p ++ b ++ s) → Forall is_byte b' → length b = length b' → (length b ≤ n)%nat →
    f (p ++ b ++ s) = f (p ++ b' ++ s) → b = b'.

(** Its values have [n] bytes. *)
Definition fits_bytes (n : nat) (f : list Z → Z) : Prop :=
  ∀ d, Forall is_byte d → 0 ≤ f d < 2 ^ (8 * Z.of_nat n).

Definition injective_on (P : Z → Prop) (f : Z → Z) : Prop := ∀ x y, P x → P y → f x = f y → x = y.
Definition below (w x : Z) : Prop := 0 ≤ x < 2 ^ w.

Lemma iter_injective P f n :
  (∀ x, P x → P (f x)) → injective_on P f → injective_on P (Nat.iter n f).
Proof.
  intros Hp Hf. assert (∀ n x, P x → P (Nat.iter n f x)) as Hit by (intros m; induction m; simpl; auto).
  induction n as [|n IH]; intros x y Hx Hy E; [done|]. simpl in E. apply Hf in E; [|by apply Hit..]. by apply IH.
Qed.

(** A register that is a fold of injective steps: [g] takes a change of a few bytes
    in a row to the register. *)
Lemma detects_fold n (P : Z → Prop) (step : Z → Z → Z) (s0 : Z) :
  P s0 → (∀ x b, P x → is_byte b → P (step x b)) →
  (∀ b, is_byte b → injective_on P (λ x, step x b)) →
  (∀ x b b', P x → Forall is_byte b → Forall is_byte b' → length b = length b' → (length b ≤ n)%nat →
     foldl step x b = foldl step x b' → b = b') →
  detects n (foldl step s0).
Proof.
  intros H0 Hp Hs Hb p b b' s Hall Hb' Hl Hn E.
  apply Forall_app in Hall as [Hpp Hall]. apply Forall_app in Hall as [Hbb Hss].
  rewrite !foldl_app in E.
  assert (∀ l x, P x → Forall is_byte l → P (foldl step x l)) as Hfold.
  { induction l as [|c l IH]; intros x Hx Hc; simpl; [done|]. apply Forall_cons in Hc as [? ?]. by apply IH; [apply Hp|]. }
  set (x := foldl step s0 p) in *. assert (P x) as Hx by (by apply Hfold).
  apply (Hb x); [done..|]. clear Hb.
  assert (∀ l y z, P y → P z → Forall is_byte l → foldl step y l = foldl step z l → y = z) as Hinj.
  { induction l as [|c l IH]; intros y z Hy Hz Hc Eq; simpl in *; [done|]. apply Forall_cons in Hc as [Hc Hl'].
    apply (Hs c Hc); [done|done|]. apply IH; [by apply Hp|by apply Hp|done|done]. }
  apply (Hinj s); [by apply Hfold|by apply Hfold|done|done].
Qed.

(** ** Words of bytes *)

Lemma fold_fits n (step : Z → Z → Z) s0 :
  below (8 * Z.of_nat n) s0 → (∀ x b, below (8 * Z.of_nat n) x → is_byte b → below (8 * Z.of_nat n) (step x b)) →
  fits_bytes n (foldl step s0).
Proof.
  intros H0 Hs d Hd. revert s0 H0. induction Hd as [|b d Hb Hd IH]; intros s0 H0; simpl; [done|]. apply IH, Hs; done.
Qed.

Lemma le_word_bound bs : Forall is_byte bs → 0 ≤ le_word bs < 2 ^ (8 * Z.of_nat (length bs)).
Proof.
  induction 1 as [|b bs [Hb1 Hb2] _ IH]; [simpl; lia|]. cbn [le_word foldr length].
  change (foldr _ 0 bs) with (le_word bs). rewrite Nat2Z.inj_succ.
  replace (8 * Z.succ (Z.of_nat (length bs))) with (8 * Z.of_nat (length bs) + 8) by lia.
  rewrite Z.pow_add_r by lia. change (2 ^ 8) with 256. nia.
Qed.
Lemma le_word_inj b b' :
  Forall is_byte b → Forall is_byte b' → length b = length b' → le_word b = le_word b' → b = b'.
Proof.
  intros Hb. revert b'. induction Hb as [|x b [Hx1 Hx2] Hb IH]; intros [|y b'] Hb' Hl E; try done.
  apply Forall_cons in Hb' as [[Hy1 Hy2] Hb']. cbn [le_word foldr] in E.
  change (foldr _ 0 b) with (le_word b) in E. change (foldr _ 0 b') with (le_word b') in E.
  assert (x = y ∧ le_word b = le_word b') as [-> E'] by lia. f_equal. apply IH; [done|simpl in Hl; lia|done].
Qed.

(** ** Checksums *)

Lemma byte_below b w : is_byte b → 8 ≤ w → below w b.
Proof.
  intros [H0 H1] Hw. split; [done|]. eapply Z.lt_le_trans; [exact H1|]. change 256 with (2 ^ 8).
  apply Z.pow_le_mono_r; lia.
Qed.
Lemma below_testbit w x i : below w x → 0 ≤ w ≤ i → Z.testbit x i = false.
Proof.
  intros [H0 H1] Hi. destruct (decide (x = 0)) as [->|]; [apply Z.bits_0|].
  apply Z.bits_above_log2; [lia|]. apply Z.log2_lt_pow2; [lia|]. eapply Z.lt_le_trans; [exact H1|].
  apply Z.pow_le_mono_r; lia.
Qed.
Lemma byte_plus b w : is_byte b → 0 ≤ w → b + 256 * w = Z.lxor b (Z.shiftl w 8).
Proof.
  intros Hb Hw. replace (256 * w) with (Z.shiftl w 8) by (rewrite Z.shiftl_mul_pow2 by lia; lia).
  apply Z.add_nocarry_lxor. apply Z.bits_inj'. intros i Hi. rewrite Z.land_spec, Z.bits_0.
  destruct (decide (i < 8)); [by rewrite Z.shiftl_spec_low, andb_false_r by lia|].
  by rewrite byte_high by (done || lia).
Qed.

Lemma lsb_fold p s bs :
  Forall is_byte bs →
  foldl (lsb_byte p) s bs = Nat.iter (8 * length bs) (lsb_step p) (Z.lxor s (le_word bs)).
Proof.
  intros H. revert s. induction H as [|b bs Hb Hbs IH]; intros s; [by rewrite Z.lxor_0_r|].
  cbn [foldl le_word foldr]. change (foldr _ 0 bs) with (le_word bs). pose proof (le_word_bound _ Hbs).
  rewrite IH. replace (8 * length (b :: bs))%nat with (8 * length bs + 8)%nat by (simpl; lia).
  rewrite Nat.iter_add. f_equal. unfold lsb_byte.
  rewrite <- (lsb_shift p (le_word bs) 8) at 1. rewrite <- iter_linear by apply lsb_linear. f_equal.
  rewrite (byte_plus b) by (done || lia). by rewrite Z.lxor_assoc.
Qed.
Lemma lsb_step_below w p x : 0 < w → below w p → below w x → below w (lsb_step p x).
Proof.
  intros Hw Hp Hx. unfold lsb_step. apply lxor_bound; [lia| |by destruct (Z.testbit x 0); [|split; [lia|apply Z.pow_pos_nonneg; lia]]].
  destruct Hx. rewrite Z.shiftr_div_pow2 by lia. change (2 ^ 1) with 2. split; [apply Z.div_pos; lia|].
  apply Z.div_lt_upper_bound; lia.
Qed.
Lemma lsb_step_inj w p : 0 < w → Z.testbit p (w - 1) = true → injective_on (below w) (lsb_step p).
Proof.
  intros Hw Hp x y Hx Hy E.
  assert (∀ z, below w z → Z.testbit (lsb_step p z) (w - 1) = Z.testbit z 0) as Hb.
  { intros z Hz. unfold lsb_step. rewrite Z.lxor_spec, Z.shiftr_spec by lia.
    rewrite (below_testbit w z (w - 1 + 1)) by (done || lia). rewrite xorb_false_l.
    destruct (Z.testbit z 0); [done|apply Z.bits_0]. }
  assert (Z.testbit x 0 = Z.testbit y 0) as E0 by (by rewrite <- !Hb, E).
  unfold lsb_step in E. rewrite E0 in E.
  assert (Z.shiftr x 1 = Z.shiftr y 1) as E1.
  { apply (f_equal (λ a, Z.lxor a (if Z.testbit y 0 then p else 0))) in E.
    by rewrite !Z.lxor_assoc, Z.lxor_nilpotent, !Z.lxor_0_r in E. }
  apply Z.bits_inj'. intros i Hi. destruct (decide (i = 0)) as [->|]; [done|].
  replace i with (i - 1 + 1) by lia. by rewrite <- !Z.shiftr_spec, E1 by lia.
Qed.

Lemma below_lxor w a b : 0 ≤ w → below w a → below w b → below w (Z.lxor a b).
Proof. intros. by apply lxor_bound. Qed.
Lemma lxor_cancel a x y : Z.lxor a x = Z.lxor a y → x = y.
Proof.
  intros E. apply (f_equal (Z.lxor a)) in E. by rewrite <- !Z.lxor_assoc, Z.lxor_nilpotent, !Z.lxor_0_l in E.
Qed.
Lemma below_iter w f n : (∀ x, below w x → below w (f x)) → ∀ x, below w x → below w (Nat.iter n f x).
Proof. intros Hf x Hx. induction n; simpl; auto. Qed.

(** A register that shifts down, of [8 n] bits. *)
Lemma lsb_detects n p s0 step :
  (0 < n)%nat → let w := 8 * Z.of_nat n in
  below w p → Z.testbit p (w - 1) = true → below w s0 →
  (∀ x b, is_byte b → step x b = lsb_byte p x b) → detects n (foldl step s0) ∧ fits_bytes n (foldl step s0).
Proof.
  intros Hn w Hp Hp1 Hs0 Hstep. assert (∀ x, below w x → below w (lsb_step p x)) as Hlb.
  { intros x Hx. apply lsb_step_below; [lia|done|done]. }
  assert (∀ k, injective_on (below w) (Nat.iter k (lsb_step p))) as Hinj.
  { intros k. apply iter_injective; [done|]. apply lsb_step_inj; [lia|done]. }
  assert (∀ x b, below w x → is_byte b → below w (step x b)) as Hsb.
  { intros x b Hx Hb. rewrite Hstep by done. unfold lsb_byte. apply below_iter; [done|].
    apply below_lxor; [lia|done|]. apply byte_below; [done|lia]. }
  split; [|by apply fold_fits]. apply (detects_fold n (below w)); [done|done| |].
  - intros b Hb x y Hx Hy E. rewrite !Hstep in E by done. apply Hinj in E;
      [|apply below_lxor; [lia|done|apply byte_below; [done|lia]]..].
    rewrite !(Z.lxor_comm _ b) in E. by apply lxor_cancel in E.
  - intros x b b' Hx Hb Hb' Hl Hln E.
    assert (∀ l y, Forall is_byte l → foldl step y l = foldl (lsb_byte p) y l) as Hf.
    { induction l as [|c l IH]; intros y Hc; simpl; [done|]. apply Forall_cons in Hc as [Hc Hl'].
      by rewrite Hstep, IH. }
    rewrite !Hf, !lsb_fold in E by done. rewrite Hl in E.
    assert (∀ l, Forall is_byte l → (length l ≤ n)%nat → below w (le_word l)) as Hbl.
    { intros l Hl1 Hl2. pose proof (le_word_bound l Hl1) as [H0 H1]. split; [done|].
      eapply Z.lt_le_trans; [exact H1|]. apply Z.pow_le_mono_r; unfold w; lia. }
    apply Hinj in E; [|apply below_lxor; [lia|done|apply Hbl; (done || lia)]..].
    apply lxor_cancel in E. by apply le_word_inj.
Qed.

(** A register that shifts up. *)
Lemma be_word_cons b bs : be_word (b :: bs) = b * 2 ^ (8 * Z.of_nat (length bs)) + be_word bs.
Proof.
  unfold be_word. simpl. assert (∀ a, foldl (λ w b, 256 * w + b) a bs =
    a * 2 ^ (8 * Z.of_nat (length bs)) + foldl (λ w b, 256 * w + b) 0 bs) as H; [|by apply H].
  induction bs as [|c bs IH]; intros a; [simpl; lia|]. cbn [foldl length].
  rewrite (IH (256 * a + c)), (IH (256 * 0 + c)), Nat2Z.inj_succ.
  replace (8 * Z.succ (Z.of_nat (length bs))) with (8 + 8 * Z.of_nat (length bs)) by lia.
  rewrite Z.pow_add_r by lia. change (2 ^ 8) with 256. ring.
Qed.
Lemma be_word_bound bs : Forall is_byte bs → 0 ≤ be_word bs < 2 ^ (8 * Z.of_nat (length bs)).
Proof.
  induction 1 as [|b bs [Hb1 Hb2] _ IH]; [done|]. rewrite be_word_cons. cbn [length]. rewrite Nat2Z.inj_succ.
  replace (8 * Z.succ (Z.of_nat (length bs))) with (8 + 8 * Z.of_nat (length bs)) by lia.
  rewrite Z.pow_add_r by lia. change (2 ^ 8) with 256. nia.
Qed.
Lemma be_word_inj b b' :
  Forall is_byte b → Forall is_byte b' → length b = length b' → be_word b = be_word b' → b = b'.
Proof.
  intros Hb. revert b'. induction Hb as [|x b [Hx1 Hx2] Hb IH]; intros [|y b'] Hb' Hl E; try done.
  apply Forall_cons in Hb' as [[Hy1 Hy2] Hb']. injection Hl as Hl. rewrite !be_word_cons, <- Hl in E.
  pose proof (be_word_bound _ Hb) as H1. pose proof (be_word_bound _ Hb') as H2. rewrite <- Hl in H2.
  set (m := 2 ^ (8 * Z.of_nat (length b))) in *.
  assert (x = y) as -> by nia. f_equal. apply IH; [done|done|lia].
Qed.

Lemma msb_fold w p s bs :
  Forall is_byte bs → 8 * Z.of_nat (length bs) ≤ w →
  foldl (msb_byte w p) s bs =
    Nat.iter (8 * length bs) (msb_step w p) (Z.lxor s (Z.shiftl (be_word bs) (w - 8 * Z.of_nat (length bs)))).
Proof.
  intros H. revert s. induction H as [|b bs Hb Hbs IH]; intros s Hw; [by rewrite Z.shiftl_0_l, Z.lxor_0_r|].
  cbn [foldl]. pose proof (be_word_bound _ Hbs) as [Hw0 Hw1]. cbn [length] in Hw. rewrite Nat2Z.inj_succ in Hw.
  set (n := length bs) in *. rewrite IH by lia.
  replace (8 * length (b :: bs))%nat with (8 * n + 8)%nat by (unfold n; simpl; lia).
  rewrite Nat.iter_add. f_equal. unfold msb_byte.
  set (y := Z.shiftl (be_word bs) (w - 8 * Z.of_nat n - 8)).
  assert (Z.shiftl (be_word bs) (w - 8 * Z.of_nat n) = Nat.iter 8 (msb_step w p) y) as ->.
  { rewrite (msb_shift w p y 8); [unfold y; rewrite Z.shiftl_shiftl by lia; f_equal; lia| |lia|].
    - by apply Z.shiftl_nonneg.
    - unfold y. rewrite Z.shiftl_mul_pow2 by lia. change (Z.of_nat 8) with 8.
      assert (2 ^ (w - 8) = 2 ^ (8 * Z.of_nat n) * 2 ^ (w - 8 * Z.of_nat n - 8)) as ->
        by (rewrite <- Z.pow_add_r by lia; f_equal; lia). apply Z.mul_lt_mono_pos_r; [apply Z.pow_pos_nonneg; lia|done]. }
  rewrite <- iter_linear by apply msb_linear. f_equal. rewrite Z.lxor_assoc. f_equal.
  rewrite be_word_cons. fold n. rewrite <- Z.shiftl_mul_pow2 by lia. unfold y. cbn [length]. fold n.
  rewrite Nat2Z.inj_succ. replace (w - 8 * Z.succ (Z.of_nat n)) with (w - 8 * Z.of_nat n - 8) by lia.
  assert (Z.shiftl b (8 * Z.of_nat n) + be_word bs = Z.lxor (Z.shiftl b (8 * Z.of_nat n)) (be_word bs)) as ->.
  { apply Z.add_nocarry_lxor, Z.bits_inj'. intros i Hi. rewrite Z.land_spec, Z.bits_0.
    destruct (decide (i < 8 * Z.of_nat n)); [by rewrite Z.shiftl_spec_low by lia|].
    rewrite (below_testbit (8 * Z.of_nat n) (be_word bs)) by (done || lia). apply andb_false_r. }
  rewrite Z.shiftl_lxor, Z.shiftl_shiftl by lia. do 2 f_equal. lia.
Qed.
Lemma msb_step_inj w p : 0 < w → Z.testbit p 0 = true → injective_on (below w) (msb_step w p).
Proof.
  intros Hw Hp x y Hx Hy E.
  assert (∀ z, Z.testbit (msb_step w p z) 0 = Z.testbit z (w - 1)) as Hb.
  { intros z. unfold msb_step. rewrite Z.lxor_spec, Z.land_spec, Z.shiftl_spec_low by lia. rewrite xorb_false_l.
    destruct (Z.testbit z (w - 1)); [done|apply Z.bits_0]. }
  assert (Z.testbit x (w - 1) = Z.testbit y (w - 1)) as E0 by (by rewrite <- !Hb, E).
  unfold msb_step in E. rewrite E0 in E. rewrite !(Z.lxor_comm (Z.land _ _)) in E. apply lxor_cancel in E.
  apply Z.bits_inj'. intros i Hi. destruct (decide (w - 1 < i)) as [Hgt|Hle].
  { by rewrite !(below_testbit w) by (done || lia). }
  destruct (decide (i = w - 1)) as [->|Hne]; [done|].
  apply (f_equal (λ z, Z.testbit z (i + 1))) in E. rewrite !Z.land_spec, !Z.shiftl_spec in E by lia.
  rewrite Z.ones_spec_low, !andb_true_r in E by lia. by replace (i + 1 - 1) with i in E by lia.
Qed.
Lemma msb_detects n p s0 step :
  (0 < n)%nat → let w := 8 * Z.of_nat n in
  below w p → Z.testbit p 0 = true → below w s0 →
  (∀ x b, below w x → is_byte b → step x b = msb_byte w p x b) → detects n (foldl step s0) ∧ fits_bytes n (foldl step s0).
Proof.
  intros Hn w Hp Hp1 Hs0 Hstep.
  assert (∀ k x, below w x → below w (Nat.iter k (msb_step w p) x)) as Hlb by (intros; by apply msb_bound; [lia|..]).
  assert (∀ k, injective_on (below w) (Nat.iter k (msb_step w p))) as Hinj.
  { intros k. apply iter_injective; [intros x Hx; by apply (Hlb 1%nat)|]. apply msb_step_inj; [lia|done]. }
  assert (∀ l, Forall is_byte l → (length l ≤ n)%nat →
    below w (Z.shiftl (be_word l) (w - 8 * Z.of_nat (length l)))) as Hbl.
  { intros l Hl1 Hl2. pose proof (be_word_bound l Hl1) as [H0 H1]. split; [by apply Z.shiftl_nonneg|].
    rewrite Z.shiftl_mul_pow2 by lia.
    assert (2 ^ w = 2 ^ (8 * Z.of_nat (length l)) * 2 ^ (w - 8 * Z.of_nat (length l))) as ->
      by (rewrite <- Z.pow_add_r by lia; f_equal; lia). apply Z.mul_lt_mono_pos_r; [apply Z.pow_pos_nonneg; lia|done]. }
  assert (∀ b, is_byte b → below w (Z.shiftl b (w - 8))) as Hb8.
  { intros b Hb. pose proof (Hbl [b] ltac:(by constructor) ltac:(simpl; lia)) as H. unfold be_word in H. simpl in H. done. }
  assert (∀ x b, below w x → is_byte b → below w (step x b)) as Hsb.
  { intros x b Hx Hb. rewrite Hstep by done. apply Hlb, below_lxor; [lia|done|by apply Hb8]. }
  split; [|by apply fold_fits]. apply (detects_fold n (below w)); [done|done| |].
  - intros b Hb x y Hx Hy E. rewrite !Hstep in E by done. apply Hinj in E; [|apply below_lxor; [lia|done|by apply Hb8]..].
    rewrite !(Z.lxor_comm _ (Z.shiftl _ _)) in E. by apply lxor_cancel in E.
  - intros x b b' Hx Hb Hb' Hl Hln E.
    assert (∀ l y, below w y → Forall is_byte l → foldl step y l = foldl (msb_byte w p) y l) as Hf.
    { induction l as [|c l IH]; intros y Hy Hc; simpl; [done|]. apply Forall_cons in Hc as [Hc Hl'].
      rewrite IH by auto. by rewrite Hstep. }
    rewrite !Hf, !msb_fold in E by (done || lia). rewrite Hl in E.
    apply Hinj in E; [|apply below_lxor; [lia|done|]..].
    2: { rewrite <- Hl. by apply Hbl. } 2: { apply Hbl; [done|lia]. }
    apply lxor_cancel in E. rewrite !Z.shiftl_mul_pow2 in E by lia.
    apply Z.mul_cancel_r in E; [by apply be_word_inj|]. apply Z.pow_nonzero; lia.
Qed.

(** *** crc7 *)

Lemma crc7_tab i : is_byte i → tab crc7_syndrome_table i = Z.shiftr (Nat.iter 8 (msb_step 8 POLY7) i) 1.
Proof.
  intros Hi. destruct crc_tables as (_ & _ & _ & _ & H). rewrite forallb_forall in H.
  apply Z.eqb_eq, H, list_elem_of_In, elem_of_seqZ. unfold is_byte in Hi. lia.
Qed.
(** The table is linear, and only the polynomial has the remainder of zero. *)
Lemma crc7_kernel i j :
  is_byte i → is_byte j → tab crc7_syndrome_table i = tab crc7_syndrome_table j ↔
  Z.lxor i j = 0 ∨ Z.lxor i j = 0x89.
Proof.
  intros Hi Hj. assert (is_byte (Z.lxor i j)) as Hx by (by apply (lxor_bound i j 8)).
  assert (tab crc7_syndrome_table (Z.lxor i j) = Z.lxor (tab crc7_syndrome_table i) (tab crc7_syndrome_table j)) as E.
  { rewrite !crc7_tab by done. rewrite iter_linear by apply msb_linear. apply Z.shiftr_lxor. }
  assert (tab crc7_syndrome_table (Z.lxor i j) = 0 ↔ Z.lxor i j = 0 ∨ Z.lxor i j = 0x89) as <-.
  { set (x := Z.lxor i j) in *. clearbody x. clear -Hx.
    assert (forallb (λ x, eqb (tab crc7_syndrome_table x =? 0) ((x =? 0) || (x =? 0x89))) (seqZ 0 256) = true) as H by (by vm_compute).
    rewrite forallb_forall in H. specialize (H x). rewrite <- list_elem_of_In, elem_of_seqZ in H.
    unfold is_byte in Hx. specialize (H ltac:(lia)). apply eqb_prop in H.
    rewrite <- Z.eqb_eq, H, orb_true_iff, !Z.eqb_eq. tauto. }
  rewrite E. split; [intros ->; apply Z.lxor_nilpotent|apply Z.lxor_eq].
Qed.
Lemma crc7_bound c b : below 7 c → is_byte b → is_byte (Z.lxor (Z.shiftl c 1) b).
Proof.
  intros [Hc1 Hc2] Hb. apply (lxor_bound _ _ 8); [lia| |done]. rewrite Z.shiftl_mul_pow2 by lia. lia.
Qed.
Lemma crc7_byte_below c b : below 7 c → is_byte b → below 7 (crc7_byte c b).
Proof.
  intros Hc Hb. unfold crc7_byte. pose proof (crc7_bound _ _ Hc Hb) as Hx. rewrite crc7_tab by done.
  destruct (msb_bound 8 POLY7 (Z.lxor (Z.shiftl c 1) b) 8) as [H0 H1]; [lia|done|done|].
  rewrite Z.shiftr_div_pow2 by lia. change (2 ^ 1) with 2. split; [apply Z.div_pos; lia|]. apply Z.div_lt_upper_bound; lia.
Qed.
Lemma crc7_change p b b' s :
  Forall is_byte (p ++ b :: s) → is_byte b' →
  fio_crc7 (p ++ b :: s) = fio_crc7 (p ++ b' :: s) ↔ b = b' ∨ Z.lxor b b' = 0x89.
Proof.
  intros Hall Hb'. apply Forall_app in Hall as [Hp Hall]. apply Forall_cons in Hall as [Hb Hs].
  unfold fio_crc7. rewrite !foldl_app. cbn [foldl].
  assert (∀ l x, below 7 x → Forall is_byte l → below 7 (foldl crc7_byte x l)) as Hfold.
  { induction l as [|c l IH]; intros x Hx Hc; simpl; [done|]. apply Forall_cons in Hc as [? ?].
    apply IH; [by apply crc7_byte_below|done]. }
  set (x := foldl crc7_byte 0 p). assert (below 7 x) as Hx by (apply Hfold; done).
  assert (∀ l y z, below 7 y → below 7 z → Forall is_byte l → foldl crc7_byte y l = foldl crc7_byte z l ↔ y = z) as Hinj.
  { clear -Hfold. induction l as [|c l IH]; intros y z Hy Hz Hc; simpl; [done|]. apply Forall_cons in Hc as [Hc Hl].
    rewrite IH by (done || by apply crc7_byte_below). unfold crc7_byte. rewrite crc7_kernel by (by apply crc7_bound).
    rewrite (Z.lxor_comm (Z.shiftl y 1)), Z.lxor_assoc, (Z.lxor_comm c), Z.lxor_assoc, Z.lxor_assoc, Z.lxor_nilpotent, Z.lxor_0_r.
    rewrite <- Z.shiftl_lxor. destruct Hy, Hz. rewrite Z.shiftl_mul_pow2 by lia. split.
    - intros [E|E]; [apply Z.lxor_eq|]; lia.
    - intros ->. left. by rewrite Z.lxor_nilpotent. }
  rewrite Hinj by (done || by apply crc7_byte_below). unfold crc7_byte. rewrite crc7_kernel by (by apply crc7_bound).
  assert (Z.lxor (Z.lxor (Z.shiftl x 1) b) (Z.lxor (Z.shiftl x 1) b') = Z.lxor b b') as ->.
  { by rewrite (Z.lxor_comm (Z.shiftl x 1) b), Z.lxor_assoc, <- (Z.lxor_assoc (Z.shiftl x 1)), Z.lxor_nilpotent, Z.lxor_0_l. }
  split; (intros [E|E]; [left|by right]); [by apply Z.lxor_eq|subst; apply Z.lxor_nilpotent].
Qed.

Ltac in_range := split; [by vm_compute|by vm_compute].
Lemma crc_bursts :
  (detects 2 fio_crc16 ∧ fits_bytes 2 fio_crc16) ∧ (detects 4 fio_crc32 ∧ fits_bytes 4 fio_crc32) ∧
  (detects 4 crc32c_sw ∧ fits_bytes 4 crc32c_sw) ∧ (detects 8 fio_crc64 ∧ fits_bytes 8 fio_crc64).
Proof.
  destruct crc_tables as (H16 & H32c & H64 & H32 & _). split; [|split; [|split]].
  - refine (lsb_detects 2 POLY16 0 crc16_byte _ _ _ _ _); [lia|in_range|by vm_compute|in_range|].
    intros x b Hb. by rewrite (lsb_byte_table crc16_table _ _ _ H16 Hb).
  - refine (msb_detects 4 POLY32 0 (λ crc c, Z.lxor (u32 (Z.shiftl crc 8))
      (tab crctab (Z.land (Z.lxor (Z.shiftr crc 24) c) 0xff))) _ _ _ _ _); [lia|in_range|by vm_compute|in_range|].
    intros x b Hx Hb. unfold msb_byte.
    change (8 * Z.of_nat 4) with 32 in *. change (32 - 8) with 24. pose proof (shiftl_byte b 24 Hb ltac:(lia)) as Hbb.
    rewrite (msb_table crctab 32 POLY32 _ H32) by (lia || by apply lxor_bound).
    assert (Z.land (Z.shiftl (Z.lxor x (Z.shiftl b 24)) 8) (Z.ones 32) = u32 (Z.shiftl x 8)) as ->.
    { rewrite Z.shiftl_lxor, land_lxor, Z.shiftl_shiftl, !Z.land_ones by lia. change (24 + 8) with 32.
      by rewrite (Z.shiftl_mul_pow2 b), Z.mod_mul, Z.lxor_0_r by lia. }
    do 2 f_equal. rewrite Z.shiftr_lxor, (Z.shiftr_shiftl_l b), Z.shiftl_0_r by lia.
    change 0xff with (Z.ones 8). change (32 - 8) with 24. rewrite Z.land_ones by lia.
    apply Z.mod_small. apply (lxor_bound _ _ 8); [lia| |done].
    destruct Hx. rewrite Z.shiftr_div_pow2 by lia. split; [apply Z.div_pos; lia|apply Z.div_lt_upper_bound; lia].
  - refine (lsb_detects 4 POLY32C (2 ^ 32 - 1)
      (λ crc c, Z.lxor (tab crc32c_table (Z.land (Z.lxor crc c) 0xff)) (Z.shiftr crc 8)) _ _ _ _ _); [lia|in_range|by vm_compute|in_range|].
    intros x b Hb. by rewrite (lsb_byte_table crc32c_table _ _ _ H32c Hb), Z.lxor_comm.
  - refine (lsb_detects 8 POLY64 0
      (λ crc c, Z.lxor (tab crctab64 (Z.land (Z.lxor crc c) 0xff)) (Z.shiftr crc 8)) _ _ _ _ _); [lia|in_range|by vm_compute|in_range|].
    intros x b Hb. by rewrite (lsb_byte_table crctab64 _ _ _ H64 Hb), Z.lxor_comm.
Qed.

(** ** xxhash *)

Abbreviation word32 := (below 32).

Lemma u32_below x : word32 (u32 x).
Proof. apply Z.mod_pos_bound. lia. Qed.
Lemma u32_add_inj k : injective_on word32 (λ v, u32 (v + k)).
Proof.
  intros x y Hx Hy E. unfold u32, below in *. 
  assert (((x + k) - k) mod 2 ^ 32 = ((y + k) - k) mod 2 ^ 32) as E'.
  { rewrite Zminus_mod, E, <- Zminus_mod. done. }
  rewrite !Z.add_simpl_r, !Z.mod_small in E' by lia. done.
Qed.
Lemma u32_mul_inj p q : (p * q) mod 2 ^ 32 = 1 → injective_on word32 (λ v, u32 (v * p)).
Proof.
  intros Hpq x y Hx Hy E. unfold u32, below in *.
  assert (∀ z, 0 ≤ z < 2 ^ 32 → ((z * p) mod 2 ^ 32 * q) mod 2 ^ 32 = z) as Hz.
  { intros z Hz. rewrite Z.mul_mod_idemp_l, <- Z.mul_assoc, <- Z.mul_mod_idemp_r, Hpq, Z.mul_1_r by lia.
    by apply Z.mod_small. }
  rewrite <- (Hz x), <- (Hz y), E by done. done.
Qed.
Lemma below_bits w x : 0 ≤ w → (∀ i, w ≤ i → Z.testbit x i = false) → below w x.
Proof.
  intros Hw Hb. assert (x = x mod 2 ^ w) as ->; [|apply Z.mod_pos_bound; lia].
  rewrite <- Z.land_ones by done. apply Z.bits_inj'. intros i Hi. rewrite Z.land_spec. destruct (decide (i < w)).
  - by rewrite Z.ones_spec_low, andb_true_r by lia.
  - by rewrite Hb by lia.
Qed.
Lemma shiftr_below w x k : 0 ≤ w → 0 ≤ k → below w x → below w (Z.shiftr x k).
Proof.
  intros Hw Hk Hx. apply below_bits; [done|]. intros i Hi. rewrite Z.shiftr_spec by lia.
  apply (below_testbit w); [done|lia].
Qed.
Lemma rol32_below r x : 0 ≤ r ≤ 32 → word32 x → word32 (rol32 x r).
Proof.
  intros Hr Hx. apply below_bits; [lia|]. intros i Hi. unfold rol32. rewrite Z.lor_spec.
  rewrite (below_testbit 32 (u32 _)), (below_testbit 32 (Z.shiftr _ _)); [done| |lia|apply u32_below|lia].
  apply shiftr_below; [lia|lia|done].
Qed.
Lemma rol32_inj r : 0 < r < 32 → injective_on word32 (λ x, rol32 x r).
Proof.
  intros Hr x y Hx Hy E. apply Z.bits_inj'. intros i Hi.
  destruct (decide (32 ≤ i)) as [Hge|Hlt]; [by rewrite !(below_testbit 32) by (done || lia)|].
  assert (∀ z j, word32 z → 0 ≤ j < 32 → Z.testbit (rol32 z r) j = Z.testbit z (if decide (j < r) then j + 32 - r else j - r)) as Hb.
  { intros z j Hz Hj. unfold rol32, u32. rewrite Z.lor_spec, Z.shiftr_spec by lia. rewrite <- Z.land_ones by lia.
    rewrite Z.land_spec, Z.ones_spec_low, andb_true_r by lia. destruct (decide (j < r)).
    - rewrite Z.shiftl_spec_low by lia. simpl. f_equal. lia.
    - rewrite Z.shiftl_spec by lia. rewrite (below_testbit 32 z (j + (32 - r))) by (done || lia). apply orb_false_r. }
  pose proof (f_equal (λ z, Z.testbit z (if decide (i + r < 32) then i + r else i + r - 32)) E) as Eb.
  simpl in Eb. destruct (decide (i + r < 32)).
  - rewrite !Hb in Eb by (done || lia). rewrite decide_False in Eb by lia. by replace (i + r - r) with i in Eb by lia.
  - rewrite !Hb in Eb by (done || lia). rewrite decide_True in Eb by lia. by replace (i + r - 32 + 32 - r) with i in Eb by lia.
Qed.
Lemma xorshift_inj k : 0 < k → injective_on word32 (λ h, Z.lxor h (Z.shiftr h k)).
Proof.
  intros Hk x y Hx Hy E. apply Z.lxor_eq. set (d := Z.lxor x y).
  assert (d = Z.shiftr d k) as Ed.
  { unfold d. rewrite Z.shiftr_lxor. apply Z.lxor_eq. rewrite lxor_swap. rewrite E. apply Z.lxor_nilpotent. }
  assert (0 ≤ d) as Hd by (apply Z.lxor_nonneg; destruct Hx, Hy; tauto).
  rewrite Z.shiftr_div_pow2 in Ed by lia. assert (2 ^ 1 ≤ 2 ^ k) as Hp by (apply Z.pow_le_mono_r; lia).
  destruct (decide (d = 0)); [done|]. pose proof (Z.div_lt d (2 ^ k)). lia.
Qed.
Lemma xorshift_below k h : 0 ≤ k → word32 h → word32 (Z.lxor h (Z.shiftr h k)).
Proof.
  intros Hk Hh. apply below_lxor; [lia|done|]. by apply shiftr_below; [lia|..].
Qed.

(** Messages that differ in one byte. *)
Definition diff1 (l l' : list Z) : Prop :=
  ∃ p b b' s, l = p ++ b :: s ∧ l' = p ++ b' :: s ∧ b ≠ b' ∧ Forall is_byte l ∧ is_byte b'.
Lemma diff1_length l l' : diff1 l l' → length l = length l'.
Proof. intros (p & b & b' & s & -> & -> & _). by rewrite !length_app. Qed.
Lemma diff1_split n l l' :
  diff1 l l' → (diff1 (take n l) (take n l') ∧ drop n l = drop n l') ∨ (take n l = take n l' ∧ diff1 (drop n l) (drop n l')).
Proof.
  intros (p & b & b' & s & -> & -> & Hne & Hall & Hb'). apply Forall_app in Hall as [Hp Hall].
  destruct (decide (n ≤ length p)%nat).
  - right. rewrite !take_app_le, !drop_app_le by done. split; [done|]. exists (drop n p), b, b', s.
    split_and!; try done. apply Forall_app. split; [by apply Forall_drop|done].
  - left. rewrite !take_app_ge, !drop_app_ge by lia. replace (n - length p)%nat with (S (n - length p - 1)) by lia.
    simpl. split; [|done]. exists p, b, b', (take (n - length p - 1) s). split_and!; try done.
    apply Forall_app. split; [done|]. apply Forall_cons in Hall as [? ?]. constructor; [done|by apply Forall_take].
Qed.
Lemma diff1_le_word l l' : diff1 l l' → le_word l ≠ le_word l'.
Proof.
  intros Hd E. pose proof (diff1_length _ _ Hd) as Hl. destruct Hd as (p & b & b' & s & El & El' & Hne & Hall & Hb').
  apply le_word_inj in E; [|done| |done].
  - rewrite El, El' in E. apply app_inj_1 in E as [_ E]; [|done]. congruence.
  - rewrite El'. rewrite El in Hall. apply Forall_app in Hall as [? Hall]. apply Forall_cons in Hall as [? ?].
    apply Forall_app. by split; [|constructor].
Qed.

(** A difference goes through a loop over blocks, or is in what it leaves. *)
Section difference.
Context {H : Type} (n : nat) (Hn : (0 < n)%nat) (f : H → list Z → H) (ok : H → Prop) (R : H → H → Prop).
Context (Hok : ∀ h c, ok h → length c = n → Forall is_byte c → ok (f h c))
  (Hsame : ∀ h h' c, length c = n → Forall is_byte c → R h h' → R (f h c) (f h' c))
  (Hdiff : ∀ h c c', length c = n → ok h → diff1 c c' → R (f h c) (f h c')).

Lemma full_ind (Q : list Z → Prop) :
  (∀ l, (length l < n)%nat → Q l) → (∀ l, (n ≤ length l)%nat → Q (drop n l) → Q l) → ∀ l, Q l.
Proof.
  intros H1 H2 l. remember (length l) as k eqn:Ek. revert l Ek. induction (lt_wf k) as [k _ IH]. intros l ->.
  destruct (decide (length l < n)%nat); [by apply H1|]. apply H2; [lia|].
  eapply (IH (length (drop n l))); [rewrite length_drop; lia|done].
Qed.
Lemma full_ok h l : ok h → Forall is_byte l → ok (full n f h l).
Proof.
  revert h. induction l as [l Hl|l Hl IH] using full_ind; intros h Hh Hb.
  - by rewrite full_short by done.
  - rewrite full_cons by done. apply IH; [|by apply Forall_drop]. apply Hok; [done|rewrite length_take; lia|by apply Forall_take].
Qed.
Lemma full_same h h' l : R h h' → Forall is_byte l → R (full n f h l) (full n f h' l).
Proof.
  revert h h'. induction l as [l Hl|l Hl IH] using full_ind; intros h h' Hh Hb.
  - by rewrite !full_short by done.
  - rewrite !(full_cons n f Hn _ l) by done. apply IH; [|by apply Forall_drop].
    apply Hsame; [rewrite length_take; lia|by apply Forall_take|done].
Qed.
Lemma full_diff h l l' :
  ok h → diff1 l l' →
  (R (full n f h l) (full n f h l') ∧ tail n l = tail n l') ∨
  (full n f h l = full n f h l' ∧ diff1 (tail n l) (tail n l')).
Proof.
  revert h l'. induction l as [l Hl|l Hl IH] using full_ind; intros h l' Hh Hd;
    pose proof (diff1_length _ _ Hd) as Hlen.
  - right. rewrite !full_short, !tail_short by lia. done.
  - assert (Forall is_byte l) as Hb by (by destruct Hd as (? & ? & ? & ? & ? & ? & ? & ? & ?)).
    rewrite (full_cons n f Hn h l), (full_cons n f Hn h l'), (tail_cons n Hn l), (tail_cons n Hn l') by lia.
    destruct (diff1_split n _ _ Hd) as [[Ht Ed]|[Et Hd']].
    + left. rewrite <- Ed. split; [|done]. apply full_same; [|by apply Forall_drop].
      apply Hdiff; [rewrite length_take; lia|done|done].
    + rewrite <- Et. apply IH; [|done]. apply Hok; [done|rewrite length_take; lia|by apply Forall_take].
Qed.
End difference.

Definition apart (x y : Z) : Prop := word32 x ∧ word32 y ∧ x ≠ y.
(** Of the four registers exactly one differs. *)
Definition lane (k : nat) (v : Z * Z * Z * Z) : Z :=
  let '(v1, v2, v3, v4) := v in default 0 ([v1; v2; v3; v4] !! k).
Definition lanes_ok (v : Z * Z * Z * Z) : Prop := ∀ k, word32 (lane k v).
Definition one_lane (v v' : Z * Z * Z * Z) : Prop :=
  lanes_ok v ∧ lanes_ok v' ∧ ∃ k, (k < 4)%nat ∧ lane k v ≠ lane k v' ∧ ∀ j, j ≠ k → lane j v = lane j v'.

Lemma xxh_round_below v w : word32 (xxh_round v w).
Proof. apply u32_below. Qed.
Lemma xxh_round_inj w : injective_on word32 (λ v, xxh_round v w).
Proof.
  intros x y Hx Hy E. unfold xxh_round in E. apply (u32_mul_inj _ 244002641) in E; [|done|apply rol32_below; [lia|apply u32_below]..].
  apply rol32_inj in E; [|lia|apply u32_below|apply u32_below]. by apply (u32_add_inj _) in E.
Qed.
Lemma xxh_round_word v : injective_on word32 (xxh_round v).
Proof.
  intros x y Hx Hy E. unfold xxh_round in E. apply (u32_mul_inj _ 244002641) in E; [|done|apply rol32_below; [lia|apply u32_below]..].
  apply rol32_inj in E; [|lia|apply u32_below|apply u32_below].
  apply (u32_mul_inj PRIME32_2 3066638151); [done|done|done|]. unfold u32 in *.
  rewrite (Z.add_comm v), (Z.add_comm v) in E.
  replace (x * PRIME32_2) with (x * PRIME32_2 + v - v) by lia. replace (y * PRIME32_2) with (y * PRIME32_2 + v - v) by lia.
  by rewrite Zminus_mod, E, <- Zminus_mod.
Qed.
Lemma word4_below load c i : (load = le_word) → Forall is_byte c → word32 (word_at load 4 c i).
Proof.
  intros -> Hc. unfold word_at. pose proof (le_word_bound (take 4 (drop (Z.to_nat i * 4) c)) ltac:(by apply Forall_take, Forall_drop)) as [H0 H1].
  split; [done|]. eapply Z.lt_le_trans; [exact H1|]. apply Z.pow_le_mono_r; [lia|]. rewrite length_take. lia.
Qed.
Lemma lane_stripe v c k : (k < 4)%nat → lane k (xxh_stripe v c) = xxh_round (lane k v) (word_at le_word 4 c (Z.of_nat k)).
Proof. intros Hk. destruct v as [[[v1 v2] v3] v4]. by destruct k as [|[|[|[|]]]]; try lia. Qed.
Lemma lane_high v k : (4 ≤ k)%nat → lane k v = 0.
Proof. intros Hk. destruct v as [[[v1 v2] v3] v4]. by do 4 (destruct k as [|k]; [lia|]). Qed.
Lemma stripe_ok v c : lanes_ok (xxh_stripe v c).
Proof.
  intros k. destruct (decide (k < 4)%nat); [rewrite lane_stripe by done; apply xxh_round_below|].
  rewrite lane_high by lia. done.
Qed.
Lemma stripe_same v v' c : Forall is_byte c → one_lane v v' → one_lane (xxh_stripe v c) (xxh_stripe v' c).
Proof.
  intros Hc (Hv & Hv' & k & Hk & Hne & Heq). split; [apply stripe_ok|]. split; [apply stripe_ok|].
  exists k. split; [done|]. rewrite !lane_stripe by done. split.
  - intros E. apply (xxh_round_inj _) in E; [done|apply Hv|apply Hv'].
  - intros j Hj. destruct (decide (j < 4)%nat); [|by rewrite !lane_high by lia].
    rewrite !lane_stripe by done. by rewrite Heq.
Qed.
Lemma diff1_word c c' k :
  diff1 c c' → length c = (4 * 4)%nat → (k < 4)%nat →
  (word_at le_word 4 c (Z.of_nat k) = word_at le_word 4 c' (Z.of_nat k) ∨
   word_at le_word 4 c (Z.of_nat k) ≠ word_at le_word 4 c' (Z.of_nat k) ∧
   ∀ j, (j < 4)%nat → j ≠ k → word_at le_word 4 c (Z.of_nat j) = word_at le_word 4 c' (Z.of_nat j)).
Proof.
  intros Hd Hl Hk. unfold word_at. rewrite Nat2Z.id.
  destruct (diff1_split (k * 4) _ _ Hd) as [[Ht Ed]|[Et Hd1]]; [left; by rewrite Ed|].
  destruct (diff1_split 4 _ _ Hd1) as [[Ht Ed]|[Et2 Hd2]]; [right|left; by rewrite Et2].
  split; [by apply diff1_le_word|]. intros j Hj Hjk. rewrite Nat2Z.id. f_equal.
  destruct (decide (j < k)%nat).
  - assert (∀ m : list Z, take 4 (drop (j * 4) m) = drop (j * 4) (take (j * 4 + 4) (take (k * 4) m))) as H4.
    { intros m. by rewrite take_take, take_drop_commute, Nat.min_l by lia. }
    by rewrite !H4, Et.
  - replace (j * 4)%nat with (k * 4 + (4 + (j - k - 1) * 4))%nat by lia. by rewrite <- !drop_drop, Ed.
Qed.
Lemma stripe_diff v c c' : length c = 16%nat → lanes_ok v → diff1 c c' → one_lane (xxh_stripe v c) (xxh_stripe v c').
Proof.
  intros Hl Hv Hd. split; [apply stripe_ok|]. split; [apply stripe_ok|].
  assert (∃ k, (k < 4)%nat ∧ word_at le_word 4 c (Z.of_nat k) ≠ word_at le_word 4 c' (Z.of_nat k)) as (k & Hk & Hne).
  { assert (∀ i, (i ≤ 4)%nat → (∀ k, (k < i)%nat → word_at le_word 4 c (Z.of_nat k) = word_at le_word 4 c' (Z.of_nat k)) →
      diff1 (drop (i * 4) c) (drop (i * 4) c') ∨ ∃ k, (k < 4)%nat ∧ word_at le_word 4 c (Z.of_nat k) ≠ word_at le_word 4 c' (Z.of_nat k)) as Hi.
    { induction i as [|i IH]; intros Hi Hw; [by left|]. destruct IH as [IH|IH]; [lia|intros; apply Hw; lia| |by right].
      destruct (diff1_split 4 _ _ IH) as [[Ht _]|[_ Hd2]]; [right|left].
      - exists i. split; [lia|]. unfold word_at. rewrite Nat2Z.id. by apply diff1_le_word.
      - rewrite !drop_drop in Hd2. by replace (S i * 4)%nat with (i * 4 + 4)%nat by lia. }
    destruct (decide (Forall (λ k, word_at le_word 4 c (Z.of_nat k) = word_at le_word 4 c' (Z.of_nat k)) (seq 0 4))) as [Hall|Hnall].
    - rewrite Forall_forall in Hall. destruct (Hi 4%nat) as [Hd4|Hx]; [lia|intros k Hk; apply Hall, elem_of_seq; lia| |done].
      rewrite drop_ge in Hd4 by lia. destruct Hd4 as (p & b & b' & s & E & _). by destruct p.
    - apply not_Forall_Exists in Hnall; [|apply _]. apply Exists_exists in Hnall as (k & Hk & Hne).
      exists k. apply elem_of_seq in Hk. split; [lia|done]. }
  exists k. split; [done|]. rewrite !lane_stripe by done.
  assert (Forall is_byte c) as Hc by (by destruct Hd as (? & ? & ? & ? & ? & ? & ? & ? & ?)).
  assert (Forall is_byte c') as Hc'.
  { destruct Hd as (p & b & b' & s & -> & -> & _ & Hall & Hb'). apply Forall_app in Hall as [? Hall].
    apply Forall_cons in Hall as [? ?]. apply Forall_app. by split; [|constructor]. }
  destruct (diff1_word c c' k Hd Hl Hk) as [E|[_ Hj]]; [done|]. split.
  - intros E. apply (xxh_round_word _) in E; [done|by apply word4_below|by apply word4_below].
  - intros j Hjk. destruct (decide (j < 4)%nat); [|by rewrite !lane_high by lia].
    rewrite !lane_stripe by done. by rewrite Hj.
Qed.

Lemma join_apart v v' : one_lane v v' → apart (xxh_join v) (xxh_join v').
Proof.
  intros (Hv & Hv' & k & Hk & Hne & Heq). destruct v as [[[v1 v2] v3] v4], v' as [[[w1 w2] w3] w4].
  split; [apply u32_below|]. split; [apply u32_below|]. unfold xxh_join. intros E. apply Hne.
  pose proof (Hv k) as H1. pose proof (Hv' k) as H2.
  pose proof (Heq 0%nat) as E0. pose proof (Heq 1%nat) as E1. pose proof (Heq 2%nat) as E2. pose proof (Heq 3%nat) as E3.
  clear Hv Hv' Heq. simpl in E0, E1, E2, E3. destruct k as [|[|[|[|]]]]; try lia; simpl in *;
    rewrite ?E0, ?E1, ?E2, ?E3 in E by done.
  - rewrite <- !Z.add_assoc in E. apply (u32_add_inj _) in E; [|apply rol32_below; (lia || done)..].
    by apply rol32_inj in E.
  - rewrite !(Z.add_comm (rol32 w1 1)), <- !Z.add_assoc in E. apply (u32_add_inj _) in E; [|apply rol32_below; (lia || done)..].
    by apply rol32_inj in E.
  - rewrite !(Z.add_comm (rol32 w1 1 + _)), <- !Z.add_assoc in E. apply (u32_add_inj _) in E; [|apply rol32_below; (lia || done)..].
    by apply rol32_inj in E.
  - rewrite !(Z.add_comm (rol32 w1 1 + _ + _)) in E. apply (u32_add_inj _) in E; [|apply rol32_below; (lia || done)..].
    by apply rol32_inj in E.
Qed.

(** [h = rotl(h + x, r) * p]. *)
Lemma mix_inj r p q : 0 < r < 32 → (p * q) mod 2 ^ 32 = 1 → injective_on word32 (λ h, u32 (rol32 h r * p)).
Proof.
  intros Hr Hpq x y Hx Hy E. apply (u32_mul_inj p q) in E; [|done|apply rol32_below; (lia || done)..].
  by apply rol32_inj in E.
Qed.
Lemma add_mul_inj h p q : (p * q) mod 2 ^ 32 = 1 → injective_on word32 (λ x, u32 (h + x * p)).
Proof.
  intros Hpq x y Hx Hy E. apply (u32_mul_inj p q); [done|done|done|].
  assert (∀ z, u32 (z * p) = u32 (u32 (h + z * p) - h)) as H.
  { intros z. unfold u32. rewrite Zminus_mod_idemp_l. f_equal. lia. }
  by rewrite !H, E.
Qed.

Lemma xxh_word_same h h' c : Forall is_byte c → apart h h' → apart (xxh_word h c) (xxh_word h' c).
Proof.
  intros Hc (Hh & Hh' & Hne). split; [apply u32_below|]. split; [apply u32_below|]. intros E. apply Hne.
  apply (mix_inj 17 PRIME32_4 2701016015) in E; [|lia|done|apply u32_below|apply u32_below]. by apply (u32_add_inj _) in E.
Qed.
Lemma xxh_word_diff h c c' : length c = 4%nat → diff1 c c' → apart (xxh_word h c) (xxh_word h c').
Proof.
  intros Hl Hd. split; [apply u32_below|]. split; [apply u32_below|]. intros E.
  apply (mix_inj 17 PRIME32_4 2701016015) in E; [|lia|done|apply u32_below|apply u32_below].
  pose proof (diff1_length _ _ Hd) as Hl'. pose proof Hd as (p & b & b' & s & Ec & Ec' & _ & Hall & Hb').
  assert (Forall is_byte c') as Hc'.
  { rewrite Ec'. rewrite Ec in Hall. apply Forall_app in Hall as [? Hall]. apply Forall_cons in Hall as [? ?].
    apply Forall_app. by split; [|constructor]. }
  apply (add_mul_inj _ PRIME32_3 2828982549) in E; [|done|by apply word4_below|by apply word4_below].
  unfold word_at in E. simpl in E. rewrite !drop_0, !take_ge in E by lia. by apply (diff1_le_word _ _ Hd).
Qed.
Lemma xxh_byte_inj b : injective_on word32 (λ h, xxh_byte h b).
Proof.
  intros x y Hx Hy E. apply (mix_inj 11 PRIME32_1 244002641) in E; [|lia|done|apply u32_below|apply u32_below].
  by apply (u32_add_inj _) in E.
Qed.
Lemma xxh_bytes_same l h h' : apart h h' → apart (foldl xxh_byte h l) (foldl xxh_byte h' l).
Proof.
  revert h h'. induction l as [|b l IH]; intros h h' (Hh & Hh' & Hne); [done|]. simpl. apply IH.
  split; [apply u32_below|]. split; [apply u32_below|]. intros E. by apply xxh_byte_inj in E.
Qed.
Lemma xxh_bytes_diff h l l' : word32 h → diff1 l l' → apart (foldl xxh_byte h l) (foldl xxh_byte h l').
Proof.
  intros Hh (p & b & b' & s & -> & -> & Hne & Hall & Hb'). rewrite !foldl_app. simpl. apply xxh_bytes_same.
  split; [apply u32_below|]. split; [apply u32_below|]. intros E.
  apply (mix_inj 11 PRIME32_1 244002641) in E; [|lia|done|apply u32_below|apply u32_below].
  apply Forall_app in Hall as [_ Hall]. apply Forall_cons in Hall as [Hb _].
  apply (add_mul_inj _ PRIME32_5 2923004241) in E; [done|done|by apply byte_below; [|lia]..].
Qed.
Lemma avalanche_inj : injective_on word32 xxh_avalanche.
Proof.
  intros x y Hx Hy E. unfold xxh_avalanche in E.
  apply (xorshift_inj 16) in E; [|lia|apply u32_below|apply u32_below].
  apply (u32_mul_inj PRIME32_3 2828982549) in E; [|done|apply xorshift_below; [lia|apply u32_below]..].
  apply (xorshift_inj 13) in E; [|lia|apply u32_below|apply u32_below].
  apply (u32_mul_inj PRIME32_2 3066638151) in E; [|done|apply xorshift_below; [lia|done]..].
  by apply (xorshift_inj 15) in E; [|lia|..].
Qed.

Lemma finish_run h p : xxh_finish h p = xxh_avalanche (foldl xxh_byte (full 4 xxh_word h p) (tail 4 p)).
Proof. unfold xxh_finish. by rewrite each_block_run by lia. Qed.
Lemma xxh_full_ok h p : word32 h → Forall is_byte p → word32 (full 4 xxh_word h p).
Proof. intros Hh Hp. apply (full_ok 4 ltac:(lia) xxh_word (below 32)); [intros; apply u32_below|done|done]. Qed.
Lemma finish_same h h' p : apart h h' → Forall is_byte p → xxh_finish h p ≠ xxh_finish h' p.
Proof.
  intros Hh Hp. rewrite !finish_run. intros E.
  assert (apart (full 4 xxh_word h p) (full 4 xxh_word h' p)) as Ha.
  { apply (full_same 4 ltac:(lia) xxh_word apart); [intros; by apply xxh_word_same|done|done]. }
  destruct (xxh_bytes_same (tail 4 p) _ _ Ha) as (H1 & H2 & H3). by apply avalanche_inj in E.
Qed.
Lemma finish_diff h p p' : word32 h → diff1 p p' → xxh_finish h p ≠ xxh_finish h p'.
Proof.
  intros Hh Hd. rewrite !finish_run. intros E.
  assert (Forall is_byte p) as Hp by (by destruct Hd as (? & ? & ? & ? & ? & ? & ? & ? & ?)).
  assert (apart (foldl xxh_byte (full 4 xxh_word h p) (tail 4 p)) (foldl xxh_byte (full 4 xxh_word h p') (tail 4 p'))) as (H1 & H2 & H3).
  { destruct (full_diff 4 ltac:(lia) xxh_word word32 apart (λ h c _ _ _, u32_below _)
      (λ h h' c _ Hc, xxh_word_same h h' c Hc) (λ h c c' Hl _, xxh_word_diff h c c' Hl) h p p' Hh Hd) as [[Ha <-]|[<- Hd']].
    - by apply xxh_bytes_same.
    - apply xxh_bytes_diff; [by apply xxh_full_ok|done]. }
  by apply avalanche_inj in E.
Qed.

Lemma finish_below h p : word32 h → word32 (xxh_finish h p).
Proof. intros Hh. rewrite finish_run. unfold xxh_avalanche. apply xorshift_below; [lia|apply u32_below]. Qed.
Lemma xxh_fits seed : fits_bytes 4 (λ p, XXH32 p seed).
Proof.
  intros d _. unfold XXH32. destruct (Nat.leb_spec 16 (length d)) as [Hge|_]; [|apply finish_below, u32_below].
  rewrite each_block_run by lia. apply finish_below, u32_below.
Qed.

Lemma xxh_detects seed : word32 seed → detects 1 (λ p, XXH32 p seed).
Proof.
  intros Hseed p b b' s Hall Hb' Hl Hn E. destruct b as [|x [|]], b' as [|y [|]]; try (simpl in *; lia); [done|].
  destruct (decide (x = y)) as [->|Hne]; [done|]. exfalso. apply Forall_cons in Hb' as [Hy _].
  assert (diff1 (p ++ x :: s) (p ++ y :: s)) as Hd by (by exists p, x, y, s).
  change (p ++ [x] ++ s) with (p ++ x :: s) in *. change (p ++ [y] ++ s) with (p ++ y :: s) in *.
  set (m := p ++ x :: s) in *. set (m' := p ++ y :: s) in *. clearbody m m'. clear p s Hne Hl Hn.
  pose proof (diff1_length _ _ Hd) as Hl. unfold XXH32 in E. rewrite <- Hl in E.
  destruct (Nat.leb_spec 16 (length m)) as [Hge|Hlt].
  - rewrite !each_block_run in E by lia.
    assert (lanes_ok (xxh_start seed)) as Hst.
    { intros k. destruct k as [|[|[|[|k]]]]; simpl; [apply u32_below..|done|apply u32_below|]. done. }
    destruct (full_diff 16 ltac:(lia) xxh_stripe lanes_ok one_lane (λ h c _ _ _, stripe_ok h c)
      (λ h h' c _ Hc, stripe_same h h' c Hc) (λ h c c' Hl Hh, stripe_diff h c c' Hl Hh) _ m m' Hst Hd) as [[Ha Et]|[Ef Hd']].
    + rewrite <- Et in E. apply finish_same in E; [done| |].
      * apply join_apart in Ha as (H1 & H2 & H3). split; [apply u32_below|]. split; [apply u32_below|].
        intros Eq. by apply (u32_add_inj _) in Eq.
      * unfold tail. by apply Forall_drop.
    + rewrite <- Ef in E. by apply finish_diff in E; [|apply u32_below|].
  - by apply finish_diff in E; [|apply u32_below|].
Qed.

(** C21: What the checksums of a block show, for messages of the same length: crc16,
    crc32, crc32c and crc64 tell apart any two that differ in as many bytes in a row
    as the checksum has (a burst), xxhash any two that differ in one byte; crc7 two
    that differ in one byte unless the bits of the polynomial, 0x89, are flipped. *)
Theorem changes_detected :
  detects 2 fio_crc16 ∧ detects 4 fio_crc32 ∧ detects 4 crc32c_sw ∧ detects 8 fio_crc64 ∧
  (∀ seed, word32 seed → detects 1 (λ p, XXH32 p seed)) ∧
  ∀ p b b' s, Forall is_byte (p ++ b :: s) → is_byte b' →
    (fio_crc7 (p ++ b :: s) = fio_crc7 (p ++ b' :: s) ↔ b = b' ∨ Z.lxor b b' = 0x89).
Proof.
  destruct crc_bursts as ([H1 _] & [H2 _] & [H3 _] & [H4 _]). split_and!; [done|done|done|done|exact xxh_detects|exact crc7_change].
Qed.
Lemma changes_detected_witness :
  fio_crc32 [1; 2; 3; 4; 5] ≠ fio_crc32 [1; 7; 0; 9; 5] ∧ fio_crc7 [1; 2; 3] = fio_crc7 [1; 139; 3].
Proof.
  assert (Forall is_byte [1; 2; 3; 4; 5] ∧ Forall is_byte [7; 0; 9] ∧ Forall is_byte [1; 2; 3] ∧ is_byte 139) as (A & B & C & D).
  { unfold is_byte. split_and!; repeat constructor; lia. }
  destruct changes_detected as (_ & H & _ & _ & _ & H7). split.
  - intros E. specialize (H [1] [2; 3; 4] [7; 0; 9] [5] A B eq_refl ltac:(simpl; lia) E). discriminate H.
  - apply (H7 [1] 2 139 [3] C D). by right.
Defined.
