(* ===== verification/FioRand.v ===== *)
(** * fio: random numbers and random buffers (lib/rand.c, lib/rand.h)

    A buffer is a list of bytes; a pointer into it is an index, and an access that is
    not in the list is undefined. *)
From Stdlib Require Import ZArith Lia.
From stdpp Require Import base numbers list.
From S2P Require Import Prelude FioCrc FioHash FioHashCorrect.

(** ** Memory *)

Abbreviation memprog := (prog fault (list Z)).
Definition mem_read (off len : Z) : memprog (list Z) := λ m,
  if (0 <=? off) && (0 <=? len) && (off + len <=? Z.of_nat (length m))
  then (Done (take (Z.to_nat len) (drop (Z.to_nat off) m)), m)
  else (Leave (Undefined OutOfBounds), m).
Definition mem_write (off : Z) (bs : list Z) : memprog unit := λ m,
  if (0 <=? off) && (off + Z.of_nat (length bs) <=? Z.of_nat (length m))
  then (Done tt, memcpy_at (Z.to_nat off) bs m)
  else (Leave (Undefined OutOfBounds), m).

(** An integer of [n] bytes in memory. *)
Definition le_bytes (n : nat) (x : Z) : list Z :=
  map (λ i, Z.land (Z.shiftr x (8 * Z.of_nat i)) 0xff) (seq 0 n).

(** ** The generator *)

Definition FRAND_MAX : Z := 2 ^ 32 - 1.
Record frand_state := FrandState { s1 : Z; s2 : Z; s3 : Z }.

(** [s] is 32 bits, [c] a 64 bit constant; the assignment keeps 32 bits. *)
Definition TAUSWORTHE (s a b c d : Z) : Z :=
  u32 (Z.lxor (Z.shiftl (Z.land s c) d) (Z.shiftr (Z.lxor (u32 (Z.shiftl s a)) s) b)).
Definition __rand (st : frand_state) : Z * frand_state :=
  let st := FrandState (TAUSWORTHE (s1 st) 13 19 4294967294 12) (TAUSWORTHE (s2 st) 2 25 4294967288 4)
              (TAUSWORTHE (s3 st) 3 11 4294967280 17) in
  (Z.lxor (Z.lxor (s1 st) (s2 st)) (s3 st), st).

Definition __seed (x m : Z) : Z := if x <? m then x + m else x.
Definition LCG (x seed : Z) : Z := Z.lxor (u32 (x * 69069)) seed.
(** [2^31], [2^17] and [2^7] are exclusive ors. *)
Definition __init_rand (seed : Z) : frand_state :=
  let s1 := __seed (LCG (Z.lxor 2 31 + Z.lxor 2 17 + Z.lxor 2 7) seed) 1 in
  let s2 := __seed (LCG s1 seed) 7 in
  let s3 := __seed (LCG s2 seed) 15 in
  Nat.iter 6 (λ st, (__rand st).2) (FrandState s1 s2 s3).
Definition init_rand : frand_state := __init_rand 1.
Definition init_rand_seed (seed : Z) : frand_state := __init_rand seed.

(** ** Buffers *)

Definition GOLDEN_RATIO_PRIME : Z := 0x9e37fffffffc0001.
Fixpoint fill_longs (fuel : nat) (buf pos len seed : Z) : memprog unit :=
  match fuel with
  | O => leave OutOfFuel
  | S fuel =>
      if pos <? len then
        mem_write (buf + pos) (le_bytes 8 seed);;
        fill_longs fuel buf (pos + 8) len (Z.shiftr (u64 (seed * GOLDEN_RATIO_PRIME)) 3)
      else mret tt
  end.
Definition __fill_random_buf (buf len seed : Z) : memprog unit := fill_longs (S (Z.to_nat len)) buf 0 len seed.

(** The product of two numbers: [int] and pointers differ in size. *)
Definition rand_product (fs : frand_state) : Z * frand_state :=
  let '(r, fs) := __rand fs in let '(r', fs) := __rand fs in (u64 (r * r'), fs).
Definition fill_random_buf (fs : frand_state) (buf len : Z) : memprog (Z * frand_state) :=
  let '(r, fs) := rand_product fs in __fill_random_buf buf len r;; mret (r, fs).

Fixpoint percentage_loop (fuel : nat) (percentage segment r buf len : Z) : memprog unit :=
  match fuel with
  | O => leave OutOfFuel
  | S fuel =>
      if len =? 0 then mret tt
      else
        let this_len := u32 (segment * u32 (100 - percentage)) / 100 in
        let this_len := if len <? this_len then len else this_len in
        __fill_random_buf buf this_len r;;
        let len := len - this_len in
        let buf := buf + this_len in
        let this_len := if len <? this_len then len else this_len in
        mem_write buf (replicate (Z.to_nat this_len) 0);;
        percentage_loop fuel percentage segment r (buf + this_len) (len - this_len)
  end.
Definition fill_random_buf_percentage (fuel : nat) (fs : frand_state) (buf percentage segment len : Z)
    : memprog (Z * frand_state) :=
  let '(r, fs1) := __rand fs in
  if percentage =? 100 then mem_write buf (replicate (Z.to_nat len) 0);; mret (0, fs1)
  else
    let segment := if len <? segment then len else segment in
    let '(r', fs2) := __rand fs1 in
    let r := u64 (r * r') in
    percentage_loop fuel percentage segment r buf len;; mret (r, fs2).

(** ** Running *)

Lemma length_le_bytes n x : length (le_bytes n x) = n.
Proof. unfold le_bytes. by rewrite length_map, length_seq. Qed.
Lemma le_bytes_bytes n x : Forall is_byte (le_bytes n x).
Proof.
  unfold le_bytes. apply Forall_forall. intros y [i [<- _]]%list_elem_of_In%in_map_iff. apply byte_range.
Qed.

(** The buffer around the part that is accessed. *)
Lemma mem_read_run pre c post j n off len :
  off = Z.of_nat (length pre + j) → len = Z.of_nat n → (j + n ≤ length c)%nat →
  mem_read off len (pre ++ c ++ post) = (Done (take n (drop j c)), pre ++ c ++ post).
Proof.
  intros -> -> Hj. unfold mem_read. rewrite !length_app.
  rewrite !(proj2 (Z.leb_le _ _)) by lia. simpl. rewrite !Nat2Z.id. do 2 f_equal.
  rewrite drop_app_add', drop_app_le, take_app_le by (rewrite ?length_drop; lia). done.
Qed.
Lemma mem_write_run pre c post j bs off :
  off = Z.of_nat (length pre + j) → (j + length bs ≤ length c)%nat →
  mem_write off bs (pre ++ c ++ post) = (Done tt, pre ++ memcpy_at j bs c ++ post).
Proof.
  intros -> Hj. unfold mem_write. rewrite !length_app.
  rewrite !(proj2 (Z.leb_le _ _)) by lia. simpl. rewrite Nat2Z.id. f_equal. unfold memcpy_at.
  rewrite take_app_add', <- !app_assoc by done. f_equal. rewrite take_app_le by lia. f_equal. f_equal.
  replace (length pre + j + length bs)%nat with (length pre + (j + length bs))%nat by lia.
  by rewrite drop_app_add', drop_app_le by lia.
Qed.

(** The bytes a buffer of [8 n] bytes is filled with. *)
Fixpoint random_bytes (n : nat) (seed : Z) : list Z :=
  match n with
  | O => []
  | S n => le_bytes 8 seed ++ random_bytes n (Z.shiftr (u64 (seed * GOLDEN_RATIO_PRIME)) 3)
  end.
Lemma length_random_bytes n seed : length (random_bytes n seed) = (8 * n)%nat.
Proof. revert seed. induction n as [|n IH]; intros seed; [done|]. cbn [random_bytes]. rewrite length_app, IH. change (length (le_bytes 8 seed)) with 8%nat. lia. Qed.
Lemma random_bytes_bytes n seed : Forall is_byte (random_bytes n seed).
Proof. revert seed. induction n as [|n IH]; intros seed; [done|]. cbn [random_bytes]. apply Forall_app. split; [apply le_bytes_bytes|apply IH]. Qed.

Lemma memcpy_end i bs c : (i + length bs = length c)%nat → memcpy_at i bs c = take i c ++ bs.
Proof. intros H. unfold memcpy_at. by rewrite drop_ge, app_nil_r by lia. Qed.

Lemma fill_longs_run n : ∀ fuel pre c post done seed buf,
  length c = (8 * n)%nat → (n < fuel)%nat → buf = Z.of_nat (length pre) - Z.of_nat done →
  fill_longs fuel buf (Z.of_nat done) (Z.of_nat (done + 8 * n)) seed (pre ++ c ++ post) =
    (Done tt, pre ++ random_bytes n seed ++ post).
Proof.
  induction n as [|n IH]; intros fuel pre c post dn seed buf Hc Hf Hb; (destruct fuel as [|fuel]; [lia|]); cbn [fill_longs].
  - apply nil_length_inv in Hc as ->. by rewrite (proj2 (Z.ltb_ge _ _)) by lia.
  - rewrite (proj2 (Z.ltb_lt _ _)) by lia.
    rewrite (bind_done _ _ _ _ _ (mem_write_run pre c post 0 (le_bytes 8 seed) (buf + Z.of_nat dn) ltac:(lia) ltac:(rewrite length_le_bytes; lia))).
    unfold memcpy_at. rewrite length_le_bytes. change (take 0 c) with (@nil Z). change (0 + 8)%nat with 8%nat.
    rewrite app_nil_l. change (random_bytes (S n) seed) with
      (le_bytes 8 seed ++ random_bytes n (Z.shiftr (u64 (seed * GOLDEN_RATIO_PRIME)) 3)).
    rewrite <- !app_assoc. rewrite (app_assoc pre).
    replace (Z.of_nat dn + 8) with (Z.of_nat (dn + 8)) by lia. replace (dn + 8 * S n)%nat with (dn + 8 + 8 * n)%nat by lia.
    rewrite (IH fuel (pre ++ le_bytes 8 seed) (drop 8 c) post (dn + 8)%nat);
      [by rewrite <- app_assoc|rewrite length_drop; lia|lia|rewrite length_app, length_le_bytes; lia].
Qed.
Lemma fill_random_buf_run pre c post n seed buf len :
  length c = (8 * n)%nat → buf = Z.of_nat (length pre) → len = Z.of_nat (8 * n) →
  __fill_random_buf buf len seed (pre ++ c ++ post) = (Done tt, pre ++ random_bytes n seed ++ post).
Proof.
  intros Hc -> ->. unfold __fill_random_buf. apply (fill_longs_run n _ _ _ _ 0%nat); [done|lia|lia].
Qed.

(** *** Compressible buffers *)

Lemma percentage_stuck fuel p seg r buf len m :
  0 < len → 0 ≤ buf ≤ Z.of_nat (length m) → u32 (seg * u32 (100 - p)) / 100 = 0 →
  percentage_loop fuel p seg r buf len m = (Leave OutOfFuel, m).
Proof.
  intros Hlen Hbuf Hc. induction fuel as [|fuel IH]; [done|]. cbn [percentage_loop].
  rewrite (proj2 (Z.eqb_neq len 0)), Hc, (proj2 (Z.ltb_ge len 0)) by lia.
  assert (__fill_random_buf buf 0 r m = (Done tt, m)) as E by done. rewrite (bind_done _ _ _ _ _ E).
  rewrite Z.sub_0_r, Z.add_0_r, (proj2 (Z.ltb_ge len 0)) by lia.
  assert (mem_write buf (replicate (Z.to_nat 0) 0) m = (Done tt, m)) as Ew.
  { unfold mem_write. simpl. rewrite !(proj2 (Z.leb_le _ _)) by lia. simpl. unfold memcpy_at. simpl.
    by rewrite Nat.add_0_r, take_drop. }
  rewrite (bind_done _ _ _ _ _ Ew), Z.add_0_r, Z.sub_0_r. exact IH.
Qed.

Lemma percentage_run j : ∀ fuel p seg r k pre c post,
  u32 (seg * u32 (100 - p)) / 100 = Z.of_nat (8 * k) → (0 < k)%nat → length c = (16 * k * j)%nat → (j < fuel)%nat →
  percentage_loop fuel p seg r (Z.of_nat (length pre)) (Z.of_nat (length c)) (pre ++ c ++ post) =
    (Done tt, pre ++ concat (replicate j (random_bytes k r ++ replicate (8 * k) 0)) ++ post).
Proof.
  induction j as [|j IH]; intros fuel p seg r k pre c post Hc Hk Hl Hf; (destruct fuel as [|fuel]; [lia|]); cbn [percentage_loop].
  - rewrite Nat.mul_0_r in Hl. apply nil_length_inv in Hl as ->. done.
  - rewrite (proj2 (Z.eqb_neq _ 0)), Hc, (proj2 (Z.ltb_ge _ _)) by lia.
    set (c1 := take (8 * k) c). set (c2 := take (8 * k) (drop (8 * k) c)). set (c3 := drop (16 * k) c).
    assert (c = c1 ++ c2 ++ c3) as Ec.
    { unfold c1, c2, c3. replace (16 * k)%nat with (8 * k + 8 * k)%nat by lia. by rewrite <- drop_drop, !take_drop. }
    assert (length c1 = 8 * k ∧ length c2 = 8 * k ∧ length c3 = 16 * k * j)%nat as (H1 & H2 & H3).
    { unfold c1, c2, c3. rewrite !length_take, !length_drop. lia. }
    clearbody c1 c2 c3. replace (pre ++ c ++ post) with (pre ++ c1 ++ c2 ++ c3 ++ post) by (by rewrite Ec, <- !app_assoc).
    rewrite (bind_done _ _ _ _ _ (fill_random_buf_run pre c1 (c2 ++ c3 ++ post) k r _ _ H1 eq_refl eq_refl)).
    rewrite (proj2 (Z.ltb_ge _ _)) by lia. rewrite Nat2Z.id.
    assert (mem_write (Z.of_nat (length pre) + Z.of_nat (8 * k)) (replicate (8 * k) 0) (pre ++ random_bytes k r ++ c2 ++ c3 ++ post) =
      (Done tt, (pre ++ random_bytes k r ++ replicate (8 * k) 0) ++ c3 ++ post)) as Ew.
    { rewrite (app_assoc pre), (mem_write_run (pre ++ random_bytes k r) c2 (c3 ++ post) 0);
        [|rewrite length_app, length_random_bytes; lia|rewrite length_replicate; lia].
      rewrite memcpy_end by (rewrite length_replicate; lia). by rewrite <- !app_assoc. }
    rewrite (bind_done _ _ _ _ _ Ew).
    replace (Z.of_nat (length pre) + Z.of_nat (8 * k) + Z.of_nat (8 * k))
      with (Z.of_nat (length (pre ++ random_bytes k r ++ replicate (8 * k) 0)))
      by (rewrite !length_app, length_random_bytes, length_replicate; lia).
    replace (Z.of_nat (length c) - Z.of_nat (8 * k) - Z.of_nat (8 * k)) with (Z.of_nat (length c3)) by lia.
    rewrite (IH fuel p seg r k _ c3 post) by (done || lia). cbn [replicate concat]. by rewrite <- !app_assoc.
Qed.

(** Filling a buffer for a compression level: whatever the percentage, half of the
    buffer is zeros and half a repeated piece of random bytes (where the documentation
    says that the level asked for is reached); and if the random piece is less than
    one byte, the function does not come to an end. *)
Theorem compression_level_ignored fs p seg pre c post :
  0 < p < 100 → 0 < seg ≤ Z.of_nat (length c) → seg * (100 - p) < 2 ^ 32 →
  let piece := seg * (100 - p) / 100 in
  (piece = 0 → ∀ fuel, (fill_random_buf_percentage fuel fs (Z.of_nat (length pre)) p seg (Z.of_nat (length c))
      (pre ++ c ++ post)).1 = Leave OutOfFuel) ∧
  ∀ k j fuel, piece = Z.of_nat (8 * k) → (0 < k)%nat → length c = (16 * k * j)%nat → (j < fuel)%nat →
    ∃ r fs', fill_random_buf_percentage fuel fs (Z.of_nat (length pre)) p seg (Z.of_nat (length c)) (pre ++ c ++ post) =
      (Done (r, fs'), pre ++ concat (replicate j (random_bytes k r ++ replicate (8 * k) 0)) ++ post).
Proof.
  intros Hp Hseg Hov piece. unfold fill_random_buf_percentage.
  destruct (__rand fs) as [r fs1]. destruct (__rand fs1) as [r' fs2].
  rewrite (proj2 (Z.eqb_neq p 100)), (proj2 (Z.ltb_ge _ _)) by lia.
  assert (u32 (seg * u32 (100 - p)) / 100 = piece) as E.
  { unfold u32. rewrite (Z.mod_small (100 - p)), Z.mod_small by nia. done. }
  split.
  - intros H0 fuel. unfold mbind, prog_bind. rewrite percentage_stuck; [done|lia| |by rewrite E].
    rewrite !length_app. lia.
  - intros k j fuel Hk Hk0 Hj Hf. eexists _, _.
    rewrite (bind_done _ _ _ _ _ (percentage_run j fuel p seg _ k pre c post ltac:(by rewrite E) Hk0 Hj Hf)). done.
Qed.
Lemma compression_level_ignored_witness :
  let m := replicate 320 7 in
  (∀ fuel, (fill_random_buf_percentage fuel init_rand 0 99 99 320 m).1 = Leave OutOfFuel) ∧
  ∃ r fs, fill_random_buf_percentage 3 init_rand 0 75 320 320 m =
    (Done (r, fs), concat (replicate 2 (random_bytes 10 r ++ replicate 80 0))).
Proof.
  split.
  - exact (proj1 (compression_level_ignored init_rand 99 99 [] (replicate 320 7) [] ltac:(lia)
      ltac:(simpl; lia) ltac:(lia)) eq_refl).
  - destruct (proj2 (compression_level_ignored init_rand 75 320 [] (replicate 320 7) [] ltac:(lia)
      ltac:(simpl; lia) ltac:(lia)) 10%nat 2%nat 3%nat eq_refl ltac:(lia) eq_refl ltac:(lia)) as (r & fs & E).
    exists r, fs. rewrite !app_nil_l, !app_nil_r in E. exact E.
Defined.
