(* ===== verification/FioVerify.v ===== *)
(** * fio: verification of the contents of blocks (verify.c, verify.h)

    A buffer is filled with random bytes or a pattern, and a header with a checksum is
    put at every interval; what is read back is compared with its headers.  The
    buffer of the unit starts at address 0 of the memory. *)
From Stdlib Require Import ZArith Lia.
From stdpp Require Import base numbers list.
From S2P Require Import Prelude FioCrc FioHash FioHashCorrect.
From S2P Require Import FioRand.

(** ** Constants *)

Definition FIO_HDR_MAGIC : Z := 0xacca.
Definition VERIFY_NONE : Z := 0.
Definition VERIFY_MD5 : Z := 1.
Definition VERIFY_CRC64 : Z := 2.
Definition VERIFY_CRC32 : Z := 3.
Definition VERIFY_CRC32C : Z := 4.
Definition VERIFY_CRC32C_INTEL : Z := 5.
Definition VERIFY_CRC16 : Z := 6.
Definition VERIFY_CRC7 : Z := 7.
Definition VERIFY_SHA256 : Z := 8.
Definition VERIFY_SHA512 : Z := 9.
Definition VERIFY_XXHASH : Z := 10.
Definition VERIFY_META : Z := 11.
Definition VERIFY_SHA1 : Z := 12.
Definition VERIFY_PATTERN : Z := 13.
Definition VERIFY_NULL : Z := 14.
Definition MAX_PATTERN_SIZE : Z := 512.
Definition EINVAL : Z := 22.
Definition EILSEQ : Z := 84.

(** ** Data *)

(** The options and flags of the thread. *)
Record verify_opts := VerifyOpts {
  o_verify : Z; o_interval : Z; o_offset : Z; o_pattern : list Z; o_pattern_bytes : Z;
  o_fatal : bool; o_verifysort : bool; o_backlog : bool; o_fakeio : bool; o_trim_zero : bool;
  (* whether the numbers of writes are compared *)
  o_writes : bool; o_one_bs : bool; o_time_based : bool; o_verify_only : bool; o_loops : Z;
  thread_number : Z
}.
(** What verification reads of the unit. *)
Record io_u := IoU {
  u_buflen : Z; u_offset : Z; u_numberio : Z; u_read : bool; u_trimmed : bool; u_sec : Z; u_usec : Z
}.
Record vstate := VState {
  v_mem : list Z; v_rand : frand_state; rand_seed : Z; buf_filled_len : Z; terminate : bool
}.
Abbreviation vprog := (prog fault vstate).
Definition set_mem (m : list Z) (s : vstate) : vstate :=
  VState m (v_rand s) (rand_seed s) (buf_filled_len s) (terminate s).
Definition set_seed (x : Z) (s : vstate) : vstate :=
  VState (v_mem s) (v_rand s) x (buf_filled_len s) (terminate s).
Definition set_rand (r : frand_state) (s : vstate) : vstate :=
  VState (v_mem s) r (rand_seed s) (buf_filled_len s) (terminate s).
Definition set_filled (n : Z) (s : vstate) : vstate :=
  VState (v_mem s) (v_rand s) (rand_seed s) n (terminate s).
Definition set_terminate (s : vstate) : vstate :=
  VState (v_mem s) (v_rand s) (rand_seed s) (buf_filled_len s) true.
Definition on_mem {A} (p : memprog A) : vprog A := zoom v_mem set_mem p.
Definition abort_unless {S} (b : bool) : prog fault S unit := if b then mret tt else leave Abort.

(** The bytes of memory that was not initialised. *)
Class Junk := junk : nat → list Z.

(** ** Patterns *)

Fixpoint pattern_copies (fuel : nat) (p i len : Z) (pattern : list Z) (pattern_bytes : Z) : memprog unit :=
  match fuel with
  | O => leave OutOfFuel
  | S fuel =>
      if i <? len then
        let size := if len - i <? pattern_bytes then len - i else pattern_bytes in
        mem_write (p + i) (take (Z.to_nat size) pattern);;
        pattern_copies fuel p (i + size) len pattern pattern_bytes
      else mret tt
  end.
Definition fill_pattern (p len : Z) (pattern : list Z) (pattern_bytes : Z) : memprog unit :=
  if pattern_bytes =? 0 then leave Abort
  else if pattern_bytes =? 1 then mem_write p (replicate (Z.to_nat len) (tab pattern 0))
  else pattern_copies (S (Z.to_nat len)) p 0 len pattern pattern_bytes.

Section verify.
Context {Ju : Junk} (o : verify_opts) (u : io_u).

Definition fill_verify_pattern (p len seed : Z) (use_seed : bool) : vprog unit :=
  if o_pattern_bytes o =? 0 then
    if use_seed then on_mem (__fill_random_buf p len seed)
    else
      fs ← readS v_rand;
      r ← on_mem (fill_random_buf fs p len);
      modS (set_rand r.2);;
      modS (set_seed r.1)
  else
    filled ← readS buf_filled_len;
    if len <=? filled then mret tt
    else
      on_mem (fill_pattern p len (o_pattern o) (o_pattern_bytes o));;
      modS (set_filled len).

Definition get_hdr_inc : Z :=
  if negb (o_interval o =? 0) && (o_interval o <=? u_buflen u) then o_interval o else u32 (u_buflen u).

(** ** Headers *)

(** The size of the part that depends on the type. *)
Definition vhdr_len (verify_type : Z) : option Z :=
  if (verify_type =? VERIFY_NONE) || (verify_type =? VERIFY_NULL) then Some 0
  else if verify_type =? VERIFY_MD5 then Some 16
  else if verify_type =? VERIFY_CRC64 then Some 8
  else if (verify_type =? VERIFY_CRC32C) || (verify_type =? VERIFY_CRC32) || (verify_type =? VERIFY_CRC32C_INTEL) then Some 4
  else if verify_type =? VERIFY_CRC16 then Some 2
  else if verify_type =? VERIFY_CRC7 then Some 1
  else if verify_type =? VERIFY_SHA256 then Some 64
  else if verify_type =? VERIFY_SHA512 then Some 128
  else if verify_type =? VERIFY_XXHASH then Some 4
  else if verify_type =? VERIFY_META then Some 32
  else if verify_type =? VERIFY_SHA1 then Some 20
  else if verify_type =? VERIFY_PATTERN then Some 0
  else None.
(** [struct verify_header]: [magic] at 0, [verify_type] at 2, [len] at 4, [rand_seed] at
    8, [crc32] at 16; 24 bytes with the padding. *)
Definition sizeof_header : Z := 24.
Definition __hdr_size {S} (verify_type : Z) : prog fault S Z :=
  match vhdr_len verify_type with Some n => mret (n + sizeof_header) | None => leave Abort end.
Definition get_int (n : nat) (p : Z) : memprog Z := bs ← mem_read p (Z.of_nat n); mret (le_word bs).
Definition put_int (n : nat) (p x : Z) : memprog unit := mem_write p (le_bytes n x).
Definition hdr_type (hdr : Z) : memprog Z := get_int 2 (hdr + 2).
Definition hdr_len (hdr : Z) : memprog Z := get_int 4 (hdr + 4).
Definition hdr_size (hdr : Z) : memprog Z := ty ← hdr_type hdr; __hdr_size ty.
Definition hdr_priv (hdr : Z) : Z := hdr + sizeof_header.

Definition memswp (buf1 buf2 len : Z) : memprog unit :=
  abort_unless (len <=? 200);;
  if (buf1 <? buf2 + len) && (buf2 <? buf1 + len) then leave (Undefined BadArgument)
  else
    a ← mem_read buf1 len;
    b ← mem_read buf2 len;
    mem_write buf1 b;;
    mem_write buf2 a.

(** ** Checksums *)

(** The hashes of [data] as the bytes in memory; [buf] is the array that [buf] of the
    context points to. *)
Definition words_bytes (n : nat) (l : list Z) : list Z := concat (map (le_bytes n) l).
Definition md5_bytes (data : list Z) : list Z :=
  words_bytes 4 (md5_hash (fio_md5_update (fio_md5_init (Md5Ctx [] (replicate 64 0) 0)) data)).
Definition sha1_bytes (data : list Z) : list Z :=
  words_bytes 4 (sha1_H (fio_sha1_update (fio_sha1_init (Sha1Ctx [] (replicate 64 0) 0)) data)).
Definition sha256_bytes (buf data : list Z) : list Z :=
  sha_buf (fio_sha256_update (fio_sha256_init (ShaCtx [] [] buf)) data).
Definition sha512_bytes (buf data : list Z) : list Z :=
  sha_buf (fio_sha512_update (fio_sha512_init (ShaCtx [] [] buf)) data).
Definition xxhash_bytes (data : list Z) : list Z :=
  le_bytes 4 (XXH32_digest (XXH32_update (XXH32_init 1 (junk 16)) data)).

(** [fill_md5] and the like: [n] bytes of the header from the data, and from what they were. *)
Definition fill_with (n : Z) (f : list Z → list Z → list Z) (hdr p len : Z) : memprog unit :=
  d ← mem_read p len;
  old ← mem_read (hdr_priv hdr) n;
  mem_write (hdr_priv hdr) (f old d).
Definition fill_md5 := fill_with 16 (λ _, md5_bytes).
Definition fill_sha1 := fill_with 20 (λ _, sha1_bytes).
Definition fill_sha256 := fill_with 64 sha256_bytes.
Definition fill_sha512 := fill_with 128 sha512_bytes.
Definition fill_xxhash := fill_with 4 (λ _, xxhash_bytes).
Definition fill_crc7 := fill_with 1 (λ _ d, le_bytes 1 (fio_crc7 d)).
Definition fill_crc16 := fill_with 2 (λ _ d, le_bytes 2 (fio_crc16 d)).
Definition fill_crc32 := fill_with 4 (λ _ d, le_bytes 4 (fio_crc32 d)).
Definition fill_crc32c := fill_with 4 (λ _ d, le_bytes 4 (crc32c_sw d)).
Definition fill_crc64 := fill_with 8 (λ _ d, le_bytes 8 (fio_crc64 d)).

(** [struct vhdr_meta]: [offset] at 0, [thread] at 8, [numberio] at 10, [time_sec] at 16,
    [time_usec] at 24. *)
Definition meta_offset (header_num : Z) : Z := u64 (u_offset u + u32 (header_num * o_interval o)).
Definition fill_meta (hdr header_num : Z) : memprog unit :=
  let vh := hdr_priv hdr in
  put_int 1 (vh + 8) (thread_number o);;
  put_int 8 (vh + 16) (u_sec u);;
  put_int 8 (vh + 24) (u_usec u);;
  put_int 2 (vh + 10) (u_numberio u);;
  put_int 8 vh (meta_offset header_num).

Definition populate_hdr (hdr header_num header_len : Z) : vprog unit :=
  seed ← readS rand_seed;
  on_mem (
    put_int 2 hdr FIO_HDR_MAGIC;;
    put_int 2 (hdr + 2) (o_verify o);;
    put_int 4 (hdr + 4) header_len;;
    put_int 8 (hdr + 8) seed;;
    h ← mem_read hdr 16;
    put_int 4 (hdr + 16) (crc32c_sw h);;
    size ← hdr_size hdr;
    let data_len := u32 (header_len - size) in
    let data := hdr + size in
    let ty := o_verify o in
    (if ty =? VERIFY_MD5 then fill_md5 hdr data data_len
     else if ty =? VERIFY_CRC64 then fill_crc64 hdr data data_len
     else if (ty =? VERIFY_CRC32C) || (ty =? VERIFY_CRC32C_INTEL) then fill_crc32c hdr data data_len
     else if ty =? VERIFY_CRC32 then fill_crc32 hdr data data_len
     else if ty =? VERIFY_CRC16 then fill_crc16 hdr data data_len
     else if ty =? VERIFY_CRC7 then fill_crc7 hdr data data_len
     else if ty =? VERIFY_SHA256 then fill_sha256 hdr data data_len
     else if ty =? VERIFY_SHA512 then fill_sha512 hdr data data_len
     else if ty =? VERIFY_XXHASH then fill_xxhash hdr data data_len
     else if ty =? VERIFY_META then fill_meta hdr header_num
     else if ty =? VERIFY_SHA1 then fill_sha1 hdr data data_len
     else if ty =? VERIFY_PATTERN then mret tt
     else leave Abort);;
    if o_offset o =? 0 then mret tt
    else size ← hdr_size hdr; memswp hdr (hdr + o_offset o) size).

Fixpoint headers_loop (fuel : nat) (p header_num : Z) : vprog unit :=
  match fuel with
  | O => leave OutOfFuel
  | S fuel =>
      if p <? u_buflen u then
        populate_hdr p header_num get_hdr_inc;;
        headers_loop fuel (p + get_hdr_inc) (header_num + 1)
      else mret tt
  end.
Definition fill_pattern_headers (seed : Z) (use_seed : bool) : vprog unit :=
  fill_verify_pattern 0 (u32 (u_buflen u)) seed use_seed;;
  headers_loop (S (Z.to_nat (u_buflen u))) 0 0.
(** [u_numberio] is the number that is set here. *)
Definition populate_verify_io_u : vprog unit :=
  if o_verify o =? VERIFY_NULL then mret tt else fill_pattern_headers 0 false.

(** ** Verifying *)

(** [io_u_verify_off], and the length of the data. *)
Definition io_u_verify_off (hdr hdr_num : Z) : memprog (Z * Z) :=
  len ← hdr_len hdr;
  size ← hdr_size hdr;
  mret (u32 (hdr_num * len) + size, u32 (len - size)).
(** [verify_io_u_md5] and the like; [n] bytes of the header are compared. *)
Definition verify_with (n : Z) (f : list Z → list Z) (hdr hdr_num : Z) : memprog Z :=
  r ← io_u_verify_off hdr hdr_num;
  d ← mem_read r.1 r.2;
  vh ← mem_read (hdr_priv hdr) n;
  mret (if bool_decide (vh = f d) then 0 else EILSEQ).
Definition verify_io_u_md5 := verify_with 16 md5_bytes.
Definition verify_io_u_sha1 := verify_with 20 sha1_bytes.
Definition verify_io_u_sha256 := verify_with 64 (sha256_bytes (junk 64)).
Definition verify_io_u_sha512 := verify_with 128 (sha512_bytes (junk 128)).
Definition verify_io_u_xxhash := verify_with 4 xxhash_bytes.
Definition verify_io_u_crc7 := verify_with 1 (λ d, le_bytes 1 (fio_crc7 d)).
Definition verify_io_u_crc16 := verify_with 2 (λ d, le_bytes 2 (fio_crc16 d)).
Definition verify_io_u_crc32 := verify_with 4 (λ d, le_bytes 4 (fio_crc32 d)).
Definition verify_io_u_crc32c := verify_with 4 (λ d, le_bytes 4 (crc32c_sw d)).
Definition verify_io_u_crc64 := verify_with 8 (λ d, le_bytes 8 (fio_crc64 d)).

(** A part of [pattern]. *)
Definition pattern_read (mod_ size : Z) : memprog (list Z) :=
  if (0 <=? mod_) && (0 <=? size) && (mod_ + size <=? Z.of_nat (length (o_pattern o)))
  then mret (take (Z.to_nat size) (drop (Z.to_nat mod_) (o_pattern o)))
  else leave (Undefined OutOfBounds).
Fixpoint pattern_compare (fuel : nat) (buf len pattern_size i mod_ : Z) : memprog (Z * Z) :=
  match fuel with
  | O => leave OutOfFuel
  | S fuel =>
      if i <? len then
        let size := if len - i <? pattern_size - mod_ then len - i else pattern_size - mod_ in
        a ← mem_read (buf + i) size;
        b ← pattern_read mod_ size;
        if bool_decide (a = b) then pattern_compare fuel buf len pattern_size (i + size) 0
        else mret (i, mod_)
      else mret (i, mod_)
  end.
Fixpoint pattern_search (fuel : nat) (buf len i mod_ : Z) : memprog Z :=
  match fuel with
  | O => leave OutOfFuel
  | S fuel =>
      if i <? len then
        a ← mem_read (buf + i) 1;
        b ← pattern_read mod_ 1;
        if bool_decide (a = b) then
          let mod_ := mod_ + 1 in
          pattern_search fuel buf len (i + 1) (if mod_ =? o_pattern_bytes o then 0 else mod_)
        else mret EILSEQ
      else mret 0
  end.
Definition verify_io_u_pattern (hdr : Z) : memprog Z :=
  header_size ← __hdr_size (o_verify o);
  let pattern_size := if o_pattern_bytes o <=? 1 then MAX_PATTERN_SIZE else o_pattern_bytes o in
  let buf := hdr + header_size in
  let len := u32 (get_hdr_inc - header_size) in
  let fuel := S (Z.to_nat len) in
  r ← pattern_compare fuel buf len pattern_size 0 (header_size mod pattern_size);
  pattern_search fuel buf len r.1 r.2.

Definition verify_io_u_meta (hdr hdr_num : Z) : memprog Z :=
  off ← get_int 8 (hdr_priv hdr);
  let ret := if off =? meta_offset hdr_num then 0 else EILSEQ in
  ret ← (if o_pattern_bytes o =? 0 then mret ret else r ← verify_io_u_pattern hdr; mret (Z.lor ret r));
  if o_writes o && o_one_bs o && negb (o_time_based o) && (negb (o_verify_only o) || (o_loops o =? 0)) then
    n ← get_int 2 (hdr_priv hdr + 10);
    mret (if n =? u_numberio u then ret else EILSEQ)
  else mret ret.

(** The zeros are compared in pieces of 1024 bytes. *)
Fixpoint zero_pieces (fuel : nat) (p len : Z) : memprog Z :=
  match fuel with
  | O => leave OutOfFuel
  | S fuel =>
      let this_len := if len <? 1024 then len else 1024 in
      a ← mem_read p this_len;
      if bool_decide (a = replicate (Z.to_nat this_len) 0) then
        if len - this_len =? 0 then mret 0 else zero_pieces fuel (p + this_len) (len - this_len)
      else mret EILSEQ
  end.
Definition verify_trimmed_io_u : memprog Z :=
  if negb (o_trim_zero o) then mret 0 else zero_pieces (S (Z.to_nat (u_buflen u))) 0 (u32 (u_buflen u)).

Definition verify_header (hdr hdr_len_ : Z) : vprog Z :=
  seed ← readS rand_seed;
  on_mem (
    magic ← get_int 2 hdr;
    if negb (magic =? FIO_HDR_MAGIC) then mret EILSEQ
    else
      len ← hdr_len hdr;
      if negb (len =? hdr_len_) then mret EILSEQ
      else
        s ← get_int 8 (hdr + 8);
        if negb (s =? seed) then mret EILSEQ
        else
          h ← mem_read hdr 16;
          crc ← get_int 4 (hdr + 16);
          mret (if crc32c_sw h =? crc then 0 else EILSEQ)).

Definition verify_switch (verify_type hdr hdr_num : Z) : memprog Z :=
  if verify_type =? VERIFY_MD5 then verify_io_u_md5 hdr hdr_num
  else if verify_type =? VERIFY_CRC64 then verify_io_u_crc64 hdr hdr_num
  else if (verify_type =? VERIFY_CRC32C) || (verify_type =? VERIFY_CRC32C_INTEL) then verify_io_u_crc32c hdr hdr_num
  else if verify_type =? VERIFY_CRC32 then verify_io_u_crc32 hdr hdr_num
  else if verify_type =? VERIFY_CRC16 then verify_io_u_crc16 hdr hdr_num
  else if verify_type =? VERIFY_CRC7 then verify_io_u_crc7 hdr hdr_num
  else if verify_type =? VERIFY_SHA256 then verify_io_u_sha256 hdr hdr_num
  else if verify_type =? VERIFY_SHA512 then verify_io_u_sha512 hdr hdr_num
  else if verify_type =? VERIFY_XXHASH then verify_io_u_xxhash hdr hdr_num
  else if verify_type =? VERIFY_META then verify_io_u_meta hdr hdr_num
  else if verify_type =? VERIFY_SHA1 then verify_io_u_sha1 hdr hdr_num
  else if verify_type =? VERIFY_PATTERN then verify_io_u_pattern hdr
  else mret EINVAL.

(** One turn: [inl] for the [return] after a bad header. *)
Definition verify_turn (p hdr_num : Z) : vprog (Z + Z) :=
  header_size ← __hdr_size (o_verify o);
  (if o_offset o =? 0 then mret tt else on_mem (memswp p (p + o_offset o) header_size));;
  (if o_verifysort o || o_backlog o then s ← on_mem (get_int 8 (p + 8)); modS (set_seed s) else mret tt);;
  ret ← verify_header p get_hdr_inc;
  if negb (ret =? 0) then mret (inl ret)
  else
    verify_type ← (if negb (o_verify o =? VERIFY_NONE) then mret (o_verify o) else on_mem (hdr_type p));
    r ← on_mem (verify_switch verify_type p hdr_num);
    mret (inr r).
Fixpoint verify_loop (fuel : nat) (p hdr_num ret : Z) : vprog (Z + Z) :=
  match fuel with
  | O => leave OutOfFuel
  | S fuel =>
      if p <? u_buflen u then
        if negb (ret =? 0) && o_fatal o then mret (inr ret)
        else
          r ← verify_turn p hdr_num;
          match r with
          | inl ret => mret (inl ret)
          | inr ret => verify_loop fuel (p + get_hdr_inc) (hdr_num + 1) ret
          end
      else mret (inr ret)
  end.
Definition verify_done (ret : Z) : vprog Z :=
  (if negb (ret =? 0) && o_fatal o then modS set_terminate else mret tt);; mret ret.
Definition verify_io_u : vprog Z :=
  if (o_verify o =? VERIFY_NULL) || negb (u_read u) then mret 0
  else if o_fakeio o then mret 0
  else if u_trimmed u then ret ← on_mem verify_trimmed_io_u; verify_done ret
  else
    r ← verify_loop (S (Z.to_nat (u_buflen u))) 0 0 0;
    match r with
    | inl ret => mret ret
    | inr ret => verify_done ret
    end.
End verify.
