(* ===== verification/FioVerifyRun.v ===== *)
(** * fio: what populating and verifying a buffer do to its pieces *)
From Stdlib Require Import ZArith Lia.
From stdpp Require Import base numbers list.
From S2P Require Import Prelude FioCrc FioHash FioHashCorrect FioHashDetect.
From S2P Require Import FioRand FioVerify.

(** ** Integers in memory *)

Lemma le_bytes_S n x : le_bytes (S n) x = Z.land x 0xff :: le_bytes n (Z.shiftr x 8).
Proof.
  unfold le_bytes. simpl. rewrite Z.shiftr_0_r. f_equal. rewrite <- seq_shift, map_map. apply map_ext.
  intros i. rewrite Z.shiftr_shiftr by lia. do 2 f_equal. lia.
Qed.
Lemma le_word_bytes n x : le_word (le_bytes n x) = x mod 2 ^ (8 * Z.of_nat n).
Proof.
  revert x. induction n as [|n IH]; intros x; [by rewrite Z.mod_1_r|].
  rewrite le_bytes_S. cbn [le_word foldr]. change (foldr _ 0 ?l) with (le_word l). rewrite IH.
  change 0xff with (Z.ones 8). rewrite Z.land_ones, Z.shiftr_div_pow2 by lia. change (2 ^ 8) with 256.
  replace (8 * Z.of_nat (S n)) with (8 + 8 * Z.of_nat n) by lia. rewrite Z.pow_add_r by lia. change (2 ^ 8) with 256.
  by rewrite Z.rem_mul_r by lia.
Qed.
Lemma le_word_small n x : 0 ≤ x < 2 ^ (8 * Z.of_nat n) → le_word (le_bytes n x) = x.
Proof. intros Hx. rewrite le_word_bytes. by apply Z.mod_small. Qed.
Lemma le_bytes_word bs : Forall is_byte bs → le_bytes (length bs) (le_word bs) = bs.
Proof.
  intros Hb. apply le_word_inj; [apply le_bytes_bytes|done|apply length_le_bytes|].
  rewrite le_word_small; [done|]. by apply le_word_bound.
Qed.
Lemma le_bytes_inj n x y : 0 ≤ x < 2 ^ (8 * Z.of_nat n) → 0 ≤ y < 2 ^ (8 * Z.of_nat n) → le_bytes n x = le_bytes n y → x = y.
Proof. intros Hx Hy E. rewrite <- (le_word_small n x), <- (le_word_small n y), E by done. done. Qed.

Lemma memcpy_after a bs c : (length bs ≤ length c)%nat → memcpy_at (length a) bs (a ++ c) = a ++ bs ++ drop (length bs) c.
Proof. intros H. unfold memcpy_at. by rewrite take_app_length, drop_app_add. Qed.

(** ** Pieces of memory *)

Lemma get_int_run pre c post j n p :
  p = Z.of_nat (length pre + j) → (j + n ≤ length c)%nat →
  get_int n p (pre ++ c ++ post) = (Done (le_word (take n (drop j c))), pre ++ c ++ post).
Proof. intros Hp Hj. unfold get_int. by rewrite (bind_done _ _ _ _ _ (mem_read_run pre c post j n p _ Hp eq_refl Hj)). Qed.
Lemma put_int_run pre c post j n p x :
  p = Z.of_nat (length pre + j) → (j + n ≤ length c)%nat →
  put_int n p x (pre ++ c ++ post) = (Done tt, pre ++ memcpy_at j (le_bytes n x) c ++ post).
Proof. intros Hp Hj. unfold put_int. apply mem_write_run; [done|]. by rewrite length_le_bytes. Qed.

(** Exchanging the first [n] bytes with those at [off]. *)
Definition swp (off n : nat) (c : list Z) : list Z :=
  memcpy_at off (take n c) (memcpy_at 0 (take n (drop off c)) c).
Lemma swp_split n a b d e :
  length a = n → length d = n → swp (n + length b) n (a ++ b ++ d ++ e) = d ++ b ++ a ++ e.
Proof.
  intros Ha Hd. unfold swp. rewrite <- Ha, take_app_length, Ha.
  rewrite <- Ha, drop_app_add, drop_app_length, Ha, <- Hd, take_app_length, memcpy_0, Hd, <- Ha, drop_app_length.
  assert (length a + length b = length (d ++ b))%nat as -> by (rewrite length_app; lia).
  rewrite app_assoc, memcpy_after by (rewrite length_app; lia).
  rewrite Ha, <- Hd, drop_app_length. by rewrite <- !app_assoc.
Qed.
(** A piece that has room for both parts. *)
Lemma split_swp off n (c : list Z) :
  (n ≤ off)%nat → (off + n ≤ length c)%nat →
  ∃ a b d e, c = a ++ b ++ d ++ e ∧ length a = n ∧ length d = n ∧ off = (n + length b)%nat.
Proof.
  intros Ho Hc. exists (take n c), (take (off - n) (drop n c)), (take n (drop off c)), (drop (off + n) c).
  rewrite !length_take, !length_drop. split_and!; [|lia..].
  rewrite <- (take_drop n c) at 1. f_equal. rewrite <- (take_drop (off - n) (drop n c)) at 1. f_equal.
  rewrite drop_drop. replace (n + (off - n))%nat with off by lia.
  rewrite <- (take_drop n (drop off c)) at 1. by rewrite drop_drop.
Qed.
Lemma swp_swp off n c : (n ≤ off)%nat → (off + n ≤ length c)%nat → swp off n (swp off n c) = c.
Proof.
  intros Ho Hc. destruct (split_swp off n c Ho Hc) as (a & b & d & e & -> & Ha & Hd & ->).
  by rewrite !swp_split.
Qed.
Lemma length_swp off n c : (n ≤ off)%nat → (off + n ≤ length c)%nat → length (swp off n c) = length c.
Proof.
  intros Ho Hc. destruct (split_swp off n c Ho Hc) as (a & b & d & e & -> & Ha & Hd & ->).
  rewrite swp_split by done. rewrite !length_app. lia.
Qed.
Lemma memswp_run pre c post off n p :
  p = Z.of_nat (length pre) → (n ≤ off)%nat → (off + n ≤ length c)%nat → (n ≤ 200)%nat →
  memswp p (p + Z.of_nat off) (Z.of_nat n) (pre ++ c ++ post) = (Done tt, pre ++ swp off n c ++ post).
Proof.
  intros -> Ho Hc Hn. unfold memswp, abort_unless. rewrite (proj2 (Z.leb_le _ 200)) by lia.
  rewrite (bind_done (mret tt) _ _ _ tt eq_refl).
  rewrite (proj2 (Z.ltb_ge (_ + Z.of_nat off) _)), andb_false_r by lia.
  rewrite (bind_done _ _ _ _ _ (mem_read_run pre c post 0 n (Z.of_nat (length pre)) (Z.of_nat n) ltac:(lia) eq_refl ltac:(lia))).
  rewrite (bind_done _ _ _ _ _ (mem_read_run pre c post off n (Z.of_nat (length pre) + Z.of_nat off) (Z.of_nat n) ltac:(lia) eq_refl ltac:(lia))).
  assert (length (take n (drop off c)) = n) as Hl by (rewrite length_take, length_drop; lia).
  rewrite (bind_done _ _ _ _ _ (mem_write_run pre c post 0 (take n (drop off c)) (Z.of_nat (length pre)) ltac:(lia) ltac:(lia))).
  rewrite (mem_write_run pre _ post off); [by rewrite drop_0|lia|].
  rewrite length_memcpy by lia. rewrite drop_0, length_take. lia.
Qed.

(** ** Headers *)

Definition header16 (ty len seed : Z) : list Z :=
  le_bytes 2 FIO_HDR_MAGIC ++ le_bytes 2 ty ++ le_bytes 4 len ++ le_bytes 8 seed.
Definition header20 (ty len seed : Z) : list Z :=
  header16 ty len seed ++ le_bytes 4 (crc32c_sw (header16 ty len seed)).
Lemma length_header20 ty len seed : length (header20 ty len seed) = 20%nat.
Proof. done. Qed.
Lemma length_header16 ty len seed : length (header16 ty len seed) = 16%nat.
Proof. done. Qed.

(** The beginning of a piece. *)
Lemma put_first pre a c post n p x :
  p = Z.of_nat (length pre + length a) → (n ≤ length c)%nat →
  put_int n p x (pre ++ (a ++ c) ++ post) = (Done tt, pre ++ (a ++ le_bytes n x ++ drop n c) ++ post).
Proof.
  intros Hp Hn. rewrite (put_int_run pre (a ++ c) post (length a)) by (done || rewrite ?length_app; lia).
  by rewrite memcpy_after, length_le_bytes by (rewrite length_le_bytes; lia).
Qed.

(** The part of [populate_hdr] that depends on the type. *)
Definition populate_switch `{Junk} (o : verify_opts) (u : io_u) (hdr header_num data data_len : Z) : memprog unit :=
  let ty := o_verify o in
  if ty =? VERIFY_MD5 then fill_md5 hdr data data_len
  else if ty =? VERIFY_CRC64 then fill_crc64 hdr data data_len
  else if (ty =? VERIFY_CRC32C) || (ty =? VERIFY_CRC32C_INTEL) then fill_crc32c hdr data data_len
  else if ty =? VERIFY_CRC32 then fill_crc32 hdr data data_len
  else if ty =? VERIFY_CRC16 then fill_crc16 hdr data data_len
  else if ty =? VERIFY_CRC7 then fill_crc7 hdr data data_len
  else if ty =? VERIFY_SHA256 then fill_sha256 hdr data data_len
  else if ty =? VERIFY_SHA512 then fill_sha512 hdr data data_len
  else if ty =? VERIFY_XXHASH then fill_xxhash hdr data data_len
  else if ty =? VERIFY_META then fill_meta o u hdr header_num
  else if ty =? VERIFY_SHA1 then fill_sha1 hdr data data_len
  else if ty =? VERIFY_PATTERN then mret tt
  else leave Abort.

Section header.
Context {Ju : Junk} (o : verify_opts) (u : io_u) (nh : nat).
Context (Hty : vhdr_len (o_verify o) = Some (Z.of_nat nh)) (Hrange : 0 ≤ o_verify o < 2 ^ 16).
Let sz : nat := (24 + nh)%nat.
Context (Hsz : (sz ≤ 200)%nat).

(** Where the header of a piece goes. *)
Definition placed (off : Z) (n : nat) (c : list Z) : list Z := if off =? 0 then c else swp (Z.to_nat off) n c.

Lemma hdr_size_run pre c post len seed rest :
  c = header20 (o_verify o) len seed ++ rest →
  hdr_size (Z.of_nat (length pre)) (pre ++ c ++ post) = (Done (Z.of_nat sz), pre ++ c ++ post).
Proof using Hty Hrange.
  clear Hsz. intros ->. unfold hdr_size, hdr_type.
  rewrite (bind_done _ _ _ _ _ (get_int_run pre _ post 2 2 (Z.of_nat (length pre) + 2) ltac:(lia)
    ltac:(rewrite length_app, length_header20; lia))).
  change (take 2 (drop 2 (header20 (o_verify o) len seed ++ rest))) with (le_bytes 2 (o_verify o)).
  rewrite le_word_small by (simpl; lia). unfold __hdr_size. rewrite Hty. unfold mret, prog_ret.
  do 2 f_equal. unfold sz, sizeof_header. lia.
Qed.

Lemma populate_hdr_run pre c post k inc (s : vstate) c2 :
  v_mem s = pre ++ c ++ post → inc = Z.of_nat (length c) → (sz ≤ length c)%nat → inc < 2 ^ 32 →
  (o_offset o = 0 ∨ Z.of_nat sz ≤ o_offset o ∧ o_offset o + Z.of_nat sz ≤ inc) →
  let c1 := header20 (o_verify o) inc (rand_seed s) ++ drop 20 c in
  populate_switch o u (Z.of_nat (length pre)) k (Z.of_nat (length pre + sz)) (Z.of_nat (length c - sz))
    (pre ++ c1 ++ post) = (Done tt, pre ++ c2 ++ post) →
  (∃ rest, c2 = header20 (o_verify o) inc (rand_seed s) ++ rest) → length c2 = length c →
  populate_hdr o u (Z.of_nat (length pre)) k inc s =
    (Done tt, set_mem (pre ++ placed (o_offset o) sz c2 ++ post) s).
Proof.
  intros Hm Hinc Hlen Hlt Hoff c1 Hsw [rest Hc2] Hl2. unfold populate_hdr.
  rewrite (bind_done (readS rand_seed) _ s s _ eq_refl). apply zoom_run. rewrite Hm.
  set (p := Z.of_nat (length pre)). set (seed := rand_seed s) in *. set (ty := o_verify o) in *.
  assert (∀ a x n c p', p' = Z.of_nat (length pre + length a) → (n ≤ length c)%nat →
    put_int n p' x (pre ++ (a ++ c) ++ post) = (Done tt, pre ++ (a ++ le_bytes n x ++ drop n c) ++ post)) as Hput
    by (intros; by apply put_first).
  rewrite (bind_done _ _ _ _ _ (Hput [] FIO_HDR_MAGIC 2%nat c p ltac:(simpl; lia) ltac:(lia))).
  rewrite app_nil_l, (bind_done _ _ _ _ _ (Hput (le_bytes 2 FIO_HDR_MAGIC) ty 2%nat (drop 2 c) (p + 2)
    ltac:(rewrite length_le_bytes; lia) ltac:(rewrite length_drop; lia))).
  rewrite drop_drop, (app_assoc (le_bytes 2 FIO_HDR_MAGIC)).
  rewrite (bind_done _ _ _ _ _ (Hput (le_bytes 2 FIO_HDR_MAGIC ++ le_bytes 2 ty) inc 4%nat (drop (2 + 2) c) (p + 4)
    ltac:(rewrite length_app, !length_le_bytes; lia) ltac:(rewrite length_drop; lia))).
  rewrite drop_drop, (app_assoc (le_bytes 2 FIO_HDR_MAGIC ++ le_bytes 2 ty)).
  rewrite (bind_done _ _ _ _ _ (Hput ((le_bytes 2 FIO_HDR_MAGIC ++ le_bytes 2 ty) ++ le_bytes 4 inc) seed 8%nat
    (drop (2 + 2 + 4) c) (p + 8) ltac:(rewrite !length_app, !length_le_bytes; lia) ltac:(rewrite length_drop; lia))).
  rewrite drop_drop, (app_assoc ((le_bytes 2 FIO_HDR_MAGIC ++ le_bytes 2 ty) ++ le_bytes 4 inc)).
  change (((le_bytes 2 FIO_HDR_MAGIC ++ le_bytes 2 ty) ++ le_bytes 4 inc) ++ le_bytes 8 seed) with (header16 ty inc seed).
  rewrite (bind_done _ _ _ _ _ (mem_read_run pre _ post 0 16 p 16 ltac:(lia) eq_refl
    ltac:(rewrite length_app, length_header16; lia))).
  change (take 16 (drop 0 (header16 ty inc seed ++ drop (2 + 2 + 4 + 8) c))) with (header16 ty inc seed).
  rewrite (bind_done _ _ _ _ _ (Hput (header16 ty inc seed) (crc32c_sw (header16 ty inc seed)) 4%nat
    (drop (2 + 2 + 4 + 8) c) (p + 16) ltac:(rewrite length_header16; lia) ltac:(rewrite length_drop; lia))).
  rewrite drop_drop, (app_assoc (header16 ty inc seed)).
  change (header16 ty inc seed ++ le_bytes 4 (crc32c_sw (header16 ty inc seed))) with (header20 ty inc seed).
  change (2 + 2 + 4 + 8 + 4)%nat with 20%nat. fold c1.
  rewrite (bind_done _ _ _ _ _ (hdr_size_run pre c1 post inc seed _ eq_refl)).
  assert (u32 (inc - Z.of_nat sz) = Z.of_nat (length c - sz)) as -> by (unfold u32; rewrite Z.mod_small; lia).
  replace (p + Z.of_nat sz) with (Z.of_nat (length pre + sz)) by (unfold p; lia).
  assert (populate_switch o u p k (Z.of_nat (length pre + sz)) (Z.of_nat (length c - sz)) (pre ++ c1 ++ post) =
    (Done tt, pre ++ c2 ++ post)) as E by exact Hsw. unfold populate_switch in E. cbn zeta in E. fold ty in E.
  rewrite (bind_done _ _ _ _ _ E). unfold placed. destruct (Z.eqb_spec (o_offset o) 0) as [|H0]; [done|].
  rewrite (bind_done _ _ _ _ _ (hdr_size_run pre c2 post inc seed rest Hc2)).
  destruct Hoff as [|[Ho1 Ho2]]; [done|]. rewrite <- (Z2Nat.id (o_offset o)) at 1 by lia.
  apply memswp_run; [done|lia|lia|done].
Qed.
End header.

(** ** Verifying a piece *)

Definition field (j n : nat) (c : list Z) : Z := le_word (take n (drop j c)).
Definition header_ok (inc seed : Z) (c : list Z) : bool :=
  (field 0 2 c =? FIO_HDR_MAGIC) && (field 4 4 c =? inc) && (field 8 8 c =? seed) &&
  (crc32c_sw (take 16 c) =? field 16 4 c).

Lemma header20_ok ty inc seed rest :
  0 ≤ inc < 2 ^ 32 → 0 ≤ seed < 2 ^ 64 → header_ok inc seed (header20 ty inc seed ++ rest) = true.
Proof.
  intros Hi Hs. unfold header_ok, field.
  change (take 2 (drop 0 (header20 ty inc seed ++ rest))) with (le_bytes 2 FIO_HDR_MAGIC).
  change (take 4 (drop 4 (header20 ty inc seed ++ rest))) with (le_bytes 4 inc).
  change (take 8 (drop 8 (header20 ty inc seed ++ rest))) with (le_bytes 8 seed).
  change (take 16 (header20 ty inc seed ++ rest)) with (header16 ty inc seed).
  change (take 4 (drop 16 (header20 ty inc seed ++ rest))) with (le_bytes 4 (crc32c_sw (header16 ty inc seed))).
  rewrite (le_word_small 4 inc), (le_word_small 8 seed) by (simpl; lia).
  rewrite (le_word_small 4 (crc32c_sw _)); [by rewrite !Z.eqb_refl|].
  destruct crc_bursts as (_ & _ & [_ Hf] & _). apply Hf. unfold header16. rewrite !Forall_app. split_and!; apply le_bytes_bytes.
Qed.

Lemma verify_header_run pre c post inc (s : vstate) :
  v_mem s = pre ++ c ++ post → (24 ≤ length c)%nat →
  verify_header (Z.of_nat (length pre)) inc s =
    (Done (if header_ok inc (rand_seed s) c then 0 else EILSEQ), s).
Proof.
  intros Hm Hl. unfold verify_header. rewrite (bind_done (readS rand_seed) _ s s _ eq_refl).
  assert (set_mem (pre ++ c ++ post) s = s) as Es by (rewrite <- Hm; by destruct s).
  transitivity (Done (F := fault) (if header_ok inc (rand_seed s) c then 0 else EILSEQ), set_mem (pre ++ c ++ post) s);
    [|by rewrite Es].
  apply zoom_run. rewrite Hm. set (p := Z.of_nat (length pre)).
  assert (∀ j n p', p' = Z.of_nat (length pre + j) → (j + n ≤ 24)%nat →
    get_int n p' (pre ++ c ++ post) = (Done (field j n c), pre ++ c ++ post)) as Hg by (intros; apply get_int_run; [done|lia]).
  unfold header_ok. rewrite (bind_done _ _ _ _ _ (Hg 0%nat 2%nat p ltac:(lia) ltac:(lia))).
  destruct (field 0 2 c =? FIO_HDR_MAGIC); [|done]. cbn [negb andb].
  unfold hdr_len. rewrite (bind_done _ _ _ _ _ (Hg 4%nat 4%nat (p + 4) ltac:(lia) ltac:(lia))).
  destruct (field 4 4 c =? inc); [|done]. cbn [negb andb].
  rewrite (bind_done _ _ _ _ _ (Hg 8%nat 8%nat (p + 8) ltac:(lia) ltac:(lia))).
  destruct (field 8 8 c =? rand_seed s); [|done]. cbn [negb andb].
  rewrite (bind_done _ _ _ _ _ (mem_read_run pre c post 0 16 p 16 ltac:(lia) eq_refl ltac:(lia))).
  rewrite (bind_done _ _ _ _ _ (Hg 16%nat 4%nat (p + 16) ltac:(lia) ltac:(lia))). done.
Qed.

Lemma verify_with_run pre c post k n f ty inc seed rest :
  vhdr_len ty = Some (Z.of_nat n) → 0 ≤ ty < 2 ^ 16 → 0 ≤ inc < 2 ^ 32 →
  c = header20 ty inc seed ++ rest → inc = Z.of_nat (length c) → (24 + n ≤ length c)%nat →
  Z.of_nat (length pre) = k * inc → k * inc < 2 ^ 32 →
  verify_with (Z.of_nat n) f (Z.of_nat (length pre)) k (pre ++ c ++ post) =
    (Done (if bool_decide (take n (drop 24 c) = f (drop (24 + n) c)) then 0 else EILSEQ), pre ++ c ++ post).
Proof.
  intros Hty Hr Hi Hc Hinc Hl Hk Hk2. unfold verify_with, io_u_verify_off, hdr_len. set (p := Z.of_nat (length pre)).
  assert (∀ A (kk : Z → memprog A), (len ← get_int 4 (p + 4); kk len) (pre ++ c ++ post) = kk inc (pre ++ c ++ post)) as H4.
  { intros A kk. rewrite (bind_done _ _ _ _ _ (get_int_run pre c post 4 4 (p + 4) ltac:(lia) ltac:(lia))).
    rewrite Hc at 1. change (take 4 (drop 4 (header20 ty inc seed ++ rest))) with (le_bytes 4 inc).
    by rewrite le_word_small by (simpl; lia). }
  assert (∀ A (kk : Z → memprog A), (size ← hdr_size p; kk size) (pre ++ c ++ post) = kk (Z.of_nat (24 + n)) (pre ++ c ++ post)) as Hs.
  { intros A kk. set (o' := VerifyOpts ty 0 0 [] 0 false false false false false false false false false 0 0).
    rewrite (bind_done _ _ _ _ _ (hdr_size_run o' n Hty Hr pre c post inc seed rest Hc)). done. }
  assert ((len ← get_int 4 (p + 4); size ← hdr_size p; mret (u32 (k * len) + size, u32 (len - size))) (pre ++ c ++ post) =
    (Done (Z.of_nat (length pre + (24 + n)), Z.of_nat (length c - (24 + n))), pre ++ c ++ post)) as E.
  { rewrite H4, Hs. unfold mret, prog_ret, u32. do 3 f_equal.
    - rewrite Z.mod_small by nia. lia.
    - rewrite Z.mod_small by lia. lia. }
  rewrite (bind_done _ _ _ _ _ E). simpl fst. simpl snd.
  rewrite (bind_done _ _ _ _ _ (mem_read_run pre c post (24 + n) (length c - (24 + n)) _ _ eq_refl eq_refl ltac:(lia))).
  rewrite (take_ge (drop (24 + n) c)) by (rewrite length_drop; lia). unfold hdr_priv, sizeof_header.
  rewrite (bind_done _ _ _ _ _ (mem_read_run pre c post 24 n (p + 24) (Z.of_nat n) ltac:(lia) eq_refl ltac:(lia))). done.
Qed.

(** ** The pieces of a buffer *)

(** What the loop makes of the results of the pieces; [None] is a bad header. *)
Fixpoint verdict (fatal : bool) (ret : Z) (vs : list (option Z)) : Z + Z :=
  match vs with
  | [] => inr ret
  | v :: vs =>
      if negb (ret =? 0) && fatal then inr ret
      else match v with None => inl EILSEQ | Some r => verdict fatal r vs end
  end.

Section pieces.
Context {Ju : Junk} (o : verify_opts) (u : io_u) (nh n : nat).
Context (Hty : vhdr_len (o_verify o) = Some (Z.of_nat nh)) (Hrange : 0 < o_verify o < 2 ^ 16).
Let sz : nat := (24 + nh)%nat.
Context (Hsz : (sz ≤ 200)%nat) (Hinc : get_hdr_inc o u = Z.of_nat n) (Hszn : (sz ≤ n)%nat).
Context (Hoff : o_offset o = 0 ∨ Z.of_nat sz ≤ o_offset o ∧ o_offset o + Z.of_nat sz ≤ Z.of_nat n).
Context (Hbuf : u_buflen u < 2 ^ 32).
Abbreviation inc := (Z.of_nat n).
Abbreviation put := (placed (o_offset o) sz).

Lemma length_put c : length c = n → length (put c) = n.
Proof.
  intros Hc. unfold placed. destruct (Z.eqb_spec (o_offset o) 0); [done|]. destruct Hoff as [|[? ?]]; [done|].
  rewrite length_swp; lia.
Qed.
Lemma put_put c : length c = n → put (put c) = c.
Proof.
  intros Hc. unfold placed. destruct (Z.eqb_spec (o_offset o) 0); [done|]. destruct Hoff as [|[? ?]]; [done|].
  apply swp_swp; lia.
Qed.

Definition seed_of (c : list Z) (seed : Z) : Z := if o_verifysort o || o_backlog o then field 8 8 c else seed.

Lemma verify_turn_run pre c post k s v :
  v_mem s = pre ++ c ++ post → length c = n →
  let c' := put c in let seed := seed_of c' (rand_seed s) in
  (match v with
   | None => header_ok inc seed c' = false
   | Some r => header_ok inc seed c' = true ∧
       verify_switch o u (o_verify o) (Z.of_nat (length pre)) k (pre ++ c' ++ post) = (Done r, pre ++ c' ++ post)
   end) →
  verify_turn o u (Z.of_nat (length pre)) k s =
    (Done (match v with None => inl EILSEQ | Some r => inr r end), set_mem (pre ++ c' ++ post) (set_seed seed s)).
Proof.
  intros Hm Hl c' seed Hv. unfold verify_turn, __hdr_size. rewrite Hty.
  rewrite (bind_done (mret _) _ s s _ eq_refl). set (p := Z.of_nat (length pre)).
  assert (length c' = n) as Hl' by (by apply length_put). set (s1 := set_mem (pre ++ c' ++ post) s).
  assert ((if o_offset o =? 0 then mret tt else on_mem (memswp p (p + o_offset o) (Z.of_nat nh + sizeof_header))) s = (Done tt, s1)) as E1.
  { unfold s1, c', placed. destruct (Z.eqb_spec (o_offset o) 0) as [|H0].
    - rewrite <- Hm. by destruct s.
    - destruct Hoff as [|[Ho1 Ho2]]; [done|]. apply zoom_run. rewrite Hm.
      rewrite <- (Z2Nat.id (o_offset o)) at 1 by lia. replace (Z.of_nat nh + sizeof_header) with (Z.of_nat sz) by (unfold sz, sizeof_header; lia).
      apply memswp_run; [done|lia|lia|done]. }
  rewrite (bind_done _ _ _ _ _ E1). set (s2 := set_seed seed s1).
  assert ((if o_verifysort o || o_backlog o then x ← on_mem (get_int 8 (p + 8)); modS (set_seed x) else mret tt) s1 = (Done tt, s2)) as E2.
  { unfold s2, seed, seed_of. destruct (o_verifysort o || o_backlog o); [|by destruct s].
    assert (on_mem (get_int 8 (p + 8)) s1 = (Done (field 8 8 c'), s1)) as E8.
    { exact (zoom_run v_mem set_mem (get_int 8 (p + 8)) s1 _ _ (get_int_run pre c' post 8 8 (p + 8) ltac:(lia) ltac:(lia))). }
    by rewrite (bind_done _ _ _ _ _ E8). }
  rewrite (bind_done _ _ _ _ _ E2), Hinc.
  rewrite (bind_done _ _ _ _ _ (verify_header_run pre c' post inc s2 eq_refl ltac:(lia))).
  assert (rand_seed s2 = seed) as -> by done. assert (s2 = set_mem (pre ++ c' ++ post) (set_seed seed s)) as <- by done.
  destruct v as [r|]; [destruct Hv as [Hh Hsw]|rename Hv into Hh]; rewrite Hh; [|done].
  cbn [negb Z.eqb]. rewrite (proj2 (Z.eqb_neq (o_verify o) VERIFY_NONE)) by (unfold VERIFY_NONE; lia). cbn [negb].
  rewrite (bind_done (mret (o_verify o)) _ s2 s2 _ eq_refl).
  assert (on_mem (verify_switch o u (o_verify o) p k) s2 = (Done r, s2)) as Er.
  { exact (zoom_run v_mem set_mem (verify_switch o u (o_verify o) p k) s2 _ _ Hsw). }
  by rewrite (bind_done _ _ _ _ _ Er).
Qed.

(** A piece [c] with the result [v]. *)
Definition piece_ok (seed k : Z) (c : list Z) (v : option Z) : Prop :=
  length c = n ∧ let c' := put c in
  match v with
  | None => header_ok inc (seed_of c' seed) c' = false
  | Some r => header_ok inc (seed_of c' seed) c' = true ∧
      ∀ pre post, Z.of_nat (length pre) = k * inc → k * inc < 2 ^ 32 →
        verify_switch o u (o_verify o) (Z.of_nat (length pre)) k (pre ++ c' ++ post) = (Done r, pre ++ c' ++ post)
  end.
Fixpoint pieces_ok (seed k : Z) (cvs : list (list Z * option Z)) : Prop :=
  match cvs with
  | [] => True
  | cv :: cvs => piece_ok seed k cv.1 cv.2 ∧ pieces_ok seed (k + 1) cvs
  end.

Lemma verify_loop_run cvs : ∀ fuel pre post k ret s seed,
  v_mem s = pre ++ concat (map fst cvs) ++ post → Z.of_nat (length pre) = k * inc →
  u_buflen u = Z.of_nat (length pre + length (concat (map fst cvs))) → (length cvs < fuel)%nat →
  (o_verifysort o || o_backlog o = false → rand_seed s = seed) → pieces_ok seed k cvs →
  ∃ s', verify_loop o u fuel (Z.of_nat (length pre)) k ret s = (Done (verdict (o_fatal o) ret (map snd cvs)), s') ∧
    terminate s' = terminate s.
Proof.
  induction cvs as [|[c v] cvs IH]; intros fuel pre post k ret s seed Hm Hk Hu Hf Hseed Hp;
    (destruct fuel as [|fuel]; [simpl in Hf; lia|]); cbn [verify_loop].
  - rewrite (proj2 (Z.ltb_ge _ _)) by (rewrite Hu; simpl; lia). by exists s.
  - destruct Hp as [[Hl Hp] Hps]. simpl in Hm, Hu, Hl, Hp. rewrite length_app in Hu.
    rewrite (proj2 (Z.ltb_lt _ _)) by (rewrite Hu, Hl; lia). cbn [map snd verdict].
    destruct (negb (ret =? 0) && o_fatal o); [by exists s|].
    rewrite <- app_assoc in Hm. set (c' := put c) in *.
    assert (seed_of c' (rand_seed s) = seed_of c' seed) as Es.
    { unfold seed_of. destruct (o_verifysort o || o_backlog o) eqn:Eb; [done|by apply Hseed]. }
    assert (verify_turn o u (Z.of_nat (length pre)) k s =
      (Done (match v with None => inl EILSEQ | Some r => inr r end),
       set_mem (pre ++ c' ++ (concat (map fst cvs) ++ post)) (set_seed (seed_of c' (rand_seed s)) s))) as Et.
    { apply verify_turn_run; [done|done|]. fold c'. rewrite Es. destruct v; [|done]. destruct Hp as [? Hp].
      split; [done|]. apply Hp; [done|]. lia. }
    rewrite (bind_done _ _ _ _ _ Et). destruct v as [r|]; [|by eexists].
    assert (length c' = n) as Hl' by (by apply length_put). rewrite Hinc.
    replace (Z.of_nat (length pre) + inc) with (Z.of_nat (length (pre ++ c'))) by (rewrite length_app; lia).
    destruct (IH fuel (pre ++ c') post (k + 1) r (set_mem (pre ++ c' ++ (concat (map fst cvs) ++ post)) (set_seed (seed_of c' (rand_seed s)) s)) seed)
      as (s' & E & Ht); [| | | | |exact Hps|].
    + simpl. by rewrite <- app_assoc.
    + rewrite length_app. lia.
    + rewrite Hu, length_app. lia.
    + simpl in Hf. lia.
    + intros Eb. simpl. unfold seed_of. rewrite Eb. by apply Hseed.
    + rewrite E. by eexists.
Qed.

(** The whole of [verify_io_u] on a read that was not trimmed. *)
Lemma verify_io_u_run cvs post s :
  u_read u = true → u_trimmed u = false → o_fakeio o = false → o_verify o ≠ VERIFY_NULL →
  v_mem s = concat (map fst cvs) ++ post → u_buflen u = Z.of_nat (length (concat (map fst cvs))) →
  pieces_ok (rand_seed s) 0 cvs →
  ∃ s', verify_io_u o u s = (Done (match verdict (o_fatal o) 0 (map snd cvs) with inl r => r | inr r => r end), s') ∧
    terminate s' = match verdict (o_fatal o) 0 (map snd cvs) with
                   | inl _ => terminate s
                   | inr r => (negb (r =? 0) && o_fatal o) || terminate s
                   end.
Proof.
  intros Hr Ht Hf Hnull Hm Hu Hp. unfold verify_io_u. rewrite (proj2 (Z.eqb_neq _ _)), Hr, Hf, Ht by done. cbn [negb orb].
  assert (length cvs ≤ length (concat (map fst cvs)))%nat as Hlen.
  { assert (∀ k seed, pieces_ok seed k cvs → (length cvs ≤ length (concat (map fst cvs)))%nat) as H; [|by eapply H].
    clear -Hszn. induction cvs as [|[c v] cvs IH]; intros k seed Hp; simpl; [lia|]. destruct Hp as [[Hl _] Hp].
    simpl in Hl. rewrite length_app. specialize (IH _ _ Hp). unfold sz in *. lia. }
  destruct (verify_loop_run cvs (S (Z.to_nat (u_buflen u))) [] post 0 0 s (rand_seed s)) as (s' & E & Et);
    [done|simpl; lia|done|lia|done|done|].
  simpl length in E. change (Z.of_nat 0) with 0 in E. rewrite (bind_done _ _ _ _ _ E).
  destruct (verdict _ _ _) as [r|r]; [by exists s'|]. unfold verify_done.
  destruct (negb (r =? 0) && o_fatal o) eqn:Eb.
  - eexists. split; [done|]. done.
  - exists s'. by split.
Qed.
End pieces.
