(* ===== verification/FioVerifyDigest.v ===== *)
(** * fio: the checksums in the headers *)
From Stdlib Require Import ZArith Lia.
From stdpp Require Import base numbers list.
From S2P Require Import Prelude FioCrc FioHash FioHashCorrect FioHashDetect.
From S2P Require Import FioRand FioVerify FioVerifyRun.

(** Memory that was not initialised has some bytes. *)
Class JunkSized {Ju : Junk} : Prop := length_junk : ∀ n, length (junk n) = n.

Section digests.
Context {Ju : Junk}.

(** The type, the size of the checksum, how it is written and what it is compared with. *)
Inductive digest : Z → nat → (list Z → list Z → list Z) → (list Z → list Z) → Prop :=
  | dg_md5 : digest VERIFY_MD5 16 (λ _, md5_bytes) md5_bytes
  | dg_crc64 : digest VERIFY_CRC64 8 (λ _ d, le_bytes 8 (fio_crc64 d)) (λ d, le_bytes 8 (fio_crc64 d))
  | dg_crc32 : digest VERIFY_CRC32 4 (λ _ d, le_bytes 4 (fio_crc32 d)) (λ d, le_bytes 4 (fio_crc32 d))
  | dg_crc32c : digest VERIFY_CRC32C 4 (λ _ d, le_bytes 4 (crc32c_sw d)) (λ d, le_bytes 4 (crc32c_sw d))
  | dg_crc32c_intel : digest VERIFY_CRC32C_INTEL 4 (λ _ d, le_bytes 4 (crc32c_sw d)) (λ d, le_bytes 4 (crc32c_sw d))
  | dg_crc16 : digest VERIFY_CRC16 2 (λ _ d, le_bytes 2 (fio_crc16 d)) (λ d, le_bytes 2 (fio_crc16 d))
  | dg_crc7 : digest VERIFY_CRC7 1 (λ _ d, le_bytes 1 (fio_crc7 d)) (λ d, le_bytes 1 (fio_crc7 d))
  | dg_sha256 : digest VERIFY_SHA256 64 sha256_bytes (sha256_bytes (junk 64))
  | dg_sha512 : digest VERIFY_SHA512 128 sha512_bytes (sha512_bytes (junk 128))
  | dg_xxhash : digest VERIFY_XXHASH 4 (λ _, xxhash_bytes) xxhash_bytes
  | dg_sha1 : digest VERIFY_SHA1 20 (λ _, sha1_bytes) sha1_bytes.
(** The data that the comparison needs: with less, it reads memory that was not initialised. *)
Definition digest_min (ty : Z) : nat :=
  if ty =? VERIFY_SHA256 then 64 else if ty =? VERIFY_SHA512 then 128 else 0.

Lemma digest_hdr ty n F G : digest ty n F G → vhdr_len ty = Some (Z.of_nat n) ∧ 0 < ty < 2 ^ 16 ∧ (n ≤ 128)%nat ∧ ty ≠ VERIFY_NULL.
Proof. intros []; (split; [reflexivity|]); (split; [done|]); (split; [lia|done]). Qed.
Lemma digest_populate o u ty n F G hdr k data len :
  digest ty n F G → o_verify o = ty → populate_switch o u hdr k data len = fill_with (Z.of_nat n) F hdr data len.
Proof. intros Hd E. unfold populate_switch. rewrite E. by destruct Hd. Qed.
Lemma digest_switch o u ty n F G : digest ty n F G → verify_switch o u ty = verify_with (Z.of_nat n) G.
Proof. intros Hd. by destruct Hd. Qed.

(** *** What the hashes write *)

Lemma md5_hash_run data : md5_hash (fio_md5_update (fio_md5_init (Md5Ctx [] (replicate 64 0) 0)) data) = full 64 md5_transform md5_H0 data.
Proof. apply (m5_hash _ _ (md5_update_ok _ [] data (md5_init_ok (Md5Ctx [] (replicate 64 0) 0) eq_refl eq_refl))). Qed.
Lemma sha1_hash_run data : sha1_H (fio_sha1_update (fio_sha1_init (Sha1Ctx [] (replicate 64 0) 0)) data) = full 64 blk_SHA1Block sha1_H0 data.
Proof. apply (s1_hash _ _ (sha1_update_ok _ [] data (sha1_init_ok (Sha1Ctx [] (replicate 64 0) 0) eq_refl))). Qed.

Lemma full_keeps {H} (P : H → Prop) n f h p : P h → (∀ h c, P h → P (f h c)) → P (full n f h p).
Proof. intros Hh Hf. unfold full. generalize (chunks n (length p / n) p). intros l. revert h Hh. induction l; simpl; auto. Qed.
Lemma length_words n l : length (words_bytes n l) = (length l * n)%nat.
Proof. induction l as [|x l IH]; [done|]. unfold words_bytes in *. simpl. rewrite length_app, length_le_bytes, IH. done. Qed.
Lemma length_md5 d : length (md5_bytes d) = 16%nat.
Proof.
  unfold md5_bytes. rewrite length_words, md5_hash_run.
  assert (length (full 64 md5_transform md5_H0 d) = 4%nat) as ->; [|done].
  apply (full_keeps (λ h, length h = 4%nat)); [done|]. intros h c Hh.
  destruct h as [|a [|b [|e [|g [|]]]]]; try done.
Qed.
Lemma length_sha1 d : length (sha1_bytes d) = 20%nat.
Proof.
  unfold sha1_bytes. rewrite length_words, sha1_hash_run.
  assert (length (full 64 blk_SHA1Block sha1_H0 d) = 5%nat) as ->; [|done].
  apply (full_keeps (λ h, length h = 5%nat)); [done|]. intros h c Hh.
  destruct h as [|a [|b [|e [|g [|i [|]]]]]]; try done.
Qed.

(** The buffer of sha256 and sha512 after one update: the end of the data, and the
    rest of its first block. *)
Lemma sha_buf_run n f count c d :
  (0 < n)%nat → length (sha_buf c) = n → (n ≤ length d)%nat →
  sha_buf (sha_update n f count 0 c d) = tail n d ++ drop (length (tail n d)) (take n d).
Proof.
  intros Hn Hc Hd. unfold sha_update. rewrite Nat.sub_0_r, (proj2 (Nat.leb_le _ _)) by done.
  rewrite each_block_run by (rewrite ?length_drop; lia). simpl. rewrite !memcpy_0.
  rewrite (drop_ge (sha_buf c)), app_nil_r by (rewrite length_take; lia). by rewrite <- tail_cons by done.
Qed.
Lemma sha256_run buf d :
  length buf = 64%nat → (64 ≤ length d)%nat → sha256_bytes buf d = tail 64 d ++ drop (length (tail 64 d)) (take 64 d).
Proof. intros Hb Hd. unfold sha256_bytes, fio_sha256_update. by rewrite (sha_buf_run 64) by (done || lia). Qed.
Lemma sha512_run buf d :
  length buf = 128%nat → (128 ≤ length d)%nat → sha512_bytes buf d = tail 128 d ++ drop (length (tail 128 d)) (take 128 d).
Proof. intros Hb Hd. unfold sha512_bytes, fio_sha512_update. by rewrite (sha_buf_run 128) by (done || lia). Qed.
Lemma length_sha256 buf d : length buf = 64%nat → length (sha256_bytes buf d) = 64%nat.
Proof. intros Hb. apply (sh_wait _ _ _ _ _ (sha256_update_ok _ [] d (sha256_init_ok (ShaCtx [] [] buf) Hb))). Qed.
Lemma length_sha512 buf d : length buf = 128%nat → length (sha512_bytes buf d) = 128%nat.
Proof. intros Hb. apply (sh_wait _ _ _ _ _ (sha512_update_ok _ [] d (sha512_init_ok (ShaCtx [] [] buf) Hb))). Qed.

Lemma digest_length ty n F G old d : digest ty n F G → length old = n → length (F old d) = n.
Proof.
  intros Hd Ho. destruct Hd; try done;
    [apply length_md5|by apply length_sha256|by apply length_sha512|apply length_sha1].
Qed.
Lemma digest_agree `{!JunkSized} ty n F G old d :
  digest ty n F G → length old = n → (digest_min ty ≤ length d)%nat → F old d = G d.
Proof.
  intros Hd Ho Hm. destruct Hd; try done.
  - by rewrite !sha256_run by (done || apply length_junk).
  - by rewrite !sha512_run by (done || apply length_junk).
Qed.

(** *** What they do not see *)

Lemma tail_blocks n p t : (0 < n)%nat → (length p mod n = 0)%nat → (length t < n)%nat → tail n (p ++ t) = t.
Proof.
  intros Hn Hp Ht. destruct (full_blocks n (λ (_ : unit) _, tt) Hn tt p t Hp) as [_ ->]. by apply tail_short.
Qed.
Lemma md5_blind p t t' :
  (length p mod 64 = 0)%nat → (length t < 64)%nat → length t = length t' → md5_bytes (p ++ t) = md5_bytes (p ++ t').
Proof. intros Hp Ht Hl. unfold md5_bytes. rewrite !md5_hash_run. by rewrite (full_prefix 64 md5_transform ltac:(lia) _ p (p ++ t) t t'). Qed.
Lemma sha1_blind p t t' :
  (length p mod 64 = 0)%nat → (length t < 64)%nat → length t = length t' → sha1_bytes (p ++ t) = sha1_bytes (p ++ t').
Proof. intros Hp Ht Hl. unfold sha1_bytes. rewrite !sha1_hash_run. by rewrite (full_prefix 64 blk_SHA1Block ltac:(lia) _ p (p ++ t) t t'). Qed.
Lemma sha_blind n (b p p' t : list Z) :
  (0 < n)%nat → length b = n → (length p mod n = 0)%nat → length p = length p' → (length t < n)%nat →
  tail n (b ++ p ++ t) ++ drop (length (tail n (b ++ p ++ t))) (take n (b ++ p ++ t)) =
  tail n (b ++ p' ++ t) ++ drop (length (tail n (b ++ p' ++ t))) (take n (b ++ p' ++ t)).
Proof.
  intros Hn Hb Hp Hl Ht. assert (∀ q, length q = length p → tail n (b ++ q ++ t) = t ∧ take n (b ++ q ++ t) = b) as Hq.
  { intros q Hq. rewrite app_assoc. split.
    - apply tail_blocks; [done| |done]. rewrite length_app, Hb, Hq, Nat.add_comm.
      replace n with (1 * n)%nat at 1 by lia. by rewrite Nat.Div0.mod_add.
    - rewrite <- app_assoc, <- Hb. apply take_app_length. }
  destruct (Hq p eq_refl) as [-> ->], (Hq p' (eq_sym Hl)) as [-> ->]. done.
Qed.

(** ** Stamping a piece *)

Definition stamp (ty : Z) (n : nat) (F : list Z → list Z → list Z) (inc seed : Z) (c : list Z) : list Z :=
  header20 ty inc seed ++ take 4 (drop 20 c) ++ F (take n (drop 24 c)) (drop (24 + n) c) ++ drop (24 + n) c.
Lemma stamp_run ty n F G pre c post inc seed p :
  digest ty n F G → (24 + n ≤ length c)%nat → p = Z.of_nat (length pre) →
  fill_with (Z.of_nat n) F p (Z.of_nat (length pre + (24 + n))) (Z.of_nat (length c - (24 + n)))
    (pre ++ (header20 ty inc seed ++ drop 20 c) ++ post) = (Done tt, pre ++ stamp ty n F inc seed c ++ post).
Proof.
  intros Hd Hc ->. set (c1 := header20 ty inc seed ++ drop 20 c).
  assert (length c1 = length c) as Hl1 by (unfold c1; rewrite length_app, length_header20, length_drop; lia).
  assert (∀ j, (20 ≤ j)%nat → drop j c1 = drop j c) as Hdr.
  { intros j Hj. unfold c1. rewrite drop_app_ge, length_header20, drop_drop by (rewrite length_header20; lia). f_equal. lia. }
  unfold fill_with.
  rewrite (bind_done _ _ _ _ _ (mem_read_run pre c1 post (24 + n) (length c - (24 + n)) _ _ eq_refl eq_refl ltac:(lia))).
  unfold hdr_priv, sizeof_header.
  rewrite (bind_done _ _ _ _ _ (mem_read_run pre c1 post 24 n (Z.of_nat (length pre) + 24) (Z.of_nat n) ltac:(lia) eq_refl ltac:(lia))).
  rewrite !Hdr, (take_ge (drop (24 + n) c)) by (rewrite ?length_drop; lia).
  assert (length (F (take n (drop 24 c)) (drop (24 + n) c)) = n) as HF.
  { eapply digest_length; [done|]. rewrite length_take, length_drop. lia. }
  rewrite (mem_write_run pre c1 post 24) by lia. do 3 f_equal. unfold memcpy_at, stamp.
  rewrite HF, Hdr by lia. unfold c1. rewrite take_app_ge, length_header20 by (rewrite length_header20; lia).
  rewrite <- app_assoc. done.
Qed.
Lemma length_stamp ty n F G inc seed c : digest ty n F G → (24 + n ≤ length c)%nat → length (stamp ty n F inc seed c) = length c.
Proof.
  intros Hd Hc. unfold stamp. rewrite !length_app, length_header20, length_take, !length_drop.
  rewrite (digest_length _ _ _ _ _ _ Hd) by (rewrite length_take, length_drop; lia). lia.
Qed.
(** The checksum and the data of a stamped piece. *)
Lemma stamp_parts ty n F G inc seed c :
  digest ty n F G → (24 + n ≤ length c)%nat →
  take n (drop 24 (stamp ty n F inc seed c)) = F (take n (drop 24 c)) (drop (24 + n) c) ∧
  drop (24 + n) (stamp ty n F inc seed c) = drop (24 + n) c.
Proof.
  intros Hd Hc. unfold stamp. set (f := F _ _). assert (length f = n) as Hf.
  { eapply digest_length; [done|]. rewrite length_take, length_drop. lia. }
  assert (length (header20 ty inc seed ++ take 4 (drop 20 c)) = 24%nat) as H24.
  { rewrite length_app, length_header20, length_take, length_drop. lia. }
  rewrite app_assoc. rewrite <- H24 at 1. rewrite drop_app_length, <- Hf, take_app_length. split; [done|].
  rewrite <- H24, drop_app_add, drop_app_length. by rewrite H24, Hf.
Qed.
End digests.
