(* ===== verification/FioVerifyRound.v ===== *)
(** * fio: what is written verifies, for a type of verification *)
From Stdlib Require Import ZArith Lia.
From stdpp Require Import base numbers list.
From S2P Require Import Prelude FioCrc FioHash FioHashCorrect FioHashDetect.
From S2P Require Import FioRand FioVerify FioVerifyRun FioVerifyDigest.

(** What a type promises about an interval of [n] bytes, with [nh] bytes of its own in
    the header: how it fills interval [k], and that this verifies if the data are
    what they should be. *)
Class VerifyType `{Junk} (o : verify_opts) (u : io_u) (nh n : nat)
    (content : list Z → Prop) (filled : Z → Z → list Z → list Z) := {
  vt_len : vhdr_len (o_verify o) = Some (Z.of_nat nh);
  vt_range : 0 < o_verify o < 2 ^ 16;
  vt_not_null : o_verify o ≠ VERIFY_NULL;
  vt_populate : ∀ pre c post k seed, length c = n → Forall is_byte c →
    populate_switch o u (Z.of_nat (length pre)) k (Z.of_nat (length pre + (24 + nh))) (Z.of_nat (n - (24 + nh)))
      (pre ++ (header20 (o_verify o) (Z.of_nat n) seed ++ drop 20 c) ++ post) = (Done tt, pre ++ filled k seed c ++ post);
  vt_header : ∀ k seed c, ∃ rest, filled k seed c = header20 (o_verify o) (Z.of_nat n) seed ++ rest;
  vt_length : ∀ k seed c, length c = n → length (filled k seed c) = n;
  vt_verify : ∀ pre c post k seed, length c = n → Forall is_byte c → content c →
    Z.of_nat (length pre) = k * Z.of_nat n → k * Z.of_nat n < 2 ^ 32 →
    verify_switch o u (o_verify o) (Z.of_nat (length pre)) k (pre ++ filled k seed c ++ post) =
      (Done 0, pre ++ filled k seed c ++ post)
}.

(** The read that verifies the unit. *)
Definition read_unit (u : io_u) : io_u := IoU (u_buflen u) (u_offset u) (u_numberio u) true false (u_sec u) (u_usec u).
(** Where the header goes, if it is moved: it fits twice in the interval. *)
Definition offset_fits (o : verify_opts) (sz n : nat) : Prop :=
  o_offset o = 0 ∨ Z.of_nat sz ≤ o_offset o ∧ o_offset o + Z.of_nat sz ≤ Z.of_nat n.

(** The seed does not matter where it is taken from the headers. *)
Lemma pieces_seed `{Junk} o u nh n seed seed' cvs : ∀ k,
  (o_verifysort o || o_backlog o = false → seed' = seed) → pieces_ok o u nh n seed k cvs → pieces_ok o u nh n seed' k cvs.
Proof.
  induction cvs as [|cv cvs IH]; intros k Hs; [done|]. cbn [pieces_ok]. unfold piece_ok, seed_of.
  intros [Hp Hps]. split; [|by apply IH]. destruct (o_verifysort o || o_backlog o); [done|]. by rewrite Hs.
Qed.

Lemma seed_of_header o ty len seed rest : 0 ≤ seed < 2 ^ 64 → seed_of o (header20 ty len seed ++ rest) seed = seed.
Proof.
  intros Hs. unfold seed_of. destruct (o_verifysort o || o_backlog o); [|done]. unfold field.
  change (take 8 (drop 8 (header20 ty len seed ++ rest))) with (le_bytes 8 seed). by apply le_word_small.
Qed.
Lemma pieces_ok_length `{Junk} o u nh n seed cvs : ∀ k,
  pieces_ok o u nh n seed k cvs → length (concat (map fst cvs)) = (length cvs * n)%nat.
Proof.
  induction cvs as [|cv cvs IH]; intros k Hp; [done|]. destruct Hp as [[Hl _] Hp]. simpl. rewrite length_app, (IH _ Hp). lia.
Qed.

Section round.
Context {Ju : Junk} (o : verify_opts) (u : io_u) (nh n : nat) (content : list Z → Prop) (filled : Z → Z → list Z → list Z).
Context {Vt : VerifyType o u nh n content filled}.
Let sz : nat := (24 + nh)%nat.
Context (Hsz : (sz ≤ 200)%nat) (Hinc : get_hdr_inc o u = Z.of_nat n) (Hszn : (sz ≤ n)%nat).
Context (Hoff : offset_fits o sz n) (Hbuf : u_buflen u < 2 ^ 32).

Fixpoint filled_all (k seed : Z) (cs : list (list Z)) : list (list Z) :=
  match cs with
  | [] => []
  | c :: cs => placed (o_offset o) (24 + nh) (filled k seed c) :: filled_all (k + 1) seed cs
  end.
Lemma filled_all_length k seed cs : length (filled_all k seed cs) = length cs.
Proof using Type. clear. revert k. induction cs as [|c cs IH]; intros k; [done|]. simpl. by rewrite IH. Qed.
Lemma length_filled k seed cs :
  Forall (λ c, length c = n) cs → Forall (λ c, length c = n) (filled_all k seed cs).
Proof using All.
  intros Hcs. revert k. induction Hcs as [|c cs Hc Hcs IH]; intros k; [constructor|]. constructor; [|apply IH].
  apply (length_put o nh n); [exact Hsz|exact Hszn|exact Hoff|by apply vt_length].
Qed.
Lemma length_concat (cs : list (list Z)) : Forall (λ c, length c = n) cs → length (concat cs) = (length cs * n)%nat.
Proof using Type. clear. induction 1 as [|c cs Hc Hcs IH]; [done|]. simpl. rewrite length_app. lia. Qed.

Lemma headers_loop_run cs : ∀ fuel pre post k s,
  v_mem s = pre ++ concat cs ++ post → Forall (λ c, length c = n ∧ Forall is_byte c) cs →
  u_buflen u = Z.of_nat (length pre + length (concat cs)) → (length cs < fuel)%nat →
  headers_loop o u fuel (Z.of_nat (length pre)) k s =
    (Done tt, set_mem (pre ++ concat (filled_all k (rand_seed s) cs) ++ post) s).
Proof using All.
  induction cs as [|c cs IH]; intros fuel pre post k s Hm Hcs Hu Hf; (destruct fuel as [|fuel]; [simpl in Hf; lia|]);
    cbn [headers_loop].
  - rewrite (proj2 (Z.ltb_ge _ _)) by (rewrite Hu; simpl; lia). simpl in *. rewrite <- Hm. by destruct s.
  - apply Forall_cons in Hcs as [[Hl Hb] Hcs]. simpl in Hm, Hu, Hf. rewrite length_app in Hu.
    rewrite (proj2 (Z.ltb_lt _ _)), Hinc by (rewrite Hu; unfold sz in *; lia). rewrite <- app_assoc in Hm.
    set (c2 := filled k (rand_seed s) c).
    assert (populate_hdr o u (Z.of_nat (length pre)) k (Z.of_nat n) s =
      (Done tt, set_mem (pre ++ placed (o_offset o) (24 + nh) c2 ++ concat cs ++ post) s)) as E.
    { apply (populate_hdr_run o u nh vt_len ltac:(pose proof vt_range; lia) Hsz pre c (concat cs ++ post) k _ s c2);
        [done|by rewrite Hl|unfold sz in *; lia|lia|exact Hoff| | |by rewrite Hl; apply vt_length].
      - rewrite Hl. by apply vt_populate.
      - apply vt_header. }
    rewrite (bind_done _ _ _ _ _ E). clear E. assert (length (placed (o_offset o) (24 + nh) c2) = n) as Hl2.
    { apply (length_put o nh n); [exact Hsz|exact Hszn|exact Hoff|by apply vt_length]. }
    rewrite (app_assoc pre). set (pre' := pre ++ placed (o_offset o) (24 + nh) c2) in *.
    replace (Z.of_nat (length pre) + Z.of_nat n) with (Z.of_nat (length pre')) by (unfold pre'; rewrite length_app; lia).
    rewrite (IH fuel pre' post (k + 1) (set_mem (pre' ++ concat cs ++ post) s));
      [|done|done|unfold pre'; rewrite length_app; lia|lia].
    cbn [filled_all concat rand_seed set_mem]. unfold pre'. by rewrite <- !app_assoc.
Qed.

(** Reading it back: no piece fails. *)
Lemma filled_ok cs : ∀ k seed,
  0 ≤ seed < 2 ^ 64 → Forall (λ c, (length c = n ∧ Forall is_byte c) ∧ content c) cs →
  pieces_ok o (read_unit u) nh n seed k (map (λ c, (c, Some 0)) (filled_all k seed cs)).
Proof using All.
  induction cs as [|c cs IH]; intros k seed Hs Hcs; [done|]. apply Forall_cons in Hcs as [[[Hl Hb] Hc] Hcs].
  cbn [filled_all map pieces_ok]. split; [|by apply IH]. cbn [fst snd].
  assert (length (filled k seed c) = n) as Hlf by (by apply vt_length).
  split; [apply (length_put o nh n); [exact Hsz|exact Hszn|exact Hoff|done]|]. cbn zeta.
  assert (placed (o_offset o) (24 + nh) (placed (o_offset o) (24 + nh) (filled k seed c)) = filled k seed c) as ->
    by (apply (put_put o nh n); [exact Hsz|exact Hszn|exact Hoff|done]).
  destruct (vt_header k seed c) as [rest Er]. split.
  - rewrite Er, seed_of_header by done. apply header20_ok; [|done].
    assert (get_hdr_inc o u < 2 ^ 32); [|lia]. unfold get_hdr_inc.
    destruct (Z.eqb_spec (o_interval o) 0), (Z.leb_spec (o_interval o) (u_buflen u)); cbn [negb andb];
      try lia; unfold u32; apply Z.mod_pos_bound; lia.
  - intros pre post Hk Hk2. exact (@vt_verify _ o u nh n content filled Vt pre c post k seed Hl Hb Hc Hk Hk2).
Qed.
Lemma verdict_ok f cs : verdict f 0 (map snd (map (λ c : list Z, (c, Some 0)) cs)) = inr 0.
Proof. induction cs as [|c cs IH]; [done|]. simpl. exact IH. Qed.

(** The memory and the seed after the headers are put verify. *)
Lemma filled_verifies cs post seed s :
  u_buflen u = Z.of_nat (length (concat cs)) → 0 ≤ seed < 2 ^ 64 →
  Forall (λ c, (length c = n ∧ Forall is_byte c) ∧ content c) cs → o_fakeio o = false →
  v_mem s = concat (filled_all 0 seed cs) ++ post → (o_verifysort o || o_backlog o = false → rand_seed s = seed) →
  ∃ s', verify_io_u o (read_unit u) s = (Done 0, s') ∧ terminate s' = terminate s.
Proof using All.
  intros Hu Hseed Hcs Hf Hm Hs. assert (Forall (λ c, length c = n) cs) as Hln by (eapply Forall_impl; [exact Hcs|tauto]).
  set (cvs := map (λ c, (c, Some 0)) (filled_all 0 seed cs)).
  assert (map fst cvs = filled_all 0 seed cs) as Efst by (unfold cvs; rewrite map_map; apply map_id).
  assert (length (concat (filled_all 0 seed cs)) = length (concat cs)) as El.
  { rewrite !length_concat by (done || by apply length_filled). by rewrite filled_all_length. }
  assert (pieces_ok o (read_unit u) nh n (rand_seed s) 0 cvs) as Hp by (eapply pieces_seed; [exact Hs|by apply filled_ok]).
  destruct (verify_io_u_run o (read_unit u) nh n vt_len vt_range Hsz Hinc Hszn Hoff Hbuf cvs post s) as (s' & E & Et);
    [done|done|done|apply vt_not_null|by rewrite Efst|by rewrite Efst, El|done|].
  unfold cvs in E, Et. rewrite verdict_ok in E, Et. by exists s'.
Qed.
End round.
