(* ===== verification/FioVerifyTypes.v ===== *)
(** * fio: the types of verification: checksums, patterns, meta data *)
From Stdlib Require Import ZArith Lia.
From stdpp Require Import base numbers list.
From S2P Require Import Prelude FioCrc FioHash FioHashCorrect FioHashDetect.
From S2P Require Import FioRand FioVerify FioVerifyRun FioVerifyDigest FioVerifyRound.

Lemma take_split (l : list Z) a b : take (a + b) l = take a l ++ take b (drop a l).
Proof. revert l. induction a as [|a IH]; intros [|x l]; cbn; rewrite ?take_nil; [done..|]. by rewrite IH. Qed.

(** ** The comparison with a pattern *)

Section pattern.
Context {Ju : Junk} (o : verify_opts) (u : io_u).
Definition pattern_size : Z := if o_pattern_bytes o <=? 1 then MAX_PATTERN_SIZE else o_pattern_bytes o.
(** The bytes of the repeated pattern from a position on. *)
Definition pattern_from (start len : nat) : list Z :=
  map (λ j, tab (o_pattern o) (Z.of_nat (start + j) mod pattern_size)) (seq 0 len).
(** The pattern is an array of 512 bytes; one of a single byte fills it. *)
Record pattern_ok : Prop := PatternOk {
  po_length : length (o_pattern o) = 512%nat;
  po_bytes : 0 ≤ o_pattern_bytes o ≤ MAX_PATTERN_SIZE;
  po_single : o_pattern_bytes o = 1 → ∀ i, 0 ≤ i < 512 → tab (o_pattern o) i = tab (o_pattern o) 0;
  po_range : Forall is_byte (o_pattern o)
}.
Context (Hpo : pattern_ok).

Lemma pattern_size_range : 2 ≤ pattern_size ≤ 512.
Proof using Hpo. unfold pattern_size, MAX_PATTERN_SIZE. destruct Hpo as [_ Hb _ _]. unfold MAX_PATTERN_SIZE in Hb. destruct (Z.leb_spec (o_pattern_bytes o) 1); lia. Qed.
Lemma pattern_from_app a m k : pattern_from a (m + k) = pattern_from a m ++ pattern_from (a + m) k.
Proof.
  clear Hpo. revert a. unfold pattern_from. induction m as [|m IH]; intros a; cbn [plus seq map app];
    [by rewrite Nat.add_0_r|]. f_equal. rewrite <- !seq_shift, !map_map.
  assert (∀ k, map (λ j, tab (o_pattern o) (Z.of_nat (a + S j) mod pattern_size)) (seq 0 k) =
    map (λ j, tab (o_pattern o) (Z.of_nat (S a + j) mod pattern_size)) (seq 0 k)) as E.
  { intros l. apply map_ext. intros j. do 3 f_equal. lia. }
  rewrite !E, IH. f_equal. apply map_ext. intros j. do 3 f_equal. lia.
Qed.
Lemma length_pattern_from a m : length (pattern_from a m) = m.
Proof. unfold pattern_from. by rewrite length_map, length_seq. Qed.

Lemma pattern_read_run m size (s : list Z) :
  0 ≤ m → m + Z.of_nat size ≤ 512 →
  pattern_read o m (Z.of_nat size) s = (Done (map (λ j, tab (o_pattern o) (m + Z.of_nat j)) (seq 0 size)), s).
Proof using Hpo.
  intros Hm Hs. unfold pattern_read. rewrite (po_length Hpo). rewrite !(proj2 (Z.leb_le _ _)) by lia. cbn [andb].
  unfold mret, prog_ret. do 2 f_equal. rewrite Nat2Z.id. apply list_eq. intros j.
  destruct (decide (j < size)%nat) as [Hj|Hj].
  - rewrite lookup_take_lt, lookup_drop by done. rewrite list_lookup_fmap, lookup_seq_lt by done. simpl. unfold tab.
    rewrite Z2Nat.inj_add, Nat2Z.id by lia.
    destruct (lookup_lt_is_Some_2 (o_pattern o) (Z.to_nat m + j)) as [x ->]; [|done]. rewrite (po_length Hpo). lia.
  - rewrite !lookup_ge_None_2; [done|rewrite length_map, length_seq; lia|rewrite length_take; lia].
Qed.
(** Within one copy of the pattern. *)
Lemma pattern_from_piece a size m :
  m = Z.of_nat a mod pattern_size → m + Z.of_nat size ≤ pattern_size →
  map (λ j, tab (o_pattern o) (m + Z.of_nat j)) (seq 0 size) = pattern_from a size.
Proof using Hpo.
  pose proof pattern_size_range as Hp. intros -> Hs. unfold pattern_from. apply map_ext_in. intros j Hj%in_seq. f_equal.
  rewrite Nat2Z.inj_add, Z.add_mod by lia. rewrite (Z.mod_small (Z.of_nat j)).
  - symmetry. apply Z.mod_small. pose proof (Z.mod_pos_bound (Z.of_nat a) pattern_size). lia.
  - pose proof (Z.mod_pos_bound (Z.of_nat a) pattern_size). lia.
Qed.

(** The slow comparison finds a mismatch that is in the copy it starts in. *)
Lemma pattern_search_finds size : ∀ fuel pre c post i m hs,
  (hs + i + size ≤ length c)%nat → 0 ≤ m → m + Z.of_nat size ≤ pattern_size → (size < fuel)%nat →
  take size (drop (hs + i) c) ≠ map (λ j, tab (o_pattern o) (m + Z.of_nat j)) (seq 0 size) →
  pattern_search o fuel (Z.of_nat (length pre + hs)) (Z.of_nat (length c - hs)) (Z.of_nat i) m (pre ++ c ++ post) =
    (Done EILSEQ, pre ++ c ++ post).
Proof using Hpo.
  pose proof pattern_size_range as Hps.
  induction size as [|size IH]; intros fuel pre c post i m hs Hl Hm Hms Hf Hne; [by rewrite take_0 in Hne|].
  destruct fuel as [|fuel]; [lia|]. cbn [pattern_search]. rewrite (proj2 (Z.ltb_lt _ _)) by lia.
  rewrite (bind_done _ _ _ _ _ (mem_read_run pre c post (hs + i) 1 (Z.of_nat (length pre + hs) + Z.of_nat i) 1 ltac:(lia) eq_refl ltac:(lia))).
  rewrite (bind_done _ _ _ _ _ (pattern_read_run m 1 _ Hm ltac:(lia))). cbn [seq map]. rewrite Z.add_0_r.
  destruct (lookup_lt_is_Some_2 c (hs + i)) as [x Hx]; [lia|]. rewrite (drop_S _ x) in * by done.
  cbn [take] in *. rewrite take_0. case_bool_decide as Hd; [|done].
  injection Hd as ->. cbn [seq map] in Hne. rewrite Z.add_0_r in Hne.
  rewrite <- fmap_S_seq in Hne. unfold fmap in Hne. rewrite map_map in Hne.
  assert (map (λ j, tab (o_pattern o) (m + Z.of_nat (S j))) (seq 0 size) =
    map (λ j, tab (o_pattern o) ((if m + 1 =? o_pattern_bytes o then 0 else m + 1) + Z.of_nat j)) (seq 0 size)) as E.
  { apply map_ext_in. intros j Hj%in_seq. destruct (Z.eqb_spec (m + 1) (o_pattern_bytes o)) as [Eb|_]; [|f_equal; lia].
    unfold pattern_size in Hms. destruct (Z.leb_spec (o_pattern_bytes o) 1); [|lia]. unfold MAX_PATTERN_SIZE in Hms.
    assert (o_pattern_bytes o = 1) as E1 by lia. rewrite (po_single Hpo E1 (m + Z.of_nat (S j))) by lia.
    by rewrite (po_single Hpo E1 (0 + Z.of_nat j)) by lia. }
  replace (Z.of_nat i + 1) with (Z.of_nat (S i)) by lia. apply IH; [lia| | |lia|].
  - destruct (_ =? _); lia.
  - destruct (_ =? _); lia.
  - intros Eq. apply Hne. f_equal. rewrite E, <- Eq. f_equal. f_equal. lia.
Qed.

Lemma app_eq_iff (a b a' b' : list Z) : length a = length a' → a ++ b = a' ++ b' ↔ a = a' ∧ b = b'.
Proof. clear. intros Hl. split; [apply app_inj_1, Hl|intros [-> ->]; done]. Qed.

(** The fast comparison stops at the end or in a copy of the pattern with a mismatch. *)
Lemma pattern_compare_run fuel : ∀ pre c post hs i m,
  (hs + i ≤ length c)%nat → (length c - (hs + i) < fuel)%nat →
  ((hs + i)%nat = length c ∨ m = Z.of_nat (hs + i) mod pattern_size) →
  ∃ k m', pattern_compare o fuel (Z.of_nat (length pre + hs)) (Z.of_nat (length c - hs)) pattern_size (Z.of_nat i) m
      (pre ++ c ++ post) = (Done (Z.of_nat (i + k), m'), pre ++ c ++ post) ∧
    (hs + i + k ≤ length c)%nat ∧ take k (drop (hs + i) c) = pattern_from (hs + i) k ∧
    ((hs + i + k)%nat = length c ∨
     ∃ size, (0 < size)%nat ∧ (hs + i + k + size ≤ length c)%nat ∧ m' = Z.of_nat (hs + i + k) mod pattern_size ∧
       m' + Z.of_nat size ≤ pattern_size ∧ take size (drop (hs + i + k) c) ≠ pattern_from (hs + i + k) size).
Proof using Hpo.
  pose proof pattern_size_range as Hps.
  induction fuel as [|fuel IH]; intros pre c post hs i m Hi Hf Hm; [lia|].
  cbn [pattern_compare]. set (len := Z.of_nat (length c - hs)). destruct (Z.ltb_spec (Z.of_nat i) len) as [Hlt|Hge].
  2: { exists 0%nat, m. rewrite !Nat.add_0_r. split_and!; [done|lia|by rewrite take_0|left; lia]. }
  destruct Hm as [Hm|Hm]; [lia|]. pose proof (Z.mod_pos_bound (Z.of_nat (hs + i)) pattern_size ltac:(lia)) as Hmr.
  set (size := Z.to_nat (if len - Z.of_nat i <? pattern_size - m then len - Z.of_nat i else pattern_size - m)).
  assert ((if len - Z.of_nat i <? pattern_size - m then len - Z.of_nat i else pattern_size - m) = Z.of_nat size) as ->.
  { unfold size. destruct (_ <? _); rewrite Z2Nat.id; lia. }
  assert ((0 < size)%nat ∧ (hs + i + size ≤ length c)%nat ∧ m + Z.of_nat size ≤ pattern_size ∧
    ((hs + i + size)%nat = length c ∨ m + Z.of_nat size = pattern_size)) as (Hs0 & Hsl & Hsp & Hend).
  { unfold size. destruct (Z.ltb_spec (len - Z.of_nat i) (pattern_size - m)); rewrite ?Z2Nat.id by lia; unfold len in *; lia. }
  clearbody size. set (mem := pre ++ c ++ post).
  rewrite (bind_done _ _ _ _ _ (mem_read_run pre c post (hs + i) size (Z.of_nat (length pre + hs) + Z.of_nat i) _
    ltac:(lia) eq_refl ltac:(lia))).
  rewrite (bind_done _ _ _ _ _ (pattern_read_run m size mem ltac:(lia) ltac:(lia))).
  rewrite (pattern_from_piece (hs + i) size m Hm Hsp). case_bool_decide as Heq.
  - destruct (IH pre c post hs (i + size)%nat 0) as (k & m' & E & Hk & Ht & Hend'); [lia|lia| |].
    { destruct Hend as [|Hend]; [left; lia|]. right. rewrite Nat.add_assoc, Nat2Z.inj_add, <- Zplus_mod_idemp_l, <- Hm, Hend.
      by rewrite Z.mod_same by lia. }
    exists (size + k)%nat, m'. replace (Z.of_nat i + Z.of_nat size) with (Z.of_nat (i + size)) by lia.
    unfold mem, len. rewrite E. rewrite !Nat.add_assoc in *. split_and!; [done|done| |exact Hend'].
    by rewrite pattern_from_app, take_split, drop_drop, Heq, Ht.
  - exists 0%nat, m. rewrite !Nat.add_0_r. split_and!; [done|lia|by rewrite take_0|]. right. by exists size.
Qed.

(** The check of an interval: its data are the repeated pattern. *)
Lemma pattern_run nh pre c post :
  vhdr_len (o_verify o) = Some (Z.of_nat nh) → get_hdr_inc o u = Z.of_nat (length c) → (24 + nh ≤ length c)%nat →
  Z.of_nat (length c) < 2 ^ 32 →
  verify_io_u_pattern o u (Z.of_nat (length pre)) (pre ++ c ++ post) =
    (Done (if bool_decide (drop (24 + nh) c = pattern_from (24 + nh) (length c - (24 + nh))) then 0 else EILSEQ),
     pre ++ c ++ post).
Proof using Hpo.
  intros Hty Hinc Hl Hlt. pose proof pattern_size_range as Hps. unfold verify_io_u_pattern, __hdr_size. rewrite Hty, Hinc.
  rewrite (bind_done (mret _) _ _ _ _ eq_refl). fold pattern_size. set (hs := (24 + nh)%nat) in *.
  replace (Z.of_nat nh + sizeof_header) with (Z.of_nat hs) by (unfold hs, sizeof_header; lia).
  replace (Z.of_nat (length pre) + Z.of_nat hs) with (Z.of_nat (length pre + hs)) by lia.
  assert (u32 (Z.of_nat (length c) - Z.of_nat hs) = Z.of_nat (length c - hs)) as -> by (unfold u32; rewrite Z.mod_small; lia).
  rewrite Nat2Z.id. set (fuel := S (length c - hs)).
  destruct (pattern_compare_run fuel pre c post hs 0 (Z.of_nat hs mod pattern_size)) as (k & m' & E & Hk & Ht & Hend);
    [lia|unfold fuel; lia|right; by rewrite Nat.add_0_r|]. rewrite !Nat.add_0_r in *.
  change (Z.of_nat 0) with 0 in E. change (0 + k)%nat with k in E.
  rewrite (bind_done _ _ _ _ _ E). cbn [fst snd]. clear E.
  destruct Hend as [Hend|(size & Hs0 & Hsl & -> & Hsp & Hne)].
  - unfold fuel. cbn [pattern_search]. rewrite (proj2 (Z.ltb_ge _ _)) by lia.
    replace (length c - hs)%nat with k by lia. rewrite <- Ht, take_ge by (rewrite length_drop; lia). by rewrite bool_decide_true.
  - pose proof (Z.mod_pos_bound (Z.of_nat (hs + k)) pattern_size ltac:(lia)) as Hmr.
    rewrite (pattern_search_finds size) ; [|lia|lia|exact Hsp|unfold fuel; lia|by rewrite (pattern_from_piece (hs + k))].
    rewrite bool_decide_false; [done|]. intros Eq. apply Hne.
    replace (length c - hs)%nat with (k + (size + (length c - hs - k - size)))%nat in Eq by lia.
    rewrite pattern_from_app, <- (take_drop k (drop hs c)) in Eq. apply app_eq_iff in Eq as [_ Eq]; [|by rewrite Ht].
    rewrite drop_drop in Eq. rewrite Eq, pattern_from_app. by rewrite take_app_length' by (by rewrite length_pattern_from).
Qed.
End pattern.

(** ** Checksums *)

Section digest_type.
Context `{JunkSized} (o : verify_opts) (u : io_u) (nh n : nat) (F : list Z → list Z → list Z) (G : list Z → list Z).

Lemma digest_type :
  digest (o_verify o) nh F G → (24 + nh + digest_min (o_verify o) ≤ n)%nat → Z.of_nat n < 2 ^ 32 →
  VerifyType o u nh n (λ _, True) (λ _ seed c, stamp (o_verify o) nh F (Z.of_nat n) seed c).
Proof.
  intros Hd Hn Hlt. destruct (digest_hdr _ _ _ _ Hd) as (Hty & Hr & _ & Hnull). split; [done..| | | |].
  - intros pre c post k seed Hc _. rewrite (digest_populate o u _ nh F G _ _ _ _ Hd eq_refl), <- Hc.
    apply (stamp_run _ nh F G); [done|lia|done].
  - intros k seed c. by eexists.
  - intros k seed c Hc. rewrite (length_stamp _ nh F G); [done|done|lia].
  - intros pre c post k seed Hc _ _ Hk Hk2. rewrite (digest_switch o u _ nh F G Hd).
    set (c' := stamp _ _ _ _ _ _). assert (length c' = n) as Hl by (unfold c'; rewrite (length_stamp _ nh F G); [done|done|lia]).
    rewrite (verify_with_run pre c' post k nh G (o_verify o) (Z.of_nat n) seed
      (take 4 (drop 20 c) ++ F (take nh (drop 24 c)) (drop (24 + nh) c) ++ drop (24 + nh) c));
      [|done|lia|lia|done|by rewrite Hl|lia|done|done].
    unfold c'. destruct (stamp_parts _ nh F G (Z.of_nat n) seed c Hd ltac:(lia)) as [-> ->].
    rewrite (digest_agree (o_verify o) nh F G); [by rewrite bool_decide_true|done| |].
    + rewrite length_take, length_drop. lia.
    + rewrite length_drop. lia.
Qed.
End digest_type.

(** ** Patterns and meta data *)

Section pattern_type.
Context {Ju : Junk} (o : verify_opts) (u : io_u) (n : nat).

Lemma verify_switch_meta hdr k : verify_switch o u VERIFY_META hdr k = verify_io_u_meta o u hdr k.
Proof. reflexivity. Qed.
Lemma verify_switch_pattern hdr k : verify_switch o u VERIFY_PATTERN hdr k = verify_io_u_pattern o u hdr.
Proof. reflexivity. Qed.
Lemma filled_drop (ty seed : Z) (c : list Z) j :
  (20 ≤ j)%nat → drop j (header20 ty (Z.of_nat n) seed ++ drop 20 c) = drop j c.
Proof.
  intros Hj. rewrite drop_app_ge, length_header20, drop_drop by (rewrite length_header20; lia). f_equal. lia.
Qed.
Lemma pattern_from_drop len j : drop j (pattern_from o 0 len) = pattern_from o j (len - j).
Proof.
  destruct (Nat.le_gt_cases j len) as [Hj|Hj].
  - replace len with (j + (len - j))%nat at 1 by lia. rewrite pattern_from_app. by rewrite drop_app_length' by (by rewrite length_pattern_from).
  - rewrite drop_ge by (rewrite length_pattern_from; lia). by replace (len - j)%nat with 0%nat by lia.
Qed.

Lemma pattern_type :
  pattern_ok o → o_verify o = VERIFY_PATTERN → get_hdr_inc o u = Z.of_nat n → (24 ≤ n)%nat → Z.of_nat n < 2 ^ 32 →
  VerifyType o u 0 n (λ c, c = pattern_from o 0 n)
    (λ _ seed c, header20 (o_verify o) (Z.of_nat n) seed ++ drop 20 c).
Proof.
  intros Hpo Hv Hinc Hn Hlt. split; [by rewrite Hv|by rewrite Hv|by rewrite Hv|..].
  - intros pre c post k seed Hc _. unfold populate_switch. by rewrite Hv.
  - intros k seed c. by eexists.
  - intros k seed c Hc. rewrite length_app, length_header20, length_drop. lia.
  - intros pre c post k seed Hc _ Hcc _ _. rewrite Hv, verify_switch_pattern.
    set (c' := header20 _ _ _ ++ _). assert (length c' = n) as Hl by (unfold c'; rewrite length_app, length_header20, length_drop; lia).
    rewrite (pattern_run o u Hpo 0 pre c' post); [|by rewrite Hv|by rewrite Hl|lia|by rewrite Hl].
    rewrite Hl. unfold c'. rewrite filled_drop by lia. rewrite bool_decide_true; [done|]. rewrite Hcc. apply pattern_from_drop.
Qed.

(** [old] are the bytes that are there. *)
Definition meta_bytes (k : Z) (old : list Z) : list Z :=
  le_bytes 8 (meta_offset o u k) ++ le_bytes 1 (thread_number o) ++ take 1 (drop 9 old) ++
  le_bytes 2 (u_numberio u) ++ take 4 (drop 12 old) ++ le_bytes 8 (u_sec u) ++ le_bytes 8 (u_usec u).
Definition meta_filled (k seed : Z) (c : list Z) : list Z :=
  header20 (o_verify o) (Z.of_nat n) seed ++ take 4 (drop 20 c) ++ meta_bytes k (take 32 (drop 24 c)) ++ drop 56 c.
Lemma put_part pre a b e post m p x :
  p = Z.of_nat (length pre + length a) → length b = m →
  put_int m p x (pre ++ (a ++ b ++ e) ++ post) = (Done tt, pre ++ (a ++ le_bytes m x ++ e) ++ post).
Proof.
  intros Hp <-. rewrite (put_first pre a (b ++ e) post) by (done || rewrite length_app; lia). by rewrite drop_app_length.
Qed.

Lemma meta_run pre c post k seed :
  length c = n → (56 ≤ n)%nat →
  fill_meta o u (Z.of_nat (length pre)) k (pre ++ (header20 (o_verify o) (Z.of_nat n) seed ++ drop 20 c) ++ post) =
    (Done tt, pre ++ meta_filled k seed c ++ post).
Proof.
  intros Hc Hn. set (h := header20 _ _ _). unfold meta_filled, meta_bytes. fold h.
  set (old := take 32 (drop 24 c)).
  assert (∀ i m, (i + m ≤ 32)%nat → take m (drop i old) = take m (drop (24 + i) c)) as Ho.
  { intros i m Him. unfold old. rewrite skipn_firstn_comm, take_take, drop_drop. f_equal. lia. }
  assert (∀ i m, (i + m ≤ n)%nat → length (take m (drop i c)) = m) as Hlen by (intros; rewrite length_take, length_drop; lia).
  assert (∀ i m (l : list Z), drop (i + m) c = l → drop i c = take m (drop i c) ++ l) as Hsp by (intros i m l <-; by rewrite <- drop_drop, take_drop).
  rewrite !Ho by lia. cbn [plus].
  assert (drop 20 c = take 4 (drop 20 c) ++ take 8 (drop 24 c) ++ take 1 (drop 32 c) ++ take 1 (drop 33 c) ++
    take 2 (drop 34 c) ++ take 4 (drop 36 c) ++ take 8 (drop 40 c) ++ take 8 (drop 48 c) ++ drop 56 c) as ->.
  { by do 7 (apply Hsp; cbn [plus]); apply Hsp. }
  assert (length h = 20%nat) as Hh by apply length_header20.
  set (x4 := take 4 (drop 20 c)). set (y8 := take 8 (drop 24 c)). set (y1 := take 1 (drop 32 c)). set (x1 := take 1 (drop 33 c)).
  set (y2 := take 2 (drop 34 c)). set (z4 := take 4 (drop 36 c)). set (t8 := take 8 (drop 40 c)). set (w8 := take 8 (drop 48 c)).
  assert (length x4 = 4 ∧ length y8 = 8 ∧ length y1 = 1 ∧ length x1 = 1 ∧ length y2 = 2 ∧ length z4 = 4 ∧ length t8 = 8 ∧ length w8 = 8)%nat
    as (L4 & L8 & L1 & L1' & L2 & L4' & L8' & L8'') by (split_and!; apply Hlen; lia).
  clearbody h x4 y8 y1 x1 y2 z4 t8 w8. clear Ho old Hlen Hsp. set (rest := drop 56 c). clearbody rest. clear c Hc.
  set (p := Z.of_nat (length pre)). unfold fill_meta, hdr_priv, sizeof_header. fold p.
  set (thr := thread_number o). set (num := u_numberio u). set (off := meta_offset o u k).
  pose proof (put_part pre (h ++ x4 ++ y8) y1 (x1 ++ y2 ++ z4 ++ t8 ++ w8 ++ rest) post 1 (p + 24 + 8) thr) as E1.
  pose proof (put_part pre (h ++ x4 ++ y8 ++ le_bytes 1 thr ++ x1 ++ y2 ++ z4) t8 (w8 ++ rest) post 8 (p + 24 + 16) (u_sec u)) as E2.
  pose proof (put_part pre (h ++ x4 ++ y8 ++ le_bytes 1 thr ++ x1 ++ y2 ++ z4 ++ le_bytes 8 (u_sec u)) w8 rest post 8 (p + 24 + 24) (u_usec u)) as E3.
  pose proof (put_part pre (h ++ x4 ++ y8 ++ le_bytes 1 thr ++ x1) y2 (z4 ++ le_bytes 8 (u_sec u) ++ le_bytes 8 (u_usec u) ++ rest) post 2 (p + 24 + 10) num) as E4.
  pose proof (put_part pre (h ++ x4) y8 (le_bytes 1 thr ++ x1 ++ le_bytes 2 num ++ z4 ++ le_bytes 8 (u_sec u) ++ le_bytes 8 (u_usec u) ++ rest) post 8 (p + 24) off) as E5.
  rewrite <- !app_assoc in E1, E2, E3, E4, E5. rewrite <- !app_assoc.
  rewrite (bind_done _ _ _ _ _ (E1 ltac:(rewrite !length_app; unfold p; lia) L1)).
  rewrite (bind_done _ _ _ _ _ (E2 ltac:(rewrite !length_app, !length_le_bytes; unfold p; lia) L8')).
  rewrite (bind_done _ _ _ _ _ (E3 ltac:(rewrite !length_app, !length_le_bytes; unfold p; lia) L8'')).
  rewrite (bind_done _ _ _ _ _ (E4 ltac:(rewrite !length_app, !length_le_bytes; unfold p; lia) L2)).
  rewrite (E5 ltac:(rewrite !length_app; unfold p; lia) L8). by rewrite take_app_length' by done.
Qed.

Lemma length_meta k seed c : length c = n → (56 ≤ n)%nat → length (meta_filled k seed c) = n.
Proof.
  intros Hc Hn. unfold meta_filled, meta_bytes. rewrite !length_app, length_header20, !length_take, !length_drop, !length_le_bytes, !length_take, !length_drop. lia.
Qed.
(** The offset and the number of the write. *)
Lemma meta_fields k seed c :
  length c = n → (56 ≤ n)%nat →
  take 8 (drop 24 (meta_filled k seed c)) = le_bytes 8 (meta_offset o u k) ∧
  take 2 (drop 34 (meta_filled k seed c)) = le_bytes 2 (u_numberio u) ∧
  drop 56 (meta_filled k seed c) = drop 56 c.
Proof.
  intros Hc Hn. unfold meta_filled, meta_bytes. set (old := take 32 (drop 24 c)).
  assert (length old = 32%nat) as Ho by (unfold old; rewrite length_take, length_drop; lia).
  set (a := header20 (o_verify o) (Z.of_nat n) seed ++ take 4 (drop 20 c)).
  assert (length a = 24%nat) as Ha by (unfold a; rewrite length_app, length_header20, length_take, length_drop; lia).
  set (x1 := take 1 (drop 9 old)). assert (length x1 = 1%nat) as H1 by (unfold x1; rewrite length_take, length_drop; lia).
  set (x4 := take 4 (drop 12 old)). assert (length x4 = 4%nat) as H4 by (unfold x4; rewrite length_take, length_drop; lia).
  rewrite (app_assoc (header20 (o_verify o) (Z.of_nat n) seed)). fold a. clearbody a x1 x4. rewrite <- !app_assoc. split_and!.
  - rewrite drop_app_length' by done. by rewrite take_app_length' by (by rewrite length_le_bytes).
  - rewrite 3!app_assoc. rewrite drop_app_length' by (rewrite !length_app, !length_le_bytes; lia).
    by rewrite take_app_length' by (by rewrite length_le_bytes).
  - rewrite 7!app_assoc. by rewrite drop_app_length' by (rewrite !length_app, !length_le_bytes; lia).
Qed.

Lemma meta_type :
  (o_pattern_bytes o ≠ 0 → pattern_ok o) → o_verify o = VERIFY_META → get_hdr_inc o u = Z.of_nat n →
  (56 ≤ n)%nat → Z.of_nat n < 2 ^ 32 → 0 ≤ u_numberio u < 2 ^ 16 →
  VerifyType o u 32 n (λ c, o_pattern_bytes o ≠ 0 → c = pattern_from o 0 n) meta_filled.
Proof.
  intros Hpo Hv Hinc Hn Hlt Hnum. split; [by rewrite Hv|by rewrite Hv|by rewrite Hv|..].
  - intros pre c post k seed Hc _. unfold populate_switch. rewrite Hv. simpl (_ =? _). cbn iota.
    rewrite <- Hv. by apply meta_run.
  - intros k seed c. by eexists.
  - intros k seed c Hc. by apply length_meta.
  - intros pre c post k seed Hc _ Hcc _ _. rewrite Hv, verify_switch_meta.
    set (c' := meta_filled k seed c). assert (length c' = n) as Hl by (by apply length_meta).
    destruct (meta_fields k seed c Hc Hn) as (E1 & E2 & E3). fold c' in E1, E2, E3.
    unfold verify_io_u_meta, hdr_priv, sizeof_header.
    rewrite (bind_done _ _ _ _ _ (get_int_run pre c' post 24 8 (Z.of_nat (length pre) + 24) ltac:(lia) ltac:(lia))).
    rewrite E1, le_word_small, Z.eqb_refl by (apply Z.mod_pos_bound; lia).
    assert ((if o_pattern_bytes o =? 0 then mret 0 else r ← verify_io_u_pattern o u (Z.of_nat (length pre)); mret (Z.lor 0 r))
      (pre ++ c' ++ post) = (Done 0, pre ++ c' ++ post)) as E.
    { destruct (Z.eqb_spec (o_pattern_bytes o) 0) as [|H0]; [done|].
      rewrite (bind_done _ _ _ _ _ (pattern_run o u (Hpo H0) 32 pre c' post ltac:(by rewrite Hv) ltac:(by rewrite Hl) ltac:(lia) ltac:(by rewrite Hl))).
      rewrite Hl. change (24 + 32)%nat with 56%nat. rewrite E3, bool_decide_true; [done|]. rewrite (Hcc H0). apply pattern_from_drop. }
    rewrite (bind_done _ _ _ _ _ E). destruct (_ && _); [|done].
    rewrite (bind_done _ _ _ _ _ (get_int_run pre c' post 34 2 (Z.of_nat (length pre) + 24 + 10) ltac:(lia) ltac:(lia))).
    rewrite E2, le_word_small, Z.eqb_refl by lia. done.
Qed.
End pattern_type.
