(* ===== verification/FioVerifyCorrect.v ===== *)
(** * fio: a buffer that is written verifies when it is read back *)
From Stdlib Require Import ZArith Lia.
From stdpp Require Import base numbers list.
From S2P Require Import Prelude FioCrc FioHash FioHashCorrect FioHashDetect.
From S2P Require Import FioRand FioVerify FioVerifyRun FioVerifyDigest FioVerifyRound.
From S2P Require Import FioVerifyTypes.

(** ** Filling *)

Section fill.
Context (o : verify_opts) (Hpo : pattern_ok o).

Lemma take_pattern size : (size ≤ 512)%nat → take size (o_pattern o) = map (λ j, tab (o_pattern o) (0 + Z.of_nat j)) (seq 0 size).
Proof using Hpo.
  intros Hs. pose proof (pattern_read_run o Hpo 0 size [] ltac:(lia) ltac:(lia)) as E. unfold pattern_read in E.
  rewrite (po_length o Hpo), (proj2 (Z.leb_le _ _)), (proj2 (Z.leb_le _ _)), (proj2 (Z.leb_le _ _)) in E by lia.
  cbn [andb] in E. injection E as E. rewrite Nat2Z.id, drop_0 in E. exact E.
Qed.

Lemma pattern_copies_run fuel : ∀ pre a c post i,
  1 < o_pattern_bytes o → i = Z.of_nat (length a) → i mod o_pattern_bytes o = 0 ∨ c = [] → (length c < fuel)%nat →
  pattern_copies fuel (Z.of_nat (length pre)) i (Z.of_nat (length (a ++ c))) (o_pattern o) (o_pattern_bytes o)
    (pre ++ a ++ c ++ post) = (Done tt, pre ++ a ++ pattern_from o (length a) (length c) ++ post).
Proof using Hpo.
  induction fuel as [|fuel IH]; intros pre a c post i Hb Hi Hm Hf; [lia|]. cbn [pattern_copies].
  assert (o_pattern_bytes o ≤ 512) as Hb2 by (pose proof (po_bytes o Hpo) as H; unfold MAX_PATTERN_SIZE in H; lia).
  assert (pattern_size o = o_pattern_bytes o) as Hps by (unfold pattern_size; rewrite (proj2 (Z.leb_gt _ _)) by lia; done).
  set (len := Z.of_nat (length (a ++ c))). assert (len = i + Z.of_nat (length c)) as Elen by (unfold len; rewrite length_app; lia).
  destruct (Z.ltb_spec i len) as [Hlt|Hge].
  2: { destruct c; [done|simpl in *; lia]. }
  destruct Hm as [Hm|Hm]; [|subst c; simpl in *; lia].
  set (size := Z.to_nat (if len - i <? o_pattern_bytes o then len - i else o_pattern_bytes o)).
  assert ((if len - i <? o_pattern_bytes o then len - i else o_pattern_bytes o) = Z.of_nat size) as ->.
  { unfold size. destruct (_ <? _); rewrite Z2Nat.id; lia. }
  assert ((0 < size)%nat ∧ (size ≤ length c)%nat ∧ Z.of_nat size ≤ o_pattern_bytes o ∧
    (size = length c ∨ Z.of_nat size = o_pattern_bytes o)) as (Hs0 & Hsl & Hsp & Hend).
  { unfold size. destruct (Z.ltb_spec (len - i) (o_pattern_bytes o)); rewrite ?Z2Nat.id by lia; lia. }
  clearbody size. cbn zeta. rewrite take_pattern by lia.
  rewrite (pattern_from_piece o Hpo (length a) size 0) by (rewrite ?Hps, <- ?Hi; lia).
  set (b := pattern_from o (length a) size). assert (length b = size) as Hlb by apply length_pattern_from.
  assert (mem_write (Z.of_nat (length pre) + i) b (pre ++ a ++ c ++ post) = (Done tt, pre ++ a ++ (b ++ drop size c) ++ post)) as E.
  { rewrite (app_assoc pre), (mem_write_run (pre ++ a) c post 0) by (rewrite ?length_app; lia).
    unfold memcpy_at. by rewrite take_0, app_nil_l, Hlb, <- !app_assoc. }
  rewrite (bind_done _ _ _ _ _ E). clear E.
  pose proof (IH pre (a ++ b) (drop size c) post (i + Z.of_nat size) Hb) as E.
  rewrite <- !app_assoc in E. rewrite <- !app_assoc.
  replace (Z.of_nat (length (a ++ b ++ drop size c))) with len in E by (unfold len; rewrite !length_app, length_drop; lia).
  rewrite E; clear E.
  - do 3 f_equal. unfold b. rewrite app_assoc, length_app, length_pattern_from, <- pattern_from_app, length_drop.
    do 2 f_equal. lia.
  - rewrite length_app. lia.
  - destruct Hend as [Hend|Hend]; [right; apply nil_length_inv; rewrite length_drop; lia|left].
    by rewrite Hend, <- Zplus_mod_idemp_r, Z.mod_same, Z.add_0_r by lia.
  - rewrite length_drop. lia.
Qed.

(** Filling with a pattern. *)
Lemma fill_pattern_run pre c post :
  o_pattern_bytes o ≠ 0 →
  fill_pattern (Z.of_nat (length pre)) (Z.of_nat (length c)) (o_pattern o) (o_pattern_bytes o) (pre ++ c ++ post) =
    (Done tt, pre ++ pattern_from o 0 (length c) ++ post).
Proof using Hpo.
  intros H0. pose proof (po_bytes o Hpo) as Hb. unfold fill_pattern. rewrite (proj2 (Z.eqb_neq _ 0)) by done.
  destruct (Z.eqb_spec (o_pattern_bytes o) 1) as [H1|H1].
  - rewrite Nat2Z.id, (mem_write_run pre c post 0) by (rewrite ?length_replicate; lia).
    rewrite memcpy_end by (by rewrite length_replicate). rewrite take_0, app_nil_l. do 3 f_equal.
    unfold pattern_from. rewrite (map_ext_in _ (λ _, tab (o_pattern o) 0)).
    + symmetry. generalize 0%nat as k. induction (length c) as [|m IH]; intros k; [done|]. simpl. by rewrite IH.
    + intros j _. apply (po_single o Hpo H1). pose proof (pattern_size_range o Hpo).
      pose proof (Z.mod_pos_bound (Z.of_nat (0 + j)) (pattern_size o)). lia.
  - rewrite Nat2Z.id. by apply (pattern_copies_run _ pre [] c post 0); [lia|done|left; apply Z.mod_0_l; lia|lia].
Qed.
End fill.

(** ** Intervals *)

Lemma chunks_pieces n k (p : list Z) : length p = (k * n)%nat → concat (chunks n k p) = p ∧ Forall (λ c, length c = n) (chunks n k p).
Proof.
  revert p. induction k as [|k IH]; intros p Hp; [by apply nil_length_inv in Hp as ->|]. simpl in Hp. rewrite chunks_S.
  destruct (IH (drop n p)) as [E F]; [rewrite length_drop; lia|]. cbn [concat]. rewrite E, take_drop.
  split; [done|]. constructor; [rewrite length_take; lia|done].
Qed.
Lemma chunks_bytes n k p : Forall is_byte p → Forall (Forall is_byte) (chunks n k p).
Proof. revert p. induction k as [|k IH]; intros p Hp; [constructor|]. rewrite chunks_S. constructor; [by apply Forall_take|by apply IH, Forall_drop]. Qed.
Lemma length_chunks n k (p : list Z) : length (chunks n k p) = k.
Proof. unfold chunks. by rewrite length_map, length_seq. Qed.

(** Where a pattern is verified, every interval is to begin with the pattern. *)
Definition pattern_fits (o : verify_opts) (n j : nat) : Prop :=
  j = 1%nat ∨ o_pattern_bytes o = 1 ∨ (o_pattern_bytes o ≠ 0 ∧ Z.of_nat n mod o_pattern_bytes o = 0).
Lemma chunks_pattern o n j : ∀ a, Forall (λ c, ∃ b, c = pattern_from o (b * n) n) (chunks n j (pattern_from o (a * n) (j * n))).
Proof.
  induction j as [|j IH]; intros a; [constructor|]. simpl (S j * n)%nat. rewrite chunks_S, pattern_from_app.
  constructor; [exists a; by rewrite take_app_length' by (by rewrite length_pattern_from)|].
  rewrite drop_app_length' by (by rewrite length_pattern_from). replace (a * n + n)%nat with (S a * n)%nat by (simpl; lia). apply IH.
Qed.
Lemma pattern_period o n a len :
  pattern_ok o → o_pattern_bytes o = 1 ∨ (o_pattern_bytes o ≠ 0 ∧ Z.of_nat n mod o_pattern_bytes o = 0) →
  pattern_from o (a * n) len = pattern_from o 0 len.
Proof.
  intros Hpo Hf. pose proof (pattern_size_range o Hpo) as Hps. pose proof (po_bytes o Hpo) as Hb.
  unfold pattern_from. apply map_ext. intros j. destruct (Z.eq_dec (o_pattern_bytes o) 1) as [H1|H1].
  - rewrite (po_single o Hpo H1 (_ mod _)) by (pose proof (Z.mod_pos_bound (Z.of_nat (a * n + j)) (pattern_size o)); lia).
    by rewrite (po_single o Hpo H1 (_ mod _)) by (pose proof (Z.mod_pos_bound (Z.of_nat (0 + j)) (pattern_size o)); lia).
  - destruct Hf as [|[H0 Hf]]; [done|]. f_equal. unfold pattern_size. rewrite (proj2 (Z.leb_gt _ _)) by lia.
    rewrite Nat2Z.inj_add, Nat2Z.inj_mul, <- Zplus_mod_idemp_l, <- Zmult_mod_idemp_r, Hf, Z.mul_0_r. done.
Qed.
Lemma pattern_chunks o n j : pattern_ok o → pattern_fits o n j →
  Forall (λ c, c = pattern_from o 0 n) (chunks n j (pattern_from o 0 (j * n))).
Proof.
  intros Hpo [->|Hf].
  - rewrite chunks_S, Nat.mul_1_l, take_ge by (by rewrite length_pattern_from). by repeat constructor.
  - eapply Forall_impl; [exact (chunks_pattern o n j 0)|]. intros c [b ->]. by apply pattern_period.
Qed.
Lemma pattern_from_bytes o a n : pattern_ok o → Forall is_byte (pattern_from o a n).
Proof.
  intros Hpo. unfold pattern_from. apply Forall_map, Forall_forall. intros j _. unfold tab.
  destruct (o_pattern o !! _) as [x|] eqn:E; [|done]. simpl. by apply (Forall_lookup_1 _ _ _ _ (po_range o Hpo) E).
Qed.

(** ** The verification of a unit *)

(** The verification of a unit of [j] intervals of [n] bytes, whose type has [nh] bytes
    in the header, is set up as it is meant to. *)
Record verify_setup (o : verify_opts) (u : io_u) (nh n j : nat) : Prop := VerifySetup {
  vs_type : vhdr_len (o_verify o) = Some (Z.of_nat nh);
  vs_range : 0 < o_verify o < VERIFY_NULL;
  vs_inc : get_hdr_inc o u = Z.of_nat n;
  vs_buflen : u_buflen u = Z.of_nat (j * n);
  vs_small : Z.of_nat (j * n) < 2 ^ 32;
  vs_some : (0 < j)%nat;
  vs_room : (24 + nh + digest_min (o_verify o) ≤ n)%nat;
  vs_offset : offset_fits o (24 + nh) n;
  vs_random : o_pattern_bytes o = 0 → (n * j mod 8 = 0)%nat;
  vs_pattern : o_pattern_bytes o ≠ 0 → pattern_ok o;
  vs_checked : o_verify o = VERIFY_PATTERN ∨ o_verify o = VERIFY_META → o_pattern_bytes o = 0 ∨ pattern_fits o n j;
  vs_given : o_verify o = VERIFY_PATTERN → o_pattern_bytes o ≠ 0;
  vs_numberio : 0 ≤ u_numberio u < 2 ^ 16;
  vs_fakeio : o_fakeio o = false
}.

Section unit.
Context `{Hju : JunkSized} (o : verify_opts) (u : io_u) (nh n j : nat) (Hs : verify_setup o u nh n j).

Lemma digest_of : o_verify o ≠ VERIFY_META → o_verify o ≠ VERIFY_PATTERN → ∃ F G, digest (o_verify o) nh F G.
Proof using Hs.
  destruct Hs as [Hty Hr _ _ _ _ _ _ _ _ _ _ _ _]. intros Hm Hp. unfold VERIFY_NULL in Hr. unfold VERIFY_META, VERIFY_PATTERN in *.
  assert (o_verify o = 1 ∨ o_verify o = 2 ∨ o_verify o = 3 ∨ o_verify o = 4 ∨ o_verify o = 5 ∨ o_verify o = 6 ∨
    o_verify o = 7 ∨ o_verify o = 8 ∨ o_verify o = 9 ∨ o_verify o = 10 ∨ o_verify o = 12) as H by lia.
  repeat destruct H as [H|H]; rewrite H in *; injection Hty as Hn; apply (f_equal Z.to_nat) in Hn; rewrite Nat2Z.id in Hn;
    simpl in Hn; subst nh; eexists _, _; constructor.
Qed.
(** What the data of an interval are to be. *)
Definition content (c : list Z) : Prop :=
  o_verify o = VERIFY_PATTERN ∨ o_verify o = VERIFY_META → o_pattern_bytes o ≠ 0 → c = pattern_from o 0 n.
Lemma type_of : ∃ cont filled, VerifyType o u nh n cont filled ∧ ∀ c, content c → cont c.
Proof using Hs Hju.
  assert (1 * n ≤ j * n)%nat as Hjn by (apply Nat.mul_le_mono_r; pose proof (vs_some _ _ _ _ _ Hs); lia).
  pose proof (vs_small _ _ _ _ _ Hs). pose proof (vs_room _ _ _ _ _ Hs) as Hroom. pose proof (vs_type _ _ _ _ _ Hs) as Hty.
  destruct (Z.eq_dec (o_verify o) VERIFY_META) as [Hm|Hm]; [|destruct (Z.eq_dec (o_verify o) VERIFY_PATTERN) as [Hp|Hp]].
  - rewrite Hm in Hty. injection Hty as Hn. assert (nh = 32%nat) as -> by lia. eexists _, _. split.
    + apply meta_type; [apply Hs|done|apply Hs|lia|lia|apply Hs].
    + intros c Hc H0. apply Hc; [by right|done].
  - rewrite Hp in Hty. injection Hty as Hn. assert (nh = 0%nat) as -> by lia. eexists _, _. split.
    + apply pattern_type; [by apply Hs, Hs|done|apply Hs|lia|lia].
    + intros c Hc. apply Hc; [by left|by apply Hs].
  - destruct (digest_of Hm Hp) as (F & G & Hd). eexists _, _. split; [apply (digest_type o u nh n F G); [done|done|lia]|done].
Qed.

(** The buffer after it was filled. *)
Lemma fill_run s c post :
  v_mem s = c ++ post → length c = (j * n)%nat → 0 ≤ rand_seed s < 2 ^ 64 →
  (o_pattern_bytes o ≠ 0 → buf_filled_len s < u_buflen u) →
  ∃ c1 s1, fill_verify_pattern o 0 (u32 (u_buflen u)) 0 false s = (Done tt, s1) ∧ v_mem s1 = c1 ++ post ∧
    length c1 = length c ∧ Forall is_byte c1 ∧ 0 ≤ rand_seed s1 < 2 ^ 64 ∧ terminate s1 = terminate s ∧
    (o_pattern_bytes o ≠ 0 → c1 = pattern_from o 0 (j * n)).
Proof using Hs.
  intros Hm Hc Hseed Hfl. pose proof (vs_small _ _ _ _ _ Hs) as Hsm. pose proof (vs_buflen _ _ _ _ _ Hs) as Hbl.
  assert (u32 (u_buflen u) = Z.of_nat (length c)) as -> by (unfold u32; rewrite Hbl, Z.mod_small; lia).
  unfold fill_verify_pattern. destruct (Z.eqb_spec (o_pattern_bytes o) 0) as [H0|H0].
  - rewrite (bind_done (readS v_rand) _ s s _ eq_refl). unfold fill_random_buf.
    destruct (rand_product (v_rand s)) as [r fs'] eqn:Er.
    assert (0 ≤ r < 2 ^ 64) as Hr.
    { unfold rand_product in Er. destruct (__rand (v_rand s)) as [a fs1], (__rand fs1) as [b fs2]. injection Er as <- _. apply Z.mod_pos_bound. lia. }
    pose proof (vs_random _ _ _ _ _ Hs H0) as H8. rewrite (Nat.mul_comm n j), <- Hc in H8.
    apply Nat.Div0.mod_divides in H8 as [q Hq].
    assert (on_mem (__fill_random_buf 0 (Z.of_nat (length c)) r;; mret (r, fs')) s =
      (Done (r, fs'), set_mem (random_bytes q r ++ post) s)) as E.
    { apply zoom_run. rewrite Hm.
      by rewrite (bind_done _ _ _ _ _ (fill_random_buf_run [] c post q r 0 (Z.of_nat (length c)) Hq eq_refl ltac:(by rewrite Hq))). }
    rewrite (bind_done _ _ _ _ _ E). exists (random_bytes q r). eexists. split; [reflexivity|]. cbn.
    split_and!; [done|by rewrite length_random_bytes|apply random_bytes_bytes|lia|lia|done|done].
  - rewrite (bind_done (readS buf_filled_len) _ s s _ eq_refl). rewrite (proj2 (Z.leb_gt _ _)) by (rewrite Hc, <- Hbl; by apply Hfl).
    pose proof (vs_pattern _ _ _ _ _ Hs H0) as Hpo.
    assert (on_mem (fill_pattern 0 (Z.of_nat (length c)) (o_pattern o) (o_pattern_bytes o)) s =
      (Done tt, set_mem (pattern_from o 0 (length c) ++ post) s)) as E.
    { apply zoom_run. rewrite Hm. exact (fill_pattern_run o Hpo [] c post H0). }
    rewrite (bind_done _ _ _ _ _ E). exists (pattern_from o 0 (length c)). eexists. split; [reflexivity|]. cbn.
    split_and!; [done|apply length_pattern_from|by apply pattern_from_bytes|lia|lia|done|by rewrite Hc].
Qed.

Lemma room : (24 + nh ≤ 200)%nat ∧ (24 + nh ≤ n)%nat ∧ u_buflen u < 2 ^ 32.
Proof using Hs.
  destruct Hs as [Hty Hr _ Hb Hsm _ Hroom _ _ _ _ _ _ _]. split_and!; [|lia|lia].
  assert (∀ ty, match vhdr_len ty with Some k => k ≤ 128 | None => True end) as H.
  { intros ty. unfold vhdr_len. repeat destruct (_ =? _) || destruct (_ || _); done. }
  specialize (H (o_verify o)). rewrite Hty in H. lia.
Qed.
Lemma populate_run cont filled s c post :
  VerifyType o u nh n cont filled → (∀ c, content c → cont c) →
  v_mem s = c ++ post → length c = (j * n)%nat → 0 ≤ rand_seed s < 2 ^ 64 →
  (o_pattern_bytes o ≠ 0 → buf_filled_len s < u_buflen u) →
  ∃ c1 s1, populate_verify_io_u o u s = (Done tt, s1) ∧
    v_mem s1 = concat (filled_all o nh filled 0 (rand_seed s1) (chunks n j c1)) ++ post ∧
    length c1 = (j * n)%nat ∧ Forall (λ c, (length c = n ∧ Forall is_byte c) ∧ cont c) (chunks n j c1) ∧
    0 ≤ rand_seed s1 < 2 ^ 64 ∧ terminate s1 = terminate s.
Proof using Hs Hju.
  intros Vt Hcont Hm Hc Hseed Hfl. destruct (fill_run s c post Hm Hc Hseed Hfl) as (c1 & s1 & E & Hm1 & Hl1 & Hb1 & Hs1 & Ht1 & Hp1).
  destruct room as (R1 & R2 & R3). pose proof (vs_buflen _ _ _ _ _ Hs) as Hbl.
  destruct (chunks_pieces n j c1 ltac:(lia)) as [Ecat Hlen].
  assert (Forall (λ c, length c = n ∧ Forall is_byte c) (chunks n j c1)) as Hlb by (apply Forall_and; split; [done|by apply chunks_bytes]).
  unfold populate_verify_io_u. rewrite (proj2 (Z.eqb_neq _ _)) by apply vt_not_null.
  unfold fill_pattern_headers. rewrite (bind_done _ _ _ _ _ E).
  assert (v_mem s1 = [] ++ concat (chunks n j c1) ++ post) as Hm1' by (by rewrite Ecat).
  pose proof (headers_loop_run o u nh n cont filled R1 (vs_inc _ _ _ _ _ Hs) R2 (vs_offset _ _ _ _ _ Hs) R3 (chunks n j c1)
    (S (Z.to_nat (u_buflen u))) [] post 0 s1 Hm1' Hlb) as El.
  rewrite Ecat, length_chunks in El. change (Z.of_nat (length (@nil Z))) with 0 in El.
  rewrite El; [|simpl; lia|].
  - exists c1. eexists. split; [reflexivity|]. cbn. split_and!; [done|lia| |lia|lia|done].
    apply Forall_and. split; [done|]. eapply Forall_impl; [|exact Hcont].
    unfold content. destruct (decide (o_verify o = VERIFY_PATTERN ∨ o_verify o = VERIFY_META)) as [Hck|Hck].
    2: { apply Forall_forall. by intros x _ ?. }
    destruct (Z.eq_dec (o_pattern_bytes o) 0) as [H0|H0]; [apply Forall_forall; by intros x _ _ ?|].
    rewrite (Hp1 H0). destruct (vs_checked _ _ _ _ _ Hs Hck) as [|Hf]; [done|].
    eapply Forall_impl; [exact (pattern_chunks o n j (vs_pattern _ _ _ _ _ Hs H0) Hf)|]. by intros x -> _ _.
  - rewrite Hbl, Nat2Z.id. assert (j * 1 ≤ j * n)%nat by (apply Nat.mul_le_mono_l; lia). lia.
Qed.

End unit.

(** ** Concrete units *)

Definition plain_opts (ty interval : Z) (pattern : list Z) (bytes : Z) : verify_opts :=
  VerifyOpts ty interval 0 pattern bytes false false false false false false false false false 0 0.
Definition plain_unit (buflen : Z) : io_u := IoU buflen 0 0 false false 0 0.
Definition empty_state (n : nat) : vstate := VState (replicate n 0) init_rand 0 0 false.
#[export] Instance zeros : Junk := λ n, replicate n 0.
#[export] Instance zeros_sized : @JunkSized zeros.
Proof. intros n. apply length_replicate. Qed.

(** One interval, or several of the same size, without a pattern. *)
Lemma plain_setup ty n j nh :
  vhdr_len ty = Some (Z.of_nat nh) → 0 < ty < VERIFY_NULL → ty ≠ VERIFY_PATTERN →
  (0 < j)%nat → (24 + nh + digest_min ty ≤ n)%nat → Z.of_nat (j * n) < 2 ^ 32 → (n * j mod 8 = 0)%nat →
  verify_setup (plain_opts ty (Z.of_nat n) [] 0) (plain_unit (Z.of_nat (j * n))) nh n j.
Proof.
  intros Hty Hr Hp Hj Hn Hs H8. assert (1 * n ≤ j * n)%nat as Hjn by (apply Nat.mul_le_mono_r; lia).
  split; simpl; try done; try lia; try (by left); try (intros _; by left).
  unfold get_hdr_inc. simpl. by rewrite (proj2 (Z.eqb_neq _ 0)), (proj2 (Z.leb_le _ _)) by lia.
Qed.
