(* ===== verification/FioVerifyDamage.v ===== *)
(** * fio: which damage to a buffer its verification reports *)
From Stdlib Require Import ZArith Lia.
From stdpp Require Import base numbers list.
From S2P Require Import Prelude FioCrc FioHash FioHashCorrect FioHashDetect.
From S2P Require Import FioRand FioVerify FioVerifyRun FioVerifyDigest FioVerifyRound.
From S2P Require Import FioVerifyTypes FioVerifyCorrect.

(** ** What a checksum shows *)

Section checksum.
Context `{Hju : JunkSized}.

(** How many bytes in a row may be wrong for the checksum to show it always. *)
Definition burst (ty : Z) : nat :=
  if ty =? VERIFY_CRC16 then 2
  else if (ty =? VERIFY_CRC32) || (ty =? VERIFY_CRC32C) || (ty =? VERIFY_CRC32C_INTEL) then 4
  else if ty =? VERIFY_CRC64 then 8
  else if ty =? VERIFY_XXHASH then 1
  else 0.
Lemma xxh_one_call mem p :
  length mem = 16%nat → Z.of_nat (length p) < 2 ^ 64 → XXH32_digest (XXH32_update (XXH32_init 1 mem) p) = XXH32 p 1.
Proof. intros Hm Hp. apply xxh_digest_ok; [|done]. apply (xxh_update_ok 1 _ []), xxh_init_ok, Hm. Qed.
Lemma detects_bytes m k f p b e t :
  detects m f → fits_bytes k f → Forall is_byte (p ++ b ++ t) → Forall is_byte e → length b = length e → (length b ≤ m)%nat →
  b ≠ e → le_bytes k (f (p ++ b ++ t)) ≠ le_bytes k (f (p ++ e ++ t)).
Proof using Type.
  clear. intros Hd Hf Hb He Hl Hm Hne E. apply Hne. apply (Hd p b e t Hb He Hl Hm).
  apply (le_bytes_inj k); [by apply Hf| |done]. apply Hf. rewrite !Forall_app in *. tauto.
Qed.
Lemma digest_detects ty m F G p b e t :
  digest ty m F G → Z.of_nat (length (p ++ b ++ t)) < 2 ^ 64 →
  Forall is_byte (p ++ b ++ t) → Forall is_byte e → length b = length e → (length b ≤ burst ty)%nat → b ≠ e →
  G (p ++ b ++ t) ≠ G (p ++ e ++ t).
Proof.
  intros Hd Hlt Hb He Hl Hm Hne. destruct crc_bursts as ([D16 F16] & [D32 F32] & [Dc Fc] & [D64 F64]).
  assert (burst ty ≠ 0)%nat as H0.
  { intros H0. apply Hne. rewrite (nil_length_inv b), (nil_length_inv e); [done|lia|lia]. }
  destruct Hd; try (by destruct H0);
    try (by (apply (detects_bytes 8 8) || apply (detects_bytes 4 4) || apply (detects_bytes 2 2))).
  unfold xxhash_bytes. rewrite !xxh_one_call by (apply length_junk || (rewrite ?length_app in *; lia)).
  apply (detects_bytes 1 4 (λ p, XXH32 p 1)); [apply xxh_detects; by split|apply xxh_fits|done..].
Qed.
End checksum.

(** ** Pieces with damage *)

Lemma verdict_damaged f r i k :
  verdict f 0 (replicate i (Some 0) ++ Some r :: replicate k (Some 0)) =
    inr (if negb (r =? 0) && (f || (k =? 0)%nat) then r else 0).
Proof.
  induction i as [|i IH]; [|exact IH]. cbn [replicate app verdict]. change (negb (0 =? 0)) with false. cbn [andb].
  assert (∀ k, verdict f 0 (replicate k (Some 0)) = inr 0) as H0 by (intros m; induction m as [|m IHm]; [done|exact IHm]).
  destruct (Z.eqb_spec r 0) as [->|Hr]; [apply H0|]. destruct k as [|k]; [by rewrite orb_true_r|]. cbn [replicate verdict].
  rewrite (proj2 (Z.eqb_neq r 0)) by done. cbn [negb andb]. destruct f; [done|]. apply H0.
Qed.

(** Bytes after the header. *)
Lemma memcpy_data h d e (c : list Z) :
  (h ≤ d)%nat → (d ≤ length c)%nat → take h (memcpy_at d e c) = take h c ∧ drop h (memcpy_at d e c) = memcpy_at (d - h) e (drop h c).
Proof.
  intros Hd Hc. unfold memcpy_at. split.
  - rewrite take_app_le by (rewrite length_take; lia). rewrite take_take. f_equal. lia.
  - rewrite drop_app_le by (rewrite length_take; lia). rewrite skipn_firstn_comm, drop_drop. do 3 f_equal. lia.
Qed.
Lemma memcpy_split d e (c : list Z) :
  (d + length e ≤ length c)%nat →
  c = take d c ++ take (length e) (drop d c) ++ drop (d + length e) c ∧
  memcpy_at d e c = take d c ++ e ++ drop (d + length e) c.
Proof. intros Hd. split; [|done]. by rewrite <- drop_drop, !take_drop. Qed.

Lemma memcpy_inside (a x b e : list Z) d :
  (d + length e ≤ length x)%nat → memcpy_at (length a + d) e (a ++ x ++ b) = a ++ memcpy_at d e x ++ b.
Proof.
  intros Hd. unfold memcpy_at. rewrite take_app_add, <- Nat.add_assoc, drop_app_add, take_app_le, drop_app_le by lia. by rewrite <- !app_assoc.
Qed.

(** The part of the data that the checksum of a type does not cover: what follows the
    last full block for md5 and sha1, and what is between the first block and
    the last full one for sha256 and sha512. *)
Definition unseen (ty : Z) (len d m : nat) : Prop :=
  ((ty = VERIFY_MD5 ∨ ty = VERIFY_SHA1) ∧ (len - len mod 64 ≤ d)%nat) ∨
  (ty = VERIFY_SHA256 ∧ (64 ≤ d)%nat ∧ (d + m ≤ len - len mod 64)%nat) ∨
  (ty = VERIFY_SHA512 ∧ (128 ≤ d)%nat ∧ (d + m ≤ len - len mod 128)%nat).

Lemma split_blocks n (l : list Z) : (0 < n)%nat →
  let k := (length l - length l mod n)%nat in (k mod n = 0)%nat ∧ (k ≤ length l)%nat ∧ (length l - k < n)%nat.
Proof.
  intros Hn k. unfold k. pose proof (Nat.div_mod_eq (length l) n) as E. pose proof (Nat.mod_upper_bound (length l) n ltac:(lia)).
  split; [|lia]. replace (length l - length l mod n)%nat with (length l / n * n)%nat by lia. apply Nat.Div0.mod_mul.
Qed.
Lemma digest_blind `{JunkSized} ty m F G d e data :
  digest ty m F G → unseen ty (length data) d (length e) → (d + length e ≤ length data)%nat →
  G data = G (memcpy_at d e data).
Proof.
  intros Hd Hun Hl.
  assert (∀ n, (0 < n)%nat → (length data - length data mod n ≤ d)%nat → ∃ p t t', data = p ++ t ∧ memcpy_at d e data = p ++ t' ∧
    (length p mod n = 0)%nat ∧ (length t < n)%nat ∧ length t = length t') as Hend.
  { intros n Hn Hk. destruct (split_blocks n data Hn) as (K1 & K2 & K3). set (k := (length data - length data mod n)%nat) in *.
    exists (take k data), (drop k data), (memcpy_at (d - k) e (drop k data)).
    destruct (memcpy_data k d e data Hk ltac:(lia)) as [E1 E2].
    split_and!; [by rewrite take_drop|by rewrite <- E1, <- E2, take_drop| | |].
    - rewrite length_take. by replace (Nat.min k (length data)) with k by lia.
    - rewrite length_drop. lia.
    - rewrite length_memcpy; rewrite !length_drop; lia. }
  assert (∀ n, (0 < n)%nat → (n ≤ d)%nat → (d + length e ≤ length data - length data mod n)%nat → ∃ b p p' t,
    data = b ++ p ++ t ∧ memcpy_at d e data = b ++ p' ++ t ∧ length b = n ∧ (length p mod n = 0)%nat ∧
    length p = length p' ∧ (length t < n)%nat) as Hmid.
  { intros n Hn Hk1 Hk2. destruct (split_blocks n data Hn) as (K1 & K2 & K3). set (k := (length data - length data mod n)%nat) in *.
    destruct (memcpy_data n d e data Hk1 ltac:(lia)) as [E1 E2].
    set (rest := drop n data). set (p := take (k - n) rest).
    exists (take n data), p, (memcpy_at (d - n) e p), (drop (k - n) rest).
    assert (length p = k - n)%nat as Hp by (unfold p, rest; rewrite length_take, length_drop; lia).
    split_and!.
    - unfold p. rewrite take_drop. unfold rest. by rewrite take_drop.
    - rewrite <- (take_drop n (memcpy_at d e data)), E1, E2. f_equal. fold rest.
      rewrite <- (take_drop (k - n) rest) at 1. fold p.
      pose proof (memcpy_inside [] p (drop (k - n) rest) e (d - n) ltac:(lia)) as E. exact E.
    - rewrite length_take. lia.
    - rewrite Hp. apply Nat.Div0.mod_divides in K1 as [q Hq]. rewrite Hq.
      replace (n * q - n)%nat with ((q - 1) * n)%nat by (rewrite Nat.mul_sub_distr_r; lia). apply Nat.Div0.mod_mul.
    - rewrite length_memcpy; lia.
    - unfold rest. rewrite !length_drop. lia. }
  destruct Hun as [[Hty Hk]|[(-> & Hk1 & Hk2)|(-> & Hk1 & Hk2)]].
  - destruct (Hend 64%nat ltac:(lia) Hk) as (p & t & t' & E & -> & Hp & Ht & Htl). rewrite E.
    destruct Hty as [-> | ->]; inversion Hd; subst; [by apply md5_blind|by apply sha1_blind].
  - destruct (Hmid 64%nat ltac:(lia) Hk1 Hk2) as (b & p & p' & t & E & -> & Hb & Hp & Hpl & Ht). rewrite E.
    inversion Hd; subst. rewrite !sha256_run by (apply length_junk || (rewrite ?length_app; lia)). by apply sha_blind; [lia|..].
  - destruct (Hmid 128%nat ltac:(lia) Hk1 Hk2) as (b & p & p' & t & E & -> & Hb & Hp & Hpl & Ht). rewrite E.
    inversion Hd; subst. rewrite !sha512_run by (apply length_junk || (rewrite ?length_app; lia)). by apply sha_blind; [lia|..].
Qed.

Section damage.
Context `{Hju : JunkSized} (o : verify_opts) (u : io_u) (nh n j : nat) (Hs : verify_setup o u nh n j).
Context (Hoff : o_offset o = 0).

Lemma interval_fits : (24 + nh + digest_min (o_verify o) ≤ n)%nat ∧ Z.of_nat n < 2 ^ 32.
Proof using Hs.
  clear Hoff. pose proof (vs_room _ _ _ _ _ Hs) as Hroom. pose proof (vs_small _ _ _ _ _ Hs) as Hsmall.
  assert (1 * n ≤ j * n)%nat as Hjn by (apply Nat.mul_le_mono_r; pose proof (vs_some _ _ _ _ _ Hs); lia). lia.
Qed.
Lemma pieces_ok_app seed l1 l2 : ∀ k,
  pieces_ok o u nh n seed k (l1 ++ l2) ↔ pieces_ok o u nh n seed k l1 ∧ pieces_ok o u nh n seed (k + Z.of_nat (length l1)) l2.
Proof using Type.
  induction l1 as [|x l1 IH]; intros k; cbn [app pieces_ok length]; [rewrite Z.add_0_r; tauto|]. rewrite IH.
  replace (k + Z.of_nat (S (length l1))) with (k + 1 + Z.of_nat (length l1)) by lia. tauto.
Qed.
Lemma filled_all_app filled seed l1 l2 : ∀ k,
  filled_all o nh filled k seed (l1 ++ l2) = filled_all o nh filled k seed l1 ++ filled_all o nh filled (k + Z.of_nat (length l1)) seed l2.
Proof using Type.
  induction l1 as [|x l1 IH]; intros k; cbn [app filled_all length]; [by rewrite Z.add_0_r|].
  rewrite IH. by replace (k + Z.of_nat (S (length l1))) with (k + 1 + Z.of_nat (length l1)) by lia.
Qed.

(** A stamped interval whose data were changed: the checksums of the data decide. *)
Definition sums (G : list Z → list Z) (d : nat) (e data : list Z) : Z :=
  if bool_decide (G data = G (memcpy_at d e data)) then 0 else EILSEQ.
Lemma damaged_piece F G seed k c d e :
  digest (o_verify o) nh F G → length c = n → 0 ≤ seed < 2 ^ 64 → (24 + nh ≤ d)%nat → (d + length e ≤ n)%nat →
  piece_ok o (read_unit u) nh n seed k (memcpy_at d e (stamp (o_verify o) nh F (Z.of_nat n) seed c))
    (Some (sums G (d - (24 + nh)) e (drop (24 + nh) c))).
Proof using Hs Hju Hoff.
  intros Hd Hc Hseed Hd1 Hd2. destruct (digest_hdr _ _ _ _ Hd) as (Hty & Hr & _ & Hnull).
  destruct interval_fits as [Hroom Hsmall]. set (c' := stamp (o_verify o) nh F (Z.of_nat n) seed c).
  assert (length c' = n) as Hl by (unfold c'; rewrite (length_stamp _ nh F G); [done|done|lia]).
  destruct (stamp_parts _ nh F G (Z.of_nat n) seed c Hd ltac:(lia)) as [Esum Edata]. fold c' in Esum, Edata.
  set (cd := memcpy_at d e c'). assert (length cd = n) as Hld by (unfold cd; rewrite length_memcpy; lia).
  split; [done|]. cbn zeta. unfold placed. rewrite Hoff. cbn [Z.eqb].
  assert (∃ rest, cd = header20 (o_verify o) (Z.of_nat n) seed ++ rest) as [rest Er].
  { exists (drop 20 cd). rewrite <- (take_drop 20 cd) at 1. f_equal.
    destruct (memcpy_data 20 d e c' ltac:(lia) ltac:(lia)) as [E _]. unfold cd. rewrite E. done. }
  split.
  - rewrite Er. rewrite (seed_of_header o (o_verify o) (Z.of_nat n) seed rest) by done. apply header20_ok; [lia|done].
  - intros pre post Hk Hk2. rewrite (digest_switch o (read_unit u) _ nh F G Hd).
    rewrite (verify_with_run pre cd post k nh G (o_verify o) (Z.of_nat n) seed rest);
      [|done|lia|lia|done|by rewrite Hld|lia|done|done].
    destruct (memcpy_data (24 + nh) d e c' ltac:(lia) ltac:(lia)) as [E1 E2].
    assert (take nh (drop 24 cd) = G (drop (24 + nh) c)) as ->.
    { assert (∀ l : list Z, take nh (drop 24 l) = drop 24 (take (24 + nh) l)) as Ht.
      { intros l. rewrite skipn_firstn_comm. f_equal. lia. }
      unfold cd. rewrite Ht, E1, <- Ht, Esum. apply (digest_agree (o_verify o) nh F G); [done| |]; rewrite ?length_take, length_drop; lia. }
    unfold cd. by rewrite E2, Edata.
Qed.

Lemma map_ok (l : list (list Z)) : map snd (map (λ c, (c, Some 0)) l) = replicate (length l) (Some 0).
Proof using Type. induction l as [|c l IH]; [done|]. simpl. by rewrite IH. Qed.

(** Verifying when one interval was changed. *)
Lemma damaged_run F G l1 x l2 seed d e s post :
  digest (o_verify o) nh F G → let filled := λ (_ seed : Z) (c : list Z), stamp (o_verify o) nh F (Z.of_nat n) seed c in
  Forall (λ c, (length c = n ∧ Forall is_byte c) ∧ True) (l1 ++ x :: l2) → length (l1 ++ x :: l2) = j →
  0 ≤ seed < 2 ^ 64 → (24 + nh ≤ d)%nat → (d + length e ≤ n)%nat →
  v_mem s = concat (filled_all o nh filled 0 seed l1) ++ memcpy_at d e (filled 0 seed x) ++
    concat (filled_all o nh filled (0 + Z.of_nat (length l1) + 1) seed l2) ++ post →
  (o_verifysort o || o_backlog o = false → rand_seed s = seed) →
  let r := sums G (d - (24 + nh)) e (drop (24 + nh) x) in
  ∃ s', verify_io_u o (read_unit u) s = (Done (if negb (r =? 0) && (o_fatal o || (S (length l1) =? j)%nat) then r else 0), s') ∧
    terminate s' = negb (r =? 0) && o_fatal o || terminate s.
Proof using Hs Hju Hoff.
  intros Hd filled Hp Hj Hseed Hd1 Hd2 Hm Hseed2 r. destruct interval_fits as [Hroom Hsmall].
  assert (VerifyType o u nh n (λ _, True) filled) as Vt by (apply (digest_type o u nh n F G); [done|done|lia]).
  destruct (room o u nh n j Hs) as (R1 & R2 & R3). apply Forall_app in Hp as [Hp1 Hp2]. apply Forall_cons in Hp2 as [[[Hxl Hxb] _] Hp2].
  pose proof (filled_ok o u nh n _ filled R1 (vs_inc _ _ _ _ _ Hs) R2 (vs_offset _ _ _ _ _ Hs) R3) as Hok.
  set (A := filled_all o nh filled 0 seed l1) in *. set (B := filled_all o nh filled _ seed l2) in *.
  set (cvs := map (λ c, (c, Some 0)) A ++ (memcpy_at d e (filled 0 seed x), Some r) :: map (λ c, (c, Some 0)) B).
  assert (concat (map fst cvs) = concat A ++ memcpy_at d e (filled 0 seed x) ++ concat B) as Ecvs.
  { unfold cvs. rewrite map_app, concat_app. cbn [map concat fst]. by rewrite !map_map, !map_id. }
  assert (pieces_ok o (read_unit u) nh n (rand_seed s) 0 cvs) as Hpo.
  { apply (pieces_seed o (read_unit u) nh n seed); [done|]. unfold cvs. apply pieces_ok_app.
    rewrite length_map. unfold A at 2. rewrite filled_all_length. split; [by apply Hok|]. cbn [pieces_ok fst snd].
    split; [by apply (damaged_piece F G)|by apply Hok]. }
  destruct (verify_io_u_run o (read_unit u) nh n vt_len vt_range R1 (vs_inc _ _ _ _ _ Hs) R2 (vs_offset _ _ _ _ _ Hs) R3
    cvs post s) as (s3 & E3 & T3); [done|done|apply Hs|apply vt_not_null| | |exact Hpo|].
  { rewrite Ecvs, Hm. by rewrite <- !app_assoc. }
  { rewrite (pieces_ok_length o (read_unit u) nh n _ _ _ Hpo). unfold cvs. rewrite length_app. cbn [length]. rewrite !length_map.
    unfold A, B. rewrite !filled_all_length. rewrite length_app in Hj. cbn [length] in Hj. rewrite Hj. apply Hs. }
  assert (verdict (o_fatal o) 0 (map snd cvs) = inr (if negb (r =? 0) && (o_fatal o || (S (length l1) =? j)%nat) then r else 0)) as Ev.
  { unfold cvs. rewrite map_app. cbn [map snd]. rewrite !map_ok. unfold A, B. rewrite !filled_all_length, verdict_damaged.
    rewrite length_app in Hj. cbn [length] in Hj.
    destruct (Nat.eqb_spec (length l2) 0), (Nat.eqb_spec (S (length l1)) j); (done || lia). }
  rewrite Ev in E3, T3. exists s3. split; [done|]. rewrite T3. destruct (o_fatal o), (Z.eqb_spec r 0) as [->|Hr]; cbn;
    rewrite ?andb_false_r; [done| |done|done]. by rewrite (proj2 (Z.eqb_neq r 0)).
Qed.

(** What was written, and verifying it with a change in an interval. *)
Lemma damage_run F G s c post :
  digest (o_verify o) nh F G → v_mem s = c ++ post → length c = (j * n)%nat → 0 ≤ rand_seed s < 2 ^ 64 →
  (o_pattern_bytes o ≠ 0 → buf_filled_len s < u_buflen u) →
  ∃ c1 s1, populate_verify_io_u o u s = (Done tt, s1) ∧ v_mem s1 = c1 ++ post ∧ length c1 = length c ∧
    ∀ i d e s2 post2, (i < j)%nat → (d + length e ≤ n - (24 + nh))%nat →
      v_mem s2 = memcpy_at (i * n + (24 + nh) + d) e c1 ++ post2 → (o_verifysort o || o_backlog o = false → rand_seed s2 = rand_seed s1) →
      let data := take (n - (24 + nh)) (drop (i * n + (24 + nh)) c1) in
      Forall is_byte data ∧ length data = (n - (24 + nh))%nat ∧
      let r := sums G d e data in
      ∃ s3, verify_io_u o (read_unit u) s2 = (Done (if negb (r =? 0) && (o_fatal o || (S i =? j)%nat) then r else 0), s3) ∧
        terminate s3 = negb (r =? 0) && o_fatal o || terminate s2.
Proof using Hs Hju Hoff.
  intros Hd Hm Hc Hseed Hfl. destruct interval_fits as [Hroom Hsmall].
  set (filled := λ (_ seed : Z) (c : list Z), stamp (o_verify o) nh F (Z.of_nat n) seed c).
  assert (VerifyType o u nh n (λ _, True) filled) as Vt by (apply (digest_type o u nh n F G); [done|done|lia]).
  destruct (populate_run o u nh n j Hs (λ _, True) filled s c post Vt (λ _ _, I) Hm Hc Hseed Hfl)
    as (c1 & s1 & E & Hm1 & Hl1 & Hp1 & Hs1 & Ht1).
  destruct (room o u nh n j Hs) as (R1 & R2 & R3). set (cs := chunks n j c1) in *.
  assert (length cs = j) as Hlc by apply length_chunks.
  assert (∀ a l, Forall (λ c, (length c = n ∧ Forall is_byte c) ∧ True) l →
    length (concat (filled_all o nh filled a (rand_seed s1) l)) = (length l * n)%nat) as Hcl.
  { intros a l Hl. rewrite (length_concat n), filled_all_length; [done|].
    apply (length_filled o u nh n _ filled R1 (vs_inc _ _ _ _ _ Hs) R2 (vs_offset _ _ _ _ _ Hs) R3).
    eapply Forall_impl; [exact Hl|tauto]. }
  exists (concat (filled_all o nh filled 0 (rand_seed s1) cs)), s1. split_and!; [done|done|by rewrite Hcl, Hlc|].
  intros i d e s2 post2 Hi Hd2 Hm2 Hseed2 data.
  destruct (lookup_lt_is_Some_2 cs i) as [x Hx]; [lia|]. pose proof (list_elem_of_split_length _ _ _ Hx) as (l1 & l2 & Ecs & Hl1').
  clear Hx. rewrite Ecs in Hp1, Hlc. unfold data. clear data. rewrite Ecs, filled_all_app in Hm2 |- *. clear Ecs E Hm1. 
  pose proof Hp1 as Hall. apply Forall_app in Hp1 as [Hp1 Hp2]. apply Forall_cons in Hp2 as [[[Hxl Hxb] _] Hp2].
  cbn [filled_all] in Hm2 |- *. rewrite concat_app in Hm2 |- *. cbn [concat] in Hm2 |- *.
  assert (∀ k, placed (o_offset o) (24 + nh) (filled k (rand_seed s1) x) = filled 0 (rand_seed s1) x) as Epl
    by (intros k; unfold placed; by rewrite Hoff).
  rewrite Epl in Hm2 |- *. set (X := filled 0 (rand_seed s1) x) in *.
  assert (length X = n) as HX by (unfold X, filled; rewrite (length_stamp _ nh F G); [done|done|lia]).
  set (A := concat (filled_all o nh filled 0 (rand_seed s1) l1)) in *. assert (i * n = length A)%nat as HA by (unfold A; rewrite Hcl, Hl1'; done).
  rewrite HA in Hm2 |- *. rewrite <- Nat.add_assoc in Hm2. rewrite memcpy_inside in Hm2 by lia.
  rewrite drop_app_add, drop_app_le, take_app_le, take_ge by (rewrite ?length_drop; lia).
  assert (drop (24 + nh) X = drop (24 + nh) x) as -> by (apply (stamp_parts _ nh F G); [done|lia]).
  split; [by apply Forall_drop|]. split; [rewrite length_drop; lia|].
  pose proof (damaged_run F G l1 x l2 (rand_seed s1) (24 + nh + d) e s2 post2 Hd Hall Hlc Hs1 ltac:(lia) ltac:(lia)) as Hrun.
  rewrite <- Hl1' in Hrun. replace (24 + nh + d - (24 + nh))%nat with d in Hrun by lia. apply Hrun; [|done].
  rewrite Hm2, <- !app_assoc, <- Hl1'. reflexivity.
Qed.


End damage.

(** ** Witnesses *)

