(* ===== verification/FioVerifyChecks.v ===== *)
(** * fio: what the checks of patterns and of trimmed blocks accept *)
From Stdlib Require Import ZArith Lia.
From stdpp Require Import base numbers list.
From S2P Require Import Prelude FioCrc FioHash FioHashCorrect FioHashDetect.
From S2P Require Import FioRand FioVerify FioVerifyRun FioVerifyDigest FioVerifyRound.
From S2P Require Import FioVerifyTypes FioVerifyCorrect.

(** ** Patterns *)

(** C20: The check of an interval with a pattern, which compares whole copies of the
    pattern first and then bytes, accepts it exactly if every byte after the header is
    the byte of the pattern at its position in the interval. *)
Theorem pattern_verified `{Junk} o u nh pre c post :
  pattern_ok o → vhdr_len (o_verify o) = Some (Z.of_nat nh) → get_hdr_inc o u = Z.of_nat (length c) →
  (24 + nh ≤ length c)%nat → Z.of_nat (length c) < 2 ^ 32 →
  ∃ r, verify_io_u_pattern o u (Z.of_nat (length pre)) (pre ++ c ++ post) = (Done r, pre ++ c ++ post) ∧
    (r = 0 ∨ r = EILSEQ) ∧
    (r = 0 ↔ ∀ i x, (24 + nh ≤ i)%nat → c !! i = Some x → x = tab (o_pattern o) (Z.of_nat i mod pattern_size o)).
Proof.
  intros Hpo Hty Hinc Hl Hlt. rewrite (pattern_run o u Hpo nh pre c post) by done. eexists. split; [reflexivity|].
  set (hs := (24 + nh)%nat) in *. case_bool_decide as Hd; (split; [tauto|]).
  - split; [|done]. intros _ i x Hi Hx. replace i with (hs + (i - hs))%nat in Hx by lia. rewrite <- lookup_drop, Hd in Hx.
    unfold pattern_from in Hx. rewrite list_lookup_fmap in Hx.
    apply fmap_Some in Hx as (k & Hk & ->). apply lookup_seq in Hk as [-> _]. do 3 f_equal. lia.
  - split; [done|]. intros Hall. exfalso. apply Hd. apply list_eq. intros k. rewrite lookup_drop.
    destruct (c !! (hs + k)%nat) as [x|] eqn:Ex.
    + rewrite (Hall _ _ (Nat.le_add_r hs k) Ex). apply lookup_lt_Some in Ex. unfold pattern_from.
      rewrite list_lookup_fmap, lookup_seq_lt by lia. done.
    + apply lookup_ge_None in Ex. symmetry. apply lookup_ge_None. rewrite length_pattern_from. lia.
Qed.

(** ** Trimmed blocks *)

Lemma zero_pieces_run fuel : ∀ pre c post,
  (length c < fuel)%nat →
  zero_pieces fuel (Z.of_nat (length pre)) (Z.of_nat (length c)) (pre ++ c ++ post) =
    (Done (if bool_decide (Forall (λ x, x = 0) c) then 0 else EILSEQ), pre ++ c ++ post).
Proof.
  induction fuel as [|fuel IH]; intros pre c post Hf; [lia|]. cbn [zero_pieces].
  set (m := Nat.min (length c) 1024).
  assert ((if Z.of_nat (length c) <? 1024 then Z.of_nat (length c) else 1024) = Z.of_nat m) as ->.
  { unfold m. destruct (Z.ltb_spec (Z.of_nat (length c)) 1024); lia. }
  rewrite (bind_done _ _ _ _ _ (mem_read_run pre c post 0 m (Z.of_nat (length pre)) (Z.of_nat m) ltac:(lia) eq_refl ltac:(lia))).
  rewrite drop_0, Nat2Z.id.
  assert (∀ l : list Z, l = replicate (length l) 0 ↔ Forall (λ x, x = 0) l) as Hz.
  { intros l. split; [intros ->; by apply Forall_replicate|]. intros Hl. induction Hl as [|x l Hx Hl IHl]; [done|]. simpl. by rewrite Hx, <- IHl. }
  assert (length (take m c) = m) as Hm by (rewrite length_take; lia).
  assert (bool_decide (take m c = replicate m 0) = bool_decide (Forall (λ x, x = 0) (take m c))) as ->.
  { apply bool_decide_ext. pose proof (Hz (take m c)) as H. by rewrite Hm in H. }
  assert (Forall (λ x, x = 0) c ↔ Forall (λ x, x = 0) (take m c) ∧ Forall (λ x, x = 0) (drop m c)) as Hc
    by (rewrite <- (take_drop m c) at 1; apply Forall_app).
  case_bool_decide as Ht.
  - destruct (Z.eqb_spec (Z.of_nat (length c) - Z.of_nat m) 0) as [H0|H0].
    + rewrite bool_decide_true; [done|]. apply Hc. split; [done|]. rewrite drop_ge by lia. constructor.
    + assert (pre ++ c ++ post = (pre ++ take m c) ++ drop m c ++ post) as E by (by rewrite <- app_assoc, (app_assoc (take m c)), take_drop).
      rewrite E. replace (Z.of_nat (length pre) + Z.of_nat m) with (Z.of_nat (length (pre ++ take m c))) by (rewrite length_app; lia).
      replace (Z.of_nat (length c) - Z.of_nat m) with (Z.of_nat (length (drop m c))) by (rewrite length_drop; lia).
      rewrite IH by (rewrite length_drop; lia). do 2 f_equal. assert (bool_decide (Forall (λ x, x = 0) (drop m c)) = bool_decide (Forall (λ x, x = 0) c)) as ->; [|done].
      apply bool_decide_ext. tauto.
  - rewrite bool_decide_false; [done|]. tauto.
Qed.

(** Verifying a trimmed block with [trim_verify_zero]: the thread learns whether all of it is zero. *)
Lemma trim_verified `{Junk} o u s c post :
  o_verify o ≠ VERIFY_NULL → u_read u = true → o_fakeio o = false → u_trimmed u = true → o_trim_zero o = true →
  v_mem s = c ++ post → u_buflen u = Z.of_nat (length c) → u_buflen u < 2 ^ 32 →
  (verify_io_u o u s).1 = Done (if bool_decide (Forall (λ x, x = 0) c) then 0 else EILSEQ).
Proof.
  intros Hv Hr Hf Ht Hz Hm Hb Hlt. unfold verify_io_u. rewrite (proj2 (Z.eqb_neq _ _)), Hr, Hf, Ht by done. cbn [negb orb].
  assert (on_mem (verify_trimmed_io_u o u) s = (Done (if bool_decide (Forall (λ x, x = 0) c) then 0 else EILSEQ), set_mem (c ++ post) s)) as E.
  { apply zoom_run. unfold verify_trimmed_io_u. rewrite Hz, Hm. cbn [negb]. unfold u32. rewrite Z.mod_small by lia. rewrite Hb.
    apply (zero_pieces_run _ [] c post). lia. }
  rewrite (bind_done _ _ _ _ _ E). unfold verify_done. by destruct (negb _ && _).
Qed.

(** ** Bad headers *)

(** A bad first header: the result is returned at once, and even with [verify_fatal] the
    thread is not told to stop. *)
Lemma bad_header_not_fatal `{JunkSized} o u nh n j s c post :
  verify_setup o u nh n j → o_offset o = 0 → u_read u = true → u_trimmed u = false →
  v_mem s = c ++ post → length c = n → header_ok (Z.of_nat n) (seed_of o c (rand_seed s)) c = false →
  ∃ s', verify_io_u o u s = (Done EILSEQ, s') ∧ terminate s' = terminate s.
Proof.
  intros Hs H0 Hr Ht Hm Hc Hh. destruct (room o u nh n j Hs) as (R1 & R2 & R3).
  pose proof (vs_range _ _ _ _ _ Hs) as Hrange. unfold VERIFY_NULL in Hrange. pose proof (vs_buflen _ _ _ _ _ Hs) as Hb.
  assert (1 * n ≤ j * n)%nat as Hjn by (apply Nat.mul_le_mono_r; pose proof (vs_some _ _ _ _ _ Hs); lia).
  unfold verify_io_u. rewrite (proj2 (Z.eqb_neq _ _)), Hr, (vs_fakeio _ _ _ _ _ Hs), Ht by (unfold VERIFY_NULL; lia). cbn [negb orb].
  cbn [verify_loop]. rewrite (proj2 (Z.ltb_lt _ _)) by lia. change (negb (0 =? 0)) with false. cbn [andb].
  assert (placed (o_offset o) (24 + nh) c = c) as Ep by (unfold placed; by rewrite H0).
  pose proof (verify_turn_run o u nh n (vs_type _ _ _ _ _ Hs) ltac:(lia) R1 (vs_inc _ _ _ _ _ Hs) R2 (vs_offset _ _ _ _ _ Hs) [] c post 0 s None Hm Hc) as E.
  rewrite Ep in E. specialize (E Hh). change (Z.of_nat (length (@nil Z))) with 0 in E.
  exists (set_mem ([] ++ c ++ post) (set_seed (seed_of o c (rand_seed s)) s)). split; [|done].
  unfold mbind, prog_bind. rewrite E. reflexivity.
Qed.

(** ** Patterns that fail *)

Definition write_and_verify (o : verify_opts) (u : io_u) : outcome fault Z :=
  ((populate_verify_io_u o u;; verify_io_u o (read_unit u)) (empty_state (Z.to_nat (u_buflen u)))).1.

(** A pattern of three bytes, as the option fills the 512, and an interval that it does
    not divide: what was just written does not verify. *)
Lemma odd_pattern_fails :
  let pattern := take 512 (concat (replicate 171 [0xef; 0xcd; 0xab])) in
  write_and_verify (plain_opts VERIFY_PATTERN 256 pattern 512) (plain_unit 512) = Done EILSEQ ∧
  write_and_verify (plain_opts VERIFY_PATTERN 512 pattern 512) (plain_unit 1024) = Done 0.
Proof. split; by vm_compute. Qed.
(** The pattern 0 has no bytes: the buffer is random and is compared with zeros. *)
Lemma zero_pattern_fails : write_and_verify (plain_opts VERIFY_PATTERN 0 (replicate 512 0) 0) (plain_unit 512) = Done EILSEQ.
Proof. by vm_compute. Qed.
(** An interval of the least size that is allowed does not hold the header of sha512:
    the data are read outside the buffer. *)
Lemma short_interval_out_of_bounds :
  write_and_verify (plain_opts VERIFY_SHA512 48 [] 0) (plain_unit 480) = Leave (Undefined OutOfBounds).
Proof. by vm_compute. Qed.

(** ** Witness *)

Lemma pattern_verified_witness :
  let pattern := replicate 512 0xab in
  verify_io_u_pattern (plain_opts VERIFY_PATTERN 0 pattern 1) (plain_unit 64) 0 (replicate 64 0xab) = (Done 0, replicate 64 0xab).
Proof.
  set (o := plain_opts VERIFY_PATTERN 0 (replicate 512 0xab) 1).
  assert (pattern_ok o) as Hpo.
  { split; [reflexivity|unfold o, MAX_PATTERN_SIZE; simpl; lia| |].
    - intros _ i Hi. unfold tab. assert (∀ k, (k < 512)%nat → replicate 512 0xab !! k = Some 0xab) as Hk by (intros; by apply lookup_replicate_2).
      simpl o_pattern. rewrite Hk by lia. done.
    - apply Forall_replicate. unfold is_byte. lia. }
  destruct (pattern_verified o (plain_unit 64) 0 [] (replicate 64 0xab) [] Hpo eq_refl eq_refl) as (r & E & _ & Hr);
    [rewrite length_replicate; lia|rewrite length_replicate; lia|].
  rewrite app_nil_l, app_nil_r in E. assert (r = 0) as ->; [|exact E]. apply Hr.
  intros i x _ Hx. apply lookup_replicate in Hx as [-> _]. symmetry. change 0xab with (tab (o_pattern o) 0).
  apply (po_single o Hpo eq_refl). apply Z.mod_pos_bound. done.
Defined.
