(* ===== verification/Dbt2Input.v ===== *)
(** * dbt2: the inputs of the transactions (common.c, input_data_generator.c)

    The state is the number of calls of [rand()] made so far, whose results are the
    parameter [RandSource].  [bzero] leaves the output parts of the structures zero;
    the records have their input parts. *)
From Stdlib Require Import ZArith Lia SpecFloat Ascii String.
From stdpp Require Import base numbers list strings.
From S2P Require Import Prelude CFloat.
From S2P Require Import Dbt2Queue Dbt2Socket.

(** ** Constants (common.h) *)

Definition DELIVERY : Z := 0.
Definition NEW_ORDER : Z := 1.
Definition ORDER_STATUS : Z := 2.
Definition PAYMENT : Z := 3.
Definition STOCK_LEVEL : Z := 4.
Definition OK : Z := 1.
Definition A_STRING_CHAR_LEN : Z := 128.
Definition L_STRING_CHAR_LEN : Z := 52.
Definition N_STRING_CHAR_LEN : Z := 10.
Definition C_LAST_LEN : nat := 16.
Definition C_ID_UNKNOWN : Z := 0.
Definition D_ID_MAX : Z := 10.
Definition O_OL_CNT_MAX : nat := 15.
Definition O_CARRIER_ID_MAX : Z := 10.

(** ** common.c *)

Abbreviation iprog := (prog fault Z).

Section input.
Context {Rs : RandSource}.

Definition rand : iprog Z := λ n, (Done (rand_value n), n + 1).
Definition get_random (max : Z) : iprog Z := r ← rand; int_rem r max.
(** The operands of [|] are drawn from left to right. *)
Definition get_nurand (a x y : Z) : iprog Z :=
  a1 ← int_add a 1;
  l ← get_random a1;
  y1 ← int_add y 1;
  d ← get_random y1;
  r ← int_add x d;
  m ← int_sub y x;
  m ← int_add m 1;
  q ← int_rem (Z.lor l r) m;
  int_add q x.
Definition get_percentage : iprog float64 :=
  r ← rand; mret (f64_div (f64_of_Z r) (f64_of_Z RAND_MAX)).

(** The characters [init_common] puts into [a_string_char], and the other two tables. *)
Definition a_string_char : list Z := [33] ++ seqZ 35 9 ++ seqZ 45 82 ++ seqZ 220 36.
Definition l_string_char : list Z := seqZ 65 26 ++ seqZ 97 26.
Definition n_string_char : list Z := seqZ 48 10.
Fixpoint random_chars (table : list Z) (max : Z) (n : nat) : iprog (list Z) :=
  match n with
  | O => mret []
  | S n => i ← get_random max; c ← arr_get table i; cs ← random_chars table max n; mret (c :: cs)
  end.
(** A string of [x] to [y] characters; the terminating zero is left out.  The array is the caller's. *)
Definition get_string (table : list Z) (max x y : Z) : iprog (list Z) :=
  d ← int_sub y x;
  d ← int_add d 1;
  r ← get_random d;
  l ← int_add x r;
  l ← int_add l 1;
  random_chars table max (Z.to_nat (l - 1)).
Definition get_a_string := get_string a_string_char (A_STRING_CHAR_LEN - 1).
Definition get_l_string := get_string l_string_char (L_STRING_CHAR_LEN - 1).
Definition get_n_string := get_string n_string_char N_STRING_CHAR_LEN.

Definition c_last_syl : list cstr :=
  [lit "BAR"; lit "OUGHT"; lit "ABLE"; lit "PRI"; lit "PRES"; lit "ESE"; lit "ANTI"; lit "CALLY"; lit "ATION"; lit "EING"].
(** The digits of [sprintf("%03d")], as numbers. *)
Definition digits3 (i : Z) : Z * Z * Z := (i / 100, i / 10 mod 10, i mod 10).
Definition get_c_last (i : Z) : iprog (Z * cstr) :=
  if (i <? 0) || (999 <? i) then mret (ERROR, [])
  else
    let '(a, b, c) := digits3 i in
    s1 ← arr_get c_last_syl a;
    s2 ← arr_get c_last_syl b;
    s3 ← arr_get c_last_syl c;
    mret (OK, (s1 ++ s2 ++ s3)%list).

(** ** input_data_generator.c *)

Record delivery_t := Delivery { dl_w_id : Z; dl_o_carrier_id : Z }.
Record no_order_line_t := NoOrderLine { ol_i_id : Z; ol_supply_w_id : Z; ol_quantity : Z }.
Record new_order_t := NewOrder {
  no_w_id : Z; no_d_id : Z; no_c_id : Z; no_o_ol_cnt : Z; no_o_all_local : Z; no_order_line : list no_order_line_t
}.
Record payment_t := Payment {
  pa_c_d_id : Z; pa_c_w_id : Z; pa_d_id : Z; pa_h_amount : float64; pa_w_id : Z; pa_c_id : Z; pa_c_last : cstr
}.
Record order_status_t := OrderStatus { os_c_d_id : Z; os_c_w_id : Z; os_c_id : Z; os_c_last : cstr }.
Record stock_level_t := StockLevel { sl_w_id : Z; sl_d_id : Z; sl_threshold : Z }.
Record integrity_t := Integrity { in_w_id : Z }.
Inductive transaction_data_t :=
  | DDelivery (d : delivery_t)
  | DNewOrder (d : new_order_t)
  | DOrderStatus (d : order_status_t)
  | DPayment (d : payment_t)
  | DStockLevel (d : stock_level_t)
  | DIntegrity (d : integrity_t).

(** [table_cardinality.warehouses] and [mode_altered]. *)
Context (warehouses mode_altered : Z).

Definition generate_delivery_data (w_id : Z) : iprog delivery_t :=
  r ← get_random O_CARRIER_ID_MAX;
  c ← int_add r 1;
  mret (Delivery w_id c).

Definition supply_w_id (w_id : Z) : iprog Z :=
  if 1 <? warehouses then
    local ← (if mode_altered =? 1 then mret true else r ← get_random 100; mret (0 <? r));
    if local : bool then mret w_id
    else
      r ← get_random warehouses;
      w ← int_add r 1;
      if w_id <=? w then int_add w 1 else mret w
  else mret 1.
Definition generate_order_line (w_id : Z) : iprog no_order_line_t :=
  i ← get_nurand 8191 1 100000;
  w ← supply_w_id w_id;
  r ← get_random 10;
  q ← int_add r 1;
  mret (NoOrderLine i w q).
Fixpoint generate_order_lines (n : nat) (w_id : Z) : iprog (list no_order_line_t) :=
  match n with
  | O => mret []
  | S n => l ← generate_order_line w_id; ls ← generate_order_lines n w_id; mret (l :: ls)
  end.
Definition set_i_id (i : Z) (l : no_order_line_t) : no_order_line_t := NoOrderLine i (ol_supply_w_id l) (ol_quantity l).
(** The lines that are not written stay zero. *)
Definition generate_new_order_data (w_id : Z) : iprog new_order_t :=
  r ← get_random D_ID_MAX;
  d ← int_add r 1;
  c ← get_nurand 1023 1 3000;
  r ← get_random 10;
  cnt ← int_add r 6;
  ls ← generate_order_lines (Z.to_nat cnt) w_id;
  (if (length ls <=? O_OL_CNT_MAX)%nat then mret tt else leave (Undefined OutOfBounds));;
  let lines := ls ++ replicate (O_OL_CNT_MAX - length ls) (NoOrderLine 0 0 0) in
  r ← get_random 100;
  lines ← (if r =? 0 then last ← int_sub cnt 1; l ← arr_get lines last; arr_set lines last (set_i_id 0 l) else mret lines);
  mret (NewOrder w_id d c cnt 0 lines).

(** A customer number, or a last name. *)
Definition generate_customer : iprog (Z * cstr) :=
  r ← get_random 100;
  if r <? 60 then
    i ← get_nurand 255 0 999;
    n ← get_c_last i;
    mret (C_ID_UNKNOWN, n.2)
  else c ← get_nurand 1023 1 3000; mret (c, []).
Definition generate_order_status_data (w_id : Z) : iprog order_status_t :=
  r ← get_random D_ID_MAX;
  d ← int_add r 1;
  c ← generate_customer;
  mret (OrderStatus d w_id c.1 c.2).

Definition remote_c_w_id (w_id : Z) : iprog Z :=
  if 1 <? warehouses then
    m ← int_sub warehouses 1;
    r ← get_random m;
    w ← int_add r 1;
    w ← (if w_id <=? w then w1 ← int_add w 1; int_rem w1 warehouses else mret w);
    mret (if w =? 0 then 1 else w)
  else mret 1.
Definition generate_payment_data (w_id : Z) : iprog payment_t :=
  r ← get_random D_ID_MAX;
  d ← int_add r 1;
  c ← generate_customer;
  local ← (if mode_altered =? 1 then mret true else r ← get_random 100; mret (r <? 85));
  cd ← (if local : bool then mret (w_id, d)
        else r ← get_random D_ID_MAX; d2 ← int_add r 1; w ← remote_c_w_id w_id; mret (w, d2));
  r ← get_random 500000;
  h ← int_add r 100;
  mret (Payment cd.2 cd.1 d (f64_div (f64_of_Z h) (f64_of_Z 100)) w_id c.1 c.2).

Definition generate_stock_level_data (w_id d_id : Z) : iprog stock_level_t :=
  r ← get_random 11;
  t ← int_add r 10;
  mret (StockLevel w_id d_id t).
Definition generate_integrity_data (w_id : Z) : iprog integrity_t := mret (Integrity w_id).

(** The case of [INTEGRITY] has no [break]. *)
Definition generate_input_data (type w_id : Z) : iprog (Z * option transaction_data_t) :=
  if type =? DELIVERY then d ← generate_delivery_data w_id; mret (OK, Some (DDelivery d))
  else if type =? NEW_ORDER then d ← generate_new_order_data w_id; mret (OK, Some (DNewOrder d))
  else if type =? ORDER_STATUS then d ← generate_order_status_data w_id; mret (OK, Some (DOrderStatus d))
  else if type =? PAYMENT then d ← generate_payment_data w_id; mret (OK, Some (DPayment d))
  else if type =? INTEGRITY then d ← generate_integrity_data w_id; mret (ERROR, Some (DIntegrity d))
  else mret (ERROR, None).
Definition generate_input_data2 (type w_id d_id : Z) : iprog (Z * option transaction_data_t) :=
  d ← generate_stock_level_data w_id d_id; mret (OK, Some (DStockLevel d)).
End input.

(** ** A logic for draws: [m] completes, whatever [rand()] gives, with a value in [φ] *)

Definition gives {A} (φ : A → Prop) (m : iprog A) : Prop := ∀ n, ∃ a n', m n = (Done a, n') ∧ φ a.

Lemma gives_ret {A} (φ : A → Prop) a : φ a → gives φ (mret a).
Proof. intros H n. by exists a, n. Qed.
Lemma gives_bind {A B} (φ : A → Prop) (ψ : B → Prop) (m : iprog A) (k : A → iprog B) :
  gives φ m → (∀ a, φ a → gives ψ (k a)) → gives ψ (m ≫= k).
Proof.
  intros Hm Hk n. destruct (Hm n) as (a & n' & E & Ha). destruct (Hk a Ha n') as (b & n'' & E' & Hb).
  exists b, n''. split; [|done]. by rewrite (bind_done _ _ _ _ _ E).
Qed.
Lemma gives_bind_ret {A B} (ψ : B → Prop) (a : A) (k : A → iprog B) : gives ψ (k a) → gives ψ (mret a ≫= k).
Proof. done. Qed.
Lemma gives_weaken {A} (φ ψ : A → Prop) (m : iprog A) : gives φ m → (∀ a, φ a → ψ a) → gives ψ m.
Proof. intros Hm H n. destruct (Hm n) as (a & n' & E & Ha). exists a, n'. auto. Qed.
Lemma gives_if {A} (φ : A → Prop) (b : bool) (m1 m2 : iprog A) :
  (b = true → gives φ m1) → (b = false → gives φ m2) → gives φ (if b then m1 else m2).
Proof. destruct b; auto. Qed.
Lemma gives_int (z : Z) : INT_MIN ≤ z ≤ INT_MAX → gives (λ v, v = z) (int_of z).
Proof. intros Hz. rewrite int_of_ok by done. by apply gives_ret. Qed.
Lemma gives_arr_get {A} (l : list A) (i : Z) :
  0 ≤ i < Z.of_nat (length l) → gives (λ x, l !! Z.to_nat i = Some x) (arr_get l i).
Proof. intros Hi. destruct (arr_get_lookup (F:=fault) (S:=Z) l i Hi) as (x & Hx & ->). by apply gives_ret. Qed.

Ltac bounds := unfold INT_MIN, INT_MAX, RAND_MAX, D_ID_MAX, O_CARRIER_ID_MAX in *; lia.

Lemma lor_range a b k : 0 ≤ k → 0 ≤ a < 2 ^ k → 0 ≤ b < 2 ^ k → 0 ≤ Z.lor a b < 2 ^ k.
Proof.
  intros Hk Ha Hb. split; [apply Z.lor_nonneg; lia|].
  destruct (decide (Z.lor a b = 0)) as [->|Hn]; [lia|].
  apply Z.log2_lt_pow2; [pose proof (proj2 (Z.lor_nonneg a b)); lia|].
  rewrite Z.log2_lor by lia.
  assert (0 < k). { destruct (decide (k = 0)) as [->|]; [|lia]. exfalso. apply Hn. by replace a with 0 by lia; replace b with 0 by lia. }
  apply Z.max_lub_lt.
  - destruct (decide (a = 0)) as [->|]; [by simpl|]. apply Z.log2_lt_pow2; lia.
  - destruct (decide (b = 0)) as [->|]; [by simpl|]. apply Z.log2_lt_pow2; lia.
Qed.

Section ranges.
Context {Rs : RandSource}.

Lemma get_random_run max n :
  0 < max ≤ INT_MAX → get_random max n = (Done (rand_value n mod max), n + 1).
Proof.
  intros Hm. unfold get_random. erewrite bind_done by reflexivity.
  pose proof (rand_value_range n). rewrite int_rem_pos by bounds. done.
Qed.
Lemma get_random_gives max : 0 < max ≤ INT_MAX → gives (λ r, 0 ≤ r < max) (get_random max).
Proof.
  intros Hm n. rewrite get_random_run by done. eexists _, _. split; [done|]. apply Z.mod_pos_bound. lia.
Qed.
(** A number from [lo] on. *)
Lemma from_random_gives max lo :
  0 < max ≤ INT_MAX → 0 ≤ lo → lo + max ≤ INT_MAX →
  gives (λ v, lo ≤ v < lo + max) (r ← get_random max; int_add r lo).
Proof.
  intros Hm Hlo Hs. eapply gives_bind; [by apply get_random_gives|cbv beta]. intros r Hr.
  eapply gives_weaken; [apply gives_int; bounds|cbv beta]. intros v ->. lia.
Qed.
End ranges.

#[export] Hint Resolve gives_ret gives_int get_random_gives : givedb.

(** Run the next draw or operation, naming its value and what is known of it. *)
Tactic Notation "draw" simple_intropattern(v) simple_intropattern(H) :=
  eapply gives_bind; [first [apply get_random_gives; bounds | apply gives_int; bounds]|cbv beta; intros v H].

(** ** What the inputs are *)

Definition last_name (i : Z) : cstr :=
  (nth (Z.to_nat (i / 100)) c_last_syl [] ++ nth (Z.to_nat (i / 10 mod 10)) c_last_syl [] ++
   nth (Z.to_nat (i mod 10)) c_last_syl [])%list.

Definition customer_ok (c : Z * cstr) : Prop :=
  (c.1 = C_ID_UNKNOWN ∧ (length c.2 ≤ C_LAST_LEN)%nat ∧ ∃ i, 0 ≤ i ≤ 999 ∧ c.2 = last_name i) ∨
  (1 ≤ c.1 ≤ 3000 ∧ c.2 = []).

Section specification.
Context (warehouses mode_altered w_id : Z).

(** The supplying warehouse of a line: home, or one that is not home, up to one too many. *)
Definition supply_ok (w : Z) : Prop :=
  if decide (1 < warehouses)
  then w = w_id ∨ (mode_altered ≠ 1 ∧ 1 ≤ w ≤ warehouses + 1 ∧ w ≠ w_id)
  else w = 1.
Definition line_ok (l : no_order_line_t) : Prop :=
  1 ≤ ol_i_id l ≤ 100000 ∧ supply_ok (ol_supply_w_id l) ∧ 1 ≤ ol_quantity l ≤ 10.
(** The last line may ask for item 0, which there is not: the transaction is rolled back. *)
Definition new_order_ok (d : new_order_t) : Prop :=
  no_w_id d = w_id ∧ 1 ≤ no_d_id d ≤ 10 ∧ 1 ≤ no_c_id d ≤ 3000 ∧ no_o_all_local d = 0 ∧
  6 ≤ no_o_ol_cnt d ≤ 15 ∧
  ∃ lines last, Z.of_nat (length lines) + 1 = no_o_ol_cnt d ∧ Forall line_ok lines ∧
    (line_ok last ∨ ∃ l, line_ok l ∧ last = set_i_id 0 l) ∧
    no_order_line d = lines ++ [last] ++ replicate (O_OL_CNT_MAX - S (length lines)) (NoOrderLine 0 0 0).
(** The customer's warehouse and district: home, or a warehouse before the last one. *)
Definition customer_place_ok (d : Z) (cw cd : Z) : Prop :=
  (cw = w_id ∧ cd = d) ∨
  (mode_altered ≠ 1 ∧ 1 ≤ cd ≤ 10 ∧
   if decide (1 < warehouses) then 1 ≤ cw < warehouses ∧ (cw = w_id → w_id = 1) else cw = 1).
Definition payment_ok (d : payment_t) : Prop :=
  pa_w_id d = w_id ∧ 1 ≤ pa_d_id d ≤ 10 ∧ customer_ok (pa_c_id d, pa_c_last d) ∧
  customer_place_ok (pa_d_id d) (pa_c_w_id d) (pa_c_d_id d) ∧
  ∃ h, 100 ≤ h < 500100 ∧ pa_h_amount d = f64_div (f64_of_Z h) (f64_of_Z 100).
Definition order_status_ok (d : order_status_t) : Prop :=
  os_c_w_id d = w_id ∧ 1 ≤ os_c_d_id d ≤ 10 ∧ customer_ok (os_c_id d, os_c_last d).
Definition delivery_ok (d : delivery_t) : Prop := dl_w_id d = w_id ∧ 1 ≤ dl_o_carrier_id d ≤ 10.
Definition stock_level_ok (d_id : Z) (d : stock_level_t) : Prop :=
  sl_w_id d = w_id ∧ sl_d_id d = d_id ∧ 10 ≤ sl_threshold d ≤ 20.

(** What [generate_input_data] returns with the structure it leaves. *)
Definition input_ok (type : Z) (rd : Z * option transaction_data_t) : Prop :=
  match rd.2 with
  | Some (DDelivery d) => type = DELIVERY ∧ rd.1 = OK ∧ delivery_ok d
  | Some (DNewOrder d) => type = NEW_ORDER ∧ rd.1 = OK ∧ new_order_ok d
  | Some (DOrderStatus d) => type = ORDER_STATUS ∧ rd.1 = OK ∧ order_status_ok d
  | Some (DPayment d) => type = PAYMENT ∧ rd.1 = OK ∧ payment_ok d
  | Some (DIntegrity d) => type = INTEGRITY ∧ rd.1 = ERROR ∧ in_w_id d = w_id
  | Some (DStockLevel d) => False
  | None => type ∉ [DELIVERY; NEW_ORDER; ORDER_STATUS; PAYMENT; INTEGRITY] ∧ rd.1 = ERROR
  end.
End specification.

(** ** The draws stay in their ranges *)

Section correct.
Context {Rs : RandSource}.

Lemma get_nurand_gives a x y :
  0 ≤ a < INT_MAX → 0 ≤ x ≤ y → x + y < INT_MAX → gives (λ v, x ≤ v ≤ y) (get_nurand a x y).
Proof.
  intros Ha Hx Hy. unfold get_nurand, int_add, int_sub.
  draw a1 ->. draw l Hl. draw y1 ->. draw d Hd. draw r ->. draw m ->. draw m' ->.
  pose proof (lor_range l (x + d) 31 ltac:(lia) ltac:(bounds) ltac:(bounds)) as Ho.
  rewrite int_rem_pos by bounds. apply gives_bind_ret.
  pose proof (Z.mod_pos_bound (Z.lor l (x + d)) (y - x + 1)).
  eapply gives_weaken; [apply gives_int; bounds|cbv beta]. intros v ->. lia.
Qed.

Lemma syllable_lookup k s : c_last_syl !! k = Some s → nth k c_last_syl [] = s ∧ (length s ≤ 5)%nat.
Proof. do 10 (destruct k as [|k]; [by intros [= <-]; split; [|vm_compute; lia]|]). done. Qed.

Lemma get_c_last_gives i :
  0 ≤ i ≤ 999 → gives (λ c, c = (OK, last_name i) ∧ (length (last_name i) ≤ C_LAST_LEN)%nat) (get_c_last i).
Proof.
  intros Hi. unfold get_c_last, digits3.
  replace ((i <? 0) || (999 <? i)) with false by (symmetry; apply orb_false_iff; lia).
  assert (0 ≤ i / 100 < 10) by (split; [apply Z.div_pos; lia|apply Z.div_lt_upper_bound; lia]).
  pose proof (Z.mod_pos_bound (i / 10) 10 eq_refl). pose proof (Z.mod_pos_bound i 10 eq_refl).
  eapply gives_bind; [apply gives_arr_get; simpl; lia|cbv beta]. intros s1 [<- L1]%syllable_lookup.
  eapply gives_bind; [apply gives_arr_get; simpl; lia|cbv beta]. intros s2 [<- L2]%syllable_lookup.
  eapply gives_bind; [apply gives_arr_get; simpl; lia|cbv beta]. intros s3 [<- L3]%syllable_lookup.
  apply gives_ret. split; [done|]. unfold last_name, C_LAST_LEN. rewrite !length_app. lia.
Qed.

Lemma generate_customer_gives : gives customer_ok generate_customer.
Proof.
  unfold generate_customer. draw r Hr. apply gives_if; intros _.
  - eapply gives_bind; [apply (get_nurand_gives 255 0 999); bounds|cbv beta]. intros i Hi.
    eapply gives_bind; [by apply get_c_last_gives|cbv beta]. intros c [-> Hc].
    apply gives_ret. left. split; [done|]. split; [done|]. by exists i.
  - eapply gives_bind; [apply (get_nurand_gives 1023 1 3000); bounds|cbv beta]. intros i Hi.
    apply gives_ret. right. split; [|done]. simpl. lia.
Qed.

Section warehouses.
Context (W mode w_id : Z) (HW : 1 ≤ w_id ≤ W) (Hmax : W < INT_MAX).

Lemma supply_w_id_gives : gives (supply_ok W mode w_id) (supply_w_id W mode w_id).
Proof.
  unfold supply_w_id, supply_ok. apply gives_if; intros H1; destruct (decide (1 < W)); try lia.
  - eapply (gives_bind (λ b : bool, b = false → mode ≠ 1)).
    { apply gives_if; intros Hm; [by apply gives_ret|]. draw r Hr. apply gives_ret. lia. }
    intros [] Hb; [by apply gives_ret; left|]. specialize (Hb eq_refl).
    draw r Hr. draw w Hw. apply gives_if; intros Hc.
    + eapply gives_weaken; [apply gives_int; bounds|cbv beta]. intros v ->. right. lia.
    + apply gives_ret. right. lia.
  - by apply gives_ret.
Qed.

Lemma generate_order_line_gives : gives (line_ok W mode w_id) (generate_order_line W mode w_id).
Proof.
  unfold generate_order_line. eapply gives_bind; [apply (get_nurand_gives 8191 1 100000); bounds|cbv beta]. intros i Hi.
  eapply gives_bind; [apply supply_w_id_gives|cbv beta]. intros w Hw.
  draw r Hr. draw q ->. apply gives_ret. split_and!; simpl; bounds || done.
Qed.
Lemma generate_order_lines_gives n :
  gives (λ ls, length ls = n ∧ Forall (line_ok W mode w_id) ls) (generate_order_lines W mode n w_id).
Proof.
  induction n as [|n IH]; simpl; [by apply gives_ret|].
  eapply gives_bind; [apply generate_order_line_gives|cbv beta]. intros l Hl.
  eapply gives_bind; [apply IH|cbv beta]. intros ls [Hn Hls]. apply gives_ret. split; [simpl; lia|by constructor].
Qed.

Lemma generate_new_order_data_gives : gives (new_order_ok W mode w_id) (generate_new_order_data W mode w_id).
Proof.
  unfold generate_new_order_data. draw r Hr. draw d ->.
  eapply gives_bind; [apply (get_nurand_gives 1023 1 3000); bounds|cbv beta]. intros c Hc.
  draw r2 Hr2. draw cnt ->.
  eapply gives_bind; [apply generate_order_lines_gives|cbv beta]. intros ls [Hn Hls].
  destruct ls as [|last ls _] using rev_ind; [simpl in Hn; lia|].
  apply Forall_app in Hls as [Hls [Hlast _]%Forall_cons]. rewrite length_app in *. simpl in *.
  rewrite (proj2 (Nat.leb_le _ _)) by (unfold O_OL_CNT_MAX; lia). apply gives_bind_ret.
  draw r3 Hr3. eapply (gives_bind (λ lines, ∃ l', (line_ok W mode w_id l' ∨ ∃ l, line_ok W mode w_id l ∧ l' = set_i_id 0 l) ∧
    lines = ls ++ [l'] ++ replicate (O_OL_CNT_MAX - S (length ls)) (NoOrderLine 0 0 0))).
  - replace (length ls + 1)%nat with (S (length ls)) by lia. apply gives_if; intros _.
    + draw k ->. assert (Z.to_nat (r2 + 6 - 1) = length ls) as Ek by lia.
      eapply gives_bind; [apply gives_arr_get; rewrite !length_app; simpl; lia|].
      intros l Hl. rewrite Ek, <- app_assoc in Hl. simpl in Hl. rewrite list_lookup_middle in Hl by done. injection Hl as <-.
      rewrite arr_set_ok by (rewrite !length_app; simpl; lia). apply gives_ret.
      eexists. split; [right; by exists last|]. rewrite Ek, <- app_assoc. by rewrite insert_app_r_alt, Nat.sub_diag by lia.
    + apply gives_ret. exists last. split; [by left|]. by rewrite <- app_assoc.
  - intros lines (l' & Hl' & ->). apply gives_ret. split_and!; simpl; try bounds.
    exists ls, l'. split_and!; auto. lia.
Qed.

Lemma remote_c_w_id_gives :
  gives (λ cw, if decide (1 < W) then 1 ≤ cw < W ∧ (cw = w_id → w_id = 1) else cw = 1) (remote_c_w_id W w_id).
Proof.
  unfold remote_c_w_id. apply gives_if; intros H1; destruct (decide (1 < W)); try lia.
  - draw m ->. draw r Hr. draw w ->.
    eapply (gives_bind (λ w, (1 ≤ w < W ∧ w ≠ w_id) ∨ w = 0)).
    + apply gives_if; intros Hc; [|apply gives_ret; lia].
      draw w1 ->. rewrite int_rem_pos by bounds. apply gives_ret.
      destruct (decide (r + 1 + 1 = W)) as [<-|]; [right; apply Z_mod_same_full|].
      rewrite Z.mod_small by lia. lia.
    + intros w Hw. apply gives_ret. destruct (Z.eqb_spec w 0); lia.
  - by apply gives_ret.
Qed.

Lemma generate_payment_data_gives : gives (payment_ok W mode w_id) (generate_payment_data W mode w_id).
Proof.
  unfold generate_payment_data. draw r Hr. draw d ->.
  eapply gives_bind; [apply generate_customer_gives|cbv beta]. intros c Hc.
  eapply (gives_bind (λ b : bool, b = false → mode ≠ 1)).
  { apply gives_if; intros Hm; [by apply gives_ret|]. draw r2 Hr2. apply gives_ret. lia. }
  intros b Hb. eapply (gives_bind (λ cd, customer_place_ok W mode w_id (r + 1) cd.1 cd.2)).
  { destruct b; [by apply gives_ret; left|]. specialize (Hb eq_refl).
    draw r2 Hr2. draw d2 ->. eapply gives_bind; [apply remote_c_w_id_gives|cbv beta]. intros w Hw.
    apply gives_ret. right. split_and!; simpl; bounds || done. }
  intros cd Hcd. draw r3 Hr3. draw h ->. apply gives_ret. split_and!; simpl; try (bounds || (by destruct c) || done).
  exists (r3 + 100). split; [lia|done].
Qed.

Lemma generate_order_status_data_gives : gives (order_status_ok w_id) (generate_order_status_data w_id).
Proof.
  unfold generate_order_status_data. draw r Hr. draw d ->.
  eapply gives_bind; [apply generate_customer_gives|cbv beta]. intros c Hc. apply gives_ret.
  split_and!; simpl; bounds || (by destruct c) || done.
Qed.
Lemma generate_delivery_data_gives : gives (delivery_ok w_id) (generate_delivery_data w_id).
Proof. unfold generate_delivery_data. draw r Hr. draw c ->. apply gives_ret. split; simpl; bounds || done. Qed.
Lemma generate_stock_level_data_gives d_id :
  gives (stock_level_ok w_id d_id) (generate_stock_level_data w_id d_id).
Proof. unfold generate_stock_level_data. draw r Hr. draw c ->. apply gives_ret. split_and!; simpl; bounds || done. Qed.

Lemma generate_input_data_gives type : gives (input_ok W mode w_id type) (generate_input_data W mode type w_id).
Proof.
  unfold generate_input_data. repeat (apply gives_if; intros ?).
  - eapply gives_bind; [apply generate_delivery_data_gives|cbv beta]. intros d Hd. apply gives_ret. split_and!; simpl; bounds || done.
  - eapply gives_bind; [apply generate_new_order_data_gives|cbv beta]. intros d Hd. apply gives_ret. split_and!; simpl; bounds || done.
  - eapply gives_bind; [apply generate_order_status_data_gives|cbv beta]. intros d Hd. apply gives_ret. split_and!; simpl; bounds || done.
  - eapply gives_bind; [apply generate_payment_data_gives|cbv beta]. intros d Hd. apply gives_ret. split_and!; simpl; bounds || done.
  - eapply gives_bind; [by apply (gives_ret (λ d, in_w_id d = w_id))|cbv beta]. intros d Hd.
    apply gives_ret. split_and!; simpl; bounds || done.
  - apply gives_ret. split; [|done]. rewrite !not_elem_of_cons. split_and!; try lia. apply not_elem_of_nil.
Qed.
End warehouses.
End correct.

(** ** Theorems *)

Section theorems.
Context {Rs : RandSource}.

(** Every string has the length asked for, of the characters before the last one of a
    table whose last index is excluded: [get_l_string] never makes a z. *)
Lemma get_string_gives table max x y :
  0 < max ≤ Z.of_nat (length table) → 0 < max ≤ INT_MAX → 0 ≤ x ≤ y → y < INT_MAX →
  gives (λ s, x ≤ Z.of_nat (length s) ≤ y ∧ Forall (.∈ take (Z.to_nat max) table) s) (get_string table max x y).
Proof.
  intros Ht Hm Hx Hy. unfold get_string. draw d ->. draw d' ->. draw r Hr. draw l ->. draw l' ->.
  assert (∀ k, gives (λ s, length s = k ∧ Forall (.∈ take (Z.to_nat max) table) s) (random_chars table max k)) as H.
  { induction k as [|k IH]; simpl; [by apply gives_ret|]. draw i Hi.
    eapply gives_bind; [apply gives_arr_get; lia|cbv beta]. intros c Hc.
    eapply gives_bind; [apply IH|cbv beta]. intros cs [<- Hcs]. apply gives_ret. split; [done|]. constructor; [|done].
    apply list_elem_of_lookup. exists (Z.to_nat i). by rewrite lookup_take_lt by lia. }
  eapply gives_weaken; [apply H|cbv beta]. intros s [Hs ?]. split; [lia|done].
Qed.
Lemma l_string_without_z x y :
  0 ≤ x ≤ y → y < INT_MAX → gives (λ s, x ≤ Z.of_nat (length s) ≤ y ∧ 122 ∉ s) (get_l_string x y).
Proof.
  intros Hx Hy. eapply gives_weaken; [apply (get_string_gives l_string_char); [by vm_compute|by vm_compute|lia|bounds]|cbv beta].
  intros s [Hl Hs]. split; [done|]. intros Hz. rewrite Forall_forall in Hs. apply Hs in Hz.
  revert Hz. apply (bool_decide_unpack (122 ∉ take 51 l_string_char)). by vm_compute.
Qed.


(** C37: A remote line of a new order is drawn from the warehouses and then moved past the
    home warehouse, as if one less had been drawn: the last draw asks for warehouse
    W + 1, which does not exist.  A remote payment never is for the last warehouse, which
    wraps around to 1; at warehouse 1 it is then for the home warehouse. *)
Theorem remote_warehouses (W mode_altered w_id n : Z) :
  1 < W < INT_MAX → 1 ≤ w_id ≤ W → mode_altered ≠ 1 →
  let k := rand_value (n + 1) mod W + 1 in
  (rand_value n mod 100 = 0 →
   supply_w_id W mode_altered w_id n = (Done (if k <? w_id then k else k + 1), n + 2) ∧
   (k = W → supply_w_id W mode_altered w_id n = (Done (W + 1), n + 2))) ∧
  let j := rand_value n mod (W - 1) + 1 in
  remote_c_w_id W w_id n = (Done (if j <? w_id then j else if j =? W - 1 then 1 else j + 1), n + 1) ∧
  (j = W - 1 → w_id = 1 → remote_c_w_id W w_id n = (Done w_id, n + 1)).
Proof.
  intros HW Hw Hm. cbv zeta.
  assert (∀ m i, 0 < m ≤ INT_MAX → 0 ≤ rand_value i mod m < m) as Hr by (intros; apply Z.mod_pos_bound; lia).
  pose proof (Hr W (n + 1) ltac:(bounds)). pose proof (Hr (W - 1) n ltac:(bounds)).
  assert (rand_value n mod 100 = 0 → supply_w_id W mode_altered w_id n =
    (Done (if rand_value (n + 1) mod W + 1 <? w_id then rand_value (n + 1) mod W + 1 else rand_value (n + 1) mod W + 1 + 1), n + 2)) as H1.
  { intros Hz. unfold supply_w_id. rewrite (proj2 (Z.ltb_lt 1 W)), (proj2 (Z.eqb_neq mode_altered 1)) by lia.
    erewrite bind_done; [|by erewrite bind_done by (apply get_random_run; bounds)]. rewrite Hz. simpl.
    erewrite bind_done by (apply get_random_run; bounds). unfold int_add. rewrite int_of_ok, bind_ret by bounds.
    replace (n + 1 + 1) with (n + 2) by lia.
    destruct (Z.leb_spec w_id (rand_value (n + 1) mod W + 1)), (Z.ltb_spec (rand_value (n + 1) mod W + 1) w_id); try lia; [|done].
    by rewrite int_of_ok by bounds. }
  assert (remote_c_w_id W w_id n = (Done (if rand_value n mod (W - 1) + 1 <? w_id then rand_value n mod (W - 1) + 1
    else if rand_value n mod (W - 1) + 1 =? W - 1 then 1 else rand_value n mod (W - 1) + 1 + 1), n + 1)) as H2.
  { unfold remote_c_w_id, int_sub, int_add. rewrite (proj2 (Z.ltb_lt 1 W)) by lia. rewrite int_of_ok, bind_ret by bounds.
    erewrite bind_done by (apply get_random_run; bounds). rewrite int_of_ok, bind_ret by bounds.
    destruct (Z.leb_spec w_id (rand_value n mod (W - 1) + 1)), (Z.ltb_spec (rand_value n mod (W - 1) + 1) w_id); try lia.
    - rewrite int_of_ok by bounds. destruct (Z.eqb_spec (rand_value n mod (W - 1) + 1) (W - 1)) as [->|].
      + replace (W - 1 + 1) with W by lia. erewrite bind_done; [|by rewrite bind_ret, int_rem_pos by bounds].
        by rewrite Z_mod_same_full.
      + erewrite bind_done; [|by rewrite bind_ret, int_rem_pos by bounds]. rewrite Z.mod_small by lia.
        by rewrite (proj2 (Z.eqb_neq _ 0)) by lia.
    - rewrite bind_ret. by rewrite (proj2 (Z.eqb_neq _ 0)) by lia. }
  split; [|split; [exact H2|]].
  - intros Hz. split; [by apply H1|]. intros Hk. rewrite H1, Hk by done. by rewrite (proj2 (Z.ltb_ge _ _)) by lia.
  - intros Hj ->. rewrite H2, Hj, Z.eqb_refl. by rewrite (proj2 (Z.ltb_ge _ _)) by lia.
Qed.
End theorems.

(** ** Witnesses *)

(** A generator that returns to 100 after each 199. *)
Definition some_rand : RandSource := λ n, 100 + n mod 100.


Lemma remote_warehouses_witness :
  supply_w_id (Rs := some_rand) 102 0 7 0 = (Done 103, 2).
Proof.
  apply (remote_warehouses (Rs := some_rand) 102 0 7 0); [bounds|lia|done|done|done].
Defined.
