(* ===== verification/Dbt2Driver.v ===== *)
(** * dbt2: the driver (driver.c, driver.h; [get_think_time] of common.c)

    The mix of the transactions and starting the terminals: the array [g_tid] with one
    row of thread ids per warehouse is memory of the size asked from [malloc].  Whether
    the thread functions succeed is the class [Pthreads]; the id of a thread is the
    number of threads created before it.  The loop of a terminal is in Dbt2Terminals.
    Messages and the sleeps between the starts are left out. *)
From Stdlib Require Import ZArith Lia SpecFloat.
From stdpp Require Import base numbers list.
From S2P Require Import Prelude CFloat SysbenchPercentile.
From S2P Require Import Dbt2Queue Dbt2Socket Dbt2Input.

(** ** The mix *)

Record transaction_mix_t := TransactionMix {
  delivery_actual : float64; new_order_actual : float64; payment_actual : float64;
  order_status_actual : float64; stock_level_actual : float64;
  delivery_threshold : float64; new_order_threshold : float64; payment_threshold : float64;
  order_status_threshold : float64; stock_level_threshold : float64
}.
Record times_t := Times { tm_delivery : Z; tm_new_order : Z; tm_order_status : Z; tm_payment : Z; tm_stock_level : Z }.

Definition f64_zero : float64 := f64_of_Z 0.
Definition f64_one : float64 := f64_of_Z 1.
Definition hundredth (n : Z) : float64 := f64_div (f64_of_Z n) (f64_of_Z 100).

(** What [init_driver] leaves; the fields it does not set are static zeros.  The keying times, which
    are only slept, are left out. *)
Definition init_mix : transaction_mix_t :=
  TransactionMix (hundredth 4) f64_zero (hundredth 43) (hundredth 4) (hundredth 4)
    f64_zero f64_zero f64_zero f64_zero f64_zero.
Definition think_time : times_t := Times 5000 12000 10000 12000 5000.

Definition set_transaction_mix (transaction : Z) (mix : float64) (m : transaction_mix_t) : Z * transaction_mix_t :=
  let 'TransactionMix d n p o s td tn tp to ts := m in
  if transaction =? DELIVERY then (OK, TransactionMix mix n p o s td tn tp to ts)
  else if transaction =? NEW_ORDER then (OK, TransactionMix d mix p o s td tn tp to ts)
  else if transaction =? ORDER_STATUS then (OK, TransactionMix d n p mix s td tn tp to ts)
  else if transaction =? PAYMENT then (OK, TransactionMix d n mix o s td tn tp to ts)
  else if transaction =? STOCK_LEVEL then (OK, TransactionMix d n p o mix td tn tp to ts)
  else (ERROR, m).

Definition recalculate_mix (m : transaction_mix_t) : Z * transaction_mix_t :=
  let 'TransactionMix d _ p o s td tn tp to ts := m in
  let n := f64_sub f64_one (f64_add (f64_add (f64_add d o) p) s) in
  if f_lt n f64_zero then (ERROR, TransactionMix d n p o s td tn tp to ts)
  else
    let tn := n in
    let tp := f64_add tn p in
    let to := f64_add tp o in
    let td := f64_add to d in
    (OK, TransactionMix d n p o s td tn tp to (f64_add td s)).

(** [x != 0] *)
Definition f_nonzero (x : float64) : bool := negb (SFeqb x f64_zero).

(** The transaction a terminal executes next. *)
Definition choose_transaction (m : transaction_mix_t) (threshold : float64) : Z :=
  if f_lt threshold (new_order_threshold m) then NEW_ORDER
  else if f_nonzero (payment_actual m) && f_lt threshold (payment_threshold m) then PAYMENT
  else if f_nonzero (order_status_actual m) && f_lt threshold (order_status_threshold m) then ORDER_STATUS
  else if f_nonzero (delivery_actual m) && f_lt threshold (delivery_threshold m) then DELIVERY
  else STOCK_LEVEL.
Definition mean_time (t : times_t) (transaction : Z) : Z :=
  if transaction =? NEW_ORDER then tm_new_order t
  else if transaction =? PAYMENT then tm_payment t
  else if transaction =? ORDER_STATUS then tm_order_status t
  else if transaction =? DELIVERY then tm_delivery t
  else tm_stock_level t.

Definition get_think_time `{RandSource, Libm} (mean_think_time : Z) : iprog Z :=
  p ← get_percentage;
  f_to_int (f64_mul (f64_mul (f64_of_Z (-1)) (c_log (f64_add p (f64_div f64_one (f64_of_Z 1000000)))))
              (f64_of_Z mean_think_time)).

(** ** Starting the terminals *)

Record threads := Driver {
  g_tid : list (option (list (option Z)));
  terminals : list (Z * Z);      (* w_id and d_id of the threads, by thread id *)
  joined : list Z
}.
Definition set_g_tid (t : list (option (list (option Z)))) (s : threads) : threads := Driver t (terminals s) (joined s).

(** The results of the functions for the thread with this number. *)
Class Pthreads := {
  pthread_attr_init : Z → Z;
  pthread_attr_setstacksize : Z → Z;
  pthread_create : Z → Z;
  pthread_join : Z → Z
}.

(** How a loop body ends: with the next turn, [break] or [return]. *)
Inductive ctl := Next | Break | Return (rc : Z).

Section start.
Context {Pt : Pthreads}.
Context (w_id_min w_id_max terminals_per_warehouse spread mode_altered : Z).

Abbreviation dprog := (prog fault threads).

(** [for (i = w_id_min; i < w_id_max + 1; i += spread)], with the value of a [return]. *)
Fixpoint for_warehouses (fuel : nat) (body : Z → dprog ctl) (i : Z) : dprog (option Z) :=
  match fuel with
  | O => leave OutOfFuel
  | S fuel =>
      e ← int_add w_id_max 1;
      if i <? e then
        c ← body i;
        match c with
        | Next => i' ← int_add i spread; for_warehouses fuel body i'
        | Break => mret None
        | Return rc => mret (Some rc)
        end
      else mret None
  end.
(** [for (j = ...; j < terminals_per_warehouse; j++)], [n] turns from [j] on. *)
Fixpoint for_terminals (n : nat) (body : Z → dprog ctl) (j : Z) : dprog (option Z) :=
  match n with
  | O => mret None
  | S n =>
      c ← body j;
      match c with
      | Next => for_terminals n body (j + 1)
      | Break => mret None
      | Return rc => mret (Some rc)
      end
  end.

(** The array has [sizeof(pthread_t * ) * (w_id_max + 1) / spread] bytes, 8 for each row. *)
Definition alloc_g_tid : dprog unit :=
  e ← int_add w_id_max 1;
  if u64 spread =? 0 then leave (undefined DivByZero)
  else modS (set_g_tid (replicate (Z.to_nat (u64 (8 * u64 e) / u64 spread / 8)) None)).
Definition alloc_row (i : Z) : dprog ctl :=
  t ← readS g_tid;
  t ← arr_set t i (Some (replicate (Z.to_nat terminals_per_warehouse) None));
  modS (set_g_tid t);; mret Next.
Definition get_row (i : Z) : dprog (list (option Z)) :=
  t ← readS g_tid;
  slot_get t i.

Definition create_terminal (j i : Z) : dprog ctl :=
  ts ← readS terminals;
  let n := Z.of_nat (length ts) in
  d ← int_add j 1;
  if negb (pthread_attr_init n =? 0) then mret (Return ERROR)
  else if negb (pthread_attr_setstacksize n =? 0) then mret (Return ERROR)
  else
    row ← get_row i;
    if negb (pthread_create n =? 0) then mret (Return ERROR)
    else
      row ← arr_set row j (Some n);
      t ← readS g_tid;
      t ← arr_set t i (Some row);
      modS (λ s, Driver t (terminals s ++ [(i, d)]) (joined s));; mret Next.
Definition create_row (fuel : nat) (j : Z) : dprog ctl :=
  r ← for_warehouses fuel (create_terminal j) w_id_min;
  match r with
  | Some rc => mret (Return rc)
  | None => mret (if mode_altered =? 1 then Break else Next)
  end.

Definition join_terminal (i j : Z) : dprog ctl :=
  row ← get_row i;
  tid ← slot_get row j;
  if negb (pthread_join tid =? 0) then mret (Return ERROR)
  else modS (λ s, Driver (g_tid s) (terminals s) (joined s ++ [tid]));; mret Next.
Definition join_warehouse (i : Z) : dprog ctl :=
  r ← for_terminals (Z.to_nat terminals_per_warehouse) (join_terminal i) 0;
  match r with
  | Some rc => mret (Return rc)
  | None => mret (if mode_altered =? 1 then Break else Next)
  end.

(** The time at which the terminals stop, with [now] from [time(NULL)]. *)
Definition stop_time_of (client_conn_sleep duration now : Z) : dprog Z :=
  d ← int_sub w_id_max w_id_min;
  start ← f_to_int (f64_mul (f64_mul (f64_div (f64_of_Z client_conn_sleep) (f64_of_Z 1000))
                      (f64_of_Z terminals_per_warehouse)) (f64_of_Z d));
  mret (s32 (now + duration + start)).

Definition start_driver (fuel : nat) (client_conn_sleep duration now : Z) : dprog Z :=
  stop_time_of client_conn_sleep duration now;;
  alloc_g_tid;;
  for_warehouses fuel alloc_row w_id_min;;
  r ← for_terminals (Z.to_nat terminals_per_warehouse) (create_row fuel) 0;
  match r with
  | Some rc => mret rc
  | None =>
      r ← for_warehouses fuel join_warehouse w_id_min;
      match r with
      | Some rc => mret rc
      | None => mret OK
      end
  end.
End start.

(** ** One terminal for every warehouse and district *)

Section grid.
Context {Pt : Pthreads}.
Context (w_id_min w_id_max T mode_altered : Z).
Context (Hmin : 0 ≤ w_id_min) (Hmax : w_id_min ≤ w_id_max < INT_MAX) (HT : 0 ≤ T < INT_MAX).

Abbreviation W := (w_id_max + 1 - w_id_min).

(** Thread [k] is terminal [k / W + 1] of warehouse [w_id_min + k mod W]. *)
Definition context (k : Z) : Z * Z := (w_id_min + k mod W, k / W + 1).
Definition thread (i j : Z) : Z := j * W + (i - w_id_min).
Definition g_cell (N i j : Z) : option Z := if thread i j <? N then Some (thread i j) else None.

(** The first [N] terminals are started, and [J] threads joined. *)
Record created (N : Z) (J : list Z) (s : threads) : Prop := {
  cr_rows : Z.of_nat (length (g_tid s)) = w_id_max + 1;
  cr_row : ∀ i, w_id_min ≤ i ≤ w_id_max → g_tid s !! Z.to_nat i = Some (Some (map (g_cell N i) (seqZ 0 T)));
  cr_terminals : terminals s = map context (seqZ 0 N);
  cr_joined : joined s = J
}.

Lemma thread_inj i j i' j' :
  w_id_min ≤ i ≤ w_id_max → w_id_min ≤ i' ≤ w_id_max → thread i j = thread i' j' → i = i' ∧ j = j'.
Proof. unfold thread. intros Hi Hi' E. assert (j = j') by nia. subst. lia. Qed.
Lemma thread_context i j : w_id_min ≤ i ≤ w_id_max → context (thread i j) = (i, j + 1).
Proof.
  intros Hi. unfold context, thread. rewrite (Z.add_comm (j * W)), Z.mod_add, Z.div_add by lia.
  rewrite Z.mod_small, Z.div_small by lia. f_equal; lia.
Qed.
Lemma lookup_map_seqZ {A} (f : Z → A) n j : 0 ≤ j < n → map f (seqZ 0 n) !! Z.to_nat j = Some (f j).
Proof.
  intros Hj. rewrite list_lookup_fmap, lookup_seqZ_lt by lia. by rewrite Z2Nat.id by lia.
Qed.

Lemma row_created i j :
  w_id_min ≤ i ≤ w_id_max → 0 ≤ j < T →
  <[Z.to_nat j := Some (thread i j)]> (map (g_cell (thread i j) i) (seqZ 0 T)) = map (g_cell (thread i j + 1) i) (seqZ 0 T).
Proof.
  intros Hi Hj. apply list_eq. intros k. destruct (decide (k < Z.to_nat T)%nat) as [Hk|Hk].
  - replace k with (Z.to_nat (Z.of_nat k)) by lia. rewrite lookup_map_seqZ by lia.
    destruct (decide (k = Z.to_nat j)) as [->|Hn].
    + rewrite Nat2Z.id, list_lookup_insert_eq by (rewrite length_map, length_seqZ; lia).
      f_equal. unfold g_cell. rewrite Z2Nat.id by lia. by rewrite (proj2 (Z.ltb_lt _ _)) by lia.
    + rewrite list_lookup_insert_ne by lia. rewrite lookup_map_seqZ by lia. f_equal. unfold g_cell.
      assert (thread i (Z.of_nat k) ≠ thread i j) by (intros [_ ?]%thread_inj; lia).
      destruct (Z.ltb_spec (thread i (Z.of_nat k)) (thread i j)), (Z.ltb_spec (thread i (Z.of_nat k)) (thread i j + 1)); lia || done.
  - rewrite !lookup_ge_None_2; [done|..]; rewrite ?length_insert, length_map, length_seqZ; lia.
Qed.
Lemma row_other i j i' :
  w_id_min ≤ i ≤ w_id_max → w_id_min ≤ i' ≤ w_id_max → i' ≠ i →
  map (g_cell (thread i j) i') (seqZ 0 T) = map (g_cell (thread i j + 1) i') (seqZ 0 T).
Proof.
  intros Hi Hi' Hn. apply list_fmap_ext. intros _ k _. unfold g_cell.
  assert (thread i' k ≠ thread i j) by (intros [? _]%thread_inj; lia).
  destruct (Z.ltb_spec (thread i' k) (thread i j)), (Z.ltb_spec (thread i' k) (thread i j + 1)); lia || done.
Qed.

(** A loop over the warehouses whose every turn goes on. *)
Lemma for_warehouses_triple (I : Z → threads → Prop) E body fuel i :
  (∀ i, w_id_min ≤ i ≤ w_id_max → triple (I i) (body i) (λ c s, c = Next ∧ I (i + 1) s) E) →
  w_id_min ≤ i ≤ w_id_max + 1 → w_id_max + 1 - i < Z.of_nat fuel →
  triple (I i) (for_warehouses w_id_max 1 fuel body i) (λ r s, r = None ∧ I (w_id_max + 1) s) E.
Proof.
  intros Hb. revert i. induction fuel as [|fuel IH]; intros i Hi Hf; [lia|]. simpl.
  unfold int_add. rewrite (int_of_ok (w_id_max + 1)) by bounds. apply triple_bind_ret.
  destruct (Z.ltb_spec i (w_id_max + 1)) as [Hl|Hl].
  - eapply triple_bind; [apply Hb; lia|]. intros c. apply triple_pure. intros ->.
    rewrite int_of_ok by bounds. apply triple_bind_ret. apply IH; lia.
  - replace i with (w_id_max + 1) by lia. intros s Hs. done.
Qed.
Lemma for_terminals_triple (I : Z → threads → Prop) E body n j :
  (∀ k, j ≤ k < j + Z.of_nat n → triple (I k) (body k) (λ c s, c = Next ∧ I (k + 1) s) E) →
  triple (I j) (for_terminals n body j) (λ r s, r = None ∧ I (j + Z.of_nat n) s) E.
Proof.
  revert j. induction n as [|n IH]; intros j Hb; simpl; [rewrite Z.add_0_r; by intros s Hs|].
  eapply triple_bind; [apply Hb; lia|]. intros c. apply triple_pure. intros ->.
  replace (j + Z.of_nat (S n)) with (j + 1 + Z.of_nat n) by lia. apply IH. intros k Hk. apply Hb. lia.
Qed.

(** *** Every function of the threads succeeds *)
Context (Hinit : ∀ n, pthread_attr_init n = 0) (Hstack : ∀ n, pthread_attr_setstacksize n = 0)
  (Hcreate : ∀ n, pthread_create n = 0) (Hjoin : ∀ n, pthread_join n = 0).

Definition never (f : fault) (s : threads) : Prop := False.

Lemma get_row_run N J i s :
  created N J s → w_id_min ≤ i ≤ w_id_max → get_row i s = (Done (map (g_cell N i) (seqZ 0 T)), s).
Proof.
  intros Hc Hi. unfold get_row. erewrite bind_done by reflexivity.
  by rewrite (slot_get_ok _ i _ ltac:(lia) (cr_row _ _ _ Hc i Hi)).
Qed.

Lemma create_terminal_triple J i j :
  w_id_min ≤ i ≤ w_id_max → 0 ≤ j < T →
  triple (created (thread i j) J) (create_terminal j i) (λ c s, c = Next ∧ created (thread i j + 1) J s) never.
Proof.
  intros Hi Hj s Hc. unfold create_terminal. erewrite bind_done by reflexivity. cbv zeta.
  assert (Z.of_nat (length (terminals s)) = thread i j) as Hn.
  { rewrite (cr_terminals _ _ _ Hc), length_map, length_seqZ. unfold thread. nia. }
  unfold int_add. rewrite int_of_ok, bind_ret by bounds. rewrite Hinit, Hstack. simpl.
  rewrite (bind_done _ _ _ _ _ (get_row_run _ _ _ _ Hc Hi)). rewrite Hcreate, Hn. simpl.
  rewrite arr_set_ok, bind_ret by (rewrite length_map, length_seqZ; lia).
  erewrite bind_done by reflexivity.
  rewrite arr_set_ok, bind_ret by (pose proof (cr_rows _ _ _ Hc); lia).
  erewrite bind_done by reflexivity. simpl. split; [done|]. split; simpl.
  - rewrite length_insert. apply Hc.
  - intros i' Hi'. destruct (decide (i' = i)) as [->|Hne].
    + rewrite list_lookup_insert_eq by (pose proof (cr_rows _ _ _ Hc); lia). by rewrite row_created.
    + rewrite list_lookup_insert_ne by lia. rewrite (cr_row _ _ _ Hc) by done. by rewrite (row_other i j i').
  - rewrite (cr_terminals _ _ _ Hc), seqZ_app, map_app by (unfold thread; nia). by rewrite <- (thread_context i j).
  - apply Hc.
Qed.

(** The rows up to warehouse [i] are allocated. *)
Record allocated (i : Z) (s : threads) : Prop := {
  al_rows : Z.of_nat (length (g_tid s)) = w_id_max + 1;
  al_row : ∀ k, w_id_min ≤ k < i → g_tid s !! Z.to_nat k = Some (Some (replicate (Z.to_nat T) None));
  al_terminals : terminals s = [];
  al_joined : joined s = []
}.
Lemma alloc_row_triple i :
  w_id_min ≤ i ≤ w_id_max → triple (allocated i) (alloc_row T i) (λ c s, c = Next ∧ allocated (i + 1) s) never.
Proof.
  intros Hi s Hs. unfold alloc_row. erewrite bind_done by reflexivity.
  rewrite arr_set_ok, bind_ret by (pose proof (al_rows _ _ Hs); lia). erewrite bind_done by reflexivity. simpl.
  split; [done|]. split; simpl; [rewrite length_insert; apply Hs| |apply Hs..].
  intros k Hk. destruct (decide (k = i)) as [->|].
  - apply list_lookup_insert_eq. pose proof (al_rows _ _ Hs). lia.
  - rewrite list_lookup_insert_ne by lia. apply Hs. lia.
Qed.
Lemma allocated_created s : allocated (w_id_max + 1) s → created 0 [] s.
Proof.
  intros Hs. split; [apply Hs| |apply Hs..]. intros i Hi. rewrite (al_row _ _ Hs) by lia. f_equal. f_equal.
  apply list_eq. intros k. destruct (decide (k < Z.to_nat T)%nat) as [Hk|Hk].
  - replace k with (Z.to_nat (Z.of_nat k)) by lia. rewrite lookup_map_seqZ, lookup_replicate_2 by lia.
    unfold g_cell. rewrite (proj2 (Z.ltb_ge _ _)); [done|]. unfold thread. nia.
  - rewrite !lookup_ge_None_2; [done|..]; rewrite ?length_replicate, ?length_map, ?length_seqZ; lia.
Qed.
Lemma alloc_g_tid_run : alloc_g_tid w_id_max 1 (Driver [] [] []) =
  (Done tt, Driver (replicate (Z.to_nat (w_id_max + 1)) None) [] []).
Proof.
  unfold alloc_g_tid, int_add. rewrite int_of_ok, bind_ret by bounds.
  assert (u64 (8 * u64 (w_id_max + 1)) / u64 1 / 8 = w_id_max + 1) as ->; [|done].
  unfold u64. rewrite (Z.mod_small (w_id_max + 1)), (Z.mod_small (8 * _)), (Z.mod_small 1) by bounds. by rewrite Z.div_1_r, (Z.mul_comm 8), Z.div_mul by lia.
Qed.

Section fuel.
Context (fuel : nat) (Hfuel : w_id_max + 1 - w_id_min < Z.of_nat fuel).

Lemma alloc_rows_triple :
  triple (λ s, s = Driver (replicate (Z.to_nat (w_id_max + 1)) None) [] []) (for_warehouses w_id_max 1 fuel (alloc_row T) w_id_min)
    (λ _ s, created 0 [] s) never.
Proof.
  refine (triple_conseq _ (allocated w_id_min) _ _ _ _ _ _ (for_warehouses_triple allocated never _ fuel _ alloc_row_triple _ _) _ (λ _ _ H, H));
    [|lia|lia|].
  - intros s ->. split; simpl; [rewrite length_replicate; lia|lia|done..].
  - intros r s [Hr Hs]. by apply allocated_created.
Qed.

Lemma create_row_triple j :
  0 ≤ j < T →
  triple (created (j * W) []) (create_row w_id_min w_id_max 1 mode_altered fuel j)
    (λ c s, c = (if mode_altered =? 1 then Break else Next) ∧ created ((j + 1) * W) [] s) never.
Proof.
  intros Hj. unfold create_row. eapply triple_bind with (R := λ r s, r = None ∧ created ((j + 1) * W) [] s).
  - replace (j * W) with (thread w_id_min j) by (unfold thread; lia).
    replace ((j + 1) * W) with (thread (w_id_max + 1) j) by (unfold thread; lia).
    apply (for_warehouses_triple (λ i, created (thread i j) [])); [|lia|lia].
    intros i Hi. replace (thread (i + 1) j) with (thread i j + 1) by (unfold thread; lia).
    by apply create_terminal_triple.
  - intros r. apply triple_pure. intros ->. by intros s Hs.
Qed.

End fuel.

(** The threads in the order of the joins: all terminals of a warehouse, then those of the next one. *)
Definition join_order (k : Z) : Z := thread (w_id_min + k / T) (k mod T).
Lemma join_terminal_triple i j :
  w_id_min ≤ i ≤ w_id_max → 0 ≤ j < T →
  triple (created (T * W) (map join_order (seqZ 0 ((i - w_id_min) * T + j)))) (join_terminal i j)
    (λ c s, c = Next ∧ created (T * W) (map join_order (seqZ 0 ((i - w_id_min) * T + (j + 1)))) s) never.
Proof.
  intros Hi Hj s Hs. unfold join_terminal. rewrite (bind_done _ _ _ _ _ (get_row_run _ _ _ _ Hs Hi)).
  assert (slot_get (F := fault) (S := threads) (map (g_cell (T * W) i) (seqZ 0 T)) j = mret (thread i j)) as Hg.
  { apply slot_get_ok; [lia|]. rewrite lookup_map_seqZ by lia. unfold g_cell.
    rewrite (proj2 (Z.ltb_lt _ _)); [done|]. unfold thread. nia. }
  rewrite Hg, bind_ret, Hjoin. simpl. split; [done|].
  split; simpl; [apply Hs..|]. rewrite (cr_joined _ _ _ Hs), Z.add_assoc, (seqZ_app 0 ((i - w_id_min) * T + j) 1) by nia.
  rewrite map_app. f_equal. simpl. f_equal. unfold join_order. rewrite !Z.add_0_l.
  rewrite (Z.add_comm _ j), Z.mod_add, Z.div_add by lia. rewrite Z.mod_small, Z.div_small by lia. f_equal. lia.
Qed.
Lemma join_warehouse_triple i :
  w_id_min ≤ i ≤ w_id_max →
  triple (created (T * W) (map join_order (seqZ 0 ((i - w_id_min) * T)))) (join_warehouse T mode_altered i)
    (λ c s, c = (if mode_altered =? 1 then Break else Next) ∧
            created (T * W) (map join_order (seqZ 0 ((i + 1 - w_id_min) * T))) s) never.
Proof.
  intros Hi. unfold join_warehouse.
  eapply triple_bind with (R := λ r s, r = None ∧ created (T * W) (map join_order (seqZ 0 ((i + 1 - w_id_min) * T))) s).
  - replace ((i - w_id_min) * T) with ((i - w_id_min) * T + 0) by lia.
    replace ((i + 1 - w_id_min) * T) with ((i - w_id_min) * T + (0 + Z.of_nat (Z.to_nat T))) by lia.
    apply (for_terminals_triple (λ j, created (T * W) (map join_order (seqZ 0 ((i - w_id_min) * T + j))))).
    intros j Hj. apply join_terminal_triple; lia.
  - intros r. apply triple_pure. intros ->. by intros s Hs.
Qed.
End grid.

Lemma join_order_permutation w_id_min w_id_max T :
  w_id_min ≤ w_id_max < INT_MAX → 0 ≤ T →
  map (join_order w_id_min w_id_max T) (seqZ 0 (T * (w_id_max + 1 - w_id_min))) ≡ₚ seqZ 0 (T * (w_id_max + 1 - w_id_min)).
Proof.
  intros Hw HT. set (W := w_id_max + 1 - w_id_min).
  assert (∀ k, 0 ≤ k < T * W → w_id_min ≤ w_id_min + k / T ≤ w_id_max ∧ 0 ≤ k mod T < T) as Hk.
  { intros k Hk. assert (0 < T) by nia. pose proof (Z.mod_pos_bound k T).
    assert (0 ≤ k / T < W) by (split; [apply Z.div_pos; lia|apply Z.div_lt_upper_bound; lia]). lia. }
  apply submseteq_length_Permutation; [|by rewrite length_map].
  apply NoDup_submseteq.
  - apply NoDup_fmap_2_strong; [|apply NoDup_seqZ]. intros a b Ha%elem_of_seqZ Hb%elem_of_seqZ E.
    apply thread_inj in E as [E1 E2]; [|lia|by apply Hk; lia..].
    rewrite (Z.div_mod a T), (Z.div_mod b T) by nia. lia.
  - intros x (k & -> & Hx%elem_of_seqZ)%list_elem_of_fmap. apply elem_of_seqZ.
    destruct (Hk k ltac:(lia)). unfold join_order, thread. fold W. nia.
Qed.

(** ** Theorems *)

Lemma triple_done {A} (P : threads → Prop) (m : prog fault threads A) (Q : A → threads → Prop) s :
  triple P m Q never → P s → ∃ a s', m s = (Done a, s') ∧ Q a s'.
Proof. intros H HP. specialize (H s HP). destruct (m s) as [[a|f] s']; [by exists a, s'|done]. Qed.

Lemma create_rows_triple {Pt : Pthreads} w_id_min w_id_max T mode_altered fuel :
  0 ≤ w_id_min → w_id_min ≤ w_id_max < INT_MAX → 0 ≤ T < INT_MAX → mode_altered ≠ 1 →
  (∀ n, pthread_attr_init n = 0) → (∀ n, pthread_attr_setstacksize n = 0) → (∀ n, pthread_create n = 0) →
  w_id_max + 1 - w_id_min < Z.of_nat fuel →
  triple (created w_id_min w_id_max T 0 [])
    (for_terminals (Z.to_nat T) (create_row w_id_min w_id_max 1 mode_altered fuel) 0)
    (λ r s, r = None ∧ created w_id_min w_id_max T (T * (w_id_max + 1 - w_id_min)) [] s) never.
Proof.
  intros Hmin Hmax HT Hm Hi Hs Hc Hf.
  pose proof (for_terminals_triple (λ j, created w_id_min w_id_max T (j * (w_id_max + 1 - w_id_min)) []) never
    (create_row w_id_min w_id_max 1 mode_altered fuel) (Z.to_nat T) 0) as H.
  cbv beta in H. rewrite Z.mul_0_l, Z.add_0_l, Z2Nat.id in H by lia. apply H. intros k Hk.
  pose proof (create_row_triple w_id_min w_id_max T mode_altered Hmin Hmax HT Hi Hs Hc fuel Hf k ltac:(lia)) as Hr.
  by rewrite (proj2 (Z.eqb_neq mode_altered 1)) in Hr.
Qed.
Lemma join_all_triple {Pt : Pthreads} w_id_min w_id_max T mode_altered fuel :
  0 ≤ w_id_min → w_id_min ≤ w_id_max < INT_MAX → 0 ≤ T < INT_MAX → mode_altered ≠ 1 →
  (∀ n, pthread_join n = 0) → w_id_max + 1 - w_id_min < Z.of_nat fuel →
  let N := T * (w_id_max + 1 - w_id_min) in
  triple (created w_id_min w_id_max T N [])
    (for_warehouses w_id_max 1 fuel (join_warehouse T mode_altered) w_id_min)
    (λ r s, r = None ∧ created w_id_min w_id_max T N (map (join_order w_id_min w_id_max T) (seqZ 0 N)) s) never.
Proof.
  intros Hmin Hmax HT Hm Hj Hf N.
  pose proof (for_warehouses_triple w_id_min w_id_max Hmin Hmax (λ i, created w_id_min w_id_max T N
    (map (join_order w_id_min w_id_max T) (seqZ 0 ((i - w_id_min) * T)))) never (join_warehouse T mode_altered) fuel w_id_min) as H.
  cbv beta in H. replace ((w_id_min - w_id_min) * T) with 0 in H by lia.
  replace ((w_id_max + 1 - w_id_min) * T) with N in H by (unfold N; lia). apply H; [|lia|lia].
  intros i Hi. pose proof (join_warehouse_triple w_id_min w_id_max T mode_altered Hmin Hmax HT Hj i Hi) as Hr.
  by rewrite (proj2 (Z.eqb_neq mode_altered 1)) in Hr.
Qed.


Lemma rows_overflow {Pt : Pthreads} w_id_max T spread c (k : nat) :
  0 < spread → w_id_max + spread ≤ INT_MAX →
  ∀ fuel i s, Z.of_nat (length (g_tid s)) = c → 0 ≤ i → c ≤ i + Z.of_nat k * spread ≤ w_id_max → (k < fuel)%nat →
  ∃ s', for_warehouses w_id_max spread fuel (alloc_row T) i s = (Leave (Undefined OutOfBounds), s').
Proof.
  intros Hs Hm. induction k as [|k IH]; intros fuel i s Hc Hi Hk Hf; (destruct fuel as [|fuel]; [lia|]); simpl;
    unfold int_add; rewrite (int_of_ok (w_id_max + 1)), bind_ret by bounds;
    rewrite (proj2 (Z.ltb_lt i _)) by nia.
  - exists s. apply bind_leave. unfold alloc_row. erewrite bind_done by reflexivity. apply bind_leave.
    unfold arr_set. by rewrite (proj2 (Z.ltb_ge i _)), andb_false_r by lia.
  - destruct (decide (c ≤ i)) as [Hci|Hci].
    + exists s. apply bind_leave. unfold alloc_row. erewrite bind_done by reflexivity. apply bind_leave.
      unfold arr_set. by rewrite (proj2 (Z.ltb_ge i _)), andb_false_r by lia.
    + erewrite bind_done.
      2: { unfold alloc_row. erewrite bind_done by reflexivity. rewrite arr_set_ok, bind_ret by lia.
           erewrite bind_done by reflexivity. reflexivity. }
      rewrite int_of_ok, bind_ret by bounds. apply IH; [simpl; rewrite length_insert; lia|lia|nia|lia].
Qed.

(** C36: With the option for a spread of warehouses, the array of rows is allocated for every
    [spread]-th warehouse but indexed by the number of the warehouse: with two or more
    warehouses more than the spread the driver writes outside of it. *)
Theorem spread_overflows {Pt : Pthreads}
    (w_id_min w_id_max T spread mode_altered client_conn_sleep duration now start : Z) (fuel : nat) :
  0 ≤ w_id_min ≤ w_id_max → w_id_max + spread ≤ INT_MAX → 2 ≤ spread → spread + 2 ≤ w_id_max + 1 →
  w_id_max + 1 - w_id_min < Z.of_nat fuel →
  stop_time_of w_id_min w_id_max T client_conn_sleep duration now (Driver [] [] []) = (Done start, Driver [] [] []) →
  ∃ s, start_driver w_id_min w_id_max T spread mode_altered fuel client_conn_sleep duration now (Driver [] [] []) =
    (Leave (Undefined OutOfBounds), s).
Proof.
  intros Hmin Hmax Hs Hn Hf Hstop. unfold start_driver. rewrite (bind_done _ _ _ _ _ Hstop).
  set (c := (w_id_max + 1) / spread).
  assert (alloc_g_tid w_id_max spread (Driver [] [] []) = (Done tt, Driver (replicate (Z.to_nat c) None) [] [])) as Ha.
  { unfold alloc_g_tid, int_add. rewrite int_of_ok, bind_ret by bounds.
    assert (u64 spread = spread) as -> by (unfold u64; apply Z.mod_small; bounds).
    rewrite (proj2 (Z.eqb_neq spread 0)) by lia.
    assert (u64 (8 * u64 (w_id_max + 1)) / spread / 8 = c) as ->; [|done].
    unfold u64. rewrite (Z.mod_small (w_id_max + 1)), (Z.mod_small (8 * _)) by bounds.
    rewrite Z.div_div, (Z.mul_comm spread 8), Z.div_mul_cancel_l by lia. done. }
  rewrite (bind_done _ _ _ _ _ Ha).
  assert (0 ≤ c ≤ w_id_max + 1 - spread) as Hc.
  { split; [apply Z.div_pos; lia|]. apply Z.div_le_upper_bound; nia. }
  pose proof (Z.div_mod (w_id_max - w_id_min) spread ltac:(lia)). pose proof (Z.mod_pos_bound (w_id_max - w_id_min) spread).
  assert (0 ≤ (w_id_max - w_id_min) / spread) by (apply Z.div_pos; lia).
  assert ((w_id_max - w_id_min) / spread ≤ w_id_max - w_id_min) by (apply Z.div_le_upper_bound; nia).
  destruct (rows_overflow w_id_max T spread c (Z.to_nat ((w_id_max - w_id_min) / spread)) ltac:(lia) ltac:(lia)
    fuel w_id_min (Driver (replicate (Z.to_nat c) None) [] [])) as (s & E); [simpl; rewrite length_replicate; lia|lia|lia|lia|].
  exists s. by apply bind_leave.
Qed.

(** In the altered mode the driver starts one terminal per warehouse and stops waiting after the
    first warehouse: with more than one terminal per warehouse it waits for a thread
    id that was never written, and with one it returns while the others run. *)
Theorem altered_mode_joins {Pt : Pthreads} (w_id_min w_id_max T client_conn_sleep duration now start : Z) (fuel : nat) :
  0 ≤ w_id_min → w_id_min ≤ w_id_max < INT_MAX → 1 ≤ T < INT_MAX →
  (∀ n, pthread_attr_init n = 0 ∧ pthread_attr_setstacksize n = 0 ∧ pthread_create n = 0 ∧ pthread_join n = 0) →
  w_id_max + 1 - w_id_min < Z.of_nat fuel →
  stop_time_of w_id_min w_id_max T client_conn_sleep duration now (Driver [] [] []) = (Done start, Driver [] [] []) →
  ∃ r s, start_driver w_id_min w_id_max T 1 1 fuel client_conn_sleep duration now (Driver [] [] []) = (r, s) ∧
    Z.of_nat (length (terminals s)) = w_id_max + 1 - w_id_min ∧ joined s = [0] ∧
    r = (if decide (T = 1) then Done OK else Leave (Undefined UninitRead)).
Proof.
  intros Hmin Hmax HT Hp Hf Hstop.
  pose proof (λ n, proj1 (Hp n)) as Hi. pose proof (λ n, proj1 (proj2 (Hp n))) as Hs.
  pose proof (λ n, proj1 (proj2 (proj2 (Hp n)))) as Hc. pose proof (λ n, proj2 (proj2 (proj2 (Hp n)))) as Hj.
  unfold start_driver. rewrite (bind_done _ _ _ _ _ Hstop).
  rewrite (bind_done _ _ _ _ _ (alloc_g_tid_run w_id_min w_id_max Hmin Hmax)).
  destruct (triple_done _ _ _ _ (alloc_rows_triple w_id_min w_id_max T Hmin Hmax fuel Hf) eq_refl) as (r & s1 & E1 & H1).
  rewrite (bind_done _ _ _ _ _ E1).
  destruct (triple_done _ _ _ s1 (create_row_triple w_id_min w_id_max T 1 Hmin Hmax ltac:(lia) Hi Hs Hc fuel Hf 0 ltac:(lia)) H1)
    as (r2 & s2 & E2 & -> & H2).
  destruct (Z.to_nat T) as [|T'] eqn:ET; [lia|].
  erewrite bind_done by (simpl; erewrite bind_done by exact E2; reflexivity).
  assert (w_id_min ≤ w_id_min ≤ w_id_max) as Hw by lia.
  assert (joined s2 = []) as HJ by apply H2.
  pose proof (get_row_run _ _ _ Hmin _ _ _ _ H2 Hw) as Eg.
  assert (∀ j, 0 ≤ j < T → map (g_cell w_id_min w_id_max ((0 + 1) * (w_id_max + 1 - w_id_min)) w_id_min) (seqZ 0 T) !! Z.to_nat j =
    Some (if decide (j = 0) then Some 0 else None)) as Hrow.
  { intros j Hj'. rewrite lookup_map_seqZ by lia. f_equal. unfold g_cell, thread.
    destruct (decide (j = 0)) as [->|]; [by rewrite (proj2 (Z.ltb_lt _ _)) by lia; f_equal; lia|].
    by rewrite (proj2 (Z.ltb_ge _ _)) by nia. }
  set (s3 := Driver (g_tid s2) (terminals s2) [0]).
  assert (created w_id_min w_id_max T ((0 + 1) * (w_id_max + 1 - w_id_min)) [0] s3) as H3 by (split; [apply H2..|done]).
  assert (join_terminal w_id_min 0 s2 = (Done Next, s3)) as E3.
  { unfold join_terminal. rewrite (bind_done _ _ _ _ _ Eg).
    rewrite (slot_get_ok _ 0 0), bind_ret, Hj by (lia || by rewrite (Hrow 0) by lia). simpl.
    erewrite bind_done by reflexivity. unfold s3. by rewrite HJ. }
  assert (Z.of_nat (length (terminals s2)) = w_id_max + 1 - w_id_min) as Hlen
    by (rewrite (cr_terminals _ _ _ _ _ _ H2), length_map, length_seqZ; lia).
  destruct (decide (T = 1)) as [->|HT1].
  - exists (Done OK), s3. split; [|by split].
    assert (join_warehouse 1 1 w_id_min s2 = (Done Break, s3)) as EJ.
    { assert (for_terminals 1 (join_terminal w_id_min) 0 s2 = (Done None, s3)) as E1'
        by (simpl; by rewrite (bind_done _ _ _ _ _ E3)).
      unfold join_warehouse. change (Z.to_nat 1) with 1%nat. by rewrite (bind_done _ _ _ _ _ E1'). }
    assert (for_warehouses w_id_max 1 fuel (join_warehouse 1 1) w_id_min s2 = (Done None, s3)) as EW.
    { destruct fuel as [|fuel]; [lia|]. simpl. unfold int_add. rewrite (int_of_ok (w_id_max + 1)), bind_ret by bounds.
      rewrite (proj2 (Z.ltb_lt _ _)) by lia. by rewrite (bind_done _ _ _ _ _ EJ). }
    by rewrite (bind_done _ _ _ _ _ EW).
  - exists (Leave (Undefined UninitRead)), s3. split; [|by split].
    apply bind_leave. destruct fuel as [|fuel]; [lia|]. simpl.
    unfold int_add. rewrite (int_of_ok (w_id_max + 1)), bind_ret by bounds. rewrite (proj2 (Z.ltb_lt _ _)) by lia.
    apply bind_leave. unfold join_warehouse. apply bind_leave. rewrite ET. destruct T' as [|T']; [lia|]. simpl.
    erewrite bind_done by exact E3. apply bind_leave. unfold join_terminal.
    rewrite (bind_done _ _ _ _ _ (get_row_run _ _ _ Hmin _ _ _ _ H3 Hw)). apply bind_leave.
    unfold slot_get. rewrite (arr_get_ok _ 1 None), bind_ret by (lia || by rewrite (Hrow 1) by lia). done.
Qed.

(** ** Witnesses *)

Definition all_succeed : Pthreads := Build_Pthreads (λ _, 0) (λ _, 0) (λ _, 0) (λ _, 0).

Lemma spread_overflows_witness :
  ∃ s, start_driver (Pt := all_succeed) 1 10 10 2 0 11 1000 60 1000 (Driver [] [] []) = (Leave (Undefined OutOfBounds), s).
Proof. apply (spread_overflows (Pt := all_succeed) 1 10 10 2 0 1000 60 1000 1150 11); [lia|bounds|lia..|by vm_compute]. Defined.
Lemma altered_mode_joins_witness :
  ∃ s, start_driver (Pt := all_succeed) 1 3 10 1 1 10 1000 60 1000 (Driver [] [] []) = (Leave (Undefined UninitRead), s) ∧
    joined s = [0].
Proof.
  destruct (altered_mode_joins (Pt := all_succeed) 1 3 10 1000 60 1000 1080 10) as (r & s & E & _ & Hj & Hr);
    [lia|bounds|bounds|done|lia|by vm_compute|].
  exists s. split; [rewrite E, Hr; reflexivity|exact Hj].
Defined.

(** The mix, as the thresholds of a run with the defaults and with no stock-level transactions:
    at the largest result of [rand()] a terminal executes one nevertheless. *)
Example rand_max_ignores_mix :
  let m := (recalculate_mix (set_transaction_mix STOCK_LEVEL f64_zero init_mix).2).2 in
  SFeqb (stock_level_actual m) f64_zero = true ∧
  choose_transaction m (f64_div (f64_of_Z RAND_MAX) (f64_of_Z RAND_MAX)) = STOCK_LEVEL.
Proof. by vm_compute. Qed.
