(* ===== verification/Dbt2Terminals.v ===== *)
(** * dbt2: the terminals ([terminal_worker] of driver.c)

    Every terminal is a thread that goes through the points [pc]; a step lets any of them
    go on, lets the clock run or writes the line of the main thread.  The threads share
    the counters [terminal_state], the log of the mix and the sequence of [rand()]; an
    update under its mutex is one step.  The clock of [time(NULL)] is part of the state, what
    comes from outside is the [reply] of a step: the answer of the client and
    [gettimeofday].  The program is modelled as it is built with the client, not
    standalone; sleeping is waiting for the clock. *)
From Stdlib Require Import ZArith Lia SpecFloat Ascii String Sorted.
From stdpp Require Import base numbers list strings relations.
From S2P Require Import Prelude CFloat SysbenchPercentile.
From S2P Require Import Dbt2Queue Dbt2Socket Dbt2Input Dbt2Driver.

Definition EXECUTING : Z := 0.
Definition KEYING : Z := 1.
Definition THINKING : Z := 2.
Definition STATUS_ROLLBACK : Z := 4.

(** Where a terminal is; [keying] says that it left its loop by the break, while keying. *)
Inductive pc :=
  | PChoose                    (* the start of the loop *)
  | PKey                       (* about to count itself as keying *)
  | PKeying                    (* about to look at the clock *)
  | PKeyed                     (* about to stop counting itself as keying *)
  | PExecute | PSend | PReply | PLog | PLogged
  | PThink | PThinking | PThought
  | PLoop                      (* the end of the loop *)
  | PExit (keying : bool)      (* about to write its last line *)
  | PDone (keying : bool).
#[export] Instance pc_eq_dec : EqDecision pc.
Proof. solve_decision. Defined.

Record terminal := Terminal {
  t_pc : pc;
  t_w_id : Z; t_d_id : Z;                    (* its context *)
  t_transaction : Z;                         (* client_data *)
  t_status : Z;
  t_data : option transaction_data_t;
  t_mean : Z;                                (* mean_think_time *)
  t_rt0 : Z * Z; t_rt1 : Z * Z               (* seconds and microseconds *)
}.
Definition at_pc (p : pc) (w : terminal) : terminal :=
  Terminal p (t_w_id w) (t_d_id w) (t_transaction w) (t_status w) (t_data w) (t_mean w) (t_rt0 w) (t_rt1 w).

(** The lines of mix.log. *)
Inductive mix_line :=
  | LStart (time : Z)
  | LTransaction (time : Z) (name : ascii) (response_time : float64) (tid : nat)
  | LTerminated (time : Z) (tid : nat).
Definition line_time (l : mix_line) : Z :=
  match l with LStart t => t | LTransaction t _ _ _ => t | LTerminated t _ => t end.

Record shared := Shared {
  clock : Z;
  rand_calls : Z;
  terminal_state : list (list Z);
  log_mix : list mix_line
}.
Definition set_clock (t : Z) (s : shared) : shared := Shared t (rand_calls s) (terminal_state s) (log_mix s).
Definition set_rand_calls (n : Z) (s : shared) : shared := Shared (clock s) n (terminal_state s) (log_mix s).
Definition set_terminal_state (c : list (list Z)) (s : shared) : shared := Shared (clock s) (rand_calls s) c (log_mix s).
Definition log_line (l : mix_line) (s : shared) : shared :=
  Shared (clock s) (rand_calls s) (terminal_state s) (log_mix s ++ [l]).

(** What a step gets from outside. *)
Record reply := Reply { r_transaction : Z; r_status : Z; r_data : option transaction_data_t; r_time : Z * Z }.

Definition difftimeval (rt1 rt0 : Z * Z) : float64 :=
  f64_add (f64_of_Z (rt1.1 - rt0.1)) (f64_div (f64_of_Z (rt1.2 - rt0.2)) (f64_of_Z 1000000)).
Definition transaction_short_name : list ascii := lit "dnops".
Definition toupper (c : ascii) : ascii :=
  if (97 <=? Z.of_nat (nat_of_ascii c)) && (Z.of_nat (nat_of_ascii c) <=? 122)
  then ascii_of_nat (nat_of_ascii c - 32) else c.

Section terminal.
Context {Rs : RandSource} {Lm : Libm}.
Context (warehouses districts w_id_min w_id_max mode_altered stop_time : Z) (transaction_mix : transaction_mix_t).

Abbreviation tprog := (prog fault shared).

Definition draws {A} (m : iprog A) : tprog A := zoom rand_calls set_rand_calls m.

(** [++terminal_state[state][transaction]], or [--] *)
Definition count (state transaction by_ : Z) : tprog unit :=
  c ← readS terminal_state;
  row ← arr_get c state;
  v ← arr_get row transaction;
  v ← int_add v by_;
  row ← arr_set row transaction v;
  c ← arr_set c state row;
  modS (set_terminal_state c).

Definition choose_context (w : terminal) : tprog (Z * Z) :=
  if mode_altered =? 1 then
    d ← int_sub w_id_max w_id_min;
    d ← int_add d 1;
    r ← draws (get_random d);
    w_id ← int_add w_id_min r;
    r ← draws (get_random districts);
    d_id ← int_add r 1;
    mret (w_id, d_id)
  else mret (t_w_id w, t_d_id w).

(** The draws of a terminal for one transaction are one step. *)
Definition choose (w : terminal) : tprog terminal :=
  c ← choose_context w;
  threshold ← draws get_percentage;
  let t := choose_transaction transaction_mix threshold in
  d ← (if negb (t =? STOCK_LEVEL) then draws (generate_input_data warehouses mode_altered t c.1)
       else draws (generate_input_data2 t c.1 c.2));
  mret (Terminal PKey c.1 c.2 t (t_status w) d.2 (mean_time think_time t) (t_rt0 w) (t_rt1 w)).

Definition log_transaction (tid : nat) (w : terminal) : tprog unit :=
  s ← getS;
  let line c := modS (log_line (LTransaction (clock s) c (difftimeval (t_rt1 w) (t_rt0 w)) tid)) in
  if t_status w =? OK then c ← arr_get transaction_short_name (t_transaction w); line c
  else if t_status w =? STATUS_ROLLBACK then c ← arr_get transaction_short_name (t_transaction w); line (toupper c)
  else if t_status w =? ERROR then line "E"%char
  else mret tt.

Definition terminal_turn (tid : nat) (w : terminal) (r : reply) : tprog terminal :=
  let go p := mret (at_pc p w) in
  match t_pc w with
  | PChoose => choose w
  | PKey => count KEYING (t_transaction w) 1;; go PKeying
  | PKeying => n ← readS clock; go (if n <? stop_time then PKeyed else PExit true)
  | PKeyed => count KEYING (t_transaction w) (-1);; go PExecute
  | PExecute => count EXECUTING (t_transaction w) 1;; go PSend
  | PSend =>
      mret (Terminal PReply (t_w_id w) (t_d_id w) (t_transaction w) (t_status w) (t_data w) (t_mean w) (r_time r) (t_rt1 w))
  | PReply =>
      mret (Terminal PLog (t_w_id w) (t_d_id w) (r_transaction r) (r_status r) (r_data r) (t_mean w) (t_rt0 w) (r_time r))
  | PLog => log_transaction tid w;; go PLogged
  | PLogged => count EXECUTING (t_transaction w) (-1);; go PThink
  | PThink => count THINKING (t_transaction w) 1;; go PThinking
  | PThinking =>
      n ← readS clock;
      (if n <? stop_time then draws (get_think_time (t_mean w));; mret tt else mret tt);;
      go PThought
  | PThought => count THINKING (t_transaction w) (-1);; go PLoop
  | PLoop => n ← readS clock; go (if n <? stop_time then PChoose else PExit false)
  | PExit b => modS (λ s, log_line (LTerminated (clock s) tid) s);; go (PDone b)
  | PDone b => leave (ExitCode 0)
  end.

Definition system : Type := shared * list terminal.

(** The client answers a request with the transaction it was asked for. *)
Inductive step : system → system → Prop :=
  | step_clock s ws t : clock s ≤ t → step (s, ws) (set_clock t s, ws)
  | step_start s ws : step (s, ws) (log_line (LStart (clock s)) s, ws)
  | step_turn s ws k w r s' w' :
      ws !! k = Some w → r_transaction r = t_transaction w → terminal_turn k w r s = (Done w', s') →
      step (s, ws) (s', <[k := w']> ws).

(** The terminals for these contexts, when they start. *)
Definition start (time calls : Z) (contexts : list (Z * Z)) : system :=
  (Shared time calls (replicate 3 (replicate 5 0)) [],
   map (λ c : Z * Z, Terminal PChoose c.1 c.2 0 0 None 0 (0, 0) (0, 0)) contexts).
Definition reachable (time calls : Z) (contexts : list (Z * Z)) (s : system) : Prop :=
  rtc step (start time calls contexts) s.
End terminal.

(** ** What the counters count *)

Definition counted_as (p : pc) : option Z :=
  match p with
  | PKeying | PKeyed | PExit true | PDone true => Some KEYING
  | PSend | PReply | PLog | PLogged => Some EXECUTING
  | PThinking | PThought => Some THINKING
  | _ => None
  end.
(** 1 for a terminal that counts for the state and the transaction, else 0. *)
Definition counts_for (state t : Z) (w : terminal) : Z :=
  if decide (counted_as (t_pc w) = Some state ∧ t_transaction w = t) then 1 else 0.
Definition tally (state t : Z) (ws : list terminal) : Z := foldr (λ w n, counts_for state t w + n) 0 ws.
Definition table (f : Z → Z → Z) : list (list Z) := map (λ p, map (f p) (seqZ 0 5)) (seqZ 0 3).

Lemma counts_for_range p t w : 0 ≤ counts_for p t w ≤ 1.
Proof. unfold counts_for. case_decide; lia. Qed.
Lemma tally_range p t ws : 0 ≤ tally p t ws ≤ Z.of_nat (length ws).
Proof. induction ws as [|w ws IH]; simpl; [lia|]. pose proof (counts_for_range p t w). lia. Qed.
Lemma tally_insert p t ws k w w' :
  ws !! k = Some w → tally p t (<[k := w']> ws) = tally p t ws - counts_for p t w + counts_for p t w'.
Proof.
  revert k. induction ws as [|v ws IH]; intros [|k] Hk; simplify_eq/=; [lia|]. rewrite (IH k Hk). lia.
Qed.
(** The terminals that are counted, one by one. *)
Lemma tally_filter p t ws :
  tally p t ws = Z.of_nat (length (filter (λ w, counted_as (t_pc w) = Some p ∧ t_transaction w = t) ws)).
Proof.
  induction ws as [|w ws IH]; simpl; [done|]. rewrite IH, filter_cons. unfold counts_for. case_decide; simpl; lia.
Qed.

Lemma map_seqZ_ext {A} (f g : Z → A) n : (∀ k, 0 ≤ k < n → f k = g k) → map f (seqZ 0 n) = map g (seqZ 0 n).
Proof. intros H. apply list_fmap_ext. intros i k [-> Hk]%lookup_seqZ. apply H. lia. Qed.
Lemma insert_map_seqZ {A} (f : Z → A) n j v :
  0 ≤ j < n → <[Z.to_nat j := v]> (map f (seqZ 0 n)) = map (λ k, if decide (k = j) then v else f k) (seqZ 0 n).
Proof.
  intros Hj. apply list_eq. intros k. destruct (decide (k < Z.to_nat n)%nat) as [Hk|Hk].
  - replace k with (Z.to_nat (Z.of_nat k)) by lia. rewrite lookup_map_seqZ by lia.
    destruct (decide (Z.of_nat k = j)) as [<-|Hn].
    + by rewrite list_lookup_insert_eq by (rewrite length_map, length_seqZ; lia).
    + rewrite list_lookup_insert_ne by lia. by rewrite lookup_map_seqZ by lia.
  - rewrite !lookup_ge_None_2; [done|..]; rewrite ?length_insert, length_map, length_seqZ; lia.
Qed.
Lemma table_ext f g : (∀ p t, 0 ≤ p < 3 → 0 ≤ t < 5 → f p t = g p t) → table f = table g.
Proof. intros H. apply map_seqZ_ext. intros p Hp. apply map_seqZ_ext. intros t Ht. by apply H. Qed.

Lemma count_run f p t d s :
  terminal_state s = table f → 0 ≤ p < 3 → 0 ≤ t < 5 → INT_MIN ≤ f p t + d ≤ INT_MAX →
  count p t d s =
    (Done tt, set_terminal_state (table (λ q u, if decide (q = p ∧ u = t) then f p t + d else f q u)) s).
Proof.
  intros Hs Hp Ht Hd. unfold count. erewrite bind_done by reflexivity. rewrite Hs. unfold table at 1 2.
  rewrite (arr_get_ok _ p (map (f p) (seqZ 0 5))), bind_ret by (lia || by rewrite lookup_map_seqZ by lia).
  rewrite (arr_get_ok _ t (f p t)), bind_ret by (lia || by rewrite lookup_map_seqZ by lia).
  unfold int_add. rewrite int_of_ok, bind_ret by done.
  rewrite arr_set_ok, bind_ret by (rewrite length_map, length_seqZ; lia).
  rewrite arr_set_ok, bind_ret by (rewrite length_map, length_seqZ; lia).
  unfold modS. do 2 f_equal. rewrite !insert_map_seqZ by done. apply map_seqZ_ext. intros q Hq.
  destruct (decide (q = p)) as [->|]; apply map_seqZ_ext; intros u Hu; repeat case_decide; naive_solver.
Qed.

(** ** A turn of a terminal *)

Lemma choose_transaction_range m x : 0 ≤ choose_transaction m x < 5.
Proof. unfold choose_transaction. repeat case_match; unfold NEW_ORDER, PAYMENT, ORDER_STATUS, DELIVERY, STOCK_LEVEL; lia. Qed.

Definition line_tid (l : mix_line) : option nat :=
  match l with LStart _ => None | LTransaction _ _ _ k => Some k | LTerminated _ k => Some k end.

Lemma counts_for_at p' w p t :
  counts_for p t (at_pc p' w) = if decide (counted_as p' = Some p ∧ t_transaction w = t) then 1 else 0.
Proof. done. Qed.
Lemma counts_enter w p' phase q u :
  counted_as (t_pc w) = None → counted_as p' = Some phase →
  counts_for q u (at_pc p' w) - counts_for q u w = if decide (q = phase ∧ u = t_transaction w) then 1 else 0.
Proof. intros E E'. rewrite counts_for_at. unfold counts_for. rewrite E, E'. repeat case_decide; try done; exfalso; naive_solver. Qed.
Lemma counts_leave w p' phase q u :
  counted_as (t_pc w) = Some phase → counted_as p' = None →
  counts_for q u (at_pc p' w) - counts_for q u w = if decide (q = phase ∧ u = t_transaction w) then -1 else 0.
Proof. intros E E'. rewrite counts_for_at. unfold counts_for. rewrite E, E'. repeat case_decide; try done; exfalso; naive_solver. Qed.

Section correct.
Context {Rs : RandSource} {Lm : Libm}.
Context (warehouses districts w_id_min w_id_max mode_altered stop_time : Z) (transaction_mix : transaction_mix_t).
Context (Hwmin : 1 ≤ w_id_min) (Hwmax : w_id_min ≤ w_id_max ≤ warehouses) (HW : warehouses < INT_MAX)
  (Hdist : 1 ≤ districts < INT_MAX).
(** The logarithms of the numbers drawn give times that fit an [int]. *)
Context (Hthink : ∀ t, 0 ≤ t < 5 → gives (λ _, True) (get_think_time (mean_time think_time t))).

Abbreviation terminal_turn := (terminal_turn warehouses districts w_id_min w_id_max mode_altered stop_time transaction_mix).
Abbreviation step := (step warehouses districts w_id_min w_id_max mode_altered stop_time transaction_mix).

(** The inputs in a terminal's request are valid. *)
Definition request_ok (w : terminal) : Prop :=
  if decide (t_transaction w = STOCK_LEVEL)
  then ∃ d, t_data w = Some (DStockLevel d) ∧ stock_level_ok (t_w_id w) (t_d_id w) d
  else input_ok warehouses mode_altered (t_w_id w) (t_transaction w) (OK, t_data w).

Definition chosen (p : pc) : bool := match p with PChoose => false | _ => true end.
Definition requesting (p : pc) : bool :=
  match p with PKey | PKeying | PKeyed | PExecute | PSend | PReply => true | _ => false end.

Record terminal_ok (w : terminal) : Prop := {
  tm_w_id : 1 ≤ t_w_id w ≤ warehouses;
  tm_chosen : chosen (t_pc w) = true → 0 ≤ t_transaction w < 5 ∧ t_mean w = mean_time think_time (t_transaction w);
  tm_request : requesting (t_pc w) = true → request_ok w
}.

(** What a turn does to the counters, seen as a function, and to the log. *)
Definition turned (k : nat) (f : Z → Z → Z) (s : shared) (w w' : terminal) (s' : shared) : Prop :=
  terminal_state s' = table (λ p t, f p t - counts_for p t w + counts_for p t w') ∧
  clock s' = clock s ∧ terminal_ok w' ∧
  (log_mix s' = log_mix s ∨
   ∃ l, log_mix s' = log_mix s ++ [l] ∧ line_time l = clock s ∧ line_tid l = Some k ∧
     (∀ t, l = LTerminated t k → ∃ b, t_pc w' = PDone b)).

Lemma uncounted_turn k f s w w' calls :
  terminal_state s = table f → terminal_ok w' →
  (∀ p t, counts_for p t w' = counts_for p t w) → turned k f s w w' (set_rand_calls calls s).
Proof.
  intros Hs Hw Hc. split_and!; [|done|done|by left]. simpl. rewrite Hs. apply table_ext. intros p t _ _. rewrite Hc. lia.
Qed.

(** A turn that counts: the terminal goes to [p'] with the counter of [phase] and its transaction moved by [d]. *)
Lemma counted_turn k f s w r phase d p' :
  terminal_turn k w r = (λ s, (count phase (t_transaction w) d;; mret (at_pc p' w)) s) →
  terminal_state s = table f → terminal_ok w → (∀ p t, 0 ≤ f p t < INT_MAX) → 0 ≤ phase < 3 → -1 ≤ d ≤ 1 →
  chosen (t_pc w) = true → (requesting p' = true → requesting (t_pc w) = true) →
  (∀ p t, counts_for p t (at_pc p' w) - counts_for p t w = if decide (p = phase ∧ t = t_transaction w) then d else 0) →
  ∃ w' s', terminal_turn k w r s = (Done w', s') ∧ turned k f s w w' s'.
Proof.
  intros Et Hs Hw Hf Hp Hd Hch Hr Hc. destruct (tm_chosen _ Hw Hch) as [Ht Hm]. rewrite Et.
  specialize (Hf phase (t_transaction w)) as Hft.
  rewrite (bind_done _ _ _ _ _ (count_run f phase _ d s Hs Hp Ht ltac:(bounds))).
  eexists _, _. split; [reflexivity|]. split_and!; [|done| |by left].
  - simpl. apply table_ext. intros p t _ _. specialize (Hc p t). destruct (decide (p = phase ∧ t = t_transaction w)) as [[-> ->]|]; lia.
  - split; simpl; [apply Hw|done|]. intros H%Hr. apply (tm_request _ Hw H).
Qed.

Lemma draws_gives {A} (φ : A → Prop) m s :
  gives φ m → ∃ a calls, draws m s = (Done a, set_rand_calls calls s) ∧ φ a.
Proof.
  intros H. destruct (H (rand_calls s)) as (a & n & E & Ha). exists a, n. split; [|done].
  unfold draws, zoom. by rewrite E.
Qed.

Lemma choose_run w s :
  terminal_ok w → t_pc w = PChoose →
  ∃ w' calls, choose warehouses districts w_id_min w_id_max mode_altered transaction_mix w s = (Done w', set_rand_calls calls s) ∧
    t_pc w' = PKey ∧ terminal_ok w'.
Proof.
  intros Hw Hp. unfold choose.
  assert (∃ c calls, choose_context districts w_id_min w_id_max mode_altered w s = (Done c, set_rand_calls calls s) ∧
    1 ≤ c.1 ≤ warehouses) as (c & calls & E & Hc).
  { unfold choose_context. destruct (Z.eqb_spec mode_altered 1).
    - unfold int_sub, int_add. rewrite int_of_ok, bind_ret by bounds. rewrite int_of_ok, bind_ret by bounds.
      destruct (draws_gives _ _ s (get_random_gives (w_id_max - w_id_min + 1) ltac:(bounds))) as (a & n1 & E1 & Ha).
      rewrite (bind_done _ _ _ _ _ E1). rewrite int_of_ok, bind_ret by bounds.
      destruct (draws_gives _ _ (set_rand_calls n1 s) (get_random_gives districts ltac:(bounds))) as (b & n2 & E2 & Hb).
      rewrite (bind_done _ _ _ _ _ E2). rewrite int_of_ok, bind_ret by bounds.
      eexists _, n2. split; [reflexivity|]. simpl. lia.
    - eexists _, (rand_calls s). split; [by destruct s|]. apply Hw. }
  rewrite (bind_done _ _ _ _ _ E).
  erewrite bind_done by reflexivity. cbv zeta. set (t := choose_transaction _ _).
  pose proof (choose_transaction_range transaction_mix (f64_div (f64_of_Z (rand_value (rand_calls (set_rand_calls calls s)))) (f64_of_Z RAND_MAX))) as Ht.
  fold t in Ht. set (s1 := set_rand_calls _ (set_rand_calls calls s)).
  destruct (Z.eqb_spec t STOCK_LEVEL) as [Es|Es]; simpl negb; cbv iota.
  - destruct (draws_gives (λ rd, ∃ d, rd = (OK, Some (DStockLevel d)) ∧ stock_level_ok c.1 c.2 d) (generate_input_data2 t c.1 c.2) s1)
      as (rd & n & E1 & d & -> & Hd).
    { intros n. destruct (generate_stock_level_data_gives c.1 c.2 n) as (d & n' & E' & Hd).
      eexists _, n'. split; [unfold generate_input_data2; by rewrite (bind_done _ _ _ _ _ E')|]. by exists d. }
    rewrite (bind_done _ _ _ _ _ E1). eexists _, n. split; [reflexivity|]. split; [done|]. split; simpl; [done|done|].
    intros _. unfold request_ok. simpl. rewrite decide_True by done. by exists d.
  - destruct (draws_gives _ (generate_input_data warehouses mode_altered t c.1) s1 (generate_input_data_gives warehouses mode_altered c.1 Hc HW t))
      as ([rc d] & n & E1 & Hd).
    rewrite (bind_done _ _ _ _ _ E1). eexists _, n. split; [reflexivity|]. split; [done|]. split; simpl; [done|done|].
    intros _. unfold request_ok. simpl. rewrite decide_False by done. unfold input_ok in *. simpl in *.
    assert (t ∈ [DELIVERY; NEW_ORDER; ORDER_STATUS; PAYMENT; STOCK_LEVEL]) as Hin.
    { rewrite !elem_of_cons. unfold DELIVERY, NEW_ORDER, ORDER_STATUS, PAYMENT, STOCK_LEVEL. lia. }
    destruct d as [[]|]; [naive_solver..| |].
    + destruct Hd as (-> & _). unfold INTEGRITY in *. lia.
    + exfalso. destruct Hd as [Hd _]. apply Hd. set_solver.
Qed.

Lemma moved_ok p w :
  terminal_ok w → chosen (t_pc w) = true → (requesting p = true → requesting (t_pc w) = true) → terminal_ok (at_pc p w).
Proof. intros Hw Hc Hr. split; simpl; [apply Hw|intros _; by apply (tm_chosen _ Hw)|]. intros H%Hr. apply (tm_request _ Hw H). Qed.
Lemma log_transaction_run k w s :
  0 ≤ t_transaction w < 5 →
  ∃ s', log_transaction k w s = (Done tt, s') ∧ terminal_state s' = terminal_state s ∧ clock s' = clock s ∧
    (log_mix s' = log_mix s ∨ ∃ c x, log_mix s' = log_mix s ++ [LTransaction (clock s) c x k]).
Proof.
  intros Ht. unfold log_transaction. erewrite bind_done by reflexivity. cbv zeta.
  destruct (arr_get_lookup (F := fault) (S := shared) transaction_short_name (t_transaction w)) as (c & _ & Ec); [simpl; lia|].
  rewrite !Ec. repeat case_match; rewrite ?bind_ret; (eexists; split; [reflexivity|]; split_and!; [done|done|]); eauto.
Qed.

(** A turn that changes a counter. *)
Ltac counting Ep :=
  eapply counted_turn; [unfold Dbt2Terminals.terminal_turn; rewrite Ep; cbv zeta; reflexivity|done|done|done|done|done
    |by rewrite Ep|by rewrite Ep|];
  intros p t; first [apply counts_enter; [by rewrite Ep|done]|apply counts_leave; [by rewrite Ep|done]].
(** A turn that only goes on. *)
Lemma going_turn k f s w p :
  terminal_state s = table f → terminal_ok w → chosen (t_pc w) = true →
  (requesting p = true → requesting (t_pc w) = true) → counted_as p = counted_as (t_pc w) →
  turned k f s w (at_pc p w) s.
Proof.
  intros Hs Hw Hc Hr Hp. replace s with (set_rand_calls (rand_calls s) s) at 2 by by destruct s.
  apply uncounted_turn; [done|by apply moved_ok|]. intros q u. rewrite counts_for_at. unfold counts_for. by rewrite Hp.
Qed.
Ltac going Ep :=
  eexists _, _; split; [unfold Dbt2Terminals.terminal_turn; rewrite Ep; reflexivity|];
  cbv beta; case_match; (apply going_turn; [done|done|by rewrite Ep|by rewrite Ep|by rewrite Ep]).

(** Every turn of a terminal that has not ended completes. *)
Lemma turn_runs k f s w r :
  terminal_state s = table f → terminal_ok w → (∀ p t, 0 ≤ f p t < INT_MAX) →
  r_transaction r = t_transaction w → (∀ b, t_pc w ≠ PDone b) →
  ∃ w' s', terminal_turn k w r s = (Done w', s') ∧ turned k f s w w' s'.
Proof.
  intros Hs Hw Hf Hr Hd. destruct (t_pc w) eqn:Ep; try (counting Ep).
  - destruct (choose_run w s Hw Ep) as (w' & calls & E & Hp & Hw').
    exists w', (set_rand_calls calls s). split; [unfold Dbt2Terminals.terminal_turn; by rewrite Ep|].
    apply uncounted_turn; [done|done|]. intros q u. unfold counts_for. by rewrite Ep, Hp.
  - going Ep.
  - eexists _, s. split; [unfold Dbt2Terminals.terminal_turn; by rewrite Ep|].
    replace s with (set_rand_calls (rand_calls s) s) at 2 by by destruct s.
    apply uncounted_turn; [done| |intros q u; unfold counts_for; by rewrite Ep].
    destruct Hw as [? Hc Hq]. rewrite Ep in *. split; simpl; [done|done|]. intros _. by apply Hq.
  - eexists _, s. split; [unfold Dbt2Terminals.terminal_turn; by rewrite Ep|].
    replace s with (set_rand_calls (rand_calls s) s) at 2 by by destruct s.
    apply uncounted_turn; [done| |intros q u; unfold counts_for; simpl; by rewrite Ep, Hr].
    destruct Hw as [? Hc Hq]. rewrite Ep in *. split; simpl; [done|rewrite Hr; by apply Hc|done].
  - destruct (tm_chosen _ Hw) as [Ht _]; [by rewrite Ep|].
    destruct (log_transaction_run k w s Ht) as (s' & E & Es & Et & Hl). exists (at_pc PLogged w), s'.
    split; [unfold Dbt2Terminals.terminal_turn; rewrite Ep; cbv zeta; by rewrite (bind_done _ _ _ _ _ E)|].
    split_and!; [|done|apply moved_ok; [done|by rewrite Ep|done]|].
    + rewrite Es, Hs. apply table_ext. intros q u _ _. rewrite counts_for_at. unfold counts_for. rewrite Ep. simpl. lia.
    + destruct Hl as [Hl|(c & x & Hl)]; [by left|right]. eexists. split; [done|]. split_and!; done.
  - destruct (tm_chosen _ Hw) as [Ht Hm]; [by rewrite Ep|].
    assert (∃ calls, (if clock s <? stop_time then draws (get_think_time (t_mean w));; mret tt else mret tt) s =
      (Done tt, set_rand_calls calls s)) as (calls & E).
    { case_match; [|exists (rand_calls s); by destruct s]. rewrite Hm.
      destruct (draws_gives _ _ s (Hthink _ Ht)) as (z & n & E & _). exists n. by rewrite (bind_done _ _ _ _ _ E). }
    exists (at_pc PThought w), (set_rand_calls calls s).
    split; [unfold Dbt2Terminals.terminal_turn; rewrite Ep; cbv zeta; erewrite bind_done by reflexivity; by rewrite (bind_done _ _ _ _ _ E)|].
    apply uncounted_turn; [done|apply moved_ok; [done|by rewrite Ep|done]|].
    intros q u. rewrite counts_for_at. unfold counts_for. by rewrite Ep.
  - going Ep.
  - eexists _, _. split; [unfold Dbt2Terminals.terminal_turn; rewrite Ep; reflexivity|].
    split_and!; [|done|apply moved_ok; [done|by rewrite Ep|done]|].
    + simpl. rewrite Hs. apply table_ext. intros q u _ _. rewrite counts_for_at. unfold counts_for. rewrite Ep.
      destruct keying; simpl; lia.
    + right. eexists. split; [done|]. split_and!; [done|done|]. intros t [= <-]. by eexists.
  - by destruct (Hd keying).
Qed.

(** ** What holds between the steps *)

Record invariant (n : nat) (y : system) : Prop := {
  iv_counts : terminal_state y.1 = table (λ p t, tally p t y.2);
  iv_terminals : Forall terminal_ok y.2;
  iv_length : length y.2 = n;
  iv_sorted : StronglySorted Z.le (map line_time (log_mix y.1));
  iv_clock : Forall (λ l, line_time l ≤ clock y.1) (log_mix y.1);
  iv_ended : ∀ i t k, log_mix y.1 !! i = Some (LTerminated t k) →
    (∃ w b, y.2 !! k = Some w ∧ t_pc w = PDone b) ∧
    ∀ j l, (i < j)%nat → log_mix y.1 !! j = Some l → line_tid l ≠ Some k
}.

Lemma tally_start p t cs : tally p t (map (λ c : Z * Z, Terminal PChoose c.1 c.2 0 0 None 0 (0, 0) (0, 0)) cs) = 0.
Proof. induction cs as [|c cs IH]; simpl; [done|]. by rewrite IH. Qed.
Lemma start_invariant time calls cs :
  Forall (λ c : Z * Z, 1 ≤ c.1 ≤ warehouses) cs → invariant (length cs) (start time calls cs).
Proof.
  intros Hc. split; simpl; [| | |constructor|constructor|].
  - transitivity (table (λ _ _, 0)); [done|]. apply table_ext. intros p t _ _. by rewrite tally_start.
  - apply Forall_fmap. eapply Forall_impl; [exact Hc|]. intros c Hw. split; simpl; done.
  - apply length_map.
  - intros i t k Hi. by rewrite lookup_nil in Hi.
Qed.

Lemma sorted_snoc (l : list Z) x : StronglySorted Z.le l → Forall (λ y, y ≤ x) l → StronglySorted Z.le (l ++ [x]).
Proof.
  induction 1 as [|y l Hl IH Hy]; intros Hx; simpl; [repeat constructor|].
  apply Forall_cons in Hx as [Hyx Hx]. constructor; [by apply IH|]. apply Forall_app. split; [done|]. by constructor.
Qed.

(** A line written now, by a thread that had not written its last one. *)
Lemma log_invariant n y s' ws' l :
  invariant n y → terminal_state s' = table (λ p t, tally p t ws') → Forall terminal_ok ws' → length ws' = n →
  clock s' = clock y.1 → log_mix s' = log_mix y.1 ++ [l] → line_time l = clock y.1 →
  (∀ k w b, y.2 !! k = Some w → t_pc w = PDone b → ws' !! k = Some w ∧ line_tid l ≠ Some k) →
  (∀ t k, l = LTerminated t k → ∃ w b, ws' !! k = Some w ∧ t_pc w = PDone b) →
  invariant n (s', ws').
Proof.
  intros Hy Hs Hw Hn Hc Hl Ht Hd Hk. split; simpl; [done..| | |]; rewrite Hl.
  - rewrite map_app. apply sorted_snoc; [apply Hy|]. rewrite Forall_fmap, Ht. apply Hy.
  - rewrite Hc. apply Forall_app. split; [apply Hy|]. constructor; [lia|done].
  - intros i t k Hi. apply lookup_snoc_Some in Hi as [[Hi Hit]|[-> Hit]].
    + destruct (iv_ended _ _ Hy i t k Hit) as ((w & b & Hkw & Hb) & Hq). destruct (Hd k w b Hkw Hb) as [Hk' Hlk].
      split; [by exists w, b|]. intros j l' Hij Hj. apply lookup_snoc_Some in Hj as [[Hj1 Hj2]|[-> ->]]; [by apply (Hq j)|done].
    + split; [by eapply Hk|]. intros j l' Hij Hj. apply lookup_lt_Some in Hj. rewrite length_app in Hj. simpl in Hj. lia.
Qed.

Lemma turn_invariant n s ws k w r :
  invariant n (s, ws) → Z.of_nat n < INT_MAX → ws !! k = Some w → r_transaction r = t_transaction w →
  (∀ b, t_pc w ≠ PDone b) →
  ∃ w' s', terminal_turn k w r s = (Done w', s') ∧ invariant n (s', <[k := w']> ws).
Proof.
  intros Hi Hn Hk Hr Hd.
  destruct (turn_runs k (λ p t, tally p t ws) s w r) as (w' & s' & E & Hc & Ht & Hw' & Hl); [apply Hi| | |done|done|].
  { by apply (proj1 (Forall_lookup _ _) (iv_terminals _ _ Hi) k). }
  { intros p t. pose proof (tally_range p t ws). pose proof (iv_length _ _ Hi). simpl in *. lia. }
  exists w', s'. split; [done|].
  assert (terminal_state s' = table (λ p t, tally p t (<[k := w']> ws))) as Hs'.
  { rewrite Hc. apply table_ext. intros p t _ _. by rewrite (tally_insert p t ws k w w' Hk). }
  assert (Forall terminal_ok (<[k := w']> ws)) as Hws by (apply Forall_insert; [apply Hi|done]).
  assert (∀ k2 w2 b, ws !! k2 = Some w2 → t_pc w2 = PDone b → k2 ≠ k ∧ <[k := w']> ws !! k2 = Some w2) as Hdone.
  { intros k2 w2 b Hk2 Hb. assert (k2 ≠ k) by (intros ->; simplify_eq; by eapply Hd). split; [done|].
    by rewrite list_lookup_insert_ne. }
  destruct Hl as [Hl|(l & Hl & Hlt & Hlk & Hend)].
  - split; simpl; [done|done|rewrite length_insert; apply Hi|rewrite Hl; apply Hi|rewrite Hl, Ht; apply Hi|].
    intros i t k2. rewrite Hl. intros H. destruct (iv_ended _ _ Hi i t k2 H) as ((w2 & b & H2 & Hb) & Hq).
    split; [|done]. exists w2, b. split; [|done]. by eapply Hdone.
  - eapply (log_invariant n (s, ws)); try done; [rewrite length_insert; apply Hi| |].
    + intros k2 w2 b Hk2 Hb. destruct (Hdone k2 w2 b Hk2 Hb). split; [done|]. congruence.
    + intros t k2 ->. simpl in Hlk. injection Hlk as ->. destruct (Hend t eq_refl) as [b Hb]. exists w', b.
      split; [|done]. apply list_lookup_insert_eq. by eapply lookup_lt_Some.
Qed.

Lemma step_invariant n y y' : invariant n y → Z.of_nat n < INT_MAX → step y y' → invariant n y'.
Proof.
  intros Hy Hn Hs. destruct Hs as [s ws t Ht|s ws|s ws k w r s' w' Hk Hr E].
  - split; simpl; [apply Hy..| |apply Hy]. eapply Forall_impl; [apply Hy|]. simpl. intros l. lia.
  - eapply (log_invariant n (s, ws)); [done|apply Hy..|done|done|done|by intros|done].
  - assert (∀ b, t_pc w ≠ PDone b) as Hd by (intros b Hb; unfold Dbt2Terminals.terminal_turn in E; by rewrite Hb in E).
    destruct (turn_invariant n s ws k w r) as (w2 & s2 & E2 & Hi); [done..|].
    rewrite E2 in E. by simplify_eq.
Qed.

Lemma reachable_invariant time calls cs y :
  Forall (λ c : Z * Z, 1 ≤ c.1 ≤ warehouses) cs → Z.of_nat (length cs) < INT_MAX →
  reachable warehouses districts w_id_min w_id_max mode_altered stop_time transaction_mix time calls cs y →
  invariant (length cs) y.
Proof.
  intros Hc Hn Hr. pose proof (start_invariant time calls cs Hc) as Hi. unfold reachable in Hr. revert Hr Hi.
  generalize (start time calls cs). intros x. induction 1 as [|x x' y Hs Hx IH]; intros Hi; [done|].
  apply IH. by eapply step_invariant.
Qed.
End correct.

(** ** Theorems *)

Section theorems.
Context {Rs : RandSource} {Lm : Libm}.
Context (warehouses districts w_id_min w_id_max mode_altered stop_time : Z) (transaction_mix : transaction_mix_t).

(** The settings of a run, and what the think times need of the logarithm. *)
Record settings_ok (contexts : list (Z * Z)) : Prop := {
  st_range : 1 ≤ w_id_min ∧ w_id_min ≤ w_id_max ≤ warehouses ∧ warehouses < INT_MAX ∧ 1 ≤ districts < INT_MAX;
  st_think : ∀ t, 0 ≤ t < 5 → gives (λ _, True) (get_think_time (mean_time think_time t));
  st_contexts : Forall (λ c : Z * Z, 1 ≤ c.1 ≤ warehouses) contexts;
  st_number : Z.of_nat (length contexts) < INT_MAX
}.

Abbreviation reachable := (reachable warehouses districts w_id_min w_id_max mode_altered stop_time transaction_mix).

Lemma settings_invariant time calls contexts y :
  settings_ok contexts → reachable time calls contexts y → invariant warehouses mode_altered (length contexts) y.
Proof. intros [(? & ? & ? & ?) ? ? ?]. by eapply reachable_invariant. Qed.


(** C33: In any interleaving each of the fifteen counters is the number of terminals in its state
    with its transaction.  When all terminals have ended, none is counted as executing or
    thinking, but every terminal that left its loop at the end of the run while it was keying
    is still counted. *)
Theorem terminal_counts time calls contexts (y : system) :
  settings_ok contexts → reachable time calls contexts y →
  (∀ p t, 0 ≤ p < 3 → 0 ≤ t < 5 →
    terminal_state y.1 !! Z.to_nat p ≫= (.!! Z.to_nat t) =
    Some (Z.of_nat (length (filter (λ w, counted_as (t_pc w) = Some p ∧ t_transaction w = t) y.2)))) ∧
  ((∀ k w, y.2 !! k = Some w → ∃ b, t_pc w = PDone b) →
   ∀ t, 0 ≤ t < 5 →
    terminal_state y.1 !! Z.to_nat EXECUTING ≫= (.!! Z.to_nat t) = Some 0 ∧
    terminal_state y.1 !! Z.to_nat THINKING ≫= (.!! Z.to_nat t) = Some 0 ∧
    terminal_state y.1 !! Z.to_nat KEYING ≫= (.!! Z.to_nat t) =
      Some (Z.of_nat (length (filter (λ w, t_pc w = PDone true ∧ t_transaction w = t) y.2)))).
Proof.
  intros Hs Hy. pose proof (settings_invariant _ _ _ _ Hs Hy) as Hi.
  assert (∀ p t, 0 ≤ p < 3 → 0 ≤ t < 5 → terminal_state y.1 !! Z.to_nat p ≫= (.!! Z.to_nat t) =
    Some (Z.of_nat (length (filter (λ w, counted_as (t_pc w) = Some p ∧ t_transaction w = t) y.2)))) as H.
  { intros p t Hp Ht. rewrite (iv_counts _ _ _ _ Hi). unfold table. rewrite lookup_map_seqZ by done.
    cbn [mbind option_bind]. by rewrite lookup_map_seqZ, tally_filter by done. }
  split; [exact H|]. intros Hall t Ht. rewrite !H by (done || by vm_compute).
  assert (Forall (λ w, ∃ b, t_pc w = PDone b) y.2) as Hdone by (apply Forall_lookup; exact Hall).
  clear -Hdone. split_and!; f_equal; induction Hdone as [|w ws [b Hb] _ IH]; simpl; try done; rewrite !filter_cons, Hb;
    destruct b; simpl; repeat case_decide; simpl; naive_solver lia.
Qed.

(** In any interleaving the lines of the log of the mix are in the order of their times, and
    the line of a terminal that ends is written after it has ended its work: no other line
    of that terminal follows. *)
Theorem mix_log_ordered time calls contexts (y : system) :
  settings_ok contexts → reachable time calls contexts y →
  StronglySorted Z.le (map line_time (log_mix y.1)) ∧
  ∀ i j t k l, (i < j)%nat → log_mix y.1 !! i = Some (LTerminated t k) → log_mix y.1 !! j = Some l → line_tid l ≠ Some k.
Proof.
  intros Hs Hy. pose proof (settings_invariant _ _ _ _ Hs Hy) as Hi. split; [apply Hi|].
  intros i j t k l Hij Hti Hj. destruct (iv_ended _ _ _ _ Hi i t k Hti) as [_ Hq]. by apply (Hq j).
Qed.
End theorems.

(** ** Witnesses *)

Definition some_libm : Libm := {| c_log := λ _, f64_zero; c_exp := λ _, f64_one |}.
Definition some_mix : transaction_mix_t := (recalculate_mix init_mix).2.

Lemma some_settings : settings_ok (Rs := some_rand) (Lm := some_libm) 2 10 1 2 [(1, 1); (2, 1)].
Proof.
  split; [by vm_compute| |constructor; [by vm_compute|constructor; [by vm_compute|constructor]]|by vm_compute].
  intros t Ht n. assert (t = 0 ∨ t = 1 ∨ t = 2 ∨ t = 3 ∨ t = 4) as H by lia.
  unfold get_think_time. erewrite bind_done by reflexivity. cbn [c_log some_libm].
  destruct H as [-> | [-> | [-> | [-> | ->]]]]; (eexists _, _; split; [vm_compute; reflexivity|done]).
Qed.

(** Two terminals, of which the first one finds the time over while it is keying. *)
Definition some_step := step (Rs := some_rand) (Lm := some_libm) 2 10 1 2 0 1000 some_mix.
Definition next (k : nat) (y : system) : system :=
  match y.2 !! k with
  | Some w =>
      match terminal_turn (Rs := some_rand) (Lm := some_libm) 2 10 1 2 0 1000 some_mix k w (Reply (t_transaction w) OK None (0, 0)) y.1 with
      | (Done w', s') => (s', <[k := w']> y.2)
      | _ => y
      end
  | None => y
  end.
Lemma next_steps k y : rtc some_step y (next k y).
Proof.
  unfold next. destruct (y.2 !! k) as [w|] eqn:E; [|done]. destruct (terminal_turn _ _ _ _ _ _ _ _ _ _ _) as [[w'|f] s'] eqn:Et; [|done].
  destruct y as [s ws]. apply rtc_once. unfold some_step. eapply step_turn; [exact E| |exact Et]. done.
Qed.
Definition some_end : system :=
  foldl (λ y k, next k y) (start 1000 0 [(1, 1); (2, 1)]) [0; 1; 0; 0; 0]%nat.
Lemma some_end_reachable : reachable (Rs := some_rand) (Lm := some_libm) 2 10 1 2 0 1000 some_mix 1000 0 [(1, 1); (2, 1)] some_end.
Proof.
  unfold reachable, some_end. generalize (start 1000 0 [(1, 1); (2, 1)]). generalize [0; 1; 0; 0; 0]%nat. intros ks.
  induction ks as [|k ks IH]; intros y; simpl; [done|]. etransitivity; [apply next_steps|apply IH].
Qed.

Lemma terminal_counts_witness :
  terminal_state some_end.1 !! Z.to_nat KEYING ≫= (.!! Z.to_nat NEW_ORDER) = Some 1.
Proof.
  rewrite (proj1 (terminal_counts (Rs := some_rand) (Lm := some_libm) 2 10 1 2 0 1000 some_mix 1000 0 [(1, 1); (2, 1)] some_end
    some_settings some_end_reachable) KEYING NEW_ORDER) by by vm_compute.
  by vm_compute.
Defined.
Lemma mix_log_ordered_witness : StronglySorted Z.le (map line_time (log_mix some_end.1)) ∧ length (log_mix some_end.1) = 1%nat.
Proof.
  split; [|by vm_compute].
  apply (mix_log_ordered (Rs := some_rand) (Lm := some_libm) 2 10 1 2 0 1000 some_mix 1000 0 [(1, 1); (2, 1)] some_end
    some_settings some_end_reachable).
Defined.
